(* ===== verification/_CoqProject ===== *)
-Q . S2P
Prelude.v
Float.v
FloatBounds.v
RustStr.v
RustText.v
Status.v
Fixpoints.v
ScoreContext.v
ScoreRules.v
ScoreBounds.v
ScorePolicy.v
StorePath.v
Proto.v
JobData.v
JobTracker.v
TrackerFacts.v
Dispatch.v
TrackerInvariant.v
WorkerPool.v
EdgeStream.v
Scheduler.v
SchedulerInvariant.v
SchedulerHandlers.v
Auth.v
Session.v
Retry.v
BuildGraph.v
Promotion.v
ClosureFlags.v
Cascade.v
Transitions.v
Healing.v
PathClosure.v
Settling.v
WaitingState.v
WaitingFacts.v
EvalResult.v
EvalResultFacts.v
DispatchBuild.v
LifecycleFacts.v
Gc.v
GcSweep.v
GcFacts.v
GraphExamples.v
Permissions.v
Access.v
Tokens.v
AccessAdmin.v
AccessTypes.v
AccessInvariant.v
AccessFacts.v
AccessExamples.v
Wildcard.v
WildcardWalk.v
WalkFacts.v
EvalPool.v
ResolverFacts.v
WalkExamples.v
Glob.v
CiState.v
Triggering.v
EvalRows.v
CiFacts.v
TriggerLoop.v
CiTheorems.v
ForgeWebhook.v
ForgeFanout.v
ForgeCommands.v
ApprovalGate.v
HookFacts.v
CiExamples.v
NixHash.v
CacheRows.v
Partials.v
NarStage.v
NarInfo.v
CacheServe.v
NarPull.v
CacheFacts.v
CacheExamples.v
