(* ===== verification/Prelude.v ===== *)
(** * Gradient: a verification development

    Gradient is a continuous-integration server for Nix flakes: workers connect over a
    websocket, evaluate flakes and build derivations; the server keeps the build graph in
    a database, schedules the work, and serves the results as binary caches behind role
    based access control; forges and their pull requests start the evaluations. This library models the decision-making parts of the server
    ([src/backend/]) as executable definitions and proves what makes them correct.
    Names of definitions are the names of the Rust items wherever possible.

    ** Reading order: files and the code they model

    Foundations
    - [Prelude]: results and their [let?] notation, machine integers, list, map and
      string lemmas, association-map helpers and the tactics all files share.
    - [Float], [FloatBounds]: binary64 and binary32 arithmetic as Rust computes it, on the
      Standard Library's SpecFloat, with magnitude bounds.
    - [RustStr], [RustText]: a [str] is its UTF-8 byte string; the operations of the
      standard library the code uses on it.
    - [Fixpoints]: recursive queries as least fixpoints with fuel, flag sweeps
      ([run_bidirectional_fixpoint]) as iterated rounds, and their generic correctness.

    Scheduling in memory (gradient-score, gradient-scheduler)
    - [ScoreContext], [ScoreRules], [ScorePolicy]: [context.rs], [rules/*.rs],
      [weights.rs], [policy.rs], [breakdown.rs]; [ScoreBounds]: no input in the ranges the
      program produces makes a score infinite or NaN.
    - [StorePath], [Proto], [JobData]: store paths, wire types and messages, queued jobs
      and the recorded views.
    - [JobTracker]: every operation of [jobs.rs]'s JobTracker. [TrackerFacts],
      [TrackerInvariant], [Dispatch] prove its invariant, that it refines the three-phase
      machine absent, queued, running, the exact effect of requeueing, and that
      [take_best_of_kind] is sound, optimal and complete.
    - [WorkerPool], [Scheduler], [SchedulerInvariant], [SchedulerHandlers]: the worker
      registry, [lib.rs] and [job_handlers/], the agreement between queue and registry in
      every reachable state, and what each handler does on each branch.

    The worker protocol (gradient-proto)
    - [Auth], [Session]: token authentication and the handshake of both ends, and the
      server's side of a session. A session turn composes [Auth] and [Scheduler].

    The build graph in the database (gradient-db, gradient-scheduler)
    - [Status]: status enums with their numbers, state machines, waiting reasons;
      [Retry]: failure texts and the retry and dispatch decisions.
    - [BuildGraph]: the tables and SQL predicates; [Promotion]: every statement of
      [promotion.rs]; [Transitions]: [status/*.rs], finalization, abort, recovery;
      [Healing]: [reconcile.rs], [cache_storage.rs] and [self_heal.rs].
    - [ClosureFlags], [PathClosure]: the derived flags are exact after a sweep, the sweeps
      end. [Cascade]: the incremental ripple agrees with the sweep, and failures reach
      exactly the anchors above them. [Settling],
      [LifecycleFacts]: no evaluation hangs.
    - [EdgeStream], [EvalResult], [EvalResultFacts]: what a batch of discovered
      derivations records, edge by edge and row by row.
    - [WaitingState], [WaitingFacts], [DispatchBuild], [LifecycleFacts]: the
      waiting-state pass, one dispatch pass (which hands its jobs to [JobTracker]), and
      the handlers worker reports end in.
    - [Gc]: garbage collection (gradient-db, gradient-cache): old evaluations, the
      mark-and-sweep over derivations, the passes over files, rows and blobs, and the
      deletion of one path. [GcSweep]: what a root needs survives the sweep whatever else
      runs, and what the sweep takes is exact. [GcFacts]: rows match objects after a pass,
      marks stay true, and where a pass and the rest of the server collide.
    - [GraphExamples]: concrete graphs; the witnesses live here.

    Access control (gradient-web, gradient-db)
    - [Permissions], [Access], [Tokens], [AccessAdmin]: masks and roles; the loaders of
      [access.rs]; request authentication; the endpoints that change keys, roles,
      members, organizations and caches. [AccessTypes], [AccessInvariant]: the access
      tables stay well-typed along every run. [AccessFacts], [AccessExamples]: what the
      loaders and keys guarantee, and concrete installations.

    What is built (gradient-eval, gradient-types)
    - [Wildcard], [WildcardWalk], [WalkFacts]: the patterns of a project, the walk over the
      outputs of a flake, and that it finds exactly what they name.
    - [EvalPool], [ResolverFacts]: the pool of evaluator processes, the sharded listing and
      the resolver that survives their crashes. [WalkExamples]: a small flake.

    When it is built (gradient-ci, gradient-scheduler, gradient-forge, gradient-web)
    - [Glob], [CiState], [EvalRows]: globs of branches and tags, the tables of projects and
      evaluations, the rows a trigger writes.
    - [Triggering]: [apply/] and [trigger/] of gradient-ci: same-commit skips, concurrency
      policies, restarts, recovery. [TriggerLoop]: [trigger_dispatch.rs], manual starts and
      the dispatch of evaluations.
    - [ForgeWebhook], [ForgeFanout], [ForgeCommands]: payloads and signatures, which
      triggers an event fires, comments, reviews, installations and the two endpoints.
    - [CiFacts], [CiTheorems], [ApprovalGate], [HookFacts], [CiExamples]: at most one active
      evaluation, what restarts leave behind, that a gated pull request is never built
      unasked, and that only signed webhooks change anything.

    The binary cache (gradient-util, gradient-sources, gradient-storage, gradient-proto,
    gradient-cache, gradient-worker, gradient-web)
    - [NixHash]: the base-32 of Nix, the spellings of a hash, verifying bytes.
    - [CacheRows]: [ingest.rs], [signing.rs], [handler/nar.rs], the keys of a cache and the
      sweep of missing signatures: the rows, the objects and the signatures of a path.
    - [Partials], [NarStage], [NarPull]: the files transfers grow in, NARs pushed by a
      worker up to their commit, NARs fetched by one. The server of [NarStage] is a step
      relation in which the two halves of a commit (bytes, then rows) are steps of their
      own.
    - [NarInfo], [CacheServe]: narinfos written, read and verified, and the endpoints that
      serve and receive.
    - [CacheFacts], [CacheExamples]: what is served for an upload, end to end, and a cache
      to run it on.

    The parts meet in these places: [Session] hands reports to [SchedulerHandlers]; those
    move [JobTracker] and the graph ([LifecycleFacts], [EvalResult]); [DispatchBuild] and
    [TriggerLoop] offer jobs to [JobTracker]; webhooks and the trigger loop both start
    evaluations through [Triggering]; [NarStage] writes the rows [CacheServe] reads, behind
    the loaders of [Access]; [Healing] takes back what is lost, and [Gc] - which deletes a
    single path through the demotion of [Healing] - what is not needed any more.

    ** How the code is modelled

    - State is passed explicitly. The tracker and the registry are records of finite maps;
      a database table is a list or finite map of rows, a statement a function on the
      tables. A handler returns the new state with the log of its messages, board events
      and reports, in the order the code emits them. A [Result] is [Prelude.result] or a
      sum; panics are not modelled, debug overflow checks among them, unless a definition
      says that it answers [None] for one.
    - A handler is atomic unless it is said otherwise ([NarStage] splits commits; a pass of
      [Gc] takes what the other tasks do before each statement as an argument): the
      model has one step per handler, sweep or session message,
      and any interleaving of these steps is a run of the step relations. The code's
      sections between two [await] points of one handler are not interleaved with others;
      where that matters in the code it is recorded among the findings.
    - Integers are [Z] or [N] with the casts written out ([wrap], [i32], [u64]);
      floating-point values are SpecFloat values, so a NaN is one.
    - What is not under [src/] is an argument, mostly of a type class: [Chrono] (time
      stamps and durations), [Serde] (serde_json values), [HashOrder] (the iteration order
      of a hash map), [Crypto] (tokens and addresses), [Digests] and [Signing]
      (SHA-256, Base64, Ed25519 and the cipher of the stored keys), [Forge], [GitRemote] and
      [Upstreams] (what is asked of other servers), the text of addresses, fresh ids, PostgreSQL's statement execution. A theorem that
      needs a law of one names it as a hypothesis or class law and its witness runs at a
      concrete instance.
    - Statements of the database are assumed to succeed, except where the code recovers
      from a failed one: [EdgeStream] and [EvalResult] let any insert fail.

    ** Fuel and bounds

    Recursion that is not structural carries fuel that is proved enough: [chunks] the
    length of the list, [recursive_query] one round more than there are rows,
    [until_noop] one round more than there are rows a flag can move
    (PathClosure.flag_sweeps_terminate), the ripple and clear worklists the number of
    anchors, [trim] and the text scanners the length of the string. Ring buffers and chunk
    sizes are the code's own constants.
    [split_whitespace], [replace_all] and [fill] take the length of their text,
    [chunks] cuts by the code's batch sizes, the keep-set and the marks behind deleted paths
    are [recursive_query]s, [record_frontier] one round more than there are derivations built for the cache, the
    crash budget of [EvalPool] is the code's own.
    ** What the groups of theorems show

    - Decisions: dispatching is sound, optimal, complete and deterministic; scores are
      bounded; one dispatch pass queues exactly what the gate offers.
    - Invariants and types: queue, running jobs and registry agree in every reachable
      state; the access tables stay well-typed; no evaluation stays building with all its
      builds settled.
    - Equivalence and refinement: incremental and global flag maintenance agree, both
      ends of the handshake agree, parking and dispatching agree, the tracker refines its
      phases, a private resource answers like a missing one.
    - Security: who may run jobs, what an API key can reach, what it can be minted with,
      which webhooks and whose approvals count, whose objects a cache serves and replaces.
    - Garbage collection: a live derivation keeps rows and NARs under any interference that
      keeps them itself, the sweep alone takes exactly what only orphans have, no pass leaves
      a mark of completeness untrue.
    - Transfers and signatures: a push commits exactly the bytes it reported, a download
      resumes to exactly the object, a narinfo reads back, and a first upload is served
      under a signature that verifies. Where uploads race or repeat this breaks, and the
      theorems say how.
    - Error behaviour: what a stale report, a late failure, a refused transition, a failed
      re-authentication or a deleted organization leaves behind. Several of these show
      behaviour at odds with the documentation; they are listed as findings.

    ** Not modelled, and why

    - The frame codec, presigned addresses, multipart uploads and the object stores
      themselves; what a worker runs (Nix, git, builds, compression) and its pipeline of
      uploads; [handler/cache.rs], which tells a worker what a cache has.
    - Metric roll-ups, retention by age and migrations: one SQL statement per table.
    - The web endpoints that read and format, the paged list of cached
      paths, sign-in, OIDC and SCIM, state provisioning, flake locks, the CLI.
    - Requests to forges: statuses, comments, pull requests, actions and mails.
    - Metrics, products and dependency-count histograms appear as logged events only.

    ** Plan

    Next: the cache queries of a worker ([handler/cache.rs]), which decide what it uploads;
    the loops that order the maintenance passes; state provisioning (gradient-state). *)

From Stdlib Require Export ZArith Lia.
From stdpp Require Export base option gmap strings list sorting fin_maps.

(** ** Notations and results

    Rust's [Result<T, E>] is a sum with named constructors; [let?] is the
    [?] operator. *)

Declare Scope gradient_scope.
Delimit Scope gradient_scope with gradient.
Global Open Scope gradient_scope.

Inductive result (A E : Type) : Type :=
| Ok (a : A)
| Err (e : E).
Arguments Ok {A E} a.
Arguments Err {A E} e.

Definition result_bind {A B E} (r : result A E) (f : A -> result B E) : result B E :=
  match r with Ok a => f a | Err e => Err e end.

Notation "'let?' x ':=' r 'in' k" := (result_bind r (fun x => k))
  (at level 10, x pattern, r at level 100, k at level 200) : gradient_scope.

Definition is_ok {A E} (r : result A E) : bool :=
  match r with Ok _ => true | Err _ => false end.

Lemma result_bind_ok {A B E} (r : result A E) (f : A -> result B E) b :
  result_bind r f = Ok b <-> exists a, r = Ok a /\ f a = Ok b.
Proof. destruct r; naive_solver. Qed.

(** ** Machine integers *)

Definition wrap (w z : Z) : Z := (z mod 2 ^ w)%Z.
Definition u8 (z : Z) : Z := wrap 8 z.
Definition u32 (z : Z) : Z := wrap 32 z.
Definition u64 (z : Z) : Z := wrap 64 z.

(** Two's complement casts. *)
Definition i32 (z : Z) : Z := (wrap 32 (z + 2 ^ 31) - 2 ^ 31)%Z.

Lemma wrap_small w z : (0 <= z < 2 ^ w)%Z -> wrap w z = z.
Proof. apply Z.mod_small. Qed.

Lemma wrap_range w z : (0 <= w)%Z -> (0 <= wrap w z < 2 ^ w)%Z.
Proof. intros. unfold wrap. apply Z.mod_pos_bound. lia. Qed.

Lemma i32_small z : (- 2 ^ 31 <= z < 2 ^ 31)%Z -> i32 z = z.
Proof. intros. unfold i32. rewrite wrap_small; lia. Qed.

(** ** Chunks *)

(** [slice::chunks]: consecutive pieces of [n] elements, the last one shorter. *)
Fixpoint chunks_fuel {A} (fuel n : nat) (l : list A) : list (list A) :=
  match fuel, l with
  | S fuel, _ :: _ => take n l :: chunks_fuel fuel n (drop n l)
  | _, _ => []
  end.

(** A list has at most as many pieces as elements. *)
Definition chunks {A} (n : nat) (l : list A) : list (list A) := chunks_fuel (length l) n l.

Lemma concat_chunks {A} n (l : list A) : n ≠ 0 -> concat (chunks n l) = l.
Proof.
  intros Hn. unfold chunks.
  enough (H : forall fuel (l : list A), length l <= fuel -> concat (chunks_fuel fuel n l) = l) by auto.
  clear l. induction fuel as [|fuel IH]; intros [|x l] Hl; simpl in *; try done; [lia|].
  rewrite IH, take_drop; [done|]. rewrite length_drop. simpl. lia.
Qed.

(** ** Automation *)

Create HintDb gradient discriminated.
#[export] Hint Constants Transparent : gradient.

(** Split a goal on every boolean test and match scrutinee in it. *)
Ltac case_tests :=
  repeat (case_match; simplify_eq/=; try done).

(** Turn the boolean tests of the source into propositions. *)
Ltac bool_to_prop :=
  repeat match goal with
  | H : _ && _ = true |- _ => apply andb_true_iff in H; destruct H
  | H : _ || _ = false |- _ => apply orb_false_iff in H; destruct H
  | H : negb _ = true |- _ => apply negb_true_iff in H
  | H : negb _ = false |- _ => apply negb_false_iff in H
  | H : bool_decide _ = true |- _ => apply bool_decide_eq_true in H
  | H : bool_decide _ = false |- _ => apply bool_decide_eq_false in H
  end.

(** ** Lists *)

Lemma NoDup_map_inj {A B} (f : A -> B) l x y :
  NoDup (map f l) -> x ∈ l -> y ∈ l -> f x = f y -> x = y.
Proof.
  intros Hnd Hx Hy Hf. apply list_elem_of_lookup in Hx as [i Hi], Hy as [j Hj].
  assert (i = j) as ->; [|by simplify_eq].
  eapply (NoDup_lookup (map f l)); [done|..]; change (map f l) with (f <$> l);
    by rewrite list_lookup_fmap, ?Hi, ?Hj; simpl; rewrite ?Hf.
Qed.

(** ** Stable sorting with a comparator: Rust's [slice::sort_by]

    [sort_by] is a stable sort. For a comparator that is a total preorder every
    stable sort computes the same list, so insertion sort is a faithful
    executable stand-in for the standard library's merge sort. *)

Section sort_by.
Context {A : Type} (cmp : A -> A -> comparison).

Fixpoint insert_by (x : A) (l : list A) : list A :=
  match l with
  | [] => [x]
  | y :: l' => match cmp x y with
               | Gt => y :: insert_by x l'
               | _ => x :: y :: l'
               end
  end.

Fixpoint sort_by (l : list A) : list A :=
  match l with
  | [] => []
  | x :: l' => insert_by x (sort_by l')
  end.

Lemma insert_by_perm x l : insert_by x l ≡ₚ x :: l.
Proof.
  induction l as [|y l IH]; simpl; [done|].
  destruct (cmp x y); try done. rewrite IH. apply Permutation_swap.
Qed.

Lemma sort_by_perm l : sort_by l ≡ₚ l.
Proof. induction l as [|x l IH]; simpl; [done|]. by rewrite insert_by_perm, IH. Qed.

Lemma sort_by_elem x l : x ∈ sort_by l <-> x ∈ l.
Proof. by rewrite sort_by_perm. Qed.

Definition not_gt (x y : A) : Prop := cmp x y ≠ Gt.

(** The laws the comparator must satisfy on the elements of interest. *)
Record total_on (P : A -> Prop) : Prop := {
  total_flip x y : P x -> P y -> cmp y x = CompOpp (cmp x y);
  total_trans x y z : P x -> P y -> P z ->
    not_gt x y -> not_gt y z -> not_gt x z;
  total_eq x y : P x -> P y -> cmp x y = Eq -> x = y;
}.

Context {P : A -> Prop} (HP : total_on P).

Lemma insert_by_sorted x l :
  P x -> Forall P l -> StronglySorted not_gt l -> StronglySorted not_gt (insert_by x l).
Proof.
  intros Hx Hl Hs. induction Hs as [|y l Hs IH Hy]; simpl.
  { repeat constructor. }
  inversion Hl as [|? ? HPy HPl]; subst.
  assert (Hcase : cmp x y ≠ Gt -> StronglySorted not_gt (x :: y :: l)).
  { intros Hxy. constructor; [by constructor|]. constructor; [done|].
    rewrite Forall_forall in Hy, HPl |- *. intros z Hz.
    apply (total_trans _ HP x y z); auto. }
  destruct (cmp x y) eqn:E; [by apply Hcase..|].
  constructor; [by apply IH|]. rewrite insert_by_perm. constructor; [|done].
  unfold not_gt. by rewrite (total_flip _ HP x y), E.
Qed.

Lemma sort_by_sorted l : Forall P l -> StronglySorted not_gt (sort_by l).
Proof.
  induction 1 as [|x l Hx Hl IH]; simpl; [constructor|].
  apply insert_by_sorted; [done|by rewrite sort_by_perm|done].
Qed.

(** The head of the sorted list is a minimum for the comparator. *)
Lemma sort_by_head l x l' y :
  Forall P l -> sort_by l = x :: l' -> y ∈ l -> not_gt x y.
Proof.
  intros HPl Heq Hy. pose proof (sort_by_sorted l HPl) as Hs.
  rewrite <- sort_by_elem, Heq in Hy. rewrite Heq in Hs.
  inversion Hs as [|? ? ? Hall]; subst. apply elem_of_cons in Hy as [->|Hy].
  - assert (Hx : P x).
    { rewrite Forall_forall in HPl. apply HPl, sort_by_elem. rewrite Heq. left. }
    pose proof (total_flip _ HP x x Hx Hx) as Hf. unfold not_gt. by destruct (cmp x x).
  - rewrite Forall_forall in Hall. by apply Hall.
Qed.

Lemma sorted_unique l1 l2 :
  Forall P l1 -> l1 ≡ₚ l2 -> StronglySorted not_gt l1 -> StronglySorted not_gt l2 -> l1 = l2.
Proof.
  revert l2. induction l1 as [|x l1 IH]; intros l2 HPl Hperm Hs1 Hs2.
  { by apply Permutation_nil_l in Hperm. }
  destruct l2 as [|y l2]; [by apply symmetry, Permutation_nil_l in Hperm|].
  assert (HPl2 : Forall P (y :: l2)) by by rewrite <- Hperm.
  inversion HPl as [|? ? HPx HPl1]; inversion HPl2 as [|? ? HPy HPl2']; subst.
  inversion Hs1 as [|? ? Hs1' Hx]; inversion Hs2 as [|? ? Hs2' Hy]; subst.
  assert (x = y) as ->.
  { assert (Hin1 : x ∈ y :: l2) by (rewrite <- Hperm; left).
    assert (Hin2 : y ∈ x :: l1) by (rewrite Hperm; left).
    apply elem_of_cons in Hin1 as [?|Hin1]; [done|].
    apply elem_of_cons in Hin2 as [?|Hin2]; [done|].
    rewrite Forall_forall in Hx, Hy. specialize (Hx _ Hin2). specialize (Hy _ Hin1).
    apply (total_eq _ HP); [done..|]. unfold not_gt in *.
    pose proof (total_flip _ HP x y HPx HPy) as Hf.
    by destruct (cmp x y). }
  f_equal. apply IH; try done. by apply (inj (cons y)) in Hperm.
Qed.

(** Sorting forgets the order of its input: the result depends only on the
    multiset of elements. *)
Lemma sort_by_perm_eq l1 l2 : Forall P l1 -> l1 ≡ₚ l2 -> sort_by l1 = sort_by l2.
Proof.
  intros HPl Hperm. apply sorted_unique.
  - by rewrite sort_by_perm.
  - by rewrite !sort_by_perm.
  - by apply sort_by_sorted.
  - apply sort_by_sorted. by rewrite <- Hperm.
Qed.
End sort_by.

(** The lexicographic composition of two comparators ([Ordering::then_with]). *)
Section lex.
Context {A : Type} (c1 c2 : A -> A -> comparison) (P : A -> Prop).

Definition then_with (x y : A) : comparison :=
  match c1 x y with Eq => c2 x y | c => c end.

Record preorder_on (c : A -> A -> comparison) : Prop := {
  po_flip x y : P x -> P y -> c y x = CompOpp (c x y);
  po_trans x y z : P x -> P y -> P z -> not_gt c x y -> not_gt c y z -> not_gt c x z;
}.

Lemma then_with_preorder : preorder_on c1 -> preorder_on c2 -> preorder_on then_with.
Proof.
  intros [F1 T1] [F2 T2]. split; unfold not_gt, then_with in *.
  - intros x y Hx Hy. rewrite (F1 x y), (F2 x y) by done. by destruct (c1 x y).
  - intros x y z Hx Hy Hz Hxy Hyz.
    pose proof (T1 x y z Hx Hy Hz) as Hxz. pose proof (T1 z x y Hz Hx Hy) as Hzy.
    pose proof (T1 y z x Hy Hz Hx) as Hyx. pose proof (T2 x y z Hx Hy Hz) as H2.
    rewrite (F1 x z), (F1 y z) in Hzy by done. rewrite (F1 x z), (F1 x y) in Hyx by done.
    destruct (c1 x y), (c1 y z), (c1 x z); simpl in *; try done;
      first [by apply H2|exfalso; by apply Hxz|exfalso; by apply Hzy|exfalso; by apply Hyx].
Qed.
End lex.

#[export] Hint Resolve insert_by_perm sort_by_perm : gradient.
