(* ===== verification/Float.v ===== *)
(** * IEEE 754 arithmetic as Rust computes it

    [f64] and [f32] are the binary64 and binary32 formats. The model is the
    Standard Library's executable specification of IEEE 754 ([SpecFloat]): every
    operation rounds to nearest, ties to even. The file adds the Rust-level
    operations ([as] casts, [min], [max], [clamp], [partial_cmp]) and the lemmas
    the scoring rules need: the comparison is a total order away from NaN,
    operations preserve signs, and scaling a bonus cap by a fraction of one stays
    within the cap, rounding included. *)

From S2P Require Import Prelude.
From Stdlib Require Export SpecFloat.

Local Open Scope Z_scope.

Abbreviation f64 := spec_float.
Abbreviation f32 := spec_float.

(** ** Operations *)

Definition f64_add : f64 -> f64 -> f64 := SFadd 53 1024.
Definition f64_sub : f64 -> f64 -> f64 := SFsub 53 1024.
Definition f64_mul : f64 -> f64 -> f64 := SFmul 53 1024.
Definition f64_div : f64 -> f64 -> f64 := SFdiv 53 1024.
Definition f64_neg : f64 -> f64 := SFopp.

(** [x as f64] for an integer [x]. *)
Definition f64_of_Z (z : Z) : f64 := binary_normalize 53 1024 z 0 false.

(** A decimal literal [num/den]: the division of two exactly representable
    integers rounds to the double nearest the rational, as the literal does. *)
Definition f64_of_ratio (num den : Z) : f64 := f64_div (f64_of_Z num) (f64_of_Z den).

(** [x as f64] for [x : f32] (exact) and [x as f32] for [x : f64] (rounding). *)
Definition convert (prec emax : Z) (x : spec_float) : spec_float :=
  match x with
  | S754_finite s m e => binary_normalize prec emax (cond_Zopp s (Zpos m)) e s
  | _ => x
  end.
Definition f64_of_f32 (x : f32) : f64 := convert 53 1024 x.
Definition f32_of_f64 (x : f64) : f32 := convert 24 128 x.

Definition f64_zero : f64 := S754_zero false.
Definition f64_one : f64 := f64_of_Z 1.

Definition f64_lt (x y : f64) : bool := SFltb x y.
Definition f64_le (x y : f64) : bool := SFleb x y.
Definition f64_gt (x y : f64) : bool := SFltb y x.
Definition f64_ge (x y : f64) : bool := SFleb y x.

Definition is_nan (x : spec_float) : bool :=
  match x with S754_nan => true | _ => false end.
Definition is_finite (x : spec_float) : bool :=
  match x with S754_nan | S754_infinity _ => false | _ => true end.

(** [f64::min] and [f64::max]: the other operand when one is NaN. *)
Definition f64_min (x y : f64) : f64 :=
  if is_nan x then y else if is_nan y then x else if f64_lt y x then y else x.
Definition f64_max (x y : f64) : f64 :=
  if is_nan x then y else if is_nan y then x else if f64_lt x y then y else x.

(** [f64::clamp]: NaN passes through. *)
Definition f64_clamp (x lo hi : f64) : f64 :=
  let x := if f64_lt x lo then lo else x in
  if f64_gt x hi then hi else x.

(** [a.partial_cmp(&b).unwrap_or(Ordering::Equal)] *)
Definition partial_cmp_or_eq (x y : f64) : comparison :=
  match SFcompare x y with Some c => c | None => Eq end.

(** ** The order on non-NaN values

    [SFcompare] is lexicographic in (class, exponent, mantissa): [okey] is that
    key, and the comparison of two non-NaN floats is the comparison of keys. *)

Definition okey (x : spec_float) : Z * Z * Z :=
  match x with
  | S754_infinity true => (-2, 0, 0)
  | S754_finite true m e => (-1, -e, -Zpos m)
  | S754_zero _ => (0, 0, 0)
  | S754_finite false m e => (1, e, Zpos m)
  | S754_infinity false => (2, 0, 0)
  | S754_nan => (3, 0, 0)
  end.

Definition lex3 (a b : Z * Z * Z) : comparison :=
  match a.1.1 ?= b.1.1 with
  | Eq => match a.1.2 ?= b.1.2 with
          | Eq => a.2 ?= b.2
          | c => c
          end
  | c => c
  end.

Lemma SFcompare_key x y :
  is_nan x = false -> is_nan y = false -> SFcompare x y = Some (lex3 (okey x) (okey y)).
Proof.
  destruct x as [[]|[]| |[] m e], y as [[]|[]| |[] m' e']; try done; intros _ _;
    unfold lex3; simpl; f_equal.
  rewrite Z.compare_opp, (Z.compare_antisym e e'). by destruct (e ?= e').
Qed.

Lemma lex3_flip a b : lex3 b a = CompOpp (lex3 a b).
Proof.
  unfold lex3. rewrite (Z.compare_antisym a.1.1), (Z.compare_antisym a.1.2), (Z.compare_antisym a.2).
  by repeat (case_match; simplify_eq/=).
Qed.

Lemma lex3_trans a b c : lex3 a b ≠ Gt -> lex3 b c ≠ Gt -> lex3 a c ≠ Gt.
Proof.
  unfold lex3. intros H1 H2.
  destruct (Z.compare_spec a.1.1 b.1.1), (Z.compare_spec b.1.1 c.1.1),
    (Z.compare_spec a.1.1 c.1.1); try lia; try done;
  destruct (Z.compare_spec a.1.2 b.1.2), (Z.compare_spec b.1.2 c.1.2),
    (Z.compare_spec a.1.2 c.1.2); try lia; try done;
  destruct (Z.compare_spec a.2 b.2), (Z.compare_spec b.2 c.2),
    (Z.compare_spec a.2 c.2); try lia; try done.
Qed.

Lemma partial_cmp_key x y :
  is_nan x = false -> is_nan y = false -> partial_cmp_or_eq x y = lex3 (okey x) (okey y).
Proof. intros Hx Hy. unfold partial_cmp_or_eq. by rewrite SFcompare_key. Qed.

Lemma f64_le_key x y :
  is_nan x = false -> is_nan y = false -> f64_le x y = true <-> lex3 (okey x) (okey y) ≠ Gt.
Proof.
  intros. unfold f64_le, SFleb. rewrite SFcompare_key by done. by destruct (lex3 _ _).
Qed.

Lemma f64_le_nan x y : f64_le x y = true -> is_nan x = false /\ is_nan y = false.
Proof. by destruct x, y. Qed.

Lemma f64_le_trans x y z : f64_le x y = true -> f64_le y z = true -> f64_le x z = true.
Proof.
  intros H1 H2. destruct (f64_le_nan _ _ H1), (f64_le_nan _ _ H2).
  rewrite f64_le_key in * by done. by eapply lex3_trans.
Qed.

Lemma f64_min_le_r x y : is_nan y = false -> f64_le (f64_min x y) y = true.
Proof.
  intros Hy. unfold f64_min, f64_lt, SFltb.
  destruct (is_nan x) eqn:Hx; rewrite ?Hy.
  { rewrite f64_le_key, lex3_flip by done. pose proof (lex3_flip (okey y) (okey y)).
    by destruct (lex3 (okey y) (okey y)). }
  rewrite SFcompare_key by done. destruct (lex3 (okey y) (okey x)) eqn:E.
  all: rewrite f64_le_key by done.
  - by rewrite lex3_flip, E.
  - pose proof (lex3_flip (okey y) (okey y)). by destruct (lex3 (okey y) (okey y)).
  - by rewrite lex3_flip, E.
Qed.

(** ** Rounding: what [binary_round_aux] returns *)

Section rounding.
Context {prec emax : Z} (Hprec : 0 < prec).

Definition is_exact (r : shr_record) : Prop := shr_r r = false /\ shr_s r = false.

(** A shift right by [n] bits from a record computes the quotient by [2^n],
    and reports an exact location exactly when it drops no set bit. *)
Lemma shr_1_spec r :
  0 <= shr_m r ->
  shr_m (shr_1 r) = shr_m r / 2 /\
  (is_exact (shr_1 r) <-> shr_m r mod 2 = 0 /\ is_exact r).
Proof.
  unfold is_exact. destruct r as [m r s]. simpl. intros Hm.
  destruct m as [|[p|p|]|p]; simpl; try lia; split; try done.
  - destruct r, s; simpl; intuition discriminate.
  - rewrite (Pos2Z.inj_xI p). Z.to_euclidean_division_equations. lia.
  - rewrite (Pos2Z.inj_xI p), Z.mul_comm, Z.add_comm, Z_mod_plus_full.
    destruct r, s; simpl; intuition discriminate.
  - rewrite (Pos2Z.inj_xO p). Z.to_euclidean_division_equations. lia.
  - rewrite (Pos2Z.inj_xO p), Z.mul_comm, Z_mod_mult. destruct r, s; simpl; intuition discriminate.
  - destruct r, s; simpl; intuition discriminate.
Qed.

Lemma iter_pos_iter {A} (f : A -> A) n x : iter_pos f n x = Nat.iter (Pos.to_nat n) f x.
Proof.
  revert x. induction n as [n IH|n IH|]; intros x; cbn [iter_pos]; [| |done].
  - rewrite !IH, <- Nat.iter_add, <- Nat.iter_succ_r.
    by replace (Pos.to_nat n~1) with (S (Pos.to_nat n + Pos.to_nat n)) by lia.
  - rewrite !IH, <- Nat.iter_add.
    by replace (Pos.to_nat n~0) with (Pos.to_nat n + Pos.to_nat n)%nat by lia.
Qed.

Lemma shr_iter_spec n r0 :
  0 <= shr_m r0 ->
  let r := Nat.iter n shr_1 r0 in
  shr_m r = shr_m r0 / 2 ^ Z.of_nat n /\
  (is_exact r <-> shr_m r0 mod 2 ^ Z.of_nat n = 0 /\ is_exact r0).
Proof.
  intros Hm. induction n as [|n [IH1 IH2]]; simpl.
  { rewrite Z.div_1_r, Zmod_1_r. tauto. }
  set (r := Nat.iter n shr_1 r0) in *.
  assert (Hpos : 0 < 2 ^ Z.of_nat n) by lia.
  assert (0 <= shr_m r) by (rewrite IH1; apply Z.div_pos; lia).
  destruct (shr_1_spec r) as [H1 H2]; [done|].
  rewrite Nat2Z.inj_succ, Z.pow_succ_r, Z.mul_comm by lia. split.
  - rewrite H1, IH1, Z.div_div by lia. done.
  - rewrite H2, IH1, IH2, Z.rem_mul_r by lia.
    pose proof (Z.mod_pos_bound (shr_m r0) _ Hpos).
    pose proof (Z.mod_pos_bound (shr_m r0 / 2 ^ Z.of_nat n) 2 ltac:(lia)).
    assert (forall a b p, 0 < p -> 0 <= a -> 0 <= b -> (b + p * a = 0 <-> a = 0 /\ b = 0)) as -> by nia.
    all: try lia; tauto.
Qed.

Lemma digits2_pos_spec p : 2 ^ (Zpos (digits2_pos p) - 1) <= Zpos p < 2 ^ Zpos (digits2_pos p).
Proof.
  induction p as [p IH|p IH|]; simpl digits2_pos; [| |done].
  all: rewrite Pos2Z.inj_succ.
  all: replace (Z.succ (Zpos (digits2_pos p)) - 1) with (Z.succ (Zpos (digits2_pos p) - 1)) by lia.
  all: rewrite !Z.pow_succ_r by lia; lia.
Qed.

Lemma digits_bound m d : 0 <= m < 2 ^ d -> 0 <= d -> Zdigits2 m <= d.
Proof.
  intros Hm Hd. destruct m as [|p|p]; simpl; [lia| |lia].
  pose proof (digits2_pos_spec p).
  assert (2 ^ (Zpos (digits2_pos p) - 1) < 2 ^ d) as Hlt by lia.
  apply Z.pow_lt_mono_r_iff in Hlt; lia.
Qed.

Lemma digits_lt m : 0 <= m -> m < 2 ^ Zdigits2 m.
Proof. destruct m as [|p|p]; simpl; [lia| |lia]. intros. apply digits2_pos_spec. Qed.

(** The shift [shr_fexp] applies to an exact mantissa. *)
Definition shift_of (m e : Z) : Z := fexp prec emax (Zdigits2 m + e) - e.

Lemma shr_fexp_spec m e l :
  0 <= m ->
  exists r, shr_fexp prec emax m e l = (r, e + Z.max 0 (shift_of m e)) /\
    shr_m r = m / 2 ^ Z.max 0 (shift_of m e) /\
    (loc_of_shr_record r = loc_Exact <->
     m mod 2 ^ Z.max 0 (shift_of m e) = 0 /\ l = loc_Exact).
Proof.
  intros Hm. unfold shr_fexp. fold (shift_of m e). set (r0 := shr_record_of_loc m l).
  assert (Hr0 : shr_m r0 = m) by (by destruct l as [|[]]).
  assert (Hloc : forall r, loc_of_shr_record r = loc_Exact <-> is_exact r).
  { unfold is_exact. intros [? [] []]; simpl; naive_solver. }
  assert (Hl : is_exact r0 <-> l = loc_Exact).
  { unfold is_exact. subst r0. destruct l as [|[]]; simpl; naive_solver. }
  assert (H0 : Z.max 0 (shift_of m e) = 0 ->
    exists r, (r0, e) = (r, e + Z.max 0 (shift_of m e)) /\
      shr_m r = m / 2 ^ Z.max 0 (shift_of m e) /\
      (loc_of_shr_record r = loc_Exact <->
       m mod 2 ^ Z.max 0 (shift_of m e) = 0 /\ l = loc_Exact)).
  { intros ->. exists r0. rewrite Z.add_0_r, Z.div_1_r, Zmod_1_r, Hloc. tauto. }
  destruct (shift_of m e) as [|p|p] eqn:E; simpl shr; [by apply H0| |by apply H0].
  exists (iter_pos shr_1 p r0). rewrite iter_pos_iter.
  destruct (shr_iter_spec (Pos.to_nat p) r0) as [H1 H2]; [lia|].
  rewrite positive_nat_Z, Hr0 in H1, H2. split; [done|]. split; [done|].
  by rewrite Hloc, H2, Hl.
Qed.

(** After the shift the mantissa fits in [prec] bits. *)
Lemma shr_fexp_fits m e : 0 <= m -> m / 2 ^ Z.max 0 (shift_of m e) < 2 ^ prec.
Proof.
  intros Hm. set (n := Z.max 0 (shift_of m e)).
  assert (Hn : Zdigits2 m <= prec + n).
  { subst n. unfold shift_of, fexp. lia. }
  apply Z.div_lt_upper_bound; [lia|]. rewrite <- Z.pow_add_r by lia.
  eapply Z.lt_le_trans; [by apply digits_lt|]. apply Z.pow_le_mono_r; lia.
Qed.

Lemma round_nearest_even_range m l :
  m <= round_nearest_even m l <= m + 1 /\ (l = loc_Exact -> round_nearest_even m l = m).
Proof. destruct l as [|[]]; simpl; try case_match; split; try done; lia. Qed.

(** The shape of a rounded value: the sign is kept, the mantissa is
    non-negative and fits in [prec] bits, so the result is never NaN. *)
Lemma round_aux_shape sx m e l :
  0 <= m ->
  exists m' e', 0 <= m' < 2 ^ prec /\
    binary_round_aux prec emax sx m e l =
      match m' with
      | Z0 => S754_zero sx
      | Zpos p => if e' <=? emax - prec then S754_finite sx p e' else S754_infinity sx
      | Zneg _ => S754_nan
      end.
Proof.
  intros Hm. unfold binary_round_aux.
  destruct (shr_fexp_spec m e l Hm) as (r & -> & Hr & _).
  assert (Hr0 : 0 <= shr_m r) by (rewrite Hr; apply Z.div_pos; lia).
  pose proof (proj1 (round_nearest_even_range (shr_m r) (loc_of_shr_record r))) as Hrne.
  set (m2 := round_nearest_even _ _) in *.
  destruct (shr_fexp_spec m2 (e + Z.max 0 (shift_of m e)) loc_Exact) as (r' & -> & Hr' & _); [lia|].
  exists (shr_m r'). eexists. split; [|done]. rewrite Hr'.
  split; [apply Z.div_pos; lia|]. apply shr_fexp_fits. lia.
Qed.

(** Rounding is monotone against a representable bound: a value that is at
    most the normal number [M * 2^E] still is after rounding. *)
Lemma round_aux_le m e M E :
  0 <= m -> 2 ^ (prec - 1) <= Zpos M < 2 ^ prec -> 3 - emax - prec <= E <= emax - prec ->
  e <= fexp prec emax (Zdigits2 m + e) -> e <= E -> m <= Zpos M * 2 ^ (E - e) ->
  SFleb (binary_round_aux prec emax false m e loc_Exact) (S754_finite false M E) = true.
Proof.
  intros Hm HM HE He HeE Hle. unfold binary_round_aux.
  destruct (shr_fexp_spec m e loc_Exact Hm) as (r & -> & Hr & Hloc).
  assert (Hs : 0 <= shift_of m e) by (unfold shift_of; lia).
  rewrite Z.max_r in Hr, Hloc |- * by done. set (n := shift_of m e) in *.
  assert (Hdig : Zdigits2 m <= prec + (E - e)).
  { apply digits_bound; [|lia]. split; [done|]. rewrite Z.pow_add_r by lia.
    pose proof (Z.pow_pos_nonneg 2 (E - e) ltac:(lia) ltac:(lia)). nia. }
  assert (HeE1 : e + n <= E) by (subst n; unfold shift_of, fexp, emin in *; lia).
  set (B := Zpos M * 2 ^ (E - (e + n))).
  assert (HB : Zpos M * 2 ^ (E - e) = B * 2 ^ n).
  { subst B. rewrite <- Z.mul_assoc, <- Z.pow_add_r by lia. do 2 f_equal. lia. }
  rewrite HB in Hle.
  assert (Hpn : 0 < 2 ^ n) by (apply Z.pow_pos_nonneg; lia).
  assert (Hm1 : shr_m r <= B).
  { rewrite Hr. apply Z.div_le_upper_bound; lia. }
  assert (Hm1' : 0 <= shr_m r < 2 ^ prec).
  { rewrite Hr. split; [apply Z.div_pos; lia|].
    pose proof (shr_fexp_fits m e Hm) as Hf. by rewrite Z.max_r in Hf. }
  pose proof (round_nearest_even_range (shr_m r) (loc_of_shr_record r)) as [Hrne Hex].
  set (m2 := round_nearest_even _ _) in *.
  assert (Hm2 : m2 <= B).
  { destruct (Z.eq_dec (shr_m r) B) as [Heq|]; [|lia].
    rewrite Hex; [lia|]. apply Hloc. split; [|done].
    rewrite Hr in Heq. pose proof (Z.div_mod m (2 ^ n)). 
    pose proof (Z.mod_pos_bound m (2 ^ n)). nia. }
  clear Hex Hloc Hr Hle HB.
  destruct (shr_fexp_spec m2 (e + n) loc_Exact) as (r' & -> & Hr' & _); [lia|].
  assert (Hdig2 : m2 < 2 ^ prec -> Z.max 0 (shift_of m2 (e + n)) = 0).
  { intros. assert (Zdigits2 m2 <= prec) by (apply digits_bound; lia).
    assert (e + n = fexp prec emax (Zdigits2 m + e)) by (subst n; unfold shift_of; lia).
    unfold shift_of, fexp, emin in *. lia. }
  destruct (Z.lt_ge_cases m2 (2 ^ prec)) as [Hlt|Hge].
  - rewrite Hdig2 in Hr' |- * by done. rewrite Z.add_0_r, Z.div_1_r in *.
    destruct (shr_m r') as [|p|p] eqn:Ep; [done| |lia].
    rewrite (proj2 (Z.leb_le _ _)) by lia. unfold SFleb. simpl.
    destruct (Z.compare_spec (e + n) E) as [Heq|Hl|Hg]; [|done|lia].
    subst B. rewrite Heq, Z.sub_diag in Hm2.
    fold (Pos.compare p M). by destruct (Pos.compare_spec p M); try lia.
  - assert (m2 = 2 ^ prec) as Hm2eq by lia.
    assert (Hd : Zdigits2 m2 = prec + 1).
    { rewrite Hm2eq. pose proof (Z.pow_pos_nonneg 2 prec ltac:(lia) ltac:(lia)).
      assert (Zdigits2 (2 ^ prec) <= prec + 1).
      { apply digits_bound; [|lia]. rewrite Z.pow_add_r; lia. }
      assert (0 <= Zdigits2 (2 ^ prec)) by (destruct (2 ^ prec); simpl; lia).
      pose proof (digits_lt (2 ^ prec) ltac:(lia)) as Hx. apply Z.pow_lt_mono_r_iff in Hx; lia. }
    assert (Hsh : Z.max 0 (shift_of m2 (e + n)) = 1).
    { assert (e + n = fexp prec emax (Zdigits2 m + e)) by (subst n; unfold shift_of; lia).
      unfold shift_of, fexp, emin in *. rewrite Hd. lia. }
    rewrite Hsh, Hm2eq in Hr'. rewrite Hsh.
    assert (Hr2 : shr_m r' = 2 ^ (prec - 1)).
    { rewrite Hr'. replace prec with (Z.succ (prec - 1)) at 1 by lia.
      rewrite Z.pow_succ_r, Z.mul_comm by lia. apply Z.div_mul. lia. }
    assert (HeE2 : e + n < E).
    { destruct (Z.eq_dec (e + n) E) as [Heq|]; [|lia]. subst B. rewrite Heq, Z.sub_diag in Hm2. lia. }
    destruct (shr_m r') as [|p|p] eqn:Ep; [done| |lia].
    rewrite (proj2 (Z.leb_le _ _)) by lia. unfold SFleb. simpl.
    destruct (Z.compare_spec (e + n + 1) E) as [Heq|Hl|Hg]; [|done|lia].
    fold (Pos.compare p M). by destruct (Pos.compare_spec p M); try lia.
Qed.
End rounding.

(** ** Alignment and [binary_round] *)

Lemma shl_align_spec m e e' :
  let '(m', ez) := shl_align m e e' in
  ez = Z.min e e' /\ Zpos m' = Zpos m * 2 ^ (e - ez) /\
  Zdigits2 (Zpos m') = Zdigits2 (Zpos m) + (e - ez).
Proof.
  unfold shl_align. destruct (e' - e) as [|d|d] eqn:E; simpl.
  1,2: replace (Z.min e e') with e by lia; rewrite Z.sub_diag, Z.pow_0_r; lia.
  replace (Z.min e e') with e' by lia. replace (e - e') with (Zpos d) by lia.
  split; [done|]. clear E. induction d as [|d [IH1 IH2]] using Pos.peano_ind.
  - split; [simpl; lia|]. apply Pos2Z.inj_succ.
  - rewrite Pos.iter_succ, (Pos2Z.inj_succ d), Z.pow_succ_r by lia.
    split; [rewrite Pos2Z.inj_xO, IH1; ring|].
    etrans; [apply Pos2Z.inj_succ|]. cbn [Zdigits2] in *.
    change (Z.succ (Zpos (digits2_pos (Pos.iter xO m d))) = Zpos (digits2_pos m) + Z.succ (Zpos d)).
    change (PosDef.Pos.iter xO m d) with (Pos.iter xO m d) in IH2. lia.
Qed.

Lemma binary_round_le prec emax m e M E :
  0 < prec -> 2 ^ (prec - 1) <= Zpos M < 2 ^ prec -> 3 - emax - prec <= E <= emax - prec ->
  e <= E -> Zpos m <= Zpos M * 2 ^ (E - e) ->
  SFleb (binary_round prec emax false m e) (S754_finite false M E) = true.
Proof.
  intros Hprec HM HE HeE Hle. unfold binary_round.
  pose proof (shl_align_spec m e (fexp prec emax (Zpos (digits2_pos m) + e))) as Hal.
  destruct (shl_align _ _ _) as [m' ez]. destruct Hal as (Hez & Hm' & Hd).
  apply round_aux_le; try done; try lia.
  - rewrite Hd. simpl Zdigits2. replace (Zpos (digits2_pos m) + (e - ez) + ez)
      with (Zpos (digits2_pos m) + e) by lia. lia.
  - rewrite Hm'. replace (E - ez) with ((E - e) + (e - ez)) by lia.
    rewrite Z.pow_add_r by lia. rewrite Z.mul_assoc.
    apply Z.mul_le_mono_nonneg_r; [|done]. apply Z.pow_nonneg. lia.
Qed.

(** ** Signs *)

(** [x] is a zero, or a non-NaN value of sign [s] ([false] is positive). *)
Definition has_sign (s : bool) (x : spec_float) : Prop :=
  match x with
  | S754_zero _ => True
  | S754_infinity s' | S754_finite s' _ _ => s' = s
  | S754_nan => False
  end.

Abbreviation nonneg := (has_sign false).
Abbreviation nonpos := (has_sign true).

(** The mantissa fits in 53 bits, as that of every [f64] does. *)
Definition fits (x : f64) : Prop :=
  match x with S754_finite _ m _ => Zpos m < 2 ^ 53 | _ => True end.

Lemma has_sign_not_nan s x : has_sign s x -> is_nan x = false.
Proof. by destruct x. Qed.

Lemma has_sign_or x : is_nan x = false -> nonneg x \/ nonpos x.
Proof. destruct x as [|[]| |[]]; naive_solver. Qed.

Lemma round_aux_sign s m e l :
  0 <= m -> has_sign s (binary_round_aux 53 1024 s m e l).
Proof.
  intros Hm. destruct (round_aux_shape (prec := 53) (emax := 1024) ltac:(lia) s m e l Hm)
    as (m' & e' & Hm' & ->). destruct m'; simpl; [done| |lia]. by case_match.
Qed.

Lemma round_aux_fits s m e l : 0 <= m -> fits (binary_round_aux 53 1024 s m e l).
Proof.
  intros Hm. destruct (round_aux_shape (prec := 53) (emax := 1024) ltac:(lia) s m e l Hm)
    as (m' & e' & Hm' & ->). destruct m'; simpl; [done| |lia]. case_match; simpl; lia.
Qed.

Lemma binary_round_sign s m e : has_sign s (binary_round 53 1024 s m e).
Proof. unfold binary_round. destruct (shl_align _ _ _). by apply round_aux_sign. Qed.

Lemma binary_round_fits s m e : fits (binary_round 53 1024 s m e).
Proof. unfold binary_round. destruct (shl_align _ _ _). by apply round_aux_fits. Qed.

Lemma normalize_fits m e s : fits (binary_normalize 53 1024 m e s).
Proof. destruct m; simpl; [done|apply binary_round_fits..]. Qed.

Lemma normalize_sign (s : bool) m e z :
  (if s return Prop then m <= 0 else 0 <= m) -> has_sign s (binary_normalize 53 1024 m e z).
Proof.
  intros H. destruct m; simpl; [done| |].
  - destruct s; [lia|]. apply binary_round_sign.
  - destruct s; [|lia]. apply binary_round_sign.
Qed.

Lemma f64_of_Z_nonneg z : 0 <= z -> nonneg (f64_of_Z z).
Proof. intros. by apply (normalize_sign false). Qed.

Lemma f64_of_Z_fits z : fits (f64_of_Z z).
Proof. apply normalize_fits. Qed.

Lemma f64_of_Z_finite z : 0 <= z <= 2 ^ 64 -> is_finite (f64_of_Z z) = true.
Proof.
  intros Hz. destruct z as [|p|p]; [done| |lia]. unfold f64_of_Z. simpl binary_normalize.
  pose proof (binary_round_le 53 1024 p 0 (2 ^ 52) 12 ltac:(lia) ltac:(lia) ltac:(lia)
    ltac:(lia) ltac:(lia)) as H.
  pose proof (binary_round_sign false p 0) as Hs.
  by destruct (binary_round _ _ _ _ _) as [|[]| |].
Qed.

Lemma f64_add_sign s x y : has_sign s x -> has_sign s y -> has_sign s (f64_add x y).
Proof.
  destruct x as [| | |sx mx ex], y as [| | |sy my ey]; simpl; try done; intros; subst;
    try (repeat case_match; done).
  apply normalize_sign. destruct s; simpl; lia.
Qed.

Lemma f64_sub_sign s x y : has_sign s x -> has_sign (negb s) y -> has_sign s (f64_sub x y).
Proof.
  destruct x as [| | |sx mx ex], y as [| | |sy my ey]; simpl; try done; intros; subst;
    rewrite ?negb_involutive; try (by repeat case_match).
  all: try (destruct s; done).
  apply normalize_sign. destruct s; simpl; lia.
Qed.

Lemma f64_mul_sign s1 s2 x y :
  is_finite x = true -> is_finite y = true ->
  has_sign s1 x -> has_sign s2 y -> has_sign (xorb s1 s2) (f64_mul x y).
Proof.
  destruct x, y; simpl; try done; intros; subst. by apply round_aux_sign.
Qed.

Lemma f64_mul_fits x y : fits (f64_mul x y).
Proof. destruct x, y; try done. by apply round_aux_fits. Qed.

Lemma f64_neg_sign s x : has_sign s x -> has_sign (negb s) (f64_neg x).
Proof. destruct x; simpl; by intros; subst. Qed.

Lemma SFdiv_core_nonneg m1 e1 m2 e2 q e l :
  SFdiv_core_binary 53 1024 (Zpos m1) e1 (Zpos m2) e2 = (q, e, l) -> 0 <= q.
Proof.
  unfold SFdiv_core_binary. set (s := e1 - e2 - _). clearbody s.
  set (m' := match s with 0 => _ | Zpos _ => _ | Zneg _ => _ end).
  assert (Hm' : 0 <= m').
  { subst m'. destruct s; [lia|by apply Z.shiftl_nonneg|lia]. }
  pose proof (Z.div_pos m' (Zpos m2) Hm' ltac:(lia)) as Hq. unfold Z.div in Hq.
  destruct (Z.div_eucl m' (Zpos m2)). intros. by simplify_eq.
Qed.

Lemma f64_div_sign s1 s2 x y :
  is_finite x = true -> has_sign s1 x -> has_sign s2 y -> SFeqb y f64_zero = false ->
  has_sign (xorb s1 s2) (f64_div x y).
Proof.
  destruct x as [| | |sx mx ex], y as [| | |sy my ey]; try done; simpl; intros; subst; try done.
  destruct (SFdiv_core_binary _ _ _ _ _ _) as [[mz ez] lz] eqn:E.
  by eapply round_aux_sign, SFdiv_core_nonneg.
Qed.

Lemma f64_div_fits x y : is_finite x = true -> fits (f64_div x y).
Proof.
  destruct x as [| | |sx mx ex], y as [| | |sy my ey]; try done; intros _.
  unfold f64_div, SFdiv. destruct (SFdiv_core_binary _ _ _ _ _ _) as [[mz ez] lz] eqn:E.
  by eapply round_aux_fits, SFdiv_core_nonneg.
Qed.

(** ** Fractions of one *)

(** A value in [[0, 1]] whose mantissa fits. *)
Definition in_unit (x : f64) : Prop :=
  match x with
  | S754_zero _ => True
  | S754_finite false m e => Zpos m < 2 ^ 53 /\ (e < -52 \/ (e = -52 /\ Zpos m <= 2 ^ 52))
  | _ => False
  end.

(** The mantissa of [1.0]. *)
Definition p52 : positive := 2 ^ 52.

Lemma p52_eq : Zpos p52 = 2 ^ 52.
Proof. reflexivity. Qed.

Lemma f64_one_eq : f64_one = S754_finite false p52 (-52).
Proof. reflexivity. Qed.

#[local] Opaque p52.

Lemma SFleb_pos m e M E :
  SFleb (S754_finite false m e) (S754_finite false M E) = true <->
  e < E \/ e = E /\ Zpos m <= Zpos M.
Proof.
  unfold SFleb. cbn [SFcompare]. fold (Pos.compare m M).
  destruct (Z.compare_spec e E), (Pos.compare_spec m M); split; intros; try done; lia.
Qed.

Lemma in_unit_le_one x : f64_le x f64_one = true -> nonneg x -> fits x -> in_unit x.
Proof.
  rewrite f64_one_eq. destruct x as [|[]| |[] m e]; try done.
  unfold f64_le. rewrite SFleb_pos, p52_eq. intros H _ Hm. split; [done|lia].
Qed.

Lemma f64_clamp_unit x :
  is_nan x = false -> fits x -> in_unit (f64_clamp x f64_zero f64_one).
Proof.
  intros Hx Hf. unfold f64_clamp.
  assert (H1 : in_unit f64_one) by (rewrite f64_one_eq; unfold in_unit; rewrite p52_eq; lia).
  destruct (f64_lt x f64_zero) eqn:E1; [done|].
  destruct (f64_gt x f64_one) eqn:E2; [done|].
  apply in_unit_le_one; [|by destruct x as [|[]| |[]]|done].
  rewrite f64_le_key by done. unfold f64_gt, SFltb in E2.
  rewrite SFcompare_key in E2 by done. rewrite lex3_flip. by destruct (lex3 _ _).
Qed.

(** The exact difference that [1.0 - x] rounds. *)
Lemma one_minus_exact m e :
  in_unit (S754_finite false m e) ->
  exists d, f64_sub f64_one (S754_finite false m e) = binary_normalize 53 1024 d e false /\
    0 <= d <= 2 ^ 52 * 2 ^ (-52 - e) /\ e <= -52.
Proof.
  rewrite f64_one_eq. intros [Hm He]. unfold f64_sub, SFsub.
  replace (Z.min (-52) e) with e by lia. cbn [cond_Zopp].
  pose proof (shl_align_spec p52 (-52) e) as H1.
  destruct (shl_align p52 _ _) as [m1 ez1]. destruct H1 as (-> & H1 & _).
  pose proof (shl_align_spec m e e) as H2.
  destruct (shl_align m _ _) as [m2 ez2]. destruct H2 as (-> & H2 & _). cbn [fst].
  rewrite Z.min_id, Z.sub_diag, Z.pow_0_r, Z.mul_1_r in H2. rewrite p52_eq in H1.
  replace (Z.min (-52) e) with e in H1 by lia. rewrite H1, H2.
  eexists. split; [done|]. split; [|lia].
  destruct He as [He|[-> He]]; [|change (2 ^ (-52 - -52)) with 1; lia].
  assert (2 ^ 1 <= 2 ^ (-52 - e)) by (apply Z.pow_le_mono_r; lia). lia.
Qed.

Lemma one_minus_unit x : in_unit x -> in_unit (f64_sub f64_one x).
Proof.
  intros Hx. destruct x as [s| | |[] m e]; try done.
  { assert (in_unit f64_one) by (rewrite f64_one_eq; unfold in_unit; rewrite p52_eq; lia).
    by destruct s. }
  destruct (one_minus_exact m e Hx) as (d & -> & Hd & He).
  apply in_unit_le_one; [|apply (normalize_sign false); lia|apply normalize_fits].
  rewrite f64_one_eq. destruct d as [|d|d]; [done| |lia].
  apply binary_round_le; rewrite ?p52_eq; lia.
Qed.

(** Scaling a positive normal cap by a fraction of one stays in [[0, cap]]. *)
Definition normal (x : f64) : Prop :=
  match x with
  | S754_finite false m e => 2 ^ 52 <= Zpos m < 2 ^ 53 /\ -1074 <= e <= 971
  | _ => False
  end.

Definition within (cap x : f64) : Prop := nonneg x /\ f64_le x cap = true.

Lemma scale_unit cap x : normal cap -> in_unit x -> within cap (f64_mul cap x).
Proof.
  destruct cap as [| | |[] C EC]; try done. intros [HC HEC] Hx. split.
  - apply (f64_mul_sign false false); try done; by destruct x as [| | |[]].
  - destruct x as [| | |[] m e]; try done. destruct Hx as [Hm He].
    unfold f64_mul, SFmul, f64_le. simpl xorb.
    assert (Hp : 1 <= 2 ^ (-52 - e)) by (apply (Z.pow_le_mono_r 2 0); lia).
    apply round_aux_le; try lia.
    + assert (53 <= Zdigits2 (Zpos (C * m))); [|unfold fexp; lia].
      pose proof (digits_lt (Zpos (C * m)) ltac:(lia)) as Hd.
      apply Z.nlt_ge. intros Hlt.
      assert (2 ^ Zdigits2 (Zpos (C * m)) <= 2 ^ 52) by (apply Z.pow_le_mono_r; lia). nia.
    + replace (EC - (EC + e)) with (52 + (-52 - e)) by lia. rewrite Z.pow_add_r by lia.
      assert (Zpos m <= 2 ^ 52 * 2 ^ (-52 - e)); [|nia].
      destruct He as [He|[-> He]]; [|simpl in *; lia].
      assert (2 ^ 1 <= 2 ^ (-52 - e)) by (apply Z.pow_le_mono_r; lia). nia.
Qed.

Lemma within_zero cap : normal cap -> within cap f64_zero.
Proof. destruct cap as [| | |[] C EC]; try done. Qed.

Lemma within_self cap : normal cap -> within cap cap.
Proof.
  intros H. assert (Hn : is_nan cap = false) by by destruct cap.
  split; [by destruct cap as [| | |[]]|]. rewrite f64_le_key by done.
  pose proof (lex3_flip (okey cap) (okey cap)). by destruct (lex3 (okey cap) (okey cap)).
Qed.

(** [x / y] clamped to [[0, 1]], for a finite [x] and a positive [y]. *)
Lemma ratio_unit x y :
  is_finite x = true -> is_nan y = false -> f64_le y f64_zero = false ->
  in_unit (f64_clamp (f64_div x y) f64_zero f64_one).
Proof.
  intros Hx Hy Hpos. assert (Hxn : is_nan x = false) by by destruct x.
  apply f64_clamp_unit; [|by apply f64_div_fits].
  destruct (has_sign_or x Hxn), (has_sign_or y Hy);
    eapply has_sign_not_nan, f64_div_sign; try done; by destruct y as [|[]| |[]].
Qed.

#[export] Hint Resolve has_sign_not_nan f64_of_Z_nonneg f64_of_Z_fits normalize_fits
  f64_add_sign f64_mul_fits f64_clamp_unit one_minus_unit scale_unit within_zero
  within_self ratio_unit : gradient.
