(* ===== verification/FloatBounds.v ===== *)
(** * Magnitude bounds on binary64 values

    [mag k x] says that [x] is finite with [|x| <= 2^k]. The closure lemmas here
    (sums, products, minima, capped differences) are what shows that a policy's
    total is never NaN or infinite. *)

From S2P Require Import Prelude Float.

Local Open Scope Z_scope.

Definition mag (k : Z) (x : f64) : Prop :=
  match x with
  | S754_zero _ => True
  | S754_finite _ m e => Zpos m < 2 ^ 53 /\ (e < k - 52 \/ (e = k - 52 /\ Zpos m <= 2 ^ 52))
  | _ => False
  end.

Lemma mag_not_nan k x : mag k x -> is_nan x = false.
Proof. by destruct x. Qed.

Lemma mag_finite k x : mag k x -> is_finite x = true.
Proof. by destruct x. Qed.

Lemma mag_weaken k k' x : k <= k' -> mag k x -> mag k' x.
Proof. destruct x; simpl; try done. lia. Qed.

Lemma mag_fits k x : mag k x -> fits x.
Proof. destruct x; simpl; naive_solver. Qed.

Lemma in_unit_mag x : in_unit x -> mag 0 x.
Proof. destruct x as [| | |[]]; simpl; try done. Qed.

(** The exact bound that [mag] stands for. *)
Lemma mag_exact k s m e : mag k (S754_finite s m e) ->
  e <= k - 52 /\ Zpos m <= 2 ^ 52 * 2 ^ (k - 52 - e).
Proof.
  intros [Hm [He|[-> He]]]; (split; [lia|]); [|lia].
  assert (2 ^ 1 <= 2 ^ (k - 52 - e)) by (apply Z.pow_le_mono_r; lia). lia.
Qed.

Lemma round_aux_flip s m e l :
  binary_round_aux 53 1024 s m e l =
  (if s then f64_neg else id) (binary_round_aux 53 1024 false m e l).
Proof. unfold binary_round_aux. destruct s; repeat case_match; done. Qed.

Lemma mag_neg k x : mag k (f64_neg x) <-> mag k x.
Proof. by destruct x. Qed.

Lemma mag_of_le k x : fits x -> nonneg x ->
  SFleb x (S754_finite false p52 (k - 52)) = true -> mag k x.
Proof.
  destruct x as [|[]| |[] m e]; try done. intros Hf _. rewrite SFleb_pos, p52_eq.
  intros. simpl in *. lia.
Qed.

(** Rounding an exact value of magnitude at most [2^k]. *)
Lemma round_aux_mag k s m e :
  0 <= m -> -1022 <= k <= 1023 -> e <= k - 52 -> m <= 2 ^ 52 * 2 ^ (k - 52 - e) ->
  e <= fexp 53 1024 (Zdigits2 m + e) -> mag k (binary_round_aux 53 1024 s m e loc_Exact).
Proof.
  intros Hm Hk He Hle Hexp. rewrite round_aux_flip.
  assert (mag k (binary_round_aux 53 1024 false m e loc_Exact)).
  { apply mag_of_le; [by apply round_aux_fits|by apply round_aux_sign|].
    apply round_aux_le; rewrite ?p52_eq; lia. }
  destruct s; [by apply mag_neg|done].
Qed.

Lemma binary_round_mag k s m e :
  -1022 <= k <= 1023 -> e <= k - 52 -> Zpos m <= 2 ^ 52 * 2 ^ (k - 52 - e) ->
  mag k (binary_round 53 1024 s m e).
Proof.
  intros Hk He Hle.
  assert (H : mag k (binary_round 53 1024 false m e)).
  { apply mag_of_le; [apply binary_round_fits|apply binary_round_sign|].
    apply binary_round_le; rewrite ?p52_eq; lia. }
  unfold binary_round in *. destruct (shl_align _ _ _) as [mz ez]. rewrite round_aux_flip.
  destruct s; [by apply mag_neg|done].
Qed.

Lemma normalize_mag k m e z :
  -1022 <= k <= 1023 -> e <= k - 52 -> Z.abs m <= 2 ^ 52 * 2 ^ (k - 52 - e) ->
  mag k (binary_normalize 53 1024 m e z).
Proof. intros. destruct m; simpl; [done|apply binary_round_mag; simpl in *; lia..]. Qed.

Lemma f64_of_Z_mag k z : 52 <= k <= 1023 -> Z.abs z <= 2 ^ k -> mag k (f64_of_Z z).
Proof.
  intros. apply normalize_mag; try lia. rewrite <- Z.pow_add_r by lia.
  replace (52 + (k - 52 - 0)) with k by lia. done.
Qed.

Lemma cond_Zopp_abs s m : Z.abs (cond_Zopp s m) = Z.abs m.
Proof. destruct s; simpl; lia. Qed.

Lemma mag_add k x y : -1022 <= k <= 1022 -> mag k x -> mag k y -> mag (k + 1) (f64_add x y).
Proof.
  intros Hk. destruct x as [| | |sx mx ex], y as [| | |sy my ey]; simpl; try done.
  all: try (by repeat case_match). all: try (intros; lia).
  intros Hx%(mag_exact k sx) Hy%(mag_exact k sy).
  pose proof (shl_align_spec mx ex (Z.min ex ey)) as H1.
  pose proof (shl_align_spec my ey (Z.min ex ey)) as H2.
  destruct (shl_align mx _ _) as [m1 e1], (shl_align my _ _) as [m2 e2]; cbn [fst].
  destruct H1 as (-> & H1 & _), H2 as (-> & H2 & _).
  set (e := Z.min ex ey) in *. 
  replace (Z.min ex e) with e in * by lia. replace (Z.min ey e) with e in * by lia.
  apply normalize_mag; try lia.
  etrans; [apply Z.abs_triangle|]. rewrite !cond_Zopp_abs, !Z.abs_eq by lia.
  replace (k + 1 - 52 - e) with (1 + (k - 52 - e)) by lia. rewrite Z.pow_add_r by lia.
  assert (forall m m' ex, e <= ex -> Zpos m' = Zpos m * 2 ^ (ex - e) -> ex <= k - 52 ->
    Zpos m <= 2 ^ 52 * 2 ^ (k - 52 - ex) -> Zpos m' <= 2 ^ 52 * 2 ^ (k - 52 - e)) as Hsc.
  { intros m m' ex' ? -> ? Hm. replace (k - 52 - e) with ((k - 52 - ex') + (ex' - e)) by lia.
    rewrite Z.pow_add_r, Z.mul_assoc by lia.
    apply Z.mul_le_mono_nonneg_r; [apply Z.pow_nonneg; lia|done]. }
  pose proof (Hsc mx m1 ex ltac:(lia) H1 ltac:(lia) ltac:(lia)).
  pose proof (Hsc my m2 ey ltac:(lia) H2 ltac:(lia) ltac:(lia)). lia.
Qed.

Lemma mag_mul k l x y :
  -1022 <= k + l <= 1023 -> mag k x -> mag l y -> mag (k + l) (f64_mul x y).
Proof.
  intros Hk. destruct x as [| | |sx mx ex], y as [| | |sy my ey]; simpl; try done.
  intros Hx Hy. pose proof (mag_exact k sx mx ex Hx) as [Hx1 Hx2].
  pose proof (mag_exact l sy my ey Hy) as [Hy1 Hy2].
  set (m := Zpos (mx * my)). set (e := ex + ey).
  assert (Hm : m <= 2 ^ 52 * 2 ^ (k + l - 52 - e)).
  { subst m e. rewrite Pos2Z.inj_mul.
    replace (k + l - 52 - (ex + ey)) with ((k - 52 - ex) + (52 + (l - 52 - ey))) by lia.
    rewrite !Z.pow_add_r by lia. rewrite Z.mul_assoc.
    apply Z.mul_le_mono_nonneg; lia. }
  destruct (Z.le_gt_cases e (fexp 53 1024 (Zdigits2 m + e))) as [Hle|Hgt].
  { apply round_aux_mag; try lia. }
  (* a mantissa too short to be shifted is returned as it is *)
  rewrite round_aux_flip.
  assert (Hd : Zdigits2 m < 53) by (unfold fexp in Hgt; lia).
  assert (Hm53 : m < 2 ^ 53).
  { pose proof (digits_lt m ltac:(lia)). assert (2 ^ Zdigits2 m <= 2 ^ 53); [|lia].
    apply Z.pow_le_mono_r; lia. }
  assert (Hshift : forall l', shr_fexp 53 1024 m e l' = (shr_record_of_loc m l', e)).
  { intros l'. unfold shr_fexp. destruct (fexp 53 1024 (Zdigits2 m + e) - e) eqn:E; try done. lia. }
  assert (mag (k + l) (binary_round_aux 53 1024 false m e loc_Exact)).
  { unfold binary_round_aux. rewrite Hshift. simpl loc_of_shr_record. simpl round_nearest_even.
    rewrite Hshift. subst m. simpl. rewrite (proj2 (Z.leb_le _ _)) by lia. simpl in *.
    split; [done|]. left. lia. }
  subst m e. destruct (xorb sx sy); [by apply mag_neg|done].
Qed.

Lemma mag_sub k x y : -1022 <= k <= 1022 -> mag k x -> mag k y -> mag (k + 1) (f64_sub x y).
Proof.
  intros Hk Hx Hy.
  assert (f64_sub x y = f64_add x (f64_neg y)) as ->.
  { destruct x as [[]| | |sx mx ex], y as [[]| | |[] my ey]; try done; simpl.
    all: unfold f64_sub, f64_add, SFsub, SFadd, f64_neg, SFopp; simpl.
    all: f_equal; lia. }
  apply mag_add; [done..|by apply mag_neg].
Qed.

(** ** No underflow

    A long enough mantissa above the subnormal range rounds to a normal number. *)

Lemma Zdigits2_ge m d : 0 <= d -> 2 ^ d <= m -> d + 1 <= Zdigits2 m.
Proof.
  intros Hd Hm. assert (0 < 2 ^ d) by lia. pose proof (digits_lt m ltac:(lia)).
  assert (0 <= Zdigits2 m) by (destruct m; simpl; lia).
  assert (2 ^ d < 2 ^ Zdigits2 m) as Hlt%Z.pow_lt_mono_r_iff by lia; lia.
Qed.

Lemma Zdigits2_le m d : 0 < m -> d + 1 <= Zdigits2 m -> 2 ^ d <= m.
Proof.
  intros Hm Hd. destruct m as [|p|p]; try lia. pose proof (digits2_pos_spec p). simpl in Hd.
  transitivity (2 ^ (Zpos (digits2_pos p) - 1)); [|lia]. apply Z.pow_le_mono_r; lia.
Qed.

Definition normal_in (s : bool) (lo hi : Z) (x : f64) : Prop :=
  match x with
  | S754_finite s' p e => s' = s /\ 2 ^ 52 <= Zpos p < 2 ^ 53 /\ lo <= e <= hi
  | S754_infinity s' => s' = s /\ 971 < hi
  | _ => False
  end.

Lemma round_aux_normal s m e l :
  0 < m -> 53 <= Zdigits2 m -> -1074 <= Zdigits2 m + e - 53 ->
  normal_in s (Zdigits2 m + e - 53) (Zdigits2 m + e - 52) (binary_round_aux 53 1024 s m e l).
Proof.
  intros Hm Hd He. unfold binary_round_aux.
  destruct (shr_fexp_spec (prec := 53) (emax := 1024) m e l ltac:(lia)) as (r & -> & Hr & _).
  assert (Hn : Z.max 0 (shift_of (prec := 53) (emax := 1024) m e) = Zdigits2 m - 53).
  { unfold shift_of, fexp, emin. lia. }
  rewrite Hn in *. set (n := Zdigits2 m - 53) in *.
  assert (Hr2 : 2 ^ 52 <= shr_m r < 2 ^ 53).
  { rewrite Hr. pose proof (Z.pow_pos_nonneg 2 n ltac:(lia) ltac:(lia)). split.
    - apply Z.div_le_lower_bound; [lia|]. rewrite Z.mul_comm, <- Z.pow_add_r by lia.
      apply Zdigits2_le; lia.
    - apply Z.div_lt_upper_bound; [lia|]. rewrite <- Z.pow_add_r by lia.
      replace (n + 53) with (Zdigits2 m) by lia. apply digits_lt. lia. }
  pose proof (proj1 (round_nearest_even_range (shr_m r) (loc_of_shr_record r))) as Hm2.
  set (m2 := round_nearest_even _ _) in *.
  destruct (shr_fexp_spec (prec := 53) (emax := 1024) m2 (e + n) loc_Exact ltac:(lia)) as (r' & -> & Hr' & _).
  assert (Hd2 : 53 <= Zdigits2 m2 <= 54).
  { split; [apply (Zdigits2_ge _ 52); lia|apply digits_bound; lia]. }
  assert (Hn2 : Z.max 0 (shift_of (prec := 53) (emax := 1024) m2 (e + n)) = Zdigits2 m2 - 53).
  { unfold shift_of, fexp, emin. lia. }
  rewrite Hn2 in *.
  assert (Hr3 : 2 ^ 52 <= shr_m r' < 2 ^ 53).
  { rewrite Hr'. assert (Zdigits2 m2 = 53 \/ Zdigits2 m2 = 54) as [Heq|Heq] by lia; rewrite Heq.
    - pose proof (digits_lt m2 ltac:(lia)). rewrite Heq in *. change (53 - 53) with 0.
      rewrite Z.div_1_r. lia.
    - pose proof (Zdigits2_le m2 53 ltac:(lia) ltac:(lia)).
      change (2 ^ (54 - 53)) with 2. Z.to_euclidean_division_equations. lia. }
  destruct (shr_m r') as [|p|p]; try lia. 
  destruct (Z.leb_spec (e + n + (Zdigits2 m2 - 53)) (1024 - 53)); simpl.
  - split; [done|]. split; lia.
  - split; [done|]. lia.
Qed.

Lemma binary_round_normal s m e :
  -1021 <= e ->
  normal_in s (e - 52) (Zdigits2 (Zpos m) + e - 52) (binary_round 53 1024 s m e).
Proof.
  intros He. unfold binary_round.
  pose proof (shl_align_spec m e (fexp 53 1024 (Zpos (digits2_pos m) + e))) as Hal.
  destruct (shl_align _ _ _) as [mz ez]. destruct Hal as (Hez & _ & Hd).
  change (Zdigits2 (Zpos m)) with (Zpos (digits2_pos m)) in Hd.
  pose proof (round_aux_normal s (Zpos mz) ez loc_Exact ltac:(lia)) as Hr.
  unfold fexp, emin in Hez. specialize (Hr ltac:(lia) ltac:(lia)).
  destruct (binary_round_aux _ _ _ _ _ _) as [|?| |? p e']; try done.
  - destruct Hr as (-> & Hlo). split; [done|]. simpl Zdigits2 in *. lia.
  - destruct Hr as (-> & Hp & Hlo). split; [done|]. simpl Zdigits2 in *. lia.
Qed.

Lemma f64_of_Z_normal z : 0 < z < 2 ^ 64 -> normal_in false (-52) 12 (f64_of_Z z).
Proof.
  destruct z as [|p|p]; try lia. intros Hp.
  pose proof (binary_round_normal false p 0 ltac:(lia)) as H.
  pose proof (digits_bound (Zpos p) 64 ltac:(lia) ltac:(lia)).
  change (f64_of_Z (Zpos p)) with (binary_round 53 1024 false p 0).
  destruct (binary_round _ _ _ _ _) as [|?| |? q e]; try done; unfold normal_in in *.
  - lia.
  - destruct H as (-> & Hq & He). split; [done|]. lia.
Qed.

(** The quotient of normal numbers in a moderate range is a positive finite
    number: it neither underflows nor overflows. *)
Lemma f64_div_normal lo hi x m2 e2 :
  -900 <= lo -> hi <= 800 -> -100 <= e2 <= 0 -> 2 ^ 52 <= Zpos m2 < 2 ^ 53 ->
  normal_in false lo hi x ->
  exists m e, f64_div x (S754_finite false m2 e2) = S754_finite false m e.
Proof.
  intros Hlo Hhi He2 Hm2. destruct x as [|[]| |[] m1 e1]; try (simpl; lia || done).
  intros (_ & Hm1 & He1). unfold f64_div, SFdiv.
  assert (forall p, 2 ^ 52 <= Zpos p < 2 ^ 53 -> Zdigits2 (Zpos p) = 53) as Hd.
  { intros p Hp. pose proof (Zdigits2_ge (Zpos p) 52 ltac:(lia) ltac:(lia)).
    pose proof (digits_bound (Zpos p) 53 ltac:(lia) ltac:(lia)). lia. }
  unfold SFdiv_core_binary. rewrite !Hd by done.
  replace (Z.min (fexp 53 1024 (53 + e1 - (53 + e2))) (e1 - e2)) with (e1 - e2 - 53)
    by (unfold fexp, emin; lia).
  replace (e1 - e2 - (e1 - e2 - 53)) with 53 by lia.
  pose proof (Z.shiftl_mul_pow2 (Zpos m1) 53 ltac:(lia)) as Hsh.
  set (m' := Z.shiftl _ _) in *. clearbody m'. cbn match.
  pose proof (Z.div_lt_upper_bound m' (Zpos m2) (2 ^ 54) ltac:(lia) ltac:(lia)) as Hq1.
  pose proof (Z.div_le_lower_bound m' (Zpos m2) (2 ^ 52) ltac:(lia) ltac:(lia)) as Hq2.
  unfold Z.div in Hq1, Hq2. destruct (Z.div_eucl m' (Zpos m2)) as [q r].
  pose proof (Zdigits2_ge q 52 ltac:(lia) ltac:(lia)).
  pose proof (digits_bound q 54 ltac:(lia) ltac:(lia)).
  match goal with |- context [binary_round_aux _ _ _ q ?e ?l] =>
    pose proof (round_aux_normal false q e l ltac:(lia) ltac:(lia) ltac:(lia)) as Hr end.
  simpl xorb in *. destruct (binary_round_aux _ _ _ _ _ _) as [|s| |s p e]; try done.
  - unfold normal_in in Hr. lia.
  - destruct Hr as (-> & _). eauto.
Qed.

(** ** Minima and maxima against a cap *)

(** Either not a number, or not negative: what a product or quotient of
    non-negative values always is. *)
Definition nonneg_or_nan (x : f64) : Prop := is_nan x = true \/ nonneg x.

Lemma f64_mul_nonneg x y : nonneg_or_nan x -> nonneg_or_nan y -> nonneg_or_nan (f64_mul x y).
Proof.
  unfold nonneg_or_nan. destruct x as [| | |sx mx ex], y as [| | |sy my ey]; simpl;
    intros [] []; subst; try done; eauto.
  right. by apply round_aux_sign.
Qed.

Lemma f64_div_nonneg x y :
  nonneg_or_nan x -> nonneg_or_nan y -> f64_le y f64_zero = false \/ is_nan y = true ->
  nonneg_or_nan (f64_div x y).
Proof.
  unfold nonneg_or_nan. destruct x as [| | |sx mx ex], y as [| | |sy my ey]; simpl;
    intros Hx Hy Hz; destruct Hx, Hy, Hz; subst; try done; eauto.
  right. unfold f64_div, SFdiv.
  destruct (SFdiv_core_binary _ _ _ _ _ _) as [[mz ez] lz] eqn:E.
  by eapply round_aux_sign, SFdiv_core_nonneg.
Qed.

Lemma f64_min_mag k cap x :
  mag k cap -> nonneg cap -> nonneg_or_nan x -> fits x -> mag k (f64_min x cap).
Proof.
  intros Hc Hcn [Hx|Hx] Hf; unfold f64_min.
  { by rewrite Hx. }
  assert (is_nan x = false) as -> by by eapply has_sign_not_nan.
  rewrite (mag_not_nan _ _ Hc). destruct (f64_lt cap x) eqn:E; [done|].
  unfold f64_lt, SFltb in E. destruct x as [| | |sx mx ex], cap as [| | |sc mc ec]; simpl in *; try done; subst; try done.
  fold (Pos.compare mc mx) in E.
  destruct (Z.compare_spec ec ex), (Pos.compare_spec mc mx); try done; lia.
Qed.

Lemma f64_min_nonneg cap x : nonneg cap -> nonneg_or_nan x -> nonneg (f64_min x cap).
Proof.
  intros Hc Hx. unfold f64_min. destruct (is_nan x) eqn:E; [done|].
  destruct Hx as [Hx|Hx]; [congruence|]. by repeat case_match.
Qed.

Lemma SFltb_zero_l s m e : f64_lt (S754_finite s m e) f64_zero = s.
Proof. by destruct s. Qed.

(** [max(cap - y, 0)] never exceeds the cap. *)
Lemma f64_max_sub_mag k x y :
  -1022 <= k <= 1023 -> mag k x -> nonneg x -> nonneg_or_nan y ->
  mag k (f64_max (f64_sub x y) f64_zero).
Proof.
  intros Hk Hx Hxn Hy.
  assert (H : is_nan (f64_sub x y) = true \/ has_sign true (f64_sub x y) \/ mag k (f64_sub x y)).
  { destruct Hy as [Hy|Hy]; [left; by destruct x as [| | |[]], y|].
    destruct x as [s| | |[] mx ex]; try done.
    - right. left. by apply f64_sub_sign.
    - destruct y as [s|[]| |[] my ey]; try done; [naive_solver..|].
      right. unfold f64_sub, SFsub.
      pose proof (shl_align_spec mx ex (Z.min ex ey)) as H1.
      destruct (shl_align mx _ _) as [m1 e1]. destruct H1 as (-> & H1 & _). cbn [fst].
      set (m2 := fst _). set (e := Z.min ex ey) in *. replace (Z.min ex e) with e in * by lia.
      destruct (Z.le_gt_cases (cond_Zopp false (Zpos m1) - cond_Zopp false (Zpos m2)) 0).
      + left. by apply (normalize_sign true).
      + right. pose proof (mag_exact k false mx ex Hx) as [Hx1 Hx2]. simpl cond_Zopp in *.
        apply normalize_mag; [lia..|]. rewrite Z.abs_eq by lia.
        transitivity (Zpos m1); [lia|]. rewrite H1.
        replace (k - 52 - e) with ((k - 52 - ex) + (ex - e)) by lia.
        rewrite Z.pow_add_r, Z.mul_assoc by lia.
        apply Z.mul_le_mono_nonneg_r; [apply Z.pow_nonneg; lia|done]. }
  unfold f64_max. destruct H as [->|[H|H]]; [done|..].
  - destruct (f64_sub x y) as [|[]| |[]]; done.
  - rewrite (mag_not_nan _ _ H). by repeat case_match.
Qed.

(** ** Fractions and conversions *)

Lemma mag_unit_mul k cap x : -1022 <= k <= 1023 -> mag k cap -> in_unit x -> mag k (f64_mul cap x).
Proof.
  intros. replace k with (k + 0) by lia. apply mag_mul; [lia|done|by apply in_unit_mag].
Qed.

Lemma f64_of_f32_unit x : in_unit x -> in_unit (f64_of_f32 x).
Proof.
  destruct x as [| | |[] m e]; try done. intros Hx.
  apply in_unit_le_one; [|apply (normalize_sign false); simpl; lia|apply normalize_fits].
  rewrite f64_one_eq. pose proof (mag_exact 0 false m e (in_unit_mag _ Hx)) as [H1 H2].
  change (0 - 52) with (-52) in *.
  apply binary_round_le; rewrite ?p52_eq; lia.
Qed.

Lemma f64_of_f32_nonneg x : nonneg_or_nan x -> nonneg_or_nan (f64_of_f32 x).
Proof.
  intros [Hx|Hx]; [left; by destruct x|right]. destruct x as [| | |s m e]; try done.
  simpl in Hx. subst s. apply (normalize_sign false). simpl. lia.
Qed.

Lemma f64_of_f32_fits x : fits x -> fits (f64_of_f32 x).
Proof. destruct x; try done. intros. apply normalize_fits. Qed.

#[export] Hint Resolve mag_not_nan mag_finite mag_fits in_unit_mag mag_add mag_sub mag_mul
  mag_unit_mul f64_min_mag f64_max_sub_mag f64_min_nonneg f64_mul_nonneg : gradient.

(** Decide a bound on a concrete constant by evaluating it. *)
Ltac eval_weight := vm_compute; intuition discriminate.
