(* ===== verification/RustStr.v ===== *)
(** * Byte strings

    A Rust [str] is its UTF-8 byte sequence, which is what Rocq's [string] holds,
    so the operations that search for an ASCII character or compare bytes are
    defined on [string] directly. *)

From S2P Require Import Prelude.
From Stdlib Require Export Ascii.

Local Open Scope string_scope.
#[local] Arguments String.append !_ _ / : simpl nomatch.

(** [str::strip_prefix] *)
Fixpoint strip_prefix (p s : string) : option string :=
  match p, s with
  | EmptyString, _ => Some s
  | String a p', String b s' => if Ascii.eqb a b then strip_prefix p' s' else None
  | String _ _, EmptyString => None
  end.

(** [str::split_once] at an ASCII character. *)
Fixpoint split_once (c : ascii) (s : string) : option (string * string) :=
  match s with
  | EmptyString => None
  | String a s' =>
      if Ascii.eqb a c then Some ("", s')
      else '(l, r) ← split_once c s'; Some (String a l, r)
  end.

(** [str::trim_start_matches] with an ASCII character. *)
Fixpoint trim_start_matches (c : ascii) (s : string) : string :=
  match s with
  | String a s' => if Ascii.eqb a c then trim_start_matches c s' else s
  | EmptyString => s
  end.

(** [str::ends_with] *)
Fixpoint ends_with (s suffix : string) : bool :=
  (s =? suffix) || match s with EmptyString => false | String _ s' => ends_with s' suffix end.

(** [str::strip_suffix] *)
Fixpoint strip_suffix (s suffix : string) : option string :=
  if s =? suffix then Some ""
  else match s with
       | EmptyString => None
       | String a s' => String a <$> strip_suffix s' suffix
       end.

(** [str::starts_with] *)
Definition starts_with (s prefix : string) : bool :=
  match strip_prefix prefix s with Some _ => true | None => false end.

Fixpoint contains_char (c : ascii) (s : string) : bool :=
  match s with
  | EmptyString => false
  | String a s' => Ascii.eqb a c || contains_char c s'
  end.

(** [str::split] at an ASCII character: always at least one piece. *)
Fixpoint split_char (c : ascii) (s : string) : list string :=
  match s with
  | EmptyString => [""]
  | String a s' =>
      if Ascii.eqb a c then "" :: split_char c s'
      else match split_char c s' with
           | [] => [String a ""]
           | w :: ws => String a w :: ws
           end
  end.

(** [slice::join] *)
Fixpoint join_with (sep : string) (l : list string) : string :=
  match l with
  | [] => ""
  | [x] => x
  | x :: l' => x ++ sep ++ join_with sep l'
  end.

(** ** Lemmas *)

Lemma strip_prefix_Some p s r : strip_prefix p s = Some r <-> s = p ++ r.
Proof.
  revert s. induction p as [|a p IH]; intros s; simpl.
  { split; [by intros [= ->]|by intros ->]. }
  destruct s as [|b s]; [done|]. destruct (Ascii.eqb_spec a b) as [->|Hab].
  - rewrite IH. split; [by intros ->|by intros [= ->]].
  - split; [done|]. by intros [= ? ?].
Qed.

Lemma strip_prefix_app p s : strip_prefix p (p ++ s) = Some s.
Proof. by apply strip_prefix_Some. Qed.

Lemma string_length_app s t : String.length (s ++ t) = (String.length s + String.length t)%nat.
Proof. induction s as [|a s IH]; simpl; [done|]. change (String a s ++ t) with (String a (s ++ t)). simpl. by rewrite IH. Qed.

Lemma strip_suffix_app s suffix : strip_suffix (s ++ suffix) suffix = Some s.
Proof.
  induction s as [|a s IH].
  - destruct suffix; [done|]. cbn [strip_suffix String.append]. by rewrite String.eqb_refl.
  - change (String a s ++ suffix) with (String a (s ++ suffix)). cbn [strip_suffix]. rewrite IH.
    destruct (String.eqb_spec (String a (s ++ suffix)) suffix) as [H|_]; [|done].
    apply (f_equal String.length) in H. cbn [String.length] in H. rewrite string_length_app in H. lia.
Qed.

Lemma strip_suffix_Some s suffix r : strip_suffix s suffix = Some r -> s = r ++ suffix.
Proof.
  revert r. induction s as [|a s IH]; intros r; cbn [strip_suffix].
  - destruct (String.eqb_spec "" suffix) as [<-|_]; [by intros [= <-]|done].
  - destruct (String.eqb_spec (String a s) suffix) as [<-|_]; [by intros [= <-]|].
    destruct (strip_suffix s suffix) as [r'|] eqn:E; [|done]. intros [= <-]. by rewrite (IH r').
Qed.

Lemma split_once_Some c s l r :
  split_once c s = Some (l, r) <-> contains_char c l = false /\ s = l ++ String c r.
Proof.
  revert l. induction s as [|a s IH]; intros l; simpl.
  { split; [done|]. by intros [_ H]; destruct l. }
  destruct (Ascii.eqb_spec a c) as [->|Hac].
  - split; [intros [= <- <-]; done|]. intros [Hl Hs]. destruct l as [|b l]; simpl in *.
    + by simplify_eq.
    + simplify_eq. by rewrite Ascii.eqb_refl in Hl.
  - destruct (split_once c s) as [[l' r']|]; simpl.
    + split.
      * intros [= <- <-]. simpl. apply Ascii.eqb_neq in Hac as ->. simpl.
        destruct (proj1 (IH l') eq_refl) as [-> ->]. done.
      * intros [Hl Hs]. destruct l as [|b l]; simplify_eq/=.
        apply orb_false_iff in Hl as [_ Hl].
        assert (Some (l', r') = Some (l, r)) by by apply IH. by simplify_eq.
    + split; [done|]. intros [Hl Hs]. destruct l as [|b l]; simplify_eq/=.
      apply orb_false_iff in Hl as [_ Hl]. by assert (None = Some (l, r)) by by apply IH.
Qed.

Lemma split_once_None c s : split_once c s = None <-> contains_char c s = false.
Proof.
  induction s as [|a s IH]; simpl; [done|]. destruct (Ascii.eqb a c); simpl; [done|].
  destruct (split_once c s) as [[]|]; simpl; rewrite <- IH; done.
Qed.

Lemma contains_char_app c s t : contains_char c (s ++ t) = contains_char c s || contains_char c t.
Proof. induction s as [|a s IH]; simpl; [done|]. by rewrite IH, orb_assoc. Qed.

Lemma split_char_none c s : contains_char c s = false -> split_char c s = [s].
Proof.
  induction s as [|a s IH]; simpl; [done|]. intros [-> Hs]%orb_false_iff. by rewrite IH.
Qed.

Lemma split_char_app c s t :
  contains_char c s = false -> split_char c (s ++ String c t) = s :: split_char c t.
Proof.
  induction s as [|a s IH]; simpl; intros Hs.
  { by rewrite Ascii.eqb_refl. }
  apply orb_false_iff in Hs as [-> Hs]. by rewrite IH.
Qed.

Lemma split_char_nonempty c s : split_char c s ≠ [].
Proof. destruct s; simpl; [done|]. by repeat case_match. Qed.

(** Splitting a join recovers the pieces, when no piece holds the separator. *)
Lemma split_char_join c l :
  l ≠ [] -> Forall (fun w => contains_char c w = false) l ->
  split_char c (join_with (String c "") l) = l.
Proof.
  intros Hne Hl. induction Hl as [|w l Hw Hl IH]; [done|].
  destruct l as [|w' l]; [by apply split_char_none|].
  change (split_char c (w ++ String c (join_with (String c "") (w' :: l))) = w :: w' :: l).
  rewrite split_char_app by done. by rewrite IH.
Qed.

Lemma string_app_assoc (a b c : string) : (a ++ b) ++ c = a ++ b ++ c.
Proof. induction a as [|x a IH]; simpl; [done|]. by rewrite IH. Qed.

Lemma string_app_nil_r (a : string) : a ++ "" = a.
Proof. induction a as [|x a IH]; simpl; [done|]. by rewrite IH. Qed.

(** [str::cmp] is a total order. *)
Lemma string_compare_trans a b c :
  String.compare a b ≠ Gt -> String.compare b c ≠ Gt -> String.compare a c ≠ Gt.
Proof.
  revert b c. induction a as [|x a IH]; intros b c; destruct b as [|y b], c as [|z c]; simpl; try done.
  unfold Ascii.compare.
  destruct (N.compare_spec (N_of_ascii x) (N_of_ascii y)),
    (N.compare_spec (N_of_ascii y) (N_of_ascii z)),
    (N.compare_spec (N_of_ascii x) (N_of_ascii z)); try done; try lia. apply IH.
Qed.

Lemma string_compare_total (P : string -> Prop) : total_on String.compare P.
Proof.
  split.
  - intros x y _ _. apply String.compare_antisym.
  - intros x y z _ _ _. apply string_compare_trans.
  - intros x y _ _. apply String.compare_eq_iff.
Qed.

#[export] Hint Rewrite string_app_assoc string_app_nil_r strip_prefix_app contains_char_app : gradient.

(** The pieces of a split are free of the separator. *)
Lemma split_char_free c s : Forall (fun w => contains_char c w = false) (split_char c s).
Proof.
  induction s as [|a s IH]; simpl; [by repeat constructor|]. destruct (Ascii.eqb a c) eqn:E; [by constructor|].
  destruct (split_char c s) as [|w ws]; [constructor; [|done]; simpl; by rewrite E|].
  apply Forall_cons in IH as [Hw Hws]. constructor; [|done]. simpl. by rewrite E, Hw.
Qed.

Lemma split_char_app_sep c s t : split_char c (s ++ String c t) = (split_char c s ++ split_char c t)%list.
Proof.
  induction s as [|a s IH]; simpl; [by rewrite Ascii.eqb_refl|]. rewrite IH.
  destruct (Ascii.eqb a c); [done|]. pose proof (split_char_nonempty c s). by destruct (split_char c s).
Qed.

(** ** Sorted lists without duplicates *)

(** [sort_unstable] and [dedup] *)
Fixpoint dedup (l : list string) : list string :=
  match l with
  | [] => []
  | x :: l' =>
      match l' with
      | y :: _ => if String.eqb x y then dedup l' else x :: dedup l'
      | [] => [x]
      end
  end.

Definition sort_dedup (l : list string) : list string := dedup (sort_by String.compare l).

Lemma dedup_elem x l : x ∈ dedup l <-> x ∈ l.
Proof.
  induction l as [|y l IH]; [done|]. simpl. destruct l as [|z l]; [done|].
  destruct (String.eqb_spec y z) as [->|Hne]; rewrite ?elem_of_cons, IH, ?elem_of_cons; tauto.
Qed.

Lemma sort_dedup_elem x l : x ∈ sort_dedup l <-> x ∈ l.
Proof. unfold sort_dedup. by rewrite dedup_elem, sort_by_elem. Qed.

Lemma dedup_cons x y l : dedup (x :: y :: l) = if String.eqb x y then dedup (y :: l) else x :: dedup (y :: l).
Proof. done. Qed.

Lemma dedup_sorted l : StronglySorted (not_gt String.compare) l -> StronglySorted (not_gt String.compare) (dedup l).
Proof.
  induction 1 as [|x l Hl IH Hx]; [constructor|]. destruct l as [|y l]; [by repeat constructor|]. rewrite dedup_cons.
  destruct (String.eqb x y); [done|]. constructor; [done|].
  rewrite Forall_forall in Hx |- *. intros z Hz. apply Hx. by apply dedup_elem.
Qed.

Lemma dedup_nodup l : StronglySorted (not_gt String.compare) l -> NoDup (dedup l).
Proof.
  induction 1 as [|x l Hl IH Hx]; [constructor|]. destruct l as [|y l]; [apply NoDup_singleton|]. rewrite dedup_cons.
  destruct (String.eqb_spec x y) as [|Hxy]; [done|]. constructor; [|done]. intros Hin.
  rewrite dedup_elem in Hin. apply elem_of_cons in Hin as [->|Hin]; [done|].
  inversion Hl as [|? ? _ Hy]; subst. rewrite Forall_forall in Hy, Hx. apply Hxy.
  specialize (Hx y ltac:(left)). specialize (Hy _ Hin). unfold not_gt in *.
  pose proof (String.compare_antisym x y) as Ha. apply String.compare_eq_iff.
  by destruct (String.compare y x), (String.compare x y).
Qed.

Lemma sort_dedup_sorted l : StronglySorted (not_gt String.compare) (sort_dedup l).
Proof.
  apply dedup_sorted, (sort_by_sorted String.compare (string_compare_total (fun _ => True))).
  by apply Forall_forall.
Qed.

Lemma sort_dedup_nodup l : NoDup (sort_dedup l).
Proof.
  apply dedup_nodup, (sort_by_sorted String.compare (string_compare_total (fun _ => True))).
  by apply Forall_forall.
Qed.

(** A sorted list without duplicates is determined by its elements. *)
Lemma sort_dedup_ext l1 l2 : (forall x, x ∈ l1 <-> x ∈ l2) -> sort_dedup l1 = sort_dedup l2.
Proof.
  intros He. apply (sorted_unique String.compare (string_compare_total (fun _ => True)));
    [by apply Forall_forall| |apply sort_dedup_sorted..].
  apply NoDup_Permutation; [apply sort_dedup_nodup..|]. intros x. rewrite !sort_dedup_elem. apply He.
Qed.
