(* ===== verification/RustText.v ===== *)
(** * Text operations of the Rust standard library

    Whitespace, lines and character classes of a [str], on its UTF-8 bytes. *)

From S2P Require Import Prelude RustStr.

Local Open Scope string_scope.

Definition byte (n : nat) : string := String (ascii_of_nat n) "".

(** ** Whitespace *)

(** The UTF-8 encodings of the characters with the [White_Space] property. *)
Definition WHITE_SPACE : list string :=
  map byte [9; 10; 11; 12; 13; 32]
  ++ map (fun n => byte 194 ++ byte n) [133; 160]
  ++ [byte 225 ++ byte 154 ++ byte 128]
  ++ map (fun n => byte 226 ++ byte 128 ++ byte n)
       [128; 129; 130; 131; 132; 133; 134; 135; 136; 137; 138; 168; 169; 175]
  ++ [byte 226 ++ byte 129 ++ byte 159; byte 227 ++ byte 128 ++ byte 128].

(** The first of [ps] that [s] starts with, removed. *)
Fixpoint strip_any (strip : string -> string -> option string) (ps : list string) (s : string) : option string :=
  match ps with
  | [] => None
  | p :: ps => match strip p s with Some r => Some r | None => strip_any strip ps s end
  end.

Fixpoint trim_fuel (strip : string -> string -> option string) (fuel : nat) (s : string) : string :=
  match fuel with
  | O => s
  | S fuel => match strip_any strip WHITE_SPACE s with Some r => trim_fuel strip fuel r | None => s end
  end.

(** Every round removes at least a byte. *)
Definition trim_start (s : string) : string := trim_fuel RustStr.strip_prefix (String.length s) s.

Definition trim_end (s : string) : string := trim_fuel (fun p s => strip_suffix s p) (String.length s) s.

(** [str::trim] *)
Definition trim (s : string) : string := trim_end (trim_start s).

(** ** Lines *)

Definition newline : string := byte 10.
Definition carriage_return : string := byte 13.

(** Drop one trailing carriage return. *)
Definition chomp_cr (l : string) : string := default l (strip_suffix l carriage_return).

(** [str::lines]: the text after the last newline is a line unless it is empty, and only
    a line that ended in a newline loses its carriage return. *)
Definition lines (s : string) : list string :=
  match reverse (split_char (ascii_of_nat 10) s) with
  | [] => []
  | tail :: ended => reverse (map chomp_cr ended) ++ (if String.eqb tail "" then [] else [tail])
  end.

(** ** Characters *)

Fixpoint all_chars (p : ascii -> bool) (s : string) : bool :=
  match s with EmptyString => true | String a s' => p a && all_chars p s' end.

Definition in_range (lo hi : nat) (a : ascii) : bool :=
  Nat.leb lo (nat_of_ascii a) && Nat.leb (nat_of_ascii a) hi.

Definition is_ascii_digit (a : ascii) : bool := in_range 48 57 a.
Definition is_ascii_lowercase (a : ascii) : bool := in_range 97 122 a.
Definition is_ascii_uppercase (a : ascii) : bool := in_range 65 90 a.
Definition is_ascii_alphanumeric (a : ascii) : bool :=
  is_ascii_digit a || is_ascii_lowercase a || is_ascii_uppercase a.
Definition is_ascii_hexdigit (a : ascii) : bool := is_ascii_digit a || in_range 97 102 a || in_range 65 70 a.

(** ** Lemmas *)

Lemma all_chars_app p s t : all_chars p (s ++ t) = all_chars p s && all_chars p t.
Proof. induction s as [|a s IH]; [done|]. simpl. by rewrite IH, andb_assoc. Qed.

Lemma strip_any_shorter s r : strip_any RustStr.strip_prefix WHITE_SPACE s = Some r -> String.length r < String.length s.
Proof.
  assert (Hne : Forall (fun p => 0 < String.length p) WHITE_SPACE)
    by (apply Forall_forall; intros p Hp; apply list_elem_of_In in Hp; vm_compute in Hp; intuition (subst; simpl; lia)).
  revert Hne. generalize WHITE_SPACE. induction l as [|p l IH]; intros Hne; [done|]. simpl.
  apply Forall_cons in Hne as [Hp Hl]. destruct (RustStr.strip_prefix p s) as [r'|] eqn:E; [|by apply IH].
  intros [= ->]. apply strip_prefix_Some in E. rewrite E, string_length_app. lia.
Qed.

(** Trimming leaves nothing to trim. *)
Lemma trim_start_done s : strip_any RustStr.strip_prefix WHITE_SPACE (trim_start s) = None.
Proof.
  unfold trim_start. generalize (le_n (String.length s)). generalize (String.length s) at 2 3 as fuel.
  intros fuel. revert s. induction fuel as [|fuel IH]; intros s Hf.
  - destruct s; [by vm_compute|simpl in Hf; lia].
  - cbn [trim_fuel]. destruct (strip_any RustStr.strip_prefix WHITE_SPACE s) as [r|] eqn:E; [|done]. apply IH. apply strip_any_shorter in E. lia.
Qed.

Lemma trim_start_id s : strip_any RustStr.strip_prefix WHITE_SPACE s = None -> trim_start s = s.
Proof. intros E. unfold trim_start. destruct (String.length s); [done|]. cbn [trim_fuel]. by rewrite E. Qed.

Lemma trim_start_idempotent s : trim_start (trim_start s) = trim_start s.
Proof. apply trim_start_id, trim_start_done. Qed.

(** ** Words *)

(** The pieces between the whitespace characters of [s], empty ones included; the fuel is
    its length. *)
Fixpoint whitespace_pieces (fuel : nat) (s : string) : list string :=
  match fuel with
  | O => [""]
  | S fuel =>
      match strip_any RustStr.strip_prefix WHITE_SPACE s, s with
      | Some r, _ => "" :: whitespace_pieces fuel r
      | None, EmptyString => [""]
      | None, String a s' =>
          match whitespace_pieces fuel s' with
          | [] => [String a ""]
          | w :: ws => String a w :: ws
          end
      end
  end.

(** [str::split_whitespace] *)
Definition split_whitespace (s : string) : list string :=
  List.filter (fun w => negb (String.eqb w "")) (whitespace_pieces (String.length s) s).

(** [str::contains] with a string. *)
Fixpoint contains_str (p s : string) : bool :=
  RustStr.starts_with s p || match s with EmptyString => false | String _ s' => contains_str p s' end.

(** [str::trim_matches] with an ASCII character. *)
Fixpoint trim_end_matches (c : ascii) (s : string) : string :=
  match s with
  | EmptyString => ""
  | String a s' =>
      match trim_end_matches c s' with
      | EmptyString => if Ascii.eqb a c then "" else String a ""
      | r => String a r
      end
  end.

Definition trim_matches (c : ascii) (s : string) : string := trim_end_matches c (trim_start_matches c s).

(** ** Trimmed strings *)

Lemma strip_any_None strip ps s : strip_any strip ps s = None <-> Forall (fun p => strip p s = None) ps.
Proof.
  induction ps as [|p ps IH]; simpl; [by split|]. rewrite Forall_cons, <- IH. destruct (strip p s); naive_solver.
Qed.

Lemma strip_prefix_None p s : RustStr.strip_prefix p s = None <-> forall r, s <> p ++ r.
Proof.
  split.
  - intros E r ->. by rewrite strip_prefix_app in E.
  - intros Hn. destruct (RustStr.strip_prefix p s) as [r|] eqn:E; [|done]. apply strip_prefix_Some in E. by destruct (Hn r).
Qed.

Lemma strip_suffix_None s p : strip_suffix s p = None <-> forall r, s <> r ++ p.
Proof.
  split.
  - intros E r ->. by rewrite strip_suffix_app in E.
  - intros Hn. destruct (strip_suffix s p) as [r|] eqn:E; [|done]. apply strip_suffix_Some in E. by destruct (Hn r).
Qed.

(** No whitespace at the start, at the end. *)
Definition no_lead (s : string) : Prop := Forall (fun w => forall r, s <> w ++ r) WHITE_SPACE.
Definition no_trail (s : string) : Prop := Forall (fun w => forall r, s <> r ++ w) WHITE_SPACE.

Lemma no_lead_spec s : strip_any RustStr.strip_prefix WHITE_SPACE s = None <-> no_lead s.
Proof. rewrite strip_any_None. apply Forall_iff. intros w. apply strip_prefix_None. Qed.

Lemma no_trail_spec s : strip_any (fun p s => strip_suffix s p) WHITE_SPACE s = None <-> no_trail s.
Proof. rewrite strip_any_None. apply Forall_iff. intros w. apply strip_suffix_None. Qed.

Lemma strip_any_Some strip ps s r : strip_any strip ps s = Some r -> exists p, p ∈ ps /\ strip p s = Some r.
Proof.
  induction ps as [|p ps IH]; simpl; [done|]. destruct (strip p s) as [r'|] eqn:E.
  - intros [= ->]. exists p. split; [left|done].
  - intros (q & Hq & E')%IH. exists q. split; [by right|done].
Qed.

Lemma white_space_nonempty : Forall (fun p => 0 < String.length p) WHITE_SPACE.
Proof. apply Forall_forall. intros p Hp. apply list_elem_of_In in Hp. vm_compute in Hp. intuition (subst; simpl; lia). Qed.

Lemma trim_start_suffix s : exists w, s = w ++ trim_start s.
Proof.
  unfold trim_start. generalize (String.length s) as fuel. intros fuel. revert s.
  induction fuel as [|fuel IH]; intros s; [by exists ""|]. cbn [trim_fuel].
  destruct (strip_any RustStr.strip_prefix WHITE_SPACE s) as [r|] eqn:E; [|by exists ""].
  apply strip_any_Some in E as (p & _ & E%strip_prefix_Some). destruct (IH r) as [w Hw].
  exists (p ++ w). rewrite string_app_assoc. congruence.
Qed.

Lemma trim_end_prefix s : exists w, s = trim_end s ++ w.
Proof.
  unfold trim_end. generalize (String.length s) as fuel. intros fuel. revert s.
  induction fuel as [|fuel IH]; intros s; [exists ""; by rewrite string_app_nil_r|]. cbn [trim_fuel].
  destruct (strip_any _ WHITE_SPACE s) as [r|] eqn:E; [|exists ""; by rewrite string_app_nil_r].
  apply strip_any_Some in E as (p & _ & E%strip_suffix_Some). destruct (IH r) as [w Hw].
  exists (w ++ p). rewrite <- string_app_assoc. congruence.
Qed.

Lemma trim_end_done s : no_trail (trim_end s).
Proof.
  apply no_trail_spec. unfold trim_end. generalize (le_n (String.length s)).
  generalize (String.length s) at 2 3 as fuel. intros fuel. revert s.
  induction fuel as [|fuel IH]; intros s Hf.
  - destruct s; [by vm_compute|simpl in Hf; lia].
  - cbn [trim_fuel]. destruct (strip_any _ WHITE_SPACE s) as [r|] eqn:E; [|done]. apply IH.
    apply strip_any_Some in E as (p & Hp & E%strip_suffix_Some).
    pose proof white_space_nonempty as Hne. rewrite Forall_forall in Hne. specialize (Hne _ Hp).
    rewrite E, string_length_app in Hf. lia.
Qed.

Lemma trim_end_id s : no_trail s -> trim_end s = s.
Proof. intros E%no_trail_spec. unfold trim_end. destruct (String.length s); [done|]. cbn [trim_fuel]. by rewrite E. Qed.

Lemma no_lead_prefix s t : no_lead (s ++ t) -> no_lead s.
Proof.
  intros Hn. eapply Forall_impl; [apply Hn|]. intros w Hw r ->. apply (Hw (r ++ t)). by rewrite string_app_assoc.
Qed.

Lemma trim_no_lead s : no_lead (trim s).
Proof.
  unfold trim. destruct (trim_end_prefix (trim_start s)) as [w Hw]. apply (no_lead_prefix _ w).
  rewrite <- Hw. apply no_lead_spec, trim_start_done.
Qed.

Lemma trim_no_trail s : no_trail (trim s).
Proof. apply trim_end_done. Qed.

Lemma trim_id s : no_lead s -> no_trail s -> trim s = s.
Proof. intros Hl%no_lead_spec Ht. unfold trim. by rewrite trim_start_id, trim_end_id. Qed.

Lemma trim_idempotent s : trim (trim s) = trim s.
Proof. apply trim_id; [apply trim_no_lead|apply trim_no_trail]. Qed.

(** No whitespace character holds an ASCII character [c] that is none itself, so text
    after such a [c] does not make whitespace at the start of the text before it. *)
Definition plain_char (c : ascii) : Prop := Forall (fun w => contains_char c w = false) WHITE_SPACE.

Lemma app_cut (c : ascii) w r s t :
  contains_char c w = false -> s ++ String c t = w ++ r -> exists r', s = w ++ r'.
Proof.
  revert s. induction w as [|a w IH]; intros s Hc E; [by exists s|]. simpl in Hc. apply orb_false_iff in Hc as [Ha Hc].
  destruct s as [|b s]; simpl in E; injection E as -> E; [by rewrite Ascii.eqb_refl in Ha|].
  destruct (IH _ Hc E) as [r' ->]. by exists r'.
Qed.

Lemma no_lead_app c s t : plain_char c -> no_lead s -> no_lead (s ++ String c t).
Proof.
  unfold no_lead, plain_char. rewrite !Forall_forall. intros Hc Hs w Hw r E.
  apply app_cut in E as [r' ->]; [by apply (Hs w Hw r')|by apply Hc].
Qed.

Lemma app_cut_end (c : ascii) w r s t :
  contains_char c w = false -> s ++ String c t = r ++ w -> exists r', t = r' ++ w.
Proof.
  revert r. induction s as [|b s IH]; intros r Hc E.
  - destruct r as [|a r]; simpl in E; [|injection E as _ ->; by exists r].
    destruct w as [|a w]; [done|]. injection E as -> _. simpl in Hc. by rewrite Ascii.eqb_refl in Hc.
  - destruct r as [|a r]; simpl in E.
    + exfalso. change ("" ++ w) with w in E. rewrite <- E in Hc. change (String b (s ++ String c t)) with (String b s ++ String c t) in Hc.
      rewrite contains_char_app in Hc. apply orb_false_iff in Hc as [_ Hc]. simpl in Hc. by rewrite Ascii.eqb_refl in Hc.
    + injection E as _ E. by apply IH in E.
Qed.

Lemma no_trail_app c s t : plain_char c -> no_trail t -> no_trail (s ++ String c t).
Proof.
  unfold no_trail, plain_char. rewrite !Forall_forall. intros Hc Ht w Hw r E.
  apply app_cut_end in E as [r' ->]; [by apply (Ht w Hw r')|by apply Hc].
Qed.

Lemma contains_str_true p s : contains_str p s = true -> exists a b, s = a ++ p ++ b.
Proof.
  induction s as [|c s IH]; simpl; intros E; apply orb_true_iff in E as [E|E]; try done.
  1,2: unfold RustStr.starts_with in E; destruct (RustStr.strip_prefix p _) as [r|] eqn:Er; [|done];
       apply strip_prefix_Some in Er; by exists "", r.
  destruct (IH E) as (a & b & ->). by exists (String c a), b.
Qed.

Lemma trim_char_free c s : contains_char c s = false -> contains_char c (trim s) = false.
Proof.
  intros Hs. unfold trim. destruct (trim_start_suffix s) as [w Hw]. destruct (trim_end_prefix (trim_start s)) as [v Hv].
  rewrite Hw, Hv, !contains_char_app in Hs. by apply orb_false_iff in Hs as [_ [Hs _]%orb_false_iff].
Qed.
