(* ===== verification/Status.v ===== *)
(** * Build and evaluation statuses

    The status enums of [backend/gradient-entity/src/build.rs] and
    [evaluation.rs], the attempt enums of [build_attempt.rs], the two state
    machines of [backend/gradient-db/src/state_machine/], and what the transition
    graphs allow over any number of validated moves. *)

From S2P Require Import Prelude.
From stdpp Require Import relations.

(** ** Builds *)

Inductive BuildStatus :=
| BCreated | BQueued | BBuilding | BCompleted | BFailedPermanent
| BAborted | BDependencyFailed | BSubstituted | BFailedTransient | BFailedTimeout.

#[export] Instance BuildStatus_eq_dec : EqDecision BuildStatus.
Proof. solve_decision. Defined.

(** [i32::from(BuildStatus)], the number stored and compared by raw SQL. *)
Definition i32_of_build (s : BuildStatus) : Z :=
  match s with
  | BCreated => 0 | BQueued => 1 | BBuilding => 2 | BCompleted => 3 | BFailedPermanent => 4
  | BAborted => 5 | BDependencyFailed => 6 | BSubstituted => 7 | BFailedTransient => 8
  | BFailedTimeout => 9
  end.

Definition for_api (s : BuildStatus) : BuildStatus :=
  match s with BCreated => BQueued | other => other end.

Definition is_failure (s : BuildStatus) : bool :=
  match s with
  | BFailedPermanent | BFailedTransient | BFailedTimeout | BDependencyFailed => true
  | _ => false
  end.

Definition is_terminal_failure (s : BuildStatus) : bool :=
  match s with BFailedPermanent | BFailedTimeout | BDependencyFailed => true | _ => false end.

Definition is_terminal_success (s : BuildStatus) : bool :=
  match s with BCompleted | BSubstituted => true | _ => false end.

Definition TERMINAL_SUCCESS : list BuildStatus := [BCompleted; BSubstituted].
Definition TERMINAL_FAILURE : list BuildStatus := [BFailedPermanent; BDependencyFailed; BFailedTimeout].
Definition FAILURE : list BuildStatus :=
  [BFailedPermanent; BDependencyFailed; BFailedTransient; BFailedTimeout].
Definition REQUEUEABLE : list BuildStatus := [BFailedPermanent; BAborted; BDependencyFailed; BFailedTimeout].

(** [status IN (...)] *)
Definition status_in (set : list BuildStatus) (s : BuildStatus) : bool := bool_decide (s ∈ set).

Record InvalidBuildTransition := { ibt_from : BuildStatus; ibt_to : BuildStatus }.

(** [BuildStateMachine::is_terminal] *)
Definition build_is_terminal (s : BuildStatus) : bool :=
  match s with
  | BCompleted | BSubstituted | BFailedPermanent | BFailedTimeout | BAborted | BDependencyFailed => true
  | _ => false
  end.

(** [BuildStateMachine::validate] *)
Definition validate_build (from to : BuildStatus) : result BuildStatus InvalidBuildTransition :=
  if bool_decide (from = to) then Ok to
  else if build_is_terminal from then Err {| ibt_from := from; ibt_to := to |}
  else
    match from, to with
    | BCreated, BQueued => Ok to
    | BQueued, BBuilding => Ok to
    | BFailedTransient, BQueued => Ok to
    | BBuilding, BQueued => Ok to
    | _, BFailedPermanent => Ok to
    | _, BFailedTransient => Ok to
    | _, BFailedTimeout => Ok to
    | _, BCompleted => Ok to
    | _, BSubstituted => Ok to
    | _, BAborted => Ok to
    | _, BDependencyFailed => Ok to
    | _, _ => Err {| ibt_from := from; ibt_to := to |}
    end.

(** ** Build attempts *)

Inductive AttemptOutcome := ARunning | ABuilt | ASubstituted | AFailed | AAborted.

#[export] Instance AttemptOutcome_eq_dec : EqDecision AttemptOutcome.
Proof. solve_decision. Defined.

Inductive AttemptFailureReason :=
| RSubstituteUnavailable | ROom | RDiskFull | RNetwork | RBuilderCrash
| RBuilderNonzero | RWallClockTimeout | RSilentTimeout | RInputsUnavailable.

#[export] Instance AttemptFailureReason_eq_dec : EqDecision AttemptFailureReason.
Proof. solve_decision. Defined.

(** ** Evaluations *)

Inductive EvaluationStatus :=
| EQueued | EEvaluatingFlake | EEvaluatingDerivation | EBuilding | EWaiting
| ECompleted | EFailed | EAborted | EFetching.

#[export] Instance EvaluationStatus_eq_dec : EqDecision EvaluationStatus.
Proof. solve_decision. Defined.

Definition i32_of_eval (s : EvaluationStatus) : Z :=
  match s with
  | EQueued => 0 | EEvaluatingFlake => 1 | EEvaluatingDerivation => 2 | EBuilding => 3
  | EWaiting => 4 | ECompleted => 5 | EFailed => 6 | EAborted => 7 | EFetching => 8
  end.

(** [EvaluationStatus::is_active] *)
Definition eval_is_active (s : EvaluationStatus) : bool :=
  match s with
  | EQueued | EFetching | EEvaluatingFlake | EEvaluatingDerivation | EBuilding | EWaiting => true
  | _ => false
  end.

Definition EVAL_ACTIVE : list EvaluationStatus :=
  [EQueued; EFetching; EEvaluatingFlake; EEvaluatingDerivation; EBuilding; EWaiting].
Definition EVAL_TERMINAL : list EvaluationStatus := [ECompleted; EFailed; EAborted].

Record InvalidEvalTransition := { iet_from : EvaluationStatus; iet_to : EvaluationStatus }.

(** [EvalStateMachine::is_terminal] *)
Definition eval_is_terminal (s : EvaluationStatus) : bool :=
  match s with ECompleted | EFailed | EAborted => true | _ => false end.

(** [EvalStateMachine::validate] *)
Definition validate_eval (from to : EvaluationStatus) : result EvaluationStatus InvalidEvalTransition :=
  if bool_decide (from = to) then Ok to
  else if eval_is_terminal from then Err {| iet_from := from; iet_to := to |}
  else
    match from, to with
    | EQueued, EFetching => Ok to
    | EQueued, EEvaluatingFlake => Ok to
    | EFetching, EEvaluatingFlake => Ok to
    | EEvaluatingFlake, EEvaluatingDerivation => Ok to
    | EEvaluatingDerivation, EBuilding => Ok to
    | EEvaluatingDerivation, ECompleted => Ok to
    | EBuilding, EWaiting => Ok to
    | EWaiting, EBuilding => Ok to
    | EBuilding, ECompleted => Ok to
    | EQueued, EWaiting => Ok to
    | EFetching, EWaiting => Ok to
    | EEvaluatingFlake, EWaiting => Ok to
    | EEvaluatingDerivation, EWaiting => Ok to
    | EWaiting, EQueued => Ok to
    | _, EFailed => Ok to
    | _, EAborted => Ok to
    | _, ECompleted => Ok to
    | _, _ => Err {| iet_from := from; iet_to := to |}
    end.

(** ** Why an evaluation waits *)

Inductive EvalCapability := CapFetch | CapEval.

#[export] Instance EvalCapability_eq_dec : EqDecision EvalCapability.
Proof. solve_decision. Defined.

Record UnmetRequirement := {
  ur_architecture : string;
  ur_required_features : list string;
  ur_build_count : Z;
}.

#[export] Instance UnmetRequirement_eq_dec : EqDecision UnmetRequirement.
Proof. solve_decision. Defined.

Inductive WaitingReason :=
| WWorkers (unmet : list UnmetRequirement) (connected_workers : Z) (available_architectures : list string)
| WEvalWorkers (capability : EvalCapability) (connected_workers : Z)
| WApproval (pr_number : Z) (pr_author : string)
| WNoCache
| WCacheStorageFull
| WDraining
| WAborting
| WGraphStuck (pending_anchors : Z).

#[export] Instance WaitingReason_eq_dec : EqDecision WaitingReason.
Proof. solve_decision. Defined.

(** ** What the transition graphs allow *)

(** One validated move that changes the status. *)
Definition build_move (from to : BuildStatus) : Prop :=
  from <> to /\ is_ok (validate_build from to) = true.

Definition eval_move (from to : EvaluationStatus) : Prop :=
  from <> to /\ is_ok (validate_eval from to) = true.

#[export] Instance build_move_dec from to : Decision (build_move from to).
Proof. unfold build_move. apply _. Defined.

#[export] Instance eval_move_dec from to : Decision (eval_move from to).
Proof. unfold eval_move. apply _. Defined.

Lemma status_in_spec set s : status_in set s = true <-> s ∈ set.
Proof. unfold status_in. apply bool_decide_eq_true. Qed.

Lemma terminal_success_in s : status_in TERMINAL_SUCCESS s = is_terminal_success s.
Proof. destruct s; reflexivity. Qed.

Lemma terminal_failure_in s : status_in TERMINAL_FAILURE s = is_terminal_failure s.
Proof. destruct s; reflexivity. Qed.

Lemma requeueable_terminal s : status_in REQUEUEABLE s = build_is_terminal s && negb (is_terminal_success s).
Proof. destruct s; reflexivity. Qed.

Lemma validate_build_ok from to r : validate_build from to = Ok r -> r = to.
Proof. unfold validate_build. case_bool_decide; destruct from, to; simpl; naive_solver. Qed.

Lemma validate_eval_ok from to r : validate_eval from to = Ok r -> r = to.
Proof. unfold validate_eval. case_bool_decide; destruct from, to; simpl; naive_solver. Qed.

Lemma build_terminal_final from to : build_is_terminal from = true -> ~ build_move from to.
Proof.
  intros Ht [Hne Hok]. unfold validate_build in Hok.
  rewrite bool_decide_eq_false_2, Ht in Hok by done. discriminate.
Qed.

Lemma eval_terminal_final from to : eval_is_terminal from = true -> ~ eval_move from to.
Proof.
  intros Ht [Hne Hok]. unfold validate_eval in Hok.
  rewrite bool_decide_eq_false_2, Ht in Hok by done. discriminate.
Qed.

(** Only a status change through [Queued] starts a build. *)
Lemma build_move_building from : build_move from BBuilding <-> from = BQueued.
Proof. split; [intros [??]; by destruct from | intros ->; by compute]. Qed.

Lemma build_move_created from : ~ build_move from BCreated.
Proof. intros [??]; by destruct from. Qed.

(** The ends of a build's life: any non-terminal status may end in any terminal
    one, no terminal status moves, and [Created] is never reached again. *)
Lemma build_transitions_exact from to :
  build_move from to <->
  from <> to /\ build_is_terminal from = false /\
  (build_is_terminal to = true \/ to = BFailedTransient \/
   (to = BBuilding /\ from = BQueued) \/ to = BQueued).
Proof.
  unfold build_move. destruct from, to; simpl; split; naive_solver.
Qed.

Lemma eval_reaches_building from : eval_move from EBuilding -> from = EEvaluatingDerivation \/ from = EWaiting.
Proof. intros [??]. destruct from; naive_solver. Qed.
