(* ===== verification/Fixpoints.v ===== *)
(** * Recursive queries and flag fixpoints

    What the database statements of the build graph have in common: a
    [WITH RECURSIVE ... UNION] query closes a set of rows under a relation, and a
    statement repeated until it affects no row leaves nothing for it to do. *)

From S2P Require Import Prelude.
From stdpp Require Export relations.

(** ** WITH RECURSIVE *)

Section recursive_query.
Context {K : Type} `{Countable K}.

(** PostgreSQL's evaluation of [seed UNION step]: the rows of the last round that are
    new are appended to the result and feed the next round, until none is new. *)
Fixpoint query_rounds (fuel : nat) (step : gset K -> gset K) (seen work : gset K) : gset K :=
  match fuel with
  | O => seen
  | S fuel =>
      let fresh := step work ∖ seen in
      if bool_decide (fresh = ∅) then seen else query_rounds fuel step (seen ∪ fresh) fresh
  end.

(** [rows] bounds what [step] can produce; each round but the last adds one of them. *)
Definition recursive_query (rows : gset K) (step : gset K -> gset K) (seed : gset K) : gset K :=
  query_rounds (S (size rows)) step seed seed.

Context (R : relation K) (rows : gset K) (step : gset K -> gset K).
Hypothesis step_spec : forall work y, y ∈ step work <-> exists x, x ∈ work /\ R x y.
Hypothesis step_rows : forall x y, R x y -> y ∈ rows.

Lemma query_rounds_sound fuel : forall (seed seen work : gset K) (y : K),
  (forall x, x ∈ seen -> exists s, s ∈ seed /\ rtc R s x) -> work ⊆ seen ->
  y ∈ query_rounds fuel step seen work -> exists s, s ∈ seed /\ rtc R s y.
Proof.
  induction fuel as [|fuel IH]; intros seed seen work y Hseen Hwork; simpl; [apply Hseen|].
  case_bool_decide; [apply Hseen|]. apply IH; [|set_solver].
  intros x [Hx|[Hx _]%elem_of_difference]%elem_of_union; [by apply Hseen|].
  apply step_spec in Hx as (w & Hw & Hr). destruct (Hseen w) as (s & Hs & Hp); [set_solver|].
  exists s. split; [done|]. by eapply rtc_r.
Qed.

Lemma query_rounds_closed fuel : forall (seen work : gset K),
  (forall x y, x ∈ seen -> R x y -> x ∉ work -> y ∈ seen) -> work ⊆ seen ->
  size (rows ∖ seen) < fuel ->
  seen ⊆ query_rounds fuel step seen work /\
  forall x y, x ∈ query_rounds fuel step seen work -> R x y -> y ∈ query_rounds fuel step seen work.
Proof.
  induction fuel as [|fuel IH]; intros seen work Hclosed Hwork Hfuel; [lia|]. simpl.
  case_bool_decide as Hf.
  - split; [done|]. intros x y Hx Hr. destruct (decide (x ∈ work)) as [Hw|Hw]; [|by eapply Hclosed].
    destruct (decide (y ∈ seen)); [done|].
    assert (y ∈ step work ∖ seen) as Hy by (apply elem_of_difference; split; [apply step_spec; eauto|done]).
    rewrite Hf in Hy. set_solver.
  - destruct (IH (seen ∪ step work ∖ seen) (step work ∖ seen)) as [Hsub Hc]; [..|set_solver].
    + intros x y [Hx|Hx]%elem_of_union Hr Hn; [|done].
      destruct (decide (x ∈ work)) as [Hw|Hw].
      * destruct (decide (y ∈ seen)); [set_solver|].
        apply elem_of_union_r, elem_of_difference. split; [apply step_spec; eauto|done].
      * apply elem_of_union_l. by eapply Hclosed.
    + set_solver.
    + destruct (set_choose_L _ Hf) as [y Hy].
      assert (Hlt : size (rows ∖ (seen ∪ step work ∖ seen)) < size (rows ∖ seen)); [|lia].
      apply subset_size. split; [set_solver|]. intros Hsub.
      apply elem_of_difference in Hy as [Hy Hns].
      pose proof (proj1 (step_spec work y) Hy) as (w & _ & Hr%step_rows).
      assert (y ∈ rows ∖ (seen ∪ step work ∖ seen)) by (apply Hsub; set_solver). set_solver.
Qed.

(** The query returns exactly the rows reachable from its seed. *)
Lemma recursive_query_spec (seed : gset K) (y : K) :
  y ∈ recursive_query rows step seed <-> exists s, s ∈ seed /\ rtc R s y.
Proof.
  unfold recursive_query. split.
  - apply query_rounds_sound; [|done]. intros x Hx. exists x. split; [done|constructor].
  - intros (s & Hs & Hp).
    destruct (query_rounds_closed (S (size rows)) seed seed) as [Hsub Hc]; [set_solver|done|..].
    { pose proof (subseteq_size (rows ∖ seed) rows). set_solver by lia. }
    revert Hs. induction Hp as [x|x z y Hr Hp IH]; intros Hx; [by apply Hsub|].
    clear IH. assert (Hin : x ∈ query_rounds (S (size rows)) step seed seed) by by apply Hsub.
    clear Hx. assert (Hz : z ∈ query_rounds (S (size rows)) step seed seed) by by eapply Hc.
    clear Hr Hin. induction Hp as [z|z w y Hr Hp IH]; [done|]. apply IH. by eapply Hc.
Qed.

End recursive_query.

(** ** Statements repeated until they affect nothing *)

Section until_noop.
Context {S : Type}.

(** [loop { if execute(stmt).rows_affected() == 0 { break } }] *)
Fixpoint until_noop (fuel : nat) (stmt : S -> S * nat) (s : S) : S :=
  match fuel with
  | O => s
  | Datatypes.S fuel =>
      let '(s', changed) := stmt s in
      if Nat.eqb changed 0 then s' else until_noop fuel stmt s'
  end.

Context (stmt : S -> S * nat).

Lemma until_noop_ind (P : S -> Prop) fuel s :
  P s -> (forall s, P s -> P (stmt s).1) -> P (until_noop fuel stmt s).
Proof.
  intros Hs Hstep. revert s Hs. induction fuel as [|fuel IH]; intros s Hs; simpl; [done|].
  specialize (Hstep s Hs) as Hs'. destruct (stmt s) as [s' n]. simpl in Hs'.
  destruct (Nat.eqb n 0); [done|]. by apply IH.
Qed.

(** With a measure every effective statement lowers, [fuel] above the measure reaches
    a state the statement leaves alone. *)
Lemma until_noop_converges (measure : S -> nat) fuel s :
  (forall s, (stmt s).2 = 0 -> (stmt s).1 = s) ->
  (forall s, (stmt s).2 <> 0 -> measure (stmt s).1 < measure s) ->
  measure s < fuel -> (stmt (until_noop fuel stmt s)).2 = 0.
Proof.
  intros Hnoop Hdec. revert s. induction fuel as [|fuel IH]; intros s Hf; simpl; [lia|].
  specialize (Hnoop s) as Hn. specialize (Hdec s) as Hd.
  destruct (stmt s) as [s' n] eqn:E. simpl in Hn, Hd.
  destruct (Nat.eqb_spec n 0) as [->|Hne].
  - rewrite Hn by done. by rewrite E.
  - apply IH. specialize (Hd Hne). lia.
Qed.

(** The loop ends: it runs the statement some number of times below the measure, each of
    them effective, and stops at a state the statement leaves alone. *)
Definition ends_after (n : nat) (s s' : S) : Prop :=
  s' = Nat.iter n (fun s => (stmt s).1) s /\
  (forall i, i < n -> (stmt (Nat.iter i (fun s => (stmt s).1) s)).2 <> 0) /\ (stmt s').2 = 0.

Lemma iter_shift (f : S -> S) n s : Nat.iter n f (f s) = Nat.iter (Datatypes.S n) f s.
Proof. induction n as [|n IH]; [done|]. simpl. by rewrite IH. Qed.

Lemma until_noop_ends (measure : S -> nat) fuel s :
  (forall s, (stmt s).2 = 0 -> (stmt s).1 = s) ->
  (forall s, (stmt s).2 <> 0 -> measure (stmt s).1 < measure s) ->
  measure s < fuel -> exists n, n <= measure s /\ ends_after n s (until_noop fuel stmt s).
Proof.
  intros Hnoop Hdec. revert s. induction fuel as [|fuel IH]; intros s Hf; [lia|]. cbn [until_noop].
  specialize (Hnoop s) as Hn. specialize (Hdec s) as Hd. destruct (stmt s) as [s' c] eqn:E. simpl in Hn, Hd.
  destruct (Nat.eqb_spec c 0) as [->|Hne].
  - rewrite Hn by done. exists 0. split; [lia|]. split; [done|]. split; [lia|by rewrite E].
  - specialize (Hd Hne). destruct (IH s') as (n & Hle & Hs & Heff & Hz); [lia|]. exists (Datatypes.S n). split; [lia|].
    assert (Hs' : s' = (stmt s).1) by by rewrite E. split; [|split; [|done]].
    + rewrite Hs, Hs'. apply (iter_shift (fun s => (stmt s).1)).
    + intros [|i] Hi; [simpl; by rewrite E|]. rewrite <- (iter_shift (fun s => (stmt s).1)), <- Hs'. apply Heff. lia.
Qed.

End until_noop.

(** ** Derived flags

    A boolean column caching a predicate over the other rows (the gate). The
    healing statements clear the flags whose gate fails and set those whose gate
    holds; gates only ask for more flags, never for fewer. *)

Section flag_column.
Context {T K : Type} `{Countable K}.

Record FlagColumn := {
  fc_keys : T -> list K;
  fc_flag : T -> K -> bool;
  fc_gate : T -> K -> bool;
  (** [UPDATE ... SET flag = b WHERE p] *)
  fc_assign : T -> (K -> bool) -> bool -> T;
}.

Class FlagLaws (c : FlagColumn) := {
  keys_assign t p b : fc_keys c (fc_assign c t p b) = fc_keys c t;
  flag_assign t p b k :
    k ∈ fc_keys c t -> fc_flag c (fc_assign c t p b) k = if p k then b else fc_flag c t k;
  flag_keys t k : fc_flag c t k = true -> k ∈ fc_keys c t;
  gate_monotone t p k : fc_gate c t k = true -> fc_gate c (fc_assign c t p true) k = true;
  assign_nothing t p b : (forall k, k ∈ fc_keys c t -> p k = false) -> fc_assign c t p b = t;
}.

Definition statement (c : FlagColumn) (b : bool) (hit : T -> K -> bool) (t : T) : T * nat :=
  (fc_assign c t (hit t) b, length (filter (fun k => hit t k = true) (fc_keys c t))).

Definition clear_hit (c : FlagColumn) (scope : T -> K -> bool) (t : T) (k : K) : bool :=
  fc_flag c t k && scope t k && negb (fc_gate c t k).

Definition set_hit (c : FlagColumn) (scope : T -> K -> bool) (t : T) (k : K) : bool :=
  negb (fc_flag c t k) && scope t k && fc_gate c t k.

(** Each effective round changes one of the rows for good. *)
Definition converge (c : FlagColumn) (b : bool) (hit : T -> K -> bool) (t : T) : T :=
  until_noop (S (length (fc_keys c t))) (statement c b hit) t.

(** [run_bidirectional_fixpoint]: CLEAR to convergence, then SET to convergence. *)
Definition run_bidirectional_fixpoint (c : FlagColumn) (scope : T -> K -> bool) (t : T) : T :=
  converge c true (set_hit c scope) (converge c false (clear_hit c scope) t).

Context (c : FlagColumn) {HL : FlagLaws c} (scope : T -> K -> bool).

Definition count_flags (b : bool) (t : T) : nat :=
  length (filter (fun k => fc_flag c t k = b) (fc_keys c t)).

Lemma no_hit (hit : K -> bool) (l : list K) :
  length (filter (fun k => hit k = true) l) = 0 -> forall k, k ∈ l -> hit k = false.
Proof.
  intros Hl%nil_length_inv k Hk. destruct (hit k) eqn:E; [|done].
  assert (k ∈ filter (fun k => hit k = true) l) by (by apply list_elem_of_filter).
  rewrite Hl in *. by apply elem_of_nil in H0.
Qed.

Lemma flag_keep t p b k : p k = false -> fc_flag c (fc_assign c t p b) k = fc_flag c t k.
Proof.
  intros Hp. destruct (decide (k ∈ fc_keys c t)) as [Hk|Hk].
  { by rewrite flag_assign, Hp. }
  assert (Hf : forall t', fc_keys c t' = fc_keys c t -> fc_flag c t' k = false).
  { intros t' Ht. apply not_true_is_false. intros Hf%flag_keys. by rewrite Ht in Hf. }
  rewrite !Hf; [done|done|apply keys_assign].
Qed.

Lemma filter_length_mono {A} (P Q : A -> Prop) `{!forall x, Decision (P x), !forall x, Decision (Q x)} l :
  (forall x, x ∈ l -> P x -> Q x) -> length (filter P l) <= length (filter Q l).
Proof.
  induction l as [|x l IH]; intros Hi; [done|]. rewrite !filter_cons.
  assert (Hl : length (filter P l) <= length (filter Q l)) by (apply IH; intros y Hy; apply Hi; by constructor).
  specialize (Hi x (list_elem_of_here x l)).
  repeat case_decide; simpl; try lia. exfalso. auto.
Qed.

Lemma filter_length_lt {A} (P Q : A -> Prop) `{!forall x, Decision (P x), !forall x, Decision (Q x)} l x :
  (forall x, x ∈ l -> P x -> Q x) -> x ∈ l -> Q x -> ~ P x ->
  length (filter P l) < length (filter Q l).
Proof.
  induction l as [|y l IH]; intros Hi Hx HQ HP; [by apply elem_of_nil in Hx|]. rewrite !filter_cons.
  assert (Hl : forall z, z ∈ l -> P z -> Q z) by (intros z Hz; apply Hi; by constructor).
  specialize (Hi y (list_elem_of_here y l)) as Hy. apply elem_of_cons in Hx as [<-|Hx].
  - rewrite decide_False, decide_True by done. simpl. pose proof (filter_length_mono P Q l Hl). lia.
  - specialize (IH Hl Hx HQ HP). repeat case_decide; simpl; try lia. exfalso. tauto.
Qed.

Lemma statement_lowers b hit :
  (forall t k, hit t k = true -> fc_flag c t k = negb b) ->
  forall s, (statement c b hit s).2 <> 0 -> count_flags (negb b) (statement c b hit s).1 < count_flags (negb b) s.
Proof.
  intros Hhit s Hs. simpl in *. unfold count_flags. rewrite keys_assign.
  destruct (filter (fun k => hit s k = true) (fc_keys c s)) as [|k l] eqn:E; [done|].
  assert (k ∈ filter (fun k => hit s k = true) (fc_keys c s)) as [Hk Hin]%list_elem_of_filter
    by (rewrite E; constructor).
  apply (filter_length_lt _ _ _ k); [|done|by apply Hhit|].
  - intros x Hx. rewrite flag_assign by done. destruct (hit s x) eqn:Ex; [|done].
    intros _. by apply Hhit.
  - rewrite flag_assign, Hk by done. by destruct b.
Qed.

Lemma converge_done b hit t :
  (forall t k, hit t k = true -> fc_flag c t k = negb b) ->
  forall k, k ∈ fc_keys c (converge c b hit t) -> hit (converge c b hit t) k = false.
Proof.
  intros Hhit. apply no_hit.
  apply (until_noop_converges (statement c b hit) (count_flags (negb b))).
  - intros s Hs. simpl in *. apply assign_nothing. by apply no_hit.
  - apply statement_lowers, Hhit.
  - unfold count_flags. pose proof (length_filter (fun k => fc_flag c t k = negb b) (fc_keys c t)). lia.
Qed.

(** Each loop ends within as many effective rounds as the column has rows. *)
Lemma converge_ends b hit t :
  (forall t k, hit t k = true -> fc_flag c t k = negb b) ->
  exists n, n <= length (fc_keys c t) /\ ends_after (statement c b hit) n t (converge c b hit t).
Proof.
  intros Hhit. destruct (until_noop_ends (statement c b hit) (count_flags (negb b)) (Datatypes.S (length (fc_keys c t))) t)
    as (n & Hn & He).
  - intros s Hs. simpl in *. apply assign_nothing. by apply no_hit.
  - apply statement_lowers, Hhit.
  - unfold count_flags. pose proof (length_filter (fun k => fc_flag c t k = negb b) (fc_keys c t)). lia.
  - exists n. split; [|done]. unfold count_flags in Hn.
    pose proof (length_filter (fun k => fc_flag c t k = negb b) (fc_keys c t)). lia.
Qed.

Lemma converge_ind (P : T -> Prop) b hit t :
  P t -> (forall t, P t -> P (fc_assign c t (hit t) b)) -> P (converge c b hit t).
Proof. intros Ht Hs. unfold converge. apply until_noop_ind; [done|]. intros s Hps. by apply Hs. Qed.

Lemma converge_keys b hit t : fc_keys c (converge c b hit t) = fc_keys c t.
Proof. apply converge_ind; [done|]. intros t' <-. apply keys_assign. Qed.

(** Both loops of a sweep end. *)
Lemma sweep_ends t :
  exists n m, n <= length (fc_keys c t) /\ m <= length (fc_keys c t) /\
    ends_after (statement c false (clear_hit c scope)) n t (converge c false (clear_hit c scope) t) /\
    ends_after (statement c true (set_hit c scope)) m (converge c false (clear_hit c scope) t)
      (run_bidirectional_fixpoint c scope t).
Proof.
  destruct (converge_ends false (clear_hit c scope) t) as (n & Hn & H1).
  { unfold clear_hit. intros t' k. by destruct (fc_flag c t' k). }
  destruct (converge_ends true (set_hit c scope) (converge c false (clear_hit c scope) t)) as (m & Hm & H2).
  { unfold set_hit. intros t' k. by destruct (fc_flag c t' k). }
  exists n, m. split; [done|]. split; [|done]. by rewrite converge_keys in Hm.
Qed.

Hypothesis scope_stable : forall t p b k, scope (fc_assign c t p b) k = scope t k.

Lemma converge_scope b hit t k : scope (converge c b hit t) k = scope t k.
Proof. apply (converge_ind (fun t' => scope t' k = scope t k)); [done|]. intros t' <-. apply scope_stable. Qed.

Lemma fixpoint_keys t : fc_keys c (run_bidirectional_fixpoint c scope t) = fc_keys c t.
Proof. unfold run_bidirectional_fixpoint. by rewrite !converge_keys. Qed.

Lemma fixpoint_scope t k : scope (run_bidirectional_fixpoint c scope t) k = scope t k.
Proof. unfold run_bidirectional_fixpoint. by rewrite !converge_scope. Qed.

(** Within its scope the flag is the gate afterwards. *)
Lemma fixpoint_exact t k :
  k ∈ fc_keys c t -> scope t k = true ->
  fc_flag c (run_bidirectional_fixpoint c scope t) k = fc_gate c (run_bidirectional_fixpoint c scope t) k.
Proof.
  intros Hk Hs. set (t1 := converge c false (clear_hit c scope) t).
  assert (Hclear : forall k, k ∈ fc_keys c t1 -> fc_flag c t1 k = true -> scope t1 k = true ->
                             fc_gate c t1 k = true).
  { intros x Hx Hf Hsc. assert (Hd : forall k, k ∈ fc_keys c t1 -> clear_hit c scope t1 k = false)
      by (apply converge_done; unfold clear_hit; intros t' y ?; by destruct (fc_flag c t' y)).
    specialize (Hd x Hx). unfold clear_hit in Hd. rewrite Hf, Hsc in Hd.
    by destruct (fc_gate c t1 x). }
  assert (Hsound : forall x, x ∈ fc_keys c t1 -> fc_flag c (converge c true (set_hit c scope) t1) x = true ->
     scope t1 x = true -> fc_gate c (converge c true (set_hit c scope) t1) x = true).
  { intros x Hx. cut (forall x, x ∈ fc_keys c t1 ->
      fc_flag c (converge c true (set_hit c scope) t1) x = true -> scope t1 x = true ->
      fc_gate c (converge c true (set_hit c scope) t1) x = true); [auto|]. clear x Hx.
    set (P := fun t' => fc_keys c t' = fc_keys c t1 /\ (forall x, scope t' x = scope t1 x) /\
      forall x, x ∈ fc_keys c t1 -> fc_flag c t' x = true -> scope t1 x = true -> fc_gate c t' x = true).
    cut (P (converge c true (set_hit c scope) t1)); [by intros (_ & _ & ?)|].
    apply converge_ind; [done|]. intros t' (Hkeys & Hsc & Hg). split; [by rewrite keys_assign|].
    split; [intros; by rewrite scope_stable|]. intros x Hx. rewrite flag_assign by (by rewrite Hkeys).
    intros Hf Hsx. apply gate_monotone. destruct (set_hit c scope t' x) eqn:E; [|by apply Hg].
    unfold set_hit in E. by apply andb_true_iff in E as [_ ->]. }
  assert (Hk1 : k ∈ fc_keys c t1) by (unfold t1; by rewrite converge_keys).
  assert (Hs1 : scope t1 k = true) by (unfold t1; by rewrite converge_scope).
  unfold run_bidirectional_fixpoint. fold t1. set (t2 := converge c true (set_hit c scope) t1) in *.
  destruct (fc_flag c t2 k) eqn:Ef.
  - symmetry. by apply Hsound.
  - assert (Hd : set_hit c scope t2 k = false).
    { apply converge_done; [unfold set_hit; intros t' y ?; by destruct (fc_flag c t' y)|].
      unfold t2. by rewrite converge_keys. }
    unfold set_hit in Hd. assert (Hs2 : scope t2 k = true) by (unfold t2; by rewrite converge_scope).
    by rewrite Ef, Hs2 in Hd.
Qed.

(** Outside its scope nothing is touched. *)
Lemma fixpoint_frame t k :
  scope t k = false -> fc_flag c (run_bidirectional_fixpoint c scope t) k = fc_flag c t k.
Proof.
  intros Hs. unfold run_bidirectional_fixpoint.
  assert (Hc : forall b hit t, scope t k = false -> (forall t, hit t k = true -> scope t k = true) ->
                 fc_flag c (converge c b hit t) k = fc_flag c t k).
  { intros b hit t0 Hs0 Hhit.
    apply (converge_ind (fun t' => scope t' k = false /\ fc_flag c t' k = fc_flag c t0 k)); [done|].
    intros t' [Hs' <-]. split; [by rewrite scope_stable|]. apply flag_keep.
    apply not_true_is_false. intros Hh%Hhit. congruence. }
  rewrite !Hc; [done|done| |by rewrite converge_scope|].
  - intros t'. unfold clear_hit. destruct (scope t' k); [done|]. by rewrite andb_false_r.
  - intros t'. unfold set_hit. destruct (scope t' k); [done|]. by rewrite andb_false_r.
Qed.

End flag_column.

Arguments FlagColumn : clear implicits.
