(* ===== verification/ScoreContext.v ===== *)
(** * Scoring inputs

    The data the scoring policy reads: the fleet metrics windows, the history
    prediction, the worker's metrics view, the job's scoring view, and the job and
    worker contexts ([backend/gradient-score/src/context.rs] and [rule.rs]).

    [chrono] timestamps are abstract: the interface [Chrono] carries the one
    operation the rules use, [(a - b).num_seconds()]. UUIDs are numbers. *)

From S2P Require Import Prelude Float.

Local Open Scope Z_scope.

(** The pseudo-architecture of [builtin:*] derivations. *)
Definition BUILTIN_ARCH : string := "builtin".

Abbreviation OrganizationId := N.

(** [chrono::NaiveDateTime] with [(a - b).num_seconds()] and its order. *)
Class Chrono := {
  NaiveDateTime : Type;
  num_seconds_between : NaiveDateTime -> NaiveDateTime -> Z;
  datetime_cmp : NaiveDateTime -> NaiveDateTime -> comparison;
}.

(** A concrete clock for witnesses: nanoseconds since the epoch; [num_seconds]
    counts whole seconds, truncating toward zero. *)
Definition nanosecond_clock : Chrono := {|
  NaiveDateTime := Z;
  num_seconds_between := fun a b => Z.quot (a - b) 1000000000;
  datetime_cmp := Z.compare;
|}.

Definition at_ns (z : Z) : NaiveDateTime (Chrono := nanosecond_clock) := z.

(** ** Fleet metrics *)

Record Windowed := {
  w5m : option f64;
  w1h : option f64;
  w24h : option f64;
}.

Definition w1h_or (w : Windowed) (fallback : f64) : f64 := default fallback (w1h w).
Definition w24h_or (w : Windowed) (fallback : f64) : f64 := default fallback (w24h w).

Record InstanceContext := {
  ic_wait_secs : Windowed;
  ic_build_time_ms : Windowed;
  ic_peak_ram_mb : Windowed;
  ic_cpu_time_ms : Windowed;
  ic_avg_cpu_pct : Windowed;
  ic_disk_bytes : Windowed;
  ic_network_mbps : Windowed;
  ic_oom_rate : Windowed;
  ic_closure_size : Windowed;
  ic_nar_size_mb : Windowed;
  ic_missing_paths : Windowed;
  ic_dependency_cnt : Windowed;
  ic_completed : Windowed;
  ic_active_builds : Z;
  ic_pending_builds : Z;
  ic_total_workers : Z;
  ic_idle_workers : Z;
}.

Record HistoryPrediction := {
  predicted_peak_ram_mb : Z;
  avg_cpu_time_ms : Z;
  build_time_ms : Z;
  avg_disk_bytes : Z;
  oom_rate : f32;
  samples : Z;
}.

Record WorkerMetricsView := {
  wm_cpu_count : Z;
  wm_cpu_core_score : Z;
  wm_ram_total_mb : Z;
  wm_ram_free_mb : option Z;
  wm_cpu_usage_pct : option f32;
  wm_disk_speed_mbps : option f32;
  wm_network_speed_mbps : option f32;
}.

(** The derived [Default] instances. *)
Definition windowed_default : Windowed := {| w5m := None; w1h := None; w24h := None |}.
Definition history_default : HistoryPrediction := {|
  predicted_peak_ram_mb := 0; avg_cpu_time_ms := 0; build_time_ms := 0;
  avg_disk_bytes := 0; oom_rate := f64_zero; samples := 0 |}.
Definition metrics_default : WorkerMetricsView := {|
  wm_cpu_count := 0; wm_cpu_core_score := 0; wm_ram_total_mb := 0; wm_ram_free_mb := None;
  wm_cpu_usage_pct := None; wm_disk_speed_mbps := None; wm_network_speed_mbps := None |}.
Definition instance_default : InstanceContext := {|
  ic_wait_secs := windowed_default; ic_build_time_ms := windowed_default;
  ic_peak_ram_mb := windowed_default; ic_cpu_time_ms := windowed_default;
  ic_avg_cpu_pct := windowed_default; ic_disk_bytes := windowed_default;
  ic_network_mbps := windowed_default; ic_oom_rate := windowed_default;
  ic_closure_size := windowed_default; ic_nar_size_mb := windowed_default;
  ic_missing_paths := windowed_default; ic_dependency_cnt := windowed_default;
  ic_completed := windowed_default; ic_active_builds := 0; ic_pending_builds := 0;
  ic_total_workers := 0; ic_idle_workers := 0 |}.

(** ** Build contexts and their aggregation *)

Record DerivationRef := {
  dr_build_id : string;
  dr_drv_path : string;
  dr_pname : option string;
}.

Record BuildContext := {
  bc_architecture : string;
  bc_dependency_count : Z;
  bc_prefer_local_build : bool;
  bc_is_fixed_output : bool;
  bc_pname : option string;
  bc_closure_size : option Z;
  bc_history : HistoryPrediction;
  bc_derivations : list DerivationRef;
}.

(** Integer sums wrap at the width of the type (release arithmetic). *)
Definition sum_u32 (l : list Z) : Z := foldl (fun a x => u32 (a + x)) 0 l.
Definition sum_u64 (l : list Z) : Z := foldl (fun a x => u64 (a + x)) 0 l.
Definition i64 (z : Z) : Z := wrap 64 (z + 2 ^ 63) - 2 ^ 63.
Definition sum_i64 (l : list Z) : Z := foldl (fun a x => i64 (a + x)) 0 l.

Definition max_list (l : list Z) : option Z :=
  match l with [] => None | x :: l' => Some (foldl Z.max x l') end.
Definition min_list (l : list Z) : option Z :=
  match l with [] => None | x :: l' => Some (foldl Z.min x l') end.

(** [BuildContext::aggregate]; [None] is the panic on an empty slice. *)
Definition aggregate (items : list BuildContext) : option BuildContext :=
  match items with
  | [] => None
  | [b] => Some b
  | first :: _ => Some {|
      bc_architecture := bc_architecture first;
      bc_dependency_count := sum_u32 (map bc_dependency_count items);
      bc_prefer_local_build := existsb bc_prefer_local_build items;
      bc_is_fixed_output := existsb bc_is_fixed_output items;
      bc_pname :=
        if forallb (fun i => bool_decide (bc_pname i = bc_pname first)) items
        then bc_pname first else None;
      bc_closure_size := Some (sum_i64 (omap bc_closure_size items));
      bc_history := {|
        predicted_peak_ram_mb :=
          default 0 (max_list (map (fun i => predicted_peak_ram_mb (bc_history i)) items));
        avg_cpu_time_ms := sum_u64 (map (fun i => avg_cpu_time_ms (bc_history i)) items);
        build_time_ms :=
          default 0 (max_list (map (fun i => build_time_ms (bc_history i)) items));
        avg_disk_bytes := sum_u64 (map (fun i => avg_disk_bytes (bc_history i)) items);
        oom_rate := foldl f64_max f64_zero (map (fun i => oom_rate (bc_history i)) items);
        samples := default 0 (min_list (map (fun i => samples (bc_history i)) items));
      |};
      bc_derivations := flat_map bc_derivations items;
    |}
  end.

(** ** The scoring view of a job *)

Record EvalContext := {
  ev_fetch_flake : bool;
  ev_history : HistoryPrediction;
}.

Record ScoredBuild := {
  sb_architecture : string;
  sb_prefer_local_build : bool;
  sb_is_fixed_output : bool;
  sb_pname : option string;
  sb_closure_size : option Z;
  sb_history : HistoryPrediction;
}.

Inductive JobKindContext :=
| KindEval (e : EvalContext)
| KindBuild (b : ScoredBuild).

Record ScoredJob := {
  sj_job_id : string;
  sj_org_id : OrganizationId;
  sj_kind : JobKindContext;
}.

Definition new_eval (job_id : string) (org_id : OrganizationId) (fetch_flake : bool)
    (history : HistoryPrediction) : ScoredJob := {|
  sj_job_id := job_id;
  sj_org_id := org_id;
  sj_kind := KindEval {| ev_fetch_flake := fetch_flake; ev_history := history |};
|}.

Definition new_build (job_id : string) (org_id : OrganizationId) (architecture : string)
    (prefer_local_build is_fixed_output : bool) (pname : option string)
    (closure_size : option Z) (history : HistoryPrediction) : ScoredJob := {|
  sj_job_id := job_id;
  sj_org_id := org_id;
  sj_kind := KindBuild {|
    sb_architecture := architecture;
    sb_prefer_local_build := prefer_local_build;
    sb_is_fixed_output := is_fixed_output;
    sb_pname := pname;
    sb_closure_size := closure_size;
    sb_history := history |};
|}.

Definition sj_build (j : ScoredJob) : option ScoredBuild :=
  match sj_kind j with KindBuild b => Some b | KindEval _ => None end.

Definition sj_history (j : ScoredJob) : HistoryPrediction :=
  match sj_kind j with KindEval e => ev_history e | KindBuild b => sb_history b end.

(** ** Rule inputs ([rule.rs]) *)

Record WorkerContext := {
  wc_architectures : list string;
  wc_system_features : list string;
  wc_fetch : bool;
  wc_metrics : option WorkerMetricsView;
}.

Section job_context.
Context `{Chrono}.

Record JobContext := {
  jc_job : ScoredJob;
  jc_missing_count : option Z;
  jc_missing_nar_size : option Z;
  jc_dependency_count : Z;
  jc_queued_at : NaiveDateTime;
  jc_ready_at : NaiveDateTime;
  jc_org_work_share : option f32;
  jc_rescore_count : Z;
  jc_now : NaiveDateTime;
}.

(** The [ScoreRule] trait: an object with its vtable. *)
Record ScoreRule := {
  rule_name : string;
  rule_score : JobContext -> WorkerContext -> InstanceContext -> f64;
  rule_veto : JobContext -> WorkerContext -> InstanceContext -> bool;
  rule_uses_org_work_share : bool;
  rule_description : string;
}.
End job_context.

(** ** Well-formed inputs

    The value ranges the Rust types guarantee ([u32], [u64]) and the one
    assumption made on measured floats: a database average is not NaN. *)

Definition in_u32 (z : Z) : Prop := 0 <= z < 2 ^ 32.
Definition in_u64 (z : Z) : Prop := 0 <= z < 2 ^ 64.
Definition opt_all {A} (P : A -> Prop) (o : option A) : Prop :=
  match o with Some x => P x | None => True end.

Definition windowed_ok (w : Windowed) : Prop :=
  opt_all (fun x => is_nan x = false /\ fits x) (w1h w) /\
  opt_all (fun x => is_nan x = false /\ fits x) (w24h w).

Lemma w1h_or_ok w d :
  windowed_ok w -> is_nan d = false -> is_nan (w1h_or w d) = false.
Proof. intros [H _] Hd. unfold w1h_or. destruct (w1h w); simpl in *; naive_solver. Qed.

Lemma w24h_or_ok w d :
  windowed_ok w -> is_nan d = false -> is_nan (w24h_or w d) = false.
Proof. intros [_ H] Hd. unfold w24h_or. destruct (w24h w); simpl in *; naive_solver. Qed.

#[export] Hint Resolve w1h_or_ok w24h_or_ok : gradient.
