(* ===== verification/ScoreRules.v ===== *)
(** * The scoring weights and rules

    [backend/gradient-score/src/weights.rs] and every rule of
    [backend/gradient-score/src/rules/]. A rule is a parameter record, its
    [Default] instance, and the [ScoreRule] object built from it. Scores are
    binary64 values computed with the rounding the program has. *)

From S2P Require Import Prelude Float ScoreContext.

Local Open Scope Z_scope.

(** ** Weights *)

Definition DISPATCH_FLOOR : f64 := f64_of_Z 0.
Definition MISSING_PATHS_CAP : f64 := f64_of_Z 200.
Definition MISSING_PATHS_BASELINE_K : f64 := f64_of_Z 2.
Definition MISSING_PATHS_FALLBACK_AVG : f64 := f64_of_Z 20.
Definition MISSING_NAR_SIZE_CAP : f64 := f64_of_Z 500.
Definition MISSING_NAR_SIZE_BASELINE_K : f64 := f64_of_Z 2.
Definition REAL_BUILD_BONUS : f64 := f64_of_Z 50.
Definition ARCHLESS_BUILTIN_BONUS : f64 := f64_of_Z 100.
Definition DEPENDENCY_COUNT_CAP : f64 := f64_of_Z 50.
Definition DEPENDENCY_COUNT_BASELINE_K : f64 := f64_of_Z 2.
Definition DEPENDENCY_COUNT_FALLBACK_AVG : f64 := f64_of_Z 10.
Definition WAIT_TIME_GAIN : f64 := f64_of_Z 60.
Definition WAIT_TIME_FALLBACK_AVG_SECS : f64 := f64_of_Z 60.
Definition WAIT_TIME_CAP : f64 := f64_of_Z 4000.
Definition RESERVE_FETCH_PENALTY : f64 := f64_of_Z 300.
Definition RESCORE_MAX_ROUNDS : Z := 4.
Definition RESOURCE_FIT_RAM_PENALTY : f64 := f64_of_Z 400.
Definition RESOURCE_FIT_MAX_OVERSHOOT : f64 := f64_of_Z 2.
Definition CPU_AFFINITY_BONUS : f64 := f64_of_Z 50.
Definition CPU_HEAVY_THRESHOLD_MS : Z := 60000.
Definition CPU_AFFINITY_BONUS_CAP : f64 := f64_of_Z 2.
Definition RESOURCE_SATURATION_PENALTY : f64 := f64_of_Z 1000.
Definition CPU_SATURATED_PCT : f64 := f64_of_Z 80.
Definition CPU_SATURATED_PCT_BUILTIN : f64 := f64_of_Z 90.
Definition RAM_SATURATED_FREE_FRAC : f64 := f64_of_ratio 1 10.
Definition RAM_FIT_HEADROOM : f64 := f64_of_ratio 11 10.
Definition PREFER_LOCAL_BONUS : f64 := f64_of_Z 150.
Definition PREFER_LOCAL_MISS_PENALTY : f64 := f64_of_Z 20.
Definition NETWORK_AFFINITY_BONUS : f64 := f64_of_Z 80.
Definition NETWORK_REFERENCE_MBPS : f64 := f64_of_Z 100.
Definition DISK_AFFINITY_BONUS : f64 := f64_of_Z 60.
Definition DISK_HEAVY_THRESHOLD_BYTES : Z := 100 * 1048576.
Definition DISK_REFERENCE_MBPS : f64 := f64_of_Z 500.
Definition FAIR_SHARE_WEIGHT : f64 := f64_of_Z 500.

Section rules.
Context `{Chrono}.

Definition no_veto (_ : JobContext) (_ : WorkerContext) (_ : InstanceContext) : bool := false.

(** ** MissingPathsRule *)

Record MissingPathsRule := { mp_cap : f64; mp_k : f64; mp_fallback_avg : f64 }.

Definition MissingPathsRule_default : MissingPathsRule := {|
  mp_cap := MISSING_PATHS_CAP;
  mp_k := MISSING_PATHS_BASELINE_K;
  mp_fallback_avg := MISSING_PATHS_FALLBACK_AVG |}.

Definition MissingPathsRule_score (self : MissingPathsRule) (job : JobContext)
    (_ : WorkerContext) (instance : InstanceContext) : f64 :=
  match jc_missing_count job with
  | None => f64_zero
  | Some n =>
      let base := f64_mul (mp_k self) (w1h_or (ic_missing_paths instance) (mp_fallback_avg self)) in
      if f64_le base f64_zero then (if n =? 0 then mp_cap self else f64_zero)
      else f64_mul (mp_cap self)
             (f64_sub f64_one (f64_clamp (f64_div (f64_of_Z n) base) f64_zero f64_one))
  end.

Definition MissingPathsRule_rule (self : MissingPathsRule) : ScoreRule := {|
  rule_name := "MissingPathsRule";
  rule_score := MissingPathsRule_score self;
  rule_veto := no_veto;
  rule_uses_org_work_share := false;
  rule_description := "Rewards jobs whose dependencies are mostly already on the worker, so fewer store paths must be substituted before the build can start." |}.

(** ** MissingNarSizeRule *)

Record MissingNarSizeRule := { mn_cap : f64; mn_k : f64 }.

Definition MissingNarSizeRule_default : MissingNarSizeRule := {|
  mn_cap := MISSING_NAR_SIZE_CAP;
  mn_k := MISSING_NAR_SIZE_BASELINE_K |}.

Definition MissingNarSizeRule_score (self : MissingNarSizeRule) (job : JobContext)
    (_ : WorkerContext) (instance : InstanceContext) : f64 :=
  match jc_missing_nar_size job with
  | None => f64_zero
  | Some b =>
      if b =? 0 then mn_cap self
      else
        let mb := f64_div (f64_of_Z b) (f64_of_Z 1048576) in
        let baseline := f64_mul (mn_k self) (w1h_or (ic_nar_size_mb instance) (f64_of_Z 1024)) in
        f64_mul (mn_cap self)
          (f64_sub f64_one (f64_clamp (f64_div mb baseline) f64_zero f64_one))
  end.

Definition MissingNarSizeRule_rule (self : MissingNarSizeRule) : ScoreRule := {|
  rule_name := "MissingNarSizeRule";
  rule_score := MissingNarSizeRule_score self;
  rule_veto := no_veto;
  rule_uses_org_work_share := false;
  rule_description := "Rewards jobs with little or no data left to download, favouring small substitution transfers over large ones." |}.

(** ** BuiltinDeprioritizeRule *)

Record BuiltinDeprioritizeRule := { bd_bonus : f64; bd_archless_bonus : f64 }.

Definition BuiltinDeprioritizeRule_default : BuiltinDeprioritizeRule := {|
  bd_bonus := REAL_BUILD_BONUS;
  bd_archless_bonus := ARCHLESS_BUILTIN_BONUS |}.

Definition BuiltinDeprioritizeRule_score (self : BuiltinDeprioritizeRule) (job : JobContext)
    (worker : WorkerContext) (_ : InstanceContext) : f64 :=
  match sj_build (jc_job job) with
  | None => f64_zero
  | Some b =>
      if (sb_architecture b =? BUILTIN_ARCH)%string then
        match wc_architectures worker with
        | [] => bd_archless_bonus self
        | _ => f64_zero
        end
      else bd_bonus self
  end.

Definition BuiltinDeprioritizeRule_rule (self : BuiltinDeprioritizeRule) : ScoreRule := {|
  rule_name := "BuiltinDeprioritizeRule";
  rule_score := BuiltinDeprioritizeRule_score self;
  rule_veto := no_veto;
  rule_uses_org_work_share := false;
  rule_description := "Rewards real compilation jobs over Nix builtin derivations so builtins yield worker slots, and lifts jobs on architecture-less workers so those workers are not left idle." |}.

(** ** DependencyCountRule *)

Record DependencyCountRule := { dc_cap : f64; dc_k : f64; dc_fallback_avg : f64 }.

Definition DependencyCountRule_default : DependencyCountRule := {|
  dc_cap := DEPENDENCY_COUNT_CAP;
  dc_k := DEPENDENCY_COUNT_BASELINE_K;
  dc_fallback_avg := DEPENDENCY_COUNT_FALLBACK_AVG |}.

Definition DependencyCountRule_score (self : DependencyCountRule) (job : JobContext)
    (_ : WorkerContext) (instance : InstanceContext) : f64 :=
  match sj_build (jc_job job) with
  | None => f64_zero
  | Some _ =>
      let base := f64_mul (dc_k self) (w1h_or (ic_dependency_cnt instance) (dc_fallback_avg self)) in
      if f64_le base f64_zero then
        (if 0 <? jc_dependency_count job then dc_cap self else f64_zero)
      else f64_mul (dc_cap self)
             (f64_clamp (f64_div (f64_of_Z (jc_dependency_count job)) base) f64_zero f64_one)
  end.

Definition DependencyCountRule_rule (self : DependencyCountRule) : ScoreRule := {|
  rule_name := "DependencyCountRule";
  rule_score := DependencyCountRule_score self;
  rule_veto := no_veto;
  rule_uses_org_work_share := false;
  rule_description := "Rewards jobs that many other queued builds depend on, so unblocking work is scheduled ahead of leaf builds." |}.

(** ** WaitTimeRule *)

Record WaitTimeRule := { wt_gain : f64; wt_fallback_avg_secs : f64; wt_cap : f64 }.

Definition WaitTimeRule_default : WaitTimeRule := {|
  wt_gain := WAIT_TIME_GAIN;
  wt_fallback_avg_secs := WAIT_TIME_FALLBACK_AVG_SECS;
  wt_cap := WAIT_TIME_CAP |}.

Definition WaitTimeRule_score (self : WaitTimeRule) (job : JobContext)
    (_ : WorkerContext) (instance : InstanceContext) : f64 :=
  let waited := f64_of_Z (Z.max (num_seconds_between (jc_now job) (jc_ready_at job)) 0) in
  let avg := w1h_or (ic_wait_secs instance) (wt_fallback_avg_secs self) in
  if f64_le avg f64_zero then (if f64_gt waited f64_zero then wt_cap self else f64_zero)
  else f64_min (f64_mul (wt_gain self) (f64_div waited avg)) (wt_cap self).

Definition WaitTimeRule_rule (self : WaitTimeRule) : ScoreRule := {|
  rule_name := "WaitTimeRule";
  rule_score := WaitTimeRule_score self;
  rule_veto := no_veto;
  rule_uses_org_work_share := false;
  rule_description := "Grows with how long a job has been waiting in the queue, preventing starvation of jobs the other rules keep deprioritizing." |}.

(** ** ReserveFetchWorkersRule *)

Record ReserveFetchWorkersRule := { rf_penalty : f64 }.

Definition ReserveFetchWorkersRule_default : ReserveFetchWorkersRule := {|
  rf_penalty := RESERVE_FETCH_PENALTY |}.

Definition ReserveFetchWorkersRule_score (self : ReserveFetchWorkersRule) (job : JobContext)
    (worker : WorkerContext) (instance : InstanceContext) : f64 :=
  let cached_eval := match sj_kind (jc_job job) with
                     | KindEval e => negb (ev_fetch_flake e)
                     | KindBuild _ => false
                     end in
  if negb (wc_fetch worker && cached_eval) then f64_zero
  else
    let spare := if 0 <? ic_total_workers instance
                 then f64_div (f64_of_Z (ic_idle_workers instance)) (f64_of_Z (ic_total_workers instance))
                 else f64_zero in
    f64_mul (f64_neg (rf_penalty self)) (f64_clamp (f64_sub f64_one spare) f64_zero f64_one).

Definition ReserveFetchWorkersRule_rule (self : ReserveFetchWorkersRule) : ScoreRule := {|
  rule_name := "ReserveFetchWorkersRule";
  rule_score := ReserveFetchWorkersRule_score self;
  rule_veto := no_veto;
  rule_uses_org_work_share := false;
  rule_description := "Keeps fetch-capable workers free for flake fetches by penalizing them for cached evaluations, easing off as idle workers appear." |}.

(** ** RescoreWaitRule *)

Record RescoreWaitRule := { rw_max_rounds : Z }.

Definition RescoreWaitRule_default : RescoreWaitRule := {| rw_max_rounds := RESCORE_MAX_ROUNDS |}.

Definition RescoreWaitRule_veto (self : RescoreWaitRule) (job : JobContext)
    (_ : WorkerContext) (_ : InstanceContext) : bool :=
  match sj_build (jc_job job), jc_missing_nar_size job with
  | Some _, None => jc_rescore_count job <? rw_max_rounds self
  | _, _ => false
  end.

Definition RescoreWaitRule_rule (self : RescoreWaitRule) : ScoreRule := {|
  rule_name := "RescoreWaitRule";
  rule_score := fun _ _ _ => f64_zero;
  rule_veto := RescoreWaitRule_veto self;
  rule_uses_org_work_share := false;
  rule_description := "Briefly holds back builds whose substitution cost has not been measured yet, letting them be rescored once the data lands." |}.

(** ** ResourceFitRule *)

Record ResourceFitRule := {
  rfit_ram_overshoot_penalty : f64;
  rfit_max_overshoot : f64;
  rfit_cpu_affinity_bonus : f64;
  rfit_cpu_heavy_threshold_ms : Z;
  rfit_cpu_bonus_cap : f64;
}.

Definition ResourceFitRule_default : ResourceFitRule := {|
  rfit_ram_overshoot_penalty := RESOURCE_FIT_RAM_PENALTY;
  rfit_max_overshoot := RESOURCE_FIT_MAX_OVERSHOOT;
  rfit_cpu_affinity_bonus := CPU_AFFINITY_BONUS;
  rfit_cpu_heavy_threshold_ms := CPU_HEAVY_THRESHOLD_MS;
  rfit_cpu_bonus_cap := CPU_AFFINITY_BONUS_CAP |}.

(** The RAM-overshoot term, subtracted from the score. *)
Definition ResourceFitRule_overshoot (self : ResourceFitRule) (h : HistoryPrediction)
    (free : Z) (instance : InstanceContext) : f64 :=
  let overshoot := f64_min
    (f64_div (f64_of_Z (predicted_peak_ram_mb h - free)) (f64_of_Z free))
    (rfit_max_overshoot self) in
  f64_mul (f64_mul (f64_mul (rfit_ram_overshoot_penalty self) overshoot)
                   (f64_add f64_one (f64_of_f32 (oom_rate h))))
          (f64_add f64_one (default f64_zero (w1h (ic_oom_rate instance)))).

Definition ResourceFitRule_score (self : ResourceFitRule) (job : JobContext)
    (worker : WorkerContext) (instance : InstanceContext) : f64 :=
  match wc_metrics worker with
  | None => f64_zero
  | Some m =>
      let h := sj_history (jc_job job) in
      if samples h =? 0 then f64_zero
      else
        let s := f64_zero in
        let s := match wm_ram_free_mb m with
                 | Some free =>
                     if (0 <? free) && (free <? predicted_peak_ram_mb h)
                     then f64_sub s (ResourceFitRule_overshoot self h free instance)
                     else s
                 | None => s
                 end in
        let cpu_threshold :=
          w1h_or (ic_cpu_time_ms instance) (f64_of_Z (rfit_cpu_heavy_threshold_ms self)) in
        if f64_gt (f64_of_Z (avg_cpu_time_ms h)) cpu_threshold
        then f64_add s (f64_mul (rfit_cpu_affinity_bonus self)
               (f64_min (f64_div (f64_of_Z (wm_cpu_core_score m)) (f64_of_Z 1000))
                        (rfit_cpu_bonus_cap self)))
        else s
  end.

Definition ResourceFitRule_rule (self : ResourceFitRule) : ScoreRule := {|
  rule_name := "ResourceFitRule";
  rule_score := ResourceFitRule_score self;
  rule_veto := no_veto;
  rule_uses_org_work_share := false;
  rule_description := "Uses historical RAM and CPU usage to penalize workers that would likely run out of memory and reward CPU-strong workers for compute-heavy builds." |}.

(** ** ResourceSaturationRule *)

Record ResourceSaturationRule := {
  rs_penalty : f64;
  rs_cpu_saturated_pct : f32;
  rs_cpu_saturated_pct_builtin : f32;
  rs_ram_saturated_free_frac : f64;
  rs_ram_fit_headroom : f64;
}.

Definition ResourceSaturationRule_default : ResourceSaturationRule := {|
  rs_penalty := RESOURCE_SATURATION_PENALTY;
  rs_cpu_saturated_pct := f32_of_f64 CPU_SATURATED_PCT;
  rs_cpu_saturated_pct_builtin := f32_of_f64 CPU_SATURATED_PCT_BUILTIN;
  rs_ram_saturated_free_frac := RAM_SATURATED_FREE_FRAC;
  rs_ram_fit_headroom := RAM_FIT_HEADROOM |}.

(** [Option::is_some_and] *)
Definition is_some_and {A} (o : option A) (p : A -> bool) : bool :=
  match o with Some x => p x | None => false end.

Definition cpu_saturated (self : ResourceSaturationRule) (b : ScoredBuild)
    (m : WorkerMetricsView) : bool :=
  let pct := if (sb_architecture b =? BUILTIN_ARCH)%string
             then rs_cpu_saturated_pct_builtin self else rs_cpu_saturated_pct self in
  is_some_and (wm_cpu_usage_pct m) (fun c => f64_ge c pct).

Definition ram_saturated (self : ResourceSaturationRule) (m : WorkerMetricsView) : bool :=
  (0 <? wm_ram_total_mb m) &&
  is_some_and (wm_ram_free_mb m) (fun f =>
    f64_le (f64_div (f64_of_Z f) (f64_of_Z (wm_ram_total_mb m))) (rs_ram_saturated_free_frac self)).

Definition ram_unfit (self : ResourceSaturationRule) (h : HistoryPrediction)
    (m : WorkerMetricsView) : bool :=
  (0 <? samples h) &&
  is_some_and (wm_ram_free_mb m) (fun f =>
    f64_gt (f64_mul (f64_of_Z (predicted_peak_ram_mb h)) (rs_ram_fit_headroom self)) (f64_of_Z f)).

Definition ResourceSaturationRule_score (self : ResourceSaturationRule) (job : JobContext)
    (worker : WorkerContext) (_ : InstanceContext) : f64 :=
  match wc_metrics worker, sj_build (jc_job job) with
  | Some m, Some b =>
      let s := f64_zero in
      let s := if cpu_saturated self b m || ram_saturated self m
               then f64_sub s (rs_penalty self) else s in
      if ram_unfit self (sj_history (jc_job job)) m then f64_sub s (rs_penalty self) else s
  | _, _ => f64_zero
  end.

Definition ResourceSaturationRule_rule (self : ResourceSaturationRule) : ScoreRule := {|
  rule_name := "ResourceSaturationRule";
  rule_score := ResourceSaturationRule_score self;
  rule_veto := no_veto;
  rule_uses_org_work_share := false;
  rule_description := "Strongly penalizes sending a real build to a worker whose CPU or RAM is already saturated, or whose free RAM cannot hold the build's historical peak RAM plus headroom; substitute-only builtin fetches get a more lenient CPU threshold but are still RAM-aware." |}.

(** ** PreferLocalBuildRule *)

Record PreferLocalBuildRule := { pl_local_bonus : f64; pl_miss_penalty : f64 }.

Definition PreferLocalBuildRule_default : PreferLocalBuildRule := {|
  pl_local_bonus := PREFER_LOCAL_BONUS;
  pl_miss_penalty := PREFER_LOCAL_MISS_PENALTY |}.

Definition PreferLocalBuildRule_score (self : PreferLocalBuildRule) (job : JobContext)
    (_ : WorkerContext) (instance : InstanceContext) : f64 :=
  match sj_build (jc_job job) with
  | None => f64_zero
  | Some b =>
      if negb (sb_prefer_local_build b) then f64_zero
      else
        let knee := f64_mul (f64_of_Z 2) (default f64_zero (w1h (ic_missing_paths instance))) in
        let slope := if f64_gt knee f64_zero then f64_div (pl_local_bonus self) knee
                     else pl_miss_penalty self in
        match jc_missing_count job with
        | None => f64_zero
        | Some n =>
            if n =? 0 then pl_local_bonus self
            else f64_max (f64_sub (pl_local_bonus self) (f64_mul (f64_of_Z n) slope)) f64_zero
        end
  end.

Definition PreferLocalBuildRule_rule (self : PreferLocalBuildRule) : ScoreRule := {|
  rule_name := "PreferLocalBuildRule";
  rule_score := PreferLocalBuildRule_score self;
  rule_veto := no_veto;
  rule_uses_org_work_share := false;
  rule_description := "Rewards keeping a `preferLocalBuild` derivation on a worker that already has its inputs, since shipping it elsewhere rarely pays off." |}.

(** ** NetworkAffinityRule *)

Record NetworkAffinityRule := { na_bonus : f64; na_reference_mbps : f64 }.

Definition NetworkAffinityRule_default : NetworkAffinityRule := {|
  na_bonus := NETWORK_AFFINITY_BONUS;
  na_reference_mbps := NETWORK_REFERENCE_MBPS |}.

Definition NetworkAffinityRule_score (self : NetworkAffinityRule) (job : JobContext)
    (worker : WorkerContext) (instance : InstanceContext) : f64 :=
  match sj_build (jc_job job) with
  | None => f64_zero
  | Some b =>
      if negb (sb_is_fixed_output b) then f64_zero
      else match wc_metrics worker ≫= wm_network_speed_mbps with
           | None => f64_zero
           | Some net =>
               let reference := w24h_or (ic_network_mbps instance) (na_reference_mbps self) in
               f64_mul (na_bonus self) (f64_min (f64_div (f64_of_f32 net) reference) f64_one)
           end
  end.

Definition NetworkAffinityRule_rule (self : NetworkAffinityRule) : ScoreRule := {|
  rule_name := "NetworkAffinityRule";
  rule_score := NetworkAffinityRule_score self;
  rule_veto := no_veto;
  rule_uses_org_work_share := false;
  rule_description := "Steers fixed-output (network-fetching) derivations towards workers with faster measured network throughput." |}.

(** ** DiskAffinityRule *)

Record DiskAffinityRule := {
  da_bonus : f64;
  da_heavy_threshold_bytes : Z;
  da_reference_mbps : f64;
}.

Definition DiskAffinityRule_default : DiskAffinityRule := {|
  da_bonus := DISK_AFFINITY_BONUS;
  da_heavy_threshold_bytes := DISK_HEAVY_THRESHOLD_BYTES;
  da_reference_mbps := DISK_REFERENCE_MBPS |}.

Definition DiskAffinityRule_score (self : DiskAffinityRule) (job : JobContext)
    (worker : WorkerContext) (instance : InstanceContext) : f64 :=
  match sj_build (jc_job job) with
  | None => f64_zero
  | Some b =>
      let h := sb_history b in
      let heavy_threshold :=
        w24h_or (ic_disk_bytes instance) (f64_of_Z (da_heavy_threshold_bytes self)) in
      if (samples h =? 0) || f64_lt (f64_of_Z (avg_disk_bytes h)) heavy_threshold then f64_zero
      else match wc_metrics worker ≫= wm_disk_speed_mbps with
           | None => f64_zero
           | Some disk =>
               f64_mul (da_bonus self)
                 (f64_min (f64_div (f64_of_f32 disk) (da_reference_mbps self)) f64_one)
           end
  end.

Definition DiskAffinityRule_rule (self : DiskAffinityRule) : ScoreRule := {|
  rule_name := "DiskAffinityRule";
  rule_score := DiskAffinityRule_score self;
  rule_veto := no_veto;
  rule_uses_org_work_share := false;
  rule_description := "Steers builds that have historically been disk-heavy towards workers with faster measured disk throughput." |}.

(** ** FairShareRule *)

Record FairShareRule := { fs_weight : f64 }.

Definition FairShareRule_default : FairShareRule := {| fs_weight := FAIR_SHARE_WEIGHT |}.

Definition FairShareRule_score (self : FairShareRule) (job : JobContext)
    (_ : WorkerContext) (instance : InstanceContext) : f64 :=
  if 0 <? ic_idle_workers instance then f64_zero
  else match jc_org_work_share job with
       | Some share => f64_mul (f64_neg (fs_weight self)) (f64_of_f32 share)
       | None => f64_zero
       end.

Definition FairShareRule_rule (self : FairShareRule) : ScoreRule := {|
  rule_name := "FairShareRule";
  rule_score := FairShareRule_score self;
  rule_veto := no_veto;
  rule_uses_org_work_share := true;
  rule_description := "Penalizes a job by how large a share of currently-active builds its organization already holds, so a busy org cannot starve a quiet one; only applied when every worker is busy so it never idles the cluster." |}.
End rules.
