(* ===== verification/ScoreBounds.v ===== *)
(** * Bounds on the rule scores

    For inputs in the ranges the program produces ([sane_job], [sane_worker],
    [sane_instance]), every rule returns a finite score within its documented cap,
    binary64 rounding included; bonuses are never negative and penalties never
    positive. *)

From S2P Require Import Prelude Float FloatBounds ScoreContext ScoreRules.

Local Open Scope Z_scope.

#[local] Arguments f64_mul : simpl never.
#[local] Arguments f64_div : simpl never.
#[local] Arguments f64_min : simpl never.
#[local] Arguments f64_of_f32 : simpl never.
#[local] Arguments mag : simpl never.

Lemma f64_div_fits' x y : fits (f64_div x y).
Proof.
  destruct (is_finite x) eqn:E; [by apply f64_div_fits|].
  destruct x as [| | |], y as [| | |]; done.
Qed.

#[export] Hint Resolve f64_div_fits' : gradient.

(** A positive finite number over any non-NaN number is not NaN. *)
Lemma pos_div_not_nan m e y :
  is_nan y = false -> is_nan (f64_div (S754_finite false m e) y) = false.
Proof.
  destruct y as [s|s| |s m' e']; try done. intros _.
  eapply has_sign_not_nan, (f64_div_sign false s); try done. by destruct s.
Qed.

Lemma f64_of_Z_positive z :
  0 < z < 2 ^ 64 ->
  f64_le (f64_of_Z z) f64_zero = false /\ SFeqb (f64_of_Z z) f64_zero = false.
Proof.
  intros Hz. pose proof (f64_of_Z_normal z Hz) as Hn.
  destruct (f64_of_Z z) as [|[]| |[]]; try done; by destruct Hn.
Qed.

(** [b] bytes in MiB, for [b] positive, is a positive finite number. *)
Lemma mib_positive b :
  0 < b < 2 ^ 64 ->
  exists m e, f64_div (f64_of_Z b) (f64_of_Z 1048576) = S754_finite false m e.
Proof.
  intros Hb. change (f64_of_Z 1048576) with (S754_finite false (2 ^ 52) (-32)).
  apply (f64_div_normal (-52) 12); [lia..|]. by apply f64_of_Z_normal.
Qed.

(** ** The ranges of the inputs *)

Record sane_history (h : HistoryPrediction) : Prop := {
  sane_peak : in_u64 (predicted_peak_ram_mb h);
  sane_cpu : in_u64 (avg_cpu_time_ms h);
  sane_oom : in_unit (oom_rate h);
}.

Section sane.
Context `{Chrono}.

Record sane_job (job : JobContext) : Prop := {
  sane_missing : opt_all in_u32 (jc_missing_count job);
  sane_nar_size : opt_all in_u64 (jc_missing_nar_size job);
  sane_deps : in_u32 (jc_dependency_count job);
  sane_share : opt_all in_unit (jc_org_work_share job);
  sane_hist : sane_history (sj_history (jc_job job));
}.

(** A measured rate: not negative, possibly NaN. *)
Definition measured (x : f64) : Prop := nonneg_or_nan x.

Record sane_metrics (m : WorkerMetricsView) : Prop := {
  sane_core : in_u64 (wm_cpu_core_score m);
  sane_free : opt_all in_u64 (wm_ram_free_mb m);
  sane_disk : opt_all measured (wm_disk_speed_mbps m);
  sane_net : opt_all measured (wm_network_speed_mbps m);
}.

Definition sane_worker (w : WorkerContext) : Prop := opt_all sane_metrics (wc_metrics w).

Record sane_instance (i : InstanceContext) : Prop := {
  sane_i_missing : windowed_ok (ic_missing_paths i);
  sane_i_nar : windowed_ok (ic_nar_size_mb i);
  sane_i_deps : windowed_ok (ic_dependency_cnt i);
  sane_i_oom : opt_all in_unit (w1h (ic_oom_rate i));
  sane_i_net : opt_all (fun x => measured x /\ f64_le x f64_zero = false) (w24h (ic_network_mbps i));
  sane_i_idle : in_u32 (ic_idle_workers i);
  sane_i_total : in_u32 (ic_total_workers i);
}.

(** ** Bonuses *)

(** Every cap and weight the bounds speak about, evaluated once. *)
Lemma caps_normal :
  normal MISSING_PATHS_CAP /\ normal MISSING_NAR_SIZE_CAP /\ normal DEPENDENCY_COUNT_CAP.
Proof. vm_compute. intuition discriminate. Qed.

Lemma mul_two_not_nan k x : normal k -> is_nan x = false -> is_nan (f64_mul k x) = false.
Proof.
  destruct k as [| | |[] m e]; try done. intros _ Hx.
  destruct x as [s|s| |s m' e']; try done.
  eapply has_sign_not_nan, (f64_mul_sign false s); done.
Qed.

Lemma pos_of_mul_two k x : f64_le (f64_mul k x) f64_zero = false -> 
  is_nan (f64_mul k x) = false -> nonneg (f64_mul k x).
Proof. by destruct (f64_mul k x) as [|[]| |[]]. Qed.

Lemma MissingPathsRule_within job w i :
  sane_job job -> windowed_ok (ic_missing_paths i) ->
  within MISSING_PATHS_CAP (MissingPathsRule_score MissingPathsRule_default job w i).
Proof.
  intros Hj Hi. pose proof caps_normal as (Hc & _ & _). pose proof (sane_missing _ Hj) as Hm.
  unfold MissingPathsRule_score. simpl mp_cap; simpl mp_k; simpl mp_fallback_avg.
  destruct (jc_missing_count job) as [n|]; [|by apply within_zero]. simpl in Hm.
  set (base := f64_mul _ _).
  assert (is_nan base = false).
  { apply mul_two_not_nan; [vm_compute; intuition discriminate|]. by apply w1h_or_ok. }
  destruct (f64_le base f64_zero) eqn:E.
  - destruct (n =? 0); [by apply within_self|by apply within_zero].
  - apply scale_unit; [done|]. apply one_minus_unit, ratio_unit; [|done..].
    apply f64_of_Z_finite. unfold in_u32 in Hm. lia.
Qed.

Lemma MissingNarSizeRule_within job w i :
  sane_job job -> windowed_ok (ic_nar_size_mb i) ->
  within MISSING_NAR_SIZE_CAP (MissingNarSizeRule_score MissingNarSizeRule_default job w i).
Proof.
  intros Hj Hi. pose proof caps_normal as (_ & Hc & _). pose proof (sane_nar_size _ Hj) as Hm.
  unfold MissingNarSizeRule_score. simpl mn_cap; simpl mn_k.
  destruct (jc_missing_nar_size job) as [b|]; [|by apply within_zero]. simpl in Hm.
  unfold in_u64 in Hm. destruct (Z.eqb_spec b 0); [by apply within_self|].
  set (base := f64_mul MISSING_NAR_SIZE_BASELINE_K _).
  assert (Hb : is_nan base = false).
  { apply mul_two_not_nan; [vm_compute; intuition discriminate|]. by apply w1h_or_ok. }
  destruct (mib_positive b) as (m & e & ->); [lia|].
  apply scale_unit; [done|]. apply one_minus_unit, f64_clamp_unit; [|apply f64_div_fits'].
  by apply pos_div_not_nan.
Qed.

Lemma DependencyCountRule_within job w i :
  sane_job job -> windowed_ok (ic_dependency_cnt i) ->
  within DEPENDENCY_COUNT_CAP (DependencyCountRule_score DependencyCountRule_default job w i).
Proof.
  intros Hj Hi. pose proof caps_normal as (_ & _ & Hc). pose proof (sane_deps _ Hj) as Hm.
  unfold in_u32 in Hm. unfold DependencyCountRule_score.
  simpl dc_cap; simpl dc_k; simpl dc_fallback_avg.
  destruct (sj_build (jc_job job)); [|by apply within_zero].
  set (base := f64_mul DEPENDENCY_COUNT_BASELINE_K _).
  assert (is_nan base = false).
  { apply mul_two_not_nan; [vm_compute; intuition discriminate|]. by apply w1h_or_ok. }
  destruct (f64_le base f64_zero) eqn:E.
  - case_match; [by apply within_self|by apply within_zero].
  - apply scale_unit; [done|]. apply ratio_unit; [|done..]. apply f64_of_Z_finite. lia.
Qed.

Lemma f64_of_Z_measured z : 0 <= z -> nonneg_or_nan (f64_of_Z z).
Proof. right. by apply f64_of_Z_nonneg. Qed.

Lemma positive_measured x : f64_le x f64_zero = false -> nonneg_or_nan x.
Proof.
  destruct x as [s|[]| |[] m e]; cbv; intros E; simplify_eq; first [by left|by right].
Qed.

(** The wait bonus is capped whatever the averages are. *)
Lemma WaitTimeRule_bounds job w i :
  nonneg (WaitTimeRule_score WaitTimeRule_default job w i) /\
  mag 12 (WaitTimeRule_score WaitTimeRule_default job w i) /\
  f64_le (WaitTimeRule_score WaitTimeRule_default job w i) WAIT_TIME_CAP = true.
Proof.
  unfold WaitTimeRule_score. simpl wt_gain; simpl wt_fallback_avg_secs; simpl wt_cap.
  set (waited := f64_of_Z _). set (avg := w1h_or _ _).
  destruct (f64_le avg f64_zero) eqn:E.
  { case_match; vm_compute; intuition discriminate. }
  assert (Hq : nonneg_or_nan (f64_mul WAIT_TIME_GAIN (f64_div waited avg))).
  { apply f64_mul_nonneg; [by right|]. apply f64_div_nonneg; [|by apply positive_measured|by left].
    apply f64_of_Z_measured. lia. }
  split; [|split].
  - by apply f64_min_nonneg.
  - apply f64_min_mag; [vm_compute; intuition discriminate|done..|apply f64_mul_fits].
  - by apply f64_min_le_r.
Qed.

(** ** Penalties *)

Lemma ReserveFetchWorkersRule_bounds job w i :
  sane_instance i ->
  nonpos (ReserveFetchWorkersRule_score ReserveFetchWorkersRule_default job w i) /\
  mag 9 (ReserveFetchWorkersRule_score ReserveFetchWorkersRule_default job w i).
Proof.
  intros Hi. unfold ReserveFetchWorkersRule_score. simpl rf_penalty.
  destruct (negb _); [done|]. 
  match goal with |- context [f64_sub f64_one ?x] => set (spare := x) end.
  assert (Hu : in_unit (f64_clamp (f64_sub f64_one spare) f64_zero f64_one)).
  { assert (is_nan (f64_sub f64_one spare) = false /\ fits (f64_sub f64_one spare)) as [];
      [|by apply f64_clamp_unit].
    assert (nonneg spare) as Hs.
    { subst spare. destruct (Z.ltb_spec 0 (ic_total_workers i)); [|done].
      pose proof (sane_i_total _ Hi) as Ht. pose proof (sane_i_idle _ Hi) as Hid.
      unfold in_u32 in *.
      apply (f64_div_sign false false); [apply f64_of_Z_finite; lia|apply f64_of_Z_nonneg; lia..|].
      apply f64_of_Z_positive. lia. }
    assert (fits spare) as Hf by (subst spare; case_match; [apply f64_div_fits'|done]).
    clearbody spare. destruct spare as [[]|[]| |[] m e]; try done.
    split; [|apply normalize_fits].
    unfold f64_sub, SFsub. rewrite f64_one_eq. cbn match.
    destruct (_ - _); [done|..]; eapply has_sign_not_nan, binary_round_sign. }
  split.
  - apply (f64_mul_sign true false); try done; by destruct (f64_clamp _ _ _) as [| | |[]].
  - apply mag_unit_mul; [lia| |done]. eval_weight.
Qed.

Lemma ResourceSaturationRule_values job w i :
  let s := ResourceSaturationRule_score ResourceSaturationRule_default job w i in
  s = f64_zero \/ s = f64_of_Z (-1000) \/ s = f64_of_Z (-2000).
Proof.
  unfold ResourceSaturationRule_score. simpl rs_penalty.
  repeat case_match; vm_compute; eauto.
Qed.

Lemma FairShareRule_bounds job w i :
  sane_job job ->
  nonpos (FairShareRule_score FairShareRule_default job w i) /\
  mag 9 (FairShareRule_score FairShareRule_default job w i).
Proof.
  intros Hj. unfold FairShareRule_score. simpl fs_weight. case_match; [done|].
  pose proof (sane_share _ Hj) as Hs. destruct (jc_org_work_share job) as [x|]; [|done].
  apply f64_of_f32_unit in Hs. split.
  - apply (f64_mul_sign true false); try done; by destruct (f64_of_f32 x) as [| | |[]].
  - apply mag_unit_mul; [lia| |done]. eval_weight.
Qed.

(** ** The remaining rules: magnitudes *)

Lemma BuiltinDeprioritizeRule_values job w i :
  let s := BuiltinDeprioritizeRule_score BuiltinDeprioritizeRule_default job w i in
  s = f64_zero \/ s = REAL_BUILD_BONUS \/ s = ARCHLESS_BUILTIN_BONUS.
Proof. unfold BuiltinDeprioritizeRule_score. repeat case_match; eauto. Qed.

Lemma one_plus_rate x : in_unit x -> mag 1 (f64_add f64_one x).
Proof. intros. apply (mag_add 0); [lia|eval_weight|by apply in_unit_mag]. Qed.

Lemma ResourceFitRule_overshoot_mag h free i :
  sane_history h -> opt_all in_unit (w1h (ic_oom_rate i)) ->
  0 < free < predicted_peak_ram_mb h ->
  mag 12 (ResourceFitRule_overshoot ResourceFitRule_default h free i).
Proof.
  intros Hh Hi Hfree. pose proof (sane_peak _ Hh). unfold in_u64 in *.
  unfold ResourceFitRule_overshoot. simpl rfit_ram_overshoot_penalty; simpl rfit_max_overshoot.
  change 12 with (9 + 1 + 1 + 1). apply mag_mul; [lia|apply mag_mul; [lia|apply mag_mul; [lia|..]|]|].
  - eval_weight.
  - apply f64_min_mag; [eval_weight|done| |apply f64_div_fits'].
    apply f64_div_nonneg; [apply f64_of_Z_measured; lia..|].
    left. apply f64_of_Z_positive. lia.
  - apply one_plus_rate, f64_of_f32_unit, Hh.
  - apply one_plus_rate. by destruct (w1h (ic_oom_rate i)).
Qed.

Lemma ResourceFitRule_mag job w i :
  sane_job job -> sane_worker w -> sane_instance i ->
  mag 14 (ResourceFitRule_score ResourceFitRule_default job w i).
Proof.
  intros Hj Hw Hi. unfold ResourceFitRule_score, sane_worker in *.
  destruct (wc_metrics w) as [m|]; [|done]. simpl in Hw. case_match; [done|].
  set (s := match wm_ram_free_mb m with Some _ => _ | None => _ end).
  assert (mag 13 s).
  { subst s. destruct (wm_ram_free_mb m) as [free|]; [|done]. case_match eqn:E; [|done].
    bool_to_prop. apply (mag_sub 12); [lia|done|].
    apply ResourceFitRule_overshoot_mag; [apply Hj|apply Hi|lia]. }
  case_match; [|by apply (mag_weaken 13)].
  apply (mag_add 13); [lia|done|]. simpl rfit_cpu_affinity_bonus; simpl rfit_cpu_bonus_cap.
  apply (mag_weaken (6 + 1)); [lia|]. apply mag_mul; [lia|eval_weight|].
  pose proof (sane_core _ Hw) as Hc. unfold in_u64 in Hc.
  apply f64_min_mag; [eval_weight|done| |apply f64_div_fits'].
  apply f64_div_nonneg; [apply f64_of_Z_measured; lia|by apply f64_of_Z_measured|by left].
Qed.

Lemma PreferLocalBuildRule_mag job w i :
  sane_job job -> mag 8 (PreferLocalBuildRule_score PreferLocalBuildRule_default job w i).
Proof.
  intros Hj. unfold PreferLocalBuildRule_score. simpl pl_local_bonus; simpl pl_miss_penalty.
  assert (Hb : mag 8 PREFER_LOCAL_BONUS) by eval_weight.
  destruct (sj_build _) as [b|]; [|done]. case_match; [done|].
  pose proof (sane_missing _ Hj) as Hm. destruct (jc_missing_count job) as [n|]; [|done].
  simpl in Hm. unfold in_u32 in Hm. case_match; [done|].
  apply f64_max_sub_mag; [lia|done..|]. apply f64_mul_nonneg; [apply f64_of_Z_measured; lia|].
  case_match eqn:E; [|by right]. apply f64_div_nonneg; [by right|..].
  all: destruct (f64_mul _ _) as [|[]| |[]]; cbv in E; simplify_eq; first [by left|by right].
Qed.

Lemma NetworkAffinityRule_mag job w i :
  sane_worker w -> sane_instance i ->
  mag 7 (NetworkAffinityRule_score NetworkAffinityRule_default job w i).
Proof.
  intros Hw Hi. unfold NetworkAffinityRule_score, sane_worker in *.
  simpl na_bonus; simpl na_reference_mbps.
  destruct (sj_build _) as [b|]; [|done]. case_match; [done|].
  destruct (wc_metrics w) as [m|]; [|done]. simpl in *. pose proof (sane_net _ Hw) as Hn.
  destruct (wm_network_speed_mbps m) as [net|]; [|done]. simpl in *.
  replace 7 with (7 + 0) by lia. apply mag_mul; [lia|eval_weight|].
  apply f64_min_mag; [eval_weight|done| |apply f64_div_fits'].
  pose proof (sane_i_net _ Hi) as Hr. unfold w24h_or.
  destruct (w24h (ic_network_mbps i)) as [r|]; simpl in *.
  - apply f64_div_nonneg; [by apply f64_of_f32_nonneg|apply Hr|left; apply Hr].
  - apply f64_div_nonneg; [by apply f64_of_f32_nonneg|by right|by left].
Qed.

Lemma DiskAffinityRule_mag job w i :
  sane_worker w -> mag 6 (DiskAffinityRule_score DiskAffinityRule_default job w i).
Proof.
  intros Hw. unfold DiskAffinityRule_score, sane_worker in *. simpl da_bonus; simpl da_reference_mbps.
  destruct (sj_build _) as [b|]; [|done]. case_match; [done|].
  destruct (wc_metrics w) as [m|]; [|done]. simpl in *. pose proof (sane_disk _ Hw) as Hd.
  destruct (wm_disk_speed_mbps m) as [disk|]; [|done]. simpl in *.
  replace 6 with (6 + 0) by lia. apply mag_mul; [lia|eval_weight|].
  apply f64_min_mag; [eval_weight|done| |apply f64_div_fits'].
  apply f64_div_nonneg; [by apply f64_of_f32_nonneg|by right|by left].
Qed.
End sane.
