(* ===== verification/ScorePolicy.v ===== *)
(** * Scoring policies

    [backend/gradient-score/src/policy.rs] and [breakdown.rs]: a policy is a named,
    ordered list of rules; its total is the binary64 sum of the rules' scores in
    that order, and its breakdown records every rule's share and the vetoes. *)

From S2P Require Import Prelude Float FloatBounds ScoreContext ScoreRules ScoreBounds.

Local Open Scope Z_scope.

(** [BTreeMap<String, f64>] is a finite map; [gmap] is its model up to iteration
    order. *)
Record ScoreBreakdown := {
  bd_rules : gmap string f64;
  bd_total : f64;
  bd_vetoes : list string;
}.

Section policy.
Context `{Chrono}.

(** ** Policies *)

(** The [ScoringPolicy] trait object. *)
Record ScoringPolicy := {
  sp_name : string;
  sp_score : JobContext -> WorkerContext -> InstanceContext -> f64;
  sp_score_detailed : JobContext -> WorkerContext -> InstanceContext -> ScoreBreakdown;
  sp_uses_history : bool;
  sp_uses_org_work_share : bool;
}.

(** The trait's default [score_detailed]. *)
Definition default_score_detailed
    (score : JobContext -> WorkerContext -> InstanceContext -> f64)
    (job : JobContext) (worker : WorkerContext) (instance : InstanceContext) : ScoreBreakdown :=
  {| bd_rules := ∅; bd_total := score job worker instance; bd_vetoes := [] |}.

Record RulePolicy := {
  rp_name : string;
  rp_rules : list ScoreRule;
  rp_uses_history : bool;
  rp_uses_org_work_share : bool;
}.

Definition RulePolicy_new (name : string) (rules : list ScoreRule) (uses_history : bool) : RulePolicy := {|
  rp_name := name;
  rp_rules := rules;
  rp_uses_history := uses_history;
  rp_uses_org_work_share := existsb rule_uses_org_work_share rules;
|}.

(** [Iterator::sum] on [f64] starts at [-0.0]. *)
Definition f64_neg_zero : f64 := S754_zero true.

Definition RulePolicy_score (self : RulePolicy) (job : JobContext)
    (worker : WorkerContext) (instance : InstanceContext) : f64 :=
  foldl f64_add f64_neg_zero (map (fun r => rule_score r job worker instance) (rp_rules self)).

Definition detail_step (job : JobContext) (worker : WorkerContext) (instance : InstanceContext)
    (acc : ScoreBreakdown) (r : ScoreRule) : ScoreBreakdown :=
  let s := rule_score r job worker instance in
  {| bd_rules := <[rule_name r := s]> (bd_rules acc);
     bd_total := f64_add (bd_total acc) s;
     bd_vetoes := if rule_veto r job worker instance
                  then bd_vetoes acc ++ [rule_name r] else bd_vetoes acc |}.

Definition RulePolicy_score_detailed (self : RulePolicy) (job : JobContext)
    (worker : WorkerContext) (instance : InstanceContext) : ScoreBreakdown :=
  foldl (detail_step job worker instance)
    {| bd_rules := ∅; bd_total := f64_zero; bd_vetoes := [] |} (rp_rules self).

Definition RulePolicy_policy (self : RulePolicy) : ScoringPolicy := {|
  sp_name := rp_name self;
  sp_score := RulePolicy_score self;
  sp_score_detailed := RulePolicy_score_detailed self;
  sp_uses_history := rp_uses_history self;
  sp_uses_org_work_share := rp_uses_org_work_share self;
|}.

(** ** The declarative policy tables *)

Record RuleSpec := { rs_enabled : bool; rs_rule : ScoreRule }.

Definition spec (enabled : bool) (rule : ScoreRule) : RuleSpec :=
  {| rs_enabled := enabled; rs_rule := rule |}.

Definition simple_table : list RuleSpec := [
  spec true (MissingPathsRule_rule MissingPathsRule_default);
  spec true (MissingNarSizeRule_rule MissingNarSizeRule_default);
  spec true (RescoreWaitRule_rule RescoreWaitRule_default);
  spec true (DependencyCountRule_rule DependencyCountRule_default);
  spec true (WaitTimeRule_rule WaitTimeRule_default);
  spec true (BuiltinDeprioritizeRule_rule BuiltinDeprioritizeRule_default);
  spec true (ReserveFetchWorkersRule_rule ReserveFetchWorkersRule_default)
].

Definition resource_aware_table : list RuleSpec := simple_table ++ [
  spec true (ResourceFitRule_rule ResourceFitRule_default);
  spec true (ResourceSaturationRule_rule ResourceSaturationRule_default);
  spec true (PreferLocalBuildRule_rule PreferLocalBuildRule_default);
  spec false (FairShareRule_rule FairShareRule_default);
  spec true (NetworkAffinityRule_rule NetworkAffinityRule_default);
  spec true (DiskAffinityRule_rule DiskAffinityRule_default)
].

Definition enabled (table : list RuleSpec) : list ScoreRule :=
  map rs_rule (List.filter rs_enabled table).

Definition simple_rules : list ScoreRule := enabled simple_table.
Definition resource_aware_rules : list ScoreRule := enabled resource_aware_table.

(** [Vec::dedup_by_key]: drop an element whose key equals that of the last kept. *)
Fixpoint dedup_by_key (last : option string) (l : list (string * string)) : list (string * string) :=
  match l with
  | [] => []
  | p :: l' =>
      if bool_decide (last = Some p.1) then dedup_by_key last l'
      else p :: dedup_by_key (Some p.1) l'
  end.

Definition rule_catalog : list (string * string) :=
  dedup_by_key None
    (sort_by (fun a b => String.compare a.1 b.1)
       (map (fun r => (rule_name r, rule_description r)) resource_aware_rules)).

Definition policy_by_name (name : string) : ScoringPolicy :=
  if (name =? "simple")%string then
    RulePolicy_policy (RulePolicy_new "simple" simple_rules false)
  else if (name =? "resource-aware")%string then
    RulePolicy_policy (RulePolicy_new "resource-aware" resource_aware_rules true)
  else RulePolicy_policy (RulePolicy_new "resource-aware" resource_aware_rules true).

(** ** Totals *)

(** Equality up to the sign of zero. *)
Definition same_value (x y : f64) : Prop :=
  x = y \/ match x, y with S754_zero _, S754_zero _ => True | _, _ => False end.

#[export] Instance same_value_equiv : Equivalence same_value.
Proof.
  unfold same_value. split.
  - intros x. by left.
  - intros x y [->|Hxy]; [by left|right]. by destruct x, y.
  - intros x y z [->|Hxy]; [done|]. intros [->|Hyz]; right; [done|]. by destruct x, y, z.
Qed.

#[export] Instance f64_add_proper : Proper (same_value ==> same_value ==> same_value) f64_add.
Proof.
  unfold same_value. intros x x' Hx y y' Hy.
  destruct Hx as [->|Hx], Hy as [->|Hy]; [by left|..].
  - destruct y, y'; try done. destruct x' as [| | |]; try by left.
    right. unfold f64_add, SFadd. by repeat case_match.
  - destruct x, x'; try done. destruct y' as [| | |]; try by left.
    right. unfold f64_add, SFadd. by repeat case_match.
  - destruct x, x', y, y'; try done. right. unfold f64_add, SFadd. by repeat case_match.
Qed.

Lemma foldl_add_proper l x y : same_value x y -> same_value (foldl f64_add x l) (foldl f64_add y l).
Proof. revert x y. induction l as [|z l IH]; intros x y Hxy; simpl; [done|]. apply IH. by rewrite Hxy. Qed.

(** What the fold of [score_detailed] accumulates. *)
Lemma detail_foldl job w i rules acc :
  let d := foldl (detail_step job w i) acc rules in
  bd_total d = foldl f64_add (bd_total acc) (map (fun r => rule_score r job w i) rules) /\
  bd_vetoes d = bd_vetoes acc ++
    map rule_name (List.filter (fun r => rule_veto r job w i) rules).
Proof.
  revert acc. induction rules as [|r rules IH]; intros acc; simpl.
  { by rewrite app_nil_r. }
  destruct (IH (detail_step job w i acc r)) as [IH1 IH2]. rewrite IH1, IH2. split; [done|].
  simpl. case_match; simpl; [|done]. by rewrite <- app_assoc.
Qed.

Lemma detail_rules_lookup job w i rules acc n :
  NoDup (map rule_name rules) ->
  bd_rules (foldl (detail_step job w i) acc rules) !! n =
    match List.find (fun r => bool_decide (rule_name r = n)) rules with
    | Some r => Some (rule_score r job w i)
    | None => bd_rules acc !! n
    end.
Proof.
  revert acc. induction rules as [|r rules IH]; intros acc Hnd; simpl; [done|].
  apply NoDup_cons in Hnd as [Hr Hnd]. rewrite IH by done. simpl.
  case_bool_decide as Hn.
  - destruct (List.find _ _) as [r'|] eqn:E.
    { apply List.find_some in E as [E1 E2%bool_decide_eq_true].
      destruct Hr. rewrite Hn, <- E2. apply list_elem_of_In, List.in_map, E1. }
    rewrite Hn. by simplify_map_eq.
  - by case_match; simplify_map_eq.
Qed.

#[local] Arguments mag : simpl never.
#[local] Arguments f64_add : simpl never.

Lemma foldl_add_mag k l x :
  14 <= k -> k + Z.of_nat (length l) <= 1000 -> mag k x -> Forall (mag 14) l ->
  mag (k + Z.of_nat (length l)) (foldl f64_add x l).
Proof.
  revert k x. induction l as [|y l IH]; intros k x Hk Hlen Hx Hl; simpl in *.
  { by rewrite Z.add_0_r. }
  inversion Hl; subst. replace (k + Z.of_nat (S (length l))) with ((k + 1) + Z.of_nat (length l)) by lia.
  apply IH; try lia; [|done]. apply mag_add; [lia|done|]. by apply (mag_weaken 14).
Qed.

Lemma total_mag x l :
  mag 0 x -> Forall (mag 14) l -> (length l <= 13)%nat -> mag 27 (foldl f64_add x l).
Proof.
  intros Hx Hl Hlen. apply (mag_weaken (14 + Z.of_nat (length l))); [lia|].
  apply foldl_add_mag; [lia..| |done]. by apply (mag_weaken 0).
Qed.

Lemma within_mag k cap x : mag k cap -> fits x -> within cap x -> mag k x.
Proof.
  intros Hc Hf [Hn Hle]. destruct cap as [s| | |[] M E], x as [|[]| |[] m e]; try done.
  apply SFleb_pos in Hle. unfold mag, fits in *. lia.
Qed.

Definition sane (job : JobContext) (w : WorkerContext) (i : InstanceContext) : Prop :=
  sane_job job /\ sane_worker w /\ sane_instance i.

(** Every score of a rule of the resource-aware table, enabled or not. *)
Lemma rule_scores_mag job w i :
  sane job w i ->
  Forall (fun s => mag 14 (rule_score (rs_rule s) job w i)) resource_aware_table.
Proof.
  intros (Hj & Hw & Hi). unfold resource_aware_table, simple_table. cbn [app].
  repeat apply Forall_cons_2; [cbn [spec rs_rule rule_score MissingPathsRule_rule
    MissingNarSizeRule_rule DependencyCountRule_rule BuiltinDeprioritizeRule_rule
    ResourceSaturationRule_rule]..|by apply Forall_nil_2].
  - apply (within_mag 14 MISSING_PATHS_CAP); [eval_weight| |by apply MissingPathsRule_within, Hi].
    unfold MissingPathsRule_score. repeat case_match; try done. all: apply f64_mul_fits.
  - apply (within_mag 14 MISSING_NAR_SIZE_CAP); [eval_weight| |by apply MissingNarSizeRule_within, Hi].
    unfold MissingNarSizeRule_score. repeat case_match; try done. all: apply f64_mul_fits.
  - done.
  - apply (within_mag 14 DEPENDENCY_COUNT_CAP); [eval_weight| |by apply DependencyCountRule_within, Hi].
    unfold DependencyCountRule_score. repeat case_match; try done. all: apply f64_mul_fits.
  - apply (mag_weaken 12); [lia|]. by apply WaitTimeRule_bounds.
  - destruct (BuiltinDeprioritizeRule_values job w i) as [->|[->| ->]]; eval_weight.
  - apply (mag_weaken 9); [lia|]. by apply ReserveFetchWorkersRule_bounds.
  - by apply ResourceFitRule_mag.
  - destruct (ResourceSaturationRule_values job w i) as [->|[->| ->]]; eval_weight.
  - apply (mag_weaken 8); [lia|]. by apply PreferLocalBuildRule_mag.
  - apply (mag_weaken 9); [lia|]. by apply FairShareRule_bounds.
  - apply (mag_weaken 7); [lia|]. by apply NetworkAffinityRule_mag.
  - apply (mag_weaken 6); [lia|]. by apply DiskAffinityRule_mag.
Qed.

Lemma enabled_mag job w i table :
  Forall (fun s => mag 14 (rule_score (rs_rule s) job w i)) table ->
  Forall (mag 14) (map (fun r => rule_score r job w i) (enabled table)).
Proof.
  intros Ht. unfold enabled. induction Ht as [|s table Hs Ht IH]; simpl; [constructor|].
  case_match; simpl; [by constructor|done].
Qed.

Lemma table_mag job w i :
  sane job w i ->
  Forall (mag 14) (map (fun r => rule_score r job w i) simple_rules) /\
  Forall (mag 14) (map (fun r => rule_score r job w i) resource_aware_rules).
Proof.
  intros Hs. pose proof (rule_scores_mag job w i Hs) as Hall.
  split; apply enabled_mag; [|done]. by apply Forall_app in Hall as [].
Qed.

Lemma policy_cases name :
  policy_by_name name = RulePolicy_policy (RulePolicy_new "simple" simple_rules false) /\ name = "simple" \/
  policy_by_name name = RulePolicy_policy (RulePolicy_new "resource-aware" resource_aware_rules true)
    /\ name ≠ "simple".
Proof.
  unfold policy_by_name. destruct (String.eqb_spec name "simple"); [by left|right].
  by case_match.
Qed.
End policy.

(** The total the dispatcher compares. *)
Lemma policy_breakdown_mag `{Chrono} name job w i :
  sane job w i -> mag 27 (bd_total (sp_score_detailed (policy_by_name name) job w i)).
Proof.
  intros Hs. destruct (table_mag job w i Hs).
  destruct (policy_cases name) as [[-> _]|[-> _]]; simpl sp_score_detailed.
  all: unfold RulePolicy_score_detailed; rewrite (proj1 (detail_foldl job w i _ _)).
  all: apply total_mag; try done; vm_compute; lia.
Qed.

Lemma policy_no_share `{Chrono} name : sp_uses_org_work_share (policy_by_name name) = false.
Proof. by destruct (policy_cases name) as [[-> _]|[-> _]]. Qed.

(** The vetoes of a configurable policy. *)
Lemma policy_veto_list `{Chrono} name job w i :
  bd_vetoes (sp_score_detailed (policy_by_name name) job w i) =
  (if RescoreWaitRule_veto RescoreWaitRule_default job w i then ["RescoreWaitRule"] else []).
Proof.
  assert (Hv : forall rules, rules = simple_rules \/ rules = resource_aware_rules ->
    map rule_name (List.filter (fun r => rule_veto r job w i) rules) =
    (if RescoreWaitRule_veto RescoreWaitRule_default job w i then ["RescoreWaitRule"] else [])).
  { intros rules [-> | ->]; simpl; unfold no_veto; by destruct (RescoreWaitRule_veto _ _ _ _). }
  destruct (policy_cases name) as [[-> _]|[-> _]]; simpl sp_score_detailed.
  all: unfold RulePolicy_score_detailed; rewrite (proj2 (detail_foldl job w i _ _)); simpl bd_vetoes.
  all: apply Hv; auto.
Qed.

(** ** Properties *)

Section properties.
Context `{Chrono}.

(** Every bonus of the placement rules stays between zero and its documented
    cap, and every penalty is never positive, under binary64 rounding: the missing
    paths, missing NAR size, dependency and wait bonuses, the fetch-worker
    reservation, the saturation penalty (0, -1000 or -2000) and the fair share. *)
Theorem rule_scores_bounded job w i :
  sane job w i ->
  within MISSING_PATHS_CAP (MissingPathsRule_score MissingPathsRule_default job w i) /\
  within MISSING_NAR_SIZE_CAP (MissingNarSizeRule_score MissingNarSizeRule_default job w i) /\
  within DEPENDENCY_COUNT_CAP (DependencyCountRule_score DependencyCountRule_default job w i) /\
  within WAIT_TIME_CAP (WaitTimeRule_score WaitTimeRule_default job w i) /\
  nonpos (ReserveFetchWorkersRule_score ReserveFetchWorkersRule_default job w i) /\
  (let s := ResourceSaturationRule_score ResourceSaturationRule_default job w i in
   s = f64_zero \/ s = f64_of_Z (-1000) \/ s = f64_of_Z (-2000)) /\
  nonpos (FairShareRule_score FairShareRule_default job w i).
Proof.
  intros (Hj & Hw & Hi). split_and!.
  1,2,3: apply MissingPathsRule_within || apply MissingNarSizeRule_within
    || apply DependencyCountRule_within; [done|apply Hi].
  - split; apply WaitTimeRule_bounds.
  - by apply ReserveFetchWorkersRule_bounds.
  - apply ResourceSaturationRule_values.
  - by apply FairShareRule_bounds.
Qed.

(** C3. For inputs in range, the total of every policy a configuration can select
    is a finite number below [2^27] in magnitude, in the plain score and in the
    recorded breakdown: it is never NaN or infinite, which the dispatcher's
    comparator relies on. *)
Theorem policy_total_finite name job w i :
  sane job w i ->
  mag 27 (sp_score (policy_by_name name) job w i) /\
  mag 27 (bd_total (sp_score_detailed (policy_by_name name) job w i)).
Proof.
  intros Hs. destruct (table_mag job w i Hs).
  destruct (policy_cases name) as [[-> _]|[-> _]]; simpl sp_score; simpl sp_score_detailed.
  all: unfold RulePolicy_score, RulePolicy_score_detailed.
  all: rewrite (proj1 (detail_foldl job w i _ _)); simpl bd_total; simpl rp_rules.
  all: split; apply total_mag; try done; vm_compute; lia.
Qed.

(** The recorded breakdown explains the score: its total is the plain score up
    to the sign of zero, it records each rule's own score under the rule's name and
    nothing else, and it lists exactly the vetoing rules, in table order. *)
Theorem score_detailed_sound (self : RulePolicy) job w i :
  NoDup (map rule_name (rp_rules self)) ->
  let d := RulePolicy_score_detailed self job w i in
  same_value (bd_total d) (RulePolicy_score self job w i) /\
  (forall n s, bd_rules d !! n = Some s <->
     exists r, r ∈ rp_rules self /\ rule_name r = n /\ rule_score r job w i = s) /\
  bd_vetoes d = map rule_name (List.filter (fun r => rule_veto r job w i) (rp_rules self)).
Proof.
  intros Hnd d. subst d. unfold RulePolicy_score_detailed, RulePolicy_score.
  destruct (detail_foldl job w i (rp_rules self)
    {| bd_rules := ∅; bd_total := f64_zero; bd_vetoes := [] |}) as [-> ->].
  split; [|split; [|done]].
  { simpl. apply foldl_add_proper. by right. }
  intros n s. rewrite detail_rules_lookup by done. simpl. rewrite lookup_empty.
  destruct (List.find _ _) as [r|] eqn:E.
  - apply List.find_some in E as [E1%list_elem_of_In E2%bool_decide_eq_true].
    split; [intros [= <-]; eauto|]. intros (r' & Hr' & Hn & <-).
    do 2 f_equal. symmetry. eapply (NoDup_map_inj rule_name); eauto; congruence.
  - split; [done|]. intros (r & Hr & Hn & _).
    apply list_elem_of_In in Hr. eapply List.find_none in E; [|done].
    by rewrite bool_decide_eq_false in E.
Qed.

(** Whatever policy is configured, a job is vetoed for a worker exactly when it
    is a build whose substitution size is unmeasured and which has had fewer than
    four rescoring rounds; no other rule vetoes. *)
Theorem policy_vetoes name job w i :
  bd_vetoes (sp_score_detailed (policy_by_name name) job w i) =
    (if bool_decide (is_Some (sj_build (jc_job job))) && bool_decide (jc_missing_nar_size job = None)
        && (jc_rescore_count job <? 4)
     then ["RescoreWaitRule"] else []).
Proof.
  rewrite policy_veto_list. unfold RescoreWaitRule_veto.
  destruct (sj_build _), (jc_missing_nar_size job); done.
Qed.
End properties.

(** ** Witnesses *)

(** An unmeasured x86_64 build scored against an idle two-core worker. *)
Definition example_job : JobContext (H := nanosecond_clock) := {|
  jc_job := new_build "b" 1%N "x86_64-linux" true true (Some "hello") (Some 10)
              history_default;
  jc_missing_count := Some 3;
  jc_missing_nar_size := None;
  jc_dependency_count := 2;
  jc_queued_at := at_ns 0; jc_ready_at := at_ns 0;
  jc_org_work_share := None;
  jc_rescore_count := 1;
  jc_now := at_ns 90000000000;
|}.

Definition example_worker : WorkerContext := {|
  wc_architectures := ["x86_64-linux"]; wc_system_features := []; wc_fetch := true;
  wc_metrics := Some metrics_default |}.

Lemma example_sane : sane (H := nanosecond_clock) example_job example_worker instance_default.
Proof. repeat split; vm_compute; intuition discriminate. Qed.

Lemma rule_scores_bounded_witness :
  sane example_job example_worker instance_default /\
  within MISSING_PATHS_CAP (MissingPathsRule_score MissingPathsRule_default
    example_job example_worker instance_default).
Proof. split; [exact example_sane|]. apply (rule_scores_bounded _ _ _ example_sane). Defined.

Lemma policy_total_finite_witness :
  sane example_job example_worker instance_default /\
  mag 27 (sp_score (policy_by_name "simple") example_job example_worker instance_default).
Proof. split; [exact example_sane|]. apply (policy_total_finite "simple" _ _ _ example_sane). Defined.

Lemma simple_names_distinct :
  NoDup (map rule_name (simple_rules (H := nanosecond_clock))).
Proof. apply (bool_decide_unpack _). vm_compute. exact I. Qed.

Lemma score_detailed_sound_witness :
  NoDup (map rule_name (simple_rules (H := nanosecond_clock))) /\
  bd_vetoes (RulePolicy_score_detailed (RulePolicy_new "simple" simple_rules false)
    example_job example_worker instance_default) = ["RescoreWaitRule"].
Proof.
  split; [exact simple_names_distinct|].
  pose proof (score_detailed_sound (RulePolicy_new "simple" simple_rules false)
    example_job example_worker instance_default simple_names_distinct) as (_ & _ & ->).
  reflexivity.
Defined.
