(* ===== verification/StorePath.v ===== *)
(** * Nix store paths

    [backend/gradient-entity/src/store_path.rs]: a store path decomposed into its
    hash and name, parsed from a full path or a bare base. *)

From S2P Require Import Prelude RustStr.

Local Open Scope string_scope.

Definition STORE_DIR : string := "/nix/store".

Record StorePath := { sp_hash : string; sp_name_ : string }.

Inductive StorePathError := Malformed (s : string).

#[export] Instance StorePath_eq_dec : EqDecision StorePath.
Proof. solve_decision. Defined.

Definition from_parts (hash name : string) : StorePath := {| sp_hash := hash; sp_name_ := name |}.

Definition StorePath_parse (input : string) : result StorePath StorePathError :=
  let base := match strip_prefix STORE_DIR input with
              | Some rest => trim_start_matches "/" rest
              | None => input
              end in
  match split_once "-" base with
  | None => Err (Malformed input)
  | Some (hash, name) =>
      if (hash =? "") || (name =? "") then Err (Malformed input)
      else Ok (from_parts hash name)
  end.

Definition is_derivation (p : StorePath) : bool := ends_with (sp_name_ p) ".drv".
Definition StorePath_base (p : StorePath) : string := sp_hash p ++ "-" ++ sp_name_ p.
Definition StorePath_full (p : StorePath) : string :=
  STORE_DIR ++ "/" ++ sp_hash p ++ "-" ++ sp_name_ p.

(** ** Well-formedness and round trips *)

(** What [parse] guarantees, and what the round trips need: a non-empty hash free
    of dashes and slashes and a non-empty name. *)
Definition StorePath_wf (p : StorePath) : Prop :=
  sp_hash p ≠ "" /\ sp_name_ p ≠ "" /\ contains_char "-" (sp_hash p) = false.

Definition no_slash (p : StorePath) : Prop := contains_char "/" (sp_hash p) = false.

Lemma trim_start_none c s : contains_char c s = false -> trim_start_matches c s = s.
Proof. destruct s as [|a s]; simpl; [done|]. by destruct (Ascii.eqb a c). Qed.

Lemma trim_start_app c s t :
  s ≠ "" -> contains_char c s = false -> trim_start_matches c (s ++ t) = s ++ t.
Proof.
  destruct s as [|a s]; simpl; [done|]. intros _ [H _]%orb_false_iff.
  change (String a s ++ t) with (String a (s ++ t)). simpl. by rewrite H.
Qed.

Lemma parse_base p :
  StorePath_wf p ->
  match split_once "-" (StorePath_base p) with
  | None => Err (Malformed "")
  | Some (hash, name) =>
      if (hash =? "") || (name =? "") then Err (Malformed "") else Ok (from_parts hash name)
  end = Ok p.
Proof.
  intros (Hh & Hn & Hd). destruct p as [h n]; simpl in *.
  assert (split_once "-" (StorePath_base {| sp_hash := h; sp_name_ := n |}) = Some (h, n)) as ->.
  { by apply split_once_Some. }
  apply String.eqb_neq in Hh as ->, Hn as ->. done.
Qed.

Lemma parse_with_base input p :
  StorePath_wf p ->
  match strip_prefix STORE_DIR input with
  | Some rest => trim_start_matches "/" rest
  | None => input
  end = StorePath_base p ->
  StorePath_parse input = Ok p.
Proof.
  intros Hp Hb. unfold StorePath_parse. rewrite Hb.
  pose proof (parse_base p Hp) as H. destruct (split_once _ _) as [[h n]|]; [|done].
  by destruct ((h =? "") || (n =? "")).
Qed.

(** A store path survives its presentation: parsing the full path, or the
    prefix-free base, of a well-formed path gives the path back; and whatever
    parses is well formed, so parsing is idempotent through [base]. *)
Theorem StorePath_roundtrip :
  (forall p, StorePath_wf p -> no_slash p ->
     StorePath_parse (StorePath_full p) = Ok p /\ StorePath_parse (StorePath_base p) = Ok p) /\
  (forall input p, StorePath_parse input = Ok p -> StorePath_wf p).
Proof.
  split.
  - intros p Hp Hs. split.
    + apply parse_with_base; [done|]. unfold StorePath_full.
      rewrite strip_prefix_app. unfold StorePath_base. 
      change (("/" ++ sp_hash p ++ "-" ++ sp_name_ p)%string)
        with (String "/" (sp_hash p ++ "-" ++ sp_name_ p)).
      cbn [trim_start_matches Ascii.eqb Bool.eqb].
      apply trim_start_app; [apply Hp|done].
    + apply parse_with_base; [done|].
      assert (strip_prefix STORE_DIR (StorePath_base p) = None) as ->; [|done].
      destruct (strip_prefix STORE_DIR _) as [r|] eqn:E; [|done]. exfalso.
      apply strip_prefix_Some in E. destruct p as [h n], Hp as (Hh & _). unfold no_slash in Hs.
      simpl in *. destruct h as [|a h]; [done|]. injection E as -> _. done.
  - intros input p. unfold StorePath_parse.
    destruct (split_once "-" _) as [[h n]|] eqn:E; [|done].
    apply split_once_Some in E as [Hd _].
    destruct (String.eqb_spec h ""), (String.eqb_spec n ""); simpl; try done.
    intros [= <-]. by split_and!.
Qed.

Lemma StorePath_roundtrip_witness :
  StorePath_parse (StorePath_full (from_parts "abc" "hello-1.0.drv")) = Ok (from_parts "abc" "hello-1.0.drv").
Proof. apply (proj1 StorePath_roundtrip); [by split_and!|done]. Defined.
