(* ===== verification/Proto.v ===== *)
(** * Wire types

    The job types of [backend/gradient-types/src/proto.rs] the scheduler keeps in
    its state: jobs, tasks, candidates and scores. *)

From Stdlib Require Import Strings.Byte.
From S2P Require Import Prelude Float.

Record GradientCapabilities := {
  cap_core : bool;
  cap_federate : bool;
  cap_fetch : bool;
  cap_eval : bool;
  cap_build : bool;
  cap_cache : bool;
}.

Definition capabilities_default : GradientCapabilities := {|
  cap_core := false; cap_federate := false; cap_fetch := false;
  cap_eval := false; cap_build := false; cap_cache := false |}.

Inductive FlakeSource :=
| Repository (url commit : string)
| Cached (store_path : string).

Record FlakeInputOverride := {
  input_name : string;
  input_url : option string;
}.

Record InputUpdateSpec := {
  iu_generator : string;
  iu_inputs : list string;
  iu_discover_only : bool;
}.

Inductive FlakeTask := FetchFlake | EvaluateFlake | EvaluateDerivations.

#[export] Instance FlakeTask_eq_dec : EqDecision FlakeTask.
Proof. solve_decision. Defined.

Record FlakeJob := {
  fj_tasks : list FlakeTask;
  fj_source : FlakeSource;
  fj_wildcards : list string;
  fj_timeout_secs : option Z;
  fj_input_overrides : list FlakeInputOverride;
  fj_input_update : option InputUpdateSpec;
}.

Record DerivationOutput := { do_name : string; do_path : string }.

Record DiscoveredDerivation := {
  disc_attr : string;
  disc_drv_path : string;
  disc_outputs : list DerivationOutput;
  disc_dependencies : list string;
  disc_input_sources : list string;
  disc_architecture : string;
  disc_required_features : list string;
  disc_timeout_secs : option Z;
  disc_max_silent_secs : option Z;
  disc_prefer_local_build : bool;
  disc_is_fixed_output : bool;
  disc_allow_substitutes : bool;
  disc_pname : option string;
  disc_substituted : bool;
}.

Record BuildTask := {
  bt_build_id : string;
  bt_drv_path : string;
  bt_external_cached : bool;
  bt_is_fixed_output : bool;
  bt_outputs : list DerivationOutput;
  bt_timeout_secs : option Z;
  bt_max_silent_secs : option Z;
}.

Record BuildJob := { bj_builds : list BuildTask }.

Inductive Job :=
| Flake (j : FlakeJob)
| Build (j : BuildJob).

Record CacheInfo := { ci_file_size : Z; ci_nar_size : Z }.

Record RequiredPath := {
  rp_path : string;
  rp_cache_info : option CacheInfo;
}.

Record JobCandidate := {
  jcand_job_id : string;
  jcand_required_paths : list RequiredPath;
  jcand_drv_paths : list string;
}.

Record CandidateScore := {
  cs_job_id : string;
  cs_missing_count : Z;
  cs_missing_nar_size : Z;
}.

Inductive JobKind := JobKindFlake | JobKindBuild.

Inductive BuildFailureKind :=
| Transient
| Permanent
| Timeout
| SubstituteUnavailable
| InputsUnavailable
| CorruptEvalCache.

#[export] Instance BuildFailureKind_eq_dec : EqDecision BuildFailureKind.
Proof. solve_decision. Defined.

(** * Protocol messages

    The messages of [backend/gradient-proto/src/messages/] and the payload types of
    [backend/gradient-types/src/proto.rs] they carry. Byte payloads are lists of
    bytes, machine integers are [Z]. *)

Inductive EvalMessageLevel := LevelError | LevelWarning | LevelNotice.

Record BumpedInputWire := {
  bi_name : string;
  bi_old_rev : option string;
  bi_new_rev : string;
}.

Record BuildProduct := {
  bp_file_type : string;
  bp_subtype : string;
  bp_name : string;
  bp_path : string;
  bp_size : option Z;
}.

Record BuildOutputInfo := {
  bo_name : string;
  bo_store_path : string;
  bo_hash : string;
  bo_nar_size : option Z;
  bo_nar_hash : option string;
  bo_products : list BuildProduct;
}.

Record BuildMetrics := {
  bm_peak_ram_mb : option Z;
  bm_cpu_time_ms : option Z;
  bm_avg_cpu_pct : option f32;
  bm_disk_read_bytes : option Z;
  bm_disk_write_bytes : option Z;
  bm_oom_killed : bool;
  bm_build_time_ms : option Z;
  bm_peak_network_mbps : option f32;
}.

Record EvalAttrCost := {
  eac_attr : string;
  eac_thunks : Z;
  eac_fn_calls : Z;
  eac_eval_ms : Z;
  eac_alloc_bytes : Z;
}.

Record FlakeOutputNode := {
  fon_path : string;
  fon_parent : option string;
  fon_name : string;
  fon_kind : string;
  fon_is_derivation : bool;
  fon_drv_path : option string;
}.

Record EvalStatsReport := {
  es_total_thunks : Z;
  es_fn_calls : Z;
  es_primop_calls : Z;
  es_lookups : Z;
  es_alloc_bytes : Z;
  es_peak_heap_mb : Z;
  es_peak_rss_mb : Z;
  es_fetch_ms : Z;
  es_eval_flake_ms : Z;
  es_eval_drv_ms : Z;
  es_total_eval_ms : Z;
  es_worker_id : string;
  es_per_entry_point : list EvalAttrCost;
  es_flake_nodes : list FlakeOutputNode;
}.

Inductive JobUpdateKind :=
| Fetching
| FetchResult (flake_source : option string)
| EvaluatingFlakeUpdate
| EvaluatingDerivations
| EvalResult (derivations : list DiscoveredDerivation) (warnings errors : list string)
| BuildingUpdate (build_id : string)
| BuildOutput (build_id : string) (outputs : list BuildOutputInfo)
    (metrics : option BuildMetrics) (substituted : bool)
| Compressing
| EvalStats (report : EvalStatsReport)
| InputUpdateResult (candidate_lock : string) (bumped : list BumpedInputWire)
| InputUpdateExpansion (matched : list string).

Inductive EvalCachePullOutcome :=
| PullMiss
| PullPresigned (url : string)
| PullInline (total_bytes : Z) (stream_token : string).

Inductive EvalCachePushMode :=
| PushSkip
| PushPresigned (url : string)
| PushInline (stream_token : string).

Inductive QueryMode := Normal | Pull | Push.

Record CachedPath := {
  cp_path : string;
  cp_cached : bool;
  cp_file_size : option Z;
  cp_nar_size : option Z;
  cp_url : option string;
  cp_nar_hash : option string;
  cp_file_hash : option string;
  cp_references : option (list string);
  cp_signatures : option (list string);
  cp_deriver : option string;
  cp_ca : option string;
}.

Inductive CredentialKind := SshKey.

(** ** Client to server *)

Inductive ClientMessage :=
| CInitConnection (version : Z) (capabilities : GradientCapabilities) (id : string)
| CAuthResponse (tokens : list (string * string))
| CReauthRequest
| CReject (code : Z) (reason : string)
| CWorkerCapabilities (architectures system_features : list string)
    (max_concurrent_builds cpu_count ram_total_mb cpu_core_score : Z)
| CWorkerMetrics (cpu_usage_pct : f32) (ram_free_mb : Z)
    (disk_speed_mbps network_speed_mbps : option f32)
| CRequestJobList
| CRequestJobChunk (scores : list CandidateScore) (is_final : bool)
| CAssignJobResponse (job_id : string) (accepted : bool) (reason : option string)
| CJobUpdate (job_id : string) (update : JobUpdateKind)
| CJobCompleted (job_id : string)
| CJobFailed (job_id error : string) (kind : BuildFailureKind) (missing_paths : list string)
| CDraining
| CLogChunk (job_id : string) (task_index : Z) (data : list byte)
| CNarRequest (job_id : string) (paths : list string)
| CNarPush (job_id store_path : string) (data : list byte) (offset : Z) (is_final : bool)
| CNarUploaded (job_id store_path file_hash : string) (file_size nar_size : Z)
    (nar_hash : string) (references : list string) (deriver ca : option string)
| CNarStreamHeader (job_id store_path : string) (total_bytes : option Z) (stream_token : string)
| CNarRequestResume (job_id store_path : string) (received_bytes : Z) (stream_token : string)
| CEvalCachePull (job_id fingerprint : string)
| CEvalCachePush (job_id fingerprint : string) (size_bytes : Z)
| CEvalCacheChunk (job_id : string) (data : list byte) (offset : Z) (is_final : bool)
| CEvalCachePushDone (job_id fingerprint : string) (size_bytes : Z)
| CRequestJob (kind : JobKind)
| CRequestAllCandidates
| CCacheQuery (job_id query_id : string) (paths : list string) (mode : QueryMode)
| CEvalMessage (job_id : string) (level : EvalMessageLevel) (source message : string)
| CQueryKnownDerivations (job_id : string) (drv_paths : list string).

(** ** Server to client *)

Record FailedPeer := { fp_peer_id : string; fp_reason : string }.

Inductive ServerMessage :=
| SAuthChallenge (peers : list string)
| SInitAck (version : Z) (capabilities : GradientCapabilities)
    (authorized_peers : list string) (failed_peers : list FailedPeer)
| SAuthUpdate (authorized_peers : list string) (failed_peers : list FailedPeer)
| SReject (code : Z) (reason : string)
| SError (code : Z) (message : string)
| SDraining
| SJobListChunk (candidates : list JobCandidate) (is_final : bool)
| SJobOffer (candidates : list JobCandidate)
| SRevokeJob (job_ids : list string)
| SAssignJob (job_id : string) (job : Job)
| SAbortJob (job_id reason : string)
| SCredential (kind : CredentialKind) (data : list byte)
| SNarPush (job_id store_path : string) (data : list byte) (offset : Z) (is_final : bool)
| SNarUnavailable (job_id store_path reason : string)
| SNarAbort (job_id store_path reason : string)
| SNarStreamHeader (job_id store_path : string) (total_bytes : Z) (stream_token : string)
| SNarPushResume (job_id store_path : string) (received_bytes : Z)
| SEvalCachePullResult (job_id : string) (outcome : EvalCachePullOutcome)
| SEvalCacheChunk (job_id : string) (data : list byte) (offset : Z) (is_final : bool)
| SEvalCachePushGrant (job_id : string) (mode : EvalCachePushMode)
| SRequestAllScores
| SCacheStatus (query_id : string) (cached : list CachedPath)
| SKnownDerivations (job_id : string) (known : list string)
| SCacheError (query_id message : string).

Definition PROTO_VERSION : Z := 7.
Definition JOB_OFFER_CHUNK_SIZE : nat := 1000.
