(* ===== verification/JobData.v ===== *)
(** * Scheduler jobs and worker capabilities

    The data of [backend/gradient-scheduler/src/jobs.rs]: pending evaluation and
    build jobs, the accessors of [PendingJob], and the capability checks that
    decide which worker may run which job. *)

From S2P Require Import Prelude Float RustStr ScoreContext ScorePolicy StorePath Proto.

Local Open Scope Z_scope.

Abbreviation EvaluationId := N.
Abbreviation ProjectId := N.
Abbreviation CommitId := N.
Abbreviation DerivationBuildId := N.
Abbreviation DispatchedJobId := N.

Inductive DispatchedJobKind := KEval | KBuild.

#[export] Instance DispatchedJobKind_eq_dec : EqDecision DispatchedJobKind.
Proof. solve_decision. Defined.

(** [i16::from(DispatchedJobKind)] *)
Definition i16_of_kind (k : DispatchedJobKind) : Z := match k with KEval => 0 | KBuild => 1 end.

Section job_data.
Context `{Chrono}.

Record PendingEvalJob := {
  pe_evaluation_id : EvaluationId;
  pe_project_id : option ProjectId;
  pe_org_id : OrganizationId;
  pe_commit_id : CommitId;
  pe_repository : string;
  pe_job : FlakeJob;
  pe_required_paths : list RequiredPath;
  pe_queued_at : NaiveDateTime;
  pe_ready_at : NaiveDateTime;
  pe_rescore_count : Z;
  pe_history : HistoryPrediction;
}.

Record PendingBuildJob := {
  pb_derivation_build : DerivationBuildId;
  pb_evaluation_id : EvaluationId;
  pb_org_id : OrganizationId;
  pb_job : BuildJob;
  pb_required_paths : list RequiredPath;
  pb_architecture : string;
  pb_required_features : list string;
  pb_dependency_count : Z;
  pb_closure_size : option Z;
  pb_prefer_local_build : bool;
  pb_is_fixed_output : bool;
  pb_history : HistoryPrediction;
  pb_queued_at : NaiveDateTime;
  pb_ready_at : NaiveDateTime;
  pb_rescore_count : Z;
  pb_pname : option string;
  pb_substitute : bool;
}.

Inductive PendingJob :=
| PendingEval (j : PendingEvalJob)
| PendingBuild (j : PendingBuildJob).

(** [PendingEvalJob::cached_followup] *)
Definition cached_followup (self : PendingEvalJob) (store_path : string) : PendingEvalJob := {|
  pe_evaluation_id := pe_evaluation_id self;
  pe_project_id := pe_project_id self;
  pe_org_id := pe_org_id self;
  pe_commit_id := pe_commit_id self;
  pe_repository := pe_repository self;
  pe_job := {|
    fj_tasks := [EvaluateFlake; EvaluateDerivations];
    fj_source := Cached store_path;
    fj_wildcards := fj_wildcards (pe_job self);
    fj_timeout_secs := fj_timeout_secs (pe_job self);
    fj_input_overrides := fj_input_overrides (pe_job self);
    fj_input_update := fj_input_update (pe_job self) |};
  pe_required_paths := [{| rp_path := store_path; rp_cache_info := None |}];
  pe_queued_at := pe_queued_at self;
  pe_ready_at := pe_ready_at self;
  pe_rescore_count := pe_rescore_count self;
  pe_history := pe_history self;
|}.

(** ** Accessors of [PendingJob] *)

Definition required_paths (j : PendingJob) : list RequiredPath :=
  match j with PendingEval j => pe_required_paths j | PendingBuild j => pb_required_paths j end.
Definition org_id (j : PendingJob) : OrganizationId :=
  match j with PendingEval j => pe_org_id j | PendingBuild j => pb_org_id j end.
Definition evaluation_id (j : PendingJob) : EvaluationId :=
  match j with PendingEval j => pe_evaluation_id j | PendingBuild j => pb_evaluation_id j end.
Definition kind_disc (j : PendingJob) : DispatchedJobKind :=
  match j with PendingEval _ => KEval | PendingBuild _ => KBuild end.
Definition derivation_build (j : PendingJob) : option DerivationBuildId :=
  match j with PendingBuild j => Some (pb_derivation_build j) | PendingEval _ => None end.
Definition job_pname (j : PendingJob) : option string :=
  match j with PendingBuild j => pb_pname j | PendingEval _ => None end.
Definition dependency_count (j : PendingJob) : Z :=
  match j with PendingBuild j => pb_dependency_count j | PendingEval _ => 0 end.
Definition queued_at (j : PendingJob) : NaiveDateTime :=
  match j with PendingBuild j => pb_queued_at j | PendingEval j => pe_queued_at j end.
Definition ready_at (j : PendingJob) : NaiveDateTime :=
  match j with PendingBuild j => pb_ready_at j | PendingEval j => pe_ready_at j end.
Definition rescore_count (j : PendingJob) : Z :=
  match j with PendingBuild j => pb_rescore_count j | PendingEval j => pe_rescore_count j end.

Definition as_candidate (j : PendingJob) (job_id : string) : JobCandidate := {|
  jcand_job_id := job_id;
  jcand_required_paths := required_paths j;
  jcand_drv_paths := match j with
                     | PendingBuild b => map bt_drv_path (bj_builds (pb_job b))
                     | PendingEval _ => []
                     end;
|}.

Definition into_job (j : PendingJob) : Job :=
  match j with PendingEval j => Flake (pe_job j) | PendingBuild j => Build (pb_job j) end.

Definition set_eval_rescore (j : PendingEvalJob) (n : Z) : PendingEvalJob := {|
  pe_evaluation_id := pe_evaluation_id j; pe_project_id := pe_project_id j;
  pe_org_id := pe_org_id j; pe_commit_id := pe_commit_id j;
  pe_repository := pe_repository j; pe_job := pe_job j;
  pe_required_paths := pe_required_paths j; pe_queued_at := pe_queued_at j;
  pe_ready_at := pe_ready_at j; pe_rescore_count := n; pe_history := pe_history j |}.

Definition set_build_rescore (j : PendingBuildJob) (n : Z) : PendingBuildJob := {|
  pb_derivation_build := pb_derivation_build j; pb_evaluation_id := pb_evaluation_id j;
  pb_org_id := pb_org_id j; pb_job := pb_job j; pb_required_paths := pb_required_paths j;
  pb_architecture := pb_architecture j; pb_required_features := pb_required_features j;
  pb_dependency_count := pb_dependency_count j; pb_closure_size := pb_closure_size j;
  pb_prefer_local_build := pb_prefer_local_build j; pb_is_fixed_output := pb_is_fixed_output j;
  pb_history := pb_history j; pb_queued_at := pb_queued_at j; pb_ready_at := pb_ready_at j;
  pb_rescore_count := n; pb_pname := pb_pname j; pb_substitute := pb_substitute j |}.

Definition set_rescore_count (j : PendingJob) (n : Z) : PendingJob :=
  match j with
  | PendingBuild j => PendingBuild (set_build_rescore j n)
  | PendingEval j => PendingEval (set_eval_rescore j n)
  end.

(** ** Worker capabilities *)

Record WorkerCaps := {
  caps_fetch : bool;
  caps_architectures : list string;
  caps_system_features : list string;
  caps_capabilities : GradientCapabilities;
  caps_metrics : option WorkerMetricsView;
}.

Definition can_build (self : WorkerCaps) (architecture : string)
    (required_features : list string) : bool :=
  let arch_ok := (architecture =? BUILTIN_ARCH)%string
                 || existsb (fun a => (a =? architecture)%string) (caps_architectures self) in
  let features_ok := forallb (fun f => existsb (fun sf => (sf =? f)%string) (caps_system_features self))
                             required_features in
  arch_ok && features_ok.

Definition contains_task (tasks : list FlakeTask) (t : FlakeTask) : bool :=
  existsb (fun t' => bool_decide (t' = t)) tasks.

Definition is_eval_task (t : FlakeTask) : bool :=
  match t with EvaluateFlake | EvaluateDerivations => true | FetchFlake => false end.

Definition can_eval (self : WorkerCaps) (job : FlakeJob) : bool :=
  let needs_fetch := contains_task (fj_tasks job) FetchFlake in
  let needs_eval := existsb is_eval_task (fj_tasks job) in
  (negb needs_fetch || caps_fetch self) && (negb needs_eval || cap_eval (caps_capabilities self)).

Definition job_eligible_for_caps (job : PendingJob) (caps : option WorkerCaps) : bool :=
  match job, caps with
  | _, None => true
  | PendingEval j, Some c => can_eval c (pe_job j)
  | PendingBuild j, Some c => can_build c (pb_architecture j) (pb_required_features j)
  end.

(** Scoring view of the worker; a caps-less caller scores against an empty
    context. *)
Definition worker_context_of (caps : option WorkerCaps) : WorkerContext :=
  match caps with
  | Some c => {| wc_architectures := caps_architectures c;
                 wc_system_features := caps_system_features c;
                 wc_fetch := caps_fetch c;
                 wc_metrics := caps_metrics c |}
  | None => {| wc_architectures := []; wc_system_features := [];
               wc_fetch := false; wc_metrics := None |}
  end.

Definition is_fetch_only (job : FlakeJob) : bool := bool_decide (fj_tasks job = [FetchFlake]).

(** The scoring view of a pending job, as [score_candidates] builds it. *)
Definition scored_job_of (id : string) (job : PendingJob) : ScoredJob :=
  match job with
  | PendingEval e =>
      new_eval id (org_id job) (contains_task (fj_tasks (pe_job e)) FetchFlake) (pe_history e)
  | PendingBuild b =>
      new_build id (org_id job) (pb_architecture b) (pb_prefer_local_build b)
        (pb_is_fixed_output b) (pb_pname b) (pb_closure_size b) (pb_history b)
  end.

(** ** Properties *)

Lemma contains_task_spec tasks t : contains_task tasks t = true <-> t ∈ tasks.
Proof.
  unfold contains_task. rewrite existsb_exists. split.
  - intros (t' & Hin & ->%bool_decide_eq_true). by apply list_elem_of_In.
  - intros Hin. exists t. rewrite bool_decide_eq_true. split; [|done]. by apply list_elem_of_In.
Qed.

Lemma existsb_str_eqb (l : list string) x : existsb (fun a => (a =? x)%string) l = true <-> x ∈ l.
Proof.
  rewrite existsb_exists. setoid_rewrite String.eqb_eq. setoid_rewrite <- list_elem_of_In. naive_solver.
Qed.

(** A worker may run a job exactly when it has what the job needs: a build needs
    its architecture (builtin derivations none) and all its required features; a
    flake job needs the fetch capability for a fetch task and the eval capability
    for any evaluation task. *)
Theorem eligibility_spec (job : PendingJob) (c : WorkerCaps) :
  job_eligible_for_caps job (Some c) = true <->
  match job with
  | PendingBuild b =>
      (pb_architecture b = BUILTIN_ARCH \/ pb_architecture b ∈ caps_architectures c) /\
      forall f, f ∈ pb_required_features b -> f ∈ caps_system_features c
  | PendingEval e =>
      (FetchFlake ∈ fj_tasks (pe_job e) -> caps_fetch c = true) /\
      (forall t, t ∈ fj_tasks (pe_job e) -> t ≠ FetchFlake -> cap_eval (caps_capabilities c) = true)
  end.
Proof.
  destruct job as [e|b]; unfold job_eligible_for_caps.
  - unfold can_eval. rewrite andb_true_iff, !orb_true_iff, !negb_true_iff. f_equiv.
    + rewrite <- contains_task_spec. destruct (contains_task _ _), (caps_fetch c); naive_solver.
    + assert (Hx : existsb is_eval_task (fj_tasks (pe_job e)) = true <->
        exists t, t ∈ fj_tasks (pe_job e) /\ t ≠ FetchFlake).
      { rewrite existsb_exists. f_equiv. intros t. rewrite list_elem_of_In. destruct t; simpl; naive_solver. }
      destruct (existsb _ _).
      * destruct (proj1 Hx eq_refl) as (t & Ht & Hne). naive_solver.
      * split; [|by left]. intros _ t Ht Hne. by discriminate (proj2 Hx (ex_intro _ t (conj Ht Hne))).
  - unfold can_build. rewrite andb_true_iff, orb_true_iff, String.eqb_eq, existsb_str_eqb. f_equiv.
    rewrite forallb_forall. setoid_rewrite existsb_str_eqb. setoid_rewrite <- list_elem_of_In. done.
Qed.

(** A fetch-only job's cached follow-up can run on any worker that evaluates,
    fetch-capable or not, keeps the job's identity, wildcards and place in the
    queue, and reads its source from the archived store path, which is its only
    required path. *)
Lemma cached_followup_eval_only (j : PendingEvalJob) sp (c : WorkerCaps) :
  let f := cached_followup j sp in
  (job_eligible_for_caps (PendingEval f) (Some c) = cap_eval (caps_capabilities c)) /\
  is_fetch_only (pe_job f) = false /\
  fj_source (pe_job f) = Cached sp /\ map rp_path (required_paths (PendingEval f)) = [sp] /\
  evaluation_id (PendingEval f) = evaluation_id (PendingEval j) /\
  org_id (PendingEval f) = org_id (PendingEval j) /\
  fj_wildcards (pe_job f) = fj_wildcards (pe_job j) /\
  queued_at (PendingEval f) = queued_at (PendingEval j) /\
  rescore_count (PendingEval f) = rescore_count (PendingEval j).
Proof. by split_and!. Qed.
End job_data.

(** * Serialized scoring views

    [backend/gradient-scheduler/src/views.rs]: the structured worker and job
    contexts recorded with every dispatch decision. JSON serialization itself is
    [serde]'s and stays a parameter ([Serde]). *)

Record WorkerContextView := {
  wv_architectures : list string;
  wv_system_features : list string;
  wv_capabilities : GradientCapabilities;
  wv_cpu_count : Z;
  wv_cpu_core_score : Z;
  wv_ram_total_mb : Z;
  wv_ram_free_mb : option Z;
  wv_cpu_usage_pct : option f32;
  wv_disk_speed_mbps : option f32;
  wv_network_speed_mbps : option f32;
}.

Definition WorkerContextView_new (w : WorkerContext) (capabilities : GradientCapabilities)
    : WorkerContextView :=
  let m := default metrics_default (wc_metrics w) in {|
  wv_architectures := wc_architectures w;
  wv_system_features := wc_system_features w;
  wv_capabilities := capabilities;
  wv_cpu_count := wm_cpu_count m;
  wv_cpu_core_score := wm_cpu_core_score m;
  wv_ram_total_mb := wm_ram_total_mb m;
  wv_ram_free_mb := wm_ram_free_mb m;
  wv_cpu_usage_pct := wm_cpu_usage_pct m;
  wv_disk_speed_mbps := wm_disk_speed_mbps m;
  wv_network_speed_mbps := wm_network_speed_mbps m;
|}.

Record HistoryView := {
  hv_peak_ram_mb : Z;
  hv_avg_cpu_time_ms : Z;
  hv_build_time_ms : Z;
  hv_avg_disk_bytes : Z;
  hv_oom_rate : f32;
  hv_samples : Z;
}.

Definition HistoryView_from (h : HistoryPrediction) : HistoryView := {|
  hv_peak_ram_mb := predicted_peak_ram_mb h;
  hv_avg_cpu_time_ms := avg_cpu_time_ms h;
  hv_build_time_ms := build_time_ms h;
  hv_avg_disk_bytes := avg_disk_bytes h;
  hv_oom_rate := oom_rate h;
  hv_samples := samples h;
|}.

Section views.
Context `{Chrono}.

Record JobContextView := {
  jv_kind : string;
  jv_architecture : string;
  jv_missing_count : option Z;
  jv_missing_nar_size : option Z;
  jv_org_work_share : option f32;
  jv_rescore_count : Z;
  jv_queued_at : NaiveDateTime;
  jv_ready_at : NaiveDateTime;
  jv_dependency_count : option Z;
  jv_pname : option string;
  jv_closure_size : option Z;
  jv_prefer_local_build : option bool;
  jv_is_fixed_output : option bool;
  jv_history : option HistoryView;
  jv_derivations : option (list DerivationRef);
  jv_fetch_flake : option bool;
}.

Definition view_drv_path (drv_path : string) : string :=
  match StorePath_parse drv_path with Ok sp => StorePath_base sp | Err _ => drv_path end.

Definition JobContextView_new (ctx : JobContext) (job : PendingJob) : JobContextView :=
  match job with
  | PendingBuild b => {|
      jv_kind := "Build";
      jv_architecture := pb_architecture b;
      jv_missing_count := jc_missing_count ctx;
      jv_missing_nar_size := jc_missing_nar_size ctx;
      jv_org_work_share := jc_org_work_share ctx;
      jv_rescore_count := jc_rescore_count ctx;
      jv_queued_at := jc_queued_at ctx;
      jv_ready_at := jc_ready_at ctx;
      jv_dependency_count := Some (jc_dependency_count ctx);
      jv_pname := pb_pname b;
      jv_closure_size := pb_closure_size b;
      jv_prefer_local_build := Some (pb_prefer_local_build b);
      jv_is_fixed_output := Some (pb_is_fixed_output b);
      jv_history := Some (HistoryView_from (pb_history b));
      jv_derivations := Some (map (fun t => {|
          dr_build_id := bt_build_id t;
          dr_drv_path := view_drv_path (bt_drv_path t);
          dr_pname := pb_pname b |}) (bj_builds (pb_job b)));
      jv_fetch_flake := None |}
  | PendingEval e => {|
      jv_kind := "Eval";
      jv_architecture := "";
      jv_missing_count := jc_missing_count ctx;
      jv_missing_nar_size := jc_missing_nar_size ctx;
      jv_org_work_share := jc_org_work_share ctx;
      jv_rescore_count := jc_rescore_count ctx;
      jv_queued_at := jc_queued_at ctx;
      jv_ready_at := jc_ready_at ctx;
      jv_dependency_count := None;
      jv_pname := None;
      jv_closure_size := None;
      jv_prefer_local_build := None;
      jv_is_fixed_output := None;
      jv_history := None;
      jv_derivations := None;
      jv_fetch_flake := Some (contains_task (fj_tasks (pe_job e)) FetchFlake) |}
  end.

(** The [build_context] object literal of a dispatched build. *)
Record BuildContextView := {
  bv_architecture : string;
  bv_required_features : list string;
  bv_dependency_count : Z;
  bv_closure_size : option Z;
  bv_prefer_local_build : bool;
  bv_is_fixed_output : bool;
  bv_substitute : bool;
}.

(** ** JSON

    [serde_json::to_value(..).unwrap_or(Value::Null)] and [json!(..)]: the library
    turns a view into a value or reports an error. *)
Class Serde := {
  Value : Type;
  Null : Value;
  EmptyObject : Value;
  breakdown_to_value : ScoreBreakdown -> option Value;
  worker_to_value : WorkerContextView -> option Value;
  instance_to_value : InstanceContext -> option Value;
  job_to_value : JobContextView -> option Value;
  build_json : BuildContextView -> Value;
}.
End views.

(** A concrete instance for witnesses, whose every value is the null value. *)
#[export] Instance null_serde : Serde (H := nanosecond_clock) := {|
  Value := unit; Null := tt; EmptyObject := tt;
  breakdown_to_value := fun _ => Some tt; worker_to_value := fun _ => Some tt;
  instance_to_value := fun _ => Some tt; job_to_value := fun _ => Some tt;
  build_json := fun _ => tt |}.
