(* ===== verification/JobTracker.v ===== *)
(** * The job tracker

    [JobTracker] of [backend/gradient-scheduler/src/jobs.rs]: the pending queue,
    the active assignments, the per-worker scores and the ring of recorded
    decisions, with every operation of the type. Time and identifier generation are
    arguments; the iteration order of a [HashMap] is the interface [HashOrder]. *)

From S2P Require Import Prelude Float ScoreContext ScoreRules ScorePolicy Proto JobData.

Local Open Scope Z_scope.

(** Iterating a [HashMap] visits each entry once, in an unspecified order. *)
Class HashOrder := {
  hash_iter {K A} `{Countable K} : gmap K A -> list (K * A);
  hash_iter_perm {K A} `{Countable K} (m : gmap K A) : hash_iter m ≡ₚ map_to_list m;
}.

(** Two concrete orders, for witnesses. *)
Definition forward_order : HashOrder := {|
  hash_iter := fun K A _ _ m => map_to_list m;
  hash_iter_perm := fun K A _ _ m => reflexivity _ |}.
Definition backward_order : HashOrder := {|
  hash_iter := fun K A _ _ m => reverse (map_to_list m);
  hash_iter_perm := fun K A _ _ m => reverse_Permutation (map_to_list m) |}.

Record WorkerJobScore := {
  ws_missing_count : Z;
  ws_missing_nar_size : Z;
}.

Definition DECISION_RING_CAP : nat := 200.
Definition CANDIDATES_PER_DECISION : nat := 64.

(** [Option::is_none_or] *)
Definition is_none_or {A} (o : option A) (p : A -> bool) : bool :=
  match o with None => true | Some x => p x end.

Section tracker.
Context `{CH : Chrono} {SD : Serde} {HO : HashOrder}.

(** ** Data *)

Record DispatchRecord := {
  drec_kind : DispatchedJobKind;
  drec_derivation_build : option DerivationBuildId;
  drec_evaluation_id : EvaluationId;
  drec_organization : OrganizationId;
  drec_project : option ProjectId;
  drec_score : f64;
  drec_queued_at : NaiveDateTime;
  drec_ready_at : NaiveDateTime;
  drec_score_breakdown : Value;
  drec_worker_context : Value;
  drec_job_context : Value;
  drec_instance_context : Value;
  drec_substitute : bool;
  drec_build_context : Value;
}.

Record Assignment := {
  as_job_id : string;
  as_job : Job;
  as_org_id : OrganizationId;
  as_dispatch_record : option DispatchRecord;
}.

Record ScoredCandidate := {
  sc_total : f64;
  sc_vetoed : bool;
  sc_score_breakdown : Value;
  sc_job_context : Value;
}.

Record PendingJobInfo := {
  pi_kind : DispatchedJobKind;
  pi_evaluation_id : EvaluationId;
  pi_derivation_build : option DerivationBuildId;
  pi_organization : OrganizationId;
  pi_queued_at : NaiveDateTime;
  pi_dependency_count : Z;
  pi_pname : option string;
}.

Record BoardActiveJob := {
  ba_worker_id : string;
  ba_organization : OrganizationId;
  ba_kind : DispatchedJobKind;
  ba_architecture : option string;
  ba_required_features : list string;
  ba_fetch_task : bool;
  ba_eval_task : bool;
}.

Record DecisionCandidate := {
  dc_id : DispatchedJobId;
  dc_job_id : string;
  dc_kind : Z;
  dc_organization : OrganizationId;
  dc_derivation_build : option DerivationBuildId;
  dc_evaluation_id : EvaluationId;
  dc_pname : option string;
  dc_score : f64;
  dc_won : bool;
  dc_queued_at : NaiveDateTime;
  dc_score_breakdown : Value;
  dc_job_context : Value;
}.

Record DispatchDecision := {
  dd_at : NaiveDateTime;
  dd_worker_id : string;
  dd_kind : Z;
  dd_winner : option string;
  dd_worker_context : Value;
  dd_instance_context : Value;
  dd_candidates : list DecisionCandidate;
}.

Record CandidateDetail := {
  cd_id : DispatchedJobId;
  cd_kind : Z;
  cd_organization : OrganizationId;
  cd_derivation_build : option DerivationBuildId;
  cd_evaluation_id : EvaluationId;
  cd_pname : option string;
  cd_score : f64;
  cd_won : bool;
  cd_worker_id : string;
  cd_scored_at : NaiveDateTime;
  cd_queued_at : NaiveDateTime;
  cd_score_breakdown : Value;
  cd_worker_context : Value;
  cd_job_context : Value;
  cd_instance_context : Value;
}.

(** The decision ring is a list, oldest first. *)
Record JobTracker := {
  jt_pending : gmap string PendingJob;
  jt_scores : gmap string (gmap string WorkerJobScore);
  jt_active : gmap string (string * PendingJob);
  jt_decisions : list DispatchDecision;
}.

Definition JobTracker_new : JobTracker :=
  {| jt_pending := ∅; jt_scores := ∅; jt_active := ∅; jt_decisions := [] |}.

Definition with_pending (t : JobTracker) p := {| jt_pending := p; jt_scores := jt_scores t;
  jt_active := jt_active t; jt_decisions := jt_decisions t |}.
Definition with_scores (t : JobTracker) s := {| jt_pending := jt_pending t; jt_scores := s;
  jt_active := jt_active t; jt_decisions := jt_decisions t |}.
Definition with_active (t : JobTracker) a := {| jt_pending := jt_pending t; jt_scores := jt_scores t;
  jt_active := a; jt_decisions := jt_decisions t |}.
Definition with_decisions (t : JobTracker) d := {| jt_pending := jt_pending t; jt_scores := jt_scores t;
  jt_active := jt_active t; jt_decisions := d |}.

(** ** Queueing and offers *)

Definition contains_job (t : JobTracker) (job_id : string) : bool :=
  bool_decide (is_Some (jt_pending t !! job_id)) || bool_decide (is_Some (jt_active t !! job_id)).

Definition add_pending (t : JobTracker) (job_id : string) (job : PendingJob)
    : JobTracker * JobCandidate :=
  let candidate := as_candidate job job_id in
  if bool_decide (is_Some (jt_pending t !! job_id)) || bool_decide (is_Some (jt_active t !! job_id))
  then (t, candidate)
  else (with_pending t (<[job_id := job]> (jt_pending t)), candidate).

Definition authorized_for (authorized : option (gset OrganizationId)) (job : PendingJob) : bool :=
  is_none_or authorized (fun peers => bool_decide (org_id job ∈ peers)).

Definition eligible_for_worker (t : JobTracker) (authorized : option (gset OrganizationId))
    (caps : option WorkerCaps) : list (string * PendingJob) :=
  List.filter (fun p => authorized_for authorized p.2 && job_eligible_for_caps p.2 caps)
    (hash_iter (jt_pending t)).

Definition candidates_for_worker (t : JobTracker) (authorized : option (gset OrganizationId))
    (caps : option WorkerCaps) : list JobCandidate :=
  map (fun p => as_candidate p.2 p.1) (eligible_for_worker t authorized caps).

Definition insert_score (ws : gmap string WorkerJobScore) (s : CandidateScore)
    : gmap string WorkerJobScore :=
  <[cs_job_id s := {| ws_missing_count := cs_missing_count s;
                      ws_missing_nar_size := cs_missing_nar_size s |}]> ws.

Definition record_scores (t : JobTracker) (worker_id : string) (scores : list CandidateScore)
    : JobTracker :=
  let worker_scores := default ∅ (jt_scores t !! worker_id) in
  with_scores t (<[worker_id := foldl insert_score worker_scores scores]> (jt_scores t)).

(** ** The decision ring *)

Definition push_decision (t : JobTracker) (decision : DispatchDecision) : JobTracker :=
  let ds := jt_decisions t in
  let ds := if (DECISION_RING_CAP <=? length ds)%nat then tail ds else ds in
  with_decisions t (ds ++ [decision]).

Definition recent_decisions (t : JobTracker) : list DispatchDecision := rev (jt_decisions t).

Definition detail_of (d : DispatchDecision) (c : DecisionCandidate) : CandidateDetail := {|
  cd_id := dc_id c;
  cd_kind := dc_kind c;
  cd_organization := dc_organization c;
  cd_derivation_build := dc_derivation_build c;
  cd_evaluation_id := dc_evaluation_id c;
  cd_pname := dc_pname c;
  cd_score := dc_score c;
  cd_won := dc_won c;
  cd_worker_id := dd_worker_id d;
  cd_scored_at := dd_at d;
  cd_queued_at := dc_queued_at c;
  cd_score_breakdown := dc_score_breakdown c;
  cd_worker_context := dd_worker_context d;
  cd_job_context := dc_job_context c;
  cd_instance_context := dd_instance_context d;
|}.

Fixpoint find_candidate (ds : list DispatchDecision) (id : DispatchedJobId) : option CandidateDetail :=
  match ds with
  | [] => None
  | d :: ds' =>
      match List.find (fun c => (dc_id c =? id)%N) (dd_candidates d) with
      | Some c => Some (detail_of d c)
      | None => find_candidate ds' id
      end
  end.

Definition candidate_detail (t : JobTracker) (id : DispatchedJobId) : option CandidateDetail :=
  find_candidate (rev (jt_decisions t)) id.

(** ** Scoring *)

Definition wins (sc : ScoredCandidate) : bool :=
  negb (sc_vetoed sc) && f64_ge (sc_total sc) DISPATCH_FLOOR.

Record OrgWorkShare := { by_org : gmap OrganizationId f64; ows_total : f64 }.

Definition share (self : OrgWorkShare) (org : OrganizationId) : option f32 :=
  if f64_gt (ows_total self) f64_zero
  then Some (f32_of_f64 (f64_div (default f64_zero (by_org self !! org)) (ows_total self)))
  else None.

(** [0.5] *)
Definition f64_half : f64 := f64_of_ratio 1 2.

Definition add_org_work (instance : InstanceContext) (acc : OrgWorkShare)
    (entry : string * (string * PendingJob)) : OrgWorkShare :=
  match entry.2.2 with
  | PendingEval _ => acc
  | PendingBuild b =>
      let w := if 0 <? build_time_ms (pb_history b) then f64_of_Z (build_time_ms (pb_history b))
               else f64_mul (if pb_prefer_local_build b then f64_half else f64_one)
                            (default f64_zero (w1h (ic_build_time_ms instance))) in
      {| by_org := <[pb_org_id b := f64_add (default f64_zero (by_org acc !! pb_org_id b)) w]> (by_org acc);
         ows_total := f64_add (ows_total acc) w |}
  end.

Definition org_work_shares (t : JobTracker) (policy : ScoringPolicy) (instance : InstanceContext)
    : OrgWorkShare :=
  let init := {| by_org := ∅; ows_total := f64_zero |} in
  if sp_uses_org_work_share policy
  then foldl (add_org_work instance) init (hash_iter (jt_active t))
  else init.

Definition kind_matches (kind : JobKind) (job : PendingJob) : bool :=
  match kind, job with
  | JobKindFlake, PendingEval _ | JobKindBuild, PendingBuild _ => true
  | _, _ => false
  end.

(** The job context of one candidate at scoring time. *)
Definition candidate_context (worker_scores : option (gmap string WorkerJobScore))
    (shares : OrgWorkShare) (now : NaiveDateTime) (id : string) (job : PendingJob) : JobContext :=
  let s := worker_scores ≫= (fun ws => ws !! id) in {|
    jc_job := scored_job_of id job;
    jc_missing_count := ws_missing_count <$> s;
    jc_missing_nar_size := ws_missing_nar_size <$> s;
    jc_dependency_count := dependency_count job;
    jc_queued_at := queued_at job;
    jc_ready_at := ready_at job;
    jc_org_work_share := share shares (org_id job);
    jc_rescore_count := rescore_count job;
    jc_now := now |}.

Definition score_candidate (policy : ScoringPolicy) (instance : InstanceContext)
    (worker_ctx : WorkerContext) (ctx : JobContext) (job : PendingJob) : ScoredCandidate :=
  let breakdown := sp_score_detailed policy ctx worker_ctx instance in {|
    sc_total := bd_total breakdown;
    sc_vetoed := match bd_vetoes breakdown with [] => false | _ => true end;
    sc_score_breakdown := default Null (breakdown_to_value breakdown);
    sc_job_context := default Null (job_to_value (JobContextView_new ctx job)) |}.

(** Highest score first; ties break on the smaller job id. *)
Definition candidate_cmp (a b : string * ScoredCandidate) : comparison :=
  match partial_cmp_or_eq (sc_total b.2) (sc_total a.2) with
  | Eq => String.compare a.1 b.1
  | c => c
  end.

Definition score_candidates (t : JobTracker) (worker_id : string)
    (authorized : option (gset OrganizationId)) (caps : option WorkerCaps) (kind : JobKind)
    (policy : ScoringPolicy) (instance : InstanceContext) (worker_ctx : WorkerContext)
    (now : NaiveDateTime) : list (string * ScoredCandidate) :=
  let worker_scores := jt_scores t !! worker_id in
  let shares := org_work_shares t policy instance in
  sort_by candidate_cmp
    (map (fun p => (p.1, score_candidate policy instance worker_ctx
                           (candidate_context worker_scores shares now p.1 p.2) p.2))
       (List.filter (fun p => kind_matches kind p.2) (eligible_for_worker t authorized caps))).

Definition decision_candidate (t : JobTracker) (fresh : nat -> DispatchedJobId)
    (winner : option string) (i : nat) (p : string * ScoredCandidate) : option DecisionCandidate :=
  job ← jt_pending t !! p.1;
  Some {| dc_id := fresh i;
          dc_job_id := p.1;
          dc_kind := i16_of_kind (kind_disc job);
          dc_organization := org_id job;
          dc_derivation_build := derivation_build job;
          dc_evaluation_id := evaluation_id job;
          dc_pname := job_pname job;
          dc_score := sc_total p.2;
          dc_won := bool_decide (winner = Some p.1);
          dc_queued_at := queued_at job;
          dc_score_breakdown := sc_score_breakdown p.2;
          dc_job_context := sc_job_context p.2 |}.

Definition record_decision (t : JobTracker) (fresh : nat -> DispatchedJobId) (at_ : NaiveDateTime)
    (worker_id : string) (kind : JobKind) (winner : option string)
    (scored : list (string * ScoredCandidate)) (worker_context instance_context : Value) : JobTracker :=
  let candidates :=
    omap id (imap (decision_candidate t fresh winner) (take CANDIDATES_PER_DECISION scored)) in
  match candidates with
  | [] => t
  | _ => push_decision t {|
      dd_at := at_;
      dd_worker_id := worker_id;
      dd_kind := i16_of_kind (match kind with JobKindFlake => KEval | JobKindBuild => KBuild end);
      dd_winner := winner;
      dd_worker_context := worker_context;
      dd_instance_context := instance_context;
      dd_candidates := candidates |}
  end.

Definition dispatch_record_for (t : JobTracker) (job_id : string) (sc : ScoredCandidate)
    (worker_context instance_context : Value) : option DispatchRecord :=
  job ← jt_pending t !! job_id;
  Some {|
    drec_kind := kind_disc job;
    drec_derivation_build := derivation_build job;
    drec_evaluation_id := evaluation_id job;
    drec_organization := org_id job;
    drec_project := match job with PendingEval e => pe_project_id e | PendingBuild _ => None end;
    drec_score := sc_total sc;
    drec_queued_at := queued_at job;
    drec_ready_at := ready_at job;
    drec_score_breakdown := sc_score_breakdown sc;
    drec_worker_context := worker_context;
    drec_job_context := sc_job_context sc;
    drec_instance_context := instance_context;
    drec_substitute := match job with PendingBuild b => pb_substitute b | PendingEval _ => false end;
    drec_build_context := match job with
      | PendingBuild b => build_json {|
          bv_architecture := pb_architecture b;
          bv_required_features := pb_required_features b;
          bv_dependency_count := pb_dependency_count b;
          bv_closure_size := pb_closure_size b;
          bv_prefer_local_build := pb_prefer_local_build b;
          bv_is_fixed_output := pb_is_fixed_output b;
          bv_substitute := pb_substitute b |}
      | PendingEval _ => EmptyObject
      end |}.

(** ** Assignment *)

Definition forget_score (t : JobTracker) (worker_id job_id : string) : JobTracker :=
  match jt_scores t !! worker_id with
  | Some ws => with_scores t (<[worker_id := delete job_id ws]> (jt_scores t))
  | None => t
  end.

Definition assign_pending (t : JobTracker) (worker_id job_id : string)
    : JobTracker * option Assignment :=
  match jt_pending t !! job_id with
  | None => (t, None)
  | Some job =>
      let t := with_pending t (delete job_id (jt_pending t)) in
      let t := forget_score t worker_id job_id in
      let assignment := {| as_job_id := job_id; as_job := into_job job;
                           as_org_id := org_id job; as_dispatch_record := None |} in
      (with_active t (<[job_id := (worker_id, job)]> (jt_active t)), Some assignment)
  end.

Definition set_dispatch_record (a : Assignment) (r : option DispatchRecord) : Assignment :=
  {| as_job_id := as_job_id a; as_job := as_job a; as_org_id := as_org_id a;
     as_dispatch_record := r |}.

(** The job that [take_best_of_kind] picks from the sorted candidates. *)
Definition winner_of (scored : list (string * ScoredCandidate)) : option string :=
  match scored with
  | p :: _ => if wins p.2 then Some p.1 else None
  | [] => None
  end.

Definition take_best_of_kind (t : JobTracker) (fresh : nat -> DispatchedJobId)
    (now at_ : NaiveDateTime) (worker_id : string)
    (authorized : option (gset OrganizationId)) (caps : option WorkerCaps) (kind : JobKind)
    (policy : ScoringPolicy) (instance : InstanceContext) : JobTracker * option Assignment :=
  let worker_ctx := worker_context_of caps in
  let scored := score_candidates t worker_id authorized caps kind policy instance worker_ctx now in
  let winner_id := winner_of scored in
  let worker_context := default Null (worker_to_value
    (WorkerContextView_new worker_ctx (default capabilities_default (caps_capabilities <$> caps)))) in
  let instance_context := default Null (instance_to_value instance) in
  let t := record_decision t fresh at_ worker_id kind winner_id scored worker_context instance_context in
  match winner_id, scored with
  | Some job_id, (_, winner_sc) :: _ =>
      let dispatch_record := dispatch_record_for t job_id winner_sc worker_context instance_context in
      let '(t, assignment) := assign_pending t worker_id job_id in
      (t, (fun a => set_dispatch_record a dispatch_record) <$> assignment)
  | _, _ => (t, None)
  end.

(** ** Releasing and removing *)

Definition release_to_pending (t : JobTracker) (job_id : string) : JobTracker :=
  match jt_active t !! job_id with
  | Some (_, job) =>
      let t := with_active t (delete job_id (jt_active t)) in
      with_pending t (<[job_id := job]> (jt_pending t))
  | None => t
  end.

Definition forget_job_scores (t : JobTracker) (job_id : string) : JobTracker :=
  with_scores t (delete job_id <$> jt_scores t).

Definition remove_active (t : JobTracker) (job_id : string) : JobTracker * option PendingJob :=
  let t := forget_job_scores t job_id in
  (with_active t (delete job_id (jt_active t)), snd <$> jt_active t !! job_id).

Definition active_job (t : JobTracker) (job_id : string) : option PendingJob :=
  snd <$> jt_active t !! job_id.

Definition active_eval_job (t : JobTracker) (job_id : string) : option PendingEvalJob :=
  match active_job t job_id with Some (PendingEval j) => Some j | _ => None end.

Definition active_build_job (t : JobTracker) (job_id : string) : option PendingBuildJob :=
  match active_job t job_id with Some (PendingBuild j) => Some j | _ => None end.

Definition pending_job (t : JobTracker) (job_id : string) : option PendingJob :=
  jt_pending t !! job_id.

(** Move the listed active jobs back to pending. *)
Definition requeue_all (t : JobTracker) (ids : list string) : JobTracker :=
  foldl release_to_pending t ids.

Definition drain_peer_jobs_on_worker (t : JobTracker) (worker_id : string)
    (revoked_peers : gset OrganizationId) : JobTracker * list string :=
  let to_requeue := map fst (List.filter
    (fun p => (p.2.1 =? worker_id)%string && bool_decide (org_id p.2.2 ∈ revoked_peers))
    (hash_iter (jt_active t))) in
  (requeue_all t to_requeue, to_requeue).

(** One turn of the loop of [worker_disconnected]. *)
Definition requeue_orphan (acc : JobTracker * list PendingJob) (job_id : string)
    : JobTracker * list PendingJob :=
  let '(t, requeued) := acc in
  match jt_active t !! job_id with
  | Some (_, job) => (release_to_pending t job_id, requeued ++ [job])
  | None => (t, requeued)
  end.

Definition worker_disconnected (t : JobTracker) (worker_id : string) : JobTracker * list PendingJob :=
  let t := with_scores t (delete worker_id (jt_scores t)) in
  let orphaned := map fst (List.filter (fun p => (p.2.1 =? worker_id)%string) (hash_iter (jt_active t))) in
  foldl requeue_orphan (t, []) orphaned.

Definition remove_job (t : JobTracker) (job_id : string) : JobTracker :=
  let t := forget_job_scores t job_id in
  let t := with_pending t (delete job_id (jt_pending t)) in
  with_active t (delete job_id (jt_active t)).

Definition remove_pending_job (t : JobTracker) (job_id : string) : JobTracker :=
  forget_job_scores (with_pending t (delete job_id (jt_pending t))) job_id.

Definition remove_pending_for_evaluation (t : JobTracker) (eval : EvaluationId) : JobTracker :=
  let removed := map fst (List.filter (fun p => (evaluation_id p.2 =? eval)%N) (hash_iter (jt_pending t))) in
  foldl remove_pending_job t removed.

Definition bump_rescore_counts (t : JobTracker) : JobTracker :=
  with_pending t ((fun j => set_rescore_count j (u32 (rescore_count j + 1))) <$> jt_pending t).

(** ** Snapshots *)

Definition active_jobs (t : JobTracker) : list (string * string * PendingJob) :=
  map (fun p => (p.1, p.2.1, p.2.2)) (hash_iter (jt_active t)).

Definition board_active_job (entry : string * string * PendingJob) : BoardActiveJob :=
  let '(_, worker_id, job) := entry in
  {| ba_worker_id := worker_id;
     ba_organization := org_id job;
     ba_kind := kind_disc job;
     ba_architecture := match job with PendingBuild b => Some (pb_architecture b) | _ => None end;
     ba_required_features := match job with PendingBuild b => pb_required_features b | _ => [] end;
     ba_fetch_task := match job with
       | PendingEval e => contains_task (fj_tasks (pe_job e)) FetchFlake | _ => false end;
     ba_eval_task := match job with
       | PendingEval e => existsb is_eval_task (fj_tasks (pe_job e)) | _ => false end |}.

Definition board_active_jobs (t : JobTracker) : list BoardActiveJob :=
  map board_active_job (active_jobs t).

Definition pending_count (t : JobTracker) : nat := size (jt_pending t).
Definition active_count (t : JobTracker) : nat := size (jt_active t).
Definition has_pending (t : JobTracker) : bool := negb (bool_decide (jt_pending t = ∅)).

Definition pending_info (job : PendingJob) : PendingJobInfo := {|
  pi_kind := kind_disc job;
  pi_evaluation_id := evaluation_id job;
  pi_derivation_build := derivation_build job;
  pi_organization := org_id job;
  pi_queued_at := queued_at job;
  pi_dependency_count := dependency_count job;
  pi_pname := job_pname job;
|}.

Definition pending_snapshot (t : JobTracker) : list PendingJobInfo :=
  map (fun p => pending_info p.2) (hash_iter (jt_pending t)).

Definition is_build (j : PendingJob) : bool := match j with PendingBuild _ => true | _ => false end.

Definition instance_counts (t : JobTracker) : Z * Z :=
  (u32 (Z.of_nat (length (List.filter (fun p => is_build p.2.2) (hash_iter (jt_active t))))),
   u32 (Z.of_nat (length (List.filter (fun p => is_build p.2) (hash_iter (jt_pending t)))))).
End tracker.
