(* ===== verification/TrackerFacts.v ===== *)
(** * The job tracker: correctness

    Every operation as a step, the invariant, the exact effect of requeueing, and
    the soundness, optimality and determinism of assignment. *)

From S2P Require Import Prelude Float FloatBounds RustStr ScoreContext ScoreRules ScoreBounds ScorePolicy Proto JobData JobTracker.

Local Open Scope Z_scope.

Section facts.
Context `{CH : Chrono} {SD : Serde}.

(** ** Iteration *)

Lemma hash_iter_elem {HO : HashOrder} {K A} `{Countable K} (m : gmap K A) p :
  p ∈ hash_iter m <-> m !! p.1 = Some p.2.
Proof. destruct p. by rewrite hash_iter_perm, elem_of_map_to_list. Qed.

Lemma hash_iter_NoDup {HO : HashOrder} {K A} `{Countable K} (m : gmap K A) :
  NoDup (hash_iter m).*1.
Proof. rewrite hash_iter_perm. apply NoDup_fst_map_to_list. Qed.

Lemma list_filter_perm {A} (f : A -> bool) l l' :
  l ≡ₚ l' -> List.filter f l ≡ₚ List.filter f l'.
Proof.
  induction 1; simpl; try done.
  - case_match; [by constructor|done].
  - repeat case_match; try done. constructor.
  - by etrans.
Qed.

Lemma filter_keys_elem {HO : HashOrder} {K A} `{Countable K} (m : gmap K A) f k :
  k ∈ map fst (List.filter f (hash_iter m)) <-> exists a, m !! k = Some a /\ f (k, a) = true.
Proof.
  change (map fst) with (fmap (M := list) (@fst K A)). rewrite list_elem_of_fmap. split.
  - intros ([k' a] & -> & Hin%list_elem_of_In). apply List.filter_In in Hin as [Hin Hf].
    apply list_elem_of_In, hash_iter_elem in Hin. eauto.
  - intros (a & Hm & Hf). exists (k, a). split; [done|]. apply list_elem_of_In, List.filter_In.
    split; [|done]. by apply list_elem_of_In, hash_iter_elem.
Qed.

(** ** Requeueing *)

Lemma decide_cons {A B} `{EqDecision A} (x y : A) l (a b : B) :
  (if decide (x ∈ y :: l) then a else b) =
  if decide (x ∈ l) then a else if decide (x = y) then a else b.
Proof.
  destruct (decide (x ∈ l)), (decide (x = y)).
  all: first [rewrite decide_True by (rewrite elem_of_cons; tauto)
             |rewrite decide_False by (rewrite elem_of_cons; tauto)]; done.
Qed.

Lemma requeue_all_spec t ids :
  (forall id, jt_active (requeue_all t ids) !! id =
     if decide (id ∈ ids) then None else jt_active t !! id) /\
  (forall id, jt_pending (requeue_all t ids) !! id =
     if decide (id ∈ ids) then (snd <$> jt_active t !! id) ∪ jt_pending t !! id
     else jt_pending t !! id) /\
  jt_scores (requeue_all t ids) = jt_scores t /\
  jt_decisions (requeue_all t ids) = jt_decisions t.
Proof.
  unfold requeue_all. revert t. induction ids as [|i ids IH]; intros t; simpl.
  { by split_and!. }
  destruct (IH (release_to_pending t i)) as (Ha & Hp & Hs & Hd).
  assert (Hact : forall id, jt_active (release_to_pending t i) !! id =
    if decide (id = i) then None else jt_active t !! id).
  { intros id. unfold release_to_pending. destruct (jt_active t !! i) as [[w j]|] eqn:E; simpl.
    - case_decide; by simplify_map_eq.
    - case_decide; by subst. }
  assert (Hpen : forall id, jt_pending (release_to_pending t i) !! id =
    if decide (id = i) then (snd <$> jt_active t !! id) ∪ jt_pending t !! id
    else jt_pending t !! id).
  { intros id. unfold release_to_pending. destruct (jt_active t !! i) as [[w j]|] eqn:E; simpl.
    - case_decide; subst; simplify_map_eq; [|done]. by destruct (jt_pending t !! i).
    - case_decide; subst; [|done]. rewrite E. by destruct (jt_pending t !! i). }
  split_and!.
  - intros id. rewrite Ha, Hact, decide_cons. by destruct (decide (id ∈ ids)), (decide (id = i)).
  - intros id. rewrite Hp, Hpen, Hact, decide_cons.
    destruct (decide (id ∈ ids)), (decide (id = i)); simpl; try done.
    by destruct (jt_active t !! id), (jt_pending t !! id).
  - rewrite Hs. unfold release_to_pending. by repeat case_match.
  - rewrite Hd. unfold release_to_pending. by repeat case_match.
Qed.

(** [worker_disconnected] requeues as [requeue_all] does, and collects the jobs. *)
Lemma requeue_orphans_spec t acc ids :
  NoDup ids ->
  foldl requeue_orphan (t, acc) ids =
    (requeue_all t ids, acc ++ omap (fun id => snd <$> jt_active t !! id) ids).
Proof.
  revert t acc. induction ids as [|i ids IH]; intros t acc Hnd; simpl.
  { by rewrite app_nil_r. }
  apply NoDup_cons in Hnd as [Hi Hnd].
  assert (Hother : omap (fun id => snd <$> jt_active (release_to_pending t i) !! id) ids =
                   omap (fun id => snd <$> jt_active t !! id) ids).
  { apply list_omap_ext. apply Forall_Forall2_diag, Forall_forall. intros id Hid.
    unfold release_to_pending. destruct (jt_active t !! i) as [[w j]|] eqn:E; simpl; [|done].
    rewrite lookup_delete_ne; [done|]. by intros ->. }
  destruct (jt_active t !! i) as [[w j]|] eqn:E; simpl.
  - rewrite IH by done. rewrite Hother, <- app_assoc. done.
  - rewrite IH by done. unfold release_to_pending. by rewrite E.
Qed.

(** Forgetting scores touches nothing but the scores. *)
Lemma remove_pending_jobs_spec t ids :
  let t' := foldl remove_pending_job t ids in
  (forall id, jt_pending t' !! id = if decide (id ∈ ids) then None else jt_pending t !! id) /\
  jt_active t' = jt_active t /\ jt_decisions t' = jt_decisions t /\
  (forall w ws id, jt_scores t' !! w = Some ws -> id ∈ ids -> ws !! id = None).
Proof.
  assert (Hkeep : forall ids t w ws id, 
    (forall w0 ws0, jt_scores t !! w0 = Some ws0 -> ws0 !! id = None) ->
    jt_scores (foldl remove_pending_job t ids) !! w = Some ws -> ws !! id = None).
  { clear. intros ids. induction ids as [|i ids IH]; intros t w ws id Ht; simpl; [by apply Ht|].
    apply IH. intros w0 ws0. unfold remove_pending_job, forget_job_scores. simpl.
    rewrite lookup_fmap. destruct (jt_scores t !! w0) as [ws1|] eqn:E; simpl; [|done].
    intros [= <-]. destruct (decide (i = id)) as [->|]; simplify_map_eq; [done|by eapply Ht]. }
  revert t. induction ids as [|i ids IH]; intros t; simpl.
  { split_and!; try done. intros. set_solver. }
  destruct (IH (remove_pending_job t i)) as (Hp & Ha & Hd & Hs). split_and!.
  - intros id. rewrite Hp, decide_cons. simpl.
    destruct (decide (id ∈ ids)), (decide (id = i)); subst; by simplify_map_eq.
  - by rewrite Ha.
  - by rewrite Hd.
  - intros w ws id Hws [->|Hin]%elem_of_cons; [|by eapply Hs].
    eapply Hkeep; [|exact Hws]. intros w0 ws0. unfold remove_pending_job, forget_job_scores. simpl.
    rewrite lookup_fmap. destruct (jt_scores t !! w0); simpl; [|done]. intros [= <-]. by simplify_map_eq.
Qed.

(** ** The sorted candidates *)

Section scored.
Context (t : JobTracker) (worker_id : string) (authorized : option (gset OrganizationId))
  (caps : option WorkerCaps) (kind : JobKind) (instance : InstanceContext) (now : NaiveDateTime).

(** What the tracker's inputs are in the running program: widths of the machine
    integers, and rates that are fractions. *)
Record sane_job_data (j : PendingJob) : Prop := {
  sj_deps : in_u32 (dependency_count j);
  sj_hist : sane_history (sj_history (scored_job_of "" j));
}.

Record sane_tracker : Prop := {
  st_jobs id j : jt_pending t !! id = Some j -> sane_job_data j;
  st_scores ws id s : jt_scores t !! worker_id = Some ws -> ws !! id = Some s ->
    in_u32 (ws_missing_count s) /\ in_u64 (ws_missing_nar_size s);
  st_worker : sane_worker (worker_context_of caps);
  st_instance : sane_instance instance;
}.

(** A pending job this worker may be given in answer to a request of [kind]. *)
Definition dispatchable (id : string) (job : PendingJob) : Prop :=
  jt_pending t !! id = Some job /\ authorized_for authorized job = true /\
  job_eligible_for_caps job caps = true /\ kind_matches kind job = true.

Definition entry `{HO : HashOrder} (policy : ScoringPolicy) (p : string * PendingJob)
    : string * ScoredCandidate :=
  (p.1, score_candidate policy instance (worker_context_of caps)
    (candidate_context (jt_scores t !! worker_id) (org_work_shares t policy instance) now p.1 p.2) p.2).

Definition unsorted `{HO : HashOrder} (policy : ScoringPolicy) : list (string * ScoredCandidate) :=
  map (entry policy) (List.filter (fun p => kind_matches kind p.2)
    (eligible_for_worker t authorized caps)).

Lemma unsorted_elem `{HO : HashOrder} policy p :
  p ∈ unsorted policy <-> exists job, dispatchable p.1 job /\ p = entry policy (p.1, job).
Proof.
  unfold unsorted, eligible_for_worker. change (map (entry policy)) with (fmap (M := list) (entry policy)).
  rewrite list_elem_of_fmap. split.
  - intros ([id job] & -> & Hin%list_elem_of_In). apply List.filter_In in Hin as [Hin Hk].
    apply List.filter_In in Hin as [Hin [Ha Hc]%andb_true_iff].
    apply list_elem_of_In, hash_iter_elem in Hin. simpl in *. exists job. done.
  - intros (job & (Hp & Ha & Hc & Hk) & ->). exists (p.1, job). split; [done|].
    apply list_elem_of_In, List.filter_In; split; [|done]. apply List.filter_In; split.
    + by apply list_elem_of_In, hash_iter_elem.
    + by rewrite andb_true_iff.
Qed.

Lemma known_policy_shares `{HO : HashOrder} name :
  org_work_shares t (policy_by_name name) instance = {| by_org := ∅; ows_total := f64_zero |}.
Proof. unfold org_work_shares. by rewrite policy_no_share. Qed.

Lemma entry_not_nan `{HO : HashOrder} name id job :
  sane_tracker -> jt_pending t !! id = Some job ->
  is_nan (sc_total (entry (policy_by_name name) (id, job)).2) = false.
Proof.
  intros Ht Hid. eapply mag_not_nan, policy_breakdown_mag. split; [|split; apply Ht].
  rewrite known_policy_shares. pose proof (st_jobs Ht id job Hid) as Hj.
  assert (Hs : forall s, (jt_scores t !! worker_id ≫= fun ws => ws !! id) = Some s ->
    in_u32 (ws_missing_count s) /\ in_u64 (ws_missing_nar_size s)).
  { intros s Hs. destruct (jt_scores t !! worker_id) as [ws|] eqn:E; simpl in Hs; [|done].
    by eapply (st_scores Ht). }
  split; simpl.
  - destruct (_ ≫= _) as [s|]; simpl; [|done]. by apply Hs.
  - destruct (_ ≫= _) as [s|]; simpl; [|done]. by apply Hs.
  - apply Hj.
  - done.
  - destruct Hj as [_ Hh]. by destruct job.
Qed.

(** The comparator is a total order on the scored candidates of one request. *)
Definition scored_entry `{HO : HashOrder} (name : string) (p : string * ScoredCandidate) : Prop :=
  exists job, jt_pending t !! p.1 = Some job /\ p = entry (policy_by_name name) (p.1, job).

Lemma candidate_cmp_total `{HO : HashOrder} name :
  sane_tracker -> total_on candidate_cmp (scored_entry name).
Proof.
  intros Ht.
  assert (Hnan : forall p, scored_entry name p -> is_nan (sc_total p.2) = false).
  { intros p (job & Hp & ->). by apply entry_not_nan. }
  assert (Hpre : preorder_on (scored_entry name) candidate_cmp).
  { apply (then_with_preorder (fun a b => partial_cmp_or_eq (sc_total b.2) (sc_total a.2))
      (fun a b => String.compare a.1 b.1)).
    - split.
      + intros x y Hx%Hnan Hy%Hnan. rewrite !partial_cmp_key by done. by rewrite lex3_flip.
      + intros x y z Hx%Hnan Hy%Hnan Hz%Hnan. unfold not_gt. rewrite !partial_cmp_key by done.
        intros Hxy Hyz. by eapply lex3_trans.
    - split.
      + intros x y _ _. apply String.compare_antisym.
      + intros x y z _ _ _. apply string_compare_trans. }
  split; [apply Hpre|apply Hpre|].
  intros [i x] [j y] (job & Hi & Hx) (job' & Hj & Hy) Hc. simpl in *.
  unfold candidate_cmp in Hc. case_match; try done.
  apply String.compare_eq_iff in Hc. simpl in Hc. subst j.
  by rewrite Hx, Hy, Hi in *; simplify_eq.
Qed.

Lemma unsorted_scored `{HO : HashOrder} name :
  Forall (scored_entry name) (unsorted (policy_by_name name)).
Proof.
  apply Forall_forall. intros p (job & (Hp & _) & Heq)%unsorted_elem. by exists job.
Qed.
End scored.
End facts.
