(* ===== verification/Dispatch.v ===== *)
(** * Dispatching: what [take_best_of_kind] assigns

    Soundness, optimality, completeness and determinism of the only assignment path
    of the scheduler. *)

From S2P Require Import Prelude Float FloatBounds RustStr ScoreContext ScoreRules ScoreBounds ScorePolicy Proto JobData JobTracker TrackerFacts.

Local Open Scope Z_scope.

Section dispatch.
Context `{CH : Chrono} {SD : Serde}.

(** ** Frames *)

Lemma record_decision_frame t fresh at_ w kind winner scored wc ic :
  let t' := record_decision t fresh at_ w kind winner scored wc ic in
  jt_pending t' = jt_pending t /\ jt_scores t' = jt_scores t /\ jt_active t' = jt_active t.
Proof. unfold record_decision. by case_match. Qed.

Definition drop_score (t : JobTracker) (worker_id job_id : string)
    : gmap string (gmap string WorkerJobScore) :=
  alter (delete job_id) worker_id (jt_scores t).

Lemma assign_pending_spec t worker_id id job :
  jt_pending t !! id = Some job ->
  assign_pending t worker_id id =
    ({| jt_pending := delete id (jt_pending t);
        jt_scores := drop_score t worker_id id;
        jt_active := <[id := (worker_id, job)]> (jt_active t);
        jt_decisions := jt_decisions t |},
     Some {| as_job_id := id; as_job := into_job job; as_org_id := org_id job;
             as_dispatch_record := None |}).
Proof.
  intros Hp. unfold assign_pending. rewrite Hp. unfold forget_score, drop_score. simpl.
  destruct (jt_scores t !! worker_id) as [ws|] eqn:E; simpl; unfold with_active, with_pending, with_scores; simpl; do 3 f_equal.
  - apply map_eq. intros w. destruct (decide (w = worker_id)) as [->|]; by simplify_map_eq.
  - apply map_eq. intros w. destruct (decide (w = worker_id)) as [->|]; by simplify_map_eq.
Qed.

Section request.
Context (t : JobTracker) (fresh : nat -> DispatchedJobId) (now at_ : NaiveDateTime)
  (worker_id : string) (authorized : option (gset OrganizationId))
  (caps : option WorkerCaps) (kind : JobKind) (instance : InstanceContext).

Abbreviation take policy :=
  (take_best_of_kind t fresh now at_ worker_id authorized caps kind policy instance).
Abbreviation can_take := (dispatchable t authorized caps kind).

(** The scored candidate of a pending job in this request. *)
Definition scored_as `{HO : HashOrder} policy id job : ScoredCandidate :=
  (entry t worker_id caps instance now policy (id, job)).2.

Lemma scored_eq `{HO : HashOrder} policy :
  score_candidates t worker_id authorized caps kind policy instance (worker_context_of caps) now =
  sort_by candidate_cmp (unsorted t worker_id authorized caps kind instance now policy).
Proof. reflexivity. Qed.

Lemma winner_of_Some scored id :
  winner_of scored = Some id <-> exists sc l, scored = (id, sc) :: l /\ wins sc = true.
Proof.
  destruct scored as [|[i sc] l]; simpl; [naive_solver|].
  destruct (wins sc) eqn:E; split.
  - intros [= <-]. eauto.
  - by intros (? & ? & [= <- <- <-] & _).
  - done.
  - intros (? & ? & [= <- <- <-] & ?). congruence.
Qed.

(** What an answered request did, and what an unanswered one left alone. *)
Lemma take_some `{HO : HashOrder} policy t' a :
  take policy = (t', Some a) ->
  exists job l, sort_by candidate_cmp (unsorted t worker_id authorized caps kind instance now policy)
      = (as_job_id a, scored_as policy (as_job_id a) job) :: l /\
    can_take (as_job_id a) job /\ wins (scored_as policy (as_job_id a) job) = true /\
    jt_pending t' = delete (as_job_id a) (jt_pending t) /\
    jt_active t' = <[as_job_id a := (worker_id, job)]> (jt_active t) /\
    jt_scores t' = drop_score t worker_id (as_job_id a) /\
    as_job a = into_job job /\ as_org_id a = org_id job /\
    (drec_score <$> as_dispatch_record a) = Some (sc_total (scored_as policy (as_job_id a) job)).
Proof.
  unfold take_best_of_kind. rewrite scored_eq. set (scored := sort_by _ _).
  destruct (winner_of scored) as [id|] eqn:Hw; [|done].
  apply winner_of_Some in Hw as (sc & l & Hsc & Hwin). rewrite Hsc. intros Ht.
  match type of Ht with context [record_decision ?a ?b ?c ?d ?e ?f ?g ?h ?i] =>
    pose proof (record_decision_frame a b c d e f g h i) as (Hp & Hs & Ha);
    set (t1 := record_decision a b c d e f g h i) in * end.
  assert (Hin : (id, sc) ∈ unsorted t worker_id authorized caps kind instance now policy).
  { rewrite <- (sort_by_elem candidate_cmp). fold scored. rewrite Hsc. left. }
  apply unsorted_elem in Hin as (job & Hd & Heq). simpl in Hd.
  assert (sc = scored_as policy id job) as -> by (by apply (f_equal snd) in Heq).
  assert (Hpid : jt_pending t1 !! id = Some job) by (rewrite Hp; apply Hd).
  rewrite (assign_pending_spec _ _ _ job) in Ht by done.
  unfold dispatch_record_for in Ht. rewrite Hpid in Ht. injection Ht as <- <-. simpl.
  exists job, l. unfold drop_score. by rewrite Hp, Hs, Ha.
Qed.

Lemma take_none `{HO : HashOrder} policy t' :
  take policy = (t', None) ->
  winner_of (sort_by candidate_cmp (unsorted t worker_id authorized caps kind instance now policy))
    = None /\
  jt_pending t' = jt_pending t /\ jt_scores t' = jt_scores t /\ jt_active t' = jt_active t.
Proof.
  unfold take_best_of_kind. rewrite scored_eq. set (scored := sort_by _ _).
  destruct (winner_of scored) as [id|] eqn:Hw.
  - pose proof (proj1 (winner_of_Some _ _) Hw) as (sc & l & Hsc & Hwin). rewrite Hsc.
    assert (Hin : (id, sc) ∈ unsorted t worker_id authorized caps kind instance now policy).
    { rewrite <- (sort_by_elem candidate_cmp). fold scored. rewrite Hsc. left. }
    apply unsorted_elem in Hin as (job & (Hd & _) & _). simpl in Hd.
    intros Ht.
    match type of Ht with context [record_decision ?a ?b ?c ?d ?e ?f ?g ?h ?i] =>
      pose proof (record_decision_frame a b c d e f g h i) as (Hp & _);
      set (t1 := record_decision a b c d e f g h i) in * end.
    rewrite (assign_pending_spec _ _ _ job) in Ht by by rewrite Hp. done.
  - intros Ht. assert (Ht' : t' = (let '(x, _) := (t', None : option Assignment) in x)) by done.
    rewrite <- Ht in Ht'. subst t'. split; [done|].
    destruct scored; apply record_decision_frame.
Qed.

(** The head of the sorted candidates beats every other one. *)
Lemma head_best `{HO : HashOrder} name id sc l :
  sane_tracker t worker_id caps instance ->
  sort_by candidate_cmp
    (unsorted t worker_id authorized caps kind instance now (policy_by_name name)) = (id, sc) :: l ->
  forall id' job', can_take id' job' ->
  candidate_cmp (id, sc) (id', scored_as (policy_by_name name) id' job') ≠ Gt.
Proof.
  intros Ht Hsort id' job' Hd.
  eapply (sort_by_head candidate_cmp (candidate_cmp_total t worker_id caps instance now name Ht));
    [|exact Hsort|].
  - apply unsorted_scored.
  - apply unsorted_elem. exists job'. done.
Qed.
End request.

(** ** Properties *)

(** C1. An assigned job is one the request may be given: it was pending, the worker
    is authorized for its organization and capable of it, it has the requested
    kind, no rule vetoed it and its total reaches the dispatch floor. The job
    leaves the pending queue for the active map under this worker, only its own
    score entry is dropped, and the recorded score is the one it was chosen by. *)
Theorem take_best_sound `{HO : HashOrder} t fresh now at_ w authorized caps kind policy instance t' a :
  take_best_of_kind t fresh now at_ w authorized caps kind policy instance = (t', Some a) ->
  exists job,
    let sc := scored_as t now w caps instance policy (as_job_id a) job in
    dispatchable t authorized caps kind (as_job_id a) job /\
    sc_vetoed sc = false /\ f64_ge (sc_total sc) DISPATCH_FLOOR = true /\
    jt_pending t' = delete (as_job_id a) (jt_pending t) /\
    jt_active t' = <[as_job_id a := (w, job)]> (jt_active t) /\
    jt_scores t' = alter (delete (as_job_id a)) w (jt_scores t) /\
    as_job a = into_job job /\ as_org_id a = org_id job /\
    (drec_score <$> as_dispatch_record a) = Some (sc_total sc).
Proof.
  intros (job & l & _ & Hd & Hw & H)%take_some. exists job.
  unfold wins in Hw. apply andb_true_iff in Hw as [Hv Hf]. apply negb_true_iff in Hv.
  split_and!; try done; apply H.
Qed.

(** C2. Under every configurable policy the assigned job is the best: any other job
    the request could be given scores strictly less, or the same with a larger job
    id. *)
Theorem take_best_optimal `{HO : HashOrder} t fresh now at_ w authorized caps kind name instance t' a :
  sane_tracker t w caps instance ->
  take_best_of_kind t fresh now at_ w authorized caps kind (policy_by_name name) instance
    = (t', Some a) ->
  forall job id' job',
  jt_pending t !! as_job_id a = Some job ->
  dispatchable t authorized caps kind id' job' -> id' ≠ as_job_id a ->
  let total i j := sc_total (scored_as t now w caps instance (policy_by_name name) i j) in
  f64_lt (total id' job') (total (as_job_id a) job) = true \/
  (SFcompare (total id' job') (total (as_job_id a) job) = Some Eq /\
   String.compare (as_job_id a) id' = Lt).
Proof.
  intros Ht Htake job id' job' Hj Hd Hne.
  apply take_some in Htake as (job0 & l & Hsort & Hd0 & _).
  destruct Hd0 as [Hj0 _]. rewrite Hj0 in Hj. injection Hj as ->.
  pose proof (head_best t now w authorized caps kind instance name _ _ _ Ht Hsort id' job' Hd) as Hb.
  unfold candidate_cmp in Hb. cbn [fst snd] in Hb.
  set (x := sc_total _) in Hb. set (y := sc_total _) in Hb. cbv beta zeta. fold x y.
  assert (Hx : is_nan x = false) by (apply (entry_not_nan t w caps instance now name); [done|apply Hd]).
  assert (Hy : is_nan y = false) by by apply (entry_not_nan t w caps instance now name).
  rewrite partial_cmp_key in Hb by done. unfold f64_lt, SFltb. rewrite SFcompare_key by done.
  destruct (lex3 (okey x) (okey y)); [right; split; [done|]|by left|done].
  pose proof (String.compare_eq_iff (as_job_id a) id').
  destruct (String.compare _ _); [naive_solver|done|done].
Qed.

(** A request that is answered with nothing leaves the pending, active and score
    maps untouched, and every job it could have been given that would win on its
    own was outranked by a vetoed one: a veto at the top of the ranking holds the
    worker back for the whole round. *)
Theorem take_best_none `{HO : HashOrder} t fresh now at_ w authorized caps kind name instance t' :
  sane_tracker t w caps instance ->
  take_best_of_kind t fresh now at_ w authorized caps kind (policy_by_name name) instance
    = (t', None) ->
  jt_pending t' = jt_pending t /\ jt_scores t' = jt_scores t /\ jt_active t' = jt_active t /\
  forall id job, dispatchable t authorized caps kind id job ->
  let sc i j := scored_as t now w caps instance (policy_by_name name) i j in
  wins (sc id job) = true ->
  exists id' job', dispatchable t authorized caps kind id' job' /\
    sc_vetoed (sc id' job') = true /\
    f64_le (sc_total (sc id job)) (sc_total (sc id' job')) = true.
Proof.
  intros Ht Htake. apply take_none in Htake as (Hw & Hp & Hs & Ha).
  split_and!; try done. intros id job Hd sc Hwin.
  destruct (sort_by candidate_cmp _) as [|[i0 sc0] l] eqn:Hsort.
  { assert (Hin : (id, sc id job) ∈ sort_by candidate_cmp
      (unsorted t w authorized caps kind instance now (policy_by_name name))).
    { rewrite (sort_by_elem candidate_cmp). apply unsorted_elem. by exists job. }
    rewrite Hsort in Hin. by apply not_elem_of_nil in Hin. }
  pose proof (head_best t now w authorized caps kind instance name _ _ _ Ht Hsort id job Hd) as Hb.
  assert (Hin : (i0, sc0) ∈ unsorted t w authorized caps kind instance now (policy_by_name name)).
  { rewrite <- (sort_by_elem candidate_cmp), Hsort. left. }
  apply unsorted_elem in Hin as (job0 & Hd0 & Heq). simpl in Hd0.
  assert (sc0 = sc i0 job0) as -> by by apply (f_equal snd) in Heq.
  exists i0, job0. split; [done|].
  assert (Hx : is_nan (sc_total (sc id job)) = false)
    by (apply (entry_not_nan t w caps instance now name); [done|apply Hd]).
  assert (Hy : is_nan (sc_total (sc i0 job0)) = false)
    by (apply (entry_not_nan t w caps instance now name); [done|apply Hd0]).
  assert (Hle : f64_le (sc_total (sc id job)) (sc_total (sc i0 job0)) = true).
  { rewrite f64_le_key by done. unfold candidate_cmp in Hb. cbn [fst snd] in Hb.
    fold (sc id job) in Hb.
    rewrite partial_cmp_key in Hb by done. by destruct (lex3 _ _). }
  split; [|done]. cbn [winner_of fst snd] in Hw. unfold wins, f64_ge in *.
  apply andb_true_iff in Hwin as [_ Hf]. pose proof (f64_le_trans _ _ _ Hf Hle) as Hge.
  destruct (sc_vetoed (sc i0 job0)); [done|]. unfold f64_le in Hge. by rewrite Hge in Hw.
Qed.

(** Under every configurable policy the answer to a request, and the state it
    leaves, do not depend on the order in which the hash maps iterate. *)
Theorem take_best_deterministic (HO1 HO2 : HashOrder) t fresh now at_ w authorized caps kind name instance :
  sane_tracker t w caps instance ->
  take_best_of_kind (HO := HO1) t fresh now at_ w authorized caps kind (policy_by_name name) instance =
  take_best_of_kind (HO := HO2) t fresh now at_ w authorized caps kind (policy_by_name name) instance.
Proof.
  intros Ht. unfold take_best_of_kind. rewrite !scored_eq.
  assert (sort_by candidate_cmp (unsorted (HO := HO1) t w authorized caps kind instance now (policy_by_name name)) =
          sort_by candidate_cmp (unsorted (HO := HO2) t w authorized caps kind instance now (policy_by_name name))) as ->;
    [|done].
  apply (sort_by_perm_eq _ (candidate_cmp_total (HO := HO1) t w caps instance now name Ht)).
  { apply unsorted_scored. }
  unfold unsorted.
  rewrite (map_ext (entry (HO := HO1) t w caps instance now (policy_by_name name))
    (entry (HO := HO2) t w caps instance now (policy_by_name name))).
  { apply Permutation_map, list_filter_perm, list_filter_perm.
    by rewrite !hash_iter_perm. }
  intros p. unfold entry.
  by rewrite !known_policy_shares.
Qed.
End dispatch.

(** ** Witnesses *)

#[local] Existing Instance nanosecond_clock.
#[local] Existing Instance forward_order.

(** A build that became ready [waited] seconds before the time 1000 s. *)
Definition example_build (waited : Z) : PendingJob := PendingBuild {|
  pb_derivation_build := 7; pb_evaluation_id := 3; pb_org_id := 1;
  pb_job := {| bj_builds := [] |}; pb_required_paths := [];
  pb_architecture := "x86_64-linux"; pb_required_features := [];
  pb_dependency_count := 1; pb_closure_size := None; pb_prefer_local_build := false;
  pb_is_fixed_output := false; pb_history := history_default;
  pb_queued_at := at_ns 0; pb_ready_at := at_ns ((1000 - waited) * 1000000000);
  pb_rescore_count := 0; pb_pname := None; pb_substitute := false |}.

Definition example_caps : WorkerCaps := {|
  caps_fetch := false; caps_architectures := ["x86_64-linux"]; caps_system_features := [];
  caps_capabilities := capabilities_default; caps_metrics := None |}.

(** Two measured builds. *)
Definition example_tracker : JobTracker :=
  let t := (add_pending JobTracker_new "a" (example_build 0)).1 in
  let t := (add_pending t "b" (example_build 0)).1 in
  record_scores t "w" [{| cs_job_id := "a"; cs_missing_count := 9; cs_missing_nar_size := 5000000000 |};
                       {| cs_job_id := "b"; cs_missing_count := 0; cs_missing_nar_size := 0 |}].

Definition example_take (t : JobTracker) : JobTracker * option Assignment :=
  take_best_of_kind t N.of_nat (at_ns 1000000000000) (at_ns 1000000000001) "w" None
    (Some example_caps) JobKindBuild (policy_by_name "simple") instance_default.

Definition no_assignment : Assignment :=
  {| as_job_id := ""; as_job := Build {| bj_builds := [] |}; as_org_id := 0;
     as_dispatch_record := None |}.

Definition example_assignment : Assignment := default no_assignment (example_take example_tracker).2.

Lemma example_take_eq :
  example_take example_tracker = ((example_take example_tracker).1, Some example_assignment).
Proof. vm_compute. reflexivity. Qed.

Lemma example_job_sane waited : sane_job_data (example_build waited).
Proof. split; [vm_compute; intuition discriminate|]. split; vm_compute; intuition discriminate. Qed.

(** Reduce a property of every entry of a concrete map to one of a concrete list. *)
#[local] Ltac eval_entries :=
  apply map_Forall_to_list;
  match goal with |- Forall _ ?l => let l' := eval vm_compute in l in change l with l' end.

Lemma example_tracker_sane : sane_tracker example_tracker "w" (Some example_caps) instance_default.
Proof.
  split.
  - assert (Hall : map_Forall (fun _ j => j = example_build 0) (jt_pending example_tracker)).
    { eval_entries. repeat constructor. }
    intros id j Hj. rewrite (Hall id j Hj). apply example_job_sane.
  - assert (Hall : map_Forall (fun _ s => in_u32 (ws_missing_count s) /\ in_u64 (ws_missing_nar_size s))
      (default ∅ (jt_scores example_tracker !! "w"))).
    { eval_entries. unfold in_u32, in_u64. repeat constructor; simpl; lia. }
    intros ws id s Hws Hs. apply (Hall id s). by rewrite Hws.
  - exact I.
  - repeat split; vm_compute; intuition discriminate.
Qed.

Lemma take_best_sound_witness :
  exists job, dispatchable example_tracker None (Some example_caps) JobKindBuild
    (as_job_id example_assignment) job /\ as_job_id example_assignment = "b".
Proof.
  destruct (take_best_sound example_tracker _ _ _ _ _ _ _ _ _ _ _ example_take_eq) as (job & Hd & _).
  exists job. split; [exact Hd|]. vm_compute. reflexivity.
Defined.

Lemma take_best_optimal_witness :
  sane_tracker example_tracker "w" (Some example_caps) instance_default /\
  let total i := sc_total (scored_as example_tracker (at_ns 1000000000000) "w" (Some example_caps)
    instance_default (policy_by_name "simple") i (example_build 0)) in
  f64_lt (total "a") (total "b") = true \/
  (SFcompare (total "a") (total "b") = Some Eq /\ String.compare "b" "a" = Lt).
Proof.
  split; [exact example_tracker_sane|].
  apply (take_best_optimal example_tracker N.of_nat (at_ns 1000000000000) (at_ns 1000000000001) "w" None
    (Some example_caps) JobKindBuild "simple" instance_default _ _ example_tracker_sane
    example_take_eq (example_build 0) "a" (example_build 0)).
  - vm_compute. reflexivity.
  - repeat split; vm_compute; reflexivity.
  - vm_compute. discriminate.
Defined.

(** A measured build behind an unmeasured one that has waited for 900 s. *)
Definition blocked_tracker : JobTracker :=
  (add_pending example_tracker "held" (example_build 900)).1.

Lemma blocked_tracker_sane : sane_tracker blocked_tracker "w" (Some example_caps) instance_default.
Proof.
  split.
  - assert (Hall : map_Forall (fun _ j => j = example_build 0 \/ j = example_build 900)
      (jt_pending blocked_tracker)).
    { eval_entries. repeat first [by left|by right|constructor]. }
    intros id j Hj. destruct (Hall id j Hj) as [-> | ->]; apply example_job_sane.
  - exact (st_scores _ _ _ _ example_tracker_sane).
  - exact I.
  - repeat split; vm_compute; intuition discriminate.
Qed.

Lemma blocked_take : example_take blocked_tracker = ((example_take blocked_tracker).1, None).
Proof. vm_compute. reflexivity. Qed.

Lemma take_best_none_witness :
  dispatchable blocked_tracker None (Some example_caps) JobKindBuild "b" (example_build 0) /\
  exists id' job', dispatchable blocked_tracker None (Some example_caps) JobKindBuild id' job' /\
    sc_vetoed (scored_as blocked_tracker (at_ns 1000000000000) "w" (Some example_caps)
      instance_default (policy_by_name "simple") id' job') = true.
Proof.
  assert (Hd : dispatchable blocked_tracker None (Some example_caps) JobKindBuild "b" (example_build 0)).
  { repeat split; vm_compute; reflexivity. }
  split; [exact Hd|].
  destruct (take_best_none blocked_tracker N.of_nat (at_ns 1000000000000) (at_ns 1000000000001) "w"
    None (Some example_caps) JobKindBuild "simple" instance_default _ blocked_tracker_sane
    blocked_take) as (_ & _ & _ & H).
  destruct (H "b" (example_build 0) Hd) as (id' & job' & Hd' & Hv & _).
  - vm_compute. reflexivity.
  - exists id', job'. split; [exact Hd'|exact Hv].
Defined.

Lemma take_best_deterministic_witness :
  sane_tracker example_tracker "w" (Some example_caps) instance_default /\
  take_best_of_kind (HO := backward_order) example_tracker N.of_nat (at_ns 1000000000000)
    (at_ns 1000000000001) "w" None (Some example_caps) JobKindBuild (policy_by_name "simple")
    instance_default = example_take example_tracker.
Proof.
  split; [exact example_tracker_sane|].
  apply (take_best_deterministic backward_order forward_order), example_tracker_sane.
Defined.
