(* ===== verification/TrackerInvariant.v ===== *)
(** * The job tracker as a state machine

    The operations of [JobTracker] as one step relation, the invariant of its
    reachable states, and the exact effect of the operations that requeue, remove
    and age jobs. *)

From S2P Require Import Prelude Float FloatBounds RustStr ScoreContext ScoreRules ScoreBounds ScorePolicy Proto JobData JobTracker TrackerFacts Dispatch.

Local Open Scope Z_scope.

Section invariant.
Context `{CH : Chrono} {SD : Serde} {HO : HashOrder}.

(** ** Steps *)

Inductive tracker_step (t : JobTracker) : JobTracker -> Prop :=
| step_add id job : tracker_step t (add_pending t id job).1
| step_scores w scores : tracker_step t (record_scores t w scores)
| step_take fresh now at_ w authorized caps kind policy instance :
    tracker_step t (take_best_of_kind t fresh now at_ w authorized caps kind policy instance).1
| step_release id : tracker_step t (release_to_pending t id)
| step_remove_active id : tracker_step t (remove_active t id).1
| step_drain w revoked : tracker_step t (drain_peer_jobs_on_worker t w revoked).1
| step_disconnect w : tracker_step t (worker_disconnected t w).1
| step_remove_job id : tracker_step t (remove_job t id)
| step_remove_eval e : tracker_step t (remove_pending_for_evaluation t e)
| step_bump : tracker_step t (bump_rescore_counts t).

Definition reachable : JobTracker -> Prop := rtc tracker_step JobTracker_new.

(** ** The invariant *)

Record tracker_inv (t : JobTracker) : Prop := {
  inv_disjoint id : is_Some (jt_pending t !! id) -> jt_active t !! id = None;
  inv_ring : (length (jt_decisions t) <= DECISION_RING_CAP)%nat;
  inv_candidates : Forall (fun d => (0 < length (dd_candidates d) <= CANDIDATES_PER_DECISION)%nat)
                     (jt_decisions t);
}.

Lemma push_decision_ring t d :
  (length (jt_decisions t) <= DECISION_RING_CAP)%nat ->
  (length (jt_decisions (push_decision t d)) <= DECISION_RING_CAP)%nat.
Proof.
  unfold push_decision. cbn [jt_decisions with_decisions]. rewrite length_app. cbn [length].
  destruct (Nat.leb_spec DECISION_RING_CAP (length (jt_decisions t))).
  - destruct (jt_decisions t); unfold DECISION_RING_CAP in *; cbn [tail length] in *; lia.
  - lia.
Qed.

Lemma omap_id_length {A} (l : list (option A)) : (length (omap id l) <= length l)%nat.
Proof. unfold omap. induction l as [|[x|] l IH]; simpl; [lia| |]; apply le_n_S in IH; [exact IH|lia]. Qed.

Lemma record_decision_ring t fresh at_ w kind winner scored wc ic :
  tracker_inv t ->
  (length (jt_decisions (record_decision t fresh at_ w kind winner scored wc ic)) <= DECISION_RING_CAP)%nat /\
  Forall (fun d => (0 < length (dd_candidates d) <= CANDIDATES_PER_DECISION)%nat)
    (jt_decisions (record_decision t fresh at_ w kind winner scored wc ic)).
Proof.
  intros Ht. unfold record_decision.
  destruct (omap id _) as [|c cs] eqn:E; [split; apply Ht|].
  split; [by apply push_decision_ring, Ht|]. unfold push_decision. simpl. apply Forall_app. split.
  - case_match; [apply Forall_tail|]; apply Ht.
  - constructor; [|done]. simpl dd_candidates. rewrite <- E.
    pose proof (omap_id_length (imap (decision_candidate t fresh winner)
      (take CANDIDATES_PER_DECISION scored))) as Hl.
    rewrite length_imap, length_take in Hl. split; [rewrite E; simpl; lia|]. lia.
Qed.

Lemma inv_frame t t' :
  tracker_inv t -> jt_decisions t' = jt_decisions t ->
  (forall id, is_Some (jt_pending t' !! id) -> jt_active t' !! id = None) -> tracker_inv t'.
Proof. intros Ht Hd Hp. split; [done|rewrite Hd; apply Ht..]. Qed.

Lemma requeue_all_inv t ids :
  tracker_inv t -> tracker_inv (requeue_all t ids).
Proof.
  intros Ht. destruct (requeue_all_spec t ids) as (Ha & Hp & _ & Hd).
  eapply inv_frame; [done..|]. intros id. rewrite Ha, Hp. case_decide; [done|apply Ht].
Qed.

Lemma worker_disconnected_spec t w :
  worker_disconnected t w =
    (requeue_all (with_scores t (delete w (jt_scores t)))
       (map fst (List.filter (fun p => (p.2.1 =? w)%string) (hash_iter (jt_active t)))),
     omap (fun id => snd <$> jt_active t !! id)
       (map fst (List.filter (fun p => (p.2.1 =? w)%string) (hash_iter (jt_active t))))).
Proof.
  unfold worker_disconnected. simpl. rewrite requeue_orphans_spec; [done|].
  eapply sublist_NoDup; [apply (hash_iter_NoDup (jt_active t))|].
  change (map fst) with (fmap (M := list) (@fst string (string * PendingJob))).
  apply fmap_sublist. induction (hash_iter (jt_active t)) as [|p l IH]; simpl; [done|].
  case_match; by constructor.
Qed.

Lemma take_step_inv t fresh now at_ w authorized caps kind policy instance :
  tracker_inv t ->
  tracker_inv (take_best_of_kind t fresh now at_ w authorized caps kind policy instance).1.
Proof.
  intros Ht. unfold take_best_of_kind. set (scored := score_candidates _ _ _ _ _ _ _ _ _).
  match goal with |- context [record_decision ?a ?b ?c ?d ?e ?f ?g ?h ?i] =>
    pose proof (record_decision_frame a b c d e f g h i) as (Hp & Hs & Ha);
    pose proof (record_decision_ring a b c d e f g h i Ht) as [Hr Hc];
    set (t1 := record_decision a b c d e f g h i) in * end.
  assert (Ht1 : tracker_inv t1) by (split; [rewrite Hp, Ha; apply Ht|done..]).
  clearbody t1. clear Hp Hs Ha Hr Hc.
  destruct (winner_of scored) as [id|], scored as [|[i sc] l]; try done.
  destruct (jt_pending t1 !! id) as [job|] eqn:E.
  - rewrite (assign_pending_spec _ _ _ job) by done. eapply inv_frame; [exact Ht1|done|].
    simpl. intros id'. destruct (decide (id' = id)) as [->|]; simplify_map_eq.
    + by intros [? ?].
    + apply Ht1.
  - unfold assign_pending. by rewrite E.
Qed.

Lemma step_preserves_inv t t' : tracker_inv t -> tracker_step t t' -> tracker_inv t'.
Proof.
  intros Ht Hstep. destruct Hstep.
  - unfold add_pending. repeat case_bool_decide; simpl; try done.
    eapply inv_frame; [exact Ht|done|]. simpl. intros id'.
    destruct (decide (id' = id)) as [->|]; simplify_map_eq; [|apply Ht].
    intros _. by apply eq_None_not_Some.
  - eapply inv_frame; [exact Ht|done|apply Ht].
  - by apply take_step_inv.
  - change (release_to_pending t id) with (requeue_all t [id]). by apply requeue_all_inv.
  - eapply inv_frame; [exact Ht|done|]. simpl. intros id' Hid'%(inv_disjoint _ Ht).
    destruct (decide (id' = id)) as [->|]; by simplify_map_eq.
  - by apply requeue_all_inv.
  - rewrite worker_disconnected_spec. apply requeue_all_inv.
    eapply inv_frame; [exact Ht|done|apply Ht].
  - eapply inv_frame; [exact Ht|done|]. simpl. intros id'.
    destruct (decide (id' = id)) as [->|]; simplify_map_eq; [done|apply Ht].
  - unfold remove_pending_for_evaluation.
    edestruct (remove_pending_jobs_spec t) as (Hp & Ha & Hd & _).
    eapply inv_frame; [exact Ht|exact Hd|]. intros id. rewrite Hp, Ha.
    case_decide; [by intros []|apply Ht].
  - eapply inv_frame; [exact Ht|done|]. simpl. intros id. rewrite lookup_fmap.
    intros Hid. apply Ht. by destruct (jt_pending t !! id).
Qed.

Lemma inv_initial : tracker_inv JobTracker_new.
Proof. split; simpl; [done|lia|done]. Qed.

(** In every state the tracker's operations can reach, no job is pending and
    active at once, the decision ring holds at most 200 decisions, and each holds
    between 1 and 64 candidates. *)
Theorem tracker_invariant t : reachable t -> tracker_inv t.
Proof.
  intros Hr. unfold reachable in Hr. pose proof inv_initial as Hinit.
  revert Hinit. induction Hr as [x|x y z Hstep _ IH]; intros Hx; [exact Hx|].
  by eapply IH, step_preserves_inv.
Qed.

(** ** Conservation *)

(** Every job the tracker is responsible for. *)
Definition tracked (t : JobTracker) : gmap string PendingJob :=
  jt_pending t ∪ (snd <$> jt_active t).

Lemma requeue_all_tracked t ids : tracker_inv t -> tracked (requeue_all t ids) = tracked t.
Proof.
  intros Ht. destruct (requeue_all_spec t ids) as (Ha & Hp & _).
  apply map_eq. intros id. unfold tracked. rewrite !lookup_union, !lookup_fmap, Ha, Hp.
  pose proof (inv_disjoint _ Ht id). case_decide; [|done].
  destruct (jt_pending t !! id), (jt_active t !! id) as [[]|]; simpl; try done. naive_solver.
Qed.

(** Assigning, rejecting, draining a peer and losing a worker never lose or
    duplicate a job: each leaves the set of tracked jobs exactly as it was. *)
Theorem movement_conserves_jobs t :
  tracker_inv t ->
  (forall fresh now at_ w authorized caps kind policy instance,
     tracked (take_best_of_kind t fresh now at_ w authorized caps kind policy instance).1 = tracked t) /\
  (forall id, tracked (release_to_pending t id) = tracked t) /\
  (forall w revoked, tracked (drain_peer_jobs_on_worker t w revoked).1 = tracked t) /\
  (forall w, tracked (worker_disconnected t w).1 = tracked t).
Proof.
  intros Ht. split_and!.
  - intros. destruct (take_best_of_kind _ _ _ _ _ _ _ _ _ _) as [t' [a|]] eqn:E.
    + apply take_some in E as (job & l & _ & (Hj & _) & _ & Hp & Ha & _).
      unfold tracked. simpl. rewrite Hp, Ha. apply map_eq. intros id.
      rewrite !lookup_union, !lookup_fmap.
      destruct (decide (id = as_job_id a)) as [->|]; simplify_map_eq; [|done].
      by rewrite (inv_disjoint _ Ht) by by eexists.
    + apply take_none in E as (_ & Hp & _ & Ha). unfold tracked. simpl. by rewrite Hp, Ha.
  - intros id. by apply (requeue_all_tracked t [id]).
  - intros. by apply requeue_all_tracked.
  - intros w. rewrite worker_disconnected_spec. simpl fst. rewrite requeue_all_tracked; [done|].
    eapply inv_frame; [exact Ht|done|apply Ht].
Qed.

Lemma omap_entries (m : gmap string (string * PendingJob)) l :
  (forall p, p ∈ l -> m !! p.1 = Some p.2) ->
  omap (fun id => snd <$> m !! id) (map fst l) = map (fun p => p.2.2) l.
Proof.
  induction l as [|p l IH]; intros Hl; [done|]. simpl. rewrite (Hl p) by left. simpl.
  f_equal. apply IH. intros q Hq. apply Hl. by right.
Qed.

Lemma filter_entries_perm (m : gmap string (string * PendingJob)) w :
  List.filter (fun p => (p.2.1 =? w)%string) (hash_iter m) ≡ₚ
  map_to_list (filter (fun p => p.2.1 = w) m).
Proof.
  apply NoDup_Permutation.
  - apply NoDup_ListNoDup, List.NoDup_filter, NoDup_ListNoDup.
    apply (NoDup_fmap_1 fst), hash_iter_NoDup.
  - apply NoDup_map_to_list.
  - intros [id [w' j]]. rewrite elem_of_map_to_list, map_lookup_filter_Some.
    rewrite list_elem_of_In, List.filter_In, <- list_elem_of_In, hash_iter_elem. simpl.
    by rewrite String.eqb_eq.
Qed.

(** The jobs running on [w]. *)
Definition running_on (t : JobTracker) (w : string) : list string :=
  map fst (List.filter (fun p => (p.2.1 =? w)%string) (hash_iter (jt_active t))).

Lemma running_on_elem t w id : id ∈ running_on t w <-> exists j, jt_active t !! id = Some (w, j).
Proof.
  unfold running_on. rewrite filter_keys_elem. simpl. split.
  - intros ([w' j] & Hid & Hw). simpl in Hw. apply String.eqb_eq in Hw as ->. eauto.
  - intros (j & Hid). exists (w, j). by rewrite String.eqb_refl.
Qed.

Lemma worker_disconnected_maps t w :
  tracker_inv t ->
  let t' := (worker_disconnected t w).1 in
  (forall id w' j, jt_active t' !! id = Some (w', j) <-> jt_active t !! id = Some (w', j) /\ w' ≠ w) /\
  (forall id j, jt_pending t' !! id = Some j <->
     jt_pending t !! id = Some j \/ jt_active t !! id = Some (w, j)) /\
  jt_scores t' = delete w (jt_scores t).
Proof.
  intros Ht. rewrite worker_disconnected_spec. fold (running_on t w).
  destruct (requeue_all_spec (with_scores t (delete w (jt_scores t))) (running_on t w)) as (Ha & Hp & Hs & _).
  simpl in *. split_and!; [| |done].
  - intros id w' j. rewrite Ha. case_decide as Hid; rewrite running_on_elem in Hid.
    + destruct Hid as [j' Hj']. rewrite Hj'. split; [done|]. by intros [[= <- <-] []].
    + split; [|by intros []]. intros Hj. split; [done|]. intros ->. eauto.
  - intros id j. rewrite Hp. pose proof (inv_disjoint _ Ht id) as Hdis.
    case_decide as Hid; rewrite running_on_elem in Hid.
    + destruct Hid as [j' Hj']. rewrite Hj' in *. simpl.
      destruct (jt_pending t !! id) as [p|]; [by discriminate (Hdis (mk_is_Some _ p eq_refl))|].
      simpl. split; [intros [= ->]; by right|by intros [?|[= ->]]].
    + split; [by left|]. intros [?|?]; [done|]. destruct Hid. eauto.
Qed.

Lemma worker_disconnected_jobs t w :
  (worker_disconnected t w).2 ≡ₚ
  map (fun p => p.2.2) (map_to_list (filter (fun p => p.2.1 = w) (jt_active t))).
Proof.
  rewrite worker_disconnected_spec. simpl snd. rewrite omap_entries.
  - apply (Permutation_map (fun p => p.2.2)), filter_entries_perm.
  - intros p Hin%list_elem_of_In. apply List.filter_In in Hin as [Hin _].
    by apply list_elem_of_In, hash_iter_elem in Hin.
Qed.

(** Losing a worker requeues exactly its active jobs: they become pending and are
    returned, one per job, every other assignment stands, nothing else enters the
    queue, and the worker's scores are gone. *)
Theorem worker_disconnected_exact t w :
  tracker_inv t ->
  let '(t', requeued) := worker_disconnected t w in
  (forall id w' j, jt_active t' !! id = Some (w', j) <-> jt_active t !! id = Some (w', j) /\ w' ≠ w) /\
  (forall id j, jt_pending t' !! id = Some j <->
     jt_pending t !! id = Some j \/ jt_active t !! id = Some (w, j)) /\
  requeued ≡ₚ map (fun p => p.2.2) (map_to_list (filter (fun p => p.2.1 = w) (jt_active t))) /\
  jt_scores t' = delete w (jt_scores t).
Proof.
  intros Ht. destruct (worker_disconnected_maps t w Ht) as (Ha & Hp & Hs).
  pose proof (worker_disconnected_jobs t w) as Hr.
  by destruct (worker_disconnected t w).
Qed.

(** ** Removal *)

(** No worker holds a score for the job. *)
Definition forgotten (t : JobTracker) (id : string) : Prop :=
  forall w ws, jt_scores t !! w = Some ws -> ws !! id = None.

Lemma forget_job_scores_forgotten t id : forgotten (forget_job_scores t id) id.
Proof.
  intros w ws. unfold forget_job_scores. simpl. rewrite lookup_fmap.
  destruct (jt_scores t !! w); simpl; [|done]. intros [= <-]. by simplify_map_eq.
Qed.

(** Every terminal removal is complete and touches nothing else: a removed or
    finished job is neither queued nor running and no worker keeps a score for it;
    aborting an evaluation removes exactly its pending jobs, with their scores, and
    no active one. *)
Theorem removal_complete t :
  (forall id, let t' := remove_job t id in
     contains_job t' id = false /\ forgotten t' id /\
     forall id', id' ≠ id -> jt_pending t' !! id' = jt_pending t !! id' /\
                             jt_active t' !! id' = jt_active t !! id') /\
  (forall id, let '(t', job) := remove_active t id in
     job = active_job t id /\ jt_active t' !! id = None /\ forgotten t' id /\
     jt_pending t' = jt_pending t) /\
  (forall e, let t' := remove_pending_for_evaluation t e in
     jt_pending t' = filter (fun p => evaluation_id p.2 ≠ e) (jt_pending t) /\
     jt_active t' = jt_active t /\
     forall id job, jt_pending t !! id = Some job -> evaluation_id job = e -> forgotten t' id).
Proof.
  split_and!.
  - intros id. split_and!.
    + unfold contains_job, remove_job. simpl. by rewrite !lookup_delete_eq.
    + apply forget_job_scores_forgotten.
    + intros id' Hne. unfold remove_job. simpl. by rewrite !lookup_delete_ne.
  - intros id. unfold remove_active. split_and!; try done.
    + simpl. by simplify_map_eq.
    + apply forget_job_scores_forgotten.
  - intros e. unfold remove_pending_for_evaluation. set (ids := map fst _).
    assert (Hids : forall id, id ∈ ids <-> exists j, jt_pending t !! id = Some j /\ evaluation_id j = e).
    { intros id. unfold ids. rewrite filter_keys_elem. simpl. by setoid_rewrite N.eqb_eq. }
    destruct (remove_pending_jobs_spec t ids) as (Hp & Ha & _ & Hs). split_and!.
    + apply map_eq. intros id. rewrite Hp. apply option_eq. intros j.
      rewrite map_lookup_filter_Some. simpl. case_decide as Hid; rewrite Hids in Hid.
      * split; [done|]. intros [Hj Hne]. destruct Hid as (j' & Hj' & He). by simplify_eq.
      * split; [|by intros []]. intros Hj. split; [done|]. intros He. destruct Hid. eauto.
    + done.
    + intros id job Hj He w ws Hws. eapply Hs; [exact Hws|]. apply Hids. eauto.
Qed.

(** Queueing is idempotent: a job that is already pending or running is not
    queued again whatever it is offered with, a new one is queued as given, and in
    both cases the offer carries the job's own paths. *)
Theorem add_pending_idempotent t id job job' :
  let t' := (add_pending t id job).1 in
  (contains_job t id = true -> t' = t) /\
  (contains_job t id = false -> jt_pending t' = <[id := job]> (jt_pending t)) /\
  contains_job t' id = true /\ (add_pending t' id job').1 = t' /\
  (add_pending t id job).2 = as_candidate job id.
Proof.
  assert (Hadd : forall t job, contains_job t id = true -> (add_pending t id job).1 = t).
  { intros t1 j1 Hc. unfold add_pending, contains_job in *. by rewrite Hc. }
  assert (Hnew : contains_job t id = false ->
    (add_pending t id job).1 = with_pending t (<[id := job]> (jt_pending t))).
  { intros Hc. unfold add_pending, contains_job in *. by rewrite Hc. }
  assert (Hin : contains_job (add_pending t id job).1 id = true).
  { destruct (contains_job t id) eqn:E; [by rewrite Hadd|]. rewrite Hnew by done.
    unfold contains_job. simpl. rewrite lookup_insert_eq. by rewrite bool_decide_true by by eexists. }
  simpl. split_and!; auto.
  - intros Hc. by rewrite Hnew.
  - unfold add_pending. by case_match.
Qed.

(** ** Rescoring *)

Lemma bump_lookup t id :
  jt_pending (bump_rescore_counts t) !! id =
  (fun j => set_rescore_count j (u32 (rescore_count j + 1))) <$> jt_pending t !! id.
Proof. unfold bump_rescore_counts. simpl. by rewrite lookup_fmap. Qed.

Lemma set_rescore_count_twice j a b : set_rescore_count (set_rescore_count j a) b = set_rescore_count j b.
Proof. by destruct j. Qed.

Lemma set_rescore_count_same j : set_rescore_count j (rescore_count j) = j.
Proof. by destruct j as [[]|[]]. Qed.

Lemma bump_iter t id job n :
  jt_pending t !! id = Some job -> 0 <= rescore_count job -> rescore_count job + Z.of_nat n < 2 ^ 32 ->
  jt_pending (Nat.iter n bump_rescore_counts t) !! id =
    Some (set_rescore_count job (rescore_count job + Z.of_nat n)).
Proof.
  intros Hj H0. induction n as [|n IH]; intros Hn; simpl Nat.iter.
  { by rewrite Z.add_0_r, set_rescore_count_same. }
  rewrite bump_lookup, IH by lia. simpl. rewrite set_rescore_count_twice. do 2 f_equal.
  destruct job; simpl in *; unfold u32; rewrite wrap_small by lia; lia.
Qed.

Lemma bump_keeps t n :
  jt_active (Nat.iter n bump_rescore_counts t) = jt_active t /\
  jt_scores (Nat.iter n bump_rescore_counts t) = jt_scores t.
Proof. induction n as [|n [IH1 IH2]]; simpl; by rewrite ?IH1, ?IH2. Qed.

Lemma veto_old j w i :
  RESCORE_MAX_ROUNDS <= jc_rescore_count j ->
  RescoreWaitRule_veto RescoreWaitRule_default j w i = false.
Proof.
  intros Hr. unfold RescoreWaitRule_veto. destruct (sj_build _), (jc_missing_nar_size j); try done.
  by apply Z.ltb_ge.
Qed.

(** A build is not held back for ever: after four dispatch ticks in the queue,
    measured or not, no rule of any configurable policy vetoes it for any worker. *)
Theorem rescore_veto_ends t id job now w caps name instance :
  jt_pending t !! id = Some job ->
  0 <= rescore_count job -> rescore_count job + 4 < 2 ^ 32 ->
  exists job', jt_pending (Nat.iter 4 bump_rescore_counts t) !! id = Some job' /\
    rescore_count job' = rescore_count job + 4 /\
    sc_vetoed (scored_as (Nat.iter 4 bump_rescore_counts t) now w caps instance
                 (policy_by_name name) id job') = false.
Proof.
  intros Hj H0 Hlt. exists (set_rescore_count job (rescore_count job + 4)). split_and!.
  - by apply (bump_iter t id job 4).
  - by destruct job.
  - unfold scored_as, entry, score_candidate. cbn [fst snd sc_vetoed].
    rewrite policy_veto_list, veto_old; [done|].
    destruct job; unfold RESCORE_MAX_ROUNDS; simpl in *; lia.
Qed.
End invariant.

(** ** Witnesses *)

#[local] Existing Instance nanosecond_clock.
#[local] Existing Instance forward_order.

Lemma example_reachable : reachable (example_take example_tracker).1.
Proof.
  eapply rtc_r; [|apply step_take]. eapply rtc_r; [|apply step_scores].
  eapply rtc_r; [|apply step_add]. eapply rtc_r; [|apply step_add]. apply rtc_refl.
Qed.

(** A tracker with "b" running on worker "w" and "a" pending. *)
Definition running_tracker : JobTracker := (example_take example_tracker).1.

Lemma running_inv : tracker_inv running_tracker.
Proof.
  split.
  - intros id [j Hj].
    assert (Hall : map_Forall (fun i _ => jt_active running_tracker !! i = None) (jt_pending running_tracker)).
    { apply map_Forall_to_list.
      match goal with |- Forall _ ?l => let l' := eval vm_compute in l in change l with l' end.
      repeat constructor. }
    exact (Hall id j Hj).
  - vm_compute. lia.
  - vm_compute. repeat constructor.
Qed.

Lemma tracker_invariant_witness : reachable running_tracker /\ tracker_inv running_tracker.
Proof. split; [exact example_reachable|]. apply tracker_invariant, example_reachable. Defined.

Lemma movement_conserves_jobs_witness :
  tracker_inv running_tracker /\
  tracked (release_to_pending running_tracker "b") = tracked running_tracker.
Proof. split; [exact running_inv|]. exact (proj1 (proj2 (movement_conserves_jobs _ running_inv)) "b"). Defined.

Lemma worker_disconnected_exact_witness :
  tracker_inv running_tracker /\
  (worker_disconnected running_tracker "w").2 ≡ₚ [example_build 0] /\
  jt_pending (worker_disconnected running_tracker "w").1 !! "b" = Some (example_build 0).
Proof.
  split; [exact running_inv|].
  pose proof (worker_disconnected_exact running_tracker "w" running_inv) as Hx.
  destruct (worker_disconnected running_tracker "w") as [t' requeued] eqn:E.
  destruct Hx as (_ & Hp & Hr & _). split.
  - simpl. rewrite Hr. vm_compute. reflexivity.
  - apply Hp. right. vm_compute. reflexivity.
Defined.

Lemma removal_complete_witness :
  contains_job (remove_job running_tracker "a") "a" = false /\
  jt_active (remove_pending_for_evaluation running_tracker 3) = jt_active running_tracker.
Proof.
  pose proof (removal_complete running_tracker) as (H1 & _ & H2). split.
  - exact (proj1 (H1 "a")).
  - exact (proj1 (proj2 (H2 3%N))).
Defined.

Lemma add_pending_idempotent_witness :
  contains_job running_tracker "b" = true /\
  (add_pending running_tracker "b" (example_build 5)).1 = running_tracker.
Proof.
  assert (H : contains_job running_tracker "b" = true) by (vm_compute; reflexivity).
  split; [exact H|].
  exact (proj1 (add_pending_idempotent running_tracker "b" (example_build 5) (example_build 5)) H).
Defined.

Lemma rescore_veto_ends_witness :
  jt_pending blocked_tracker !! "held" = Some (example_build 900) /\
  exists job', jt_pending (Nat.iter 4 bump_rescore_counts blocked_tracker) !! "held" = Some job' /\
    rescore_count job' = 4.
Proof.
  assert (H : jt_pending blocked_tracker !! "held" = Some (example_build 900)) by (vm_compute; reflexivity).
  split; [exact H|].
  destruct (rescore_veto_ends blocked_tracker "held" (example_build 900) (at_ns 0) "w" None "simple"
    instance_default H) as (job' & Hj & Hc & _); [vm_compute; discriminate|vm_compute; reflexivity|].
  exists job'. split; [exact Hj|exact Hc].
Defined.

(** * The job tracker refines a machine of job phases

    What the tracker promises about one job: it is unknown, queued or running on one worker,
    and an operation takes it at most one legal move along. The maps, scores and decisions
    of [JobTracker] implement that machine. *)

Section phases.
Context `{CH : Chrono} {SD : Serde} {HO : HashOrder}.
Implicit Types (t : JobTracker) (id w : string) (j : PendingJob).

(** ** The abstract machine *)

Inductive Phase :=
| Queued (j : PendingJob)
| Running (worker : string) (j : PendingJob).

(** A job but for its age in the queue. *)
Definition core j : PendingJob := set_rescore_count j 0.

Inductive phase_move : option Phase -> option Phase -> Prop :=
| pm_stay p : phase_move p p
| pm_enqueue j : phase_move None (Some (Queued j))
| pm_start w j : phase_move (Some (Queued j)) (Some (Running w j))
| pm_requeue w j : phase_move (Some (Running w j)) (Some (Queued j))
| pm_finish w j : phase_move (Some (Running w j)) None
| pm_cancel j : phase_move (Some (Queued j)) None.

(** ** The abstraction *)

Definition phase_of t id : option Phase :=
  match jt_active t !! id with
  | Some (w, j) => Some (Running w (core j))
  | None => match jt_pending t !! id with Some j => Some (Queued (core j)) | None => None end
  end.

Lemma core_rescore j n : core (set_rescore_count j n) = core j.
Proof. by destruct j. Qed.

Lemma phase_eq t t' id :
  jt_active t' !! id = jt_active t !! id -> jt_pending t' !! id = jt_pending t !! id ->
  phase_move (phase_of t id) (phase_of t' id).
Proof. intros Ha Hp. unfold phase_of. rewrite Ha, Hp. constructor. Qed.

Lemma requeue_moves t ids id : tracker_inv t -> phase_move (phase_of t id) (phase_of (requeue_all t ids) id).
Proof.
  intros Ht. destruct (requeue_all_spec t ids) as (Ha & Hp & _). unfold phase_of. rewrite Ha, Hp.
  destruct (decide (id ∈ ids)); [|constructor]. destruct (jt_active t !! id) as [[w j]|] eqn:E; simpl.
  - destruct (jt_pending t !! id); constructor.
  - destruct (jt_pending t !! id); constructor.
Qed.

Lemma assign_moves t w i id : tracker_inv t -> phase_move (phase_of t id) (phase_of (assign_pending t w i).1 id).
Proof.
  intros Ht. destruct (jt_pending t !! i) as [j|] eqn:E; [|unfold assign_pending; rewrite E; constructor].
  rewrite (assign_pending_spec _ _ _ j) by done. unfold phase_of. simpl.
  destruct (decide (id = i)) as [->|Hne]; [|rewrite lookup_insert_ne, lookup_delete_ne by done; constructor].
  rewrite lookup_insert_eq, E. rewrite (inv_disjoint t Ht i) by (by eexists). constructor.
Qed.

Lemma decided_phase t fresh at_ w kind winner scored wc ic id :
  phase_of (record_decision t fresh at_ w kind winner scored wc ic) id = phase_of t id.
Proof.
  destruct (record_decision_frame t fresh at_ w kind winner scored wc ic) as (Hp & _ & Ha).
  unfold phase_of. by rewrite Hp, Ha.
Qed.

Lemma decided_inv t fresh at_ w kind winner scored wc ic :
  tracker_inv t -> tracker_inv (record_decision t fresh at_ w kind winner scored wc ic).
Proof.
  intros Ht. destruct (record_decision_frame t fresh at_ w kind winner scored wc ic) as (Hp & _ & Ha).
  destruct (record_decision_ring t fresh at_ w kind winner scored wc ic Ht) as [Hr Hc].
  split; [rewrite Hp, Ha; apply Ht|done..].
Qed.

Lemma take_moves t fresh now at_ w authorized caps kind policy instance id :
  tracker_inv t ->
  phase_move (phase_of t id)
    (phase_of (take_best_of_kind t fresh now at_ w authorized caps kind policy instance).1 id).
Proof.
  intros Ht. unfold take_best_of_kind. cbv zeta. set (scored := score_candidates _ _ _ _ _ _ _ _ _).
  match goal with |- context [record_decision ?a ?b ?c ?d ?e ?f ?g ?h ?i] =>
    pose proof (decided_phase a b c d e f g h i id) as Hph; pose proof (decided_inv a b c d e f g h i Ht) as Hi;
    set (t1 := record_decision a b c d e f g h i) in * end.
  clearbody t1. rewrite <- Hph. destruct (winner_of scored) as [i|], scored as [|[k sc] l]; try constructor.
  pose proof (assign_moves t1 w i id Hi) as Hm. by destruct (assign_pending t1 w i).
Qed.

(** C14. The tracker refines the machine of job phases: from any reachable state every operation
    takes every job along at most one legal move - enqueued when unknown, started only from the
    queue, returned to the queue, finished or cancelled - carrying the job it holds with it, so
    a job never starts unqueued and never passes from one worker to another directly. *)
Theorem tracker_refines_phases t t' id :
  reachable t -> tracker_step t t' ->
  phase_of JobTracker_new id = None /\ phase_move (phase_of t id) (phase_of t' id).
Proof.
  intros Hr Hstep. split; [done|].
  assert (Ht : tracker_inv t).
  { pose proof inv_initial as Hi. unfold reachable in Hr. revert Hi. induction Hr as [|x y z Hs _ IH]; [done|].
    intros Hx. by apply IH; [|eapply step_preserves_inv]. }
  clear Hr. destruct Hstep.
  - unfold add_pending. destruct (_ || _) eqn:E; [constructor|]. simpl.
    apply orb_false_iff in E as [Hp%bool_decide_eq_false Ha%bool_decide_eq_false].
    destruct (decide (id = id0)) as [->|Hne]; [|apply phase_eq; simpl; [done|by rewrite lookup_insert_ne]].
    unfold phase_of. simpl. rewrite lookup_insert_eq. apply eq_None_not_Some in Hp, Ha. rewrite Hp, Ha. constructor.
  - by apply phase_eq.
  - by apply take_moves.
  - by apply (requeue_moves t [id0]).
  - unfold phase_of, remove_active. simpl. destruct (decide (id = id0)) as [->|Hne];
      [|rewrite lookup_delete_ne by done; constructor]. rewrite lookup_delete_eq.
    destruct (jt_active t !! id0) as [[w j]|] eqn:E; [|constructor].
    destruct (jt_pending t !! id0) as [j'|] eqn:E'; [|constructor].
    rewrite (inv_disjoint t Ht id0) in E by (by eexists). done.
  - by apply requeue_moves.
  - rewrite worker_disconnected_spec. simpl. apply (requeue_moves (with_scores t _)).
    eapply inv_frame; [exact Ht|done|apply Ht].
  - unfold phase_of, remove_job. simpl. destruct (decide (id = id0)) as [->|Hne];
      [|rewrite !lookup_delete_ne by done; constructor]. rewrite !lookup_delete_eq.
    destruct (jt_active t !! id0) as [[w j]|]; [constructor|]. destruct (jt_pending t !! id0); constructor.
  - unfold remove_pending_for_evaluation. edestruct (remove_pending_jobs_spec t) as (Hp & Ha & _).
    unfold phase_of. rewrite Ha, Hp. destruct (jt_active t !! id) as [[w j]|]; [constructor|].
    case_decide; destruct (jt_pending t !! id); constructor.
  - unfold phase_of, bump_rescore_counts. simpl. rewrite lookup_fmap.
    destruct (jt_active t !! id) as [[w j]|]; [constructor|]. destruct (jt_pending t !! id) as [j|]; [|constructor].
    simpl. rewrite core_rescore. constructor.
Qed.

End phases.

(** ** Witness *)

#[local] Existing Instance null_serde.

(** Losing the worker that runs "b" takes "b" from running to queued. *)
Lemma tracker_refines_phases_witness :
  phase_of running_tracker "b" = Some (Running "w" (core (example_build 0))) /\
  phase_of (worker_disconnected running_tracker "w").1 "b" = Some (Queued (core (example_build 0))) /\
  phase_move (phase_of running_tracker "b") (phase_of (worker_disconnected running_tracker "w").1 "b").
Proof.
  split; [vm_compute; reflexivity|]. split; [vm_compute; reflexivity|].
  exact (proj2 (tracker_refines_phases running_tracker _ "b" example_reachable (step_disconnect _ "w"))).
Defined.
