(* ===== verification/WorkerPool.v ===== *)
(** * The worker pool

    [backend/gradient-scheduler/src/worker_pool.rs], [worker_state.rs] and
    [peer_auth.rs]: the registry of connected workers, their lifecycle (active or
    draining), capacity, in-flight jobs and offer bookkeeping.

    A [tokio] channel is its queue of undelivered messages and whether the receiver
    is still there; a [Notify] is its stored permit; [last_seen] is a number. *)

From S2P Require Import Prelude Float ScoreContext Proto JobData JobTracker.

Local Open Scope Z_scope.

(** ** Peer authorization *)

Inductive PeerAuth :=
| Open
| Restricted (set : gset OrganizationId).

Definition from_peers (peers : gset OrganizationId) : PeerAuth :=
  if bool_decide (peers = ∅) then Open else Restricted peers.

Definition is_open (a : PeerAuth) : bool := match a with Open => true | Restricted _ => false end.

Definition peer_contains (a : PeerAuth) (id : OrganizationId) : bool :=
  match a with Open => true | Restricted set => bool_decide (id ∈ set) end.

Definition as_filter (a : PeerAuth) : option (gset OrganizationId) :=
  match a with Open => None | Restricted set => Some set end.

(** ** Workers *)

Record WorkerShared := {
  sh_capabilities : GradientCapabilities;
  sh_architectures : list string;
  sh_system_features : list string;
  sh_max_concurrent_builds : Z;
  sh_cpu_count : Z;
  sh_ram_total_mb : Z;
  sh_cpu_core_score : Z;
  sh_cpu_usage_pct : option f32;
  sh_ram_free_mb : option Z;
  sh_disk_speed_mbps : option f32;
  sh_network_speed_mbps : option f32;
  sh_assigned_jobs : gset string;
  sh_peer_auth : PeerAuth;
  sh_sent_candidates : gset string;
  sh_reauth_permit : bool;
  sh_abort_queue : list (string * string);
  sh_abort_open : bool;
  sh_last_seen : Z;
}.

(** The functional updates of the fields the pool changes. *)
Definition with_caps (s : WorkerShared) archs feats mcb cpu ram score : WorkerShared := {|
  sh_capabilities := sh_capabilities s; sh_architectures := archs; sh_system_features := feats;
  sh_max_concurrent_builds := mcb; sh_cpu_count := cpu; sh_ram_total_mb := ram;
  sh_cpu_core_score := score; sh_cpu_usage_pct := sh_cpu_usage_pct s;
  sh_ram_free_mb := sh_ram_free_mb s; sh_disk_speed_mbps := sh_disk_speed_mbps s;
  sh_network_speed_mbps := sh_network_speed_mbps s; sh_assigned_jobs := sh_assigned_jobs s;
  sh_peer_auth := sh_peer_auth s; sh_sent_candidates := sh_sent_candidates s;
  sh_reauth_permit := sh_reauth_permit s; sh_abort_queue := sh_abort_queue s;
  sh_abort_open := sh_abort_open s; sh_last_seen := sh_last_seen s |}.
Definition with_metrics (s : WorkerShared) cpu ram disk net : WorkerShared := {|
  sh_capabilities := sh_capabilities s; sh_architectures := sh_architectures s;
  sh_system_features := sh_system_features s;
  sh_max_concurrent_builds := sh_max_concurrent_builds s; sh_cpu_count := sh_cpu_count s;
  sh_ram_total_mb := sh_ram_total_mb s; sh_cpu_core_score := sh_cpu_core_score s;
  sh_cpu_usage_pct := cpu; sh_ram_free_mb := ram; sh_disk_speed_mbps := disk;
  sh_network_speed_mbps := net; sh_assigned_jobs := sh_assigned_jobs s;
  sh_peer_auth := sh_peer_auth s; sh_sent_candidates := sh_sent_candidates s;
  sh_reauth_permit := sh_reauth_permit s; sh_abort_queue := sh_abort_queue s;
  sh_abort_open := sh_abort_open s; sh_last_seen := sh_last_seen s |}.
Definition with_jobs (s : WorkerShared) assigned sent : WorkerShared := {|
  sh_capabilities := sh_capabilities s; sh_architectures := sh_architectures s;
  sh_system_features := sh_system_features s;
  sh_max_concurrent_builds := sh_max_concurrent_builds s; sh_cpu_count := sh_cpu_count s;
  sh_ram_total_mb := sh_ram_total_mb s; sh_cpu_core_score := sh_cpu_core_score s;
  sh_cpu_usage_pct := sh_cpu_usage_pct s; sh_ram_free_mb := sh_ram_free_mb s;
  sh_disk_speed_mbps := sh_disk_speed_mbps s; sh_network_speed_mbps := sh_network_speed_mbps s;
  sh_assigned_jobs := assigned; sh_peer_auth := sh_peer_auth s; sh_sent_candidates := sent;
  sh_reauth_permit := sh_reauth_permit s; sh_abort_queue := sh_abort_queue s;
  sh_abort_open := sh_abort_open s; sh_last_seen := sh_last_seen s |}.
Definition with_session (s : WorkerShared) auth permit queue seen : WorkerShared := {|
  sh_capabilities := sh_capabilities s; sh_architectures := sh_architectures s;
  sh_system_features := sh_system_features s;
  sh_max_concurrent_builds := sh_max_concurrent_builds s; sh_cpu_count := sh_cpu_count s;
  sh_ram_total_mb := sh_ram_total_mb s; sh_cpu_core_score := sh_cpu_core_score s;
  sh_cpu_usage_pct := sh_cpu_usage_pct s; sh_ram_free_mb := sh_ram_free_mb s;
  sh_disk_speed_mbps := sh_disk_speed_mbps s; sh_network_speed_mbps := sh_network_speed_mbps s;
  sh_assigned_jobs := sh_assigned_jobs s; sh_peer_auth := auth;
  sh_sent_candidates := sh_sent_candidates s; sh_reauth_permit := permit;
  sh_abort_queue := queue; sh_abort_open := sh_abort_open s; sh_last_seen := seen |}.

(** The marker type of [TypedWorker] is the constructor of the slot. *)
Inductive WorkerSlot :=
| SlotActive (w : WorkerShared)
| SlotDraining (w : WorkerShared).

Definition shared (slot : WorkerSlot) : WorkerShared :=
  match slot with SlotActive w | SlotDraining w => w end.

Definition map_shared (f : WorkerShared -> WorkerShared) (slot : WorkerSlot) : WorkerSlot :=
  match slot with SlotActive w => SlotActive (f w) | SlotDraining w => SlotDraining (f w) end.

Definition is_draining (slot : WorkerSlot) : bool :=
  match slot with SlotDraining _ => true | SlotActive _ => false end.

(** [TypedWorker::<Active>::new]; [now] is the wall clock in milliseconds. *)
Definition TypedWorker_new (capabilities : GradientCapabilities)
    (authorized_peers : gset OrganizationId) (now : Z) : WorkerShared := {|
  sh_capabilities := capabilities;
  sh_architectures := [];
  sh_system_features := [];
  sh_max_concurrent_builds := 1;
  sh_cpu_count := 0;
  sh_ram_total_mb := 0;
  sh_cpu_core_score := 0;
  sh_cpu_usage_pct := None;
  sh_ram_free_mb := None;
  sh_disk_speed_mbps := None;
  sh_network_speed_mbps := None;
  sh_assigned_jobs := ∅;
  sh_peer_auth := from_peers authorized_peers;
  sh_sent_candidates := ∅;
  sh_reauth_permit := false;
  sh_abort_queue := [];
  sh_abort_open := true;
  sh_last_seen := now;
|}.

Definition has_build_capacity (w : WorkerShared) : bool :=
  u32 (Z.of_nat (size (sh_assigned_jobs w))) <? sh_max_concurrent_builds w.

Definition into_draining (w : WorkerShared) : WorkerSlot := SlotDraining w.

(** ** The pool *)

Record WorkerPool := {
  wp_workers : gmap string WorkerSlot;
  wp_worker_orgs : gmap string OrganizationId;
}.

Definition WorkerPool_new : WorkerPool := {| wp_workers := ∅; wp_worker_orgs := ∅ |}.

Definition with_workers (p : WorkerPool) ws : WorkerPool :=
  {| wp_workers := ws; wp_worker_orgs := wp_worker_orgs p |}.

(** [if let Some(slot) = self.workers.get_mut(id)] *)
Definition update_shared (p : WorkerPool) (id : string) (f : WorkerShared -> WorkerShared) : WorkerPool :=
  with_workers p (alter (map_shared f) id (wp_workers p)).

Definition is_connected (p : WorkerPool) (id : string) : bool :=
  bool_decide (is_Some (wp_workers p !! id)).

Definition register (p : WorkerPool) (id : string) (capabilities : GradientCapabilities)
    (authorized_peers : gset OrganizationId) (now : Z) : WorkerPool :=
  let prior := shared <$> wp_workers p !! id in
  let worker := TypedWorker_new capabilities authorized_peers now in
  let p := with_workers p (<[id := SlotActive worker]> (wp_workers p)) in
  match prior with
  | Some s => update_shared p id (fun w =>
      with_caps w (sh_architectures s) (sh_system_features s) (sh_max_concurrent_builds s)
        (sh_cpu_count s) (sh_ram_total_mb s) (sh_cpu_core_score s))
  | None => p
  end.

Definition set_worker_org (p : WorkerPool) (id : string) (org : OrganizationId) : WorkerPool :=
  {| wp_workers := wp_workers p; wp_worker_orgs := <[id := org]> (wp_worker_orgs p) |}.

Definition request_reauth (p : WorkerPool) (worker_id : string) : WorkerPool :=
  update_shared p worker_id (fun s =>
    with_session s (sh_peer_auth s) true (sh_abort_queue s) (sh_last_seen s)).

Definition send_abort (p : WorkerPool) (worker_id job_id reason : string) : WorkerPool * bool :=
  match wp_workers p !! worker_id with
  | Some slot =>
      if sh_abort_open (shared slot) then
        (update_shared p worker_id (fun s =>
           with_session s (sh_peer_auth s) (sh_reauth_permit s)
             (sh_abort_queue s ++ [(job_id, reason)]) (sh_last_seen s)), true)
      else (p, false)
  | None => (p, false)
  end.

Definition update_authorized_peers (p : WorkerPool) (id : string)
    (authorized_peers : gset OrganizationId) : WorkerPool :=
  update_shared p id (fun s =>
    with_session s (from_peers authorized_peers) (sh_reauth_permit s) (sh_abort_queue s) (sh_last_seen s)).

Definition peer_auth_for (p : WorkerPool) (id : string) : option PeerAuth :=
  (fun slot => sh_peer_auth (shared slot)) <$> wp_workers p !! id.

Definition gradient_caps_for (p : WorkerPool) (id : string) : option GradientCapabilities :=
  (fun slot => sh_capabilities (shared slot)) <$> wp_workers p !! id.

Definition metrics_for (p : WorkerPool) (id : string) : option WorkerMetricsView :=
  (fun slot => let s := shared slot in
     {| wm_cpu_count := sh_cpu_count s;
        wm_cpu_core_score := sh_cpu_core_score s;
        wm_ram_total_mb := sh_ram_total_mb s;
        wm_ram_free_mb := sh_ram_free_mb s;
        wm_cpu_usage_pct := sh_cpu_usage_pct s;
        wm_disk_speed_mbps := sh_disk_speed_mbps s;
        wm_network_speed_mbps := sh_network_speed_mbps s |}) <$> wp_workers p !! id.

Definition worker_caps (p : WorkerPool) (id : string) : option WorkerCaps :=
  (fun slot => let s := shared slot in
     {| caps_fetch := cap_fetch (sh_capabilities s);
        caps_architectures := sh_architectures s;
        caps_system_features := sh_system_features s;
        caps_capabilities := sh_capabilities s;
        caps_metrics := metrics_for p id |}) <$> wp_workers p !! id.

Definition update_capabilities (p : WorkerPool) (id : string)
    (architectures system_features : list string)
    (max_concurrent_builds cpu_count ram_total_mb cpu_core_score : Z) : WorkerPool :=
  update_shared p id (fun s =>
    with_caps s architectures system_features max_concurrent_builds cpu_count ram_total_mb cpu_core_score).

Definition update_metrics (p : WorkerPool) (id : string) (cpu_usage_pct : f32) (ram_free_mb : Z)
    (disk_speed_mbps network_speed_mbps : option f32) : WorkerPool :=
  update_shared p id (fun s =>
    with_metrics s (Some cpu_usage_pct) (Some ram_free_mb) disk_speed_mbps network_speed_mbps).

Definition mark_draining (p : WorkerPool) (id : string) : WorkerPool :=
  match wp_workers p !! id with
  | Some slot =>
      let new_slot := match slot with
                      | SlotActive w => into_draining w
                      | already_draining => already_draining
                      end in
      with_workers p (<[id := new_slot]> (delete id (wp_workers p)))
  | None => p
  end.

Definition mark_candidates_sent (p : WorkerPool) (worker_id : string) (job_ids : list string) : WorkerPool :=
  update_shared p worker_id (fun s =>
    with_jobs s (sh_assigned_jobs s) (sh_sent_candidates s ∪ list_to_set job_ids)).

Definition remove_sent_candidate (p : WorkerPool) (job_id : string) : WorkerPool :=
  with_workers p (map_shared (fun s =>
    with_jobs s (sh_assigned_jobs s) (sh_sent_candidates s ∖ {[job_id]})) <$> wp_workers p).

Definition sent_candidates_for (p : WorkerPool) (worker_id : string) : option (gset string) :=
  (fun slot => sh_sent_candidates (shared slot)) <$> wp_workers p !! worker_id.

Definition has_capacity (p : WorkerPool) (worker_id : string) (kind : JobKind) : bool :=
  match wp_workers p !! worker_id with
  | Some (SlotActive w) => match kind with
                           | JobKindFlake => true
                           | JobKindBuild => has_build_capacity w
                           end
  | Some (SlotDraining _) => false
  | None => false
  end.

Definition assign_job (p : WorkerPool) (worker_id job_id : string) : WorkerPool :=
  update_shared p worker_id (fun s =>
    with_jobs s ({[job_id]} ∪ sh_assigned_jobs s) (sh_sent_candidates s)).

Definition release_job (p : WorkerPool) (worker_id job_id : string) : WorkerPool * bool :=
  match wp_workers p !! worker_id with
  | Some slot =>
      (update_shared p worker_id (fun s =>
         with_jobs s (sh_assigned_jobs s ∖ {[job_id]}) (sh_sent_candidates s)),
       bool_decide (sh_assigned_jobs (shared slot) ∖ {[job_id]} = ∅))
  | None => (p, false)
  end.

Definition worker_count (p : WorkerPool) : nat := size (wp_workers p).

Section pool.
Context {HO : HashOrder}.

Definition unregister (p : WorkerPool) (id : string) : WorkerPool * list string :=
  let p' := {| wp_workers := delete id (wp_workers p); wp_worker_orgs := delete id (wp_worker_orgs p) |} in
  (p', match wp_workers p !! id with
       | Some slot => map fst (hash_iter (gset_to_gmap () (sh_assigned_jobs (shared slot))))
       | None => []
       end).

Definition has_idle_eval_only_worker (p : WorkerPool) : bool :=
  existsb (fun e => match e.2 with
    | SlotActive w => cap_eval (sh_capabilities w) && negb (cap_fetch (sh_capabilities w))
                      && bool_decide (sh_assigned_jobs w = ∅)
    | SlotDraining _ => false
    end) (hash_iter (wp_workers p)).

Definition worker_counts (p : WorkerPool) : Z * Z :=
  (u32 (Z.of_nat (size (wp_workers p))),
   u32 (Z.of_nat (length (List.filter
     (fun e => bool_decide (sh_assigned_jobs (shared e.2) = ∅)) (hash_iter (wp_workers p)))))).

Record WorkerInfo := {
  wi_id : string;
  wi_capabilities : GradientCapabilities;
  wi_architectures : list string;
  wi_system_features : list string;
  wi_max_concurrent_builds : Z;
  wi_assigned_job_count : nat;
  wi_draining : bool;
  wi_authorized_peers : option (gset OrganizationId);
  wi_organization : option OrganizationId;
  wi_cpu_usage_pct : option f32;
  wi_ram_free_mb : option Z;
  wi_ram_total_mb : Z;
  wi_disk_speed_mbps : option f32;
  wi_network_speed_mbps : option f32;
}.

Definition info_for (p : WorkerPool) (id : string) (slot : WorkerSlot) : WorkerInfo :=
  let s := shared slot in {|
  wi_id := id;
  wi_capabilities := sh_capabilities s;
  wi_architectures := sh_architectures s;
  wi_system_features := sh_system_features s;
  wi_max_concurrent_builds := sh_max_concurrent_builds s;
  wi_assigned_job_count := size (sh_assigned_jobs s);
  wi_draining := is_draining slot;
  wi_authorized_peers := as_filter (sh_peer_auth s);
  wi_organization := wp_worker_orgs p !! id;
  wi_cpu_usage_pct := sh_cpu_usage_pct s;
  wi_ram_free_mb := sh_ram_free_mb s;
  wi_ram_total_mb := sh_ram_total_mb s;
  wi_disk_speed_mbps := sh_disk_speed_mbps s;
  wi_network_speed_mbps := sh_network_speed_mbps s |}.

Definition all_workers (p : WorkerPool) : list WorkerInfo :=
  map (fun e => info_for p e.1 e.2) (hash_iter (wp_workers p)).

(** The [last_seen] stamp of the session loop. *)
Definition touch (p : WorkerPool) (id : string) (now : Z) : WorkerPool :=
  update_shared p id (fun s =>
    with_session s (sh_peer_auth s) (sh_reauth_permit s) (sh_abort_queue s) now).

Definition stale_worker_ids (p : WorkerPool) (now_ms timeout_ms : Z) : list string :=
  map fst (List.filter (fun e => timeout_ms <? now_ms - sh_last_seen (shared e.2))
    (hash_iter (wp_workers p))).
End pool.
