(* ===== verification/EdgeStream.v ===== *)
(** * The dependency edges of an evaluation stream

    [backend/gradient-scheduler/src/eval.rs]: derivations stream in batches whose
    dependencies may arrive later, so their edges are accumulated, the resolvable ones
    are recorded after every batch and the rest at the end of the stream.

    A table query is the list of its rows, or [None] when it fails; the outcome of the
    [i]-th insert is an argument. *)

From S2P Require Import Prelude RustStr StorePath Proto.

(** ** Paths *)

Inductive SourceError := InvalidPath.

(** [gradient-sources/src/nar_path.rs] *)
Definition parse_drv_hash_name (drv_path : string) : result (string * string) SourceError :=
  match split_once "-" drv_path with
  | None => Err InvalidPath
  | Some (hash, rest) =>
      match strip_suffix rest ".drv" with
      | None => Err InvalidPath
      | Some name => if (hash =? "")%string || (name =? "")%string then Err InvalidPath else Ok (hash, name)
      end
  end.

(** [gradient-eval/src/lib.rs] *)
Definition strip_nix_store_prefix (path : string) : string := default path (strip_prefix "/nix/store/" path).

(** The canonical, unprefixed store paths of a reported derivation. *)
Definition canonical (d : DiscoveredDerivation) : DiscoveredDerivation := {|
  disc_attr := disc_attr d;
  disc_drv_path := strip_nix_store_prefix (disc_drv_path d);
  disc_outputs := disc_outputs d;
  disc_dependencies := map strip_nix_store_prefix (disc_dependencies d);
  disc_input_sources := disc_input_sources d;
  disc_architecture := disc_architecture d;
  disc_required_features := disc_required_features d;
  disc_timeout_secs := disc_timeout_secs d;
  disc_max_silent_secs := disc_max_silent_secs d;
  disc_prefer_local_build := disc_prefer_local_build d;
  disc_is_fixed_output := disc_is_fixed_output d;
  disc_allow_substitutes := disc_allow_substitutes d;
  disc_pname := disc_pname d;
  disc_substituted := disc_substituted d |}.

(** ** The derivation table ([gradient-entity/src/derivation.rs]) *)

Record DerivationRow := { dr_id : N; dr_hash : string; dr_name : string }.

Definition drv_path (r : DerivationRow) : string :=
  StorePath_base (from_parts (dr_hash r) (String.append (dr_name r) ".drv")).

(** [.into_iter().map(|d| (d.drv_path(), d.id)).collect()] *)
Definition index_rows (rows : list DerivationRow) : gmap string N :=
  foldl (fun m r => <[drv_path r := dr_id r]> m) ∅ rows.

(** The rows whose hash is one of the parsed paths', by path. *)
Definition find_rows (rows : list DerivationRow) (paths : gset string) : gmap string N :=
  let hashes := omap (fun p => match parse_drv_hash_name p with Ok (h, _) => Some h | Err _ => None end)
                  (elements paths) in
  index_rows (List.filter (fun r => bool_decide (dr_hash r ∈ hashes)) rows).

(** ** The accumulator *)

Abbreviation EdgePairs := (list (string * list string)).

Record EvalEdgeAccumulator := {
  ea_known : gmap string N;
  ea_missing : gset string;
  ea_pending : EdgePairs;
  ea_leaves : list string;
}.

Definition edge_accumulator_default : EvalEdgeAccumulator :=
  {| ea_known := ∅; ea_missing := ∅; ea_pending := []; ea_leaves := [] |}.

Definition add_derivation (acc : EvalEdgeAccumulator) (d : DiscoveredDerivation) : EvalEdgeAccumulator :=
  let missing := ea_missing acc ∖ {[disc_drv_path d]} in
  match disc_dependencies d with
  | [] => {| ea_known := ea_known acc; ea_missing := missing; ea_pending := ea_pending acc;
             ea_leaves := ea_leaves acc ++ [disc_drv_path d] |}
  | deps => {| ea_known := ea_known acc; ea_missing := missing;
               ea_pending := ea_pending acc ++ [(disc_drv_path d, deps)];
               ea_leaves := ea_leaves acc |}
  end.

Definition add_batch (acc : EvalEdgeAccumulator) (derivations : list DiscoveredDerivation)
    : EvalEdgeAccumulator :=
  foldl add_derivation acc derivations.

Definition into_pending (acc : EvalEdgeAccumulator) : EdgePairs := ea_pending acc.

Definition has_key {A} (m : gmap string A) (p : string) : bool := bool_decide (is_Some (m !! p)).

Definition partition_ready_edges (pending : EdgePairs) (known : gmap string N)
    : EdgePairs * EdgePairs :=
  let ready p := has_key known p.1 && forallb (has_key known) p.2 in
  (List.filter ready pending, List.filter (fun p => negb (ready p)) pending).

(** ** Incremental flush *)

Definition BATCH_SIZE : nat := 1000.

(** Insert chunk by chunk, stopping at the first failure. *)
Fixpoint insert_until_failure {A} (outcome : nat -> bool) (i : nat) (cs : list (list A)) : list A * bool :=
  match cs with
  | [] => ([], true)
  | c :: cs =>
      if outcome i then let '(ins, ok) := insert_until_failure outcome (S i) cs in (c ++ ins, ok)
      else ([], false)
  end.

(** The paths not looked up yet. *)
Definition to_look_up (acc : EvalEdgeAccumulator) : gset string :=
  list_to_set (List.filter
    (fun p => negb (has_key (ea_known acc) p) && negb (bool_decide (p ∈ ea_missing acc)))
    (concat (map (fun p => p.1 :: p.2) (ea_pending acc)) ++ ea_leaves acc)).

Definition learn (found : gmap string N) (acc : EvalEdgeAccumulator) (p : string) : EvalEdgeAccumulator :=
  match found !! p with
  | Some id => {| ea_known := <[p := id]> (ea_known acc); ea_missing := ea_missing acc;
                  ea_pending := ea_pending acc; ea_leaves := ea_leaves acc |}
  | None => {| ea_known := ea_known acc; ea_missing := {[p]} ∪ ea_missing acc;
               ea_pending := ea_pending acc; ea_leaves := ea_leaves acc |}
  end.

(** The edges of resolvable pairs; the source indexes [known] where this skips. *)
Definition edges_of (known : gmap string N) (pairs : EdgePairs) : list (N * N) :=
  concat (map (fun p => match known !! p.1 with
    | Some src_id => omap (fun d => (fun dep_id => (src_id, dep_id)) <$> known !! d) p.2
    | None => [] end) pairs).

(** What a flush asks of the database: the edges inserted and the derivations marked
    [edges_complete]. *)
Record FlushResult := {
  fl_acc : EvalEdgeAccumulator;
  fl_inserted : list (N * N);
  fl_complete : list N;
  fl_ok : bool;
}.

(** [ready.is_empty() && complete.is_empty()] *)
Definition both_empty {A B} (l : list A) (k : list B) : bool :=
  match l, k with [], [] => true | _, _ => false end.

Definition flush_ready_edges (query : option (list DerivationRow)) (outcome : nat -> bool)
    (acc : EvalEdgeAccumulator) : FlushResult :=
  let paths := to_look_up acc in
  match (if bool_decide (paths = ∅) then Some acc
         else (fun rows => foldl (learn (find_rows rows paths)) acc (elements paths)) <$> query) with
  | None => {| fl_acc := acc; fl_inserted := []; fl_complete := []; fl_ok := false |}
  | Some acc =>
      let known := ea_known acc in
      let '(ready, still_pending) := partition_ready_edges (ea_pending acc) known in
      let complete := omap (fun p => known !! p.1) ready ++ omap (fun p => known !! p) (ea_leaves acc) in
      let leaves_left := List.filter (fun p => negb (has_key known p)) (ea_leaves acc) in
      let acc' pending := {| ea_known := known; ea_missing := ea_missing acc;
                             ea_pending := pending; ea_leaves := leaves_left |} in
      if both_empty ready complete
      then {| fl_acc := acc' still_pending; fl_inserted := []; fl_complete := []; fl_ok := true |}
      else
        let '(inserted, ok) := insert_until_failure outcome 0 (chunks BATCH_SIZE (edges_of known ready)) in
        if ok then {| fl_acc := acc' still_pending; fl_inserted := inserted; fl_complete := complete; fl_ok := true |}
        else {| fl_acc := acc' (still_pending ++ ready); fl_inserted := inserted; fl_complete := []; fl_ok := true |}
  end.

(** ** Completion flush *)

(** One pair of [resolve_deferred_edges]: edges, all sources, unresolved sources. *)
Definition resolve_pair (m : gmap string N) (acc : list (N * N) * gset N * gset N)
    (pair : string * list string) : list (N * N) * gset N * gset N :=
  let '(edges, all_sources, unresolved) := acc in
  match m !! pair.1 with
  | None => acc
  | Some src_id =>
      foldl (fun acc dep =>
        let '(edges, all_sources, unresolved) := acc in
        match m !! dep with
        | Some dep_id => (edges ++ [(src_id, dep_id)], all_sources, unresolved)
        | None => (edges, all_sources, {[src_id]} ∪ unresolved)
        end) (edges, {[src_id]} ∪ all_sources, unresolved) pair.2
  end.

Definition resolve_deferred_edges (deferred : EdgePairs) (m : gmap string N)
    : list (N * N) * gset N * gset N :=
  let '(edges, all_sources, unresolved) := foldl (resolve_pair m) ([], ∅, ∅) deferred in
  (edges, all_sources ∖ unresolved, unresolved).

(** Insert every chunk; a failed one is logged and skipped. *)
Fixpoint insert_each {A} (outcome : nat -> bool) (i : nat) (cs : list (list A)) : list A :=
  match cs with
  | [] => []
  | c :: cs => (if outcome i then c else []) ++ insert_each outcome (S i) cs
  end.

(** The inserted edges, the sources marked resolved and those marked unresolved; [None]
    when the query fails. *)
Definition flush_deferred_deps (query : option (list DerivationRow)) (outcome : nat -> bool)
    (deferred : EdgePairs) : option (list (N * N) * gset N * gset N) :=
  match deferred with
  | [] => Some ([], ∅, ∅)
  | _ =>
      let all_paths := list_to_set (concat (map (fun p => p.1 :: p.2) deferred)) in
      match query with
      | None => None
      | Some rows =>
          let '(edge_pairs, resolved, unresolved) :=
            resolve_deferred_edges deferred (find_rows rows all_paths) in
          Some (insert_each outcome 0 (chunks BATCH_SIZE edge_pairs), resolved, unresolved)
      end
  end.

(** ** The table as a function *)

(** Rows as the table guarantees them: a non-empty name, a non-empty hash without a
    dash, and one row per path. *)
Definition row_wf (r : DerivationRow) : Prop :=
  dr_hash r ≠ "" /\ dr_name r ≠ "" /\ contains_char "-" (dr_hash r) = false.

Definition rows_ok (rows : list DerivationRow) : Prop :=
  Forall row_wf rows /\ NoDup (map drv_path rows).

(** The derivation recorded for a path. *)
Definition row_id (rows : list DerivationRow) (p : string) : option N := index_rows rows !! p.

Lemma parse_drv_path r : row_wf r -> parse_drv_hash_name (drv_path r) = Ok (dr_hash r, dr_name r).
Proof.
  intros (Hh & Hn & Hd). unfold parse_drv_hash_name.
  assert (Hs : split_once "-" (drv_path r) = Some (dr_hash r, String.append (dr_name r) ".drv"))
    by by apply split_once_Some.
  rewrite Hs, strip_suffix_app.
  by rewrite (proj2 (String.eqb_neq _ _) Hh), (proj2 (String.eqb_neq _ _) Hn).
Qed.

Lemma index_rows_spec rows p i :
  NoDup (map drv_path rows) ->
  row_id rows p = Some i <-> exists r, r ∈ rows /\ drv_path r = p /\ dr_id r = i.
Proof.
  unfold row_id, index_rows.
  enough (H : forall m : gmap string N, NoDup (map drv_path rows) ->
    foldl (fun m r => <[drv_path r := dr_id r]> m) m rows !! p = Some i <->
    (exists r, r ∈ rows /\ drv_path r = p /\ dr_id r = i) \/
    (m !! p = Some i /\ p ∉ map drv_path rows)).
  { intros Hn. rewrite H by done. rewrite lookup_empty. naive_solver. }
  induction rows as [|r rows IH]; intros m; simpl.
  { intros _. split; [intros ?; right; split; [done|set_solver]|]. intros [(r & Hr & _)|[? _]]; [set_solver|done]. }
  intros [Hnin Hn]%NoDup_cons. rewrite IH by done. split.
  - intros [(r' & Hr & H)|[Hm Hp]].
    + left. exists r'. split; [by right|done].
    + destruct (decide (drv_path r = p)) as [<-|Hne].
      * rewrite lookup_insert_eq in Hm. injection Hm as <-. left. exists r. split_and!; [by left|done..].
      * rewrite lookup_insert_ne in Hm by done. right. split; [done|]. set_solver.
  - intros [(r' & [->|Hr]%elem_of_cons & <- & <-)|[Hm Hp]].
    + right. by rewrite lookup_insert_eq.
    + left. by exists r'.
    + right. rewrite lookup_insert_ne by set_solver. split; [done|set_solver].
Qed.

(** Looking a set of paths up finds exactly their rows. *)
Lemma find_rows_spec rows paths p :
  rows_ok rows -> p ∈ paths -> find_rows rows paths !! p = row_id rows p.
Proof.
  intros [Hwf Hn] Hp. unfold find_rows. set (hashes := omap _ _).
  set (sub := List.filter _ rows).
  assert (Hsub : NoDup (map drv_path sub)).
  { unfold sub. clear -Hn. induction rows as [|r rows IH]; simpl; [done|].
    apply NoDup_cons in Hn as [Hnin Hn]. case_bool_decide; simpl; [|by apply IH].
    apply NoDup_cons. split; [|by apply IH]. intros Hin. apply Hnin.
    apply list_elem_of_In, in_map_iff in Hin as (r' & <- & [Hin _]%List.filter_In).
    by apply list_elem_of_In, in_map. }
  assert (Hhash : forall r, r ∈ rows -> drv_path r = p -> r ∈ sub).
  { intros r Hr <-. apply list_elem_of_In, List.filter_In. split; [by apply list_elem_of_In|].
    apply bool_decide_eq_true. unfold hashes. apply list_elem_of_omap. exists (drv_path r).
    rewrite elem_of_elements. split; [done|]. rewrite Forall_forall in Hwf. by rewrite parse_drv_path by auto. }
  change (row_id sub p = row_id rows p). apply option_eq. intros i. rewrite !index_rows_spec by done. split.
  - intros (r & Hr & H). exists r. split; [|done].
    by apply list_elem_of_In, List.filter_In in Hr as [Hr%list_elem_of_In _].
  - intros (r & Hr & Hd & Hi). exists r. split; [by apply Hhash|done].
Qed.

(** A later table holds every row of an earlier one. *)
Lemma row_id_mono rows rows' p i :
  rows_ok rows -> rows_ok rows' -> rows ⊆ rows' -> row_id rows p = Some i -> row_id rows' p = Some i.
Proof.
  intros [_ Hn] [_ Hn'] Hsub. rewrite !index_rows_spec by done. intros (r & Hr & H). exists r.
  split; [by apply Hsub|done].
Qed.

(** ** The stream *)

(** The database and the accumulator during one evaluation, with every pair and leaf
    the worker reported so far. *)
Record StreamState := {
  ss_rows : list DerivationRow;
  ss_acc : EvalEdgeAccumulator;
  ss_edges : gset (N * N);
  ss_complete : gset N;
  ss_pairs : EdgePairs;
  ss_leaves : list string;
}.

Definition stream_start (rows : list DerivationRow) : StreamState :=
  {| ss_rows := rows; ss_acc := edge_accumulator_default; ss_edges := ∅; ss_complete := ∅;
     ss_pairs := []; ss_leaves := [] |}.

Definition pair_of (d : DiscoveredDerivation) : option (string * list string) :=
  match disc_dependencies d with [] => None | deps => Some (disc_drv_path d, deps) end.
Definition leaf_of (d : DiscoveredDerivation) : option string :=
  match disc_dependencies d with [] => Some (disc_drv_path d) | _ => None end.

(** Rows are only ever added; batches are reported and flushed in any order, and any
    query or insert may fail. *)
Inductive stream_step (s : StreamState) : StreamState -> Prop :=
| st_rows rows' :
    rows_ok rows' -> ss_rows s ⊆ rows' ->
    stream_step s {| ss_rows := rows'; ss_acc := ss_acc s; ss_edges := ss_edges s;
      ss_complete := ss_complete s; ss_pairs := ss_pairs s; ss_leaves := ss_leaves s |}
| st_batch ds :
    stream_step s {| ss_rows := ss_rows s; ss_acc := add_batch (ss_acc s) ds; ss_edges := ss_edges s;
      ss_complete := ss_complete s; ss_pairs := ss_pairs s ++ omap pair_of ds;
      ss_leaves := ss_leaves s ++ omap leaf_of ds |}
| st_flush (query_ok : bool) outcome :
    let r := flush_ready_edges (if query_ok then Some (ss_rows s) else None) outcome (ss_acc s) in
    stream_step s {| ss_rows := ss_rows s; ss_acc := fl_acc r;
      ss_edges := list_to_set (fl_inserted r) ∪ ss_edges s;
      ss_complete := list_to_set (fl_complete r) ∪ ss_complete s;
      ss_pairs := ss_pairs s; ss_leaves := ss_leaves s |}.

(** [(a, b)] is a reported dependency between recorded derivations. *)
Definition reported_edge (rows : list DerivationRow) (pairs : EdgePairs) (a b : N) : Prop :=
  exists src deps d, (src, deps) ∈ pairs /\ d ∈ deps /\ row_id rows src = Some a /\ row_id rows d = Some b.

Lemma insert_until_failure_all {A} (cs : list (list A)) i : insert_until_failure (fun _ => true) i cs = (concat cs, true).
Proof. revert i. induction cs as [|c cs IH]; intros i; simpl; [done|]. by rewrite IH. Qed.

(** All edges of a pair are recorded. *)
Definition pair_done (rows : list DerivationRow) (edges : gset (N * N)) (p : string * list string) : Prop :=
  exists a, row_id rows p.1 = Some a /\ forall d, d ∈ p.2 -> exists b, row_id rows d = Some b /\ (a, b) ∈ edges.

Record stream_inv (s : StreamState) : Prop := {
  iv_rows : rows_ok (ss_rows s);
  iv_known p i : ea_known (ss_acc s) !! p = Some i -> row_id (ss_rows s) p = Some i;
  iv_pending p : p ∈ ea_pending (ss_acc s) -> p ∈ ss_pairs s;
  iv_pairs p : p ∈ ss_pairs s -> p ∈ ea_pending (ss_acc s) \/ pair_done (ss_rows s) (ss_edges s) p;
  iv_leaves p : p ∈ ea_leaves (ss_acc s) -> p ∈ ss_leaves s;
  iv_edges a b : (a, b) ∈ ss_edges s -> reported_edge (ss_rows s) (ss_pairs s) a b;
  iv_complete i : i ∈ ss_complete s ->
    (exists p, p ∈ ss_leaves s /\ row_id (ss_rows s) p = Some i) \/
    (exists p, p ∈ ss_pairs s /\ row_id (ss_rows s) p.1 = Some i /\ pair_done (ss_rows s) (ss_edges s) p);
}.

(** ** Lemmas on one flush *)

Lemma learn_all found l acc :
  let acc' := foldl (learn found) acc l in
  ea_pending acc' = ea_pending acc /\ ea_leaves acc' = ea_leaves acc /\
  (forall p, ea_known acc' !! p = if decide (p ∈ l) then found !! p ∪ ea_known acc !! p else ea_known acc !! p) /\
  (forall p, p ∈ ea_missing acc' <-> p ∈ ea_missing acc \/ (p ∈ l /\ found !! p = None)).
Proof.
  revert acc. induction l as [|q l IH]; intros acc; cbn [foldl].
  { split_and!; [done|done|done|set_solver]. }
  destruct (IH (learn found acc q)) as (Hp & Hl & Hk & Hm). cbn [foldl] in *.
  assert (Hq : ea_pending (learn found acc q) = ea_pending acc /\ ea_leaves (learn found acc q) = ea_leaves acc)
    by (unfold learn; by case_match).
  destruct Hq as [Hqp Hql]. split_and!; [by rewrite Hp|by rewrite Hl|..].
  - intros p. rewrite Hk. unfold learn. destruct (decide (p = q)) as [->|Hne].
    + rewrite (decide_True (P := q ∈ q :: l)) by left.
      destruct (found !! q) as [i|] eqn:E; simpl; case_decide; rewrite ?lookup_insert_eq; try done;
        by destruct (ea_known acc !! q).
    + destruct (found !! q); simpl; rewrite ?lookup_insert_ne by done; repeat case_decide; try done; set_solver.
  - intros p. rewrite Hm. unfold learn. destruct (found !! q) as [i|] eqn:E; simpl; set_solver.
Qed.

Lemma partition_spec pending known :
  let '(ready, rest) := partition_ready_edges pending known in
  (forall p, p ∈ ready <-> p ∈ pending /\ (is_Some (known !! p.1) /\ forall d, d ∈ p.2 -> is_Some (known !! d))) /\
  (forall p, p ∈ rest <-> p ∈ pending /\ ~ (is_Some (known !! p.1) /\ forall d, d ∈ p.2 -> is_Some (known !! d))).
Proof.
  unfold partition_ready_edges.
  assert (Hready : forall p : string * list string,
    has_key known p.1 && forallb (has_key known) p.2 = true <->
    (is_Some (known !! p.1) /\ forall d, d ∈ p.2 -> is_Some (known !! d))).
  { intros p. unfold has_key. rewrite andb_true_iff, bool_decide_eq_true, forallb_forall.
    apply and_iff_compat_l. split; intros H d Hd.
    - apply (bool_decide_eq_true_1 _), H. by apply list_elem_of_In.
    - apply bool_decide_eq_true_2, H. by apply list_elem_of_In. }
  split; intros p; rewrite list_elem_of_In, List.filter_In, <- list_elem_of_In; [by rewrite Hready|].
  by rewrite negb_true_iff, <- not_true_iff_false, Hready.
Qed.

Lemma edges_of_elem known pairs a b :
  (a, b) ∈ edges_of known pairs <->
  exists src deps d, (src, deps) ∈ pairs /\ d ∈ deps /\ known !! src = Some a /\ known !! d = Some b.
Proof.
  unfold edges_of. rewrite list_elem_of_In, in_concat. split.
  - intros (l & ([src deps] & <- & Hp)%in_map_iff & Hin%list_elem_of_In). simpl in Hin.
    destruct (known !! src) as [i|] eqn:E; [|by apply elem_of_nil in Hin].
    apply list_elem_of_omap in Hin as (d & Hd & Hb). destruct (known !! d) as [j|] eqn:Ed; simplify_eq/=.
    exists src, deps, d. by rewrite list_elem_of_In.
  - intros (src & deps & d & Hp & Hd & Ha & Hb).
    eexists. split; [apply in_map_iff; exists (src, deps); split; [done|by apply list_elem_of_In]|].
    simpl. rewrite Ha. apply list_elem_of_In, list_elem_of_omap. exists d. by rewrite Hb.
Qed.

Lemma insert_until_failure_spec {A} outcome i (cs : list (list A)) :
  let '(ins, ok) := insert_until_failure outcome i cs in
  ins `prefix_of` concat cs /\ (ok = true -> ins = concat cs).
Proof.
  revert i. induction cs as [|c cs IH]; intros i; simpl; [by split|].
  destruct (outcome i); [|split; [apply prefix_nil|done]].
  specialize (IH (S i)). destruct (insert_until_failure outcome (S i) cs) as [ins ok].
  destruct IH as [Hp Hok]. split; [by apply prefix_app|]. intros H. by rewrite Hok.
Qed.

Lemma to_look_up_elem acc p :
  p ∈ to_look_up acc <->
  ((exists q, q ∈ ea_pending acc /\ p ∈ q.1 :: q.2) \/ p ∈ ea_leaves acc) /\
  ea_known acc !! p = None /\ p ∉ ea_missing acc.
Proof.
  unfold to_look_up. rewrite elem_of_list_to_set, list_elem_of_In, List.filter_In, in_app_iff, in_concat.
  unfold has_key. rewrite andb_true_iff, !negb_true_iff, !bool_decide_eq_false, <- list_elem_of_In.
  rewrite <- eq_None_not_Some. apply and_iff_compat_r. split.
  - intros [(l & (q & <- & Hq)%in_map_iff & Hin)|Hl]; [left|by right].
    exists q. by rewrite !list_elem_of_In.
  - intros [(q & Hq & Hin)|Hl]; [left|by right]. exists (q.1 :: q.2).
    split; [apply in_map_iff; exists q; split; [done|]|]; by apply list_elem_of_In.
Qed.

(** The accumulator after the lookup of a flush, when the query did not fail. *)
Definition looked_up (rows : list DerivationRow) (acc : EvalEdgeAccumulator) : EvalEdgeAccumulator :=
  foldl (learn (find_rows rows (to_look_up acc))) acc (elements (to_look_up acc)).

Definition known_sound (rows : list DerivationRow) (acc : EvalEdgeAccumulator) : Prop :=
  forall p i, ea_known acc !! p = Some i -> row_id rows p = Some i.

Lemma looked_up_spec rows acc :
  rows_ok rows -> known_sound rows acc ->
  known_sound rows (looked_up rows acc) /\
  ea_pending (looked_up rows acc) = ea_pending acc /\ ea_leaves (looked_up rows acc) = ea_leaves acc /\
  (forall p, p ∈ to_look_up acc -> ea_known (looked_up rows acc) !! p = row_id rows p) /\
  (forall p, p ∉ to_look_up acc -> ea_known (looked_up rows acc) !! p = ea_known acc !! p).
Proof.
  intros Hr Hs. unfold looked_up.
  destruct (learn_all (find_rows rows (to_look_up acc)) (elements (to_look_up acc)) acc) as (Hp & Hl & Hk & _).
  assert (Hin : forall p, p ∈ to_look_up acc ->
    ea_known (foldl (learn (find_rows rows (to_look_up acc))) acc (elements (to_look_up acc))) !! p = row_id rows p).
  { intros p Hin. rewrite Hk, decide_True, (find_rows_spec rows _ p) by (done || by apply elem_of_elements).
    apply to_look_up_elem in Hin as (_ & -> & _). by destruct (row_id rows p). }
  split_and!; try done.
  - intros p i. destruct (decide (p ∈ to_look_up acc)) as [H|H]; [by rewrite Hin|].
    rewrite Hk, decide_False by (by rewrite elem_of_elements). apply Hs.
  - intros p H. by rewrite Hk, decide_False by (by rewrite elem_of_elements).
Qed.

(** All edges of [p] are among [ins], by the ids [acc] knows. *)
Definition known_done (acc : EvalEdgeAccumulator) (ins : list (N * N)) (p : string * list string) (a : N) : Prop :=
  ea_known acc !! p.1 = Some a /\
  forall d, d ∈ p.2 -> exists b, ea_known acc !! d = Some b /\ (a, b) ∈ ins.

Lemma flush_spec rows (q : bool) outcome acc :
  rows_ok rows -> known_sound rows acc ->
  let r := flush_ready_edges (if q then Some rows else None) outcome acc in
  known_sound rows (fl_acc r) /\
  (forall p, p ∈ ea_pending (fl_acc r) -> p ∈ ea_pending acc) /\
  (forall p, p ∈ ea_pending acc -> p ∈ ea_pending (fl_acc r) \/ exists a, known_done (fl_acc r) (fl_inserted r) p a) /\
  (forall p, p ∈ ea_leaves (fl_acc r) -> p ∈ ea_leaves acc) /\
  (forall a b, (a, b) ∈ fl_inserted r -> exists src deps d, (src, deps) ∈ ea_pending acc /\ d ∈ deps /\
     ea_known (fl_acc r) !! src = Some a /\ ea_known (fl_acc r) !! d = Some b) /\
  (forall i, i ∈ fl_complete r ->
     (exists p, p ∈ ea_leaves acc /\ ea_known (fl_acc r) !! p = Some i) \/
     (exists p, p ∈ ea_pending acc /\ known_done (fl_acc r) (fl_inserted r) p i)).
Proof.
  intros Hr Hs. unfold flush_ready_edges.
  assert (Hlook : forall acc1, (if bool_decide (to_look_up acc = ∅) then Some acc
      else (fun rows => foldl (learn (find_rows rows (to_look_up acc))) acc (elements (to_look_up acc)))
             <$> (if q then Some rows else None)) = Some acc1 ->
    known_sound rows acc1 /\ ea_pending acc1 = ea_pending acc /\ ea_leaves acc1 = ea_leaves acc).
  { intros acc1. destruct (looked_up_spec rows acc Hr Hs) as (? & ? & ? & _).
    destruct (bool_decide _); [by intros [= <-]|]. destruct q; simpl; [|done]. by intros [= <-]. }
  destruct (if bool_decide _ then _ else _) as [acc1|]; cbv beta iota zeta.
  2: { simpl. split_and!; try done; [intros; by left|..]; intros * []%elem_of_nil. }
  destruct (Hlook acc1 eq_refl) as (Hs1 & Hp1 & Hl1). clear Hlook. rewrite Hp1, Hl1.
  pose proof (partition_spec (ea_pending acc) (ea_known acc1)) as Hpart.
  destruct (partition_ready_edges (ea_pending acc) (ea_known acc1)) as [ready rest].
  destruct Hpart as [Hready Hrest].
  pose proof (edges_of_elem (ea_known acc1) ready) as Hedges.
  assert (Hsplit : forall p, p ∈ ea_pending acc -> p ∈ rest \/ p ∈ ready).
  { intros p Hp. rewrite Hready, Hrest. 
    destruct (decide (is_Some (ea_known acc1 !! p.1) /\ Forall (fun d => is_Some (ea_known acc1 !! d)) p.2)) as [[? H]|H];
      [right|left]; rewrite ?Forall_forall in H; naive_solver. }
  assert (Hdone : forall p, p ∈ ready -> exists a, ea_known acc1 !! p.1 = Some a /\
    forall d, d ∈ p.2 -> exists b, ea_known acc1 !! d = Some b /\ (a, b) ∈ edges_of (ea_known acc1) ready).
  { intros [src deps] Hp. pose proof (proj1 (Hready _) Hp) as (_ & [a Ha] & Hd). exists a. split; [done|].
    intros d Hin. destruct (Hd d Hin) as [b Hb]. exists b. split; [done|]. apply Hedges. by exists src, deps, d. }
  assert (Hleft : forall p, p ∈ List.filter (fun p => negb (has_key (ea_known acc1) p)) (ea_leaves acc) ->
    p ∈ ea_leaves acc) by (intros p [? _]%list_elem_of_In%List.filter_In; by apply list_elem_of_In).
  destruct (both_empty _ _) eqn:Enothing.
  { simpl. split_and!; try done; try (intros * []%elem_of_nil).
    - intros p Hp. by apply Hrest in Hp as [? _].
    - intros p Hp. destruct (Hsplit p Hp) as [|H]; [by left|]. destruct ready; [by apply elem_of_nil in H|done]. }
  pose proof (insert_until_failure_spec outcome 0 (chunks BATCH_SIZE (edges_of (ea_known acc1) ready))) as Hins.
  rewrite concat_chunks in Hins by done.
  destruct (insert_until_failure _ _ _) as [ins ok]. destruct Hins as [Hpre Hok].
  assert (Hsub : forall a b, (a, b) ∈ ins -> exists src deps d, (src, deps) ∈ ea_pending acc /\ d ∈ deps /\
     ea_known acc1 !! src = Some a /\ ea_known acc1 !! d = Some b).
  { intros a b Hab. assert (Hin : (a, b) ∈ edges_of (ea_known acc1) ready)
      by (destruct Hpre as [k ->]; set_solver). apply Hedges in Hin as (src & deps & d & Hp & H).
    exists src, deps, d. split; [by apply Hready in Hp as [? _]|done]. }
  destruct ok; simpl; [rewrite (Hok eq_refl) in *|]; split_and!; try done.
  - intros p Hp. by apply Hrest in Hp as [? _].
  - intros p Hp. destruct (Hsplit p Hp) as [|H]; [by left|right]. by apply Hdone.
  - intros i [Hi|Hi]%elem_of_app; [right|left]; apply list_elem_of_omap in Hi as (p & Hp & Hk).
    + exists p. split; [by apply Hready in Hp as [? _]|]. destruct (Hdone p Hp) as (a & Ha & Hd).
      rewrite Ha in Hk. injection Hk as ->. by split.
    + by exists p.
  - intros p [Hp|Hp]%elem_of_app; [by apply Hrest in Hp as [? _]|by apply Hready in Hp as [? _]].
  - intros p Hp. left. apply elem_of_app. by destruct (Hsplit p Hp); [left|right].
  - intros i Hi. by apply elem_of_nil in Hi.
Qed.

(** ** The invariant *)

Lemma reported_edge_mono rows rows' pairs pairs' a b :
  (forall p i, row_id rows p = Some i -> row_id rows' p = Some i) -> pairs ⊆ pairs' ->
  reported_edge rows pairs a b -> reported_edge rows' pairs' a b.
Proof. intros Hr Hp (src & deps & d & Hin & Hd & Ha & Hb). exists src, deps, d. by auto 10. Qed.

Lemma pair_done_mono rows rows' edges edges' p :
  (forall p i, row_id rows p = Some i -> row_id rows' p = Some i) -> edges ⊆ edges' ->
  pair_done rows edges p -> pair_done rows' edges' p.
Proof.
  intros Hr He (a & Ha & Hd). exists a. split; [by auto|]. intros d Hin.
  destruct (Hd d Hin) as (b & Hb & Hab). exists b. by auto.
Qed.

Lemma add_batch_spec acc ds :
  ea_known (add_batch acc ds) = ea_known acc /\
  ea_pending (add_batch acc ds) = ea_pending acc ++ omap pair_of ds /\
  ea_leaves (add_batch acc ds) = ea_leaves acc ++ omap leaf_of ds.
Proof.
  unfold add_batch. revert acc. induction ds as [|d ds IH]; intros acc; cbn [foldl omap list_omap].
  { by rewrite !app_nil_r. }
  destruct (IH (add_derivation acc d)) as (-> & -> & ->). unfold add_derivation, pair_of, leaf_of.
  by destruct (disc_dependencies d); simpl; rewrite <- ?app_assoc.
Qed.

Lemma known_done_pair rows acc ins edges p a :
  known_sound rows acc -> list_to_set ins ⊆ edges -> known_done acc ins p a ->
  row_id rows p.1 = Some a /\ pair_done rows edges p.
Proof.
  intros Hs Hsub [Ha Hd]. split; [by apply Hs|]. exists a. split; [by apply Hs|]. intros d Hin.
  destruct (Hd d Hin) as (b & Hb & Hab). exists b. split; [by apply Hs|]. apply Hsub. by apply elem_of_list_to_set.
Qed.

Lemma stream_step_inv s s' : stream_inv s -> stream_step s s' -> stream_inv s'.
Proof.
  intros [Hrows Hk Hpend Hpairs Hleaves Hedges Hcompl] Hstep. destruct Hstep as [rows' Hok Hsub|ds|q outcome r].
  - pose proof (fun p i => row_id_mono _ rows' p i Hrows Hok Hsub) as Hmono. split; simpl; try done; [by auto|..].
    + intros p Hp. destruct (Hpairs p Hp) as [|Hd]; [by left|right]. by eapply pair_done_mono.
    + intros a b Hab. by eapply reported_edge_mono, Hedges.
    + intros i Hi. destruct (Hcompl i Hi) as [(p & Hp & Hr)|(p & Hp & Hr & Hd)]; [left|right]; exists p;
        [by auto|]. split_and!; [done|by auto|]. by eapply pair_done_mono.
  - destruct (add_batch_spec (ss_acc s) ds) as (Hk' & Hp' & Hl').
    split; simpl; rewrite ?Hk', ?Hp', ?Hl'; try done.
    + intros p. rewrite !elem_of_app. naive_solver.
    + intros p. rewrite !elem_of_app. naive_solver.
    + intros p. rewrite !elem_of_app. naive_solver.
    + intros a b Hab. eapply reported_edge_mono, Hedges; [done|set_solver|done].
    + intros i Hi. destruct (Hcompl i Hi) as [(p & Hp & Hr)|(p & Hp & Hr)]; [left|right]; exists p;
        (split; [by apply elem_of_app; left|done]).
  - destruct (flush_spec (ss_rows s) q outcome (ss_acc s) Hrows Hk) as (Hk' & Hp & Hpd & Hl & He & Hc).
    fold r in Hk', Hp, Hpd, Hl, He, Hc.
    assert (Hsub : ss_edges s ⊆ list_to_set (fl_inserted r) ∪ ss_edges s) by set_solver.
    assert (Hins : list_to_set (fl_inserted r) ⊆ list_to_set (fl_inserted r) ∪ ss_edges s) by set_solver.
    split; simpl; [done|exact Hk'|by auto| |by auto|..].
    + intros p Hin. destruct (Hpairs p Hin) as [Hin'|Hd].
      * destruct (Hpd p Hin') as [|[a Hd]]; [by left|right]. by eapply known_done_pair.
      * right. eapply pair_done_mono; [|exact Hsub|exact Hd]. done.
    + intros a b [Hab%elem_of_list_to_set|Hab]%elem_of_union; [|by apply Hedges].
      destruct (He a b Hab) as (src & deps & d & Hin & Hd & Ha & Hb). exists src, deps, d. by auto 10.
    + intros i [Hi%elem_of_list_to_set|Hi]%elem_of_union.
      * destruct (Hc i Hi) as [(p & Hin & Hi')|(p & Hin & Hd)]; [left|right]; exists p; [by auto|].
        split; [by auto|]. by eapply known_done_pair.
      * destruct (Hcompl i Hi) as [|(p & Hin & Hi' & Hd)]; [by left|right]. exists p. split_and!; try done.
        eapply pair_done_mono; [|exact Hsub|exact Hd]. done.
Qed.

Lemma stream_start_inv rows : rows_ok rows -> stream_inv (stream_start rows).
Proof.
  intros Hr. split; simpl; try done; try set_solver.
Qed.

Lemma stream_reach_inv rows s : rows_ok rows -> rtc stream_step (stream_start rows) s -> stream_inv s.
Proof.
  intros Hr Hrtc. pose proof (stream_start_inv rows Hr) as Hinit.
  induction Hrtc as [|x y z Hstep _ IH]; [done|]. by eapply IH, stream_step_inv.
Qed.

(** ** Completion *)

(** The inner loop of [resolve_deferred_edges]. *)
Lemma resolve_deps_spec (m : gmap string N) src_id deps edges all_sources unresolved :
  let '(edges', all_sources', unresolved') :=
    foldl (fun acc dep =>
        let '(edges, all_sources, unresolved) := acc in
        match m !! dep with
        | Some dep_id => (edges ++ [(src_id, dep_id)], all_sources, unresolved)
        | None => (edges, all_sources, {[src_id]} ∪ unresolved)
        end) (edges, all_sources, unresolved) deps in
  all_sources' = (all_sources : gset N) /\
  (forall a b, (a, b) ∈ edges' <-> (a, b) ∈ edges \/ a = src_id /\ exists d, d ∈ deps /\ m !! d = Some b) /\
  (forall a : N, a ∈ (unresolved' : gset N) <-> a ∈ unresolved \/ a = src_id /\ exists d, d ∈ deps /\ m !! d = None).
Proof.
  revert edges unresolved. induction deps as [|d deps IH]; intros edges unresolved; cbn [foldl].
  { split_and!; [done|..]; intros; split; [by left|intros [?|(_ & ? & []%elem_of_nil & _)]; done|
      by left|intros [?|(_ & ? & []%elem_of_nil & _)]; done]. }
  destruct (m !! d) as [j|] eqn:E; cbv beta iota;
    [specialize (IH (edges ++ [(src_id, j)]) unresolved)|specialize (IH edges ({[src_id]} ∪ unresolved))];
    destruct (foldl _ _ deps) as [[edges' all'] un']; destruct IH as (Ha & He & Hu);
    (split; [exact Ha|]); split; intros.
  - rewrite He, elem_of_app, list_elem_of_singleton. split.
    + intros [[?|[= -> ->]]|(-> & x & Hx & Hb)]; [by left|right; split; [done|exists d]|right; split; [done|exists x]];
        (split; [|done]); set_solver.
    + intros [?|(-> & x & [->|Hx]%elem_of_cons & Hb)]; [by left; left|left; right|right]; [congruence|eauto].
  - rewrite Hu. split; [intros [?|(-> & x & Hx & Hb)]; [by left|right]|
      intros [?|(-> & x & [->|Hx]%elem_of_cons & Hb)]; [by left|congruence|right]; by eauto].
    split; [done|exists x]. split; [by right|done].
  - rewrite He. split; [intros [?|(-> & x & Hx & Hb)]; [by left|right]|
      intros [?|(-> & x & [->|Hx]%elem_of_cons & Hb)]; [by left|congruence|right]; by eauto].
    split; [done|exists x]. split; [by right|done].
  - rewrite Hu, elem_of_union, elem_of_singleton. split.
    + intros [[->|?]|(-> & x & Hx & Hb)]; [right; split; [done|exists d]|by left|right; split; [done|exists x]];
        (split; [|done]); set_solver.
    + intros [?|(-> & x & [->|Hx]%elem_of_cons & Hb)]; [by left; right|by left; left|right; by eauto].
Qed.

Lemma resolve_spec m pairs :
  let '(edges, all_sources, unresolved) := foldl (resolve_pair m) ([], ∅, ∅) pairs in
  (forall a b, (a, b) ∈ edges <-> exists src deps d, (src, deps) ∈ pairs /\ d ∈ deps /\ m !! src = Some a /\ m !! d = Some b) /\
  (forall a, a ∈ all_sources <-> exists p, p ∈ pairs /\ m !! p.1 = Some a) /\
  (forall a, a ∈ unresolved <-> exists p, p ∈ pairs /\ m !! p.1 = Some a /\ exists d, d ∈ p.2 /\ m !! d = None).
Proof.
  induction pairs as [|[src deps] pairs IH] using rev_ind.
  { simpl. split_and!; intros; split; set_solver. }
  rewrite foldl_app. cbn [foldl]. destruct (foldl (resolve_pair m) ([], ∅, ∅) pairs) as [[edges all] un].
  destruct IH as (He & Ha & Hu). unfold resolve_pair. cbn [fst snd].
  destruct (m !! src) as [i|] eqn:Esrc.
  - pose proof (resolve_deps_spec m i deps edges ({[i]} ∪ all) un) as H.
    destruct (foldl _ _ deps) as [[edges' all'] un']. destruct H as (-> & He' & Hu'). split_and!.
    + intros a b. rewrite He', He. setoid_rewrite elem_of_app. setoid_rewrite list_elem_of_singleton.
      split; [intros [(s & ds & d & Hp & H)|(-> & d & Hd & Hb)]; [exists s, ds, d|exists src, deps, d]; tauto|].
      intros (s & ds & d & [Hp|[= -> ->]] & Hd & Hs & Hb); [left; by exists s, ds, d|right].
      split; [congruence|by exists d].
    + intros a. rewrite elem_of_union, elem_of_singleton, Ha. setoid_rewrite elem_of_app.
      setoid_rewrite list_elem_of_singleton. split.
      * intros [->|(p & Hp & H)]; [exists (src, deps)|exists p]; tauto.
      * intros (p & [Hp| ->] & H); [right; by exists p|left; simpl in H; congruence].
    + intros a. rewrite Hu', Hu. setoid_rewrite elem_of_app. setoid_rewrite list_elem_of_singleton. split.
      * intros [(p & Hp & H)|(-> & d & Hd & Hb)]; [exists p; tauto|exists (src, deps)].
        split; [by right|]. split; [done|by exists d].
      * intros (p & [Hp| ->] & H & Hd); [left; by exists p|right]. simpl in H. split; [congruence|done].
  - split_and!; intros; rewrite ?He, ?Ha, ?Hu; setoid_rewrite elem_of_app; setoid_rewrite list_elem_of_singleton.
    + split; [intros (s & ds & d & Hp & H); exists s, ds, d; tauto|].
      intros (s & ds & d & [Hp|[= -> ->]] & Hd & Hs & Hb); [by exists s, ds, d|congruence].
    + split; [intros (p & Hp & H); exists p; tauto|]. intros (p & [Hp| ->] & H); [by exists p|simpl in H; congruence].
    + split; [intros (p & Hp & H); exists p; tauto|]. intros (p & [Hp| ->] & H & Hd); [by exists p|simpl in H; congruence].
Qed.

Lemma insert_each_all {A} (cs : list (list A)) i : insert_each (fun _ => true) i cs = concat cs.
Proof. revert i. induction cs as [|c cs IH]; intros i; simpl; [done|]. by rewrite IH. Qed.

Lemma mentioned_elem (pairs : EdgePairs) p :
  p ∈ (list_to_set (concat (map (fun p => p.1 :: p.2) pairs)) : gset string) <->
  exists q, q ∈ pairs /\ p ∈ q.1 :: q.2.
Proof.
  rewrite elem_of_list_to_set, list_elem_of_In, in_concat. split.
  - intros (l & (q & <- & Hq)%in_map_iff & Hin). exists q. by rewrite !list_elem_of_In.
  - intros (q & Hq & Hin). exists (q.1 :: q.2).
    split; [apply in_map_iff; exists q; split; [done|]|]; by apply list_elem_of_In.
Qed.

(** What the completion flush inserts and marks, when nothing fails. *)
Lemma flush_deferred_spec rows deferred :
  rows_ok rows ->
  exists ins resolved unresolved,
    flush_deferred_deps (Some rows) (fun _ => true) deferred = Some (ins, resolved, unresolved) /\
    (forall a b, (a, b) ∈ ins <-> reported_edge rows deferred a b) /\
    (forall a, a ∈ unresolved <-> exists p, p ∈ deferred /\ row_id rows p.1 = Some a /\
       exists d, d ∈ p.2 /\ row_id rows d = None) /\
    (forall a, a ∈ resolved <-> (exists p, p ∈ deferred /\ row_id rows p.1 = Some a) /\ a ∉ unresolved).
Proof.
  intros Hr. destruct deferred as [|p0 deferred].
  { exists [], ∅, ∅. split; [done|]. unfold reported_edge. split_and!; intros; split; set_solver. }
  unfold flush_deferred_deps. generalize (p0 :: deferred). clear p0 deferred. intros deferred.
  set (m := find_rows rows _). pose proof (resolve_spec m deferred) as H. unfold resolve_deferred_edges.
  assert (Hm : forall q p, q ∈ deferred -> p ∈ q.1 :: q.2 -> m !! p = row_id rows p).
  { intros q p Hq Hp. apply find_rows_spec; [done|]. apply mentioned_elem. by exists q. }
  assert (Hsrc : forall p, p ∈ deferred -> m !! p.1 = row_id rows p.1) by (intros p Hp; apply (Hm p); [done|left]).
  assert (Hdep : forall p d, p ∈ deferred -> d ∈ p.2 -> m !! d = row_id rows d)
    by (intros p d Hp Hd; apply (Hm p); [done|by right]).
  destruct (foldl (resolve_pair m) ([], ∅, ∅) deferred) as [[edges all] un]. destruct H as (He & Ha & Hu).
  eexists _, _, _. split; [done|]. rewrite insert_each_all, concat_chunks by done. split_and!.
  - intros a b. rewrite He. unfold reported_edge. split; intros (src & deps & d & Hp & Hd & Hs & Hb);
      exists src, deps, d; pose proof (Hsrc _ Hp); pose proof (Hdep _ d Hp Hd); simpl in *; split_and!; congruence.
  - intros a. rewrite Hu. split; intros (p & Hp & Hs & d & Hd & Hb); exists p;
      pose proof (Hsrc _ Hp); pose proof (Hdep _ d Hp Hd); (split; [done|]); (split; [congruence|]);
      exists d; (split; [done|congruence]).
  - intros a. rewrite elem_of_difference, Ha. apply and_iff_compat_r.
    split; intros (p & Hp & Hs); exists p; pose proof (Hsrc _ Hp); (split; [done|congruence]).
Qed.

(** ** Properties *)

(** C7. No edge is lost or invented. Whatever the batches, whichever queries and inserts
    failed on the way and however the table grew: once the completion flush succeeds,
    the recorded edges are exactly the reported dependencies between recorded
    derivations, and a reported derivation with an unrecorded dependency is marked
    unresolved. *)
Theorem stream_edges_exact rows s :
  rows_ok rows -> rtc stream_step (stream_start rows) s ->
  exists ins resolved unresolved,
    flush_deferred_deps (Some (ss_rows s)) (fun _ => true) (into_pending (ss_acc s)) =
      Some (ins, resolved, unresolved) /\
    (forall a b, (a, b) ∈ (list_to_set ins ∪ ss_edges s : gset (N * N)) <->
       reported_edge (ss_rows s) (ss_pairs s) a b) /\
    (forall src deps d a, (src, deps) ∈ ss_pairs s -> row_id (ss_rows s) src = Some a ->
       d ∈ deps -> row_id (ss_rows s) d = None -> a ∈ unresolved).
Proof.
  intros Hr Hrtc. destruct (stream_reach_inv rows s Hr Hrtc) as [Hrows Hk Hpend Hpairs Hleaves Hedges Hcompl].
  destruct (flush_deferred_spec (ss_rows s) (into_pending (ss_acc s)) Hrows) as (ins & res & un & Hf & Hins & Hun & _).
  exists ins, res, un. split; [done|]. split.
  - intros a b. rewrite elem_of_union, elem_of_list_to_set, Hins. split.
    + intros [(src & deps & d & Hp & H)|Hab]; [|by apply Hedges]. exists src, deps, d. split; [by apply Hpend|done].
    + intros (src & deps & d & Hp & Hd & Ha & Hb). destruct (Hpairs _ Hp) as [Hin|(a' & Ha' & Hdone)].
      * left. by exists src, deps, d.
      * right. simpl in Ha', Hdone. destruct (Hdone d Hd) as (b' & Hb' & Hab). congruence.
  - intros src deps d a Hp Ha Hd Hn. apply Hun. exists (src, deps). split; [|split; [done|by exists d]].
    destruct (Hpairs _ Hp) as [Hin|(a' & Ha' & Hdone)]; [done|].
    destruct (Hdone d Hd) as (b & Hb & _). congruence.
Qed.

(** A derivation is marked complete mid-stream only when it is: it was reported
    without dependencies, or as a derivation all of whose dependencies are recorded
    and whose every edge is in the table. *)
Theorem complete_mark_sound rows s i :
  rows_ok rows -> rtc stream_step (stream_start rows) s -> i ∈ ss_complete s ->
  (exists p, p ∈ ss_leaves s /\ row_id (ss_rows s) p = Some i) \/
  (exists src deps, (src, deps) ∈ ss_pairs s /\ row_id (ss_rows s) src = Some i /\
     forall d, d ∈ deps -> exists b, row_id (ss_rows s) d = Some b /\ (i, b) ∈ ss_edges s).
Proof.
  intros Hr Hrtc Hi. destruct (iv_complete _ (stream_reach_inv rows s Hr Hrtc) i Hi) as [H|(p & Hp & Ha & Hd)].
  { by left. }
  right. destruct p as [src deps]. exists src, deps. simpl in *. split_and!; try done.
  destruct Hd as (a & Ha' & Hd). simpl in *. rewrite Ha in Ha'. injection Ha' as <-. exact Hd.
Qed.

Lemma not_ready_endpoint (known : gmap string N) (p : string * list string) :
  ~ (is_Some (known !! p.1) /\ forall d, d ∈ p.2 -> is_Some (known !! d)) ->
  exists q, q ∈ p.1 :: p.2 /\ known !! q = None.
Proof.
  intros H. destruct (decide (Forall (fun q => is_Some (known !! q)) (p.1 :: p.2))) as [HF|HF].
  - apply Forall_cons in HF as [Ha Hd]. rewrite Forall_forall in Hd. by destruct H.
  - apply (not_Forall_Exists _ _) in HF. apply Exists_exists in HF as (q & Hq & Hn).
    exists q. split; [done|]. by apply eq_None_not_Some.
Qed.

(** A flush leaves nothing resolvable behind: when no path remembered as missing has a
    row and nothing fails, every pair still pending mentions a derivation without a row,
    and so does every leaf kept, so builds are released as soon as the table allows. *)
Theorem flush_progress rows acc :
  rows_ok rows -> known_sound rows acc -> (forall p, p ∈ ea_missing acc -> row_id rows p = None) ->
  let acc' := fl_acc (flush_ready_edges (Some rows) (fun _ => true) acc) in
  (forall p, p ∈ ea_pending acc' -> exists q, q ∈ p.1 :: p.2 /\ row_id rows q = None) /\
  (forall p, p ∈ ea_leaves acc' -> row_id rows p = None).
Proof.
  intros Hr Hs Hmiss. unfold flush_ready_edges.
  destruct (looked_up_spec rows acc Hr Hs) as (Hs1 & Hp1 & Hl1 & Hin & Hout).
  set (look := if bool_decide _ then _ else _).
  assert (Hlook : look = Some (looked_up rows acc)).
  { unfold look. case_bool_decide as He; [|done]. f_equal. unfold looked_up. by rewrite He, elements_empty. }
  rewrite Hlook. clear look Hlook. revert Hs1 Hp1 Hl1 Hin Hout.
  generalize (looked_up rows acc). intros acc1 Hs1 Hp1 Hl1 Hin Hout. cbv beta iota zeta. rewrite Hp1, Hl1.
  assert (Hnone : forall q, (exists p, p ∈ ea_pending acc /\ q ∈ p.1 :: p.2) \/ q ∈ ea_leaves acc ->
    ea_known acc1 !! q = None -> row_id rows q = None).
  { intros q Hm Hn. destruct (decide (q ∈ to_look_up acc)) as [H|H]; [by rewrite <- Hin|].
    rewrite Hout in Hn by done. rewrite to_look_up_elem in H.
    destruct (decide (q ∈ ea_missing acc)); [by apply Hmiss|]. by destruct H. }
  pose proof (partition_spec (ea_pending acc) (ea_known acc1)) as Hpart.
  destruct (partition_ready_edges (ea_pending acc) (ea_known acc1)) as [ready rest].
  destruct Hpart as [_ Hrest].
  assert (Hgoal : forall p, p ∈ rest -> exists q, q ∈ p.1 :: p.2 /\ row_id rows q = None).
  { intros p [Hp Hn%not_ready_endpoint]%Hrest. destruct Hn as (q & Hq & Hn). exists q. split; [done|].
    apply Hnone; [|done]. left. by exists p. }
  assert (Hleft : forall p, p ∈ List.filter (fun p => negb (has_key (ea_known acc1) p)) (ea_leaves acc) ->
    row_id rows p = None).
  { intros p [Hp Hn%negb_true_iff]%list_elem_of_In%List.filter_In. apply Hnone; [right; by apply list_elem_of_In|].
    by apply bool_decide_eq_false, eq_None_not_Some in Hn. }
  destruct (both_empty _ _); [done|].
  pose proof (insert_until_failure_all (chunks BATCH_SIZE (edges_of (ea_known acc1) ready)) 0) as ->. done.
Qed.

(** ** Witnesses *)

Definition example_rows : list DerivationRow :=
  [{| dr_id := 1; dr_hash := "aa"; dr_name := "x" |}; {| dr_id := 2; dr_hash := "bb"; dr_name := "y" |}].

Lemma example_rows_ok : rows_ok example_rows.
Proof.
  split; [repeat constructor; discriminate|]. vm_compute.
  repeat (apply NoDup_cons; split; [|]); try apply NoDup_nil_2; intros H;
    repeat (apply elem_of_cons in H as [H|H]; [discriminate|]); by apply elem_of_nil in H.
Qed.

Definition example_derivation (path : string) (deps : list string) : DiscoveredDerivation := {|
  disc_attr := ""; disc_drv_path := path; disc_outputs := []; disc_dependencies := deps;
  disc_input_sources := []; disc_architecture := "x86_64-linux"; disc_required_features := [];
  disc_timeout_secs := None; disc_max_silent_secs := None; disc_prefer_local_build := false;
  disc_is_fixed_output := false; disc_allow_substitutes := true; disc_pname := None;
  disc_substituted := false |}.

(** Both derivations reported in one batch, then flushed. *)
Definition example_stream : StreamState :=
  let acc := add_batch edge_accumulator_default
    [example_derivation "aa-x.drv" ["bb-y.drv"]; example_derivation "bb-y.drv" []] in
  let r := flush_ready_edges (Some example_rows) (fun _ => true) acc in
  {| ss_rows := example_rows; ss_acc := fl_acc r; ss_edges := list_to_set (fl_inserted r) ∪ ∅;
     ss_complete := list_to_set (fl_complete r) ∪ ∅;
     ss_pairs := [("aa-x.drv", ["bb-y.drv"])]; ss_leaves := ["bb-y.drv"] |}.

Lemma example_stream_reachable : rtc stream_step (stream_start example_rows) example_stream.
Proof.
  eapply rtc_r; [eapply rtc_once, (st_batch (stream_start example_rows)
    [example_derivation "aa-x.drv" ["bb-y.drv"]; example_derivation "bb-y.drv" []])|].
  exact (st_flush {| ss_rows := example_rows; ss_acc := _; ss_edges := ∅; ss_complete := ∅;
    ss_pairs := [("aa-x.drv", ["bb-y.drv"])]; ss_leaves := ["bb-y.drv"] |} true (fun _ => true)).
Qed.

Lemma stream_edges_exact_witness :
  rows_ok example_rows /\
  exists ins resolved unresolved,
    flush_deferred_deps (Some example_rows) (fun _ => true) (into_pending (ss_acc example_stream)) =
      Some (ins, resolved, unresolved) /\
    (1%N, 2%N) ∈ (list_to_set ins ∪ ss_edges example_stream : gset (N * N)).
Proof.
  split; [exact example_rows_ok|].
  destruct (stream_edges_exact example_rows example_stream example_rows_ok example_stream_reachable)
    as (ins & res & un & Hf & He & _). exists ins, res, un. split; [exact Hf|].
  apply He. exists "aa-x.drv", ["bb-y.drv"], "bb-y.drv".
  split; [left|]. split; [left|]. split; vm_compute; reflexivity.
Defined.

Lemma complete_mark_sound_witness :
  1%N ∈ ss_complete example_stream /\
  ((exists p, p ∈ ss_leaves example_stream /\ row_id example_rows p = Some 1%N) \/
   (exists src deps, (src, deps) ∈ ss_pairs example_stream /\ row_id example_rows src = Some 1%N /\
      forall d, d ∈ deps -> exists b, row_id example_rows d = Some b /\ (1%N, b) ∈ ss_edges example_stream)).
Proof.
  assert (H : 1%N ∈ ss_complete example_stream)
    by (apply (bool_decide_eq_true_1 (1%N ∈ ss_complete example_stream)); vm_compute; reflexivity).
  split; [exact H|].
  exact (complete_mark_sound example_rows example_stream 1%N example_rows_ok example_stream_reachable H).
Defined.

Lemma flush_progress_witness :
  rows_ok example_rows /\
  (forall p, p ∈ ea_pending (fl_acc (flush_ready_edges (Some example_rows) (fun _ => true)
       (add_batch edge_accumulator_default [example_derivation "aa-x.drv" ["cc-z.drv"]]))) ->
     exists q, q ∈ p.1 :: p.2 /\ row_id example_rows q = None).
Proof.
  split; [exact example_rows_ok|].
  assert (Hk : known_sound example_rows
    (add_batch edge_accumulator_default [example_derivation "aa-x.drv" ["cc-z.drv"]]))
    by (intros p i Hp; change (ea_known _) with (∅ : gmap string N) in Hp; by rewrite lookup_empty in Hp).
  assert (Hm : forall p, p ∈ ea_missing
    (add_batch edge_accumulator_default [example_derivation "aa-x.drv" ["cc-z.drv"]]) ->
    row_id example_rows p = None) by (intros p Hp; simpl in Hp; set_solver).
  exact (proj1 (flush_progress example_rows _ example_rows_ok Hk Hm)).
Defined.
