(* ===== verification/Scheduler.v ===== *)
(** * The scheduler

    [Scheduler] of [backend/gradient-scheduler/src/lib.rs] with the handlers of
    [job_handlers/] and [worker_lifecycle.rs]: the worker pool and the job tracker
    composed the way the handlers compose them.

    A handler is a function on the in-memory state. What it asks of the database or
    the event bus is appended to an effect log, in program order, and what it reads
    from there is an argument. *)

From S2P Require Import Prelude Float ScoreContext ScorePolicy Proto JobData JobTracker WorkerPool EdgeStream.

Local Open Scope Z_scope.

(** The text of a UUID: [Display] and [FromStr] of the [uuid] crate round trip. *)
Class UuidFormat := {
  uuid_show : N -> string;
  uuid_parse : string -> option N;
  uuid_parse_show id : uuid_parse (uuid_show id) = Some id;
}.

(** A concrete format, for witnesses: tally marks. *)
Fixpoint tally (n : nat) : string :=
  match n with O => "" | S n => String.String Ascii.one (tally n) end.

Lemma tally_length n : String.length (tally n) = n.
Proof. induction n; simpl; congruence. Qed.

#[export, program] Instance tally_uuid : UuidFormat := {|
  uuid_show id := tally (N.to_nat id);
  uuid_parse s := Some (N.of_nat (String.length s));
|}.
Next Obligation. intros id. simpl. by rewrite tally_length, N2Nat.id. Qed.

Section scheduler.
Context `{CH : Chrono} {SD : Serde} {HO : HashOrder} {UF : UuidFormat}.

(** ** Effects *)

Inductive Effect :=
| BoardJobDispatched (org : OrganizationId) (worker : string) (kind : Z) (score : f64)
    (build : option DerivationBuildId) (eval : EvaluationId)
| DbPersistDispatchedJob (worker : string) (record : DispatchRecord)
| DbAbortEvaluation (eval : EvaluationId)
| DbRecordConnection (worker : string) (org : OrganizationId) (caps : GradientCapabilities)
| BoardWorkerConnected (org : OrganizationId) (worker : string)
| DbCloseConnection (worker : string)
| DbRequeueOrphans (jobs : list PendingJob)
| BoardWorkerDisconnected (worker : string)
| DbFlushDeferredDeps (eval : EvaluationId) (edges : EdgePairs)
| DbEvalCompleted (eval : EvaluationId)
| DbEvalFailed (eval : EvaluationId) (error : string) (kind : BuildFailureKind) (missing : list string)
| DbEvalResult (eval : EvaluationId) (derivations : list DiscoveredDerivation) (warnings errors : list string)
| DbInsertEdges (edges : list (N * N))
| DbMarkEdgesComplete (derivations : list N)
| DbBuildCompleted (build : DerivationBuildId)
| DbBuildFailed (build : DerivationBuildId) (error : string) (kind : BuildFailureKind) (missing : list string).

(** ** State *)

Record Scheduler := {
  sch_pool : WorkerPool;
  sch_tracker : JobTracker;
  sch_job_notify : Z;
  sch_dispatch_kick : bool;
  sch_eval_edges : gmap EvaluationId EvalEdgeAccumulator;
  sch_policy : ScoringPolicy;
  sch_instance : InstanceContext;
  sch_effects : list Effect;
}.

Definition Scheduler_new (scoring_policy : string) : Scheduler := {|
  sch_pool := WorkerPool_new;
  sch_tracker := JobTracker_new;
  sch_job_notify := 0;
  sch_dispatch_kick := false;
  sch_eval_edges := ∅;
  sch_policy := policy_by_name scoring_policy;
  sch_instance := instance_default;
  sch_effects := [];
|}.

Definition set_pool (s : Scheduler) p := {| sch_pool := p; sch_tracker := sch_tracker s;
  sch_job_notify := sch_job_notify s; sch_dispatch_kick := sch_dispatch_kick s;
  sch_eval_edges := sch_eval_edges s; sch_policy := sch_policy s; sch_instance := sch_instance s;
  sch_effects := sch_effects s |}.
Definition set_tracker (s : Scheduler) t := {| sch_pool := sch_pool s; sch_tracker := t;
  sch_job_notify := sch_job_notify s; sch_dispatch_kick := sch_dispatch_kick s;
  sch_eval_edges := sch_eval_edges s; sch_policy := sch_policy s; sch_instance := sch_instance s;
  sch_effects := sch_effects s |}.
Definition set_edges (s : Scheduler) e := {| sch_pool := sch_pool s; sch_tracker := sch_tracker s;
  sch_job_notify := sch_job_notify s; sch_dispatch_kick := sch_dispatch_kick s;
  sch_eval_edges := e; sch_policy := sch_policy s; sch_instance := sch_instance s;
  sch_effects := sch_effects s |}.
Definition emit (s : Scheduler) (es : list Effect) := {| sch_pool := sch_pool s;
  sch_tracker := sch_tracker s; sch_job_notify := sch_job_notify s;
  sch_dispatch_kick := sch_dispatch_kick s; sch_eval_edges := sch_eval_edges s;
  sch_policy := sch_policy s; sch_instance := sch_instance s; sch_effects := sch_effects s ++ es |}.

(** [job_notify.send_modify(|g| *g = g.wrapping_add(1))] *)
Definition bump_notify (s : Scheduler) := {| sch_pool := sch_pool s; sch_tracker := sch_tracker s;
  sch_job_notify := u64 (sch_job_notify s + 1); sch_dispatch_kick := sch_dispatch_kick s;
  sch_eval_edges := sch_eval_edges s; sch_policy := sch_policy s; sch_instance := sch_instance s;
  sch_effects := sch_effects s |}.

(** [dispatch_kick.notify_one()]: the single permit is set. *)
Definition kick_dispatch (s : Scheduler) := {| sch_pool := sch_pool s; sch_tracker := sch_tracker s;
  sch_job_notify := sch_job_notify s; sch_dispatch_kick := true;
  sch_eval_edges := sch_eval_edges s; sch_policy := sch_policy s; sch_instance := sch_instance s;
  sch_effects := sch_effects s |}.

(** ** Queue ([job_handlers/queue.rs]) *)

Definition enqueue_eval_job (s : Scheduler) (job_id : string) (job : PendingEvalJob)
    : Scheduler * JobCandidate :=
  let '(t, candidate) := add_pending (sch_tracker s) job_id (PendingEval job) in
  (bump_notify (set_tracker s t), candidate).

Definition enqueue_build_job (s : Scheduler) (job_id : string) (job : PendingBuildJob)
    : Scheduler * JobCandidate :=
  let '(t, candidate) := add_pending (sch_tracker s) job_id (PendingBuild job) in
  let s := set_tracker s t in
  let s := set_pool s (remove_sent_candidate (sch_pool s) job_id) in
  (bump_notify s, candidate).

Definition worker_auth_and_caps (s : Scheduler) (worker_id : string)
    : option (gset OrganizationId) * option WorkerCaps :=
  (peer_auth_for (sch_pool s) worker_id ≫= as_filter, worker_caps (sch_pool s) worker_id).

Definition get_job_candidates (s : Scheduler) (worker_id : string) : Scheduler * list JobCandidate :=
  let '(authorized, caps) := worker_auth_and_caps s worker_id in
  let candidates := candidates_for_worker (sch_tracker s) authorized caps in
  let ids := map jcand_job_id candidates in
  (set_pool s (mark_candidates_sent (sch_pool s) worker_id ids), candidates).

Definition get_new_job_candidates (s : Scheduler) (worker_id : string) : Scheduler * list JobCandidate :=
  let '(authorized, caps) := worker_auth_and_caps s worker_id in
  let sent := default ∅ (sent_candidates_for (sch_pool s) worker_id) in
  let all := candidates_for_worker (sch_tracker s) authorized caps in
  let new_candidates := List.filter (fun c => negb (bool_decide (jcand_job_id c ∈ sent))) all in
  match new_candidates with
  | [] => (s, new_candidates)
  | _ => (set_pool s (mark_candidates_sent (sch_pool s) worker_id (map jcand_job_id new_candidates)),
          new_candidates)
  end.

Definition metrics_snapshot (s : Scheduler) : nat * nat * nat :=
  (worker_count (sch_pool s), pending_count (sch_tracker s), active_count (sch_tracker s)).

(** ** Assignment ([job_handlers/assignment.rs]) *)

(** The clock readings and fresh identifiers one assignment attempt uses. *)
Record Clock := {
  ck_fresh : nat -> DispatchedJobId;
  ck_now : NaiveDateTime;
  ck_at : NaiveDateTime;
}.

Definition try_assign (s : Scheduler) (ck : Clock) (worker_id : string)
    (authorized : option (gset OrganizationId)) (caps : option WorkerCaps) (kind : JobKind)
    : Scheduler * option Assignment :=
  let '(t, assignment) := take_best_of_kind (sch_tracker s) (ck_fresh ck) (ck_now ck) (ck_at ck)
    worker_id authorized caps kind (sch_policy s) (sch_instance s) in
  let s := set_tracker s t in
  match assignment with
  | None => (s, None)
  | Some a =>
      let s := set_pool s (assign_job (sch_pool s) worker_id (as_job_id a)) in
      let effects := match as_dispatch_record a with
        | Some r => [BoardJobDispatched (drec_organization r) worker_id (i16_of_kind (drec_kind r))
                       (drec_score r) (drec_derivation_build r) (drec_evaluation_id r);
                     DbPersistDispatchedJob worker_id r]
        | None => []
        end in
      (emit s effects, Some (set_dispatch_record a None))
  end.

(** [request_job]; [refreshed] is what the on-demand [dispatch_ready_builds] finds
    in the database and enqueues between the two attempts. *)
Definition request_job (s : Scheduler) (ck1 ck2 : Clock) (refreshed : list (string * PendingBuildJob))
    (worker_id : string) (kind : JobKind) : Scheduler * option Assignment :=
  if negb (has_capacity (sch_pool s) worker_id kind) then (s, None)
  else
    let '(authorized, caps) := worker_auth_and_caps s worker_id in
    match try_assign s ck1 worker_id authorized caps kind with
    | (s, Some a) => (s, Some a)
    | (s, None) =>
        let s := match kind with
                 | JobKindBuild =>
                     kick_dispatch (foldl (fun s p => (enqueue_build_job s p.1 p.2).1) s refreshed)
                 | JobKindFlake => s
                 end in
        try_assign s ck2 worker_id authorized caps kind
    end.

Definition sched_record_scores (s : Scheduler) (worker_id : string) (scores : list CandidateScore)
    : Scheduler :=
  set_tracker s (record_scores (sch_tracker s) worker_id scores).

Definition job_rejected (s : Scheduler) (worker_id job_id : string) : Scheduler :=
  let s := set_pool s (release_job (sch_pool s) worker_id job_id).1 in
  let s := set_tracker s (release_to_pending (sch_tracker s) job_id) in
  set_pool s (remove_sent_candidate (sch_pool s) job_id).

Definition org_for_job (s : Scheduler) (job_id : string) : option OrganizationId :=
  org_id <$> active_job (sch_tracker s) job_id.

(** ** Completion ([job_handlers/build_status.rs]) *)

Definition eval_job_id (eval : EvaluationId) : string := ("eval:" ++ uuid_show eval)%string.
Definition build_job_id (build : DerivationBuildId) : string := ("build:" ++ uuid_show build)%string.

(** [flake_source] is the database's answer for the evaluation's archived source:
    an error, no source, or its store path. The result is [Err] when the handler
    returns the lookup's error. *)
Definition handle_job_completed (s : Scheduler) (flake_source : result (option string) unit)
    (worker_id job_id : string) : Scheduler * result unit unit :=
  let '(p, worker_idle) := release_job (sch_pool s) worker_id job_id in
  let s := set_pool s p in
  let '(t, job) := remove_active (sch_tracker s) job_id in
  let s := set_tracker s t in
  match job with
  | Some (PendingEval j) =>
      let eval := pe_evaluation_id j in
      if is_fetch_only (pe_job j) then
        match flake_source with
        | Err e => (s, Err e)
        | Ok (Some path) => ((enqueue_eval_job s (eval_job_id eval) (cached_followup j path)).1, Ok ())
        | Ok None =>
            (emit s [DbEvalFailed eval "fetch completed but no flake source was archived" Permanent []],
             Ok ())
        end
      else
        let edges := into_pending (default edge_accumulator_default (sch_eval_edges s !! eval)) in
        let s := set_edges s (delete eval (sch_eval_edges s)) in
        let s := emit s [DbFlushDeferredDeps eval edges; DbEvalCompleted eval] in
        (if worker_idle then kick_dispatch s else s, Ok ())
  | Some (PendingBuild j) =>
      let s := emit s [DbBuildCompleted (pb_derivation_build j)] in
      (if worker_idle then kick_dispatch s else s, Ok ())
  | None => (s, Ok ())
  end.

Definition handle_job_failed (s : Scheduler) (worker_id job_id error : string)
    (kind : BuildFailureKind) (missing_paths : list string) : Scheduler :=
  let s := set_pool s (release_job (sch_pool s) worker_id job_id).1 in
  let '(t, job) := remove_active (sch_tracker s) job_id in
  let s := set_tracker s t in
  match job with
  | Some (PendingEval j) =>
      let s := set_edges s (delete (pe_evaluation_id j) (sch_eval_edges s)) in
      kick_dispatch (emit s [DbEvalFailed (pe_evaluation_id j) error kind missing_paths])
  | Some (PendingBuild j) => emit s [DbBuildFailed (pb_derivation_build j) error kind missing_paths]
  | None => s
  end.

(** ** Evaluation results ([job_handlers/eval_status.rs]) *)

(** [persisted]: the database accepted the batch; [query] and [outcome] are its answers to
    the incremental flush. *)
Definition handle_eval_result (s : Scheduler) (persisted : bool)
    (query : option (list DerivationRow)) (outcome : nat -> bool)
    (job_id : string) (derivations : list DiscoveredDerivation) (warnings errors : list string)
    : Scheduler * result unit unit :=
  match active_job (sch_tracker s) job_id with
  | Some (PendingBuild _) => (s, Err tt)
  | None => (s, Ok tt)
  | Some (PendingEval j) =>
      let eval := pe_evaluation_id j in
      let derivations := map canonical derivations in
      let acc := add_batch (default edge_accumulator_default (sch_eval_edges s !! eval)) derivations in
      let s := set_edges s (<[eval := acc]> (sch_eval_edges s)) in
      let s := emit s [DbEvalResult eval derivations warnings errors] in
      if negb persisted then (s, Err tt)
      else
        let r := flush_ready_edges query outcome acc in
        let s := set_edges s (<[eval := fl_acc r]> (sch_eval_edges s)) in
        (emit s [DbInsertEdges (fl_inserted r); DbMarkEdgesComplete (fl_complete r)], Ok tt)
  end.

(** ** Abort ([job_handlers/abort.rs], [lib.rs]) *)

Definition abort_active (reason : string) (p : WorkerPool) (target : string * string) : WorkerPool :=
  (send_abort p target.1 target.2 reason).1.

Definition abort_evaluation (s : Scheduler) (eval : EvaluationId) : Scheduler :=
  let s := emit s [DbAbortEvaluation eval] in
  let to_abort := map (fun e => (e.1.2, e.1.1))
    (List.filter (fun e => (evaluation_id e.2 =? eval)%N) (active_jobs (sch_tracker s))) in
  let s := set_pool s (foldl (abort_active "evaluation aborted") (sch_pool s) to_abort) in
  set_tracker s (remove_pending_for_evaluation (sch_tracker s) eval).

Definition cancel_evaluation_jobs (s : Scheduler) (eval : EvaluationId)
    (anchor_ids : list DerivationBuildId) : Scheduler :=
  let t := remove_job (sch_tracker s) (eval_job_id eval) in
  let t := foldl (fun t id => remove_job t (build_job_id id)) t anchor_ids in
  let s := set_tracker s t in
  set_edges s (delete eval (sch_eval_edges s)).

(** ** Worker lifecycle ([worker_lifecycle.rs]) *)

Definition worker_authorized_for_org (s : Scheduler) (worker_id : string) (org : OrganizationId) : bool :=
  match peer_auth_for (sch_pool s) worker_id with
  | Some a => peer_contains a org
  | None => false
  end.

(** [registration] is the organization of the worker's registration row, if any. *)
Definition register_worker (s : Scheduler) (registration : option OrganizationId) (now : Z)
    (worker_id : string) (capabilities : GradientCapabilities)
    (authorized_peers : gset OrganizationId) : Scheduler :=
  let s := set_pool s (register (sch_pool s) worker_id capabilities authorized_peers now) in
  match registration with
  | None => s
  | Some org =>
      let s := set_pool s (set_worker_org (sch_pool s) worker_id org) in
      emit s [DbRecordConnection worker_id org capabilities; BoardWorkerConnected org worker_id]
  end.

(** The session handshake: a second connection of a connected worker is refused. *)
Definition session_register (s : Scheduler) (registration : option OrganizationId) (now : Z)
    (worker_id : string) (capabilities : GradientCapabilities)
    (authorized_peers : gset OrganizationId) : option Scheduler :=
  if is_connected (sch_pool s) worker_id then None
  else Some (register_worker s registration now worker_id capabilities authorized_peers).

Definition sched_update_authorized_peers (s : Scheduler) (worker_id : string)
    (authorized_peers : gset OrganizationId) : Scheduler :=
  set_pool s (update_authorized_peers (sch_pool s) worker_id authorized_peers).

Definition abort_org_jobs_on_worker (s : Scheduler) (worker_id : string)
    (revoked_peers : gset OrganizationId) : Scheduler :=
  if bool_decide (revoked_peers = ∅) then s
  else
    let '(t, job_ids) := drain_peer_jobs_on_worker (sch_tracker s) worker_id revoked_peers in
    let s := set_tracker s t in
    match job_ids with
    | [] => s
    | _ =>
        let s := set_pool s (foldl (abort_active "org deactivated worker") (sch_pool s)
          (map (fun id => (worker_id, id)) job_ids)) in
        bump_notify s
    end.

Definition sched_request_reauth (s : Scheduler) (worker_id : string) : Scheduler :=
  set_pool s (request_reauth (sch_pool s) worker_id).

Definition update_worker_capabilities (s : Scheduler) (worker_id : string)
    (architectures system_features : list string)
    (max_concurrent_builds cpu_count ram_total_mb cpu_core_score : Z) : Scheduler :=
  kick_dispatch (set_pool s (update_capabilities (sch_pool s) worker_id architectures
    system_features max_concurrent_builds cpu_count ram_total_mb cpu_core_score)).

Definition update_worker_metrics (s : Scheduler) (worker_id : string) (cpu_usage_pct : f32)
    (ram_free_mb : Z) (disk_speed_mbps network_speed_mbps : option f32) : Scheduler :=
  set_pool s (update_metrics (sch_pool s) worker_id cpu_usage_pct ram_free_mb
    disk_speed_mbps network_speed_mbps).

Definition unregister_worker (s : Scheduler) (worker_id : string) : Scheduler :=
  let s := emit s [DbCloseConnection worker_id] in
  let s := set_pool s (unregister (sch_pool s) worker_id).1 in
  let '(t, requeued) := worker_disconnected (sch_tracker s) worker_id in
  let s := set_tracker s t in
  kick_dispatch (emit s [DbRequeueOrphans requeued; BoardWorkerDisconnected worker_id]).

Definition mark_worker_draining (s : Scheduler) (worker_id : string) : Scheduler :=
  set_pool s (mark_draining (sch_pool s) worker_id).

(** One pass of the liveness watchdog ([dispatch/background.rs]). *)
Definition liveness_pass (s : Scheduler) (now_ms timeout_ms : Z) : Scheduler :=
  foldl unregister_worker s (stale_worker_ids (sch_pool s) now_ms timeout_ms).

(** The in-memory part of one timer tick of the build dispatch loop
    ([dispatch/build.rs]): age the queue, enqueue the builds the database reports
    ready, and re-offer what is pending. *)
Definition dispatch_tick (s : Scheduler) (timer_tick : bool) (ready : list (string * PendingBuildJob))
    : Scheduler :=
  let s := if timer_tick then set_tracker s (bump_rescore_counts (sch_tracker s)) else s in
  let s := foldl (fun s p => (enqueue_build_job s p.1 p.2).1) s ready in
  if has_pending (sch_tracker s) then bump_notify s else s.
End scheduler.
