(* ===== verification/SchedulerInvariant.v ===== *)
(** * The scheduler: invariants and handler correctness *)

From S2P Require Import Prelude Float ScoreContext ScorePolicy Proto JobData JobTracker TrackerFacts Dispatch TrackerInvariant WorkerPool EdgeStream Scheduler.

Local Open Scope Z_scope.

(** ** In-flight jobs of the pool *)

Definition in_flight (p : WorkerPool) (w id : string) : Prop :=
  exists slot, wp_workers p !! w = Some slot /\ id ∈ sh_assigned_jobs (shared slot).

(** [p'] forgets no in-flight job of [p]. *)
Definition keeps (p p' : WorkerPool) : Prop := forall w id, in_flight p w id -> in_flight p' w id.

#[export] Instance keeps_preorder : PreOrder keeps.
Proof. split; [by intros p w id|]. intros p q r Hpq Hqr w id H. auto. Qed.

Lemma lookup_update_shared p id f w :
  wp_workers (update_shared p id f) !! w =
    if decide (w = id) then map_shared f <$> wp_workers p !! w else wp_workers p !! w.
Proof. unfold update_shared. simpl. case_decide; subst; by simplify_map_eq. Qed.

Lemma shared_map f slot : shared (map_shared f slot) = f (shared slot).
Proof. by destruct slot. Qed.

Lemma update_shared_keeps p id f :
  (forall s, sh_assigned_jobs s ⊆ sh_assigned_jobs (f s)) -> keeps p (update_shared p id f).
Proof.
  intros Hf w j (slot & Hw & Hj). unfold in_flight. rewrite lookup_update_shared.
  case_decide; [|by eauto]. rewrite Hw. simpl. eexists. split; [done|].
  rewrite shared_map. by apply Hf.
Qed.

Lemma mark_draining_keeps p id : keeps p (mark_draining p id).
Proof.
  intros w j (slot & Hw & Hj). unfold mark_draining, in_flight.
  destruct (wp_workers p !! id) as [slot'|] eqn:E; [|by eauto]. simpl.
  destruct (decide (w = id)) as [->|]; simplify_map_eq; [|by eauto].
  eexists. split; [done|]. by destruct slot.
Qed.

Lemma remove_sent_keeps p id : keeps p (remove_sent_candidate p id).
Proof.
  intros w j (slot & Hw & Hj). unfold remove_sent_candidate, in_flight. simpl.
  rewrite lookup_fmap, Hw. simpl. eexists. split; [done|]. by rewrite shared_map.
Qed.

Lemma send_abort_keeps p w j r : keeps p (send_abort p w j r).1.
Proof. unfold send_abort. repeat case_match; simpl; try done. by apply update_shared_keeps. Qed.

Lemma abort_all_keeps reason targets p : keeps p (foldl (abort_active reason) p targets).
Proof.
  revert p. induction targets as [|x l IH]; intros p; simpl; [done|].
  etrans; [apply send_abort_keeps|apply IH].
Qed.

Lemma register_keeps p id caps peers now :
  is_connected p id = false -> keeps p (register p id caps peers now).
Proof.
  unfold is_connected. intros Hc%bool_decide_eq_false w j (slot & Hw & Hj).
  unfold register. destruct (wp_workers p !! id) eqn:E; [by destruct Hc; eauto|]. simpl.
  exists slot. split; [|done]. simpl. rewrite lookup_insert_ne; [done|]. intros ->. congruence.
Qed.

Lemma assign_job_keeps p w id : keeps p (assign_job p w id).
Proof. apply update_shared_keeps. intros s. simpl. set_solver. Qed.

Lemma assign_job_in_flight p w id : is_connected p w = true -> in_flight (assign_job p w id) w id.
Proof.
  unfold is_connected, assign_job, in_flight. intros [slot Hw]%bool_decide_eq_true.
  rewrite lookup_update_shared, decide_True, Hw by done. simpl.
  eexists. split; [done|]. rewrite shared_map. simpl. set_solver.
Qed.

Lemma release_job_keeps p w id w' id' :
  (w', id') ≠ (w, id) -> in_flight p w' id' -> in_flight (release_job p w id).1 w' id'.
Proof.
  intros Hne (slot & Hw & Hj). unfold release_job, in_flight.
  destruct (wp_workers p !! w) as [slot'|] eqn:E; [|by eauto]. simpl.
  destruct (decide (w' = w)) as [->|]; simplify_map_eq; [|by eauto].
  eexists. split; [done|]. rewrite shared_map. simpl. set_solver.
Qed.

Section invariant.
Context `{CH : Chrono} {SD : Serde} {HO : HashOrder} {UF : UuidFormat}.

(** ** The invariant *)

(** Every running job is in the in-flight set of a connected worker: the worker the
    tracker says runs it. *)
Definition agree (s : Scheduler) : Prop :=
  forall id w j, jt_active (sch_tracker s) !! id = Some (w, j) -> in_flight (sch_pool s) w id.

Record sched_inv (s : Scheduler) : Prop := {
  si_tracker : tracker_inv (sch_tracker s);
  si_agree : agree s;
}.

(** A handler step that only shrinks the active map and keeps what stays in flight. *)
Lemma inv_shrink s s' :
  sched_inv s -> tracker_inv (sch_tracker s') ->
  (forall id w j, jt_active (sch_tracker s') !! id = Some (w, j) ->
     jt_active (sch_tracker s) !! id = Some (w, j) /\
     (in_flight (sch_pool s) w id -> in_flight (sch_pool s') w id)) ->
  sched_inv s'.
Proof.
  intros Hs Ht Ha. split; [done|]. intros id w j Hj. apply Ha in Hj as [Hj Hf].
  eapply Hf, (si_agree _ Hs), Hj.
Qed.

(** A step of the tracker that leaves the active map alone, or removes from it. *)
Lemma inv_tracker_step s s' :
  sched_inv s -> keeps (sch_pool s) (sch_pool s') ->
  tracker_step (sch_tracker s) (sch_tracker s') ->
  (forall id x, jt_active (sch_tracker s') !! id = Some x -> jt_active (sch_tracker s) !! id = Some x) ->
  sched_inv s'.
Proof.
  intros Hs Hk Hstep Ha. apply (inv_shrink s); [done|by eapply step_preserves_inv, Hstep; apply Hs|].
  intros id w j Hj. split; [by apply Ha|apply Hk].
Qed.

Lemma inv_pool s s' :
  sched_inv s -> keeps (sch_pool s) (sch_pool s') -> sch_tracker s' = sch_tracker s -> sched_inv s'.
Proof.
  intros Hs Hk Ht. apply (inv_shrink s); rewrite ?Ht; [done|apply Hs|]. intros id w j Hj.
  split; [done|apply Hk].
Qed.

Lemma enqueue_inv s id job p :
  sched_inv s -> keeps (sch_pool s) p ->
  sched_inv (bump_notify (set_pool (set_tracker s (add_pending (sch_tracker s) id job).1) p)).
Proof.
  intros Hs Hk. apply (inv_tracker_step s); [done|done|apply step_add|].
  intros id' x. simpl. unfold add_pending. by case_match.
Qed.

Lemma enqueue_build_inv s id job : sched_inv s -> sched_inv (enqueue_build_job s id job).1.
Proof.
  intros Hs. pose proof (enqueue_inv s id (PendingBuild job) _ Hs (remove_sent_keeps (sch_pool s) id)) as H.
  unfold enqueue_build_job. by destruct (add_pending _ _ _).
Qed.

Lemma enqueue_eval_inv s id job : sched_inv s -> sched_inv (enqueue_eval_job s id job).1.
Proof.
  intros Hs. assert (keeps (sch_pool s) (sch_pool s)) as Hk by done.
  pose proof (enqueue_inv s id (PendingEval job) _ Hs Hk) as H.
  unfold enqueue_eval_job. by destruct (add_pending _ _ _), s.
Qed.

Lemma enqueue_builds_inv l s :
  sched_inv s -> sched_inv (foldl (fun s p => (enqueue_build_job s p.1 p.2).1) s l).
Proof. revert s. induction l as [|p l IH]; intros s Hs; simpl; [done|]. by apply IH, enqueue_build_inv. Qed.

(** One assignment attempt: what it leaves and what it answers. *)
Lemma try_assign_inv s ck w authorized caps kind s' a :
  sched_inv s -> is_connected (sch_pool s) w = true ->
  try_assign s ck w authorized caps kind = (s', a) ->
  sched_inv s' /\ wp_workers (sch_pool s') = match a with
    | Some a => wp_workers (assign_job (sch_pool s) w (as_job_id a))
    | None => wp_workers (sch_pool s) end.
Proof.
  intros Hs Hc. unfold try_assign.
  destruct (take_best_of_kind _ _ _ _ _ _ _ _ _ _) as [t [a0|]] eqn:E; intros [= <- <-].
  - assert (Hinv : tracker_inv t).
    { eapply step_preserves_inv; [apply Hs|].
      pose proof (step_take (sch_tracker s) (ck_fresh ck) (ck_now ck) (ck_at ck) w authorized caps kind
        (sch_policy s) (sch_instance s)) as Hst. by rewrite E in Hst. }
    apply take_some in E as (job & l & _ & _ & _ & _ & Ha & _).
    split; [|by destruct a0]. split; [done|]. simpl.
    intros id w' j Hj. simpl in Hj. rewrite Ha in Hj.
    destruct (decide (id = as_job_id a0)) as [->|]; simplify_map_eq.
    + by apply assign_job_in_flight.
    + eapply assign_job_keeps, (si_agree _ Hs), Hj.
  - split; [|done]. pose proof (step_take (sch_tracker s) (ck_fresh ck) (ck_now ck) (ck_at ck) w authorized caps kind
        (sch_policy s) (sch_instance s)) as Hst. rewrite E in Hst.
    apply take_none in E as (_ & _ & _ & Ha).
    apply (inv_tracker_step s); [done|done|done|]. intros id x. simpl. by rewrite Ha.
Qed.

Lemma has_capacity_connected p w kind : has_capacity p w kind = true -> is_connected p w = true.
Proof.
  unfold has_capacity, is_connected. destruct (wp_workers p !! w); [|done].
  intros _. by rewrite bool_decide_true by eauto.
Qed.

Lemma enqueue_build_connected s id job w :
  is_connected (sch_pool (enqueue_build_job s id job).1) w = is_connected (sch_pool s) w.
Proof.
  unfold enqueue_build_job. destruct (add_pending _ _ _). simpl. unfold is_connected. simpl.
  apply bool_decide_ext. rewrite lookup_fmap. by rewrite fmap_is_Some.
Qed.

Lemma enqueue_builds_connected l s w :
  is_connected (sch_pool (foldl (fun s p => (enqueue_build_job s p.1 p.2).1) s l)) w =
  is_connected (sch_pool s) w.
Proof. revert s. induction l as [|p l IH]; intros s; simpl; [done|]. by rewrite IH, enqueue_build_connected. Qed.

Lemma request_job_inv s ck1 ck2 refreshed w kind :
  sched_inv s -> sched_inv (request_job s ck1 ck2 refreshed w kind).1.
Proof.
  intros Hs. unfold request_job. destruct (has_capacity _ _ _) eqn:Hc; simpl; [|done].
  apply has_capacity_connected in Hc.
  destruct (try_assign s _ _ _ _ _) as [s1 [a|]] eqn:E1.
  { by eapply try_assign_inv in E1 as [? _]. }
  eapply try_assign_inv in E1 as [Hs1 Hp1]; [|done..].
  assert (Hc1 : is_connected (sch_pool s1) w = true) by (unfold is_connected in *; by rewrite Hp1).
  set (s2 := match kind with JobKindFlake => _ | JobKindBuild => _ end).
  assert (sched_inv s2 /\ is_connected (sch_pool s2) w = true) as [Hs2 Hc2].
  { subst s2. destruct kind; [done|]. simpl. split; [|by rewrite enqueue_builds_connected].
    destruct (enqueue_builds_inv refreshed s1 Hs1). by split. }
  destruct (try_assign s2 _ _ _ _ _) as [s3 a3] eqn:E2.
  by eapply try_assign_inv in E2 as [? _].
Qed.

Lemma release_then_inv s w id t :
  sched_inv s -> tracker_step (sch_tracker s) t ->
  (forall id' x, jt_active t !! id' = Some x -> id' ≠ id /\ jt_active (sch_tracker s) !! id' = Some x) ->
  sched_inv (set_tracker (set_pool s (release_job (sch_pool s) w id).1) t).
Proof.
  intros Hs Hstep Ha. apply (inv_shrink s); [done|by eapply step_preserves_inv, Hstep; apply Hs|].
  intros id' w' j Hj. apply Ha in Hj as [Hne Hj]. split; [done|]. simpl.
  apply release_job_keeps. by intros [= _ ->].
Qed.

Lemma job_rejected_inv s w id : sched_inv s -> sched_inv (job_rejected s w id).
Proof.
  intros Hs. unfold job_rejected.
  eapply (inv_pool (set_tracker (set_pool s (release_job (sch_pool s) w id).1)
    (release_to_pending (sch_tracker s) id))); [|apply remove_sent_keeps|done].
  apply release_then_inv; [done|apply step_release|].
  intros id' x. unfold release_to_pending. destruct (jt_active (sch_tracker s) !! id) as [[]|] eqn:E; simpl.
  - rewrite lookup_delete_Some. naive_solver.
  - intros Hx. split; [|done]. intros ->. congruence.
Qed.

Lemma remove_active_then_inv s w id :
  sched_inv s ->
  sched_inv (set_tracker (set_pool s (release_job (sch_pool s) w id).1)
    (remove_active (sch_tracker s) id).1).
Proof.
  intros Hs. apply release_then_inv; [done|apply step_remove_active|].
  intros id' x. simpl. rewrite lookup_delete_Some. naive_solver.
Qed.

Lemma emit_inv s es : sched_inv s -> sched_inv (emit s es).
Proof. by intros []. Qed.
Lemma kick_inv s : sched_inv s -> sched_inv (kick_dispatch s).
Proof. by intros []. Qed.
Lemma set_edges_inv s e : sched_inv s -> sched_inv (set_edges s e).
Proof. by intros []. Qed.

Lemma handle_job_completed_inv s src w id :
  sched_inv s -> sched_inv (handle_job_completed s src w id).1.
Proof.
  intros Hs. unfold handle_job_completed.
  pose proof (remove_active_then_inv s w id Hs) as H.
  destruct (release_job (sch_pool s) w id) as [p idle]. simpl in *.
  destruct (snd <$> jt_active (sch_tracker s) !! id) as [[j|j]|]; [|destruct idle; simpl; auto using emit_inv, kick_inv|done].
  destruct (is_fetch_only (pe_job j)).
  - destruct src as [[path|]|]; simpl; [by apply enqueue_eval_inv|by apply emit_inv|done].
  - destruct idle; simpl; auto using emit_inv, kick_inv, set_edges_inv.
Qed.

Lemma handle_job_failed_inv s w id err kind missing :
  sched_inv s -> sched_inv (handle_job_failed s w id err kind missing).
Proof.
  intros Hs. unfold handle_job_failed. pose proof (remove_active_then_inv s w id Hs) as H.
  simpl in *. destruct (snd <$> _) as [[j|j]|]; [|by apply emit_inv|done].
  by apply kick_inv, emit_inv, set_edges_inv.
Qed.

Lemma handle_eval_result_inv s persisted query outcome id ds warnings errors :
  sched_inv s -> sched_inv (handle_eval_result s persisted query outcome id ds warnings errors).1.
Proof.
  intros Hs. unfold handle_eval_result.
  destruct (active_job (sch_tracker s) id) as [[j|j]|]; [|done..].
  destruct persisted; simpl; auto using emit_inv, set_edges_inv.
Qed.

Lemma remove_job_inv s id : sched_inv s -> sched_inv (set_tracker s (remove_job (sch_tracker s) id)).
Proof.
  intros Hs. apply (inv_tracker_step s); [done|done|apply step_remove_job|].
  intros id' x. simpl. rewrite lookup_delete_Some. naive_solver.
Qed.

Lemma cancel_inv s e anchors : sched_inv s -> sched_inv (cancel_evaluation_jobs s e anchors).
Proof.
  intros Hs. unfold cancel_evaluation_jobs. apply set_edges_inv.
  apply (remove_job_inv s (eval_job_id e)) in Hs. revert Hs.
  generalize (remove_job (sch_tracker s) (eval_job_id e)). induction anchors as [|a l IH]; intros t Ht; simpl; [done|].
  apply IH. by apply (remove_job_inv (set_tracker s t) (build_job_id a)).
Qed.

Lemma abort_evaluation_inv s e : sched_inv s -> sched_inv (abort_evaluation s e).
Proof.
  intros Hs. unfold abort_evaluation.
  apply (inv_tracker_step s); simpl; [done|apply abort_all_keeps|apply step_remove_eval|].
  intros id x. unfold remove_pending_for_evaluation.
  edestruct (remove_pending_jobs_spec (sch_tracker s)) as (_ & -> & _). done.
Qed.

Lemma abort_org_inv s w revoked : sched_inv s -> sched_inv (abort_org_jobs_on_worker s w revoked).
Proof.
  intros Hs. unfold abort_org_jobs_on_worker. case_match; [done|].
  pose proof (step_drain (sch_tracker s) w revoked) as Hst.
  unfold drain_peer_jobs_on_worker in *. simpl in *.
  set (ids := map fst _) in *.
  destruct (requeue_all_spec (sch_tracker s) ids) as (Ha & _).
  assert (Hsub : forall id x, jt_active (requeue_all (sch_tracker s) ids) !! id = Some x ->
    jt_active (sch_tracker s) !! id = Some x).
  { intros id x. rewrite Ha. destruct (decide _); [done|tauto]. }
  destruct ids; [by apply (inv_tracker_step s)|].
  apply (inv_tracker_step s); [done|apply abort_all_keeps|done|done].
Qed.

Lemma unregister_inv s w : sched_inv s -> sched_inv (unregister_worker s w).
Proof.
  intros Hs. unfold unregister_worker. simpl.
  destruct (worker_disconnected_maps (sch_tracker s) w (si_tracker _ Hs)) as (Ha & _).
  pose proof (step_disconnect (sch_tracker s) w) as Hst.
  destruct (worker_disconnected (sch_tracker s) w) as [t requeued]. simpl in *.
  apply (inv_shrink s); [done|by eapply step_preserves_inv, Hst; apply Hs|].
  simpl. intros id w' j Hj. apply Ha in Hj as [Hj Hne]. split; [done|].
  intros (slot & Hw & Hin). exists slot. split; [|done]. simpl. by rewrite lookup_delete_ne.
Qed.

Lemma session_register_inv s s' reg now w caps peers :
  sched_inv s -> session_register s reg now w caps peers = Some s' -> sched_inv s'.
Proof.
  intros Hs. unfold session_register. destruct (is_connected _ _) eqn:Hc; [done|].
  intros [= <-]. unfold register_worker.
  assert (H : sched_inv (set_pool s (register (sch_pool s) w caps peers now))).
  { apply (inv_pool s); [done|by apply register_keeps|done]. }
  destruct reg; [|done]. apply emit_inv. apply (inv_pool _ _ H); [intros w' id Hf; exact Hf|done].
Qed.

Lemma dispatch_tick_inv s tick ready : sched_inv s -> sched_inv (dispatch_tick s tick ready).
Proof.
  intros Hs. unfold dispatch_tick. set (s1 := if tick then _ else _).
  assert (H1 : sched_inv s1).
  { subst s1. destruct tick; [|done]. by apply (inv_tracker_step s); [done|done|apply step_bump|]. }
  apply (enqueue_builds_inv ready) in H1. case_match; [|done]. by destruct H1.
Qed.

(** ** Steps *)

(** One message or event handled by the scheduler, with whatever the database, the
    clock and the network supply. *)
Inductive sched_step (s : Scheduler) : Scheduler -> Prop :=
| ss_enqueue_eval id job : sched_step s (enqueue_eval_job s id job).1
| ss_enqueue_build id job : sched_step s (enqueue_build_job s id job).1
| ss_candidates w : sched_step s (get_job_candidates s w).1
| ss_new_candidates w : sched_step s (get_new_job_candidates s w).1
| ss_request ck1 ck2 refreshed w kind : sched_step s (request_job s ck1 ck2 refreshed w kind).1
| ss_scores w scores : sched_step s (sched_record_scores s w scores)
| ss_rejected w id : sched_step s (job_rejected s w id)
| ss_completed src w id : sched_step s (handle_job_completed s src w id).1
| ss_failed w id err kind missing : sched_step s (handle_job_failed s w id err kind missing)
| ss_eval_result persisted query outcome id ds warnings errors :
    sched_step s (handle_eval_result s persisted query outcome id ds warnings errors).1
| ss_abort e : sched_step s (abort_evaluation s e)
| ss_cancel e anchors : sched_step s (cancel_evaluation_jobs s e anchors)
| ss_register reg now w caps peers s' :
    session_register s reg now w caps peers = Some s' -> sched_step s s'
| ss_peers w peers : sched_step s (sched_update_authorized_peers s w peers)
| ss_revoke w revoked : sched_step s (abort_org_jobs_on_worker s w revoked)
| ss_reauth w : sched_step s (sched_request_reauth s w)
| ss_caps w archs feats mcb cpu ram score :
    sched_step s (update_worker_capabilities s w archs feats mcb cpu ram score)
| ss_metrics w cpu ram disk net : sched_step s (update_worker_metrics s w cpu ram disk net)
| ss_unregister w : sched_step s (unregister_worker s w)
| ss_drain w : sched_step s (mark_worker_draining s w)
| ss_touch w now : sched_step s (set_pool s (touch (sch_pool s) w now))
| ss_tick tick ready : sched_step s (dispatch_tick s tick ready).

Definition sched_reachable (name : string) : Scheduler -> Prop := rtc sched_step (Scheduler_new name).

Lemma sched_step_inv s s' : sched_inv s -> sched_step s s' -> sched_inv s'.
Proof.
  intros Hs Hstep. destruct Hstep.
  - by apply enqueue_eval_inv.
  - by apply enqueue_build_inv.
  - by apply (inv_pool s); [|apply update_shared_keeps|].
  - unfold get_new_job_candidates. simpl.
    case_match; [done|]. by apply (inv_pool s); [|apply update_shared_keeps|].
  - by apply request_job_inv.
  - by apply (inv_tracker_step s); [done|done|apply step_scores|].
  - by apply job_rejected_inv.
  - by apply handle_job_completed_inv.
  - by apply handle_job_failed_inv.
  - by apply handle_eval_result_inv.
  - by apply abort_evaluation_inv.
  - by apply cancel_inv.
  - by eapply session_register_inv.
  - by apply (inv_pool s); [|apply update_shared_keeps|].
  - by apply abort_org_inv.
  - by apply (inv_pool s); [|apply update_shared_keeps|].
  - apply kick_inv. by apply (inv_pool s); [|apply update_shared_keeps|].
  - by apply (inv_pool s); [|apply update_shared_keeps|].
  - by apply unregister_inv.
  - by apply (inv_pool s); [|apply mark_draining_keeps|].
  - by apply (inv_pool s); [|apply update_shared_keeps|].
  - by apply dispatch_tick_inv.
Qed.

Lemma sched_new_inv name : sched_inv (Scheduler_new name).
Proof. split; [apply inv_initial|]. intros id w j. simpl. by rewrite lookup_empty. Qed.

(** C4. In every state the scheduler can reach, whatever messages its workers send and
    in whatever order, no job is queued and running at once, and every running job
    is in the in-flight set of the connected worker it is assigned to. *)
Theorem scheduler_agreement name s : sched_reachable name s -> sched_inv s.
Proof.
  intros Hr. unfold sched_reachable in Hr. pose proof (sched_new_inv name) as Hinit.
  revert Hinit. induction Hr as [x|x y z Hstep _ IH]; intros Hx; [exact Hx|].
  by eapply IH, sched_step_inv.
Qed.

(** ** Assignment *)

Lemma authorized_for_worker s w job :
  authorized_for (worker_auth_and_caps s w).1 job = true -> is_connected (sch_pool s) w = true ->
  worker_authorized_for_org s w (org_id job) = true.
Proof.
  unfold worker_auth_and_caps, worker_authorized_for_org, peer_auth_for, is_connected. simpl.
  intros Ha [slot Hw]%bool_decide_eq_true. rewrite Hw in *. simpl in *.
  by destruct (sh_peer_auth (shared slot)).
Qed.

Lemma add_pending_lookup t i j id job :
  jt_pending (add_pending t i j).1 !! id = Some job ->
  jt_pending t !! id = Some job \/ (id = i /\ job = j).
Proof.
  unfold add_pending. destruct (_ || _); simpl; [by left|].
  destruct (decide (id = i)) as [->|]; intros Hp; simplify_map_eq; [by right|by left].
Qed.

Lemma enqueue_build_tracker s i b :
  sch_tracker (enqueue_build_job s i b).1 = (add_pending (sch_tracker s) i (PendingBuild b)).1.
Proof. unfold enqueue_build_job. by destruct (add_pending _ _ _). Qed.

Lemma enqueue_builds_pending l s id job :
  jt_pending (sch_tracker (foldl (fun s p => (enqueue_build_job s p.1 p.2).1) s l)) !! id = Some job ->
  jt_pending (sch_tracker s) !! id = Some job \/ exists b, (id, b) ∈ l /\ job = PendingBuild b.
Proof.
  revert s. induction l as [|[i b] l IH]; intros s; simpl; [by left|].
  intros [Hp|(b' & Hb & Hj)]%IH; [|right; exists b'; split; [by right|done]].
  rewrite enqueue_build_tracker in Hp. apply add_pending_lookup in Hp as [?|[-> ->]]; [by left|].
  right. exists b. split; [by left|done].
Qed.

Lemma try_assign_some s ck w authorized caps kind s' a :
  try_assign s ck w authorized caps kind = (s', Some a) ->
  exists j, dispatchable (sch_tracker s) authorized caps kind (as_job_id a) j /\
    jt_active (sch_tracker s') = <[as_job_id a := (w, j)]> (jt_active (sch_tracker s)) /\
    wp_workers (sch_pool s') = wp_workers (assign_job (sch_pool s) w (as_job_id a)) /\
    as_org_id a = org_id j /\ as_job a = into_job j.
Proof.
  unfold try_assign. destruct (take_best_of_kind _ _ _ _ _ _ _ _ _ _) as [t [a0|]] eqn:E; [|done].
  intros [= <- <-]. apply take_some in E as (j & l & _ & Hd & _ & _ & Ha & _ & Hj & Ho & _).
  exists j. by destruct a0.
Qed.

(** The worker [w], with shared data [sh], may be given job [j] under [id] in answer to
    a request of [kind]. *)
Definition may_have (s : Scheduler) (refreshed : list (string * PendingBuildJob)) (w : string)
    (kind : JobKind) (id : string) (sh : WorkerShared) (j : PendingJob) : Prop :=
  wp_workers (sch_pool s) !! w = Some (SlotActive sh) /\
  (kind = JobKindBuild -> u32 (Z.of_nat (size (sh_assigned_jobs sh))) < sh_max_concurrent_builds sh) /\
  worker_authorized_for_org s w (org_id j) = true /\
  job_eligible_for_caps j (worker_caps (sch_pool s) w) = true /\ kind_matches kind j = true /\
  (jt_pending (sch_tracker s) !! id = Some j \/ exists b, (id, b) ∈ refreshed /\ j = PendingBuild b).

(** The worker [w] now runs [j], the job of assignment [a]. *)
Definition now_runs (s' : Scheduler) (w : string) (a : Assignment) (j : PendingJob) : Prop :=
  jt_active (sch_tracker s') !! as_job_id a = Some (w, j) /\
  in_flight (sch_pool s') w (as_job_id a) /\ as_org_id a = org_id j /\ as_job a = into_job j.

Lemma has_capacity_active p w kind :
  has_capacity p w kind = true ->
  exists sh, wp_workers p !! w = Some (SlotActive sh) /\
    (kind = JobKindBuild -> u32 (Z.of_nat (size (sh_assigned_jobs sh))) < sh_max_concurrent_builds sh).
Proof.
  unfold has_capacity, has_build_capacity.
  destruct (wp_workers p !! w) as [[sh|]|]; try done. intros Hc. exists sh. split; [done|].
  intros ->. by apply Z.ltb_lt.
Qed.

Lemma attempt_sound s refreshed w kind s1 ck s2 a :
  has_capacity (sch_pool s) w kind = true -> is_connected (sch_pool s1) w = true ->
  (forall id j, jt_pending (sch_tracker s1) !! id = Some j ->
     jt_pending (sch_tracker s) !! id = Some j \/ exists b, (id, b) ∈ refreshed /\ j = PendingBuild b) ->
  try_assign s1 ck w (worker_auth_and_caps s w).1 (worker_auth_and_caps s w).2 kind = (s2, Some a) ->
  exists sh j, may_have s refreshed w kind (as_job_id a) sh j /\ now_runs s2 w a j.
Proof.
  intros Hcap Hc1 Hpend (j & (Hp & Hauth & Hcaps & Hk) & Ha & Hpool & Ho & Hj)%try_assign_some.
  pose proof (has_capacity_connected _ _ _ Hcap) as Hc.
  destruct (has_capacity_active _ _ _ Hcap) as (sh & Hw & Hbuild).
  exists sh, j. split; split_and!; try done.
  - by apply (authorized_for_worker s w j).
  - by apply Hpend.
  - rewrite Ha. by simplify_map_eq.
  - unfold in_flight. rewrite Hpool. by apply assign_job_in_flight.
Qed.

Lemma request_job_granted s ck1 ck2 refreshed w kind s' a :
  request_job s ck1 ck2 refreshed w kind = (s', Some a) ->
  exists sh j, may_have s refreshed w kind (as_job_id a) sh j /\ now_runs s' w a j.
Proof.
  unfold request_job. destruct (has_capacity _ _ _) eqn:Hcap; simpl; [|done].
  pose proof (has_capacity_connected _ _ _ Hcap) as Hc.
  destruct (try_assign s _ _ _ _ _) as [s1 [a1|]] eqn:E1.
  { intros [= <- <-]. eapply attempt_sound; [done|exact Hc| |exact E1]. by left. }
  unfold try_assign in E1.
  destruct (take_best_of_kind _ _ _ _ _ _ _ _ _ _) as [t1 [a1|]] eqn:Et; [done|].
  injection E1 as <-. apply take_none in Et as (_ & Hp & _).
  intros E2. eapply attempt_sound; [done| | |exact E2]; destruct kind; simpl.
  - exact Hc.
  - by rewrite enqueue_builds_connected.
  - rewrite Hp. by left.
  - intros id j Hj%enqueue_builds_pending. simpl in Hj. by rewrite Hp in Hj.
Qed.

(** A job is only ever handed to a worker that may have it: the worker is connected
    and not draining, has build capacity left for a build, is authorized for the
    job's organization and capable of running it; the job was queued, or the
    on-demand refresh just queued it; and afterwards the worker runs it. *)
Theorem request_job_sound s ck1 ck2 refreshed w kind s' a :
  request_job s ck1 ck2 refreshed w kind = (s', Some a) ->
  exists sh j, may_have s refreshed w kind (as_job_id a) sh j /\ now_runs s' w a j.
Proof. apply request_job_granted. Qed.

(** ** Draining and departure *)

(** The worker is connected and draining. *)
Definition draining (s : Scheduler) (w : string) : Prop :=
  exists sh, wp_workers (sch_pool s) !! w = Some (SlotDraining sh).

(** A worker that announces it drains keeps what it runs and gets nothing more: the
    queue and its in-flight jobs are unchanged, and every later request of it is
    answered with nothing and changes nothing. *)
Theorem draining_gets_nothing s w :
  is_connected (sch_pool s) w = true ->
  let s' := mark_worker_draining s w in
  draining s' w /\ sch_tracker s' = sch_tracker s /\
  (forall id, in_flight (sch_pool s') w id <-> in_flight (sch_pool s) w id) /\
  (forall ck1 ck2 refreshed kind, request_job s' ck1 ck2 refreshed w kind = (s', None)).
Proof.
  unfold is_connected. intros [slot Hw]%bool_decide_eq_true.
  assert (Hd : wp_workers (sch_pool (mark_worker_draining s w)) !! w = Some (SlotDraining (shared slot))).
  { unfold mark_worker_draining, mark_draining. simpl. rewrite Hw. simpl.
    rewrite lookup_insert_eq. by destruct slot. }
  split_and!; [by eexists|done| |].
  - intros id. unfold in_flight. rewrite Hd, Hw. split; intros (sl & [= <-] & Hid).
    + by exists slot.
    + by exists (SlotDraining (shared slot)).
  - intros. unfold request_job, has_capacity. by rewrite Hd.
Qed.

(** When a worker goes, its jobs come back: after [unregister_worker] it is not
    connected, no job runs on it, every job that did is queued again with the
    database told to reset it, and other workers' jobs run on. *)
Theorem unregister_requeues s w :
  sched_inv s ->
  let s' := unregister_worker s w in
  is_connected (sch_pool s') w = false /\
  (forall id j, jt_active (sch_tracker s) !! id = Some (w, j) ->
     jt_pending (sch_tracker s') !! id = Some j /\ jt_active (sch_tracker s') !! id = None /\
     exists jobs, DbRequeueOrphans jobs ∈ sch_effects s' /\ j ∈ jobs) /\
  (forall id w' j, w' ≠ w -> jt_active (sch_tracker s) !! id = Some (w', j) ->
     jt_active (sch_tracker s') !! id = Some (w', j)).
Proof.
  intros Hs. unfold unregister_worker. simpl.
  destruct (worker_disconnected_maps (sch_tracker s) w (si_tracker _ Hs)) as (Ha & Hp & _).
  pose proof (worker_disconnected_jobs (sch_tracker s) w) as Hr.
  destruct (worker_disconnected (sch_tracker s) w) as [t requeued]. simpl in *. split_and!.
  - unfold is_connected. simpl. by rewrite lookup_delete_eq, bool_decide_false by (by intros []).
  - intros id j Hj. split; [apply Hp; by right|]. split.
    + destruct (jt_active t !! id) as [[w' j']|] eqn:E; [|done].
      apply Ha in E as [E Hne]. congruence.
    + exists requeued. split; [set_solver|]. rewrite Hr.
      apply (list_elem_of_fmap_2 (fun p => p.2.2) _ (id, (w, j))), elem_of_map_to_list.
      by apply map_lookup_filter_Some.
  - intros id w' j Hne Hj. by apply Ha.
Qed.

(** ** Offers *)

Lemma candidates_elem t authorized caps c :
  c ∈ candidates_for_worker t authorized caps <->
  exists id j, jt_pending t !! id = Some j /\ authorized_for authorized j = true /\
    job_eligible_for_caps j caps = true /\ c = as_candidate j id.
Proof.
  unfold candidates_for_worker, eligible_for_worker. rewrite list_elem_of_In, in_map_iff. split.
  - intros ([id j] & <- & [Hin [Ha Hc]%andb_true_iff]%List.filter_In).
    apply list_elem_of_In, hash_iter_elem in Hin. eauto 10.
  - intros (id & j & Hp & Ha & Hc & ->). exists (id, j). split; [done|]. apply List.filter_In.
    split; [by apply list_elem_of_In, hash_iter_elem|]. by rewrite andb_true_iff.
Qed.

Lemma sent_after_mark p w ids :
  is_connected p w = true ->
  default ∅ (sent_candidates_for (mark_candidates_sent p w ids) w) =
  default ∅ (sent_candidates_for p w) ∪ list_to_set ids.
Proof.
  unfold is_connected, sent_candidates_for, mark_candidates_sent. intros [slot Hw]%bool_decide_eq_true.
  rewrite lookup_update_shared, decide_True, Hw by done. simpl. by rewrite shared_map.
Qed.

Lemma auth_after_mark p w ids w' :
  peer_auth_for (mark_candidates_sent p w ids) w' = peer_auth_for p w' /\
  worker_caps (mark_candidates_sent p w ids) w' = worker_caps p w'.
Proof.
  unfold peer_auth_for, worker_caps, metrics_for, mark_candidates_sent.
  rewrite lookup_update_shared. case_decide; [|done].
  destruct (wp_workers p !! w') as [slot|]; [|done]. simpl. by rewrite !shared_map.
Qed.

(** The candidates of one push. *)
Definition delta (s : Scheduler) (w : string) : list JobCandidate :=
  List.filter (fun c => negb (bool_decide (jcand_job_id c ∈ default ∅ (sent_candidates_for (sch_pool s) w))))
    (candidates_for_worker (sch_tracker s) (worker_auth_and_caps s w).1 (worker_auth_and_caps s w).2).

Lemma get_new_delta s w :
  (get_new_job_candidates s w).2 = delta s w /\
  (delta s w = [] -> (get_new_job_candidates s w).1 = s) /\
  (delta s w ≠ [] -> (get_new_job_candidates s w).1 =
     set_pool s (mark_candidates_sent (sch_pool s) w (map jcand_job_id (delta s w)))).
Proof.
  unfold get_new_job_candidates, worker_auth_and_caps. fold (worker_auth_and_caps s w).
  change (List.filter _ _) with (delta s w). by destruct (delta s w).
Qed.

Lemma new_candidates_spec s w :
  (forall c, c ∈ (get_new_job_candidates s w).2 <->
     c ∈ candidates_for_worker (sch_tracker s) (worker_auth_and_caps s w).1 (worker_auth_and_caps s w).2 /\
     jcand_job_id c ∉ default ∅ (sent_candidates_for (sch_pool s) w)) /\
  (is_connected (sch_pool s) w = true ->
   (get_new_job_candidates (get_new_job_candidates s w).1 w).2 = []).
Proof.
  destruct (get_new_delta s w) as (Hd & Hnil & Hcons). split.
  - intros c. rewrite Hd. unfold delta. rewrite list_elem_of_In, List.filter_In, <- list_elem_of_In.
    by rewrite negb_true_iff, bool_decide_eq_false.
  - intros Hc. destruct (get_new_delta (get_new_job_candidates s w).1 w) as [-> _].
    destruct (decide (delta s w = [])) as [He|He]; [by rewrite (Hnil He)|]. rewrite (Hcons He).
    destruct (delta (set_pool s _) w) as [|c l] eqn:E; [done|]. exfalso.
    assert (Hin : c ∈ delta (set_pool s (mark_candidates_sent (sch_pool s) w (map jcand_job_id (delta s w)))) w)
      by (rewrite E; left).
    unfold delta in Hin at 1. rewrite list_elem_of_In, List.filter_In, <- list_elem_of_In in Hin.
    destruct Hin as [Hin Hs]. rewrite negb_true_iff, bool_decide_eq_false in Hs.
    unfold worker_auth_and_caps in Hin. simpl in Hin, Hs.
    destruct (auth_after_mark (sch_pool s) w (map jcand_job_id (delta s w)) w) as [Ha Hcaps].
    rewrite Ha, Hcaps in Hin. rewrite sent_after_mark in Hs by done. apply Hs.
    destruct (decide (jcand_job_id c ∈ default ∅ (sent_candidates_for (sch_pool s) w))); [set_solver|].
    apply elem_of_union_r, elem_of_list_to_set, (list_elem_of_fmap_2 jcand_job_id).
    unfold delta. apply list_elem_of_In, List.filter_In. split; [by apply list_elem_of_In|].
    by rewrite negb_true_iff, bool_decide_eq_false.
Qed.

Lemma rejected_lookup s w id w' :
  wp_workers (sch_pool (job_rejected s w id)) !! w' =
  map_shared (fun sh => with_jobs sh
    (if decide (w' = w) then sh_assigned_jobs sh ∖ {[id]} else sh_assigned_jobs sh)
    (sh_sent_candidates sh ∖ {[id]})) <$> wp_workers (sch_pool s) !! w'.
Proof.
  unfold job_rejected, remove_sent_candidate. simpl. rewrite lookup_fmap. unfold release_job.
  destruct (wp_workers (sch_pool s) !! w) as [slot|] eqn:E; simpl.
  - destruct (decide (w' = w)) as [->|]; simplify_map_eq.
    + by destruct slot.
    + by destruct (wp_workers (sch_pool s) !! w') as [[]|].
  - destruct (decide (w' = w)) as [->|]; [by rewrite E|].
    by destruct (wp_workers (sch_pool s) !! w') as [[]|].
Qed.

Lemma rejected_auth s w id w' :
  worker_auth_and_caps (job_rejected s w id) w' = worker_auth_and_caps s w'.
Proof.
  unfold worker_auth_and_caps, peer_auth_for, worker_caps, metrics_for. rewrite rejected_lookup.
  destruct (wp_workers (sch_pool s) !! w') as [slot|]; [|done]. simpl. by rewrite !shared_map.
Qed.

Lemma rejected_not_sent s w id w' :
  id ∉ default ∅ (sent_candidates_for (sch_pool (job_rejected s w id)) w').
Proof.
  unfold sent_candidates_for. rewrite rejected_lookup.
  destruct (wp_workers (sch_pool s) !! w') as [slot|]; simpl; [rewrite shared_map; simpl|]; set_solver.
Qed.

(** Offers are deltas: a push never repeats a job already offered to the worker, and
    what one push sent the next one leaves out. *)
Theorem offers_are_deltas s w :
  let '(s', cs) := get_new_job_candidates s w in
  (forall c, c ∈ cs -> jcand_job_id c ∉ default ∅ (sent_candidates_for (sch_pool s) w)) /\
  (is_connected (sch_pool s) w = true -> (get_new_job_candidates s' w).2 = []).
Proof.
  pose proof (new_candidates_spec s w) as (Hcs & Hempty).
  destruct (get_new_job_candidates s w) as [s' cs] eqn:E. simpl in *. split; [|done].
  intros c Hc. by apply Hcs in Hc as [_ ?].
Qed.

(** A rejected job is offered again: once its worker rejects it, it is pending and
    part of the next push to every connected worker that may run it, even one that
    was offered it before. *)
Theorem rejected_job_reoffered s w id j w' :
  jt_active (sch_tracker s) !! id = Some (w, j) ->
  is_connected (sch_pool s) w' = true ->
  authorized_for (worker_auth_and_caps s w').1 j = true ->
  job_eligible_for_caps j (worker_auth_and_caps s w').2 = true ->
  let s' := job_rejected s w id in
  jt_pending (sch_tracker s') !! id = Some j /\
  as_candidate j id ∈ (get_new_job_candidates s' w').2.
Proof.
  intros Hj Hc Hauth Hcaps s'.
  assert (Hp : jt_pending (sch_tracker s') !! id = Some j).
  { unfold s', job_rejected, release_to_pending. simpl. rewrite Hj. by simplify_map_eq. }
  split; [done|]. apply new_candidates_spec. split.
  - apply candidates_elem. exists id, j. split_and!; try done.
    + unfold s'. by rewrite rejected_auth.
    + unfold s'. by rewrite rejected_auth.
  - simpl. by apply rejected_not_sent.
Qed.
End invariant.

(** ** Witnesses *)

#[local] Existing Instance nanosecond_clock.
#[local] Existing Instance null_serde.
#[local] Existing Instance forward_order.
#[local] Existing Instance tally_uuid.

Definition example_clock : Clock :=
  {| ck_fresh := N.of_nat; ck_now := at_ns 1000000000000; ck_at := at_ns 1000000000001 |}.

Definition example_pending_build (anchor : N) : PendingBuildJob := {|
  pb_derivation_build := anchor; pb_evaluation_id := 3; pb_org_id := 1;
  pb_job := {| bj_builds := [] |}; pb_required_paths := [];
  pb_architecture := "x86_64-linux"; pb_required_features := [];
  pb_dependency_count := 1; pb_closure_size := None; pb_prefer_local_build := false;
  pb_is_fixed_output := false; pb_history := history_default;
  pb_queued_at := at_ns 0; pb_ready_at := at_ns 1000000000000;
  pb_rescore_count := 4; pb_pname := None; pb_substitute := false |}.

(** Connect a worker of organization 1 that builds x86_64-linux, two jobs at a time. *)
Definition connect (w : string) (s : Scheduler) : Scheduler :=
  let s := default s (session_register s (Some 1%N) 5 w capabilities_default {[1%N]}) in
  update_worker_capabilities s w ["x86_64-linux"] [] 2 8 16000 100.

(** Two connected workers and one queued build. *)
Definition idle_scheduler : Scheduler :=
  (enqueue_build_job (connect "v" (connect "w" (Scheduler_new "simple"))) "build:7"
     (example_pending_build 7)).1.

(** The worker "w" asked for a build and runs it. *)
Definition busy_scheduler : Scheduler :=
  (request_job idle_scheduler example_clock example_clock [] "w" JobKindBuild).1.

Lemma connect_reachable name s w :
  sched_reachable name s -> is_connected (sch_pool s) w = false ->
  sched_reachable name (connect w s).
Proof.
  intros Hs Hc. unfold connect, session_register. rewrite Hc. simpl.
  eapply rtc_r; [|apply ss_caps]. eapply rtc_r; [exact Hs|].
  apply (ss_register _ (Some 1%N) 5 w capabilities_default {[1%N]}).
  unfold session_register. by rewrite Hc.
Qed.

Lemma idle_reachable : sched_reachable "simple" idle_scheduler.
Proof.
  unfold idle_scheduler. eapply rtc_r; [|apply ss_enqueue_build].
  apply connect_reachable; [|vm_compute; reflexivity].
  apply connect_reachable; [|vm_compute; reflexivity]. apply rtc_refl.
Qed.

Lemma busy_reachable : sched_reachable "simple" busy_scheduler.
Proof. unfold busy_scheduler. eapply rtc_r; [apply idle_reachable|apply ss_request]. Qed.

Lemma busy_inv : sched_inv busy_scheduler.
Proof.
  pose proof (sched_new_inv "simple") as Hinit. pose proof busy_reachable as Hr.
  induction Hr as [x|x y z Hstep _ IH]; [exact Hinit|]. by eapply IH, sched_step_inv.
Qed.

Lemma busy_active :
  jt_active (sch_tracker busy_scheduler) !! "build:7" = Some ("w", PendingBuild (example_pending_build 7)).
Proof. vm_compute. reflexivity. Qed.

Lemma scheduler_agreement_witness :
  sched_reachable "simple" busy_scheduler /\ in_flight (sch_pool busy_scheduler) "w" "build:7".
Proof.
  split; [exact busy_reachable|].
  exact (si_agree _ (scheduler_agreement "simple" _ busy_reachable) _ _ _ busy_active).
Defined.

Definition busy_answer : option Assignment :=
  (request_job idle_scheduler example_clock example_clock [] "w" JobKindBuild).2.

Lemma request_job_sound_witness :
  exists a, busy_answer = Some a /\
    exists sh j, may_have idle_scheduler [] "w" JobKindBuild (as_job_id a) sh j /\
      now_runs busy_scheduler "w" a j.
Proof.
  assert (H : request_job idle_scheduler example_clock example_clock [] "w" JobKindBuild =
    (busy_scheduler, busy_answer)) by (unfold busy_scheduler, busy_answer; apply surjective_pairing).
  assert (Ha : exists a, busy_answer = Some a) by (vm_compute; eexists; reflexivity).
  destruct Ha as [a Ha]. exists a. split; [exact Ha|]. rewrite Ha in H.
  exact (request_job_sound _ _ _ _ _ _ _ _ H).
Defined.

Lemma draining_gets_nothing_witness :
  is_connected (sch_pool busy_scheduler) "w" = true /\
  request_job (mark_worker_draining busy_scheduler "w") example_clock example_clock [] "w" JobKindFlake =
    (mark_worker_draining busy_scheduler "w", None).
Proof.
  assert (H : is_connected (sch_pool busy_scheduler) "w" = true) by (vm_compute; reflexivity).
  split; [exact H|].
  exact (proj2 (proj2 (proj2 (draining_gets_nothing _ _ H))) example_clock example_clock [] JobKindFlake).
Defined.

Lemma unregister_requeues_witness :
  sched_inv busy_scheduler /\
  jt_pending (sch_tracker (unregister_worker busy_scheduler "w")) !! "build:7" =
    Some (PendingBuild (example_pending_build 7)).
Proof.
  split; [exact busy_inv|].
  exact (proj1 (proj1 (proj2 (unregister_requeues busy_scheduler "w" busy_inv)) _ _ busy_active)).
Defined.

Lemma rejected_job_reoffered_witness :
  jt_active (sch_tracker busy_scheduler) !! "build:7" = Some ("w", PendingBuild (example_pending_build 7)) /\
  as_candidate (PendingBuild (example_pending_build 7)) "build:7" ∈
    (get_new_job_candidates (job_rejected busy_scheduler "w" "build:7") "v").2.
Proof.
  split; [exact busy_active|].
  assert (Hc : is_connected (sch_pool busy_scheduler) "v" = true) by (vm_compute; reflexivity).
  assert (Ha : authorized_for (worker_auth_and_caps busy_scheduler "v").1
    (PendingBuild (example_pending_build 7)) = true) by (vm_compute; reflexivity).
  assert (He : job_eligible_for_caps (PendingBuild (example_pending_build 7))
    (worker_auth_and_caps busy_scheduler "v").2 = true) by (vm_compute; reflexivity).
  exact (proj2 (rejected_job_reoffered _ _ _ _ _ busy_active Hc Ha He)).
Defined.
