(* ===== verification/SchedulerHandlers.v ===== *)
(** * The scheduler's handlers: draining, reports, aborts and liveness

    What the handlers of [job_handlers/] and [worker_lifecycle.rs] do on each of their
    branches: a draining worker stays draining until it leaves, a report about a job
    ends it with the right database effects, aborting reaches every worker that runs
    the evaluation, a revocation moves the revoked jobs back to the queue, and the
    watchdog unregisters exactly the workers that have been silent. *)

From S2P Require Import Prelude Float ScoreContext ScorePolicy Proto JobData JobTracker TrackerFacts Dispatch TrackerInvariant WorkerPool EdgeStream Scheduler SchedulerInvariant.

Local Open Scope Z_scope.

(** ** Lifecycle marks *)

(** The lifecycle of every worker is as it was. *)
Definition same_slots (p p' : WorkerPool) : Prop :=
  forall w, is_draining <$> wp_workers p' !! w = is_draining <$> wp_workers p !! w.

#[export] Instance same_slots_preorder : PreOrder same_slots.
Proof. split; [by intros p w|]. intros p q r Hpq Hqr w. by rewrite Hqr, Hpq. Qed.

Lemma is_draining_map f slot : is_draining (map_shared f slot) = is_draining slot.
Proof. by destruct slot. Qed.

Lemma update_shared_slots p id f : same_slots p (update_shared p id f).
Proof.
  intros w. rewrite lookup_update_shared. case_decide; [|done]. subst.
  destruct (wp_workers p !! id); [|done]. simpl. by rewrite is_draining_map.
Qed.

Lemma remove_sent_slots p id : same_slots p (remove_sent_candidate p id).
Proof.
  intros w. unfold remove_sent_candidate. simpl. rewrite lookup_fmap.
  destruct (wp_workers p !! w); [|done]. simpl. by rewrite is_draining_map.
Qed.

Lemma send_abort_slots p w id r : same_slots p (send_abort p w id r).1.
Proof. unfold send_abort. repeat case_match; simpl; try done. apply update_shared_slots. Qed.

Lemma release_job_slots p w id : same_slots p (release_job p w id).1.
Proof. unfold release_job. case_match; simpl; [apply update_shared_slots|done]. Qed.

Lemma abort_all_slots r targets p : same_slots p (foldl (abort_active r) p targets).
Proof.
  revert p. induction targets as [|x l IH]; intros p; simpl; [done|].
  etrans; [apply send_abort_slots|apply IH].
Qed.

(** Exact effect of a run of aborts on one worker. *)
Lemma abort_all_lookup r targets p w :
  wp_workers (foldl (abort_active r) p targets) !! w =
  (fun slot => if sh_abort_open (shared slot)
     then map_shared (fun s => with_session s (sh_peer_auth s) (sh_reauth_permit s)
       (sh_abort_queue s ++ map (fun t => (t.2, r)) (List.filter (fun t => (t.1 =? w)%string) targets))
       (sh_last_seen s)) slot
     else slot) <$> wp_workers p !! w.
Proof.
  revert p. induction targets as [|[v id] l IH]; intros p; simpl.
  { destruct (wp_workers p !! w) as [[[] |[]]|]; simpl; try done; case_match; try done;
      unfold with_session; simpl; by rewrite app_nil_r. }
  rewrite IH. clear IH. unfold abort_active, send_abort. simpl.
  destruct (String.eqb_spec v w) as [->|Hne].
  - destruct (wp_workers p !! w) as [slot|] eqn:E; simpl; [|by rewrite E].
    destruct (sh_abort_open (shared slot)) eqn:Ho; simpl.
    + rewrite lookup_alter_eq, E. simpl.
      rewrite shared_map. simpl. rewrite Ho. unfold with_session.
      destruct slot; simpl; by rewrite <- app_assoc.
    + rewrite E. simpl. by rewrite Ho.
  - destruct (wp_workers p !! v) as [slot|] eqn:E; simpl; [|done].
    destruct (sh_abort_open (shared slot)); simpl; [|done].
    by rewrite lookup_alter_ne.
Qed.

Section handlers.
Context `{CH : Chrono} {SD : Serde} {HO : HashOrder} {UF : UuidFormat}.

Lemma enqueue_build_slots s id job : same_slots (sch_pool s) (sch_pool (enqueue_build_job s id job).1).
Proof. unfold enqueue_build_job. destruct (add_pending _ _ _). apply remove_sent_slots. Qed.

Lemma enqueue_builds_slots l s :
  same_slots (sch_pool s) (sch_pool (foldl (fun s p => (enqueue_build_job s p.1 p.2).1) s l)).
Proof.
  revert s. induction l as [|p l IH]; intros s; simpl; [done|].
  etrans; [apply enqueue_build_slots|apply IH].
Qed.

Lemma try_assign_slots s ck w authorized caps kind :
  same_slots (sch_pool s) (sch_pool (try_assign s ck w authorized caps kind).1).
Proof.
  unfold try_assign. destruct (take_best_of_kind _ _ _ _ _ _ _ _ _ _) as [t [a|]]; simpl; [|done].
  apply update_shared_slots.
Qed.

Lemma request_job_slots s ck1 ck2 refreshed w kind :
  same_slots (sch_pool s) (sch_pool (request_job s ck1 ck2 refreshed w kind).1).
Proof.
  unfold request_job. destruct (has_capacity _ _ _); simpl; [|done].
  pose proof (try_assign_slots s ck1 w (peer_auth_for (sch_pool s) w ≫= as_filter)
    (worker_caps (sch_pool s) w) kind) as H1.
  destruct (try_assign s ck1 _ _ _ _) as [s1 [a|]]; simpl in *; [done|].
  etrans; [exact H1|]. etrans; [|apply try_assign_slots]. destruct kind; [done|].
  simpl. apply enqueue_builds_slots.
Qed.

Lemma handle_job_completed_slots s src w id :
  same_slots (sch_pool s) (sch_pool (handle_job_completed s src w id).1).
Proof.
  unfold handle_job_completed. pose proof (release_job_slots (sch_pool s) w id) as H.
  destruct (release_job (sch_pool s) w id) as [p idle]. simpl in *.
  unfold enqueue_eval_job.
  repeat (case_match; simpl; try done).
Qed.

Lemma handle_job_failed_slots s w id err kind missing :
  same_slots (sch_pool s) (sch_pool (handle_job_failed s w id err kind missing)).
Proof.
  unfold handle_job_failed. pose proof (release_job_slots (sch_pool s) w id) as H.
  simpl. repeat (case_match; simpl; try done).
Qed.

Lemma draining_iff s w : draining s w <-> is_draining <$> wp_workers (sch_pool s) !! w = Some true.
Proof.
  unfold draining. destruct (wp_workers (sch_pool s) !! w) as [[]|]; simpl; naive_solver.
Qed.

Lemma same_slots_draining s s' w :
  same_slots (sch_pool s) (sch_pool s') -> draining s w -> draining s' w.
Proof. intros H. rewrite !draining_iff. by rewrite H. Qed.

Lemma session_register_draining s reg now v caps peers s' w :
  session_register s reg now v caps peers = Some s' -> draining s w -> draining s' w.
Proof.
  unfold session_register, is_connected. case_bool_decide as Hc; [done|]. intros [= <-] [sh Hw].
  exists sh. assert (w ≠ v) by (intros ->; destruct Hc; eauto).
  unfold register_worker, register.
  destruct (wp_workers (sch_pool s) !! v) eqn:E; [by destruct Hc; eauto|].
  destruct reg; simpl; by rewrite lookup_insert_ne.
Qed.

(** A draining worker drains until it leaves: whatever the scheduler handles next, the
    worker is still draining afterwards unless it was just unregistered, and no
    request it makes is granted meanwhile. *)
Theorem draining_until_gone s s' w :
  draining s w -> sched_step s s' ->
  (forall ck1 ck2 refreshed kind, request_job s ck1 ck2 refreshed w kind = (s, None)) /\
  (draining s' w \/ s' = unregister_worker s w).
Proof.
  intros Hd Hstep. split.
  { destruct Hd as [sh Hw]. intros. unfold request_job, has_capacity. by rewrite Hw. }
  destruct Hstep; try lazymatch goal with
    | H : session_register _ _ _ _ _ _ = _ |- _ => fail
    | |- draining (unregister_worker _ _) _ \/ _ => fail
    | |- draining (mark_worker_draining _ _) _ \/ _ => fail
    | _ => left; eapply same_slots_draining, Hd
    end.
  - unfold enqueue_eval_job. by destruct (add_pending _ _ _).
  - apply enqueue_build_slots.
  - apply update_shared_slots.
  - unfold get_new_job_candidates. simpl. case_match; [done|]. apply update_shared_slots.
  - apply request_job_slots.
  - done.
  - unfold job_rejected. simpl. etrans; [apply release_job_slots|apply remove_sent_slots].
  - apply handle_job_completed_slots.
  - apply handle_job_failed_slots.
  - unfold handle_eval_result. by repeat (case_match; simpl).
  - apply abort_all_slots.
  - done.
  - left. by eapply session_register_draining.
  - apply update_shared_slots.
  - unfold abort_org_jobs_on_worker. case_match; [done|].
    destruct (drain_peer_jobs_on_worker _ _ _) as [t [|id ids]]; [done|]. simpl.
    apply (abort_all_slots "org deactivated worker"
      ((w0, id) :: map (fun id => (w0, id)) ids) (sch_pool s)).
  - apply update_shared_slots.
  - apply update_shared_slots.
  - apply update_shared_slots.
  - destruct (decide (w0 = w)) as [->|Hne]; [by right|left]. destruct Hd as [sh Hw]. exists sh.
    unfold unregister_worker. destruct (worker_disconnected _ _). simpl. by rewrite lookup_delete_ne.
  - left. destruct Hd as [sh Hw]. unfold draining, mark_worker_draining, mark_draining. simpl.
    destruct (wp_workers (sch_pool s) !! w0) as [slot|] eqn:E; [|by exists sh]. simpl.
    destruct (decide (w = w0)) as [->|]; simplify_map_eq; by exists sh.
  - apply update_shared_slots.
  - unfold dispatch_tick. set (s1 := if tick then _ else _).
    assert (H1 : sch_pool s1 = sch_pool s) by (subst s1; by destruct tick).
    case_match; simpl; rewrite <- H1; apply enqueue_builds_slots.
Qed.

(** ** Reports of a job's end *)

Lemma release_job_in_flight p w id w' id' :
  in_flight (release_job p w id).1 w' id' <-> in_flight p w' id' /\ (w', id') ≠ (w, id).
Proof.
  unfold in_flight, release_job. destruct (wp_workers p !! w) as [slot|] eqn:E; simpl.
  - destruct (decide (w' = w)) as [->|Hne]; [rewrite lookup_alter_eq, E|rewrite lookup_alter_ne by done].
    + split.
      * intros (sl & [= <-] & Hin). rewrite shared_map in Hin. simpl in Hin.
        apply elem_of_difference in Hin as [Hin Hn]. split; [by exists slot|]. intros [= ->]. set_solver.
      * intros [(sl & [= <-] & Hin) Hne]. eexists. split; [done|]. rewrite shared_map. simpl.
        apply elem_of_difference. split; [done|]. rewrite elem_of_singleton. congruence.
    + split; [intros H; split; [done|congruence]|by intros [? _]].
  - split; [|by intros [? _]]. intros (sl & Hs & Hin). split; [by exists sl|]. congruence.
Qed.

Lemma completed_in_flight s src w id w' id' :
  in_flight (sch_pool (handle_job_completed s src w id).1) w' id' <->
  in_flight (sch_pool s) w' id' /\ (w', id') ≠ (w, id).
Proof.
  rewrite <- release_job_in_flight. unfold handle_job_completed, enqueue_eval_job.
  destruct (release_job (sch_pool s) w id) as [p idle]. simpl.
  repeat (case_match; simpl; try done).
Qed.

Lemma failed_in_flight s w id err kind missing w' id' :
  in_flight (sch_pool (handle_job_failed s w id err kind missing)) w' id' <->
  in_flight (sch_pool s) w' id' /\ (w', id') ≠ (w, id).
Proof.
  rewrite <- release_job_in_flight. unfold handle_job_failed. simpl.
  repeat (case_match; simpl; try done).
Qed.

(** The report freed the worker entirely: nothing else is in flight on it. *)
Definition frees_worker (s : Scheduler) (w id : string) : bool := (release_job (sch_pool s) w id).2.

Lemma followup_queued t id k job :
  let t' := (add_pending (with_active (forget_job_scores t id) (delete id (jt_active t))) k job).1 in
  contains_job t' k = true /\
  (contains_job t k = false \/ id = k /\ jt_pending t !! id = None -> jt_pending t' !! k = Some job).
Proof.
  assert (Hfree : contains_job t k = false \/ id = k /\ jt_pending t !! id = None ->
    jt_pending t !! k = None /\ delete id (jt_active t) !! k = None).
  { unfold contains_job. intros [[Hp Ha]%orb_false_iff|[-> Hn]].
    - apply bool_decide_eq_false, eq_None_not_Some in Hp, Ha. split; [done|].
      destruct (delete id (jt_active t) !! k) eqn:E; [|done].
      apply lookup_delete_Some in E as [_ E]. congruence.
    - split; [done|apply lookup_delete_eq]. }
  unfold add_pending. simpl. destruct (_ || _) eqn:Hc; simpl; (split; [|intros [Hp Ha]%Hfree]).
  - exact Hc.
  - simpl in Hc. by rewrite Hp, Ha, !bool_decide_false in Hc by (by intros []).
  - unfold contains_job. simpl. by rewrite lookup_insert_eq, bool_decide_true.
  - by rewrite lookup_insert_eq.
Qed.

(** Completion, on every branch. The job is no longer in flight on the reporting
    worker and nothing else moves; a running build completes its build in the
    database; a running evaluation flushes its deferred edges, completes and drops
    them; a fetch-only evaluation instead queues its follow-up on the archived source
    under the evaluation's own id, fails when none was archived, and passes a
    database error on; a report about an unknown job has no effect. The dispatch
    loop is woken exactly when the worker became idle. *)
Theorem job_completed_spec s src w id :
  let '(s', r) := handle_job_completed s src w id in
  jt_active (sch_tracker s') = delete id (jt_active (sch_tracker s)) /\
  (forall w' id', in_flight (sch_pool s') w' id' <-> in_flight (sch_pool s) w' id' /\ (w', id') ≠ (w, id)) /\
  match active_job (sch_tracker s) id with
  | Some (PendingBuild j) =>
      sch_effects s' = sch_effects s ++ [DbBuildCompleted (pb_derivation_build j)] /\
      sch_dispatch_kick s' = sch_dispatch_kick s || frees_worker s w id /\
      jt_pending (sch_tracker s') = jt_pending (sch_tracker s) /\ r = Ok tt
  | Some (PendingEval j) =>
      let e := pe_evaluation_id j in
      if is_fetch_only (pe_job j) then
        sch_eval_edges s' = sch_eval_edges s /\
        match src with
        | Ok (Some path) =>
            sch_effects s' = sch_effects s /\ r = Ok tt /\
            contains_job (sch_tracker s') (eval_job_id e) = true /\
            (contains_job (sch_tracker s) (eval_job_id e) = false \/
             id = eval_job_id e /\ jt_pending (sch_tracker s) !! id = None ->
             jt_pending (sch_tracker s') !! eval_job_id e = Some (PendingEval (cached_followup j path)))
        | Ok None => r = Ok tt /\ exists msg,
            sch_effects s' = sch_effects s ++ [DbEvalFailed e msg Permanent []]
        | Err x => sch_effects s' = sch_effects s /\ r = Err x
        end
      else
        sch_effects s' = sch_effects s ++
          [DbFlushDeferredDeps e (into_pending (default edge_accumulator_default (sch_eval_edges s !! e)));
           DbEvalCompleted e] /\
        sch_eval_edges s' = delete e (sch_eval_edges s) /\
        sch_dispatch_kick s' = sch_dispatch_kick s || frees_worker s w id /\ r = Ok tt
  | None => sch_effects s' = sch_effects s /\ r = Ok tt
  end.
Proof.
  pose proof (completed_in_flight s src w id) as Hf. revert Hf.
  unfold frees_worker, handle_job_completed, active_job.
  destruct (release_job (sch_pool s) w id) as [p idle]. simpl.
  destruct (jt_active (sch_tracker s) !! id) as [[w0 [j|j]]|] eqn:E; simpl.
  - destruct (is_fetch_only (pe_job j)).
    + destruct src as [[path|]|x]; simpl.
      * pose proof (followup_queued (sch_tracker s) id (eval_job_id (pe_evaluation_id j))
          (PendingEval (cached_followup j path))) as [Hc Hp].
        unfold enqueue_eval_job. simpl. rewrite (surjective_pairing (add_pending _ _ _)). simpl.
        intros Hf. split_and!; [|exact Hf|done..|exact Hc|exact Hp].
        unfold add_pending. by case_match.
      * intros Hf. split_and!; [done|exact Hf|done..|]. by eexists.
      * intros Hf. by split_and!.
    + intros Hf. by destruct idle; simpl; rewrite ?orb_true_r, ?orb_false_r, <- ?app_assoc.
  - intros Hf. by destruct idle; simpl; rewrite ?orb_true_r, ?orb_false_r.
  - intros Hf. by split_and!.
Qed.

Lemma failed_active s w id err kind missing :
  jt_active (sch_tracker (handle_job_failed s w id err kind missing)) =
  delete id (jt_active (sch_tracker s)).
Proof. unfold handle_job_failed. simpl. by repeat (case_match; simpl). Qed.

Lemma failed_pending s w id err kind missing :
  jt_pending (sch_tracker (handle_job_failed s w id err kind missing)) = jt_pending (sch_tracker s).
Proof. unfold handle_job_failed. simpl. by repeat (case_match; simpl). Qed.

(** Failure, on every branch. The job stops running and leaves the reporter's in-flight
    set, nothing else moves and nothing is queued again by the scheduler itself: the
    database is told which build or evaluation failed, how and for which missing
    paths; a failed evaluation also forgets its deferred edges and wakes the dispatch
    loop; a report about an unknown job changes no queue and no row. *)
Theorem job_failed_spec s w id err kind missing :
  let s' := handle_job_failed s w id err kind missing in
  jt_active (sch_tracker s') = delete id (jt_active (sch_tracker s)) /\
  jt_pending (sch_tracker s') = jt_pending (sch_tracker s) /\
  (forall w' id', in_flight (sch_pool s') w' id' <-> in_flight (sch_pool s) w' id' /\ (w', id') ≠ (w, id)) /\
  match active_job (sch_tracker s) id with
  | Some (PendingBuild j) =>
      sch_effects s' = sch_effects s ++ [DbBuildFailed (pb_derivation_build j) err kind missing] /\
      sch_eval_edges s' = sch_eval_edges s
  | Some (PendingEval j) =>
      sch_effects s' = sch_effects s ++ [DbEvalFailed (pe_evaluation_id j) err kind missing] /\
      sch_eval_edges s' = delete (pe_evaluation_id j) (sch_eval_edges s) /\ sch_dispatch_kick s' = true
  | None => sch_effects s' = sch_effects s /\ sch_eval_edges s' = sch_eval_edges s
  end.
Proof.
  intros s'. split; [apply failed_active|]. split; [apply failed_pending|].
  split; [intros; apply failed_in_flight|]. unfold s', handle_job_failed, active_job. simpl.
  by destruct (jt_active (sch_tracker s) !! id) as [[w0 [j|j]]|]; simpl.
Qed.

(** A report is believed whoever sends it: the handlers look the job up by its id
    alone. A worker the job was taken from can fail a build that now runs on another
    worker: the build stops being tracked and is failed in the database, while the
    worker that really runs it keeps it in its in-flight set, which only its own
    later report, a rejection or its departure clears. *)
Theorem stale_report_ends_running_job s w w' id j err kind missing :
  sched_inv s -> jt_active (sch_tracker s) !! id = Some (w', PendingBuild j) -> w ≠ w' ->
  let s' := handle_job_failed s w id err kind missing in
  contains_job (sch_tracker s') id = false /\
  DbBuildFailed (pb_derivation_build j) err kind missing ∈ sch_effects s' /\
  in_flight (sch_pool s') w' id.
Proof.
  intros Hs Hj Hne s'. split_and!.
  - unfold contains_job, s'. rewrite failed_active, failed_pending, lookup_delete_eq.
    destruct (jt_pending (sch_tracker s) !! id) as [x|] eqn:E; [|done].
    pose proof (inv_disjoint _ (si_tracker _ Hs) id) as Hd. rewrite E, Hj in Hd. naive_solver.
  - unfold s', handle_job_failed. simpl. rewrite Hj. simpl. set_solver.
  - apply failed_in_flight. split; [by apply (si_agree _ Hs) in Hj|]. congruence.
Qed.

(** ** Aborts and revocations *)

(** The abort messages waiting for a worker, when its session still listens. *)
Definition abort_queue (p : WorkerPool) (w : string) : option (list (string * string)) :=
  wp_workers p !! w ≫= fun slot =>
    if sh_abort_open (shared slot) then Some (sh_abort_queue (shared slot)) else None.

Lemma abort_all_queue r targets p w :
  abort_queue (foldl (abort_active r) p targets) w =
  (fun q => q ++ map (fun t => (t.2, r)) (List.filter (fun t => (t.1 =? w)%string) targets))
    <$> abort_queue p w.
Proof.
  unfold abort_queue. rewrite abort_all_lookup.
  destruct (wp_workers p !! w) as [slot|]; [|done]. simpl.
  destruct (sh_abort_open (shared slot)) eqn:Ho; simpl; [|by rewrite Ho].
  rewrite shared_map. simpl. by rewrite Ho.
Qed.

Lemma targets_elem r w (targets : list (string * string)) (id r' : string) :
  (id, r') ∈ map (fun t => (t.2, r)) (List.filter (fun t => (t.1 =? w)%string) targets) <->
  r' = r /\ (w, id) ∈ targets.
Proof.
  rewrite list_elem_of_In, in_map_iff. split.
  - intros ([v i] & [= <- <-] & [Hin Hv%String.eqb_eq]%List.filter_In). simpl in Hv. subst.
    by rewrite list_elem_of_In.
  - intros [-> Hin%list_elem_of_In]. exists (w, id). split; [done|]. apply List.filter_In.
    split; [done|]. apply String.eqb_refl.
Qed.

(** Aborting an evaluation leaves none of its jobs queued, takes no running job away,
    records the abort in the database first, and adds to the abort queue of every
    listening worker one message for exactly each job of the evaluation it runs. *)
Theorem abort_evaluation_reaches s e :
  let s' := abort_evaluation s e in
  sch_effects s' = sch_effects s ++ [DbAbortEvaluation e] /\
  (forall id j, jt_pending (sch_tracker s') !! id = Some j <->
     jt_pending (sch_tracker s) !! id = Some j /\ evaluation_id j ≠ e) /\
  jt_active (sch_tracker s') = jt_active (sch_tracker s) /\
  forall w q, abort_queue (sch_pool s) w = Some q ->
    exists msgs, abort_queue (sch_pool s') w = Some (q ++ msgs) /\
      forall id r, (id, r) ∈ msgs <-> r = "evaluation aborted" /\
        exists j, jt_active (sch_tracker s) !! id = Some (w, j) /\ evaluation_id j = e.
Proof.
  intros s'. split; [done|]. unfold s', abort_evaluation. simpl.
  unfold remove_pending_for_evaluation. set (ids := map fst _).
  assert (Hids : forall id, id ∈ ids <-> exists j, jt_pending (sch_tracker s) !! id = Some j /\ evaluation_id j = e).
  { intros id. unfold ids. rewrite list_elem_of_In, in_map_iff. split.
    - intros ([i j] & <- & [Hin He%N.eqb_eq]%List.filter_In).
      apply list_elem_of_In, hash_iter_elem in Hin. eauto.
    - intros (j & Hj & He). exists (id, j). split; [done|]. apply List.filter_In.
      split; [by apply list_elem_of_In, hash_iter_elem|]. by apply N.eqb_eq. }
  destruct (remove_pending_jobs_spec (sch_tracker s) ids) as (Hp & Ha & _). split_and!; [|done|].
  - intros id j. rewrite Hp. case_decide as Hin; rewrite Hids in Hin.
    + split; [done|]. intros [Hj Hne]. destruct Hin as (j' & Hj' & He). congruence.
    + split; [|by intros [? _]]. intros Hj. split; [done|]. intros He. apply Hin. eauto.
  - intros w q Hq. rewrite abort_all_queue, Hq. simpl. eexists. split; [done|].
    intros id r. rewrite targets_elem. apply and_iff_compat_l.
    rewrite list_elem_of_In, in_map_iff. unfold active_jobs. split.
    + intros ([[i v] j] & [= <- <-] & [Hin He%N.eqb_eq]%List.filter_In).
      apply in_map_iff in Hin as ([i' [v' j']] & [= <- <- <-] & Hin).
      apply list_elem_of_In, hash_iter_elem in Hin. by exists j'.
    + intros (j & Hj & He). exists (id, w, j). split; [done|]. apply List.filter_In.
      split; [|by apply N.eqb_eq]. apply in_map_iff. exists (id, (w, j)). split; [done|].
      by apply list_elem_of_In, hash_iter_elem.
Qed.

Lemma drained_ids t w revoked id :
  id ∈ (drain_peer_jobs_on_worker t w revoked).2 <->
  exists j, jt_active t !! id = Some (w, j) /\ org_id j ∈ revoked.
Proof.
  unfold drain_peer_jobs_on_worker. simpl. rewrite list_elem_of_In, in_map_iff. split.
  - intros ([i [v j]] & <- & [Hin [Hv%String.eqb_eq Ho%bool_decide_eq_true]%andb_true_iff]%List.filter_In).
    apply list_elem_of_In, hash_iter_elem in Hin. simpl in *. subst. eauto.
  - intros (j & Hj & Ho). exists (id, (w, j)). split; [done|]. apply List.filter_In.
    split; [by apply list_elem_of_In, hash_iter_elem|]. apply andb_true_iff.
    split; [apply String.eqb_refl|by apply bool_decide_eq_true].
Qed.

Lemma abort_org_shape s w revoked :
  let ids := (drain_peer_jobs_on_worker (sch_tracker s) w revoked).2 in
  let s' := abort_org_jobs_on_worker s w revoked in
  sch_tracker s' = requeue_all (sch_tracker s) ids /\
  sch_pool s' = foldl (abort_active "org deactivated worker") (sch_pool s) (map (fun id => (w, id)) ids) /\
  sch_job_notify s' = match ids with [] => sch_job_notify s | _ => u64 (sch_job_notify s + 1) end.
Proof.
  simpl. unfold abort_org_jobs_on_worker. case_bool_decide as Hr.
  - assert (Hn : (drain_peer_jobs_on_worker (sch_tracker s) w revoked).2 = []).
    { destruct (_.2) as [|i l] eqn:E; [done|]. exfalso.
      assert (Hi : i ∈ (drain_peer_jobs_on_worker (sch_tracker s) w revoked).2) by (rewrite E; left).
      apply drained_ids in Hi as (j & _ & Ho). set_solver. }
    unfold drain_peer_jobs_on_worker in Hn. simpl in Hn. rewrite Hn. by destruct s.
  - unfold drain_peer_jobs_on_worker. simpl. by destruct (map fst _).
Qed.

(** Revoking organizations on a worker moves exactly the worker's running jobs of
    those organizations back to the queue and asks the worker to abort each; all other
    jobs are left alone; the other sessions are notified exactly when a job moved.
    The jobs stay in the worker's in-flight set until it answers. *)
Theorem revocation_requeues s w revoked :
  sched_inv s ->
  let s' := abort_org_jobs_on_worker s w revoked in
  let hit id j := jt_active (sch_tracker s) !! id = Some (w, j) /\ org_id j ∈ revoked in
  (forall id j, hit id j ->
     jt_pending (sch_tracker s') !! id = Some j /\ jt_active (sch_tracker s') !! id = None /\
     in_flight (sch_pool s') w id /\
     forall q, abort_queue (sch_pool s) w = Some q ->
       exists q', abort_queue (sch_pool s') w = Some q' /\ (id, "org deactivated worker") ∈ q') /\
  (forall id, (forall j, ~ hit id j) ->
     jt_pending (sch_tracker s') !! id = jt_pending (sch_tracker s) !! id /\
     jt_active (sch_tracker s') !! id = jt_active (sch_tracker s) !! id) /\
  (forall v, v ≠ w -> abort_queue (sch_pool s') v = abort_queue (sch_pool s) v) /\
  (forall id j, hit id j -> sch_job_notify s' = u64 (sch_job_notify s + 1)) /\
  ((forall id j, ~ hit id j) -> sch_job_notify s' = sch_job_notify s).
Proof.
  intros Hs s' hit. destruct (abort_org_shape s w revoked) as (Ht & Hp & Hn). fold s' in Ht, Hp, Hn.
  pose proof (drained_ids (sch_tracker s) w revoked) as Hids. revert Ht Hp Hn Hids.
  generalize (drain_peer_jobs_on_worker (sch_tracker s) w revoked).2. intros ids Ht Hp Hn Hids.
  destruct (requeue_all_spec (sch_tracker s) ids) as (Ha & Hpend & _). split_and!.
  - intros id j Hh. assert (Hin : id ∈ ids) by (apply Hids; by exists j).
    rewrite Ht, Ha, Hpend, !decide_True by done. destruct Hh as [Hj Ho]. split_and!; [|done| |].
    + rewrite Hj. by destruct (jt_pending (sch_tracker s) !! id).
    + rewrite Hp. by apply abort_all_keeps, (si_agree _ Hs _ _ j).
    + intros q Hq. rewrite Hp, abort_all_queue, Hq. simpl. eexists. split; [done|].
      apply elem_of_app. right. apply targets_elem. split; [done|].
      apply (list_elem_of_fmap_2 (fun id => (w, id))), Hin.
  - intros id Hno. assert (Hin : id ∉ ids).
    { rewrite Hids. intros (j & Hj). by apply (Hno j). }
    by rewrite Ht, Ha, Hpend, !decide_False.
  - intros v Hne. rewrite Hp, abort_all_queue.
    replace (List.filter _ _) with (@nil (string * string)); [by destruct (abort_queue _ _); simpl; rewrite ?app_nil_r|].
    clear -Hne. induction ids as [|i l IH]; simpl; [done|].
    by rewrite (proj2 (String.eqb_neq w v)) by congruence.
  - intros id j Hh. rewrite Hn. destruct ids; [|done]. assert (Hin : id ∈ @nil string) by (apply Hids; by exists j).
    set_solver.
  - intros Hno. rewrite Hn. destruct ids as [|i l]; [done|].
    assert (Hin : i ∈ i :: l) by left. apply Hids in Hin as (j & Hj). by destruct (Hno i j).
Qed.

(** ** Liveness *)

(** What unregistering a list of workers does. *)
Lemma unregister_all s l :
  sched_inv s ->
  let s' := foldl unregister_worker s l in
  sched_inv s' /\
  (forall w, is_connected (sch_pool s') w = is_connected (sch_pool s) w && negb (bool_decide (w ∈ l))) /\
  (forall id w j, jt_active (sch_tracker s') !! id = Some (w, j) <->
     jt_active (sch_tracker s) !! id = Some (w, j) /\ w ∉ l) /\
  (forall id j, jt_pending (sch_tracker s') !! id = Some j <->
     jt_pending (sch_tracker s) !! id = Some j \/ exists w, w ∈ l /\ jt_active (sch_tracker s) !! id = Some (w, j)).
Proof.
  revert s. induction l as [|v l IH]; intros s Hs; simpl.
  { split_and!; [done| | |]; intros.
    - by rewrite andb_true_r.
    - set_solver.
    - set_solver. }
  destruct (IH _ (unregister_inv s v Hs)) as (Hs' & Hc & Ha & Hp). clear IH.
  destruct (worker_disconnected_maps (sch_tracker s) v (si_tracker _ Hs)) as (Hva & Hvp & _).
  assert (Ht : sch_tracker (unregister_worker s v) = (worker_disconnected (sch_tracker s) v).1)
    by (unfold unregister_worker; simpl; by destruct (worker_disconnected _ _)).
  assert (Hw : forall w, is_connected (sch_pool (unregister_worker s v)) w =
    is_connected (sch_pool s) w && negb (bool_decide (w = v))).
  { intros w. unfold unregister_worker. destruct (worker_disconnected _ _). unfold is_connected. simpl.
    destruct (decide (w = v)) as [->|Hne].
    - by rewrite lookup_delete_eq, bool_decide_false, (bool_decide_true (v = v)), andb_false_r by (done || by intros []).
    - by rewrite lookup_delete_ne, (bool_decide_false (w = v)), andb_true_r. }
  split_and!; [done|..].
  - intros w. rewrite Hc, Hw, <- andb_assoc. f_equal.
    repeat case_bool_decide; set_solver.
  - intros id w j. rewrite Ha, Ht, Hva. set_solver.
  - intros id j. rewrite Hp, Ht, Hvp. setoid_rewrite Hva. split.
    + intros [[H|H]|(w & Hin & H & Hne)]; [by left|right; exists v; set_solver|right; exists w; set_solver].
    + intros [H|(w & Hin & H)]; [by left; left|].
      destruct (decide (w = v)) as [->|Hne]; [by left; right|right; exists w; set_solver].
Qed.

Lemma stale_elem p now timeout w :
  w ∈ stale_worker_ids p now timeout <->
  exists slot, wp_workers p !! w = Some slot /\ timeout < now - sh_last_seen (shared slot).
Proof.
  unfold stale_worker_ids. rewrite list_elem_of_In, in_map_iff. split.
  - intros ([i slot] & <- & [Hin Hlt%Z.ltb_lt]%List.filter_In).
    apply list_elem_of_In, hash_iter_elem in Hin. eauto.
  - intros (slot & Hw & Hlt). exists (w, slot). split; [done|]. apply List.filter_In.
    split; [by apply list_elem_of_In, hash_iter_elem|by apply Z.ltb_lt].
Qed.

(** The watchdog unregisters exactly the workers silent for longer than the timeout:
    afterwards those and only those are gone, every job they ran is queued again, and
    the jobs of the other workers run on. *)
Theorem liveness_pass_exact s now timeout :
  sched_inv s ->
  let s' := liveness_pass s now timeout in
  let silent w := exists slot, wp_workers (sch_pool s) !! w = Some slot /\
    timeout < now - sh_last_seen (shared slot) in
  sched_inv s' /\
  (forall w, is_connected (sch_pool s') w = true <-> is_connected (sch_pool s) w = true /\ ~ silent w) /\
  (forall id w j, jt_active (sch_tracker s) !! id = Some (w, j) ->
     (silent w -> jt_pending (sch_tracker s') !! id = Some j) /\
     (~ silent w -> jt_active (sch_tracker s') !! id = Some (w, j))).
Proof.
  intros Hs s' silent.
  destruct (unregister_all s (stale_worker_ids (sch_pool s) now timeout) Hs) as (Hs' & Hc & Ha & Hp).
  split; [done|]. split.
  - intros w. unfold s', liveness_pass. rewrite Hc, andb_true_iff, negb_true_iff, bool_decide_eq_false.
    by rewrite stale_elem.
  - intros id w j Hj. split; intros Hw.
    + apply Hp. right. exists w. by rewrite stale_elem.
    + apply Ha. by rewrite stale_elem.
Qed.
End handlers.

(** ** Witnesses *)

#[local] Existing Instance nanosecond_clock.
#[local] Existing Instance null_serde.
#[local] Existing Instance forward_order.

Lemma draining_until_gone_witness :
  draining (mark_worker_draining busy_scheduler "w") "w" /\
  (draining (job_rejected (mark_worker_draining busy_scheduler "w") "w" "build:7") "w" \/
   job_rejected (mark_worker_draining busy_scheduler "w") "w" "build:7" =
     unregister_worker (mark_worker_draining busy_scheduler "w") "w").
Proof.
  assert (H : draining (mark_worker_draining busy_scheduler "w") "w").
  { unfold draining, mark_worker_draining, mark_draining. vm_compute. eexists. reflexivity. }
  split; [exact H|]. exact (proj2 (draining_until_gone _ _ _ H (ss_rejected _ "w" "build:7"))).
Defined.

(** The organization took the build away from "w", and "v" asked for it. *)
Definition reassigned_scheduler : Scheduler :=
  (request_job (abort_org_jobs_on_worker busy_scheduler "w" {[1%N]}) example_clock example_clock []
     "v" JobKindBuild).1.

Lemma reassigned_inv : sched_inv reassigned_scheduler.
Proof.
  unfold reassigned_scheduler. eapply sched_step_inv; [|apply ss_request].
  eapply sched_step_inv; [exact busy_inv|apply ss_revoke].
Qed.

Lemma reassigned_active :
  jt_active (sch_tracker reassigned_scheduler) !! "build:7" = Some ("v", PendingBuild (example_pending_build 7)).
Proof. vm_compute. reflexivity. Qed.

Lemma stale_report_ends_running_job_witness :
  jt_active (sch_tracker reassigned_scheduler) !! "build:7" = Some ("v", PendingBuild (example_pending_build 7)) /\
  let s' := handle_job_failed reassigned_scheduler "w" "build:7" "aborted" Transient [] in
  contains_job (sch_tracker s') "build:7" = false /\ in_flight (sch_pool s') "v" "build:7".
Proof.
  split; [exact reassigned_active|].
  assert (Hne : "w" ≠ "v") by discriminate.
  destruct (stale_report_ends_running_job reassigned_scheduler "w" "v" "build:7" (example_pending_build 7)
    "aborted" Transient [] reassigned_inv reassigned_active Hne) as (Hc & _ & Hf).
  split; [exact Hc|exact Hf].
Defined.

Lemma revocation_requeues_witness :
  sched_inv busy_scheduler /\
  jt_pending (sch_tracker (abort_org_jobs_on_worker busy_scheduler "w" {[1%N]})) !! "build:7" =
    Some (PendingBuild (example_pending_build 7)).
Proof.
  split; [exact busy_inv|].
  assert (Ho : org_id (PendingBuild (example_pending_build 7)) ∈ ({[1%N]} : gset N))
    by (apply elem_of_singleton; reflexivity).
  exact (proj1 (proj1 (revocation_requeues busy_scheduler "w" {[1%N]} busy_inv) _ _
    (conj busy_active Ho))).
Defined.

Lemma liveness_pass_exact_witness :
  sched_inv busy_scheduler /\
  jt_pending (sch_tracker (liveness_pass busy_scheduler 100 60)) !! "build:7" =
    Some (PendingBuild (example_pending_build 7)).
Proof.
  split; [exact busy_inv|].
  assert (Hs : exists slot, wp_workers (sch_pool busy_scheduler) !! "w" = Some slot /\
    60 < 100 - sh_last_seen (shared slot)).
  { assert (Ho : exists slot, wp_workers (sch_pool busy_scheduler) !! "w" = Some slot /\
      (60 <? 100 - sh_last_seen (shared slot)) = true)
      by (vm_compute; eexists; split; reflexivity).
    destruct Ho as (slot & Hw & Hlt). exists slot. split; [exact Hw|]. by apply Z.ltb_lt. }
  exact (proj1 (proj2 (proj2 (liveness_pass_exact busy_scheduler 100 60 busy_inv)) _ _ _ busy_active) Hs).
Defined.
