(* ===== verification/Auth.v ===== *)
(** * Worker authentication

    The authentication store of [backend/gradient-proto/src/handler/auth.rs], the
    decision of [handler/session.rs], the worker's token resolution
    ([backend/gradient-worker/src/config.rs]) and the handshake of
    [session/handshake.rs].

    A table is the list of its rows, or [None] when querying it fails. Password
    hashing and SHA-256 are the interface [TokenHash]. *)

From S2P Require Import Prelude Float RustStr ScoreContext Proto JobData JobTracker WorkerPool Scheduler.

Local Open Scope string_scope.
Local Open Scope list_scope.
Local Open Scope Z_scope.

(** [password_auth::verify_password(..).is_ok()] and the hex SHA-256 of a token. *)
Class TokenHash := {
  verify_password : string -> string -> bool;
  sha256_hex : string -> string;
}.

(** ** Tables *)

Record WorkerRegistration := {
  wr_peer_id : OrganizationId;
  wr_worker_id : string;
  wr_token_hash : string;
  wr_active : bool;
  wr_enable_fetch : bool;
  wr_enable_eval : bool;
  wr_enable_build : bool;
}.

Record BaseWorker := {
  bw_id : N;
  bw_worker_id : string;
  bw_token_hash : string;
  bw_enable_fetch : bool;
  bw_enable_eval : bool;
  bw_enable_build : bool;
  bw_enabled : bool;
  bw_authorize_against : option N;
}.

Record AuthStore := {
  st_registrations : option (list WorkerRegistration);
  st_base_workers : option (list BaseWorker);
  st_org_base_workers : option (list (OrganizationId * N));
  st_organizations : option (gset OrganizationId);
  st_org_caches : option (gset OrganizationId);
  st_federate_proto : bool;
}.

Section auth.
Context `{UF : UuidFormat} `{TH : TokenHash}.

(** ** Queries *)

Definition registrations_of (st : AuthStore) (worker_id : string) : option (list WorkerRegistration) :=
  List.filter (fun r => (wr_worker_id r =? worker_id)%string) <$> st_registrations st.

Definition active_registrations_of (st : AuthStore) (worker_id : string) : option (list WorkerRegistration) :=
  List.filter wr_active <$> registrations_of st worker_id.

Definition lookup_registered_peers (st : AuthStore) (worker_id : string) : list (string * string) :=
  match active_registrations_of st worker_id with
  | Some rows => map (fun r => (uuid_show (wr_peer_id r), wr_token_hash r)) rows
  | None => []
  end.

Definition has_any_registrations (st : AuthStore) (worker_id : string) : bool :=
  match registrations_of st worker_id with
  | Some rows => match rows with [] => false | _ => true end
  | None => false
  end.

(** The first row of the query, as [one] returns it. *)
Definition enabled_base_worker_by_worker_id (st : AuthStore) (worker_id : string)
    : option (option BaseWorker) :=
  (fun rows => head (List.filter (fun b => (bw_worker_id b =? worker_id)%string && bw_enabled b) rows))
    <$> st_base_workers st.

Definition worker_id_is_base (st : AuthStore) (worker_id : string) : option bool :=
  existsb (fun b => (bw_worker_id b =? worker_id)%string) <$> st_base_workers st.

Definition orgs_enabling_base_worker (st : AuthStore) (base_worker : N) : option (list OrganizationId) :=
  (fun rows => map fst (List.filter (fun r => (r.2 =? base_worker)%N) rows)) <$> st_org_base_workers st.

Record BaseWorkerChallenge := {
  bc_challenge : list (string * string);
  bc_authorize_against : option string;
  bc_enabled_orgs : list string;
}.

Definition lookup_base_worker_challenge (st : AuthStore) (worker_id : string)
    : option BaseWorkerChallenge :=
  match enabled_base_worker_by_worker_id st worker_id with
  | Some (Some bw) =>
      let enabled_orgs := map uuid_show (default [] (orgs_enabling_base_worker st (bw_id bw))) in
      let challenge := match bw_authorize_against bw with
        | Some uuid => [(uuid_show uuid, bw_token_hash bw)]
        | None => map (fun o => (o, bw_token_hash bw)) enabled_orgs
        end in
      Some {| bc_challenge := challenge;
              bc_authorize_against := uuid_show <$> bw_authorize_against bw;
              bc_enabled_orgs := enabled_orgs |}
  | _ => None
  end.

(** ** Tokens *)

Definition verify_token (token token_hash : string) : bool :=
  if starts_with token_hash "$" then verify_password token token_hash
  else (sha256_hex token =? token_hash)%string.

Definition validate_tokens (registered_peers auth_tokens : list (string * string))
    : list string * list FailedPeer :=
  foldl (fun acc r =>
    let '(peer_id, token_hash) := r in
    match List.find (fun t => (t.1 =? peer_id)%string) auth_tokens with
    | Some (_, token) =>
        if verify_token token token_hash then (acc.1 ++ [peer_id], acc.2)
        else (acc.1, acc.2 ++ [{| fp_peer_id := peer_id; fp_reason := "invalid token" |}])
    | None => (acc.1, acc.2 ++ [{| fp_peer_id := peer_id; fp_reason := "no token provided" |}])
    end) ([], []) registered_peers.

Definition expand_base_authorized (base : option BaseWorkerChallenge) (token_authorized : list string)
    : list string :=
  match base with
  | Some b =>
      match bc_authorize_against b with
      | Some identity =>
          if existsb (fun p => (p =? identity)%string) token_authorized then bc_enabled_orgs b else []
      | None => token_authorized
      end
  | None => token_authorized
  end.

(** The peers that parse as UUIDs, with them, and the ones that do not. *)
Definition partition_uuids (authorized : list string) : list (string * N) * list string :=
  foldl (fun acc s => match uuid_parse s with
    | Some u => (acc.1 ++ [(s, u)], acc.2)
    | None => (acc.1, acc.2 ++ [s]) end) ([], []) authorized.

Definition filter_org_peers_without_cache (st : AuthStore) (authorized : list string)
    : list string * list FailedPeer :=
  let '(uuid_peers, authorized_out) := partition_uuids authorized in
  match uuid_peers with
  | [] => (authorized_out, [])
  | _ =>
      let uuid_set := list_to_set (map snd uuid_peers) : gset N in
      match st_organizations st with
      | None => (authorized_out ++ map fst uuid_peers, [])
      | Some orgs =>
          let org_ids := orgs ∩ uuid_set in
          match (if bool_decide (org_ids = ∅) then Some ∅ else (fun c => c ∩ org_ids) <$> st_org_caches st) with
          | None => (authorized_out ++ map fst uuid_peers, [])
          | Some orgs_with_cache =>
              foldl (fun acc p =>
                if bool_decide (p.2 ∈ org_ids) && negb (bool_decide (p.2 ∈ orgs_with_cache))
                then (acc.1, acc.2 ++ [{| fp_peer_id := p.1;
                                          fp_reason := "organization has no cache subscribed" |}])
                else (acc.1 ++ [p.1], acc.2)) (authorized_out, []) uuid_peers
          end
      end
  end.

(** ** Capabilities *)

Record EnabledCapsAggregate := {
  ec_enable_fetch : bool;
  ec_enable_eval : bool;
  ec_enable_build : bool;
}.

Definition enabled_caps_all : EnabledCapsAggregate :=
  {| ec_enable_fetch := true; ec_enable_eval := true; ec_enable_build := true |}.

Definition aggregate_enabled_caps (st : AuthStore) (worker_id : string) : EnabledCapsAggregate :=
  match active_registrations_of st worker_id with
  | None => enabled_caps_all
  | Some [] =>
      match enabled_base_worker_by_worker_id st worker_id with
      | Some (Some bw) => {| ec_enable_fetch := bw_enable_fetch bw; ec_enable_eval := bw_enable_eval bw;
                             ec_enable_build := bw_enable_build bw |}
      | _ => enabled_caps_all
      end
  | Some rows => {| ec_enable_fetch := forallb wr_enable_fetch rows;
                    ec_enable_eval := forallb wr_enable_eval rows;
                    ec_enable_build := forallb wr_enable_build rows |}
  end.

Definition negotiate_capabilities (st : AuthStore) (client : GradientCapabilities)
    (enabled : EnabledCapsAggregate) : GradientCapabilities := {|
  cap_core := true;
  cap_cache := true;
  cap_federate := cap_federate client && st_federate_proto st;
  cap_fetch := cap_fetch client && ec_enable_fetch enabled;
  cap_eval := cap_eval client && ec_enable_eval enabled;
  cap_build := cap_build client && ec_enable_build enabled |}.

(** ** The decision ([handler/session.rs]) *)

Inductive AuthDecision :=
| Accept
| RejectWith (code : Z) (reason : string).

Definition decide_auth (server_initiated registered_peers_empty has_any_registrations
    authorized_peers_empty emptied_by_missing_cache is_base : bool) : AuthDecision :=
  if is_base then
    if authorized_peers_empty then RejectWith 403 "base worker not enabled by any organization"
    else Accept
  else if registered_peers_empty then
    if has_any_registrations then RejectWith 403 "worker is deactivated"
    else if negb server_initiated then RejectWith 403 "unknown worker"
    else Accept
  else if authorized_peers_empty then
    if emptied_by_missing_cache then RejectWith 495 "organization has no cache subscribed"
    else RejectWith 401 "no valid peer tokens provided"
  else Accept.

Inductive AuthOutcome :=
| AcceptPeers (authorized_peers : list string) (failed_peers : list FailedPeer)
| RejectPeer (code : Z) (reason : string).

(** ** The authority ([PeerAuthority] and [ServerAuthority]) *)

(** The trait, with [None] for an error of the implementation. *)
Record PeerAuthority (Challenge : Type) := {
  pa_challenge : string -> option (Challenge * list string);
  pa_authorize : string -> Challenge -> list (string * string) -> option AuthOutcome;
  pa_negotiate : string -> GradientCapabilities -> option GradientCapabilities;
}.

Record ServerChallenge := {
  sc_base : option BaseWorkerChallenge;
  sc_registered_peers : list (string * string);
}.

Definition server_challenge (st : AuthStore) (claimed : string) : ServerChallenge * list string :=
  let base := lookup_base_worker_challenge st claimed in
  let registered_peers := match base with
    | Some b => bc_challenge b
    | None => lookup_registered_peers st claimed
    end in
  ({| sc_base := base; sc_registered_peers := registered_peers |}, map fst registered_peers).

Definition is_nil {A} (l : list A) : bool := match l with [] => true | _ => false end.

Definition server_authorize (st : AuthStore) (server_initiated : bool) (claimed : string)
    (challenge : ServerChallenge) (tokens : list (string * string)) : AuthOutcome :=
  let registered_peers := sc_registered_peers challenge in
  let base := sc_base challenge in
  let '(token_authorized, failed_peers) := validate_tokens registered_peers tokens in
  let token_authorized := expand_base_authorized base token_authorized in
  let had_token_authorized := negb (is_nil token_authorized) in
  let '(authorized_peers, demoted) := filter_org_peers_without_cache st token_authorized in
  let emptied_by_missing_cache :=
    is_nil authorized_peers && had_token_authorized && negb (is_nil demoted) in
  let failed_peers := failed_peers ++ demoted in
  let is_base := match base with Some _ => true | None => false end in
  let has_any := is_nil registered_peers && has_any_registrations st claimed in
  match decide_auth server_initiated (is_nil registered_peers) has_any (is_nil authorized_peers)
          emptied_by_missing_cache is_base with
  | Accept => AcceptPeers authorized_peers failed_peers
  | RejectWith code reason => RejectPeer code reason
  end.

Definition ServerAuthority (st : AuthStore) (server_initiated : bool) : PeerAuthority ServerChallenge := {|
  pa_challenge claimed := Some (server_challenge st claimed);
  pa_authorize claimed challenge tokens := Some (server_authorize st server_initiated claimed challenge tokens);
  pa_negotiate claimed client :=
    Some (negotiate_capabilities st client (aggregate_enabled_caps st claimed));
|}.

(** ** The handshake ([session/handshake.rs]) *)

Record Greeted := {
  gr_peer_id : string;
  gr_client_capabilities : GradientCapabilities;
}.

Record Authenticated := { au_peer_id : string; au_negotiated : GradientCapabilities }.
Record Registered := { rg_peer_id : string; rg_negotiated : GradientCapabilities }.

Inductive Intent :=
| Send (m : ServerMessage)
| Advance
| IntentReject (code : Z) (reason : string).

(** [mismatch] is the formatted text of the version error. *)
Definition on_init_connection (mismatch : Z -> Z -> string) (msg : ClientMessage)
    (expected_version : Z) : result Greeted Intent :=
  match msg with
  | CInitConnection version capabilities id =>
      if negb (version =? expected_version) then Err (IntentReject 400 (mismatch version expected_version))
      else Ok {| gr_peer_id := id; gr_client_capabilities := capabilities |}
  | _ => Err (IntentReject 400 "expected InitConnection")
  end.

Definition on_auth_response_fsm (greeted : Greeted) (msg : ClientMessage)
    (negotiated : GradientCapabilities) : result Authenticated Intent :=
  match msg with
  | CAuthResponse _ => Ok {| au_peer_id := gr_peer_id greeted; au_negotiated := negotiated |}
  | _ => Err (IntentReject 400 "expected AuthResponse")
  end.

Definition to_registered (auth : Authenticated) : Registered :=
  {| rg_peer_id := au_peer_id auth; rg_negotiated := au_negotiated auth |}.

Record HandshakeResult := {
  hr_peer_id : string;
  hr_negotiated : GradientCapabilities;
  hr_authorized_peers : list string;
  hr_failed_peers : list FailedPeer;
  hr_server_version : Z;
}.

(** The authority's side over a socket that delivers [init], then [response] ([None]:
    the connection closed), and on which the challenge and the acknowledgement can be
    sent or not. The answer is what was handed to the socket, and the result. *)
Definition as_authority {C} (A : PeerAuthority C) (mismatch : Z -> Z -> string)
    (init response : option ClientMessage) (challenge_ok ack_ok : bool)
    : list ServerMessage * option HandshakeResult :=
  match init with
  | None => ([], None)
  | Some init =>
  match on_init_connection mismatch init PROTO_VERSION with
  | Err (IntentReject code reason) => ([SReject code reason], None)
  | Err _ => ([], None)
  | Ok greeted =>
  match pa_challenge _ A (gr_peer_id greeted) with
  | None => ([], None)
  | Some (challenge, challenge_peers) =>
  let sent := [SAuthChallenge challenge_peers] in
  if negb challenge_ok then (sent, None) else
  match response with
  | None => (sent, None)
  | Some auth_response =>
  match auth_response with
  | CAuthResponse tokens =>
      match pa_authorize _ A (gr_peer_id greeted) challenge tokens with
      | None => (sent, None)
      | Some (RejectPeer code reason) => (sent ++ [SReject code reason], None)
      | Some (AcceptPeers authorized_peers failed_peers) =>
      match pa_negotiate _ A (gr_peer_id greeted) (gr_client_capabilities greeted) with
      | None => (sent, None)
      | Some negotiated =>
      match on_auth_response_fsm greeted auth_response negotiated with
      | Err (IntentReject code reason) => (sent ++ [SReject code reason], None)
      | Err _ => (sent, None)
      | Ok authenticated =>
          let sent := sent ++ [SInitAck PROTO_VERSION negotiated authorized_peers failed_peers] in
          if negb ack_ok then (sent, None) else
          let registered := to_registered authenticated in
          (sent, Some {| hr_peer_id := rg_peer_id registered;
                         hr_negotiated := rg_negotiated registered;
                         hr_authorized_peers := authorized_peers;
                         hr_failed_peers := failed_peers;
                         hr_server_version := PROTO_VERSION |})
      end end end
  | _ => (sent ++ [SReject 400 "expected AuthResponse"], None)
  end end end end end.

(** [PeerIdentity]: the advertised id and the tokens for a challenge. *)
Record PeerIdentity := {
  pi_peer_id : string;
  pi_tokens_for : list string -> option (list (string * string));
}.

(** The peer's side, whose sends succeed, over a socket that delivers [challenge] and
    then [ack]. *)
Definition as_peer (I : PeerIdentity) (caps : GradientCapabilities)
    (challenge ack : option ServerMessage) : list ClientMessage * option HandshakeResult :=
  let sent := [CInitConnection PROTO_VERSION caps (pi_peer_id I)] in
  match challenge with
  | Some (SAuthChallenge challenged) =>
      match pi_tokens_for I challenged with
      | None => (sent, None)
      | Some tokens =>
          let sent := sent ++ [CAuthResponse tokens] in
          match ack with
          | Some (SInitAck version negotiated authorized_peers failed_peers) =>
              (sent, Some {| hr_peer_id := pi_peer_id I; hr_negotiated := negotiated;
                             hr_authorized_peers := authorized_peers; hr_failed_peers := failed_peers;
                             hr_server_version := version |})
          | _ => (sent, None)
          end
      end
  | _ => (sent, None)
  end.

(** [WorkerConfig::resolve_tokens_for_challenge] *)
Definition resolve_tokens_for_challenge (peer_tokens : list (string * string)) (challenged : list string)
    : list (string * string) :=
  let wildcard_token := snd <$> List.find (fun t => (t.1 =? "*")%string) peer_tokens in
  let explicit := List.filter (fun t => negb (t.1 =? "*")%string && bool_decide (t.1 ∈ challenged)) peer_tokens in
  match wildcard_token with
  | Some token =>
      let covered := list_to_set (map fst explicit) : gset string in
      explicit ++ map (fun pid => (pid, token))
        (List.filter (fun pid => negb (bool_decide (pid ∈ covered))) challenged)
  | None => explicit
  end.

Definition WorkerIdentity (peer_id : string) (peer_tokens : list (string * string)) : PeerIdentity := {|
  pi_peer_id := peer_id;
  pi_tokens_for challenged := Some (resolve_tokens_for_challenge peer_tokens challenged);
|}.

(** Both sides over one reliable connection, each fed what the other sent. *)
Definition run_handshake {C} (A : PeerAuthority C) (mismatch : Z -> Z -> string)
    (I : PeerIdentity) (caps : GradientCapabilities)
    : option HandshakeResult * option HandshakeResult :=
  let init := head (as_peer I caps None None).1 in
  let challenge := head (as_authority A mismatch init None true true).1 in
  let response := head (tail (as_peer I caps challenge None).1) in
  let server := as_authority A mismatch init response true true in
  let ack := head (tail server.1) in
  ((as_peer I caps challenge ack).2, server.2).

(** ** Lemmas *)

(** The worker supplied a token for the peer and it verifies. *)
Definition token_ok (tokens : list (string * string)) (r : string * string) : bool :=
  match List.find (fun t => (t.1 =? r.1)%string) tokens with
  | Some (_, token) => verify_token token r.2
  | None => false
  end.

Definition token_failure (tokens : list (string * string)) (r : string * string) : FailedPeer :=
  {| fp_peer_id := r.1;
     fp_reason := match List.find (fun t => (t.1 =? r.1)%string) tokens with
                  | Some _ => "invalid token" | None => "no token provided" end |}.

Lemma validate_tokens_spec registered tokens :
  validate_tokens registered tokens =
  (map fst (List.filter (token_ok tokens) registered),
   map (token_failure tokens) (List.filter (fun r => negb (token_ok tokens r)) registered)).
Proof.
  unfold validate_tokens. set (step := fun acc r => _).
  enough (Hacc : forall l a f, foldl step (a, f) l =
    (a ++ map fst (List.filter (token_ok tokens) l),
     f ++ map (token_failure tokens) (List.filter (fun r => negb (token_ok tokens r)) l))) by apply Hacc.
  assert (Hstep : forall a f r, step (a, f) r =
    if token_ok tokens r then (a ++ [r.1], f) else (a, f ++ [token_failure tokens r])).
  { intros a f [p h]. unfold step, token_ok, token_failure. simpl.
    destruct (List.find _ _) as [[q token]|]; [|done]. by destruct (verify_token token h). }
  induction l as [|r l IH]; intros a f; [by rewrite !app_nil_r|].
  change (foldl step (a, f) (r :: l)) with (foldl step (step (a, f) r) l). rewrite Hstep.
  simpl. by destruct (token_ok tokens r); simpl; rewrite IH, <- app_assoc.
Qed.

Lemma validate_tokens_in registered tokens p :
  p ∈ (validate_tokens registered tokens).1 <->
  exists h, (p, h) ∈ registered /\ token_ok tokens (p, h) = true.
Proof.
  rewrite validate_tokens_spec. simpl. rewrite list_elem_of_In, in_map_iff. split.
  - intros ([q h] & <- & [Hin Hok]%List.filter_In). exists h. by rewrite list_elem_of_In.
  - intros (h & Hin & Hok). exists (p, h). split; [done|]. by rewrite List.filter_In, <- list_elem_of_In.
Qed.

(** A verified pair: the worker sent a token for [p] that matches the stored hash. *)
Lemma token_ok_verifies tokens p h :
  token_ok tokens (p, h) = true -> exists token, (p, token) ∈ tokens /\ verify_token token h = true.
Proof.
  unfold token_ok. simpl. destruct (List.find _ _) as [[q token]|] eqn:E; [|done].
  apply find_some in E as [Hin Hq%String.eqb_eq]. simpl in Hq. subst. intros Hv.
  exists token. by rewrite list_elem_of_In.
Qed.

Lemma partition_uuids_spec l :
  partition_uuids l =
  (omap (fun s => (fun u => (s, u)) <$> uuid_parse s) l,
   List.filter (fun s => match uuid_parse s with Some _ => false | None => true end) l).
Proof.
  unfold partition_uuids. set (step := fun acc s => _).
  enough (Hacc : forall l a b, foldl step (a, b) l =
    (a ++ omap (fun s => (fun u => (s, u)) <$> uuid_parse s) l,
     b ++ List.filter (fun s => match uuid_parse s with Some _ => false | None => true end) l)) by apply Hacc.
  clear l. induction l as [|x l IH]; intros a b; simpl; [by rewrite !app_nil_r|].
  unfold step at 2. simpl.
  destruct (uuid_parse x) as [u|]; simpl; by rewrite IH, <- app_assoc.
Qed.

Lemma uuid_peers_elem l p u :
  (p, u) ∈ (partition_uuids l).1 <-> p ∈ l /\ uuid_parse p = Some u.
Proof.
  rewrite partition_uuids_spec. simpl. rewrite list_elem_of_omap. split.
  - intros (x & Hx & Hu). destruct (uuid_parse x) eqn:E; simplify_eq/=. done.
  - intros [Hp Hu]. exists p. by rewrite Hu.
Qed.

Lemma others_elem l p : p ∈ (partition_uuids l).2 <-> p ∈ l /\ uuid_parse p = None.
Proof.
  rewrite partition_uuids_spec. simpl. rewrite list_elem_of_In, List.filter_In, <- list_elem_of_In.
  destruct (uuid_parse p); naive_solver.
Qed.

(** The demotion loop as two filters. *)
Lemma demotion_spec (drop : string * N -> bool) reason (peers : list (string * N)) a f :
  foldl (fun acc p => if drop p then (acc.1, acc.2 ++ [{| fp_peer_id := p.1; fp_reason := reason |}])
                      else (acc.1 ++ [p.1], acc.2)) (a, f) peers =
  (a ++ map fst (List.filter (fun p => negb (drop p)) peers),
   f ++ map (fun p => {| fp_peer_id := p.1; fp_reason := reason |}) (List.filter drop peers)).
Proof.
  revert a f. induction peers as [|p l IH]; intros a f; simpl; [by rewrite !app_nil_r|].
  destruct (drop p); simpl; by rewrite IH, <- app_assoc.
Qed.

(** An organization without a subscribed cache, when the tables can be read. *)
Definition lacks_cache (st : AuthStore) (p : string) : bool :=
  match uuid_parse p, st_organizations st, st_org_caches st with
  | Some u, Some orgs, Some caches => bool_decide (u ∈ orgs) && negb (bool_decide (u ∈ caches))
  | _, _, _ => false
  end.

Lemma filter_org_spec st l p :
  p ∈ (filter_org_peers_without_cache st l).1 <-> p ∈ l /\ lacks_cache st p = false.
Proof.
  unfold filter_org_peers_without_cache, lacks_cache.
  pose proof (uuid_peers_elem l) as Hu. pose proof (others_elem l p) as Ho.
  destruct (partition_uuids l) as [peers others]. simpl in Hu, Ho.
  assert (Hall : p ∈ others ++ map fst peers <-> p ∈ l).
  { rewrite elem_of_app, Ho. rewrite list_elem_of_fmap. split.
    - intros [[? _]|([q u] & -> & [? _]%Hu)]; done.
    - intros Hp. destruct (uuid_parse p) as [u|] eqn:E; [right|by left].
      exists (p, u). split; [done|]. by apply Hu. }
  destruct peers as [|pu peers].
  { simpl in *. rewrite app_nil_r in Hall. rewrite Hall. destruct (uuid_parse p) as [u|] eqn:E; [|tauto].
    split; [|tauto]. intros Hp. assert (H : (p, u) ∈ @nil (string * N)) by by apply Hu.
    by apply elem_of_nil in H. }
  generalize dependent (pu :: peers). clear pu peers. intros peers Hu Hall.
  destruct (st_organizations st) as [orgs|]; [|rewrite Hall; destruct (uuid_parse p); tauto].
  set (ids := orgs ∩ _). 
  assert (Hids : forall u, (p, u) ∈ peers -> u ∈ ids <-> u ∈ orgs).
  { intros u Hin. unfold ids. rewrite elem_of_intersection, elem_of_list_to_set. split; [tauto|].
    intros; split; [done|]. by apply (list_elem_of_fmap_2 snd _ (p, u)). }
  assert (Hdrop : forall d, p ∈ others ++ map fst (List.filter (fun p => negb (d p)) peers) <->
    p ∈ l /\ match uuid_parse p with Some u => d (p, u) = false | None => True end).
  { intros d. rewrite elem_of_app, Ho. destruct (uuid_parse p) as [u|] eqn:E.
    - rewrite (list_elem_of_In (map _ _)), in_map_iff. split.
      + intros [[_ ?]|([q v] & Hq & [Hin Hd%negb_true_iff]%List.filter_In)]; [done|]. simpl in Hq. subst.
        apply list_elem_of_In, Hu in Hin as [Hp Hv]. split; [done|]. congruence.
      + intros [Hp Hd]. right. exists (p, u). split; [done|]. apply List.filter_In.
        split; [by apply list_elem_of_In, Hu|]. by rewrite Hd.
    - split; [intros [[? _]|Hin]; [done|]|intros [? _]; by left].
      apply list_elem_of_In, in_map_iff in Hin as ([q v] & Hq & [Hin _]%List.filter_In). simpl in Hq. subst.
      apply list_elem_of_In, Hu in Hin as [_ ?]. congruence. }
  destruct (if bool_decide (ids = ∅) then _ else _) as [caches|] eqn:Ec.
  - rewrite (demotion_spec (fun p => bool_decide (p.2 ∈ ids) && negb (bool_decide (p.2 ∈ caches)))). simpl.
    rewrite Hdrop. destruct (uuid_parse p) as [u|] eqn:E; [|tauto]. simpl.
    enough (Heq : p ∈ l -> bool_decide (u ∈ ids) && negb (bool_decide (u ∈ caches)) =
      match st_org_caches st with
      | Some c => bool_decide (u ∈ orgs) && negb (bool_decide (u ∈ c)) | None => false end)
      by (split; intros [Hp Hd]; (split; [done|]); [by rewrite <- Heq|by rewrite Heq]).
    intros Hp. assert (Hin : (p, u) ∈ peers) by by apply Hu.
    rewrite (bool_decide_ext _ _ (Hids u Hin)). specialize (Hids u Hin).
    destruct (bool_decide_reflect (ids = ∅)) as [Hempty|_].
    + rewrite (bool_decide_false (u ∈ orgs)) by set_solver. simpl. by destruct (st_org_caches st).
    + destruct (st_org_caches st) as [c|]; simplify_eq/=. case_bool_decide as Hor; [|done]. simpl.
      f_equal. apply bool_decide_ext. set_solver.
  - case_bool_decide; [done|]. destruct (st_org_caches st); [done|]. rewrite Hall.
    destruct (uuid_parse p); tauto.
Qed.

(** ** The handshake *)

(** What the authority side succeeded with. *)
Lemma as_authority_some {C} (A : PeerAuthority C) mismatch init response c_ok a_ok sent r :
  as_authority A mismatch init response c_ok a_ok = (sent, Some r) ->
  exists caps tokens challenge peers,
    init = Some (CInitConnection PROTO_VERSION caps (hr_peer_id r)) /\
    response = Some (CAuthResponse tokens) /\
    pa_challenge _ A (hr_peer_id r) = Some (challenge, peers) /\
    pa_authorize _ A (hr_peer_id r) challenge tokens =
      Some (AcceptPeers (hr_authorized_peers r) (hr_failed_peers r)) /\
    pa_negotiate _ A (hr_peer_id r) caps = Some (hr_negotiated r) /\
    hr_server_version r = PROTO_VERSION /\
    sent = [SAuthChallenge peers;
            SInitAck PROTO_VERSION (hr_negotiated r) (hr_authorized_peers r) (hr_failed_peers r)].
Proof.
  unfold as_authority. destruct init as [m|]; [|done].
  destruct m as [v caps id| | | | | | | | | | | | | | | | | | | | | | | | | | | ]; try done. simpl.
  destruct (Z.eqb_spec v PROTO_VERSION) as [->|]; simpl; [|done].
  destruct (pa_challenge _ A id) as [[ch peers]|] eqn:Ech; [|done].
  destruct c_ok; simpl; [|done]. destruct response as [m|]; [|done].
  destruct m as [ |tokens| | | | | | | | | | | | | | | | | | | | | | | | | | ]; try done.
  destruct (pa_authorize _ A id ch tokens) as [[ps fs|]|] eqn:Eauth; [|done..].
  destruct (pa_negotiate _ A id caps) as [n|] eqn:En; [|done]. simpl.
  destruct a_ok; simpl; [|done]. intros [= <- <-]. exists caps, tokens, ch, peers. by split_and!.
Qed.

(** Over a reliable connection both ends agree on the outcome: either both refuse, or
    both hold the same peer id, capabilities, authorized and failed peers and protocol
    version, whatever the authority's store and the peer's tokens. *)
Theorem handshake_agreement {C} (A : PeerAuthority C) mismatch I caps :
  let '(peer_side, authority_side) := run_handshake A mismatch I caps in
  peer_side = authority_side /\
  (forall r, authority_side = Some r -> hr_peer_id r = pi_peer_id I /\ hr_server_version r = PROTO_VERSION).
Proof.
  unfold run_handshake. simpl. destruct (pa_challenge _ A (pi_peer_id I)) as [[ch peers]|]; [|done]. simpl.
  destruct (pi_tokens_for I peers) as [tokens|]; simpl; [|done].
  destruct (pa_authorize _ A (pi_peer_id I) ch tokens) as [[ps fs|]|]; simpl; [|done..].
  destruct (pa_negotiate _ A (pi_peer_id I) caps) as [n|]; simpl; [|done].
  split; [done|]. by intros r [= <-].
Qed.

(** [p] proved control of the peer it claims: the challenge holds its hash, directly or
    through the identity of a base worker, and a token of the response verifies. *)
Definition proven (st : AuthStore) (claimed : string) (tokens : list (string * string)) (p : string) : Prop :=
  let '(c, _) := server_challenge st claimed in
  exists q h token, (q, h) ∈ sc_registered_peers c /\ (q, token) ∈ tokens /\ verify_token token h = true /\
    match sc_base c ≫= bc_authorize_against with
    | Some identity => q = identity /\ exists b, sc_base c = Some b /\ p ∈ bc_enabled_orgs b
    | None => q = p
    end.

Lemma expanded_proven st claimed tokens p :
  let '(c, _) := server_challenge st claimed in
  p ∈ expand_base_authorized (sc_base c) (validate_tokens (sc_registered_peers c) tokens).1 ->
  proven st claimed tokens p.
Proof.
  unfold proven. destruct (server_challenge st claimed) as [c names].
  unfold expand_base_authorized. destruct (sc_base c) as [b|]; simpl; [destruct (bc_authorize_against b) as [i|]|].
  - destruct (existsb _ _) eqn:E; [|by intros []%elem_of_nil].
    apply existsb_exists in E as (q & Hq & ->%String.eqb_eq). intros Hp.
    apply list_elem_of_In, validate_tokens_in in Hq as (h & Hin & (token & Ht & Hv)%token_ok_verifies).
    exists i, h, token. split_and!; try done. by exists b.
  - intros (h & Hin & (token & Ht & Hv)%token_ok_verifies)%validate_tokens_in. by exists p, h, token.
  - intros (h & Hin & (token & Ht & Hv)%token_ok_verifies)%validate_tokens_in. by exists p, h, token.
Qed.


(** Negotiation never grants more than was asked and allowed: fetching, evaluating and
    building are granted only when the worker advertised them and every active
    registration of it enables them, federation only when the server speaks it. *)
Theorem negotiation_grants_no_more st claimed client :
  let n := negotiate_capabilities st client (aggregate_enabled_caps st claimed) in
  let all_enable f := forall rows r, active_registrations_of st claimed = Some rows -> r ∈ rows -> f r = true in
  (cap_fetch n = true -> cap_fetch client = true /\ all_enable wr_enable_fetch) /\
  (cap_eval n = true -> cap_eval client = true /\ all_enable wr_enable_eval) /\
  (cap_build n = true -> cap_build client = true /\ all_enable wr_enable_build) /\
  (cap_federate n = true -> cap_federate client = true /\ st_federate_proto st = true) /\
  cap_core n = true /\ cap_cache n = true.
Proof.
  simpl. unfold aggregate_enabled_caps.
  assert (Hall : forall (f : WorkerRegistration -> bool) rows r, forallb f rows = true -> r ∈ rows -> f r = true).
  { intros f rows r Hf Hr%list_elem_of_In. rewrite forallb_forall in Hf. by apply Hf. }
  destruct (active_registrations_of st claimed) as [[|r0 rows]|]; split_and!; try done;
    intros [Hc He]%andb_true_iff; (split; [done|]); try done; intros rows' r [= <-] Hr;
    try (by apply elem_of_nil in Hr); by eapply Hall.
Qed.
End auth.

(** ** Witnesses *)

(** A concrete hash for witnesses: a password hash is the token after a [$]. *)
#[export] Instance plain_hash : TokenHash := {|
  verify_password token token_hash := String.eqb token_hash (String.append "$" token);
  sha256_hex token := token;
|}.

(** Organization 1 registered the worker "w" with the token "secret". *)
Definition example_store : AuthStore := {|
  st_registrations := Some [{| wr_peer_id := 1%N; wr_worker_id := "w"; wr_token_hash := "$secret";
    wr_active := true; wr_enable_fetch := true; wr_enable_eval := true; wr_enable_build := true |}];
  st_base_workers := Some []; st_org_base_workers := Some [];
  st_organizations := Some {[1%N]}; st_org_caches := Some {[1%N]}; st_federate_proto := false |}.

Definition example_handshake : list ServerMessage * option HandshakeResult :=
  as_authority (ServerAuthority example_store false) (fun _ _ => "mismatch")
    (Some (CInitConnection 7 capabilities_default "w")) (Some (CAuthResponse [(uuid_show 1, "secret")]))
    true true.

