(* ===== verification/Session.v ===== *)
(** * The server's side of a worker session

    [backend/gradient-proto/src/handler/dispatch.rs], [socket.rs] and [session.rs]:
    what the server does with each message of a registered worker, and how the session
    ends.

    A writer is the messages it accepted and how many more it will accept before the
    connection breaks. The NAR transfer, eval-cache and cache-query messages are served
    by other components and are outside [dispatch]; a spawned task is taken to run at
    once. *)

From Stdlib Require Import Strings.Byte.
From S2P Require Import Prelude Float RustStr ScoreContext ScorePolicy Proto JobData JobTracker TrackerFacts Dispatch TrackerInvariant WorkerPool EdgeStream Scheduler SchedulerInvariant SchedulerHandlers Auth.

Local Open Scope string_scope.
Local Open Scope list_scope.
Local Open Scope Z_scope.

(** ** The writer *)

Record Writer := { wr_sent : list ServerMessage; wr_left : nat }.

Definition send_server_msg (w : Writer) (m : ServerMessage) : Writer * bool :=
  match wr_left w with
  | O => (w, false)
  | S n => ({| wr_sent := wr_sent w ++ [m]; wr_left := n |}, true)
  end.

(** Send every message, going on after a failure. *)
Definition send_all_ignoring (w : Writer) (ms : list ServerMessage) : Writer :=
  foldl (fun w m => (send_server_msg w m).1) w ms.

(** Send every message, stopping at the first failure. *)
Fixpoint send_until_failure (w : Writer) (ms : list ServerMessage) : Writer * bool :=
  match ms with
  | [] => (w, true)
  | m :: ms => let '(w, ok) := send_server_msg w m in
               if ok then send_until_failure w ms else (w, false)
  end.

Section session.
Context `{CH : Chrono} {SD : Serde} {HO : HashOrder} {UF : UuidFormat} {TH : TokenHash}.

(** What the clock, the database and the key store answer while one message is handled. *)
Record Env := {
  env_store : AuthStore;
  env_clock : Clock;
  env_retry_clock : Clock;
  env_refreshed : list (string * PendingBuildJob);
  env_flake_source : result (option string) unit;
  env_persisted : bool;
  env_query : option (list DerivationRow);
  env_outcome : nat -> bool;
  env_ssh_key : OrganizationId -> option (list byte);
}.

(** ** Offers *)

Definition push_pending_candidates (s : Scheduler) (w : Writer) (peer_id : string) : Scheduler * Writer :=
  let '(s, candidates) := get_new_job_candidates s peer_id in
  (s, send_all_ignoring w (map SJobOffer (chunks JOB_OFFER_CHUNK_SIZE candidates))).

Definition on_job_notify (s : Scheduler) (w : Writer) (peer_id : string) : Scheduler * Writer * bool :=
  let '(s, candidates) := get_new_job_candidates s peer_id in
  let '(w, ok) := send_until_failure w (map SJobOffer (chunks JOB_OFFER_CHUNK_SIZE candidates)) in
  (s, w, ok).

(** The messages of a full list: its chunks, the last one final, and one empty final
    message when there is nothing. *)
Definition job_list_messages (candidates : list JobCandidate) : list ServerMessage :=
  let cs := chunks JOB_OFFER_CHUNK_SIZE candidates in
  let total := length cs in
  imap (fun i chunk => SJobListChunk chunk (S i =? total)%nat) cs.

Definition send_job_list_chunks (w : Writer) (candidates : list JobCandidate) : Writer * bool :=
  let '(w, ok) := send_until_failure w (job_list_messages candidates) in
  if ok then
    match chunks JOB_OFFER_CHUNK_SIZE candidates with
    | [] => send_server_msg w (SJobListChunk [] true)
    | _ => (w, true)
    end
  else (w, false).

Definition on_request_job_list (s : Scheduler) (w : Writer) (peer_id : string) : Scheduler * Writer * bool :=
  let '(s, candidates) := get_job_candidates s peer_id in
  let '(w, ok) := send_job_list_chunks w candidates in
  (s, w, ok).

(** ** Requests *)

Definition send_credentials_for_job (env : Env) (s : Scheduler) (w : Writer) (worker_id : string)
    (job : Job) (org : OrganizationId) : Writer :=
  let worker_can_fetch := match gradient_caps_for (sch_pool s) worker_id with
                          | Some c => cap_fetch c | None => false end in
  match job with
  | Flake flake_job =>
      if worker_can_fetch && contains_task (fj_tasks flake_job) FetchFlake then
        match env_ssh_key env org with
        | Some key => (send_server_msg w (SCredential SshKey key)).1
        | None => w
        end
      else w
  | Build _ => w
  end.

Definition on_request_job (env : Env) (s : Scheduler) (w : Writer) (peer_id : string) (kind : JobKind)
    : Scheduler * Writer * bool :=
  match request_job s (env_clock env) (env_retry_clock env) (env_refreshed env) peer_id kind with
  | (s, Some a) =>
      let w := send_credentials_for_job env s w peer_id (as_job a) (as_org_id a) in
      let '(w, ok) := send_server_msg w (SAssignJob (as_job_id a) (as_job a)) in
      (s, w, ok)
  | (s, None) => (s, w, true)
  end.

(** ** Re-authentication *)

Definition registered_peers_of (env : Env) (peer_id : string) : list (string * string) :=
  sc_registered_peers (server_challenge (env_store env) peer_id).1.

Definition on_reauth_request (env : Env) (s : Scheduler) (w : Writer) (peer_id : string)
    : Scheduler * Writer * bool :=
  let '(w, ok) := send_server_msg w (SAuthChallenge (map fst (registered_peers_of env peer_id))) in
  (s, w, ok).

(** The server-initiated challenge, which disconnects a deactivated worker. *)
Definition on_reauth_notify (env : Env) (s : Scheduler) (w : Writer) (peer_id : string)
    : Scheduler * Writer * bool :=
  let base := lookup_base_worker_challenge (env_store env) peer_id in
  let registered_peers := registered_peers_of env peer_id in
  if (match base with None => true | Some _ => false end) && is_nil registered_peers
       && has_any_registrations (env_store env) peer_id
  then (s, (send_server_msg w (SReject 403 "worker is deactivated")).1, false)
  else
    let '(w, ok) := send_server_msg w (SAuthChallenge (map fst registered_peers)) in
    (s, w, ok).

Definition on_auth_response (env : Env) (s : Scheduler) (w : Writer) (peer_id : string)
    (tokens : list (string * string)) : Scheduler * Writer * bool :=
  let base := lookup_base_worker_challenge (env_store env) peer_id in
  let '(token_authorized, failed_peers) := validate_tokens (registered_peers_of env peer_id) tokens in
  let authorized_peers := expand_base_authorized base token_authorized in
  let is_base := default false (worker_id_is_base (env_store env) peer_id) in
  if is_base && is_nil authorized_peers then
    (s, (send_server_msg w (SReject 403 "base worker not enabled by any organization")).1, false)
  else
    let updated_uuids := list_to_set (omap uuid_parse authorized_peers) in
    let s := sched_update_authorized_peers s peer_id updated_uuids in
    let '(w, ok) := send_server_msg w (SAuthUpdate authorized_peers failed_peers) in
    (s, w, ok).

(** ** Messages *)

(** The updates that only change database rows leave the scheduler's memory alone. *)
Definition on_job_update (env : Env) (s : Scheduler) (w : Writer) (peer_id job_id : string)
    (update : JobUpdateKind) : Scheduler * Writer :=
  match update with
  | EvalResult derivations warnings errors =>
      let s := (handle_eval_result s (env_persisted env) (env_query env) (env_outcome env)
                  job_id derivations warnings errors).1 in
      push_pending_candidates s w peer_id
  | _ => (s, w)
  end.

(** Handle one message of the worker: the state, what was sent and whether the session
    goes on; [None] for the messages of the transfer and cache components. *)
Definition dispatch (env : Env) (s : Scheduler) (w : Writer) (peer_id : string) (m : ClientMessage)
    : option (Scheduler * Writer * bool) :=
  match m with
  | CInitConnection _ _ _ => Some (s, (send_server_msg w (SError 400 "unexpected InitConnection")).1, false)
  | CReject _ _ => Some (s, w, false)
  | CReauthRequest => Some (on_reauth_request env s w peer_id)
  | CAuthResponse tokens => Some (on_auth_response env s w peer_id tokens)
  | CWorkerCapabilities archs feats mcb cpu ram score =>
      Some (update_worker_capabilities s peer_id archs feats mcb cpu ram score, w, true)
  | CWorkerMetrics cpu ram disk net => Some (update_worker_metrics s peer_id cpu ram disk net, w, true)
  | CRequestJobList => Some (on_request_job_list s w peer_id)
  | CRequestAllCandidates => Some (on_request_job_list s w peer_id)
  | CRequestJob kind => Some (on_request_job env s w peer_id kind)
  | CRequestJobChunk scores _ => Some (sched_record_scores s peer_id scores, w, true)
  | CAssignJobResponse job_id accepted _ =>
      Some ((if accepted then s else job_rejected s peer_id job_id), w, true)
  | CJobUpdate job_id update => Some (on_job_update env s w peer_id job_id update, true)
  | CJobCompleted job_id =>
      Some (push_pending_candidates (handle_job_completed s (env_flake_source env) peer_id job_id).1 w peer_id, true)
  | CJobFailed job_id error kind missing =>
      Some (push_pending_candidates (handle_job_failed s peer_id job_id error kind missing) w peer_id, true)
  | CDraining => Some (mark_worker_draining s peer_id, w, true)
  | CLogChunk _ _ _ => Some (s, w, true)
  | CEvalMessage _ _ _ _ => Some (s, w, true)
  | CNarRequest _ _ | CNarPush _ _ _ _ _ | CNarUploaded _ _ _ _ _ _ _ _ _ | CNarStreamHeader _ _ _ _
  | CNarRequestResume _ _ _ _ | CEvalCachePull _ _ | CEvalCachePush _ _ _ | CEvalCacheChunk _ _ _ _
  | CEvalCachePushDone _ _ _ | CCacheQuery _ _ _ _ | CQueryKnownDerivations _ _ => None
  end.

(** One turn of the session loop on an inbound frame at time [now]: stamp the worker as
    alive, handle the message, and unregister the worker when the session ends. *)
Definition session_turn (env : Env) (now : Z) (s : Scheduler) (w : Writer) (peer_id : string)
    (m : ClientMessage) : option (Scheduler * Writer * bool) :=
  '(s, w, continue) ← dispatch env (set_pool s (touch (sch_pool s) peer_id now)) w peer_id m;
  Some (if continue : bool then s else unregister_worker s peer_id, w, continue).

(** The abort channel's arm: the next queued abort is sent to the worker. *)
Definition on_abort (w : Writer) (msg : string * string) : Writer * bool :=
  send_server_msg w (SAbortJob msg.1 msg.2).

(** ** Messages as scheduler steps *)

Lemma push_step s w peer_id : sched_step s (push_pending_candidates s w peer_id).1.
Proof.
  unfold push_pending_candidates. pose proof (ss_new_candidates s peer_id) as H.
  destruct (get_new_job_candidates s peer_id) as [s' cs]. exact H.
Qed.

Lemma dispatch_steps env s w peer_id m s' w' b :
  dispatch env s w peer_id m = Some (s', w', b) -> rtc sched_step s s'.
Proof.
  destruct m; simpl; try done; try (intros [= <- <- <-]; reflexivity);
    try (intros [= <- <- <-]; apply rtc_once; constructor).
  - (* CAuthResponse *) unfold on_auth_response. destruct (validate_tokens _ _) as [ta fp].
    destruct (_ && _); [by intros [= <- <- <-]|].
    destruct (send_server_msg w _) as [w1 ok]. intros [= <- <- <-]. apply rtc_once. constructor.
  - (* CReauthRequest *) unfold on_reauth_request. destruct (send_server_msg w _). by intros [= <- <- <-].
  - (* CRequestJobList *) unfold on_request_job_list. pose proof (ss_candidates s peer_id) as H.
    destruct (get_job_candidates s peer_id) as [s1 cs]. destruct (send_job_list_chunks w cs).
    intros [= <- <- <-]. by apply rtc_once.
  - (* CAssignJobResponse *) intros [= <- <- <-]. destruct accepted; [reflexivity|apply rtc_once; constructor].
  - (* CJobUpdate *) destruct update; try (intros [= <- <- <-]; reflexivity). simpl.
    set (s1 := (handle_eval_result _ _ _ _ _ _ _ _).1). pose proof (push_step s1 w peer_id) as H.
    destruct (push_pending_candidates s1 w peer_id) as [s2 w2]. intros [= <- <- <-].
    eapply rtc_l; [apply ss_eval_result|]. apply rtc_once, H.
  - (* CJobCompleted *) set (s1 := (handle_job_completed _ _ _ _).1). pose proof (push_step s1 w peer_id) as H.
    destruct (push_pending_candidates s1 w peer_id) as [s2 w2]. intros [= <- <- <-].
    eapply rtc_l; [apply ss_completed|]. apply rtc_once, H.
  - (* CJobFailed *) set (s1 := handle_job_failed _ _ _ _ _ _). pose proof (push_step s1 w peer_id) as H.
    destruct (push_pending_candidates s1 w peer_id) as [s2 w2]. intros [= <- <- <-].
    eapply rtc_l; [apply ss_failed|]. apply rtc_once, H.
  - (* CRequestJob *) unfold on_request_job.
    pose proof (ss_request s (env_clock env) (env_retry_clock env) (env_refreshed env) peer_id kind) as H.
    destruct (request_job _ _ _ _ _ _) as [s1 [a|]]; simpl in H; [|intros [= <- <- <-]; by apply rtc_once].
    destruct (send_server_msg _ _) as [w1 ok]. intros [= <- <- <-]. by apply rtc_once.
  - (* CRequestAllCandidates *) unfold on_request_job_list. pose proof (ss_candidates s peer_id) as H.
    destruct (get_job_candidates s peer_id) as [s1 cs]. destruct (send_job_list_chunks w cs).
    intros [= <- <- <-]. by apply rtc_once.
Qed.

Lemma session_turn_steps env now s w peer_id m s' w' b :
  session_turn env now s w peer_id m = Some (s', w', b) -> rtc sched_step s s'.
Proof.
  unfold session_turn. destruct (dispatch _ _ _ _ _) as [[[s1 w1] c]|] eqn:E; [|done]. simpl.
  intros [= <- <- <-]. eapply rtc_l; [apply (ss_touch s peer_id now)|].
  etrans; [eapply dispatch_steps, E|]. destruct c; [reflexivity|]. apply rtc_once. constructor.
Qed.

Lemma steps_inv s s' : sched_inv s -> rtc sched_step s s' -> sched_inv s'.
Proof. intros Hs Hr. induction Hr as [|x y z Hstep _ IH]; [done|]. by eapply IH, sched_step_inv. Qed.

(** No message can break the scheduler. Whatever a worker sends, whatever the database
    and the clock answer and wherever the connection breaks, a turn of its session keeps
    the agreement of queue, running jobs and worker registry, and a state reachable by
    scheduler steps is left reachable. *)
Theorem session_turn_safe name env now s w peer_id m s' w' b :
  sched_reachable name s -> session_turn env now s w peer_id m = Some (s', w', b) ->
  sched_inv s' /\ sched_reachable name s'.
Proof.
  intros Hr Hturn%session_turn_steps. split.
  - eapply steps_inv, Hturn. eapply steps_inv, Hr. apply sched_new_inv.
  - unfold sched_reachable in *. by etrans.
Qed.

(** ** Assignments and broken connections *)

Lemma send_in w m w' : send_server_msg w m = (w', true) -> m ∈ wr_sent w'.
Proof. unfold send_server_msg. case_match; [done|]. intros [= <-]. simpl. set_solver. Qed.

Lemma unregister_lookup s w :
  sched_inv s ->
  is_connected (sch_pool (unregister_worker s w)) w = false /\
  forall id j, jt_active (sch_tracker s) !! id = Some (w, j) ->
    jt_pending (sch_tracker (unregister_worker s w)) !! id = Some j.
Proof.
  intros Hs. unfold unregister_worker. simpl.
  destruct (worker_disconnected_maps (sch_tracker s) w (si_tracker _ Hs)) as (_ & Hp & _).
  destruct (worker_disconnected (sch_tracker s) w) as [t requeued]. simpl in *. split.
  - unfold is_connected. simpl. by rewrite lookup_delete_eq, bool_decide_false by (by intros []).
  - intros id j Hj. apply Hp. by right.
Qed.

(** C5. An assignment is never lost: when a request is granted, either the worker is told to
    run the job and runs it, or the connection broke on the way, the session ended, the
    worker is gone and the job is queued again. *)
Theorem assignment_never_lost env now s w peer_id kind s1 a s' w' b :
  sched_inv s ->
  request_job (set_pool s (touch (sch_pool s) peer_id now)) (env_clock env) (env_retry_clock env)
    (env_refreshed env) peer_id kind = (s1, Some a) ->
  session_turn env now s w peer_id (CRequestJob kind) = Some (s', w', b) ->
  exists j, as_job a = into_job j /\
    ((b = true /\ SAssignJob (as_job_id a) (as_job a) ∈ wr_sent w' /\ now_runs s' peer_id a j) \/
     (b = false /\ is_connected (sch_pool s') peer_id = false /\
      jt_pending (sch_tracker s') !! as_job_id a = Some j)).
Proof.
  intros Hs Hreq. destruct (request_job_granted _ _ _ _ _ _ _ _ Hreq) as (sh & j & _ & Hruns).
  assert (Hs1 : sched_inv s1).
  { assert (H := sched_step_inv _ _ Hs (ss_touch s peer_id now)).
    eapply sched_step_inv in H; [|apply (ss_request _ (env_clock env) (env_retry_clock env) (env_refreshed env) peer_id kind)].
    by rewrite Hreq in H. }
  unfold session_turn, dispatch, on_request_job. rewrite Hreq. simpl.
  destruct (send_server_msg _ _) as [w1 ok] eqn:Esend. simpl. intros [= <- <- <-].
  exists j. split; [apply Hruns|]. destruct ok.
  - left. split; [done|]. split; [by eapply send_in|done].
  - right. destruct (unregister_lookup s1 peer_id Hs1) as [Hc Hp].
    split; [done|]. split; [done|]. apply Hp. apply Hruns.
Qed.

(** ** Re-authentication *)

Lemma not_base_challenge st peer_id :
  default false (worker_id_is_base st peer_id) = false ->
  lookup_base_worker_challenge st peer_id = None.
Proof.
  unfold worker_id_is_base, lookup_base_worker_challenge, enabled_base_worker_by_worker_id.
  destruct (st_base_workers st) as [rows|]; simpl; [|done]. intros Hn.
  destruct (List.filter _ rows) as [|r l] eqn:E; [done|]. exfalso.
  assert (Hin : In r (r :: l)) by (by left). rewrite <- E in Hin.
  apply List.filter_In in Hin as [Hin [Hr _]%andb_true_iff].
  assert (Hex : existsb (fun b => (bw_worker_id b =? peer_id)%string) rows = true)
    by (apply existsb_exists; by exists r). congruence.
Qed.

(** Re-authentication fails open. A connected worker that is no base worker may send an
    [AuthResponse] at any time; when none of its tokens verifies, it ends up in open
    mode and is authorized for every organization, while the handshake refuses the same
    tokens. *)
Theorem failed_reauth_opens_worker env s w peer_id tokens :
  is_connected (sch_pool s) peer_id = true ->
  default false (worker_id_is_base (env_store env) peer_id) = false ->
  lookup_registered_peers (env_store env) peer_id ≠ [] ->
  (forall r, r ∈ lookup_registered_peers (env_store env) peer_id -> token_ok tokens r = false) ->
  let '(s', _, _) := on_auth_response env s w peer_id tokens in
  peer_auth_for (sch_pool s') peer_id = Some Open /\
  (forall org, worker_authorized_for_org s' peer_id org = true) /\
  (forall server_initiated, server_authorize (env_store env) server_initiated peer_id
     (server_challenge (env_store env) peer_id).1 tokens = RejectPeer 401 "no valid peer tokens provided").
Proof.
  intros Hc Hbase Hreg Hbad. unfold on_auth_response, registered_peers_of, server_authorize, server_challenge.
  rewrite Hbase, (not_base_challenge _ _ Hbase). simpl.
  assert (Hv : (validate_tokens (lookup_registered_peers (env_store env) peer_id) tokens).1 = []).
  { destruct (_.1) as [|p l] eqn:E; [done|]. exfalso.
    assert (Hin : p ∈ (validate_tokens (lookup_registered_peers (env_store env) peer_id) tokens).1)
      by (rewrite E; left).
    apply validate_tokens_in in Hin as (h & Hin & Hok). by rewrite Hbad in Hok. }
  destruct (validate_tokens _ tokens) as [ta fp]. simpl in Hv. subst ta. simpl.
  destruct (send_server_msg w _) as [w1 ok].
  unfold is_connected in Hc. apply bool_decide_eq_true in Hc as [slot Hslot].
  assert (Hopen : peer_auth_for (sch_pool (sched_update_authorized_peers s peer_id ∅)) peer_id = Some Open).
  { unfold peer_auth_for, sched_update_authorized_peers, update_authorized_peers. simpl.
    rewrite lookup_alter_eq, Hslot. simpl. rewrite shared_map. simpl. unfold from_peers.
    by rewrite bool_decide_true. }
  split; [exact Hopen|]. split.
  - intros org. unfold worker_authorized_for_org. by rewrite Hopen.
  - intros si. destruct (lookup_registered_peers (env_store env) peer_id); done.
Qed.

(** ** Full lists *)

Lemma send_until_failure_enough w ms :
  (length ms <= wr_left w)%nat ->
  send_until_failure w ms =
    ({| wr_sent := wr_sent w ++ ms; wr_left := wr_left w - length ms |}, true).
Proof.
  revert w. induction ms as [|m ms IH]; intros w Hl; simpl in *.
  { rewrite app_nil_r, Nat.sub_0_r. by destruct w. }
  unfold send_server_msg. destruct (wr_left w) as [|n] eqn:E; [lia|].
  rewrite IH by (simpl; lia). simpl. by rewrite <- app_assoc.
Qed.

Lemma final_flags (cs : list (list JobCandidate)) k :
  cs ≠ [] ->
  exists front back, cs = front ++ [back] /\
    imap (fun i chunk => SJobListChunk chunk (S (k + i) =? k + length cs)%nat) cs =
      map (fun c => SJobListChunk c false) front ++ [SJobListChunk back true].
Proof.
  revert k. induction cs as [|c cs IH]; intros k Hne; [done|].
  destruct cs as [|c' cs].
  { exists [], c. split; [done|]. simpl. by rewrite Nat.add_0_r, Nat.add_1_r, Nat.eqb_refl. }
  destruct (IH (S k)) as (front & back & Heq & Hmap); [done|].
  exists (c :: front), back. split; [by rewrite Heq|]. rewrite imap_cons, Nat.add_0_r.
  rewrite (proj2 (Nat.eqb_neq (S k) (k + length (c :: c' :: cs)))) by (simpl; lia).
  cbn [map app]. f_equal. rewrite <- Hmap. apply imap_ext. intros i x _. unfold compose.
  f_equal. apply eq_true_iff_eq. rewrite !Nat.eqb_eq. simpl. lia.
Qed.

(** A full candidate list arrives whole: over a connection that takes the messages, the
    worker receives every candidate exactly once and in order, in one or more chunks of
    which the last and only the last is marked final. *)
Theorem job_list_complete w candidates :
  (S (length (job_list_messages candidates)) <= wr_left w)%nat ->
  exists front back w', send_job_list_chunks w candidates = (w', true) /\
    wr_sent w' = wr_sent w ++ map (fun c => SJobListChunk c false) front ++ [SJobListChunk back true] /\
    concat front ++ back = candidates.
Proof.
  intros Hl. unfold send_job_list_chunks. rewrite send_until_failure_enough by lia.
  pose proof (concat_chunks JOB_OFFER_CHUNK_SIZE candidates) as Hcat. unfold job_list_messages in *.
  destruct (chunks JOB_OFFER_CHUNK_SIZE candidates) as [|c cs] eqn:E.
  - exists [], []. simpl in *. unfold send_server_msg. simpl. rewrite Nat.sub_0_r.
    destruct (wr_left w) as [|n]; [lia|]. eexists. split; [done|]. rewrite app_nil_r. split; [done|].
    by rewrite <- Hcat.
  - destruct (final_flags (c :: cs) 0) as (front & back & Heq & Hmap); [done|].
    exists front, back. eexists. split; [done|]. simpl wr_sent. split.
    + f_equal. exact Hmap.
    + rewrite <- Hcat by done. rewrite Heq, concat_app. simpl. by rewrite app_nil_r.
Qed.
End session.

(** ** Witnesses *)

#[local] Existing Instance nanosecond_clock.
#[local] Existing Instance null_serde.
#[local] Existing Instance forward_order.

Definition example_env : Env := {|
  env_store := example_store; env_clock := example_clock; env_retry_clock := example_clock;
  env_refreshed := []; env_flake_source := Ok None; env_persisted := true; env_query := Some [];
  env_outcome := fun _ => true; env_ssh_key := fun _ => None |}.

(** A writer that takes ten messages, and a broken one. *)
Definition open_writer : Writer := {| wr_sent := []; wr_left := 10 |}.
Definition broken_writer : Writer := {| wr_sent := []; wr_left := 0 |}.

Definition example_turn (w : Writer) : Scheduler * Writer * bool :=
  default (idle_scheduler, w, false)
    (session_turn example_env 6 idle_scheduler w "w" (CRequestJob JobKindBuild)).

Lemma example_turn_eq w :
  session_turn example_env 6 idle_scheduler w "w" (CRequestJob JobKindBuild) =
    Some (example_turn w).
Proof.
  unfold example_turn, session_turn. destruct (dispatch _ _ _ _ _) as [[[s w'] b]|] eqn:E; [done|].
  unfold dispatch in E. done.
Qed.

Lemma session_turn_safe_witness :
  sched_reachable "simple" idle_scheduler /\ sched_inv (example_turn open_writer).1.1.
Proof.
  split; [exact idle_reachable|].
  assert (H : session_turn example_env 6 idle_scheduler open_writer "w" (CRequestJob JobKindBuild) =
    Some ((example_turn open_writer).1.1, (example_turn open_writer).1.2, (example_turn open_writer).2)).
  { rewrite example_turn_eq. by destruct (example_turn open_writer) as [[]]. }
  exact (proj1 (session_turn_safe "simple" _ _ _ _ _ _ _ _ _ idle_reachable H)).
Defined.

Lemma idle_inv : sched_inv idle_scheduler.
Proof. eapply steps_inv; [exact (sched_new_inv "simple")|exact idle_reachable]. Qed.

(** Over the broken writer the build is queued again. *)
Lemma assignment_never_lost_witness :
  exists a, (request_job (set_pool idle_scheduler (touch (sch_pool idle_scheduler) "w" 6))
      example_clock example_clock [] "w" JobKindBuild).2 = Some a /\
    as_job_id a = "build:7" /\ (example_turn broken_writer).2 = false /\
    exists j, jt_pending (sch_tracker (example_turn broken_writer).1.1) !! "build:7" = Some j.
Proof.
  set (req := request_job _ _ _ _ _ _).
  assert (Ha : exists a, req.2 = Some a /\ as_job_id a = "build:7") by (vm_compute; eexists; split; reflexivity).
  destruct Ha as (a & Ha & Hid). exists a. split; [exact Ha|]. split; [exact Hid|].
  assert (Hb : (example_turn broken_writer).2 = false) by (vm_compute; reflexivity). split; [exact Hb|].
  assert (Hreq : req = (req.1, Some a)) by (rewrite <- Ha; apply surjective_pairing).
  assert (H : session_turn example_env 6 idle_scheduler broken_writer "w" (CRequestJob JobKindBuild) =
    Some ((example_turn broken_writer).1.1, (example_turn broken_writer).1.2, (example_turn broken_writer).2)).
  { rewrite example_turn_eq. by destruct (example_turn broken_writer) as [[]]. }
  destruct (assignment_never_lost example_env 6 idle_scheduler broken_writer "w" JobKindBuild _ _ _ _ _
    idle_inv Hreq H) as (j & _ & [(Ht & _)|(_ & _ & Hp)]).
  - exfalso. rewrite Hb in Ht. discriminate Ht.
  - exists j. rewrite <- Hid. exact Hp.
Defined.

(** "w", registered by organization 1 only, answers with no token. *)
Lemma failed_reauth_opens_worker_witness :
  is_connected (sch_pool busy_scheduler) "w" = true /\
  worker_authorized_for_org busy_scheduler "w" 2 = false /\
  worker_authorized_for_org (on_auth_response example_env busy_scheduler open_writer "w" []).1.1 "w" 2 = true.
Proof.
  assert (Hc : is_connected (sch_pool busy_scheduler) "w" = true) by (vm_compute; reflexivity).
  split; [exact Hc|]. split; [vm_compute; reflexivity|].
  assert (Hb : default false (worker_id_is_base (env_store example_env) "w") = false) by reflexivity.
  assert (Hr : lookup_registered_peers (env_store example_env) "w" ≠ []) by (vm_compute; discriminate).
  assert (Ht : forall r, r ∈ lookup_registered_peers (env_store example_env) "w" -> token_ok [] r = false)
    by (intros r _; reflexivity).
  pose proof (failed_reauth_opens_worker example_env busy_scheduler open_writer "w" [] Hc Hb Hr Ht) as H.
  destruct (on_auth_response example_env busy_scheduler open_writer "w" []) as [[s' w'] b].
  exact (proj1 (proj2 H) 2%N).
Defined.

Definition example_candidate : JobCandidate :=
  {| jcand_job_id := "build:7"; jcand_required_paths := []; jcand_drv_paths := [] |}.

Lemma job_list_complete_witness :
  (S (length (job_list_messages [example_candidate])) <= wr_left open_writer)%nat /\
  exists front back w', send_job_list_chunks open_writer [example_candidate] = (w', true) /\
    concat front ++ back = [example_candidate].
Proof.
  assert (H : (S (length (job_list_messages [example_candidate])) <= wr_left open_writer)%nat)
    by (vm_compute; lia).
  split; [exact H|]. destruct (job_list_complete open_writer [example_candidate] H) as (f & b & w' & Hs & _ & Hc).
  exists f, b, w'. split; [exact Hs|exact Hc].
Defined.
