(* ===== verification/Retry.v ===== *)
(** * Post-processing of build-failure messages

    [backend/gradient-sources/src/build_log.rs] and the cap on stored failure messages of
    [backend/gradient-scheduler/src/build/lifecycle.rs]. *)

From S2P Require Import Prelude RustStr RustText Status ScoreContext Proto JobData.

Local Open Scope string_scope.

Definition is_log_tail_header (line : string) : bool :=
  match RustStr.strip_prefix "Last " (trim line) with
  | None => false
  | Some rest =>
      match strip_suffix rest " log lines:" with
      | None => false
      | Some count => negb (String.eqb count "") && all_chars is_ascii_digit count
      end
  end.

(** The lines kept, [in_tail] while inside nix's repeated log tail. *)
Fixpoint kept_lines (in_tail : bool) (ls : list string) : list string :=
  match ls with
  | [] => []
  | line :: ls =>
      if is_log_tail_header line then kept_lines true ls
      else if in_tail && starts_with (trim_start line) ">" then kept_lines true ls
      else line :: kept_lines false ls
  end.

Definition strip_nix_log_tail (message : string) : string :=
  let stripped := join_with newline (kept_lines false (lines message)) in
  if ends_with message newline && negb (String.eqb stripped "") then stripped ++ newline else stripped.

(** ** The stored message *)

Definition MAX_FAILURE_MESSAGE : nat := Z.to_nat (8 * 1024).

(** [str::is_char_boundary]: the end of the string, or a byte that starts a character. *)
Definition is_char_boundary (s : string) (i : nat) : bool :=
  Nat.eqb i 0 || Nat.eqb i (String.length s) ||
  match String.get i s with
  | Some a => Nat.ltb (nat_of_ascii a) 128 || Nat.leb 192 (nat_of_ascii a)
  | None => false
  end.

Fixpoint last_boundary (s : string) (i : nat) : nat :=
  if is_char_boundary s i then i else match i with O => O | S i => last_boundary s i end.

Definition truncate_failure_message (error : string) : string :=
  if Nat.leb (String.length error) MAX_FAILURE_MESSAGE then error
  else String.substring 0 (last_boundary error MAX_FAILURE_MESSAGE) error ++ " [truncated]".

(** ** Lemmas *)

Lemma kept_no_header b ls : Forall (fun l => is_log_tail_header l = false) (kept_lines b ls).
Proof.
  revert b. induction ls as [|l ls IH]; intros b; simpl; [constructor|].
  destruct (is_log_tail_header l) eqn:E; [done|]. destruct (b && _); [done|]. by constructor.
Qed.

(** Without a header nothing is dropped. *)
Lemma kept_all ls : Forall (fun l => is_log_tail_header l = false) ls -> kept_lines false ls = ls.
Proof. induction 1 as [|l ls Hl _ IH]; simpl; [done|]. by rewrite Hl, IH. Qed.

Lemma kept_sublist b ls : kept_lines b ls `sublist_of` ls.
Proof.
  revert b. induction ls as [|l ls IH]; intros b; simpl; [constructor|].
  destruct (is_log_tail_header l); [by constructor|]. destruct (b && _); by constructor.
Qed.

Lemma last_boundary_le s i : last_boundary s i <= i /\ is_char_boundary s (last_boundary s i) = true.
Proof.
  induction i as [|i [IH1 IH2]]; simpl; [done|]. destruct (is_char_boundary s (S i)) eqn:E; [done|]. split; [lia|done].
Qed.

Lemma substring_length n s : n <= String.length s -> String.length (String.substring 0 n s) = n.
Proof. revert n. induction s as [|a s IH]; intros [|n] Hn; simpl in *; [done|lia|done|]. f_equal. apply IH. lia. Qed.

(** The stored message is bounded and cut between characters. *)
Lemma truncated_bounded error :
  String.length (truncate_failure_message error) <= MAX_FAILURE_MESSAGE + 12.
Proof.
  unfold truncate_failure_message. destruct (Nat.leb_spec (String.length error) MAX_FAILURE_MESSAGE); [lia|].
  rewrite string_length_app. destruct (last_boundary_le error MAX_FAILURE_MESSAGE) as [Hle _].
  revert Hle. generalize (last_boundary error MAX_FAILURE_MESSAGE). intros n Hn. rewrite substring_length by lia.
  change (String.length " [truncated]") with 12. lia.
Qed.

Example header_matched : is_log_tail_header "   Last 25 log lines:" = true.
Proof. reflexivity. Qed.

Example tail_stripped :
  strip_nix_log_tail ("error: Cannot build" ++ newline ++ "  Last 2 log lines:" ++ newline ++ "  > a" ++ newline
    ++ "  > b" ++ newline ++ "  For full logs, run:" ++ newline)
  = "error: Cannot build" ++ newline ++ "  For full logs, run:" ++ newline.
Proof. reflexivity. Qed.

Local Close Scope string_scope.
(** * Retry and dispatch decisions

    The decision functions of [backend/gradient-scheduler/src/build/lifecycle.rs],
    [dispatch_mode.rs] and [dispatch/build.rs]: what a failure leads to, when a transient
    failure is due again, how often an evaluation is re-dispatched, and in which mode a
    ready build is dispatched. Integers keep their widths, casts included. *)

Local Open Scope Z_scope.

(** ** The evaluation settings ([gradient-types/src/cli/eval.rs]) *)

Record EvalConfig := {
  build_max_attempts : Z;
  substitute_miss_escalation_threshold : Z;
  inputs_unavailable_max_loops : Z;
  build_retry_backoff_secs : Z;
  build_default_timeout_secs : Z;
  build_default_max_silent_secs : Z;
}.

Definition eval_config_default : EvalConfig := {|
  build_max_attempts := 3;
  substitute_miss_escalation_threshold := 2;
  inputs_unavailable_max_loops := 3;
  build_retry_backoff_secs := 30;
  build_default_timeout_secs := 0;
  build_default_max_silent_secs := 0;
|}.

(** ** Orphaned evaluations *)

Definition MAX_EVAL_DISPATCH_ATTEMPTS : Z := 10.

Inductive OrphanedEval := OrphanRequeue | OrphanExhausted.

Definition orphaned_eval_outcome (dispatches budget : Z) : OrphanedEval :=
  if budget <=? dispatches then OrphanExhausted else OrphanRequeue.

(** ** Failed builds *)

Inductive FailureOutcome := OutRetry | OutPermanent | OutTimeout | OutRequeue.

Definition decide_failure_outcome (kind : BuildFailureKind) (attempt max_attempts : Z) : FailureOutcome :=
  match kind with
  | Timeout => OutTimeout
  | Permanent => OutPermanent
  | SubstituteUnavailable => OutRequeue
  | InputsUnavailable | Transient =>
      if i32 (attempt + 1) <? i32 max_attempts then OutRetry else OutPermanent
  | CorruptEvalCache => OutPermanent
  end.

Definition terminal_success_status (outputs_already_valid : bool) : BuildStatus :=
  if outputs_already_valid then BSubstituted else BCompleted.

Definition attempt_reason (kind : BuildFailureKind) : option AttemptFailureReason :=
  match kind with
  | SubstituteUnavailable => Some RSubstituteUnavailable
  | InputsUnavailable => Some RInputsUnavailable
  | Permanent => Some RBuilderNonzero
  | Timeout => Some RWallClockTimeout
  | Transient | CorruptEvalCache => None
  end.

Definition inputs_unavailable_circuit_open (prior_failures max_loops : Z) : bool := max_loops <=? prior_failures.

(** ** Backoff *)

Definition saturating_mul_u64 (x y : Z) : Z := Z.min (x * y) (2 ^ 64 - 1).

(** [base_secs.saturating_mul(1u64 << shift) as i64] *)
Definition backoff_window (attempt base_secs : Z) : Z :=
  let shift := Z.min (Z.max attempt 1 - 1) 16 in
  i64 (saturating_mul_u64 base_secs (Z.shiftl 1 shift)).

Definition retry_backoff_elapsed `{Chrono} (attempt : Z) (failed_at now : NaiveDateTime) (base_secs : Z) : bool :=
  backoff_window attempt base_secs <=? num_seconds_between now failed_at.

(** ** Dispatch mode *)

Inductive BuildDispatchMode := RealArch | SubstituteBuiltin | SubstituteStalled.

Definition arch_available (connected : gset string) (arch : string) : bool :=
  (arch =? BUILTIN_ARCH)%string || bool_decide (arch ∈ connected).

Definition decide_dispatch_mode (substitutable : bool) (miss_count threshold : Z) (arch_has_worker : bool)
    : BuildDispatchMode :=
  if negb substitutable then RealArch
  else if miss_count <? threshold then SubstituteBuiltin
  else if arch_has_worker then RealArch
  else SubstituteStalled.

(** ** Limits *)

Definition nonzero (v : Z) : option Z := if v =? 0 then None else Some v.

Definition resolve_limit (stored default : option Z) : option Z :=
  match stored with
  | Some v => if v =? 0 then None else if 0 <? v then Some v else default
  | None => default
  end.

(** ** Properties *)

(** The attempts a build can still make before a transient failure is final. *)
Definition attempts_left (max_attempts attempt : Z) : nat := Z.to_nat (max_attempts - attempt).

Lemma decide_retry kind attempt max_attempts :
  0 <= attempt < 2 ^ 31 - 1 -> 0 <= max_attempts < 2 ^ 31 ->
  decide_failure_outcome kind attempt max_attempts = OutRetry <->
  (kind = Transient \/ kind = InputsUnavailable) /\ attempt + 1 < max_attempts.
Proof.
  intros Ha Hm. unfold decide_failure_outcome. rewrite !i32_small by lia.
  destruct kind; try (split; [done|intros [[?|?] _]; done]); destruct (Z.ltb_spec (attempt + 1) max_attempts);
    split; try done; intuition (try done; try lia).
Qed.

Lemma retry_lowers kind attempt max_attempts :
  0 <= attempt < 2 ^ 31 - 1 -> 0 <= max_attempts < 2 ^ 31 ->
  decide_failure_outcome kind attempt max_attempts = OutRetry ->
  (attempts_left max_attempts (attempt + 1) < attempts_left max_attempts attempt)%nat.
Proof. intros Ha Hm [_ Hlt]%decide_retry; [|done..]. unfold attempts_left. lia. Qed.

Lemma shiftl_pow n : 0 <= n -> Z.shiftl 1 n = 2 ^ n.
Proof. intros. by rewrite Z.shiftl_1_l. Qed.

(** The delay is exact while its largest value fits. *)
Lemma backoff_window_exact attempt base :
  0 <= base < 2 ^ 47 -> backoff_window attempt base = base * 2 ^ Z.min (Z.max attempt 1 - 1) 16.
Proof.
  intros Hb. unfold backoff_window, saturating_mul_u64. rewrite shiftl_pow by lia.
  set (k := Z.min _ 16). assert (Hk : 0 <= k <= 16) by lia.
  assert (Hp : 1 <= 2 ^ k <= 2 ^ 16) by (split; [apply (Z.pow_le_mono_r 2 0); lia|apply Z.pow_le_mono_r; lia]).
  rewrite Z.min_l by nia. unfold i64. rewrite wrap_small; [lia|]. nia.
Qed.

(** The backoff of a transient failure: with a base below 2^47 seconds the delay before
    attempt [n + 1] is exactly [base * 2^(n-1)] seconds, doubling with each attempt up to
    sixteen doublings, so a failed build is due again in finite time and never before its
    base delay. *)
Theorem backoff_bounds `{Chrono} attempt failed_at now base :
  0 <= base < 2 ^ 47 ->
  (retry_backoff_elapsed attempt failed_at now base = true <->
     base * 2 ^ Z.min (Z.max attempt 1 - 1) 16 <= num_seconds_between now failed_at) /\
  base <= backoff_window attempt base <= 65536 * base /\
  (1 <= attempt <= 16 -> backoff_window (attempt + 1) base = 2 * backoff_window attempt base).
Proof.
  intros Hb. unfold retry_backoff_elapsed. rewrite !backoff_window_exact by done. split_and!.
  - apply Z.leb_le.
  - assert (1 <= 2 ^ Z.min (Z.max attempt 1 - 1) 16) by (apply (Z.pow_le_mono_r 2 0); lia). nia.
  - assert (2 ^ Z.min (Z.max attempt 1 - 1) 16 <= 2 ^ 16) by (apply Z.pow_le_mono_r; lia). nia.
  - intros Ha. replace (Z.min (Z.max (attempt + 1) 1 - 1) 16) with (Z.succ (attempt - 1)) by lia.
    replace (Z.min (Z.max attempt 1 - 1) 16) with (attempt - 1) by lia. rewrite Z.pow_succ_r by lia. lia.
Qed.

Lemma backoff_bounds_witness :
  retry_backoff_elapsed (H := nanosecond_clock) 3 (at_ns 0) (at_ns 119999999999) 30 = false /\
  retry_backoff_elapsed (H := nanosecond_clock) 3 (at_ns 0) (at_ns 120000000000) 30 = true.
Proof.
  destruct (backoff_bounds (H := nanosecond_clock) 3 (at_ns 0) (at_ns 120000000000) 30) as [Hiff _]; [lia|].
  split; [reflexivity|]. apply Hiff. vm_compute. discriminate.
Defined.

(** Above that the cast wraps: the saturated product is [-1] and the failure is due at once. *)
Lemma backoff_wraps `{Chrono} attempt failed_at now :
  (17 <= attempt) -> 0 <= num_seconds_between now failed_at ->
  retry_backoff_elapsed attempt failed_at now (2 ^ 48) = true.
Proof.
  intros Ha Hn. unfold retry_backoff_elapsed, backoff_window.
  replace (Z.min (Z.max attempt 1 - 1) 16) with 16 by lia. apply Z.leb_le.
  change (i64 (saturating_mul_u64 (2 ^ 48) (Z.shiftl 1 16))) with (-1). lia.
Qed.

Lemma dispatch_mode_real substitutable miss threshold arch :
  decide_dispatch_mode substitutable miss threshold arch = RealArch <->
  substitutable = false \/ (threshold <= miss /\ arch = true).
Proof.
  unfold decide_dispatch_mode. destruct substitutable; simpl; [|tauto].
  destruct (Z.ltb_spec miss threshold), arch; split; try done; intuition (try done; try lia).
Qed.
