(* ===== verification/BuildGraph.v ===== *)
(** * The build graph in the database

    The tables behind the build graph and the statements that move it:
    [backend/gradient-db/src/graph_sql.rs] (readiness predicates and recursive
    walks) and [promotion.rs] (promotion, failure cascades, requeueing, the derived
    flags). A statement reads one snapshot and updates every matching row at once.

    [derivation_build] is keyed by its unique column [derivation], [cached_path] by
    [hash], [evaluation] by [id]; the other tables are row lists. Columns no modelled
    statement reads are left out. *)

From S2P Require Import Prelude Status Fixpoints ScoreContext JobData EdgeStream.

Abbreviation DerivationId := N.

(** ** Tables *)

Section tables.
Context `{Chrono}.

Record DerivationBuild := {
  db_id : DerivationBuildId;
  db_status : BuildStatus;
  db_substitutable : bool;
  db_substituted : bool;
  db_edges_complete : bool;
  db_edges_unresolved : bool;
  db_closure_complete : bool;
  db_drv_closure_cached : bool;
  db_attempt : Z;
  db_timeout_secs : option Z;
  db_max_silent_secs : option Z;
  db_updated_at : NaiveDateTime;
  db_queued_at : option NaiveDateTime;
  db_ready_at : option NaiveDateTime;
}.

Record BuildJobRow := {
  bjr_id : N;
  bjr_evaluation : EvaluationId;
  bjr_derivation : DerivationId;
  bjr_derivation_build : DerivationBuildId;
}.

Record OutputRow := {
  or_derivation : DerivationId;
  or_name : string;
  or_hash : string;
  or_package : string;
  or_is_cached : bool;
  or_external_url : option string;
}.

Record CachedPathRow := { cp_file_hash : option string; cp_closure_complete : bool }.

Record AttemptRow := {
  ba_id : N;
  ba_build_job : option N;
  ba_derivation_build : DerivationBuildId;
  ba_outcome : AttemptOutcome;
  ba_reason : option AttemptFailureReason;
  ba_finished : bool;
  ba_failure_message : option string;
}.

Inductive EvaluationKind := KNormal | KInputUpdate | KDrvRecovery.

Record EvaluationRow := {
  ev_project : option ProjectId;
  ev_status : EvaluationStatus;
  ev_kind : EvaluationKind;
  ev_waiting_reason : option WaitingReason;
  ev_updated_at : NaiveDateTime;
}.

Inductive MessageLevel := MError | MWarning | MNotice.

Record Db := {
  t_anchors : gmap DerivationId DerivationBuild;
  t_derivations : list DerivationRow;
  t_dependencies : list (DerivationId * DerivationId);
  t_build_jobs : list BuildJobRow;
  t_outputs : list OutputRow;
  t_input_sources : list (DerivationId * string);
  t_cached_paths : gmap string CachedPathRow;
  t_references : list (string * string);
  t_attempts : list AttemptRow;
  t_evaluations : gmap EvaluationId EvaluationRow;
  t_messages : list (EvaluationId * MessageLevel);
  t_entry_points : list (EvaluationId * DerivationId);
}.

Definition set_anchors (t : Db) (m : gmap DerivationId DerivationBuild) : Db := {|
  t_anchors := m; t_derivations := t_derivations t; t_dependencies := t_dependencies t;
  t_build_jobs := t_build_jobs t; t_outputs := t_outputs t; t_input_sources := t_input_sources t;
  t_cached_paths := t_cached_paths t; t_references := t_references t; t_attempts := t_attempts t;
  t_evaluations := t_evaluations t; t_messages := t_messages t;
  t_entry_points := t_entry_points t |}.

Definition set_cached_paths (t : Db) (m : gmap string CachedPathRow) : Db := {|
  t_anchors := t_anchors t; t_derivations := t_derivations t; t_dependencies := t_dependencies t;
  t_build_jobs := t_build_jobs t; t_outputs := t_outputs t; t_input_sources := t_input_sources t;
  t_cached_paths := m; t_references := t_references t; t_attempts := t_attempts t;
  t_evaluations := t_evaluations t; t_messages := t_messages t;
  t_entry_points := t_entry_points t |}.

Definition set_outputs (t : Db) (l : list OutputRow) : Db := {|
  t_anchors := t_anchors t; t_derivations := t_derivations t; t_dependencies := t_dependencies t;
  t_build_jobs := t_build_jobs t; t_outputs := l; t_input_sources := t_input_sources t;
  t_cached_paths := t_cached_paths t; t_references := t_references t; t_attempts := t_attempts t;
  t_evaluations := t_evaluations t; t_messages := t_messages t;
  t_entry_points := t_entry_points t |}.

Definition set_attempts (t : Db) (l : list AttemptRow) : Db := {|
  t_anchors := t_anchors t; t_derivations := t_derivations t; t_dependencies := t_dependencies t;
  t_build_jobs := t_build_jobs t; t_outputs := t_outputs t; t_input_sources := t_input_sources t;
  t_cached_paths := t_cached_paths t; t_references := t_references t; t_attempts := l;
  t_evaluations := t_evaluations t; t_messages := t_messages t;
  t_entry_points := t_entry_points t |}.

Definition set_evaluations (t : Db) (m : gmap EvaluationId EvaluationRow) : Db := {|
  t_anchors := t_anchors t; t_derivations := t_derivations t; t_dependencies := t_dependencies t;
  t_build_jobs := t_build_jobs t; t_outputs := t_outputs t; t_input_sources := t_input_sources t;
  t_cached_paths := t_cached_paths t; t_references := t_references t; t_attempts := t_attempts t;
  t_evaluations := m; t_messages := t_messages t;
  t_entry_points := t_entry_points t |}.

(** Column assignments *)

Definition with_status (s : BuildStatus) (now : NaiveDateTime) (a : DerivationBuild) : DerivationBuild := {|
  db_id := db_id a; db_status := s; db_substitutable := db_substitutable a;
  db_substituted := db_substituted a; db_edges_complete := db_edges_complete a;
  db_edges_unresolved := db_edges_unresolved a; db_closure_complete := db_closure_complete a;
  db_drv_closure_cached := db_drv_closure_cached a; db_attempt := db_attempt a;
  db_timeout_secs := db_timeout_secs a; db_max_silent_secs := db_max_silent_secs a;
  db_updated_at := now; db_queued_at := db_queued_at a; db_ready_at := db_ready_at a |}.

Definition with_queued_at (q : option NaiveDateTime) (a : DerivationBuild) : DerivationBuild := {|
  db_id := db_id a; db_status := db_status a; db_substitutable := db_substitutable a;
  db_substituted := db_substituted a; db_edges_complete := db_edges_complete a;
  db_edges_unresolved := db_edges_unresolved a; db_closure_complete := db_closure_complete a;
  db_drv_closure_cached := db_drv_closure_cached a; db_attempt := db_attempt a;
  db_timeout_secs := db_timeout_secs a; db_max_silent_secs := db_max_silent_secs a;
  db_updated_at := db_updated_at a; db_queued_at := q; db_ready_at := db_ready_at a |}.

Definition with_closure_complete (b : bool) (a : DerivationBuild) : DerivationBuild := {|
  db_id := db_id a; db_status := db_status a; db_substitutable := db_substitutable a;
  db_substituted := db_substituted a; db_edges_complete := db_edges_complete a;
  db_edges_unresolved := db_edges_unresolved a; db_closure_complete := b;
  db_drv_closure_cached := db_drv_closure_cached a; db_attempt := db_attempt a;
  db_timeout_secs := db_timeout_secs a; db_max_silent_secs := db_max_silent_secs a;
  db_updated_at := db_updated_at a; db_queued_at := db_queued_at a; db_ready_at := db_ready_at a |}.

Definition with_drv_closure_cached (b : bool) (a : DerivationBuild) : DerivationBuild := {|
  db_id := db_id a; db_status := db_status a; db_substitutable := db_substitutable a;
  db_substituted := db_substituted a; db_edges_complete := db_edges_complete a;
  db_edges_unresolved := db_edges_unresolved a; db_closure_complete := db_closure_complete a;
  db_drv_closure_cached := b; db_attempt := db_attempt a;
  db_timeout_secs := db_timeout_secs a; db_max_silent_secs := db_max_silent_secs a;
  db_updated_at := db_updated_at a; db_queued_at := db_queued_at a; db_ready_at := db_ready_at a |}.

Definition with_edges_complete (a : DerivationBuild) : DerivationBuild := {|
  db_id := db_id a; db_status := db_status a; db_substitutable := db_substitutable a;
  db_substituted := db_substituted a; db_edges_complete := true;
  db_edges_unresolved := db_edges_unresolved a; db_closure_complete := db_closure_complete a;
  db_drv_closure_cached := db_drv_closure_cached a; db_attempt := db_attempt a;
  db_timeout_secs := db_timeout_secs a; db_max_silent_secs := db_max_silent_secs a;
  db_updated_at := db_updated_at a; db_queued_at := db_queued_at a; db_ready_at := db_ready_at a |}.

Definition with_attempt (n : Z) (a : DerivationBuild) : DerivationBuild := {|
  db_id := db_id a; db_status := db_status a; db_substitutable := db_substitutable a;
  db_substituted := db_substituted a; db_edges_complete := db_edges_complete a;
  db_edges_unresolved := db_edges_unresolved a; db_closure_complete := db_closure_complete a;
  db_drv_closure_cached := db_drv_closure_cached a; db_attempt := n;
  db_timeout_secs := db_timeout_secs a; db_max_silent_secs := db_max_silent_secs a;
  db_updated_at := db_updated_at a; db_queued_at := db_queued_at a; db_ready_at := db_ready_at a |}.

Definition with_substitution (able ed : bool) (a : DerivationBuild) : DerivationBuild := {|
  db_id := db_id a; db_status := db_status a; db_substitutable := able;
  db_substituted := ed; db_edges_complete := db_edges_complete a;
  db_edges_unresolved := db_edges_unresolved a; db_closure_complete := db_closure_complete a;
  db_drv_closure_cached := db_drv_closure_cached a; db_attempt := db_attempt a;
  db_timeout_secs := db_timeout_secs a; db_max_silent_secs := db_max_silent_secs a;
  db_updated_at := db_updated_at a; db_queued_at := db_queued_at a; db_ready_at := db_ready_at a |}.

(** ** UPDATE statements over anchors *)

(** [UPDATE derivation_build SET ... WHERE p]: every matching row of the snapshot. *)
Definition update_where (t : Db) (p : DerivationId -> DerivationBuild -> bool)
    (f : DerivationBuild -> DerivationBuild) : Db :=
  set_anchors t (map_imap (fun d a => Some (if p d a then f a else a)) (t_anchors t)).

(** The rows it affects, with their columns before the update. *)
Definition affected (t : Db) (p : DerivationId -> DerivationBuild -> bool)
    : list (DerivationId * DerivationBuild) :=
  filter (fun x => p x.1 x.2 = true) (map_to_list (t_anchors t)).

Definition anchor_in (t : Db) (p : DerivationBuild -> bool) (d : DerivationId) : bool :=
  match t_anchors t !! d with Some a => p a | None => false end.

(** ** Predicates ([graph_sql.rs]) *)

(** The direct dependencies and dependents recorded for a derivation. *)
Definition dependencies_of (t : Db) (d : DerivationId) : list DerivationId :=
  map snd (List.filter (fun e => N.eqb e.1 d) (t_dependencies t)).

Definition dependents_of (t : Db) (d : DerivationId) : list DerivationId :=
  map fst (List.filter (fun e => N.eqb e.2 d) (t_dependencies t)).

(** A [cached_path] row with a stored NAR. *)
Definition hash_cached (t : Db) (h : string) : bool :=
  match t_cached_paths t !! h with Some cp => bool_decide (is_Some (cp_file_hash cp)) | None => false end.

Definition hash_closure_complete (t : Db) (h : string) : bool :=
  match t_cached_paths t !! h with Some cp => cp_closure_complete cp | None => false end.

Definition outputs_of (t : Db) (d : DerivationId) : list OutputRow :=
  List.filter (fun o => N.eqb (or_derivation o) d) (t_outputs t).

Definition sources_of (t : Db) (d : DerivationId) : list string :=
  map snd (List.filter (fun s => N.eqb s.1 d) (t_input_sources t)).

Definition drv_hashes_of (t : Db) (d : DerivationId) : list string :=
  map dr_hash (List.filter (fun r => N.eqb (dr_id r) d) (t_derivations t)).

(** One dependency anchor as the readiness predicate sees it. *)
Definition dep_ready (a : DerivationBuild) : bool :=
  (status_in TERMINAL_SUCCESS (db_status a) && db_closure_complete a) || db_substitutable a.

Definition deps_ready_predicate (t : Db) (d : DerivationId) : bool :=
  forallb (anchor_in t dep_ready) (dependencies_of t d) && forallb (hash_cached t) (sources_of t d).

Definition drv_nar_closure_complete_predicate (t : Db) (d : DerivationId) : bool :=
  existsb (hash_closure_complete t) (drv_hashes_of t d).

Definition drv_nar_absent_predicate (t : Db) (d : DerivationId) : bool :=
  negb (existsb (hash_cached t) (drv_hashes_of t d)).

(** [EXISTS (SELECT 1 FROM build_job bj WHERE bj.derivation = ...)] *)
Definition has_build_job (t : Db) (d : DerivationId) : bool :=
  existsb (fun j => N.eqb (bjr_derivation j) d) (t_build_jobs t).

Definition jobs_of_eval (t : Db) (ev : EvaluationId) : list BuildJobRow :=
  List.filter (fun j => N.eqb (bjr_evaluation j) ev) (t_build_jobs t).

(** ** Recursive walks *)

Inductive ClosureDirection := Dependencies | Dependents.

(** The recursive arm, over the edges [keep] admits. *)
Definition closure_step (t : Db) (dir : ClosureDirection) (keep : DerivationId -> bool)
    (work : gset DerivationId) : gset DerivationId :=
  list_to_set (omap (fun e =>
    match dir with
    | Dependencies => if bool_decide (e.1 ∈ work) && keep e.2 then Some e.2 else None
    | Dependents => if bool_decide (e.2 ∈ work) && keep e.1 then Some e.1 else None
    end) (t_dependencies t)).

(** Every derivation an edge names. *)
Definition edge_nodes (t : Db) : gset DerivationId :=
  list_to_set (map fst (t_dependencies t) ++ map snd (t_dependencies t)).

Definition dependency_closure_cte (t : Db) (dir : ClosureDirection) (keep : DerivationId -> bool)
    (seed : gset DerivationId) : gset DerivationId :=
  recursive_query (edge_nodes t) (closure_step t dir keep) seed.

Definition anywhere (_ : DerivationId) : bool := true.

Definition eval_closure_cte (t : Db) (ev : EvaluationId) : gset DerivationId :=
  dependency_closure_cte t Dependencies anywhere (list_to_set (map bjr_derivation (jobs_of_eval t ev))).

(** A sweep over the whole table or over one evaluation's closure. *)
Definition in_eval_scope (t : Db) (scope : option EvaluationId) (d : DerivationId) : bool :=
  match scope with None => true | Some ev => bool_decide (d ∈ eval_closure_cte t ev) end.

End tables.
