(* ===== verification/Promotion.v ===== *)
(** * Promotion, failure cascades and requeueing

    The statements of [backend/gradient-db/src/promotion.rs] that move anchors along
    the build graph and maintain their derived flags. Transitions are returned as
    [TransitionChange]s ([status/effects.rs]), as the callers fan their effects out. *)

From S2P Require Import Prelude Status Fixpoints ScoreContext JobData EdgeStream BuildGraph.

Record TransitionChange := { tc_derivation : DerivationId; tc_from : BuildStatus; tc_to : BuildStatus }.

Definition unchanged (d : DerivationId) (s : BuildStatus) : TransitionChange :=
  {| tc_derivation := d; tc_from := s; tc_to := s |}.

(** Statuses the dependency-failed transitions overwrite. *)
Definition PENDING : list BuildStatus := [BCreated; BQueued].
Definition CASCADE_TARGET : list BuildStatus := [BCreated; BQueued; BFailedTransient].

Section promotion.
Context `{Chrono}.

(** ** Promotion *)

(** Rows an update moves to [to], reported with the status they had. *)
Definition transitions_to (t : Db) (p : DerivationId -> DerivationBuild -> bool) (to : BuildStatus)
    : list TransitionChange :=
  map (fun x => {| tc_derivation := x.1; tc_from := db_status x.2; tc_to := to |}) (affected t p).

Definition move_where (t : Db) (now : NaiveDateTime) (p : DerivationId -> DerivationBuild -> bool)
    (to : BuildStatus) : Db * list TransitionChange :=
  (update_where t p (with_status to now), transitions_to t p to).

(** The promotion gate on an anchor of the table. *)
Definition promotable (t : Db) (d : DerivationId) (a : DerivationBuild) : bool :=
  bool_decide (db_status a = BCreated) && db_edges_complete a && has_build_job t d
  && (db_substitutable a || deps_ready_predicate t d).

Definition promote_where (t : Db) (now : NaiveDateTime) (among : DerivationId -> bool)
    : Db * list TransitionChange :=
  let p d a := among d && promotable t d a in
  (update_where t p (fun a => with_queued_at (Some now) (with_status BQueued now a)),
   transitions_to t p BQueued).

(** Dependents of [completed] with a terminally failed dependency. *)
Definition failed_dependent (t : Db) (completed d : DerivationId) (a : DerivationBuild) : bool :=
  status_in PENDING (db_status a) && bool_decide (d ∈ dependents_of t completed)
  && existsb (anchor_in t (fun dep => status_in TERMINAL_FAILURE (db_status dep))) (dependencies_of t d).

Definition promote_dependents (t : Db) (now : NaiveDateTime) (completed : DerivationId)
    : Db * list TransitionChange :=
  let '(t, failed) := move_where t now (failed_dependent t completed) BDependencyFailed in
  let '(t, promoted) := promote_where t now (fun d => bool_decide (d ∈ dependents_of t completed)) in
  (t, failed ++ promoted).

Definition promote_ready (t : Db) (now : NaiveDateTime) : Db * list TransitionChange :=
  promote_where t now anywhere.

(** The dispatch gate on an anchor of the table. *)
Definition dispatch_ready (t : Db) (d : DerivationId) (a : DerivationBuild) : bool :=
  bool_decide (db_status a = BQueued) && db_edges_complete a && has_build_job t d
  && (db_substitutable a
      || ((db_drv_closure_cached a || drv_nar_closure_complete_predicate t d) && deps_ready_predicate t d)).

(** Most dependencies first, then the longest unchanged. *)
Definition ready_order (t : Db) (x y : DerivationId * DerivationBuild) : comparison :=
  match Nat.compare (length (dependencies_of t y.1)) (length (dependencies_of t x.1)) with
  | Eq => datetime_cmp (db_updated_at x.2) (db_updated_at y.2)
  | c => c
  end.

Definition find_ready_anchors (t : Db) : list (DerivationId * DerivationBuild) :=
  sort_by (ready_order t) (affected t (dispatch_ready t)).

(** ** The derived flags *)

(** A dependency whose output closure can be had: complete in the cache, or upstream. *)
Definition dep_closure_ok (a : DerivationBuild) : bool := db_closure_complete a || db_substitutable a.

Definition closure_complete_gate (t : Db) (d : DerivationId) (a : DerivationBuild) : bool :=
  (bool_decide (db_status a = BCompleted) && db_edges_complete a
   && forallb (fun o => hash_cached t (or_hash o)) (outputs_of t d)
   && forallb (anchor_in t dep_closure_ok) (dependencies_of t d))
  || (bool_decide (db_status a = BSubstituted)
      && forallb (fun o => hash_cached t (or_hash o) && hash_closure_complete t (or_hash o)) (outputs_of t d)).

Definition DRV_CLOSURE_CACHED_GATE (t : Db) (d : DerivationId) (a : DerivationBuild) : bool :=
  db_edges_complete a && existsb (hash_cached t) (drv_hashes_of t d)
  && forallb (anchor_in t db_drv_closure_cached) (dependencies_of t d).

Definition anchor_keys (t : Db) : list DerivationId := elements (dom (t_anchors t)).

Definition anchor_flag (get : DerivationBuild -> bool) (set : bool -> DerivationBuild -> DerivationBuild)
    (gate : Db -> DerivationId -> DerivationBuild -> bool) : FlagColumn Db DerivationId := {|
  fc_keys := anchor_keys;
  fc_flag := fun t d => anchor_in t get d;
  fc_gate := fun t d => anchor_in t (gate t d) d;
  fc_assign := fun t p b => update_where t (fun d _ => p d) (set b);
|}.

(** [closure_complete_statements] and [drv_closure_cached_statements] *)
Definition closure_complete_column : FlagColumn Db DerivationId :=
  anchor_flag db_closure_complete with_closure_complete closure_complete_gate.

Definition drv_closure_cached_column : FlagColumn Db DerivationId :=
  anchor_flag db_drv_closure_cached with_drv_closure_cached DRV_CLOSURE_CACHED_GATE.

Definition reconcile_closure_complete (t : Db) (scope : option EvaluationId) : Db :=
  run_bidirectional_fixpoint closure_complete_column (fun t d => in_eval_scope t scope d) t.

Definition reconcile_drv_closure_cached (t : Db) (scope : option EvaluationId) : Db :=
  run_bidirectional_fixpoint drv_closure_cached_column (fun t d => in_eval_scope t scope d) t.

(** Rounds of [propagate_closure_complete]: the frontier's rows whose gate now holds are
    marked, and their dependents are the next frontier. *)
Fixpoint propagate_rounds (fuel : nat) (t : Db) (frontier : list DerivationId) : Db :=
  match fuel, frontier with
  | O, _ | _, [] => t
  | S fuel, _ =>
      let newly d a := bool_decide (d ∈ frontier) && negb (db_closure_complete a)
                       && closure_complete_gate t d a in
      let marked := map fst (affected t newly) in
      let t' := update_where t newly (with_closure_complete true) in
      match marked with
      | [] => t'
      | _ => propagate_rounds fuel t' (remove_dups (concat (map (dependents_of t') marked)))
      end
  end.

(** Every round but the last marks an anchor. *)
Definition propagate_closure_complete (t : Db) (completed : DerivationId) : Db :=
  propagate_rounds (S (length (anchor_keys t))) t
    (remove_dups (dependents_of t completed) ++ [completed]).

(** ** Failure cascades *)

Definition cascade_dependency_failed (t : Db) (now : NaiveDateTime) (failed : DerivationId)
    : Db * list TransitionChange :=
  let dependents := dependency_closure_cte t Dependents anywhere {[failed]} in
  move_where t now (fun d a =>
    status_in CASCADE_TARGET (db_status a) && bool_decide (d ∈ dependents) && negb (N.eqb d failed))
    BDependencyFailed.

(** The terminally failed anchors of the table, within the closure for a scoped sweep. *)
Definition failed_roots (t : Db) (scope : option EvaluationId) : gset DerivationId :=
  list_to_set (map fst (affected t (fun d a =>
    status_in TERMINAL_FAILURE (db_status a) && in_eval_scope t scope d))).

(** [dependency_failed_reconcile_sql]: the walk stays in the closure for a scoped sweep. *)
Definition reconcile_dependency_failed (t : Db) (now : NaiveDateTime) (scope : option EvaluationId)
    : Db * list TransitionChange :=
  let dependents := dependency_closure_cte t Dependents (in_eval_scope t scope) (failed_roots t scope) in
  move_where t now (fun d a =>
    status_in CASCADE_TARGET (db_status a) && bool_decide (d ∈ dependents) && in_eval_scope t scope d)
    BDependencyFailed.

(** ** Edges and requeueing *)

Definition mark_edges_complete_for_eval (t : Db) (ev : EvaluationId) : Db * nat :=
  let closure := eval_closure_cte t ev in
  let p d a := negb (db_edges_complete a) && negb (db_edges_unresolved a) && bool_decide (d ∈ closure)
    && (bool_decide (d ∈ map fst (t_dependencies t))
        || existsb (fun j => N.eqb (bjr_derivation j) d && N.eqb (bjr_evaluation j) ev) (t_build_jobs t)) in
  (update_where t p with_edges_complete, length (affected t p)).

(** The anchor has an attempt whose builder ran and exited non-zero. *)
Definition deterministic_build_failure (t : Db) (a : DerivationBuild) : bool :=
  existsb (fun ba => N.eqb (ba_derivation_build ba) (db_id a)
    && bool_decide (ba_outcome ba = AFailed) && bool_decide (ba_reason ba = Some RBuilderNonzero)) (t_attempts t).

(** [requeue_ctes]: the build closure of the candidates, and what a reproducible
    failure in it blocks. *)
Definition requeue_closure (t : Db) (seed : gset DerivationId) : gset DerivationId :=
  dependency_closure_cte t Dependencies anywhere seed.

Definition deterministic_blocked (t : Db) (closure : gset DerivationId) : gset DerivationId :=
  dependency_closure_cte t Dependents (fun d => bool_decide (d ∈ closure))
    (list_to_set (map fst (affected t (fun d a => bool_decide (d ∈ closure) && deterministic_build_failure t a)))).

Definition thaw (now : NaiveDateTime) (a : DerivationBuild) : DerivationBuild :=
  with_closure_complete false (with_attempt 0 (with_status BCreated now a)).

Definition requeue_where (t : Db) (now : NaiveDateTime) (seed : gset DerivationId)
    (among : DerivationId -> bool) : Db * nat :=
  let blocked := deterministic_blocked t (requeue_closure t seed) in
  let p d a := among d && status_in REQUEUEABLE (db_status a) && negb (bool_decide (d ∈ blocked)) in
  (update_where t p (thaw now), length (affected t p)).

Definition IN_CHUNK_SIZE : nat := Z.to_nat 30000.

(** One statement per chunk of ids. *)
Definition requeue_failed_anchors (t : Db) (now : NaiveDateTime) (derivations : list DerivationId)
    : Db * nat :=
  foldl (fun acc chunk =>
    let '(t', n) := requeue_where acc.1 now (list_to_set chunk) (fun d => bool_decide (d ∈ chunk)) in
    (t', acc.2 + n)) (t, 0) (chunks IN_CHUNK_SIZE derivations).

Definition requeue_failed_closure_for_eval (t : Db) (now : NaiveDateTime) (ev : EvaluationId) : Db * nat :=
  let seed := list_to_set (map bjr_derivation (jobs_of_eval t ev)) in
  requeue_where t now seed (fun d => bool_decide (d ∈ requeue_closure t seed)).

(** Anchors whose outputs are all in the cache become [Completed]. *)
Definition cached_anchor (t : Db) (ev : EvaluationId) (d : DerivationId) (a : DerivationBuild) : bool :=
  bool_decide (d ∈ eval_closure_cte t ev)
  && (negb (status_in TERMINAL_SUCCESS (db_status a)) || negb (db_closure_complete a))
  && match outputs_of t d with [] => false | _ => true end
  && forallb (fun o => hash_cached t (or_hash o)) (outputs_of t d).

Definition recompleted (a : DerivationBuild) : BuildStatus :=
  if status_in TERMINAL_SUCCESS (db_status a) then db_status a else BCompleted.

Definition reconcile_cached_anchors_for_eval (t : Db) (now : NaiveDateTime) (ev : EvaluationId)
    : Db * list TransitionChange :=
  (update_where t (cached_anchor t ev) (fun a =>
     with_edges_complete (with_closure_complete true (with_status (recompleted a) now a))),
   map (fun x => {| tc_derivation := x.1; tc_from := db_status x.2; tc_to := recompleted x.2 |})
     (affected t (cached_anchor t ev))).

End promotion.

(** * Lemmas on the build graph

    How updates, walks and gates read; the derived-flag columns satisfy the laws of
    [Fixpoints]; soundness of the walks. *)

Section graph_facts.
Context `{Chrono}.
Implicit Types (t : Db) (d : DerivationId) (a : DerivationBuild).

(** ** Updates *)

Lemma lookup_update_where t p f d :
  t_anchors (update_where t p f) !! d = (fun a => if p d a then f a else a) <$> t_anchors t !! d.
Proof. unfold update_where. simpl. rewrite map_lookup_imap. by destruct (t_anchors t !! d). Qed.

Lemma elem_of_affected t p d a :
  (d, a) ∈ affected t p <-> t_anchors t !! d = Some a /\ p d a = true.
Proof. unfold affected. rewrite list_elem_of_filter, elem_of_map_to_list. simpl. tauto. Qed.

Lemma elem_of_affected_keys t p d :
  d ∈ map fst (affected t p) <-> exists a, t_anchors t !! d = Some a /\ p d a = true.
Proof.
  rewrite list_elem_of_fmap. split.
  - intros ([d' a] & -> & Hx%elem_of_affected). eauto.
  - intros (a & Ha). exists (d, a). by rewrite elem_of_affected.
Qed.

Lemma anchor_in_true t p d : anchor_in t p d = true <-> exists a, t_anchors t !! d = Some a /\ p a = true.
Proof. unfold anchor_in. destruct (t_anchors t !! d); naive_solver. Qed.

Lemma elem_of_anchor_keys t d : d ∈ anchor_keys t <-> is_Some (t_anchors t !! d).
Proof. unfold anchor_keys. by rewrite elem_of_elements, elem_of_dom. Qed.

Lemma update_where_keys t p f : anchor_keys (update_where t p f) = anchor_keys t.
Proof.
  unfold anchor_keys. f_equal. apply dom_imap_L. intros d. rewrite elem_of_dom.
  split; [intros [a Ha]; eauto|naive_solver].
Qed.

(** Updates that leave the columns [p] reads alone. *)
Lemma anchor_in_update_where t q f p d :
  (forall a, p (f a) = p a) -> anchor_in (update_where t q f) p d = anchor_in t p d.
Proof.
  intros Hf. unfold anchor_in. rewrite lookup_update_where.
  destruct (t_anchors t !! d); simpl; [|done]. by destruct (q d d0).
Qed.

(** ** Walks *)

Definition edge t (dir : ClosureDirection) (keep : DerivationId -> bool) : relation DerivationId :=
  fun x y => match dir with
  | Dependencies => (x, y) ∈ t_dependencies t /\ keep y = true
  | Dependents => (y, x) ∈ t_dependencies t /\ keep y = true
  end.

(** [d] depends on [x]. *)
Definition depends t : relation DerivationId := fun d x => (d, x) ∈ t_dependencies t.

Lemma closure_spec t dir keep seed d :
  d ∈ dependency_closure_cte t dir keep seed <-> exists s, s ∈ seed /\ rtc (edge t dir keep) s d.
Proof.
  apply recursive_query_spec.
  - intros work y. unfold closure_step, edge. rewrite elem_of_list_to_set, list_elem_of_omap. split.
    + intros ([x z] & Hx & Heq). destruct dir; simpl in *; case_bool_decide; simpl in *;
        destruct (keep _) eqn:Hk; simplify_eq; eauto.
    + intros (x & Hw & Hx). destruct dir; destruct Hx as [Hx Hk].
      * exists (x, y). simpl. by rewrite bool_decide_eq_true_2, Hk.
      * exists (y, x). simpl. by rewrite bool_decide_eq_true_2, Hk.
  - intros x y Hx. unfold edge_nodes. rewrite elem_of_list_to_set, elem_of_app, !list_elem_of_fmap.
    destruct dir; destruct Hx as [Hx _]; [right; by exists (x, y)|left; by exists (y, x)].
Qed.

Lemma dependencies_walk t x y : rtc (edge t Dependencies anywhere) x y <-> rtc (depends t) x y.
Proof.
  split; induction 1 as [|??? Hx]; try constructor.
  - destruct Hx. eapply rtc_l; eauto.
  - eapply rtc_l; [|done]. by split.
Qed.

Lemma dependents_walk t x y : rtc (edge t Dependents anywhere) x y <-> rtc (depends t) y x.
Proof.
  split; induction 1 as [|??? Hx]; try constructor.
  - destruct Hx. eapply rtc_r; eauto.
  - eapply rtc_r; [done|]. by split.
Qed.

(** [d] is one of the derivations the evaluation references, or below one. *)
Lemma eval_closure_spec t ev d :
  d ∈ eval_closure_cte t ev <->
  exists j, j ∈ t_build_jobs t /\ bjr_evaluation j = ev /\ rtc (depends t) (bjr_derivation j) d.
Proof.
  unfold eval_closure_cte. rewrite closure_spec. setoid_rewrite dependencies_walk.
  setoid_rewrite elem_of_list_to_set. setoid_rewrite list_elem_of_fmap. unfold jobs_of_eval. split.
  - intros (s & (j & -> & Hj) & Hp). apply list_elem_of_In, filter_In in Hj as [Hj He%N.eqb_eq].
    exists j. rewrite list_elem_of_In. by split.
  - intros (j & Hj & <- & Hp). exists (bjr_derivation j). split; [|done]. exists j. split; [done|].
    apply list_elem_of_In, filter_In. rewrite N.eqb_refl. by rewrite <- list_elem_of_In.
Qed.

Lemma eval_closure_down t ev d x : d ∈ eval_closure_cte t ev -> depends t d x -> x ∈ eval_closure_cte t ev.
Proof.
  rewrite !eval_closure_spec. intros (j & Hj & He & Hp) Hd. exists j. split; [done|].
  split; [done|]. by eapply rtc_r.
Qed.

Lemma in_eval_scope_down t scope d x :
  in_eval_scope t scope d = true -> depends t d x -> in_eval_scope t scope x = true.
Proof.
  destruct scope as [ev|]; [|done]. unfold in_eval_scope. rewrite !bool_decide_eq_true.
  apply eval_closure_down.
Qed.

Lemma elem_of_dependencies_of t d x : x ∈ dependencies_of t d <-> depends t d x.
Proof.
  unfold dependencies_of, depends. rewrite list_elem_of_fmap. split.
  - intros ([d' x'] & -> & Hx). apply list_elem_of_In, filter_In in Hx as [Hx Hd%N.eqb_eq].
    simpl in *. subst. by apply list_elem_of_In.
  - intros Hx. exists (d, x). split; [done|]. apply list_elem_of_In, filter_In. simpl.
    rewrite N.eqb_refl. by rewrite <- list_elem_of_In.
Qed.

Lemma elem_of_dependents_of t d x : x ∈ dependents_of t d <-> depends t x d.
Proof.
  unfold dependents_of, depends. rewrite list_elem_of_fmap. split.
  - intros ([x' d'] & -> & Hx). apply list_elem_of_In, filter_In in Hx as [Hx Hd%N.eqb_eq].
    simpl in *. subst. by apply list_elem_of_In.
  - intros Hx. exists (x, d). split; [done|]. apply list_elem_of_In, filter_In. simpl.
    rewrite N.eqb_refl. by rewrite <- list_elem_of_In.
Qed.

Lemma forallb_dependencies t d (p : DerivationBuild -> bool) :
  forallb (anchor_in t p) (dependencies_of t d) = true <->
  forall x, depends t d x -> exists a, t_anchors t !! x = Some a /\ p a = true.
Proof.
  rewrite forallb_forall. setoid_rewrite <- list_elem_of_In. setoid_rewrite elem_of_dependencies_of.
  by setoid_rewrite anchor_in_true.
Qed.

(** ** Derived flags *)

Lemma anchor_in_self t p d a : t_anchors t !! d = Some a -> anchor_in t p d = p a.
Proof. unfold anchor_in. by intros ->. Qed.

(** What a column of flags needs for the sweeps to be exact. *)
Lemma anchor_flag_laws get set gate :
  (forall b a, get (set b a) = b) ->
  (forall t p d a, gate t d a = true ->
     gate (update_where t (fun d _ => p d) (set true)) d (if p d then set true a else a) = true) ->
  FlagLaws (anchor_flag get set gate).
Proof.
  intros Hget Hmono. split; simpl.
  - intros t p b. apply update_where_keys.
  - intros t p b d [a Ha]%elem_of_anchor_keys. unfold anchor_in. rewrite lookup_update_where, Ha. simpl.
    destruct (p d); [apply Hget|done].
  - intros t d (a & Ha & _)%anchor_in_true. apply elem_of_anchor_keys. eauto.
  - intros t p d (a & Ha & Hg)%anchor_in_true. unfold anchor_in. rewrite lookup_update_where, Ha. simpl.
    by apply Hmono.
  - intros t p b Hp. destruct t as [m ? ? ? ? ? ? ? ? ? ? ?]. unfold update_where, set_anchors. simpl. f_equal.
    apply map_eq. intros d. rewrite map_lookup_imap. simpl. destruct (m !! d) as [a|] eqn:E; [|done].
    simpl. rewrite Hp; [done|]. apply elem_of_anchor_keys. simpl. by rewrite E.
Qed.

End graph_facts.
