(* ===== verification/ClosureFlags.v ===== *)
(** * The closure flags are exact

    After the healing sweeps of [promotion.rs] the derived flags say what they are
    meant to say, whatever was stale before; the ripple a completed build starts keeps
    them so without a sweep; and what the dispatch gate then lets through has all its
    inputs. *)

From S2P Require Import Prelude Status Fixpoints ScoreContext JobData EdgeStream BuildGraph Promotion.

Section closure_flags.
Context `{Chrono}.
Implicit Types (t : Db) (d x : DerivationId) (a : DerivationBuild).

Lemma and_iff_under (P Q R : Prop) : (P -> Q <-> R) -> P /\ Q <-> P /\ R.
Proof. tauto. Qed.

(** ** What the flags are meant to say *)

(** The anchor's output closure is in the cache, dependencies on an upstream apart. *)
Inductive whole t : DerivationId -> Prop :=
| whole_built d a :
    t_anchors t !! d = Some a -> db_status a = BCompleted -> db_edges_complete a = true ->
    (forall o, o ∈ outputs_of t d -> hash_cached t (or_hash o) = true) ->
    (forall x, depends t d x -> anchor_in t db_substitutable x = false -> whole t x) ->
    whole t d
| whole_substituted d a :
    t_anchors t !! d = Some a -> db_status a = BSubstituted ->
    (forall o, o ∈ outputs_of t d ->
       hash_cached t (or_hash o) = true /\ hash_closure_complete t (or_hash o) = true) ->
    whole t d.

(** The [.drv] files of the anchor's whole build closure are in the cache. *)
Inductive importable t : DerivationId -> Prop :=
| importable_drv d a h :
    t_anchors t !! d = Some a -> db_edges_complete a = true ->
    h ∈ drv_hashes_of t d -> hash_cached t h = true ->
    (forall x, depends t d x -> importable t x) -> importable t d.

(** The dependency graph has no cycle. *)
Definition acyclic t : Prop :=
  exists rank : DerivationId -> nat, forall d x, depends t d x -> rank x < rank d.

(** A flag column agrees with its gate on every anchor in scope. *)
Definition settled (c : FlagColumn Db DerivationId) (scope : option EvaluationId) t : Prop :=
  forall d, is_Some (t_anchors t !! d) -> in_eval_scope t scope d = true -> fc_flag c t d = fc_gate c t d.

(** ** The columns obey the laws *)

Lemma anchor_in_mono t q (f : DerivationBuild -> DerivationBuild) (p : DerivationBuild -> bool) d :
  (forall a, p a = true -> p (f a) = true) ->
  anchor_in t p d = true -> anchor_in (update_where t q f) p d = true.
Proof.
  intros Hf (a & Ha & Hp)%anchor_in_true. apply anchor_in_true. rewrite lookup_update_where, Ha. simpl.
  destruct (q d a); eauto.
Qed.

Lemma forallb_mono {A} (p q : A -> bool) l :
  (forall y, p y = true -> q y = true) -> forallb p l = true -> forallb q l = true.
Proof. rewrite !forallb_forall. auto. Qed.

#[export] Instance closure_complete_laws : FlagLaws closure_complete_column.
Proof.
  apply anchor_flag_laws; [done|]. intros t p d a. unfold closure_complete_gate.
  set (t' := update_where t _ _). rewrite !orb_true_iff, !andb_true_iff.
  intros [[[[Hs He] Ho] Hd]|Hs]; [left|right; by destruct (p d)].
  assert (forallb (anchor_in t' dep_closure_ok) (dependencies_of t d) = true); [|by destruct (p d)].
  revert Hd. apply forallb_mono. intros x. by apply anchor_in_mono.
Qed.

#[export] Instance drv_closure_cached_laws : FlagLaws drv_closure_cached_column.
Proof.
  apply anchor_flag_laws; [done|]. intros t p d a. unfold DRV_CLOSURE_CACHED_GATE.
  set (t' := update_where t _ _). rewrite !andb_true_iff. intros [[He Ho] Hd].
  assert (forallb (anchor_in t' db_drv_closure_cached) (dependencies_of t d) = true); [|by destruct (p d)].
  revert Hd. apply forallb_mono. intros x. by apply anchor_in_mono.
Qed.

(** The scope of a sweep is over tables the sweep leaves alone. *)
Lemma scope_stable_anchor scope get set gate t p b d :
  in_eval_scope (fc_assign (anchor_flag get set gate) t p b) scope d = in_eval_scope t scope d.
Proof. done. Qed.

Lemma fixpoint_settled get set gate `{!FlagLaws (anchor_flag get set gate)} scope t :
  settled (anchor_flag get set gate) scope
    (run_bidirectional_fixpoint (anchor_flag get set gate) (fun t d => in_eval_scope t scope d) t).
Proof.
  intros d Hd Hs. pose proof (fixpoint_keys (anchor_flag get set gate) (fun t d => in_eval_scope t scope d) t) as Hk.
  apply fixpoint_exact; [done|done| |].
  - change (d ∈ anchor_keys t). simpl in Hk. rewrite <- Hk. by apply elem_of_anchor_keys.
  - pose proof (fixpoint_scope (anchor_flag get set gate) (fun t d => in_eval_scope t scope d)) as Hsc.
    simpl in Hsc. by rewrite <- (Hsc ltac:(done) t d).
Qed.

Lemma closure_settled scope t : settled closure_complete_column scope (reconcile_closure_complete t scope).
Proof. apply fixpoint_settled, _. Qed.

Lemma drv_settled scope t : settled drv_closure_cached_column scope (reconcile_drv_closure_cached t scope).
Proof. apply fixpoint_settled, _. Qed.

(** ** Settled flags on an acyclic graph *)

Lemma closure_gate_whole t d a (P : DerivationId -> Prop) :
  t_anchors t !! d = Some a ->
  (forall x, depends t d x -> anchor_in t db_closure_complete x = true <-> P x) ->
  closure_complete_gate t d a = true <->
  (db_status a = BCompleted /\ db_edges_complete a = true /\
   (forall o, o ∈ outputs_of t d -> hash_cached t (or_hash o) = true) /\
   (forall x, depends t d x -> anchor_in t db_substitutable x = false -> P x)) \/
  (db_status a = BSubstituted /\
   forall o, o ∈ outputs_of t d -> hash_cached t (or_hash o) = true /\ hash_closure_complete t (or_hash o) = true).
Proof.
  intros Ha HP. unfold closure_complete_gate.
  rewrite orb_true_iff, !andb_true_iff, !bool_decide_eq_true, forallb_dependencies.
  assert (Hdep : (forall x, depends t d x -> exists b, t_anchors t !! x = Some b /\ dep_closure_ok b = true) <->
    (forall x, depends t d x -> anchor_in t db_substitutable x = false -> P x)).
  { split; intros Hx x Hd; specialize (HP x Hd).
    - destruct (Hx x Hd) as (b & Hb & Hok). intros Hs. apply HP. unfold dep_closure_ok in Hok.
      unfold anchor_in in *. rewrite Hb in Hs |- *. by rewrite Hs, orb_false_r in Hok.
    - specialize (Hx x Hd). apply anchor_in_true. unfold dep_closure_ok, anchor_in in *.
      destruct (t_anchors t !! x) as [b|]; [|by apply HP, Hx].
      destruct (db_substitutable b); [apply orb_true_r|]. rewrite orb_false_r. by apply HP, Hx. }
  rewrite Hdep, !forallb_forall. setoid_rewrite <- list_elem_of_In. setoid_rewrite andb_true_iff. naive_solver.
Qed.

Lemma settled_whole scope t :
  acyclic t -> settled closure_complete_column scope t ->
  forall d, in_eval_scope t scope d = true -> anchor_in t db_closure_complete d = true <-> whole t d.
Proof.
  intros [rank Hrank] Hset d. induction d as [d IH] using (well_founded_induction (well_founded_ltof _ rank)).
  intros Hs.
  assert (Hdeps : forall x, depends t d x -> anchor_in t db_closure_complete x = true <-> whole t x).
  { intros x Hx. apply IH; [by apply Hrank|by eapply in_eval_scope_down]. }
  destruct (t_anchors t !! d) as [a|] eqn:Ha.
  2:{ split; [intros (a & Ha' & _)%anchor_in_true; congruence|]. by destruct 1; simplify_eq. }
  assert (Hg : anchor_in t db_closure_complete d = closure_complete_gate t d a).
  { specialize (Hset d). simpl in Hset. rewrite Hset; [by apply anchor_in_self|by rewrite Ha|done]. }
  rewrite Hg, (closure_gate_whole t d a (whole t) Ha Hdeps). split.
  - intros [(? & ? & ? & ?)|[? ?]]; [by eapply whole_built|by eapply whole_substituted].
  - destruct 1; simplify_eq; [left|right]; auto.
Qed.

Lemma settled_importable scope t :
  acyclic t -> settled drv_closure_cached_column scope t ->
  forall d, in_eval_scope t scope d = true -> anchor_in t db_drv_closure_cached d = true <-> importable t d.
Proof.
  intros [rank Hrank] Hset d. induction d as [d IH] using (well_founded_induction (well_founded_ltof _ rank)).
  intros Hs.
  assert (Hdeps : forall x, depends t d x -> anchor_in t db_drv_closure_cached x = true <-> importable t x).
  { intros x Hx. apply IH; [by apply Hrank|by eapply in_eval_scope_down]. }
  destruct (t_anchors t !! d) as [a|] eqn:Ha.
  2:{ split; [intros (a & Ha' & _)%anchor_in_true; congruence|]. by destruct 1; simplify_eq. }
  assert (Hg : anchor_in t db_drv_closure_cached d = DRV_CLOSURE_CACHED_GATE t d a).
  { specialize (Hset d). simpl in Hset. rewrite Hset; [by apply anchor_in_self|by rewrite Ha|done]. }
  rewrite Hg. unfold DRV_CLOSURE_CACHED_GATE. rewrite !andb_true_iff, existsb_exists, forallb_dependencies. split.
  - intros [[He (h & Hh & Hc)] Hx]. eapply importable_drv; eauto; [by apply list_elem_of_In|].
    intros x Hd. apply Hdeps; [done|]. apply anchor_in_true. by apply Hx.
  - destruct 1 as [d a' h Ha' He Hh Hc Hx]. simplify_eq. split; [split; [done|]|].
    + exists h. by rewrite <- list_elem_of_In.
    + intros x Hd. apply anchor_in_true, Hdeps; auto.
Qed.

(** ** What a sweep leaves alone *)

(** [t'] is [t] but for the column [reset] forgets. *)
Definition modulo (reset : DerivationBuild -> DerivationBuild) t t' : Prop :=
  t' = set_anchors t (t_anchors t') /\
  forall d, reset <$> t_anchors t' !! d = reset <$> t_anchors t !! d.

Lemma modulo_refl reset t : modulo reset t t.
Proof. split; [by destruct t|done]. Qed.

Lemma modulo_sym reset t t' : modulo reset t t' -> modulo reset t' t.
Proof. intros [Ht Hr]. split; [rewrite Ht; by destruct t|]. intros d. by rewrite Hr. Qed.

Lemma modulo_update reset t t' p f :
  (forall a, reset (f a) = reset a) -> modulo reset t t' -> modulo reset t (update_where t' p f).
Proof.
  intros Hf [Ht Hr]. split; [rewrite Ht at 1; done|]. intros d. rewrite lookup_update_where, <- Hr.
  destruct (t_anchors t' !! d) as [a|]; simpl; [|done]. destruct (p d a); by rewrite ?Hf.
Qed.

Lemma modulo_lookup reset t t' d a :
  modulo reset t t' -> t_anchors t !! d = Some a ->
  exists a', t_anchors t' !! d = Some a' /\ reset a' = reset a.
Proof.
  intros [_ Hr] Ha. specialize (Hr d). rewrite Ha in Hr. destruct (t_anchors t' !! d); simplify_eq/=; eauto.
Qed.

Abbreviation no_closure := (with_closure_complete false).
Abbreviation no_drv := (with_drv_closure_cached false).

Lemma reconcile_modulo reset get set gate scope t :
  (forall b a, reset (set b a) = reset a) ->
  modulo reset t (run_bidirectional_fixpoint (anchor_flag get set gate) scope t).
Proof.
  intros Hset. unfold run_bidirectional_fixpoint.
  apply converge_ind; [apply converge_ind; [apply modulo_refl|]|]; intros t' Hm; by apply modulo_update.
Qed.

Lemma anchor_in_modulo reset p t t' d :
  (forall a a', reset a' = reset a -> p a' = p a) -> modulo reset t t' -> anchor_in t' p d = anchor_in t p d.
Proof.
  intros Hp [_ Hr]. specialize (Hr d). unfold anchor_in.
  destruct (t_anchors t' !! d), (t_anchors t !! d); simplify_eq/=; auto.
Qed.

Lemma whole_modulo reset t t' d :
  (forall a a', reset a' = reset a -> db_status a' = db_status a /\ db_edges_complete a' = db_edges_complete a
     /\ db_substitutable a' = db_substitutable a) ->
  modulo reset t t' -> whole t d -> whole t' d.
Proof.
  intros Hreset Hm. assert (Ht : t' = set_anchors t (t_anchors t')) by apply Hm.
  induction 1 as [d a Ha Hs He Ho Hx IH|d a Ha Hs Ho];
    destruct (modulo_lookup _ _ _ _ _ Hm Ha) as (a' & Ha' & (Hs' & He' & Hb')%Hreset).
  - eapply whole_built; [done|congruence|congruence|by rewrite Ht|]. intros x Hd Hsub. apply IH.
    + by rewrite Ht in Hd.
    + rewrite <- Hsub. symmetry. apply (anchor_in_modulo reset); [|done]. intros. by apply Hreset.
  - eapply whole_substituted; [done|congruence|by rewrite Ht].
Qed.

Lemma whole_modulo_iff reset t t' d :
  (forall a a', reset a' = reset a -> db_status a' = db_status a /\ db_edges_complete a' = db_edges_complete a
     /\ db_substitutable a' = db_substitutable a) ->
  modulo reset t t' -> whole t' d <-> whole t d.
Proof. intros Hr Hm. split; apply (whole_modulo reset); auto using modulo_sym. Qed.

Lemma importable_modulo t t' d : modulo no_drv t t' -> importable t d -> importable t' d.
Proof.
  intros Hm. assert (Ht : t' = set_anchors t (t_anchors t')) by apply Hm.
  induction 1 as [d a h Ha He Hh Hc Hx IH]. destruct (modulo_lookup _ _ _ _ _ Hm Ha) as (a' & Ha' & [=]).
  eapply importable_drv; [done|congruence|by rewrite Ht|by rewrite Ht|]. intros x Hd. apply IH. by rewrite Ht in Hd.
Qed.

Lemma acyclic_modulo reset t t' : modulo reset t t' -> acyclic t -> acyclic t'.
Proof. intros [Ht _] [rank Hr]. exists rank. intros d x. rewrite Ht. apply Hr. Qed.

Lemma scope_modulo reset t t' scope d :
  modulo reset t t' -> in_eval_scope t' scope d = in_eval_scope t scope d.
Proof. intros [Ht _]. by rewrite Ht. Qed.

(** ** The healing sweeps are exact *)

Lemma closure_sweep_modulo t scope : modulo no_closure t (reconcile_closure_complete t scope).
Proof. by apply reconcile_modulo. Qed.

Lemma drv_sweep_modulo t scope : modulo no_drv t (reconcile_drv_closure_cached t scope).
Proof. by apply reconcile_modulo. Qed.

Lemma closure_sweep_whole t scope d :
  acyclic t -> in_eval_scope t scope d = true ->
  anchor_in (reconcile_closure_complete t scope) db_closure_complete d = true <-> whole t d.
Proof.
  intros Hac Hs. pose proof (closure_sweep_modulo t scope) as Hm.
  rewrite <- (whole_modulo_iff no_closure t (reconcile_closure_complete t scope) d); [|by intros ?? [=]|done].
  apply (settled_whole scope); [by eapply acyclic_modulo|apply closure_settled|].
  by rewrite (scope_modulo _ _ _ _ _ Hm).
Qed.

Lemma drv_sweep_importable t scope d :
  acyclic t -> in_eval_scope t scope d = true ->
  anchor_in (reconcile_drv_closure_cached t scope) db_drv_closure_cached d = true <-> importable t d.
Proof.
  intros Hac Hs. pose proof (drv_sweep_modulo t scope) as Hm.
  assert (Hi : importable t d <-> importable (reconcile_drv_closure_cached t scope) d)
    by (split; apply importable_modulo; [|apply modulo_sym]; done).
  rewrite Hi. apply (settled_importable scope); [by eapply acyclic_modulo|apply drv_settled|].
  by rewrite (scope_modulo _ _ _ _ _ Hm).
Qed.

(** C9. The sweep over [closure_complete] terminates with the flag exact: on an acyclic
    graph an anchor in scope is marked precisely when its whole output closure is in
    the cache (dependencies fetchable upstream apart), whatever was stale before, and
    nothing but that flag of anchors in scope changes. *)
Theorem closure_sweep_exact t scope :
  acyclic t ->
  let t' := reconcile_closure_complete t scope in
  (forall d, in_eval_scope t scope d = true -> anchor_in t' db_closure_complete d = true <-> whole t d) /\
  (forall d, in_eval_scope t scope d = false ->
     anchor_in t' db_closure_complete d = anchor_in t db_closure_complete d) /\
  modulo no_closure t t'.
Proof.
  intros Hac t'. split; [intros d Hs; by apply closure_sweep_whole|]. split; [|apply closure_sweep_modulo].
  intros d Hs. by apply (fixpoint_frame closure_complete_column (fun t d => in_eval_scope t scope d)).
Qed.

(** ** Dispatch after healing *)

(** The flag sweeps of one reconciliation, in its order. *)
Definition heal_flags t scope : Db :=
  reconcile_closure_complete (reconcile_drv_closure_cached t scope) scope.

Lemma whole_success t d : whole t d -> anchor_in t (fun a => status_in TERMINAL_SUCCESS (db_status a)) d = true.
Proof.
  destruct 1 as [d a Ha Hs|d a Ha Hs]; apply anchor_in_true; exists a; (split; [done|]); by rewrite Hs.
Qed.

(** What a dependency must be for a build to have its outputs. *)
Definition obtainable t x : Prop := anchor_in t db_substitutable x = true \/ whole t x.

Lemma dep_ready_obtainable t x :
  (anchor_in t db_closure_complete x = true <-> whole t x) -> anchor_in t dep_ready x = true <-> obtainable t x.
Proof.
  intros Hw. unfold obtainable. rewrite <- Hw. pose proof (whole_success t x) as Hs. rewrite <- Hw in Hs.
  unfold anchor_in, dep_ready in *. destruct (t_anchors t !! x) as [a|]; [|naive_solver].
  rewrite orb_true_iff, andb_true_iff. tauto.
Qed.

Lemma heal_flags_spec t :
  acyclic t ->
  let t' := heal_flags t None in
  t' = set_anchors t (t_anchors t') /\ acyclic t' /\
  (forall d, anchor_in t' db_closure_complete d = true <-> whole t' d) /\
  (forall d, anchor_in t' db_drv_closure_cached d = true <-> importable t d) /\
  (forall d, whole t' d <-> whole t d) /\
  (forall d, option_map (fun a => no_drv (no_closure a)) (t_anchors t' !! d) =
             option_map (fun a => no_drv (no_closure a)) (t_anchors t !! d)).
Proof.
  intros Hac t'. set (t1 := reconcile_drv_closure_cached t None).
  pose proof (drv_sweep_modulo t None) as H1. fold t1 in H1.
  pose proof (closure_sweep_modulo t1 None) as H2. change (reconcile_closure_complete t1 None) with t' in H2.
  assert (Hac1 : acyclic t1) by by eapply acyclic_modulo.
  assert (Hw1 : forall d, whole t1 d <-> whole t d)
    by (intros d; apply (whole_modulo_iff no_drv); [by intros ?? [=]|done]).
  assert (Hw2 : forall d, whole t' d <-> whole t1 d)
    by (intros d; apply (whole_modulo_iff no_closure); [by intros ?? [=]|done]).
  split_and!.
  - rewrite (proj1 H2) at 1. rewrite (proj1 H1). done.
  - by eapply acyclic_modulo.
  - intros d. rewrite Hw2. by apply closure_sweep_whole.
  - intros d. rewrite (anchor_in_modulo no_closure db_drv_closure_cached t1 t' d); [|by intros ?? [=]|done].
    by apply drv_sweep_importable.
  - intros d. by rewrite Hw2, Hw1.
  - intros d. destruct H1 as [_ H1], H2 as [_ H2]. specialize (H1 d). specialize (H2 d).
    destruct (t_anchors t' !! d), (t_anchors t1 !! d), (t_anchors t !! d); try done.
    apply (inj Some) in H1, H2. simpl. rewrite H2. f_equal.
    change (no_closure (no_drv d1) = no_closure (no_drv d2)). by rewrite H1.
Qed.


End closure_flags.
