(* ===== verification/Cascade.v ===== *)
(** * The ripple of a completion

    [propagate_closure_complete] of [promotion.rs]: a finished build re-evaluates its
    own closure flag and then, round by round, those of the anchors above it. It marks
    exactly what a sweep over the whole table would mark. *)

From S2P Require Import Prelude Status Fixpoints ScoreContext JobData EdgeStream BuildGraph Promotion ClosureFlags.

Section ripple.
Context `{Chrono}.
Implicit Types (t : Db) (d x : DerivationId) (a : DerivationBuild).

Lemma forallb_elem_ext {A} (p q : A -> bool) l :
  (forall y, y ∈ l -> p y = q y) -> forallb p l = forallb q l.
Proof.
  induction l as [|y l IH]; intros Hpq; simpl; [done|]. rewrite Hpq by constructor.
  f_equal. apply IH. intros z Hz. apply Hpq. by constructor.
Qed.

(** Only anchors of the frontier can have a gate that holds and no flag. *)
Definition pending t (frontier : list DerivationId) : Prop :=
  forall d a, t_anchors t !! d = Some a -> closure_complete_gate t d a = true ->
    db_closure_complete a = true \/ d ∈ frontier.

(** No flag is set where the gate fails. *)
Definition sound t : Prop :=
  forall d a, t_anchors t !! d = Some a -> db_closure_complete a = true -> closure_complete_gate t d a = true.

(** The anchors one round marks. *)
Definition newly t (frontier : list DerivationId) d a : bool :=
  bool_decide (d ∈ frontier) && negb (db_closure_complete a) && closure_complete_gate t d a.

Definition marked t frontier : Db := update_where t (newly t frontier) (with_closure_complete true).

Lemma marked_modulo t frontier : modulo (with_closure_complete false) t (marked t frontier).
Proof. by apply modulo_update, modulo_refl. Qed.

(** A gate only changes when a dependency was marked. *)
Lemma gate_unmarked t frontier d a a' :
  with_closure_complete false a' = with_closure_complete false a ->
  (forall x b, depends t d x -> t_anchors t !! x = Some b -> newly t frontier x b = false) ->
  closure_complete_gate (marked t frontier) d a' = closure_complete_gate t d a.
Proof.
  intros Hr Hx. assert (Hs : db_status a' = db_status a) by (by injection Hr).
  assert (He : db_edges_complete a' = db_edges_complete a) by (by injection Hr). unfold closure_complete_gate.
  assert (Hd : forallb (anchor_in (marked t frontier) dep_closure_ok) (dependencies_of t d) =
               forallb (anchor_in t dep_closure_ok) (dependencies_of t d)).
  { apply forallb_elem_ext. intros x Hd%elem_of_dependencies_of. unfold anchor_in, marked.
    rewrite lookup_update_where. destruct (t_anchors t !! x) as [b|] eqn:E; simpl; [|done].
    by rewrite (Hx x b). }
  change (dependencies_of (marked t frontier) d) with (dependencies_of t d). rewrite Hd.
  change (outputs_of (marked t frontier) d) with (outputs_of t d).
  by rewrite Hs, He.
Qed.

Lemma newly_marks t frontier d a :
  pending t frontier -> t_anchors t !! d = Some a -> closure_complete_gate t d a = true ->
  newly t frontier d a = negb (db_closure_complete a).
Proof.
  intros Hp Ha Hg. unfold newly. rewrite Hg, andb_true_r. destruct (Hp d a Ha Hg) as [Hf|Hin].
  - by rewrite Hf, andb_false_r.
  - by rewrite bool_decide_eq_true_2.
Qed.

Lemma gate_marked_mono t frontier d a a' :
  with_closure_complete false a' = with_closure_complete false a ->
  closure_complete_gate t d a = true -> closure_complete_gate (marked t frontier) d a' = true.
Proof.
  intros Hr. assert (Hs : db_status a' = db_status a) by (by injection Hr).
  assert (He : db_edges_complete a' = db_edges_complete a) by (by injection Hr). unfold closure_complete_gate.
  change (dependencies_of (marked t frontier) d) with (dependencies_of t d).
  change (outputs_of (marked t frontier) d) with (outputs_of t d).
  rewrite Hs, He, !orb_true_iff, !andb_true_iff. intros [[? Hd]|?]; [left; split; [done|]|by right].
  revert Hd. apply forallb_mono. intros x. by apply anchor_in_mono.
Qed.

Lemma lookup_marked t frontier d a' :
  t_anchors (marked t frontier) !! d = Some a' ->
  exists a, t_anchors t !! d = Some a /\
    a' = if newly t frontier d a then with_closure_complete true a else a.
Proof.
  unfold marked. rewrite lookup_update_where. destruct (t_anchors t !! d) as [a|]; simpl; [|done].
  intros [= <-]. eauto.
Qed.

Lemma marked_sound t frontier : sound t -> sound (marked t frontier).
Proof.
  intros Hs d a' (a & Ha & ->)%lookup_marked Hf. destruct (newly t frontier d a) eqn:E.
  - apply (gate_marked_mono _ _ _ a); [done|]. unfold newly in E. by apply andb_true_iff in E as [_ E].
  - apply (gate_marked_mono _ _ _ a); [done|]. by apply Hs.
Qed.

(** After a round only dependents of what it marked are left over. *)
Lemma marked_pending t frontier :
  pending t frontier ->
  pending (marked t frontier)
    (remove_dups (concat (map (dependents_of (marked t frontier)) (map fst (affected t (newly t frontier)))))).
Proof.
  intros Hp d a' (a & Ha & Heq)%lookup_marked Hg. rewrite elem_of_remove_dups.
  destruct (newly t frontier d a) eqn:E; [left; by rewrite Heq|].
  assert (Hr : with_closure_complete false a' = with_closure_complete false a) by (by subst).
  destruct (closure_complete_gate t d a) eqn:Egate.
  { left. rewrite (newly_marks t frontier d a Hp Ha Egate) in E. subst. by destruct (db_closure_complete a). }
  right. destruct (existsb (fun x => anchor_in t (newly t frontier x) x) (dependencies_of t d)) eqn:Ex.
  - apply existsb_exists in Ex as (x & Hx%list_elem_of_In%elem_of_dependencies_of & (b & Hb & Hn)%anchor_in_true).
    apply list_elem_of_In, in_concat. exists (dependents_of (marked t frontier) x). split.
    + apply in_map, list_elem_of_In, elem_of_affected_keys. eauto.
    + by apply list_elem_of_In, elem_of_dependents_of.
  - exfalso. rewrite (gate_unmarked t frontier d a a') in Hg; [congruence|done|].
    intros x b Hx Hb. apply not_true_is_false. intros Hn. apply not_true_iff_false in Ex. apply Ex.
    apply existsb_exists. exists x. split; [by apply list_elem_of_In, elem_of_dependencies_of|].
    apply anchor_in_true. eauto.
Qed.

(** ** The rounds terminate with nothing left over *)

Definition unflagged t : nat := count_flags closure_complete_column false t.

Lemma marked_unflagged t frontier :
  map fst (affected t (newly t frontier)) <> [] -> unflagged (marked t frontier) < unflagged t.
Proof.
  intros Hne. destruct (map fst (affected t (newly t frontier))) as [|d l] eqn:E; [done|].
  assert (Hd : d ∈ map fst (affected t (newly t frontier))) by (rewrite E; constructor).
  apply elem_of_affected_keys in Hd as (a & Ha & Hn). unfold unflagged, count_flags. simpl.
  change (anchor_keys (marked t frontier)) with (anchor_keys (update_where t (newly t frontier) (with_closure_complete true))).
  rewrite update_where_keys. apply (filter_length_lt _ _ _ d).
  - intros x _. unfold anchor_in, marked. rewrite lookup_update_where.
    destruct (t_anchors t !! x) as [b|]; simpl; [|done]. by destruct (newly t frontier x b).
  - apply elem_of_anchor_keys. eauto.
  - rewrite (anchor_in_self _ _ _ _ Ha). unfold newly in Hn. by destruct (db_closure_complete a), (bool_decide _).
  - unfold anchor_in, marked. rewrite lookup_update_where, Ha. simpl. by rewrite Hn.
Qed.

Lemma propagate_rounds_step fuel t d frontier :
  propagate_rounds (S fuel) t (d :: frontier) =
  match map fst (affected t (newly t (d :: frontier))) with
  | [] => marked t (d :: frontier)
  | _ => propagate_rounds fuel (marked t (d :: frontier))
           (remove_dups (concat (map (dependents_of (marked t (d :: frontier)))
              (map fst (affected t (newly t (d :: frontier)))))))
  end.
Proof. done. Qed.

Lemma propagate_rounds_pending fuel t frontier :
  pending t frontier -> unflagged t < fuel -> pending (propagate_rounds fuel t frontier) [].
Proof.
  revert t frontier. induction fuel as [|fuel IH]; intros t frontier Hp Hf; [lia|].
  destruct frontier as [|d frontier]; [done|]. rewrite propagate_rounds_step.
  pose proof (marked_pending _ _ Hp) as Hm. pose proof (marked_unflagged t (d :: frontier)) as Hlt.
  destruct (map fst (affected t (newly t (d :: frontier)))) as [|x l]; [done|].
  apply IH; [done|]. specialize (Hlt ltac:(done)). lia.
Qed.

Lemma propagate_rounds_ind (P : Db -> Prop) fuel t frontier :
  P t -> (forall t frontier, P t -> P (marked t frontier)) -> P (propagate_rounds fuel t frontier).
Proof.
  intros Ht Hs. revert t frontier Ht. induction fuel as [|fuel IH]; intros t frontier Ht; [done|].
  destruct frontier as [|d frontier]; [done|]. rewrite propagate_rounds_step.
  destruct (map fst _); auto.
Qed.

Lemma propagate_modulo t completed :
  modulo (with_closure_complete false) t (propagate_closure_complete t completed).
Proof.
  unfold propagate_closure_complete. apply propagate_rounds_ind; [apply modulo_refl|].
  intros t' fr Hm. by apply modulo_update.
Qed.

Lemma propagate_settled t completed :
  sound t -> pending t (completed :: dependents_of t completed) ->
  settled closure_complete_column None (propagate_closure_complete t completed).
Proof.
  intros Hs Hp d [a Ha] _. simpl. rewrite !(anchor_in_self _ _ _ _ Ha).
  assert (Hs' : sound (propagate_closure_complete t completed))
    by (unfold propagate_closure_complete; apply propagate_rounds_ind; [done|]; intros; by apply marked_sound).
  assert (Hp' : pending (propagate_closure_complete t completed) []).
  { apply propagate_rounds_pending.
    - intros x b Hb Hg. destruct (Hp x b Hb Hg) as [|Hx]; [by left|right].
      rewrite elem_of_app, elem_of_remove_dups. apply elem_of_cons in Hx as [->|Hx]; [right; constructor|by left].
    - unfold unflagged, count_flags. simpl.
      pose proof (length_filter (fun k => anchor_in t db_closure_complete k = false) (anchor_keys t)). lia. }
  destruct (db_closure_complete a) eqn:Ef; [symmetry; by apply Hs'|].
  destruct (closure_complete_gate _ d a) eqn:Eg; [|done].
  destruct (Hp' d a Ha Eg) as [Hf|Hin]; [congruence|by apply elem_of_nil in Hin].
Qed.

(** ** A completion *)

(** Writing a status touches no other anchor's gate. *)
Definition completed_row t now d s : Db :=
  update_where t (fun x _ => N.eqb x d) (with_status s now).

Lemma gate_completed_row t now d s x a :
  closure_complete_gate (completed_row t now d s) x a = closure_complete_gate t x a.
Proof.
  unfold closure_complete_gate. change (dependencies_of (completed_row t now d s) x) with (dependencies_of t x).
  rewrite (forallb_elem_ext (anchor_in (completed_row t now d s) dep_closure_ok) (anchor_in t dep_closure_ok));
    [done|]. intros y _. by apply anchor_in_update_where.
Qed.

(** C11. The ripple of a completion is a whole sweep: when the closure flags agree with
    their gates and an unflagged anchor takes a new status, the rounds over it and its
    dependents terminate with every anchor of the table marked precisely when its
    output closure is whole, and change nothing but that flag. *)
Theorem completion_ripple_exact t now d a s :
  acyclic t -> settled closure_complete_column None t ->
  t_anchors t !! d = Some a -> db_closure_complete a = false ->
  let t1 := completed_row t now d s in
  let t2 := propagate_closure_complete t1 d in
  (forall x, anchor_in t2 db_closure_complete x = true <-> whole t2 x) /\
  modulo (with_closure_complete false) t1 t2.
Proof.
  intros Hac Hset Ha Hf t1 t2. split; [|apply propagate_modulo].
  assert (Hac2 : acyclic t2) by (eapply acyclic_modulo; [apply propagate_modulo|exact Hac]).
  intros x. apply (settled_whole None); [done| |done]. apply propagate_settled.
  - intros y b Hb Hfl. unfold t1 in *. rewrite gate_completed_row.
    unfold completed_row in Hb. rewrite lookup_update_where in Hb.
    destruct (t_anchors t !! y) as [c|] eqn:Hc; simplify_eq/=.
    destruct (N.eqb_spec y d) as [->|Hne]; simplify_eq/=; [congruence|].
    specialize (Hset y). simpl in Hset. rewrite !(anchor_in_self _ _ _ _ Hc), Hfl in Hset.
    by rewrite <- Hset by (by rewrite ?Hc).
  - intros y b Hb Hg. unfold t1 in *. rewrite gate_completed_row in Hg.
    unfold completed_row in Hb. rewrite lookup_update_where in Hb.
    destruct (t_anchors t !! y) as [c|] eqn:Hc; simplify_eq/=.
    destruct (N.eqb_spec y d) as [->|Hne]; [right; constructor|left].
    specialize (Hset y). simpl in Hset. rewrite !(anchor_in_self _ _ _ _ Hc) in Hset.
    by rewrite Hset by (by rewrite ?Hc).
Qed.

End ripple.

(** * Failure cascades and thaws

    [cascade_dependency_failed], [reconcile_dependency_failed] and the requeueing
    statements of [promotion.rs]: who is failed with a failed dependency, who is given
    another chance, and that the two do not undo each other. *)

Section cascade.
Context `{Chrono}.
Implicit Types (t : Db) (d x r : DerivationId) (a : DerivationBuild).

(** An anchor whose status is in a set. *)
Definition has_status t (set : list BuildStatus) d : Prop :=
  exists a, t_anchors t !! d = Some a /\ db_status a ∈ set.

(** [d] has a terminally failed anchor below it. *)
Definition poisoned t d : Prop := exists r, tc (depends t) d r /\ has_status t TERMINAL_FAILURE r.

(** No pending anchor waits above a terminal failure. *)
Definition clean t : Prop := forall d, has_status t CASCADE_TARGET d -> ~ poisoned t d.

Lemma move_where_lookup t now p to d :
  t_anchors (move_where t now p to).1 !! d =
  (fun a => if p d a then with_status to now a else a) <$> t_anchors t !! d.
Proof. apply lookup_update_where. Qed.

(** The rows a cascade from [failed] moves. *)
Lemma cascade_moves t failed d a :
  t_anchors t !! d = Some a ->
  status_in CASCADE_TARGET (db_status a)
  && bool_decide (d ∈ dependency_closure_cte t Dependents anywhere {[failed]}) && negb (N.eqb d failed) = true
  <-> db_status a ∈ CASCADE_TARGET /\ tc (depends t) d failed /\ d <> failed.
Proof.
  intros Ha. rewrite !andb_true_iff, status_in_spec, bool_decide_eq_true, negb_true_iff, N.eqb_neq, closure_spec.
  setoid_rewrite dependents_walk. split.
  - intros [[Hs (s & ->%elem_of_singleton & Hr)] Hne]. split_and!; [done| |done]. by apply rtc_tc in Hr as [|].
  - intros (Hs & Hr & Hne). split_and!; [done| |done]. exists failed. split; [by apply elem_of_singleton|by apply tc_rtc].
Qed.

Lemma has_status_moved t now p to set d :
  has_status (move_where t now p to).1 set d ->
  has_status t set d \/ (exists a, t_anchors t !! d = Some a /\ p d a = true /\ to ∈ set).
Proof.
  intros (a' & Ha' & Hs). rewrite move_where_lookup in Ha'. destruct (t_anchors t !! d) as [a|] eqn:Ha; simplify_eq/=.
  destruct (p d a) eqn:Hp; [right; exists a; by rewrite Hp|left; exists a; done].
Qed.

Lemma has_status_kept t now p to set d a :
  t_anchors t !! d = Some a -> p d a = false -> db_status a ∈ set -> has_status (move_where t now p to).1 set d.
Proof. intros Ha Hp Hs. exists a. by rewrite move_where_lookup, Ha; simpl; rewrite Hp. Qed.

(** Moving pending rows to [DependencyFailed] cleans the table when every poisoned
    pending row is moved, and whatever is moved is itself poisoned. *)
Lemma moved_clean t now p :
  (forall d a, t_anchors t !! d = Some a -> p d a = true -> poisoned t d) ->
  (forall d a, t_anchors t !! d = Some a -> db_status a ∈ CASCADE_TARGET -> poisoned t d -> p d a = true) ->
  clean (move_where t now p BDependencyFailed).1.
Proof.
  intros Hsound Hall d Hd (r & Hr & Hf).
  assert (Hdt : has_status t CASCADE_TARGET d /\ forall a, t_anchors t !! d = Some a -> p d a = false).
  { destruct Hd as (a' & Ha' & Hs). rewrite move_where_lookup in Ha'.
    destruct (t_anchors t !! d) as [a|] eqn:Ha; simplify_eq/=. destruct (p d a) eqn:Hp.
    - exfalso. simpl in Hs. by apply status_in_spec in Hs.
    - split; [exists a; done|]. intros ? [= <-]. done. }
  destruct Hdt as [(a & Ha & Hs) Hp]. specialize (Hp a Ha).
  assert (Hpd : poisoned t d); [|rewrite (Hall d a Ha Hs Hpd) in Hp; discriminate].
  apply has_status_moved in Hf as [Hf|(b & Hb & Hpb & _)]; [by exists r|].
  destruct (Hsound r b Hb Hpb) as (r' & Hr' & Hf). exists r'. split; [|done]. by eapply tc_transitive.
Qed.

(** ** The reactive cascade *)

Lemma poisoned_completed_row t now failed s a d :
  t_anchors t !! failed = Some a ->
  poisoned (completed_row t now failed s) d -> poisoned t d \/ tc (depends t) d failed.
Proof.
  intros Ha (r & Hr & (b & Hb & Hs)). unfold completed_row in Hb. rewrite lookup_update_where in Hb.
  destruct (t_anchors t !! r) as [c|] eqn:Hc; simplify_eq/=. destruct (N.eqb_spec r failed) as [->|Hne]; [by right|].
  left. exists r. split; [done|]. by exists c.
Qed.


(** ** The sweep over every failure *)

Lemma elem_of_failed_roots t scope r :
  r ∈ failed_roots t scope <-> has_status t TERMINAL_FAILURE r /\ in_eval_scope t scope r = true.
Proof.
  unfold failed_roots, has_status. rewrite elem_of_list_to_set, elem_of_affected_keys.
  setoid_rewrite andb_true_iff. setoid_rewrite status_in_spec. naive_solver.
Qed.

Lemma in_eval_scope_below t scope d r :
  in_eval_scope t scope d = true -> rtc (depends t) d r -> in_eval_scope t scope r = true.
Proof. intros Hd Hr. induction Hr as [d|d y r Hx _ IH]; [done|]. apply IH. by eapply in_eval_scope_down. Qed.

(** Walking up within a scope: the walk of a scoped sweep is the whole walk cut to it. *)
Lemma scoped_walk t scope r d :
  in_eval_scope t scope r = true ->
  rtc (edge t Dependents (in_eval_scope t scope)) r d <-> rtc (depends t) d r /\ in_eval_scope t scope d = true.
Proof.
  intros Hr. split.
  - induction 1 as [r|r y d [Hx Hy] _ IH]; [split; [constructor|done]|]. destruct (IH Hy) as [Hp Hs].
    split; [|done]. by eapply rtc_r.
  - intros [Hp Hs]. revert Hs. clear Hr. induction Hp as [d|d y r Hx Hp IH]; intros Hs; [constructor|].
    eapply rtc_r; [apply IH; by eapply in_eval_scope_down|]. by split.
Qed.

Lemma sweep_moves t scope d a :
  t_anchors t !! d = Some a ->
  status_in CASCADE_TARGET (db_status a)
  && bool_decide (d ∈ dependency_closure_cte t Dependents (in_eval_scope t scope) (failed_roots t scope))
  && in_eval_scope t scope d = true
  <-> db_status a ∈ CASCADE_TARGET /\ in_eval_scope t scope d = true /\ poisoned t d.
Proof.
  intros Ha. rewrite !andb_true_iff, status_in_spec, bool_decide_eq_true, closure_spec. split.
  - intros [[Hs (r & [Hf Hrs]%elem_of_failed_roots & Hr)] Hd]. split_and!; [done..|].
    apply scoped_walk in Hr as [Hr _]; [|done]. exists r. split; [|done].
    apply rtc_tc in Hr as [->|Hr]; [|done]. exfalso. destruct Hf as (b & Hb & Hf). rewrite Ha in Hb. injection Hb as <-.
    destruct (db_status a); apply status_in_spec in Hs, Hf; discriminate.
  - intros (Hs & Hd & (r & Hr & Hf)). split; [split|]; [done| |done]. exists r.
    assert (Hrs : in_eval_scope t scope r = true).
      by (eapply in_eval_scope_below; [done|by apply tc_rtc]).
    split; [by apply elem_of_failed_roots|]. apply scoped_walk; [done|]. split; [by apply tc_rtc|done].
Qed.

Lemma sweep_clean t now : clean (reconcile_dependency_failed t now None).1.
Proof.
  apply moved_clean.
  - intros d a Ha Hp. by apply sweep_moves in Hp as (_ & _ & Hp).
  - intros d a Ha Hs Hp. by apply sweep_moves.
Qed.

(** A sweep of a clean table moves nothing. *)
Lemma sweep_clean_noop t now : clean t -> (reconcile_dependency_failed t now None).2 = [].
Proof.
  intros Hc. unfold reconcile_dependency_failed, move_where, transitions_to. simpl.
  match goal with |- map _ ?l = [] => destruct l as [|[d a] l'] eqn:E; [done|exfalso] end.
  assert (Hin : (d, a) ∈ (d, a) :: l') by constructor. rewrite <- E in Hin.
  apply elem_of_affected in Hin as [Ha Hp]. apply sweep_moves in Hp as (Hs & _ & Hp); [|done].
  apply (Hc d); [by exists a|done].
Qed.

Lemma failure_sweep_frame t now scope d a :
  t_anchors t !! d = Some a ->
  t_anchors (reconcile_dependency_failed t now scope).1 !! d = Some a \/
  (db_status a ∈ CASCADE_TARGET /\ in_eval_scope t scope d = true /\ poisoned t d).
Proof.
  intros Ha. unfold reconcile_dependency_failed. rewrite move_where_lookup, Ha. simpl.
  match goal with |- context [if ?c then _ else _] => destruct c eqn:E end; [right|by left].
  by apply sweep_moves in E.
Qed.

(** The sweep fails exactly the pending anchors in scope that sit above a terminal
    failure. Over the whole table it leaves none, and a second sweep moves nothing. *)
Theorem failure_sweep_exact t now scope :
  let t' := (reconcile_dependency_failed t now scope).1 in
  (forall d a, t_anchors t !! d = Some a ->
     (db_status a ∈ CASCADE_TARGET -> in_eval_scope t scope d = true -> poisoned t d ->
        t_anchors t' !! d = Some (with_status BDependencyFailed now a)) /\
     (~ (db_status a ∈ CASCADE_TARGET /\ in_eval_scope t scope d = true /\ poisoned t d) ->
        t_anchors t' !! d = Some a)) /\
  (scope = None -> clean t' /\ forall now', (reconcile_dependency_failed t' now' None).2 = []).
Proof.
  intros t'. split.
  - intros d a Ha. unfold t', reconcile_dependency_failed. rewrite move_where_lookup, Ha. simpl.
    pose proof (sweep_moves t scope d a Ha) as Hm. split; intros Hx.
    + intros Hs Hp. by rewrite (proj2 Hm).
    + match goal with |- context [if ?c then _ else _] => destruct c eqn:E end; [exfalso; by apply Hx, Hm|done].
  - intros ->. split; [apply sweep_clean|]. intros now'. apply sweep_clean_noop, sweep_clean.
Qed.

(** ** Thawing *)

(** The anchors of the evaluation's closure that a reproducible failure blocks. *)
Definition blocked t ev d : Prop :=
  exists r b, d ∈ eval_closure_cte t ev /\ r ∈ eval_closure_cte t ev /\ rtc (depends t) d r /\
    t_anchors t !! r = Some b /\ deterministic_build_failure t b = true.

Lemma blocked_spec t ev d :
  d ∈ deterministic_blocked t (eval_closure_cte t ev) <-> blocked t ev d.
Proof.
  pose proof (scoped_walk t (Some ev)) as Hw. unfold in_eval_scope in Hw.
  unfold deterministic_blocked, blocked. rewrite closure_spec. split.
  - intros (r & Hr & Hp). apply elem_of_list_to_set, elem_of_affected_keys in Hr as (b & Hb & Hr).
    apply andb_true_iff in Hr as [Hr Hdet]. exists r, b. apply Hw in Hp as [Hp Hd]; [|done].
    rewrite bool_decide_eq_true in Hr, Hd. done.
  - intros (r & b & Hd & Hr & Hp & Hb & Hdet). exists r. split.
    + apply elem_of_list_to_set, elem_of_affected_keys. exists b. by rewrite bool_decide_eq_true_2, Hdet.
    + apply Hw; by rewrite ?bool_decide_eq_true.
Qed.

Definition thawed t ev d a : Prop :=
  d ∈ eval_closure_cte t ev /\ db_status a ∈ REQUEUEABLE /\ ~ blocked t ev d.

Lemma requeue_closure_lookup t now ev d :
  t_anchors (requeue_failed_closure_for_eval t now ev).1 !! d =
  (fun a => if bool_decide (d ∈ eval_closure_cte t ev) && status_in REQUEUEABLE (db_status a)
               && negb (bool_decide (d ∈ deterministic_blocked t (eval_closure_cte t ev)))
            then thaw now a else a) <$> t_anchors t !! d.
Proof. apply lookup_update_where. Qed.

Lemma thawed_spec t ev d a :
  bool_decide (d ∈ eval_closure_cte t ev) && status_in REQUEUEABLE (db_status a)
  && negb (bool_decide (d ∈ deterministic_blocked t (eval_closure_cte t ev))) = true <-> thawed t ev d a.
Proof.
  unfold thawed. rewrite !andb_true_iff, negb_true_iff, bool_decide_eq_true, bool_decide_eq_false, blocked_spec, status_in_spec.
  tauto.
Qed.

(** Thawing an evaluation's closure resets exactly its failed and aborted anchors that
    no reproducible build failure blocks, and the failure sweep that follows never fails
    one of them again, so thaw and sweep cannot oscillate. *)
Theorem thaw_survives_sweep t now now' ev :
  let t1 := (requeue_failed_closure_for_eval t now ev).1 in
  forall d a, t_anchors t !! d = Some a ->
    (thawed t ev d a ->
       t_anchors t1 !! d = Some (thaw now a) /\
       forall scope,
         t_anchors (reconcile_dependency_failed t1 now' scope).1 !! d = Some (thaw now a)) /\
    (~ thawed t ev d a -> t_anchors t1 !! d = Some a).
Proof.
  intros t1 d a Ha. assert (Hl := requeue_closure_lookup t now ev d). fold t1 in Hl.
  rewrite Ha in Hl. cbn [fmap option_fmap option_map] in Hl.
  pose proof (thawed_spec t ev d a) as Hth. split.
  2:{ intros Hn. rewrite Hl. match goal with |- context [if ?c then _ else _] => destruct c eqn:E end; [|done].
      exfalso. by apply Hn, Hth. }
  intros Ht. rewrite (proj2 Hth Ht) in Hl. split; [done|]. intros scope.
  destruct (failure_sweep_frame t1 now' scope d (thaw now a) Hl) as [Hk|(Hs & Hsc & r & Hr & (b & Hb & Hf))]; [done|exfalso].
  destruct Ht as (Hd & _ & Hnb). apply Hnb.
  assert (Hr1 : tc (depends t) d r) by exact Hr.
  assert (Hrc : r ∈ eval_closure_cte t ev).
  { apply (bool_decide_eq_true (r ∈ eval_closure_cte t ev)), (in_eval_scope_below t (Some ev) d);
      [by apply bool_decide_eq_true|by apply tc_rtc]. }
  unfold t1 in Hb. rewrite requeue_closure_lookup in Hb. destruct (t_anchors t !! r) as [c|] eqn:Hc; simplify_eq/=.
  destruct (_ && _ && _) eqn:E in Hf; [by apply status_in_spec in Hf|].
  assert (Hblk : blocked t ev r).
  { apply blocked_spec. destruct (decide (r ∈ deterministic_blocked t (eval_closure_cte t ev))) as [|Hn]; [done|].
    rewrite (bool_decide_eq_true_2 _ Hrc), (bool_decide_eq_false_2 _ Hn), andb_true_r in E. simpl in E.
    exfalso. destruct (db_status c); try discriminate; by apply status_in_spec in Hf. }
  destruct Hblk as (r' & b' & _ & Hr' & Hp & Hb' & Hdet). exists r', b'. split_and!; [done|done| |done|done].
  etrans; [by apply tc_rtc|done].
Qed.

End cascade.
