(* ===== verification/Transitions.v ===== *)
(** * Status transitions and their consequences

    [backend/gradient-db/src/status/]: guarded transitions of anchors and evaluations,
    the one emitter their consequences go through, graph-derived finalization and the
    abort of an evaluation; and the startup recovery of [recovery.rs].

    Board events, forge checks and dependency-count deltas are a log in the order they
    are sent. The dispatch of a forge check runs in a spawned task; the log records
    that it was started. *)

From S2P Require Import Prelude Status Fixpoints ScoreContext JobData EdgeStream BuildGraph Promotion.

Section transitions.
Context `{Chrono}.

Inductive Event :=
| DepCountDelta (d : DerivationId) (from to : BuildStatus)
| BuildStatusChanged (ev : EvaluationId) (build : N) (status : BuildStatus)
| CiBuildStatus (build : N) (status : BuildStatus)
| CacheChanged
| EvaluationStatusChanged (ev : EvaluationId) (status : EvaluationStatus)
| CiEvalStatus (ev : EvaluationId) (status : EvaluationStatus)
| EvaluationProgress (ev : EvaluationId)
| ForceEvaluation (project : ProjectId)
| BuildLogAppended (attempt : N) (text : string)
| SubstituteLog (build : DerivationBuildId) (d : DerivationId)
| EvalCacheDeleted (fingerprint : string)
| AbortSent (worker job_id : string)
| DrvRecovery (ev : EvaluationId)
| EvaluationGc (project : ProjectId) (keep : nat).

Record Store := { st_db : Db; st_events : list Event }.

Definition send (w : Store) (es : list Event) : Store :=
  {| st_db := st_db w; st_events := st_events w ++ es |}.

Definition on_db (w : Store) (t : Db) : Store := {| st_db := t; st_events := st_events w |}.

(** ** Attempts ([build_attempt.rs]) *)

(** The attempts of an anchor in creation order. *)
Definition attempts_of (t : Db) (b : DerivationBuildId) : list AttemptRow :=
  List.filter (fun ba => N.eqb (ba_derivation_build ba) b) (t_attempts t).

Definition latest_attempt (t : Db) (b : DerivationBuildId) : option AttemptRow := last (attempts_of t b).

Definition update_attempt (t : Db) (id : N) (f : AttemptRow -> AttemptRow) : Db :=
  set_attempts t (map (fun ba => if N.eqb (ba_id ba) id then f ba else ba) (t_attempts t)).

Definition finish_attempt (ba : AttemptRow) : AttemptRow := {|
  ba_id := ba_id ba; ba_build_job := ba_build_job ba; ba_derivation_build := ba_derivation_build ba;
  ba_outcome := ba_outcome ba; ba_reason := ba_reason ba; ba_finished := true;
  ba_failure_message := ba_failure_message ba |}.

Definition with_outcome (o : AttemptOutcome) (r : option AttemptFailureReason) (ba : AttemptRow) : AttemptRow := {|
  ba_id := ba_id ba; ba_build_job := ba_build_job ba; ba_derivation_build := ba_derivation_build ba;
  ba_outcome := o; ba_reason := r; ba_finished := true; ba_failure_message := ba_failure_message ba |}.

Definition with_failure (o : AttemptOutcome) (r : option AttemptFailureReason) (message : option string)
    (ba : AttemptRow) : AttemptRow := {|
  ba_id := ba_id ba; ba_build_job := ba_build_job ba; ba_derivation_build := ba_derivation_build ba;
  ba_outcome := o; ba_reason := r; ba_finished := true; ba_failure_message := message |}.

Definition stamp_attempt_finished (t : Db) (b : DerivationBuildId) : Db :=
  match latest_attempt t b with Some att => update_attempt t (ba_id att) finish_attempt | None => t end.

Definition fail_latest_attempt (t : Db) (b : DerivationBuildId) (o : AttemptOutcome)
    (r : option AttemptFailureReason) (message : option string) : Db :=
  match latest_attempt t b with Some att => update_attempt t (ba_id att) (with_failure o r message) | None => t end.

Definition inputs_unavailable_attempt_count (t : Db) (b : DerivationBuildId) : Z :=
  Z.of_nat (length (List.filter (fun ba => bool_decide (ba_reason ba = Some RInputsUnavailable)) (attempts_of t b))).

(** [SubstituteUnavailable] attempts of an anchor under one evaluation's build jobs. *)
Definition substitute_miss_counts (t : Db) (b : DerivationBuildId) (ev : EvaluationId) : Z :=
  Z.of_nat (length (List.filter (fun ba =>
    bool_decide (ba_reason ba = Some RSubstituteUnavailable)
    && existsb (fun j => bool_decide (ba_build_job ba = Some (bjr_id j))) (jobs_of_eval t ev)) (attempts_of t b))).

(** ** Evaluations *)

Definition with_eval_status (s : EvaluationStatus) (now : NaiveDateTime) (e : EvaluationRow) : EvaluationRow := {|
  ev_project := ev_project e; ev_status := s; ev_kind := ev_kind e;
  ev_waiting_reason := match s with EWaiting => ev_waiting_reason e | _ => None end;
  ev_updated_at := now |}.

(** [snapshot] is the row the caller read; the update itself only goes through while the
    stored row is not terminal. *)
Definition update_evaluation_status (w : Store) (now : NaiveDateTime) (ev : EvaluationId)
    (snapshot : EvaluationRow) (status : EvaluationStatus) : Store :=
  match validate_eval (ev_status snapshot) status with
  | Err _ => w
  | Ok _ =>
      match t_evaluations (st_db w) !! ev with
      | None => w
      | Some row =>
          if eval_is_terminal (ev_status row) then w
          else send (on_db w (set_evaluations (st_db w)
                 (<[ev := with_eval_status status now row]> (t_evaluations (st_db w)))))
                 [EvaluationStatusChanged ev status; CiEvalStatus ev status]
      end
  end.

(** ... with an error message recorded first, unless the snapshot is terminal. *)
Definition add_message (t : Db) (ev : EvaluationId) (l : MessageLevel) : Db := {|
  t_anchors := t_anchors t; t_derivations := t_derivations t; t_dependencies := t_dependencies t;
  t_build_jobs := t_build_jobs t; t_outputs := t_outputs t; t_input_sources := t_input_sources t;
  t_cached_paths := t_cached_paths t; t_references := t_references t; t_attempts := t_attempts t;
  t_evaluations := t_evaluations t; t_messages := t_messages t ++ [(ev, l)];
  t_entry_points := t_entry_points t |}.

Definition update_evaluation_status_with_error (w : Store) (now : NaiveDateTime) (ev : EvaluationId)
    (snapshot : EvaluationRow) (status : EvaluationStatus) : Store :=
  if eval_is_terminal (ev_status snapshot) then w
  else update_evaluation_status (on_db w (add_message (st_db w) ev MError)) now ev snapshot status.

(** ** Finalization ([eval_finalize.rs]) *)

Definition build_is_active (s : BuildStatus) : bool :=
  match s with BCreated | BQueued | BBuilding | BFailedTransient => true | _ => false end.

(** The anchors of an evaluation's build jobs, by anchor id. *)
Definition eval_anchors (t : Db) (ev : EvaluationId) : list (DerivationId * DerivationBuild) :=
  affected t (fun _ a => existsb (fun j => N.eqb (bjr_derivation_build j) (db_id a)) (jobs_of_eval t ev)).

Definition eval_anchor_statuses (t : Db) (ev : EvaluationId) : list BuildStatus :=
  map (fun x => db_status x.2) (eval_anchors t ev).

Definition eval_has_errors (t : Db) (ev : EvaluationId) : bool :=
  existsb (fun m => N.eqb m.1 ev && match m.2 with MError => true | _ => false end) (t_messages t).

Definition eval_verdict (t : Db) (ev : EvaluationId) : EvaluationStatus :=
  if negb (existsb is_terminal_failure (eval_anchor_statuses t ev)) && negb (eval_has_errors t ev)
  then ECompleted else EFailed.

Definition check_evaluation_done (w : Store) (now : NaiveDateTime) (ev : EvaluationId) : Store :=
  if existsb build_is_active (eval_anchor_statuses (st_db w) ev) then w
  else
    match t_evaluations (st_db w) !! ev with
    | None => w
    | Some e =>
        match ev_status e with
        | EBuilding => update_evaluation_status w now ev e (eval_verdict (st_db w) ev)
        | _ => w
        end
    end.

Definition evals_referencing (t : Db) (d : DerivationId) : list EvaluationId :=
  remove_dups (map bjr_evaluation (List.filter (fun j => N.eqb (bjr_derivation j) d) (t_build_jobs t))).

Definition finalize_evals (w : Store) (now : NaiveDateTime) (evs : list EvaluationId) : Store :=
  foldl (fun w ev => check_evaluation_done w now ev) w evs.

Definition finalize_evals_for_derivations (w : Store) (now : NaiveDateTime) (ds : list DerivationId) : Store :=
  finalize_evals w now (remove_dups (concat (map (evals_referencing (st_db w)) ds))).

(** ** The effects emitter ([effects.rs]) *)

Definition ci_reports (s : BuildStatus) : bool :=
  match s with BQueued | BBuilding => true | _ => build_is_terminal s end.

Definition jobs_by_drv (t : Db) (d : DerivationId) : list BuildJobRow :=
  List.filter (fun j => N.eqb (bjr_derivation j) d) (t_build_jobs t).

Definition job_events (t : Db) (c : TransitionChange) (j : BuildJobRow) : list Event :=
  BuildStatusChanged (bjr_evaluation j) (bjr_id j) (tc_to c) ::
  (if ci_reports (tc_to c) && bool_decide ((bjr_evaluation j, bjr_derivation j) ∈ t_entry_points t)
   then [CiBuildStatus (bjr_id j) (tc_to c)] else []).

Definition is_move (c : TransitionChange) : bool := negb (bool_decide (tc_from c = tc_to c)).

Definition change_events (t : Db) (changes : list TransitionChange) : list Event :=
  map (fun c => DepCountDelta (tc_derivation c) (tc_from c) (tc_to c)) (List.filter is_move changes)
  ++ concat (map (fun c => concat (map (job_events t c) (jobs_by_drv t (tc_derivation c)))) changes)
  ++ (if existsb (fun c => is_terminal_success (tc_to c) && is_move c) changes then [CacheChanged] else []).

(** The evaluations a terminal transition may have settled. *)
Definition terminal_evals (t : Db) (changes : list TransitionChange) : list EvaluationId :=
  remove_dups (concat (map (fun c => map bjr_evaluation (jobs_by_drv t (tc_derivation c)))
    (List.filter (fun c => build_is_terminal (tc_to c)) changes))).

Definition emit_transition_effects (w : Store) (now : NaiveDateTime) (changes : list TransitionChange) : Store :=
  match changes with
  | [] => w
  | _ => finalize_evals (send w (change_events (st_db w) changes)) now (terminal_evals (st_db w) changes)
  end.

(** A statement that moves anchors, with its consequences. *)
Definition move_and_emit (w : Store) (now : NaiveDateTime) (f : Db -> Db * list TransitionChange) : Store :=
  let '(t, changes) := f (st_db w) in emit_transition_effects (on_db w t) now changes.

(** ** Anchor transitions ([derivation_build_status.rs]) *)

(** The columns the single-row update sets on the anchor of [d]. *)
Definition write_status (t : Db) (now : NaiveDateTime) (d : DerivationId) (snapshot : DerivationBuild)
    (status : BuildStatus) : Db :=
  update_where t (fun x _ => N.eqb x d) (fun a =>
    let a := with_status status now a in
    match status, db_queued_at snapshot with
    | BQueued, None => with_queued_at (Some now) a
    | _, _ => a
    end).

(** [anchor] is the row the caller read for [d]. *)
Definition update_derivation_build_status (w : Store) (now : NaiveDateTime) (d : DerivationId)
    (anchor : DerivationBuild) (status : BuildStatus) : Store :=
  if bool_decide (db_status anchor = status) then w
  else
    match validate_build (db_status anchor) status with
    | Err _ => w
    | Ok _ =>
        let t := if build_is_terminal status then stamp_attempt_finished (st_db w) (db_id anchor) else st_db w in
        match t_anchors t !! d with
        | None => on_db w t
        | Some _ =>
            let w := move_and_emit (on_db w t) now (fun t =>
              (write_status t now d anchor status,
               [{| tc_derivation := d; tc_from := db_status anchor; tc_to := status |}])) in
            let w := if is_terminal_success status
              then move_and_emit (on_db w (propagate_closure_complete (st_db w) d)) now
                     (fun t => promote_dependents t now d)
              else w in
            if is_terminal_failure status
            then move_and_emit w now (fun t => cascade_dependency_failed t now d)
            else w
        end
    end.

(** [notify_build_status_for_derivations] *)
Definition notify_build_status_for_derivations (w : Store) (now : NaiveDateTime) (ds : list DerivationId) : Store :=
  emit_transition_effects w now
    (map (fun x => unchanged x.1 (db_status x.2)) (affected (st_db w) (fun d _ => bool_decide (d ∈ ds)))).

(** ** Abort ([abort.rs]) *)

Definition gate_evaluation_aborting (t : Db) (now : NaiveDateTime) (ev : EvaluationId) : Db :=
  match t_evaluations t !! ev with
  | Some e =>
      if eval_is_terminal (ev_status e) then t
      else set_evaluations t (<[ev := {|
             ev_project := ev_project e; ev_status := EWaiting; ev_kind := ev_kind e;
             ev_waiting_reason := Some WAborting; ev_updated_at := now |}]> (t_evaluations t))
  | None => t
  end.

(** Anchors that a non-terminal evaluation other than [this_eval] needs. *)
Definition shared_anchor (t : Db) (this_eval : EvaluationId) (b : DerivationBuildId) : bool :=
  existsb (fun j => N.eqb (bjr_derivation_build j) b && negb (N.eqb (bjr_evaluation j) this_eval)
    && match t_evaluations t !! bjr_evaluation j with
       | Some e => negb (eval_is_terminal (ev_status e)) | None => false end) (t_build_jobs t).

Definition abortable (t : Db) (ev : EvaluationId) (a : DerivationBuild) : bool :=
  existsb (fun j => N.eqb (bjr_derivation_build j) (db_id a)) (jobs_of_eval t ev)
  && match db_status a with BCreated | BQueued | BBuilding => true | _ => false end
  && negb (shared_anchor t ev (db_id a)).

Definition abort_running_attempts (t : Db) (ids : list DerivationBuildId) : Db :=
  set_attempts t (map (fun ba =>
    if bool_decide (ba_derivation_build ba ∈ ids) && negb (ba_finished ba)
    then with_outcome AAborted (ba_reason ba) ba else ba) (t_attempts t)).

Definition abort_eval_anchors (w : Store) (now : NaiveDateTime) (ev : EvaluationId) : Store :=
  let t := st_db w in
  match affected t (fun _ a => abortable t ev a) with
  | [] => w
  | to_abort =>
      let building := map (fun x => db_id x.2)
        (List.filter (fun x => bool_decide (db_status x.2 = BBuilding)) to_abort) in
      let w := move_and_emit w now (fun t => move_where t now (fun _ a => abortable t ev a) BAborted) in
      send (on_db w (abort_running_attempts (st_db w) building)) [EvaluationProgress ev]
  end.

Definition db_abort_evaluation (w : Store) (now : NaiveDateTime) (ev : EvaluationId) (snapshot : EvaluationRow)
    : Store :=
  if eval_is_terminal (ev_status snapshot) then w
  else
    let w := on_db w (gate_evaluation_aborting (st_db w) now ev) in
    let w := abort_eval_anchors w now ev in
    update_evaluation_status w now ev snapshot EAborted.

(** ** Startup recovery ([recovery.rs]) *)

Definition pre_build (s : EvaluationStatus) : bool :=
  match s with EFetching | EEvaluatingFlake | EEvaluatingDerivation => true | _ => false end.

Definition interrupted_evals (t : Db) : gmap EvaluationId EvaluationRow :=
  filter (fun x => pre_build (ev_status x.2) = true) (t_evaluations t).

Definition abort_interrupted (now : NaiveDateTime) (e : EvaluationRow) : EvaluationRow :=
  if pre_build (ev_status e)
  then {| ev_project := ev_project e; ev_status := EAborted; ev_kind := ev_kind e;
          ev_waiting_reason := ev_waiting_reason e; ev_updated_at := now |}
  else e.

(** Anchors [evals] drove that no live evaluation needs. *)
Definition abandoned (t : Db) (evals : list EvaluationId) (a : DerivationBuild) : bool :=
  match db_status a with BCreated | BQueued | BBuilding => true | _ => false end
  && existsb (fun j => N.eqb (bjr_derivation_build j) (db_id a) && bool_decide (bjr_evaluation j ∈ evals)) (t_build_jobs t)
  && negb (existsb (fun j => N.eqb (bjr_derivation_build j) (db_id a)
       && match t_evaluations t !! bjr_evaluation j with
          | Some e => negb (eval_is_terminal (ev_status e)) | None => false end) (t_build_jobs t)).

Definition recover_interrupted_work (w : Store) (now : NaiveDateTime) : Store :=
  let t := st_db w in
  let t := set_attempts t (map (fun ba =>
    if bool_decide (ba_outcome ba = ARunning) then with_outcome AAborted (ba_reason ba) ba else ba) (t_attempts t)) in
  let t := update_where t (fun _ a => bool_decide (db_status a = BBuilding)) (with_status BQueued now) in
  let inflight := interrupted_evals t in
  let evals := map fst (map_to_list inflight) in
  let t := set_evaluations t (abort_interrupted now <$> t_evaluations t) in
  let t := update_where t (fun _ a => abandoned t evals a) (with_status BAborted now) in
  send (on_db w t) (map ForceEvaluation (remove_dups (omap (fun x => ev_project x.2) (map_to_list inflight)))).

End transitions.
