(* ===== verification/Healing.v ===== *)
(** * Healing the build graph

    [backend/gradient-db/src/reconcile.rs], the one pipeline every repair runs through,
    with the cache side of it from [cache_storage.rs]: demotion of outputs whose bytes
    are gone and the [cached_path.closure_complete] flag; and
    [gradient-scheduler/src/build/self_heal.rs].

    [nar_exists h] is what probing the NAR storage for [h] answers, [None] when the probe
    fails. Every database statement succeeds; the code logs a failing step and runs the
    remaining ones. *)

From S2P Require Import Prelude RustStr Status Fixpoints ScoreContext JobData EdgeStream BuildGraph Promotion Transitions.

Section healing.
Context `{Chrono}.

(** ** Demotion ([cache_storage.rs]) *)

Definition preserve_missing_artifact (has_producer object_present : bool) : bool :=
  negb has_producer && object_present.

Definition demoted_output (o : OutputRow) : OutputRow := {|
  or_derivation := or_derivation o; or_name := or_name o; or_hash := or_hash o;
  or_package := or_package o; or_is_cached := false; or_external_url := None |}.

Definition outputs_with_hash (t : Db) (h : string) : list OutputRow :=
  List.filter (fun o => String.eqb (or_hash o) h) (t_outputs t).

(** A trusted producer becomes a fresh build intent. *)
Definition demoted_anchor (now : NaiveDateTime) (a : DerivationBuild) : DerivationBuild :=
  with_substitution false false (thaw now a).

Definition demote_cached_output (t : Db) (now : NaiveDateTime) (nar_exists : string -> option bool)
    (h : string) : Db * list DerivationId :=
  let producers := map or_derivation (outputs_with_hash t h) in
  let t := set_outputs t (map (fun o => if String.eqb (or_hash o) h then demoted_output o else o) (t_outputs t)) in
  let has_producer := match producers with [] => false | _ => true end in
  let object_present := negb has_producer && default true (nar_exists h) in
  if preserve_missing_artifact has_producer object_present then (t, producers)
  else
    let t := update_where t (fun d a => bool_decide (d ∈ producers) && status_in TERMINAL_SUCCESS (db_status a))
               (demoted_anchor now) in
    (set_cached_paths t (delete h (t_cached_paths t)), producers).

Definition demote_all (t : Db) (now : NaiveDateTime) (nar_exists : string -> option bool) (hs : list string)
    : Db * list DerivationId :=
  foldl (fun acc h => let '(t, ds) := demote_cached_output acc.1 now nar_exists h in (t, acc.2 ++ ds)) (t, []) hs.

(** Every path whose recorded references name [h], and those that are outputs. *)
Definition referrers_of_hash (t : Db) (h : string) : list string :=
  remove_dups (map fst (List.filter (fun r => String.eqb r.2 h) (t_references t))).

Definition output_referrers_of_hash (t : Db) (h : string) : list string :=
  List.filter (fun r => existsb (fun o => String.eqb (or_hash o) r) (t_outputs t)) (referrers_of_hash t h).

Definition demote_referrers_of (t : Db) (now : NaiveDateTime) (nar_exists : string -> option bool) (h : string)
    : Db * list DerivationId :=
  demote_all t now nar_exists (output_referrers_of_hash t h).

Definition demote_output_only_cached_deps (t : Db) (now : NaiveDateTime) (nar_exists : string -> option bool)
    (d : DerivationId) : Db * list DerivationId :=
  demote_all t now nar_exists (remove_dups (concat (map (fun x =>
    map or_hash (List.filter (fun o => hash_cached t (or_hash o) && negb (bool_decide (is_Some (or_external_url o))))
      (outputs_of t x))) (dependencies_of t d)))).

(** ** Clearing closure flags up the reference chain *)

Definition with_cp_closure (b : bool) (cp : CachedPathRow) : CachedPathRow :=
  {| cp_file_hash := cp_file_hash cp; cp_closure_complete := b |}.

Definition clear_anchor_closure_complete_for_output (t : Db) (h : string) : Db :=
  update_where t (fun d a => db_closure_complete a && existsb (fun o => String.eqb (or_hash o) h) (outputs_of t d))
    (with_closure_complete false).

(** One referrer: a complete row is cleared and pushed. *)
Definition clear_referrer (acc : Db * list string) (r : string) : Db * list string :=
  let '(t, work) := acc in
  if hash_closure_complete t r
  then (clear_anchor_closure_complete_for_output
          (set_cached_paths t (alter (with_cp_closure false) r (t_cached_paths t))) r, r :: work)
  else acc.

Fixpoint clear_worklist (fuel : nat) (t : Db) (seen : gset string) (work : list string) : Db :=
  match fuel, work with
  | O, _ | _, [] => t
  | S fuel, h :: work =>
      if bool_decide (h ∈ seen) then clear_worklist fuel t seen work
      else
        let '(t', work') := foldl clear_referrer (t, work) (referrers_of_hash t h) in
        clear_worklist fuel t' ({[h]} ∪ seen) work'
  end.

(** A row is pushed when its flag is cleared, so at most once. *)
Definition clear_closure_complete_for_referrers (t : Db) (h : string) : Db :=
  clear_worklist (S (S (size (t_cached_paths t)))) t ∅ [h].

(** ** Outputs trusted without bytes *)

Definition unbacked_trusted_outputs_select (t : Db) : list string :=
  remove_dups (map or_hash (List.filter (fun o =>
    anchor_in t (fun a => status_in TERMINAL_SUCCESS (db_status a)) (or_derivation o)
    && negb (bool_decide (is_Some (or_external_url o))) && negb (hash_cached t (or_hash o))) (t_outputs t))).

Definition demote_unbacked_trusted_outputs (t : Db) (now : NaiveDateTime) (nar_exists : string -> option bool)
    : Db * nat :=
  foldl (fun acc h =>
    let '(t, ds) := demote_cached_output acc.1 now nar_exists h in
    (clear_closure_complete_for_referrers t h, acc.2 + length ds))
    (t, 0) (unbacked_trusted_outputs_select t).

(** ** The closure flag of cached paths *)

Definition references_of (t : Db) (h : string) : list string :=
  map snd (List.filter (fun r => String.eqb r.1 h) (t_references t)).

Definition reference_whole (t : Db) (self r : string) : bool :=
  String.eqb r self
  || match t_cached_paths t !! r with
     | Some dep => bool_decide (is_Some (cp_file_hash dep)) && cp_closure_complete dep | None => false end.

Definition CACHED_PATH_CLOSURE_COMPLETE_GATE (t : Db) (h : string) : bool :=
  hash_cached t h && forallb (reference_whole t h) (references_of t h).

Definition cached_path_column : FlagColumn Db string := {|
  fc_keys := fun t => elements (dom (t_cached_paths t));
  fc_flag := hash_closure_complete;
  fc_gate := CACHED_PATH_CLOSURE_COMPLETE_GATE;
  fc_assign := fun t p b => set_cached_paths t
    (map_imap (fun h cp => Some (if p h then with_cp_closure b cp else cp)) (t_cached_paths t));
|}.

(** The outputs and [.drv]s of the evaluation's targets and everything they refer to. *)
Definition eval_paths (t : Db) (ev : EvaluationId) : gset string :=
  let targets := map bjr_derivation (jobs_of_eval t ev) in
  recursive_query (list_to_set (map snd (t_references t)))
    (fun work => list_to_set (map snd (List.filter (fun r => bool_decide (r.1 ∈ work)) (t_references t))))
    (list_to_set (concat (map (fun d => map or_hash (outputs_of t d) ++ drv_hashes_of t d) targets))).

Definition in_path_scope (t : Db) (scope : option EvaluationId) (h : string) : bool :=
  match scope with None => true | Some ev => bool_decide (h ∈ eval_paths t ev) end.

Definition reconcile_cached_path_closure_complete (t : Db) (scope : option EvaluationId) : Db :=
  run_bidirectional_fixpoint cached_path_column (fun t h => in_path_scope t scope h) t.

(** ** The pipeline ([reconcile.rs]) *)

Inductive ReconcileScope := Tick | Global | Deep | Eval (ev : EvaluationId) | Unstick (ev : EvaluationId).

Definition scope_evaluation (s : ReconcileScope) : option EvaluationId :=
  match s with Tick | Global | Deep => None | Eval ev | Unstick ev => Some ev end.

Definition runs_cached_path_fixpoint (s : ReconcileScope) : bool :=
  match s with Deep | Eval _ | Unstick _ => true | _ => false end.

Definition runs_anchor_fixpoints (s : ReconcileScope) : bool :=
  match s with Tick => false | _ => true end.

Definition on_tables (w : Store) (f : Db -> Db) : Store := on_db w (f (st_db w)).

Definition reconcile_build_graph (w : Store) (now : NaiveDateTime) (nar_exists : string -> option bool)
    (scope : ReconcileScope) : Store :=
  let w := match scope_evaluation scope with
    | Some ev => on_tables w (fun t => (mark_edges_complete_for_eval t ev).1) | None => w end in
  let w := match scope with
    | Unstick ev => on_tables w (fun t => (requeue_failed_closure_for_eval t now ev).1) | _ => w end in
  let w := match scope with
    | Global | Deep | Eval _ => on_tables w (fun t => (demote_unbacked_trusted_outputs t now nar_exists).1)
    | _ => w end in
  let w := match scope_evaluation scope with
    | Some ev => move_and_emit w now (fun t => reconcile_cached_anchors_for_eval t now ev) | None => w end in
  let w := if runs_cached_path_fixpoint scope
    then on_tables w (fun t => reconcile_cached_path_closure_complete t (scope_evaluation scope)) else w in
  let w := if runs_anchor_fixpoints scope
    then on_tables w (fun t => reconcile_closure_complete
           (reconcile_drv_closure_cached t (scope_evaluation scope)) (scope_evaluation scope)) else w in
  let w := if runs_anchor_fixpoints scope
    then move_and_emit w now (fun t => reconcile_dependency_failed t now (scope_evaluation scope)) else w in
  move_and_emit w now (fun t => promote_ready t now).

(** ** Missing inputs ([self_heal.rs]) *)

(** The part of a store path between the prefix and the first dash. *)
Definition store_path_hash (p : string) : option string :=
  match RustStr.strip_prefix "/nix/store/" p with
  | None => None
  | Some s =>
      let h := match split_once "-" s with Some (h, _) => h | None => s end in
      if String.eqb h "" then None else Some h
  end.

Record HealState := {
  hs_db : Db;
  hs_producers : list DerivationId;
  hs_rewalk : bool;
}.

Definition demote_referrers_step (st : HealState) (now : NaiveDateTime) (nar_exists : string -> option bool)
    (h : string) : HealState :=
  let '(t, refs) := demote_referrers_of (hs_db st) now nar_exists h in
  match refs with
  | [] => {| hs_db := t; hs_producers := hs_producers st; hs_rewalk := true |}
  | _ => {| hs_db := t; hs_producers := hs_producers st ++ refs; hs_rewalk := hs_rewalk st |}
  end.

Definition heal_missing_path (now : NaiveDateTime) (nar_exists : string -> option bool) (st : HealState)
    (path : string) : HealState :=
  match store_path_hash path with
  | None => st
  | Some h =>
      let '(t, drvs) := demote_cached_output (hs_db st) now nar_exists h in
      match drvs with
      | [] => demote_referrers_step {| hs_db := t; hs_producers := hs_producers st; hs_rewalk := hs_rewalk st |}
                now nar_exists h
      | _ =>
          let t := clear_closure_complete_for_referrers t h in
          let st := {| hs_db := t; hs_producers := hs_producers st ++ drvs; hs_rewalk := hs_rewalk st |} in
          if existsb (has_build_job t) drvs then st else demote_referrers_step st now nar_exists h
      end
  end.

Definition reconcile_missing_inputs (t : Db) (now : NaiveDateTime) (nar_exists : string -> option bool)
    (failed_derivation : DerivationId) (missing_paths : list string) : Db :=
  let st := foldl (heal_missing_path now nar_exists) {| hs_db := t; hs_producers := []; hs_rewalk := false |}
              missing_paths in
  let '(t, producers) :=
    if hs_rewalk st
    then let '(t, ds) := demote_output_only_cached_deps (hs_db st) now nar_exists failed_derivation in
         (t, hs_producers st ++ ds)
    else (hs_db st, hs_producers st) in
  match producers with [] => t | _ => (requeue_failed_anchors t now producers).1 end.

End healing.
