(* ===== verification/PathClosure.v ===== *)
(** * The closure flag of cached paths is exact

    [cached_path.closure_complete] says that every path the NAR's references reach is in the
    cache. The sweeps over it and over the anchors' flags end, and leave it saying just that. *)

From S2P Require Import Prelude RustStr Status Fixpoints ScoreContext JobData EdgeStream BuildGraph Promotion ClosureFlags Transitions Healing.

Section path_closure.
Context `{Chrono}.
Implicit Types (t : Db) (h r : string).

(** ** What the flag is meant to say *)

(** [h] refers to another path [r]. *)
Definition refers t : relation string := fun h r => (h, r) ∈ t_references t /\ r <> h.

Definition closed_path t h : Prop := forall r, rtc (refers t) h r -> hash_cached t r = true.

Definition acyclic_paths t : Prop := exists rank : string -> nat, forall h r, refers t h r -> rank r < rank h.

(** ** The column obeys the laws *)

Lemma cached_keys t h : h ∈ fc_keys cached_path_column t <-> is_Some (t_cached_paths t !! h).
Proof. simpl. by rewrite elem_of_elements, elem_of_dom. Qed.

Lemma lookup_assign t p b h :
  t_cached_paths (fc_assign cached_path_column t p b) !! h =
    (fun cp => if p h then with_cp_closure b cp else cp) <$> t_cached_paths t !! h.
Proof. simpl. rewrite map_lookup_imap. by destruct (t_cached_paths t !! h). Qed.

Lemma hash_cached_assign t p b h : hash_cached (fc_assign cached_path_column t p b) h = hash_cached t h.
Proof. unfold hash_cached. rewrite lookup_assign. destruct (t_cached_paths t !! h); simpl; [by destruct (p h)|done]. Qed.

Lemma path_gate_spec t h :
  CACHED_PATH_CLOSURE_COMPLETE_GATE t h = true <->
  hash_cached t h = true /\ forall r, refers t h r -> hash_cached t r = true /\ hash_closure_complete t r = true.
Proof.
  unfold CACHED_PATH_CLOSURE_COMPLETE_GATE, references_of. rewrite andb_true_iff, forallb_forall.
  apply and_iff_under. intros Hc. unfold refers. setoid_rewrite in_map_iff. split.
  - intros Hr r [Hin Hne]. specialize (Hr r). unfold reference_whole in Hr.
    rewrite (proj2 (String.eqb_neq r h) Hne) in Hr. unfold hash_cached, hash_closure_complete.
    destruct (t_cached_paths t !! r) as [dep|]; simpl in Hr.
    + apply andb_true_iff, Hr. exists (h, r). split; [done|]. apply filter_In. rewrite String.eqb_refl.
      by rewrite <- list_elem_of_In.
    + assert (false = true); [|done]. apply Hr. exists (h, r). split; [done|]. apply filter_In.
      rewrite String.eqb_refl. by rewrite <- list_elem_of_In.
  - intros Hr r ([h' r'] & Heq & [Hin Hh%String.eqb_eq]%filter_In). simpl in *. subst h' r'.
    unfold reference_whole. destruct (String.eqb_spec r h) as [->|Hne]; [done|].
    destruct (Hr r) as [H1 H2]; [split; [by apply list_elem_of_In|done]|].
    unfold hash_cached, hash_closure_complete in *. destruct (t_cached_paths t !! r) as [dep|]; [|done]. simpl.
    by rewrite H1, H2.
Qed.

#[export] Instance cached_path_laws : FlagLaws cached_path_column.
Proof.
  split.
  - intros t p b. simpl. f_equal. apply dom_imap_L. intros h. rewrite elem_of_dom. split; [intros [cp Hcp]; eauto|naive_solver].
  - intros t p b h Hh%cached_keys. destruct Hh as [cp Hcp].
    change (hash_closure_complete (fc_assign cached_path_column t p b) h = (if p h then b else hash_closure_complete t h)).
    unfold hash_closure_complete.
    rewrite (lookup_assign t p b h), Hcp. simpl. by destruct (p h).
  - intros t h Hf. apply cached_keys. simpl in Hf. unfold hash_closure_complete in Hf.
    destruct (t_cached_paths t !! h); [by eexists|done].
  - intros t p h Hg. apply path_gate_spec in Hg as [Hc Hr]. apply path_gate_spec. rewrite hash_cached_assign. split; [done|].
    intros r Hrr. destruct (Hr r Hrr) as [H1 H2]. rewrite hash_cached_assign. split; [done|].
    unfold hash_closure_complete in *. rewrite lookup_assign. destruct (t_cached_paths t !! r); [|done]. simpl.
    by destruct (p r).
  - intros t p b Hp. simpl. destruct t; unfold set_cached_paths; simpl. f_equal. apply map_eq. intros h.
    rewrite map_lookup_imap. match goal with |- context [?m !! h] => destruct (m !! h) as [cp|] eqn:E end; [|done].
    simpl. rewrite Hp; [done|]. apply cached_keys. by eexists.
Qed.

(** ** The sweeps end *)

(** CLEAR and SET are each repeated until a statement affects nothing, after at most as many
    effective rounds as the column has rows. *)
Definition both_loops_end {K} `{Countable K} (c : FlagColumn Db K) (scope : Db -> K -> bool) t : Prop :=
  exists n m, n <= length (fc_keys c t) /\ m <= length (fc_keys c t) /\
    ends_after (statement c false (clear_hit c scope)) n t (converge c false (clear_hit c scope) t) /\
    ends_after (statement c true (set_hit c scope)) m (converge c false (clear_hit c scope) t)
      (run_bidirectional_fixpoint c scope t).

(** C13. The reconciliation sweeps terminate: for each of the three derived flags, over the
    whole table or one evaluation's closure, both loops of the sweep stop by themselves after
    at most as many effective statements as there are rows, each of which changed a row. *)
Theorem flag_sweeps_terminate t scope :
  both_loops_end closure_complete_column (fun t d => in_eval_scope t scope d) t /\
  both_loops_end drv_closure_cached_column (fun t d => in_eval_scope t scope d) t /\
  both_loops_end cached_path_column (fun t h => in_path_scope t scope h) t.
Proof. split_and!; apply sweep_ends, _. Qed.

(** ** The flag after a sweep *)

Lemma path_scope_stable scope t p b h :
  in_path_scope (fc_assign cached_path_column t p b) scope h = in_path_scope t scope h.
Proof. done. Qed.

Lemma path_sweep_frame t scope :
  t_references (reconcile_cached_path_closure_complete t scope) = t_references t /\
  (forall h, hash_cached (reconcile_cached_path_closure_complete t scope) h = hash_cached t h).
Proof.
  unfold reconcile_cached_path_closure_complete, run_bidirectional_fixpoint.
  apply converge_ind; [apply converge_ind|]; [done| |]; intros t' [Hr Hc]; (split; [done|]); intros h;
    by rewrite hash_cached_assign, Hc.
Qed.

Lemma closed_path_step t h :
  closed_path t h <-> hash_cached t h = true /\ forall r, refers t h r -> closed_path t r.
Proof.
  unfold closed_path. split.
  - intros Hc. split; [by apply Hc|]. intros r Hr x Hx. apply Hc. by eapply rtc_l.
  - intros [Hh Hr] x Hx. inversion Hx as [|? y ? Hy Hp]; subst; [done|]. by eapply Hr.
Qed.

Lemma closed_path_frame t t' h :
  t_references t' = t_references t -> (forall h, hash_cached t' h = hash_cached t h) ->
  closed_path t' h <-> closed_path t h.
Proof. intros Hr Hc. unfold closed_path, refers. rewrite Hr. by setoid_rewrite Hc. Qed.

Lemma path_gate_closed t h :
  (forall r, refers t h r -> hash_closure_complete t r = true <-> closed_path t r) ->
  CACHED_PATH_CLOSURE_COMPLETE_GATE t h = true <-> closed_path t h.
Proof.
  intros IH. rewrite path_gate_spec, closed_path_step. apply and_iff_under. intros _. split.
  - intros Hr r Hrr. apply (IH r Hrr), Hr, Hrr.
  - intros Hr r Hrr. specialize (Hr r Hrr). split; [by apply Hr|by apply IH].
Qed.

(** A deep sweep leaves [cached_path.closure_complete] exact: when the references of the
    stored paths have no cycle but self references, the flag of every path says afterwards that
    every path its references reach is in the cache, whatever the flags said before. *)
Theorem path_sweep_exact t h :
  acyclic_paths t ->
  hash_closure_complete (reconcile_cached_path_closure_complete t None) h = true <-> closed_path t h.
Proof.
  intros [rank Hrank]. destruct (path_sweep_frame t None) as [Hrf Hcf].
  set (t' := reconcile_cached_path_closure_complete t None) in *.
  rewrite <- (closed_path_frame t t' h Hrf Hcf).
  assert (Hgate : forall x, x ∈ fc_keys cached_path_column t' ->
    hash_closure_complete t' x = CACHED_PATH_CLOSURE_COMPLETE_GATE t' x).
  { intros x Hx. apply (fixpoint_exact cached_path_column (fun t h => in_path_scope t None h)); [done| |done].
    unfold t', reconcile_cached_path_closure_complete in Hx. by rewrite fixpoint_keys in Hx by apply _. }
  assert (Hrank' : forall x r, refers t' x r -> rank r < rank x) by (unfold refers; rewrite Hrf; done).
  clearbody t'. clear Hrank Hrf Hcf. revert h. induction h as [h IH] using (induction_ltof1 _ rank).
  destruct (t_cached_paths t' !! h) as [cp|] eqn:E.
  - rewrite Hgate by (apply cached_keys; by eexists). apply path_gate_closed. intros r Hr. apply IH. by apply Hrank'.
  - split; [unfold hash_closure_complete; by rewrite E|]. intros [Hc _]%closed_path_step.
    unfold hash_cached in Hc. by rewrite E in Hc.
Qed.

End path_closure.
