(* ===== verification/Settling.v ===== *)
(** * Evaluations settle

    Whatever moves the anchors, an evaluation never stays in [Building] once none of the
    anchors it references is active: every mover reports its transitions to the effects
    emitter, which finalizes the evaluations they settle. *)

From S2P Require Import Prelude Status Fixpoints ScoreContext JobData EdgeStream BuildGraph Promotion ClosureFlags Cascade Transitions Healing.

Section settling.
Context `{Chrono}.
Implicit Types (t : Db) (w : Store) (d : DerivationId) (a : DerivationBuild) (ev : EvaluationId).

(** ** Hanging evaluations *)

Definition eval_active t ev : bool := existsb build_is_active (eval_anchor_statuses t ev).

(** In [Building], with build jobs, and nothing left that could still move. *)
Definition hung t ev : Prop :=
  exists e, t_evaluations t !! ev = Some e /\ ev_status e = EBuilding /\ jobs_of_eval t ev <> [] /\
    eval_active t ev = false.

(** A build job's anchor is the anchor of its derivation. *)
Definition jobs_linked t : Prop :=
  (forall j, j ∈ t_build_jobs t ->
     exists a, t_anchors t !! bjr_derivation j = Some a /\ db_id a = bjr_derivation_build j) /\
  (forall d d' a a', t_anchors t !! d = Some a -> t_anchors t !! d' = Some a' -> db_id a = db_id a' -> d = d').

Lemma build_active_terminal s : build_is_active s = negb (build_is_terminal s).
Proof. by destruct s. Qed.

(** ** Finalization *)

Lemma check_db w now ev :
  exists m, st_db (check_evaluation_done w now ev) = set_evaluations (st_db w) m /\
  forall ev', m !! ev' = t_evaluations (st_db w) !! ev' \/
    (ev' = ev /\ exists e, m !! ev' = Some e /\ eval_is_terminal (ev_status e) = true).
Proof.
  assert (Hsame : exists m, st_db w = set_evaluations (st_db w) m /\
    forall ev', m !! ev' = t_evaluations (st_db w) !! ev' \/
      (ev' = ev /\ exists e, m !! ev' = Some e /\ eval_is_terminal (ev_status e) = true)).
  { exists (t_evaluations (st_db w)). split; [by destruct (st_db w)|]. by left. }
  unfold check_evaluation_done. destruct (existsb _ _); [done|].
  destruct (t_evaluations (st_db w) !! ev) as [e|] eqn:He; [|done].
  destruct (ev_status e) eqn:Hs; try done. unfold update_evaluation_status. rewrite Hs, He, Hs.
  assert (Hv : eval_is_terminal (eval_verdict (st_db w) ev) = true) by (unfold eval_verdict; by destruct (_ && _)).
  destruct (validate_eval EBuilding _) eqn:E; [|done]. simpl.
  eexists. split; [done|]. intros ev'. destruct (decide (ev' = ev)) as [->|Hne].
  - right. split; [done|]. eexists. by rewrite lookup_insert_eq.
  - left. by rewrite lookup_insert_ne.
Qed.

Lemma check_settles w now ev : ~ hung (st_db (check_evaluation_done w now ev)) ev.
Proof.
  intros (e & He & Hs & Hj & Ha). destruct (check_db w now ev) as (m & Hm & Hrows).
  assert (Ha' : eval_active (st_db w) ev = false) by (by rewrite Hm in Ha).
  revert He. unfold check_evaluation_done. unfold eval_active in Ha'. rewrite Ha'.
  destruct (t_evaluations (st_db w) !! ev) as [e'|] eqn:He'; [|congruence].
  destruct (ev_status e') eqn:Hs'; intros He; try congruence.
  unfold update_evaluation_status in He. rewrite Hs', He', Hs' in He.
  assert (Hv : eval_verdict (st_db w) ev = ECompleted \/ eval_verdict (st_db w) ev = EFailed)
    by (unfold eval_verdict; destruct (_ && _); auto).
  destruct Hv as [Hv|Hv]; rewrite Hv in He; simpl in He; rewrite lookup_insert_eq in He; by simplify_eq/=.
Qed.

Lemma hung_set_evaluations t m ev :
  hung (set_evaluations t m) ev <->
  exists e, m !! ev = Some e /\ ev_status e = EBuilding /\ jobs_of_eval t ev <> [] /\ eval_active t ev = false.
Proof. done. Qed.

Lemma check_keeps w now ev ev' : hung (st_db (check_evaluation_done w now ev)) ev' -> hung (st_db w) ev' /\ ev' <> ev.
Proof.
  intros Hh. split; [|intros ->; by eapply check_settles].
  destruct (check_db w now ev) as (m & Hm & Hrows). rewrite Hm in Hh. apply (hung_set_evaluations (st_db w) m) in Hh as (e & He & Hs & Hr).
  destruct (Hrows ev') as [Heq|(-> & e' & He' & Ht)]; [exists e; by rewrite <- Heq|].
  simpl in He. assert (e' = e) as -> by congruence. by rewrite Hs in Ht.
Qed.

Lemma finalize_keeps now evs : forall w ev',
  hung (st_db (finalize_evals w now evs)) ev' -> hung (st_db w) ev' /\ ev' ∉ evs.
Proof.
  induction evs as [|ev evs IH]; intros w ev' Hh; [split; [done|by apply not_elem_of_nil]|].
  apply IH in Hh as [Hh Hn]. apply check_keeps in Hh as [Hh Hne]. split; [done|]. by apply not_elem_of_cons.
Qed.

Lemma emit_keeps w now changes ev :
  hung (st_db (emit_transition_effects w now changes)) ev ->
  hung (st_db w) ev /\ ev ∉ terminal_evals (st_db w) changes.
Proof.
  destruct changes as [|c cs]; [split; [done|by apply not_elem_of_nil]|]. intros Hh. by apply finalize_keeps in Hh.
Qed.

(** The emitter leaves everything but evaluations alone. *)
Lemma finalize_db now evs : forall w, exists m, st_db (finalize_evals w now evs) = set_evaluations (st_db w) m.
Proof.
  induction evs as [|ev evs IH]; intros w; [exists (t_evaluations (st_db w)); by destruct w as [[] ?]|].
  destruct (IH (check_evaluation_done w now ev)) as [m Hm]. destruct (check_db w now ev) as (m' & Hm' & _).
  exists m. simpl. by rewrite Hm, Hm'.
Qed.

Lemma emit_db w now changes : exists m, st_db (emit_transition_effects w now changes) = set_evaluations (st_db w) m.
Proof.
  destruct changes as [|c cs]; [exists (t_evaluations (st_db w)); by destruct w as [[] ?]|]. apply (finalize_db now _ (send w _)).
Qed.

(** ** Moves *)

(** [t'] is [t] with anchors moved so that every one that is no longer active is reported. *)
Record accounted t t' (changes : list TransitionChange) : Prop := {
  acc_jobs : t_build_jobs t' = t_build_jobs t;
  acc_evals : t_evaluations t' = t_evaluations t;
  acc_ids d : db_id <$> t_anchors t' !! d = db_id <$> t_anchors t !! d;
  acc_reported d a a' :
    t_anchors t !! d = Some a -> t_anchors t' !! d = Some a' -> db_status a' <> db_status a ->
    build_is_active (db_status a') = true \/
    exists c, c ∈ changes /\ tc_derivation c = d /\ tc_to c = db_status a';
}.

Lemma accounted_linked t t' changes : accounted t t' changes -> jobs_linked t -> jobs_linked t'.
Proof.
  intros [Hj _ Hid _] [Hl Hu]. split.
  - intros j Hjin. rewrite Hj in Hjin. destruct (Hl j Hjin) as (a & Ha & Hb). specialize (Hid (bjr_derivation j)).
    rewrite Ha in Hid. destruct (t_anchors t' !! bjr_derivation j) as [a'|]; [|done]. exists a'.
    split; [done|]. injection Hid as Hid. congruence.
  - intros d d' a a' Ha Ha' Heq. pose proof (Hid d) as H1. pose proof (Hid d') as H2.
    rewrite Ha in H1. rewrite Ha' in H2. destruct (t_anchors t !! d) as [b|] eqn:Hb; [|done].
    destruct (t_anchors t !! d') as [b'|] eqn:Hb'; [|done]. injection H1 as H1. injection H2 as H2.
    eapply Hu; eauto. congruence.
Qed.

Lemma accounted_refl t changes : accounted t t changes.
Proof. split; try done. intros d a a' Ha Ha'. rewrite Ha in Ha'. by injection Ha' as ->. Qed.

Lemma accounted_trans t t1 t2 c1 c2 :
  accounted t t1 c1 -> accounted t1 t2 c2 -> accounted t t2 (c1 ++ c2).
Proof.
  intros [J1 E1 I1 R1] [J2 E2 I2 R2]. split; [congruence|congruence|intros d; by rewrite I2|].
  intros d a a2 Ha Ha2 Hne. pose proof (I1 d) as Hid. rewrite Ha in Hid.
  destruct (t_anchors t1 !! d) as [a1|] eqn:Ha1; [|done].
  destruct (decide (db_status a2 = db_status a1)) as [Heq|Hne2].
  - destruct (R1 d a a1 Ha Ha1) as [Hact|(c & Hc & Hd & Ht)]; [congruence|left; congruence|].
    right. exists c. rewrite elem_of_app. split_and!; [by left|done|congruence].
  - destruct (R2 d a1 a2 Ha1 Ha2 Hne2) as [Hact|(c & Hc & Hd & Ht)]; [by left|].
    right. exists c. rewrite elem_of_app. split_and!; [by right|done|done].
Qed.

(** An update whose moves are either to an active status or in its report. *)
Lemma accounted_update t p f changes :
  (forall a, db_id (f a) = db_id a) ->
  (forall d a, t_anchors t !! d = Some a -> p d a = true -> db_status (f a) <> db_status a ->
     build_is_active (db_status (f a)) = true \/
     exists c, c ∈ changes /\ tc_derivation c = d /\ tc_to c = db_status (f a)) ->
  accounted t (update_where t p f) changes.
Proof.
  intros Hid Hrep. split; [done|done| |].
  - intros d. rewrite lookup_update_where. destruct (t_anchors t !! d) as [a|]; simpl; [|done].
    destruct (p d a); by rewrite ?Hid.
  - intros d a a' Ha Ha' Hne. rewrite lookup_update_where, Ha in Ha'. simpl in Ha'. injection Ha' as <-.
    destruct (p d a) eqn:Hp; [by apply Hrep|done].
Qed.

(** Updates that do not move statuses at all. *)
Lemma accounted_columns t p f changes :
  (forall a, db_id (f a) = db_id a) -> (forall a, db_status (f a) = db_status a) ->
  accounted t (update_where t p f) changes.
Proof. intros Hid Hs. apply accounted_update; [done|]. intros d a _ _ Hne. by rewrite Hs in Hne. Qed.

Lemma accounted_move t now p to : accounted t (move_where t now p to).1 (move_where t now p to).2.
Proof.
  apply accounted_update; [done|]. intros d a Ha Hp _. right. exists {| tc_derivation := d; tc_from := db_status a; tc_to := to |}.
  split; [|done]. unfold move_where, transitions_to. simpl.
  apply (list_elem_of_fmap_2 (fun x => {| tc_derivation := x.1; tc_from := db_status x.2; tc_to := to |}) _ (d, a)).
  by apply elem_of_affected.
Qed.

Lemma accounted_promote t now among : accounted t (promote_where t now among).1 (promote_where t now among).2.
Proof. apply accounted_update; [done|]. intros d a Ha Hp _. by left. Qed.

Lemma accounted_promote_dependents t now d :
  accounted t (promote_dependents t now d).1 (promote_dependents t now d).2.
Proof.
  unfold promote_dependents. pose proof (accounted_move t now (failed_dependent t d) BDependencyFailed) as H1.
  destruct (move_where _ _ _ _) as [t1 c1]. simpl in H1.
  pose proof (accounted_promote t1 now (fun x => bool_decide (x ∈ dependents_of t1 d))) as H2.
  destruct (promote_where _ _ _) as [t2 c2]. simpl in H2. by eapply accounted_trans.
Qed.

Lemma accounted_cached t now ev :
  accounted t (reconcile_cached_anchors_for_eval t now ev).1 (reconcile_cached_anchors_for_eval t now ev).2.
Proof.
  apply accounted_update; [done|]. intros d a Ha Hp _. right. simpl.
  exists {| tc_derivation := d; tc_from := db_status a; tc_to := recompleted a |}. split; [|done].
  apply (list_elem_of_fmap_2 (fun x => {| tc_derivation := x.1; tc_from := db_status x.2; tc_to := recompleted x.2 |}) _ (d, a)).
  by apply elem_of_affected.
Qed.

Lemma accounted_write_status t now d a s :
  accounted t (write_status t now d a s) [{| tc_derivation := d; tc_from := db_status a; tc_to := s |}].
Proof.
  apply accounted_update; [intros b; by destruct s, (db_queued_at a)|].
  intros x b Hb Hx%N.eqb_eq _. right. eexists. split; [constructor|]. simpl. split; [done|].
  by destruct s, (db_queued_at a).
Qed.

(** ** The emitter settles what a move ended *)

Lemma eval_active_spec t ev :
  eval_active t ev = true <->
  exists d a j, t_anchors t !! d = Some a /\ build_is_active (db_status a) = true /\
    j ∈ t_build_jobs t /\ bjr_evaluation j = ev /\ bjr_derivation_build j = db_id a.
Proof.
  unfold eval_active, eval_anchor_statuses, eval_anchors, jobs_of_eval. rewrite existsb_exists. split.
  - intros (s & Hs & Hact). apply list_elem_of_In, list_elem_of_fmap in Hs as ([d a] & -> & [Ha Hj]%elem_of_affected).
    apply existsb_exists in Hj as (j & Hj & Hb%N.eqb_eq). apply filter_In in Hj as [Hj He%N.eqb_eq].
    exists d, a, j. rewrite list_elem_of_In. done.
  - intros (d & a & j & Ha & Hact & Hj & He & Hb). exists (db_status a). split; [|done].
    apply list_elem_of_In. apply (list_elem_of_fmap_2 (fun x => db_status x.2) _ (d, a)). apply elem_of_affected.
    split; [done|]. apply existsb_exists. exists j. rewrite Hb, N.eqb_refl. split; [|done].
    apply filter_In. rewrite He, N.eqb_refl. by rewrite <- list_elem_of_In.
Qed.

Lemma hung_after t t' changes ev :
  jobs_linked t -> accounted t t' changes -> hung t' ev -> hung t ev \/ ev ∈ terminal_evals t' changes.
Proof.
  intros [Hl Hu] [Hj He Hid Hrep] (e & Hev & Hs & Hjobs & Hact). destruct (eval_active t ev) eqn:Hact0.
  2:{ left. exists e. unfold jobs_of_eval in *. rewrite Hj in Hjobs. by rewrite He in Hev. }
  right. apply eval_active_spec in Hact0 as (d & a & j & Ha & Hact0 & Hjin & Hje & Hb).
  pose proof (Hid d) as Hidd. rewrite Ha in Hidd. destruct (t_anchors t' !! d) as [a'|] eqn:Ha'; [|done].
  injection Hidd as Hidd.
  assert (Hna : build_is_active (db_status a') = false).
  { apply not_true_is_false. intros Hact'. apply not_true_iff_false in Hact. apply Hact, eval_active_spec.
    exists d, a', j. rewrite Hj. split_and!; [done..|]. congruence. }
  destruct (Hrep d a a' Ha Ha') as [Hx|(c & Hc & Hd & Ht)]; [congruence|congruence|].
  destruct (Hl j Hjin) as (b & Hbl & Hbid). assert (Hdj : bjr_derivation j = d) by (eapply Hu; eauto; congruence).
  unfold terminal_evals, jobs_by_drv. rewrite elem_of_remove_dups. apply list_elem_of_In, in_concat.
  eexists. split; [apply in_map, filter_In; split; [by apply list_elem_of_In|]|].
  - rewrite Ht. rewrite build_active_terminal in Hna. by destruct (build_is_terminal _).
  - apply in_map_iff. exists j. split; [done|]. apply filter_In. rewrite Hd, Hdj, N.eqb_refl, Hj.
    by rewrite <- list_elem_of_In.
Qed.

(** Nothing hangs, and jobs point at their anchors. *)
Definition settled_evals w : Prop := jobs_linked (st_db w) /\ forall ev, ~ hung (st_db w) ev.

Lemma linked_set_evaluations t m : jobs_linked (set_evaluations t m) <-> jobs_linked t.
Proof. done. Qed.

Lemma emit_settles w t changes now :
  settled_evals w -> accounted (st_db w) t changes ->
  settled_evals (emit_transition_effects (on_db w t) now changes).
Proof.
  intros [Hl Hh] Hacc. split.
  - destruct (emit_db (on_db w t) now changes) as [m ->]. apply linked_set_evaluations. by eapply accounted_linked.
  - intros ev Hev. apply emit_keeps in Hev as [Hev Hn]. simpl in *.
    destruct (hung_after _ _ _ _ Hl Hacc Hev) as [Hx|Hx]; [by eapply Hh|done].
Qed.

Lemma move_and_emit_settles w now f :
  settled_evals w -> accounted (st_db w) (f (st_db w)).1 (f (st_db w)).2 -> settled_evals (move_and_emit w now f).
Proof. unfold move_and_emit. destruct (f (st_db w)) as [t c]. by apply emit_settles. Qed.

(** Changes of the tables that end nothing. *)
Lemma on_db_settles w t : settled_evals w -> accounted (st_db w) t [] -> settled_evals (on_db w t).
Proof.
  intros [Hl Hh] Hacc. split; [by eapply accounted_linked|]. intros ev Hev.
  destruct (hung_after _ _ _ _ Hl Hacc Hev) as [Hx|Hx]; [by eapply Hh|by apply elem_of_nil in Hx].
Qed.

(** ** Every mover settles what it ends *)

Lemma accounted_tables t t' changes :
  t_build_jobs t' = t_build_jobs t -> t_evaluations t' = t_evaluations t -> t_anchors t' = t_anchors t ->
  accounted t t' changes.
Proof.
  intros Hj He Ha. split; try done; [by rewrite Ha|]. intros d a a' H1 H2. rewrite Ha in H2. by simplify_eq.
Qed.

Lemma quiet_trans t t1 t2 : accounted t t1 [] -> accounted t1 t2 [] -> accounted t t2 [].
Proof. apply accounted_trans. Qed.

Lemma quiet_foldl {A} (f : Db -> A -> Db) l t :
  (forall t x, accounted t (f t x) []) -> accounted t (foldl f t l) [].
Proof.
  intros Hf. revert t. induction l as [|x l IH]; intros t; [apply accounted_refl|].
  eapply quiet_trans; [apply Hf|apply IH].
Qed.

Lemma quiet_foldl_pair {A B} (f : Db * B -> A -> Db * B) l acc :
  (forall acc x, accounted acc.1 (f acc x).1 []) -> accounted acc.1 (foldl f acc l).1 [].
Proof.
  intros Hf. revert acc. induction l as [|x l IH]; intros acc; [apply accounted_refl|].
  eapply quiet_trans; [apply Hf|apply IH].
Qed.

Lemma quiet_converge {K} `{Countable K} (c : FlagColumn Db K) scope t :
  (forall t p b, accounted t (fc_assign c t p b) []) -> accounted t (run_bidirectional_fixpoint c scope t) [].
Proof.
  intros Hc. unfold run_bidirectional_fixpoint. apply converge_ind; [apply converge_ind|].
  - apply accounted_refl.
  - intros t' Ht. eapply quiet_trans; [done|apply Hc].
  - intros t' Ht. eapply quiet_trans; [done|apply Hc].
Qed.

(** Anchors moved to an active status end nothing. *)
Lemma quiet_active t p f :
  (forall a, db_id (f a) = db_id a) -> (forall a, build_is_active (db_status (f a)) = true) ->
  accounted t (update_where t p f) [].
Proof. intros Hid Hact. apply accounted_update; [done|]. intros d a _ _ _. by left. Qed.

Hint Resolve accounted_refl accounted_columns quiet_active accounted_tables accounted_move accounted_promote
  accounted_cached accounted_promote_dependents : settle.

Lemma quiet_propagate fuel : forall t fr, accounted t (propagate_rounds fuel t fr) [].
Proof.
  induction fuel as [|fuel IH]; intros t [|d fr]; try apply accounted_refl. simpl.
  set (p := fun x a => bool_decide (x ∈ d :: fr) && _ && _).
  assert (Hq : accounted t (update_where t p (with_closure_complete true)) []) by (by apply accounted_columns).
  destruct (map fst (affected t p)); [done|]. eapply quiet_trans; [done|apply IH].
Qed.

Lemma quiet_demote t now nar_exists h : accounted t (demote_cached_output t now nar_exists h).1 [].
Proof.
  unfold demote_cached_output. destruct (preserve_missing_artifact _ _); simpl; [by apply accounted_tables|].
  match goal with |- accounted _ (set_cached_paths ?t2 _) _ => apply (quiet_trans _ t2) end;
    [|by apply accounted_tables].
  match goal with |- accounted _ (update_where ?t1 _ _) _ => apply (quiet_trans _ t1) end;
    [by apply accounted_tables|by apply quiet_active].
Qed.

Lemma quiet_clear_referrer acc r : accounted acc.1 (clear_referrer acc r).1 [].
Proof.
  destruct acc as [t work]. unfold clear_referrer. destruct (hash_closure_complete t r); [|apply accounted_refl].
  unfold clear_anchor_closure_complete_for_output. cbn [fst].
  match goal with |- accounted _ (update_where ?t1 _ _) _ => apply (quiet_trans _ t1) end;
    [by apply accounted_tables|by apply accounted_columns].
Qed.

Lemma quiet_clear_worklist fuel : forall t seen work, accounted t (clear_worklist fuel t seen work) [].
Proof.
  induction fuel as [|fuel IH]; intros t seen [|h work]; try apply accounted_refl. simpl.
  destruct (bool_decide _); [apply IH|].
  pose proof (quiet_foldl_pair clear_referrer (referrers_of_hash t h) (t, work) quiet_clear_referrer) as Hq.
  destruct (foldl _ _ _) as [t' work']. simpl in Hq. eapply quiet_trans; [done|apply IH].
Qed.

Lemma quiet_unbacked t now nar_exists : accounted t (demote_unbacked_trusted_outputs t now nar_exists).1 [].
Proof.
  unfold demote_unbacked_trusted_outputs. apply (quiet_foldl_pair _ _ (t, 0)). intros [t' n] h. simpl.
  pose proof (quiet_demote t' now nar_exists h) as Hq. destruct (demote_cached_output _ _ _ _) as [t2 ds].
  simpl in *. eapply quiet_trans; [done|apply quiet_clear_worklist].
Qed.

Lemma quiet_requeue t now seed among : accounted t (requeue_where t now seed among).1 [].
Proof. by apply quiet_active. Qed.

Lemma quiet_requeue_chunks t now ds : accounted t (requeue_failed_anchors t now ds).1 [].
Proof.
  unfold requeue_failed_anchors. apply (quiet_foldl_pair _ _ (t, 0)). intros [t' n] c. apply quiet_requeue.
Qed.

Lemma quiet_flags t scope :
  accounted t (reconcile_closure_complete (reconcile_drv_closure_cached t scope) scope) [].
Proof.
  apply (quiet_trans _ (reconcile_drv_closure_cached t scope));
    [apply (quiet_converge drv_closure_cached_column)|apply (quiet_converge closure_complete_column)];
    intros t' p b; by apply accounted_columns.
Qed.

Lemma quiet_paths t scope : accounted t (reconcile_cached_path_closure_complete t scope) [].
Proof. apply (quiet_converge cached_path_column). intros t' p b. by apply accounted_tables. Qed.

Lemma quiet_demote_all t now nar_exists hs : accounted t (demote_all t now nar_exists hs).1 [].
Proof.
  unfold demote_all. apply (quiet_foldl_pair _ _ (t, [])). intros [t' ds] h. simpl.
  pose proof (quiet_demote t' now nar_exists h) as Hq. by destruct (demote_cached_output _ _ _ _).
Qed.

Lemma quiet_referrers st now nar_exists h :
  accounted (hs_db st) (hs_db (demote_referrers_step st now nar_exists h)) [].
Proof.
  unfold demote_referrers_step, demote_referrers_of.
  pose proof (quiet_demote_all (hs_db st) now nar_exists (output_referrers_of_hash (hs_db st) h)) as Hq.
  destruct (demote_all _ _ _ _) as [t refs]. by destruct refs.
Qed.

Lemma quiet_heal_path now nar_exists st p :
  accounted (hs_db st) (hs_db (heal_missing_path now nar_exists st p)) [].
Proof.
  unfold heal_missing_path. destruct (store_path_hash p) as [h|]; [|apply accounted_refl].
  pose proof (quiet_demote (hs_db st) now nar_exists h) as Hq. destruct (demote_cached_output _ _ _ _) as [t drvs].
  simpl in Hq. destruct drvs as [|d ds]; [eapply quiet_trans; [done|]; apply (quiet_referrers {| hs_db := t |})|].
  assert (Hc : accounted (hs_db st) (clear_closure_complete_for_referrers t h) [])
    by (eapply quiet_trans; [done|apply quiet_clear_worklist]).
  destruct (existsb _ _); [done|]. eapply quiet_trans; [done|].
  apply (quiet_referrers {| hs_db := clear_closure_complete_for_referrers t h |}).
Qed.

Lemma quiet_missing_inputs t now nar_exists d ps :
  accounted t (reconcile_missing_inputs t now nar_exists d ps) [].
Proof.
  unfold reconcile_missing_inputs. set (st := foldl _ _ _).
  assert (Hst : accounted t (hs_db st) []).
  { unfold st. set (s0 := {| hs_db := t; hs_producers := []; hs_rewalk := false |}).
    change t with (hs_db s0) at 1. generalize s0. clear. induction ps as [|p ps IH]; intros s; [apply accounted_refl|].
    eapply quiet_trans; [apply quiet_heal_path|apply IH]. }
  clearbody st. unfold demote_output_only_cached_deps. destruct (hs_rewalk st).
  - match goal with |- context [demote_all ?a ?b ?c ?l] => pose proof (quiet_demote_all a b c l) as Hq;
      destruct (demote_all a b c l) as [t' ds] end.
    simpl in Hq. destruct (hs_producers st ++ ds); [by eapply quiet_trans|].
    eapply quiet_trans; [exact Hst|]. eapply quiet_trans; [exact Hq|apply quiet_requeue_chunks].
  - destruct (hs_producers st); [done|]. eapply quiet_trans; [done|apply quiet_requeue_chunks].
Qed.

Lemma on_tables_settles w f : settled_evals w -> accounted (st_db w) (f (st_db w)) [] -> settled_evals (on_tables w f).
Proof. apply on_db_settles. Qed.

Lemma if_settles (b : bool) w w' : settled_evals w -> settled_evals w' -> settled_evals (if b then w' else w).
Proof. by destruct b. Qed.

(** A reconciliation is quiet statements and emitted moves. *)
Lemma reconcile_ind (P : Store -> Prop) w now nar_exists scope :
  (forall w f, P w -> accounted (st_db w) (f (st_db w)) [] -> P (on_tables w f)) ->
  (forall w f, P w -> accounted (st_db w) (f (st_db w)).1 (f (st_db w)).2 -> P (move_and_emit w now f)) ->
  P w -> P (reconcile_build_graph w now nar_exists scope).
Proof.
  intros Hq Hm Hw. unfold reconcile_build_graph. cbv zeta. apply Hm; [|apply accounted_promote].
  assert (Hif : forall (b : bool) w w', P w -> P w' -> P (if b then w' else w)) by (by intros []).
  apply Hif; [|apply Hm; [|apply accounted_move]];
  (apply Hif; [|apply Hq; [|apply quiet_flags]]);
  (apply Hif; [|apply Hq; [|apply quiet_paths]]).
  all: destruct scope; simpl; repeat first
    [ done | apply Hm; [|apply accounted_cached]
    | apply Hq; [|first [apply quiet_unbacked | apply quiet_requeue | by apply accounted_columns]] ].
Qed.

Lemma reconcile_build_graph_settles w now nar_exists scope :
  settled_evals w -> settled_evals (reconcile_build_graph w now nar_exists scope).
Proof. apply reconcile_ind; intros; [by apply on_tables_settles|by apply move_and_emit_settles]. Qed.

(** Evaluations that are not in [Building] are left alone. *)
Definition keeps_row ev (e : EvaluationRow) w : Prop := t_evaluations (st_db w) !! ev = Some e.

Lemma check_keeps_row w now ev ev' e :
  keeps_row ev' e w -> ev_status e <> EBuilding -> keeps_row ev' e (check_evaluation_done w now ev).
Proof.
  unfold keeps_row, check_evaluation_done. intros Hr Hs. destruct (existsb _ _); [done|].
  destruct (t_evaluations (st_db w) !! ev) as [row|] eqn:Hrow; [|done]. destruct (ev_status row) eqn:Hst; try done.
  unfold update_evaluation_status. destruct (validate_eval _ _); [|done]. rewrite Hrow.
  destruct (eval_is_terminal _); [done|]. simpl. rewrite lookup_insert_ne; [done|]. intros ->. by simplify_eq.
Qed.

Lemma finalize_keeps_row now evs : forall w ev e,
  keeps_row ev e w -> ev_status e <> EBuilding -> keeps_row ev e (finalize_evals w now evs).
Proof.
  induction evs as [|x evs IH]; intros w ev e Hr Hs; [done|]. apply IH; [|done]. by apply check_keeps_row.
Qed.

Lemma move_keeps_row w now f ev e :
  keeps_row ev e w -> ev_status e <> EBuilding -> accounted (st_db w) (f (st_db w)).1 (f (st_db w)).2 ->
  keeps_row ev e (move_and_emit w now f).
Proof.
  intros Hr Hs Hacc. unfold move_and_emit. destruct (f (st_db w)) as [t c]. simpl in Hacc.
  assert (Ht : keeps_row ev e (on_db w t)) by (unfold keeps_row; simpl; by rewrite (acc_evals _ _ _ Hacc)).
  unfold emit_transition_effects. destruct c; [done|]. by apply finalize_keeps_row.
Qed.

Lemma reconcile_keeps_row w now nar_exists scope ev e :
  keeps_row ev e w -> ev_status e <> EBuilding -> keeps_row ev e (reconcile_build_graph w now nar_exists scope).
Proof.
  intros Hr Hs. apply reconcile_ind; [| |done].
  - intros w' f Hw' Hacc. unfold keeps_row, on_tables. simpl. by rewrite (acc_evals _ _ _ Hacc).
  - intros w' f Hw' Hacc. by apply move_keeps_row.
Qed.

Lemma stamp_quiet t b : accounted t (stamp_attempt_finished t b) [].
Proof.
  unfold stamp_attempt_finished. destruct (latest_attempt t b); [by apply accounted_tables|apply accounted_refl].
Qed.

Lemma update_status_settles w now d a s :
  settled_evals w -> settled_evals (update_derivation_build_status w now d a s).
Proof.
  intros Hw. unfold update_derivation_build_status. destruct (bool_decide _); [done|].
  destruct (validate_build _ _); [|done]. cbv zeta.
  set (t := if build_is_terminal s then _ else _).
  assert (Ht : settled_evals (on_db w t)).
  { apply on_db_settles; [done|]. unfold t. destruct (build_is_terminal s); [apply stamp_quiet|apply accounted_refl]. }
  clearbody t. destruct (t_anchors t !! d) as [b|]; [|done].
  apply if_settles; [|apply move_and_emit_settles; [|apply accounted_move]];
  (apply if_settles; [|apply move_and_emit_settles; [apply on_db_settles|apply accounted_promote_dependents]]);
  try apply quiet_propagate.
  all: apply move_and_emit_settles; [exact Ht|apply accounted_write_status].
Qed.

(** *** Evaluations that leave the build phase *)

Lemma update_eval_keeps w now ev e s ev' :
  s <> EBuilding -> hung (st_db (update_evaluation_status w now ev e s)) ev' -> hung (st_db w) ev'.
Proof.
  intros Hs. unfold update_evaluation_status. destruct (validate_eval _ _); [|done].
  destruct (t_evaluations (st_db w) !! ev) as [row|] eqn:Hrow; [|done]. destruct (eval_is_terminal _); [done|].
  intros (e' & He & Hb & Hr). simpl in He. destruct (decide (ev' = ev)) as [->|Hne].
  - rewrite lookup_insert_eq in He. by simplify_eq/=.
  - rewrite lookup_insert_ne in He by done. by exists e'.
Qed.

Lemma update_eval_linked w now ev e s :
  jobs_linked (st_db (update_evaluation_status w now ev e s)) <-> jobs_linked (st_db w).
Proof.
  unfold update_evaluation_status. destruct (validate_eval _ _); [|done].
  destruct (t_evaluations (st_db w) !! ev) as [row|]; [|done]. by destruct (eval_is_terminal _).
Qed.

Lemma update_eval_settles w now ev e s :
  s <> EBuilding -> settled_evals w -> settled_evals (update_evaluation_status w now ev e s).
Proof.
  intros Hs [Hl Hh]. split; [by apply update_eval_linked|].
  intros ev' Hx%update_eval_keeps; [|done]. by apply (Hh ev').
Qed.

Lemma gate_settles w now ev : settled_evals w -> settled_evals (on_db w (gate_evaluation_aborting (st_db w) now ev)).
Proof.
  intros [Hl Hh]. unfold gate_evaluation_aborting.
  destruct (t_evaluations (st_db w) !! ev) as [row|] eqn:Hrow; [|by destruct w].
  destruct (eval_is_terminal _); [by destruct w|]. split; [by apply linked_set_evaluations|].
  intros ev' (e' & He & Hb & Hr). apply (Hh ev'). simpl in He. destruct (decide (ev' = ev)) as [->|Hne].
  - rewrite lookup_insert_eq in He. by simplify_eq/=.
  - rewrite lookup_insert_ne in He by done. by exists e'.
Qed.

Lemma send_settles w es : settled_evals w -> settled_evals (send w es).
Proof. done. Qed.

Lemma abort_anchors_settles w now ev : settled_evals w -> settled_evals (abort_eval_anchors w now ev).
Proof.
  intros Hw. unfold abort_eval_anchors. destruct (affected _ _) as [|x l]; [done|]. cbv zeta.
  match goal with |- context [move_and_emit w now ?f] => set (w1 := move_and_emit w now f) end.
  assert (H1 : settled_evals w1) by (apply move_and_emit_settles; [done|apply accounted_move]). clearbody w1.
  apply send_settles, on_db_settles; [done|by apply accounted_tables].
Qed.

Lemma abort_evaluation_settles w now ev e : settled_evals w -> settled_evals (db_abort_evaluation w now ev e).
Proof.
  intros Hw. unfold db_abort_evaluation. destruct (eval_is_terminal _); [done|]. cbv zeta.
  apply update_eval_settles; [done|]. by apply abort_anchors_settles, gate_settles.
Qed.

(** *** Startup recovery *)

Lemma interrupted_terminal now e : pre_build (ev_status e) = true -> ev_status (abort_interrupted now e) = EAborted.
Proof. unfold abort_interrupted. by intros ->. Qed.

Lemma recovery_settles w now : settled_evals w -> settled_evals (recover_interrupted_work w now).
Proof.
  intros Hw. unfold recover_interrupted_work. cbv zeta.
  set (t1 := set_attempts (st_db w) _). set (t2 := update_where t1 _ (with_status BQueued now)).
  assert (H2 : settled_evals (on_db w t2)).
  { apply on_db_settles; [done|]. apply (quiet_trans _ t1); [by apply accounted_tables|by apply quiet_active]. }
  clearbody t2. clear t1 Hw. destruct H2 as [Hl Hh]. simpl in Hl, Hh.
  set (evals := map fst _). set (t3 := set_evaluations t2 _). apply send_settles. split.
  - apply (accounted_linked t3 _ (transitions_to t3 (fun _ a => abandoned t3 evals a) BAborted));
      [by apply accounted_move|done].
  - intros ev (e & He & Hb & Hj & Ha). simpl in He. rewrite lookup_fmap in He.
    destruct (t_evaluations t2 !! ev) as [e0|] eqn:He0; [|done]. simpl in He. injection He as <-.
    assert (Hpre : pre_build (ev_status e0) = false).
    { apply not_true_is_false. intros Hp. by rewrite interrupted_terminal in Hb. }
    assert (Hb0 : ev_status e0 = EBuilding) by (unfold abort_interrupted in Hb; by rewrite Hpre in Hb).
    apply (Hh ev). exists e0. split_and!; [done..|]. apply not_true_is_false.
    intros (d & a & j & Had & Hact & Hjin & Hje & Hjb)%eval_active_spec.
    apply not_true_iff_false in Ha. apply Ha, eval_active_spec. exists d, a, j.
    assert (Hkeep : abandoned t3 evals a = false).
    { unfold abandoned. apply andb_false_iff. right. apply negb_false_iff, existsb_exists. exists j.
      split; [by apply list_elem_of_In|]. rewrite Hjb, N.eqb_refl. simpl. rewrite Hje, lookup_fmap, He0. simpl.
      unfold abort_interrupted. by rewrite Hpre, Hb0. }
    split_and!; try done.
    change (t_anchors (update_where t3 (fun _ a => abandoned t3 evals a) (with_status BAborted now)) !! d = Some a).
    rewrite lookup_update_where. change (t_anchors t3) with (t_anchors t2). rewrite Had.
    cbn [fmap option_fmap option_map]. by rewrite Hkeep.
Qed.

Lemma finalize_settles w now evs : settled_evals w -> settled_evals (finalize_evals w now evs).
Proof.
  intros [Hl Hh]. split.
  - destruct (finalize_db now evs w) as [m ->]. by apply linked_set_evaluations.
  - intros ev [Hx _]%finalize_keeps. by apply (Hh ev).
Qed.

End settling.
