(* ===== verification/WaitingState.v ===== *)
(** * Waiting for workers

    [backend/gradient-scheduler/src/waiting_state.rs] and [buildability.rs]: reconciling
    every in-flight evaluation's status with the connected workers, and the other owners of
    a parked evaluation, [gradient-db/src/draining.rs] and [gradient-ci/src/unpark.rs].

    The JSON of [evaluation.waiting_reason] is the reason it encodes; rows that do not
    parse are not representable. *)

From S2P Require Import Prelude RustStr Status Fixpoints ScoreContext StorePath JobData EdgeStream Retry BuildGraph Promotion Transitions Healing.

Local Open Scope Z_scope.

Abbreviation FeatureId := N.

(** ** Buildability ([buildability.rs]) *)

(** The columns of [derivation] the scheduler reads. *)
Record MDerivation := {
  md_hash : string;
  md_name : string;
  md_architecture : string;
  md_pname : option string;
  md_prefer_local_build : bool;
  md_is_fixed_output : bool;
  md_closure_size : option Z;
}.

Definition as_store_path (d : MDerivation) : StorePath := from_parts (md_hash d) (String.append (md_name d) ".drv").
Definition md_store_path (d : MDerivation) : string := StorePath_full (as_store_path d).

(** The derivations with their required features. *)
Record Catalog := {
  cat_derivations : gmap DerivationId MDerivation;
  cat_features : list (DerivationId * FeatureId);
  cat_feature_names : gmap FeatureId string;
}.

Definition feature_names_of (c : Catalog) (d : DerivationId) : list string :=
  omap (fun e => cat_feature_names c !! e.2) (List.filter (fun e => N.eqb e.1 d) (cat_features c)).

Record BuildabilityChecker := {
  bc_catalog : Catalog;
  bc_substitute_misses : DerivationBuildId -> Z;
  bc_threshold : Z;
  bc_connected_architectures : gset string;
}.

Abbreviation WorkerCapsPair := (list string * list string)%type.

Definition required_features_for (c : Catalog) (d : DerivationId) : list string := sort_dedup (feature_names_of c d).

Definition caps_satisfy (arch : string) (required : list string) (caps : WorkerCapsPair) : bool :=
  ((arch =? BUILTIN_ARCH)%string || existsb (fun a => (a =? arch)%string) caps.1)
  && forallb (fun f => existsb (fun sf => (sf =? f)%string) caps.2) required.

Section waiting.
Context `{Chrono}.

Definition checker_load (t : Db) (c : Catalog) (cfg : EvalConfig) (arches : gset string) (ev : EvaluationId)
    : BuildabilityChecker := {|
  bc_catalog := c;
  bc_substitute_misses := fun b => substitute_miss_counts t b ev;
  bc_threshold := substitute_miss_escalation_threshold cfg;
  bc_connected_architectures := arches;
|}.

Definition checker_mode (self : BuildabilityChecker) (a : DerivationBuild) (arch_has_worker : bool) : BuildDispatchMode :=
  decide_dispatch_mode (db_substitutable a) (bc_substitute_misses self (db_id a)) (bc_threshold self) arch_has_worker.

Definition buildable (self : BuildabilityChecker) (caps : list WorkerCapsPair)
    (x : DerivationId * DerivationBuild) : bool :=
  let '(d, a) := x in
  match db_status a with
  | BBuilding => true
  | BQueued =>
      match cat_derivations (bc_catalog self) !! d with
      | None => false
      | Some drv =>
          match checker_mode self a (arch_available (bc_connected_architectures self) (md_architecture drv)) with
          | SubstituteBuiltin => true
          | SubstituteStalled => false
          | RealArch =>
              if negb (db_substitutable a) && negb (db_drv_closure_cached a) then false
              else existsb (caps_satisfy (md_architecture drv) (required_features_for (bc_catalog self) d)) caps
          end
      end
  | _ => false
  end.

Definition any_buildable (self : BuildabilityChecker) (anchors : list (DerivationId * DerivationBuild))
    (caps : list WorkerCapsPair) : bool := existsb (buildable self caps) anchors.

(** *** The reason to show *)

Fixpoint compare_list (l1 l2 : list string) : comparison :=
  match l1, l2 with
  | [], [] => Eq
  | [], _ => Lt
  | _, [] => Gt
  | x :: l1, y :: l2 => match String.compare x y with Eq => compare_list l1 l2 | c => c end
  end.

Definition compare_key (k1 k2 : string * list string) : comparison :=
  match String.compare k1.1 k2.1 with Eq => compare_list k1.2 k2.2 | c => c end.

(** [*grouped.entry(key).or_default() += 1], the map in key order. *)
Fixpoint bump_group (k : string * list string) (g : list ((string * list string) * Z)) :=
  match g with
  | [] => [(k, 1)]
  | (k', n) :: g' =>
      match compare_key k k' with
      | Lt => (k, 1) :: g
      | Eq => (k', u32 (n + 1)) :: g'
      | Gt => (k', n) :: bump_group k g'
      end
  end.

(** The requirement no worker meets, if the anchor has one. *)
Definition unmet_key (self : BuildabilityChecker) (caps : list WorkerCapsPair)
    (x : DerivationId * DerivationBuild) : option (string * list string) :=
  let '(d, a) := x in
  let drv := cat_derivations (bc_catalog self) !! d in
  let arch_has_worker := match drv with
    | Some drv => arch_available (bc_connected_architectures self) (md_architecture drv) | None => false end in
  match checker_mode self a arch_has_worker, drv with
  | SubstituteBuiltin, _ | _, None => None
  | _, Some drv =>
      let required := required_features_for (bc_catalog self) d in
      if existsb (caps_satisfy (md_architecture drv) required) caps then None
      else Some (md_architecture drv, required)
  end.

Definition compute_waiting_reason (self : BuildabilityChecker) (anchors : list (DerivationId * DerivationBuild))
    (caps : list WorkerCapsPair) : WaitingReason :=
  let grouped := foldl (fun g x => match unmet_key self caps x with Some k => bump_group k g | None => g end) [] anchors in
  WWorkers (map (fun e => {| ur_architecture := e.1.1; ur_required_features := e.1.2; ur_build_count := e.2 |}) grouped)
    (u32 (Z.of_nat (length caps))) (sort_dedup (concat (map fst caps))).

(** ** Decisions ([waiting_state.rs]) *)

Definition pre_build_capability (status : EvaluationStatus) : option EvalCapability :=
  match status with
  | EFetching => Some CapFetch
  | EQueued | EEvaluatingFlake | EEvaluatingDerivation => Some CapEval
  | _ => None
  end.

Definition capability_available (capability : EvalCapability) (eval_capable fetch_capable : nat) : bool :=
  match capability with CapFetch => Nat.ltb 0 fetch_capable | CapEval => Nat.ltb 0 eval_capable end.

Definition decide_pre_build_target (current : EvaluationStatus) (eval_capable fetch_capable : nat) (connected : Z)
    : option (EvaluationStatus * option WaitingReason) :=
  match pre_build_capability current with
  | None => None
  | Some capability =>
      if capability_available capability eval_capable fetch_capable then None
      else Some (EWaiting, Some (WEvalWorkers capability connected))
  end.

Definition decide_eval_recovery (capability : EvalCapability) (eval_capable fetch_capable : nat) (connected : Z)
    : EvaluationStatus * option WaitingReason :=
  if capability_available capability eval_capable fetch_capable then (EQueued, None)
  else (EWaiting, Some (WEvalWorkers capability connected)).

Definition with_waiting_reason (r : option WaitingReason) (e : EvaluationRow) : EvaluationRow := {|
  ev_project := ev_project e; ev_status := ev_status e; ev_kind := ev_kind e;
  ev_waiting_reason := r; ev_updated_at := ev_updated_at e |}.

Definition update_eval (t : Db) (ev : EvaluationId) (f : EvaluationRow -> EvaluationRow) : Db :=
  set_evaluations t (alter f ev (t_evaluations t)).

(** [current] is the reason of the row the caller read. *)
Definition persist_waiting_reason (w : Store) (ev : EvaluationId) (current new_reason : option WaitingReason) : Store :=
  if bool_decide (current = new_reason) then w
  else on_db w (update_eval (st_db w) ev (with_waiting_reason new_reason)).

Definition eval_pending_anchors (t : Db) (ev : EvaluationId) : list (DerivationId * DerivationBuild) :=
  List.filter (fun x => build_is_active (db_status x.2)) (eval_anchors t ev).

(** What the scheduler reads besides the tables. *)
Record Pool := {
  pool_caps : list WorkerCapsPair;
  pool_eval_capable : nat;
  pool_fetch_capable : nat;
}.

Definition connected_workers (p : Pool) : Z := u32 (Z.of_nat (length (pool_caps p))).

Context (cat : Catalog) (cfg : EvalConfig) (nar_exists : string -> option bool).

Definition assess_buildability (t : Db) (ev : EvaluationId) (caps : list WorkerCapsPair)
    : option (EvaluationStatus * option WaitingReason) :=
  match eval_pending_anchors t ev with
  | [] => None
  | pending =>
      let checker := checker_load t cat cfg (list_to_set (concat (map fst caps))) ev in
      if any_buildable checker pending caps then Some (EBuilding, None)
      else Some (EWaiting, Some (compute_waiting_reason checker pending caps))
  end.

Definition attempt_graph_unstick (w : Store) (now : NaiveDateTime) (ev : EvaluationId) (caps : list WorkerCapsPair)
    : Store * (EvaluationStatus * option WaitingReason) :=
  let w := reconcile_build_graph w now nar_exists (Unstick ev) in
  match assess_buildability (st_db w) ev caps with
  | Some (EBuilding, reason) => (w, (EBuilding, reason))
  | _ => (w, (EWaiting, Some (WGraphStuck (u32 (Z.of_nat (length (eval_pending_anchors (st_db w) ev)))))))
  end.

Definition build_phase_decision (w : Store) (now : NaiveDateTime) (ev : EvaluationId) (caps : list WorkerCapsPair)
    : Store * option (EvaluationStatus * option WaitingReason) :=
  match assess_buildability (st_db w) ev caps with
  | Some (EWaiting, Some (WWorkers [] _ _)) =>
      let '(w, verdict) := attempt_graph_unstick w now ev caps in (w, Some verdict)
  | outcome => (w, outcome)
  end.

(** ** The sweep *)

Definition in_flight_eval (s : EvaluationStatus) : bool := negb (eval_is_terminal s).

(** Parks the reconciler does not own. *)
Definition owned_elsewhere (r : WaitingReason) : bool :=
  match r with WApproval _ _ | WNoCache | WCacheStorageFull | WAborting => true | _ => false end.

Definition drained_or_aborting (e : EvaluationRow) : bool :=
  match ev_status e, ev_waiting_reason e with
  | EWaiting, Some WDraining | EWaiting, Some WAborting => true
  | _, _ => false
  end.

Definition drain_eval (now : NaiveDateTime) (w : Store) (x : EvaluationId * EvaluationRow) : Store :=
  let '(ev, e) := x in
  if drained_or_aborting e then w
  else
    let w := persist_waiting_reason w ev (ev_waiting_reason e) (Some WDraining) in
    if bool_decide (ev_status e = EWaiting) then w else update_evaluation_status w now ev e EWaiting.

(** The status an evaluation should have, and the reason to show for it. *)
Definition reconcile_outcome (w : Store) (now : NaiveDateTime) (p : Pool) (x : EvaluationId * EvaluationRow)
    : Store * option (EvaluationStatus * option WaitingReason) :=
  let '(ev, e) := x in
  match ev_status e with
  | EWaiting =>
      match ev_waiting_reason e with
      | Some (WEvalWorkers capability _) =>
          (w, Some (decide_eval_recovery capability (pool_eval_capable p) (pool_fetch_capable p) (connected_workers p)))
      | Some WDraining => (w, Some (EQueued, None))
      | _ =>
          match build_phase_decision w now ev (pool_caps p) with
          | (w, Some verdict) => (w, Some verdict)
          | (w, None) =>
              (w, Some (decide_eval_recovery CapEval (pool_eval_capable p) (pool_fetch_capable p) (connected_workers p)))
          end
      end
  | EQueued | EFetching | EEvaluatingFlake | EEvaluatingDerivation =>
      (w, decide_pre_build_target (ev_status e) (pool_eval_capable p) (pool_fetch_capable p) (connected_workers p))
  | EBuilding => build_phase_decision w now ev (pool_caps p)
  | _ => (w, None)
  end.

Definition left_alone (e : EvaluationRow) : bool :=
  bool_decide (ev_status e = EWaiting)
  && match ev_waiting_reason e with Some r => owned_elsewhere r | None => false end.

Definition reconcile_eval (now : NaiveDateTime) (p : Pool) (w : Store) (x : EvaluationId * EvaluationRow) : Store :=
  if left_alone x.2 then w
  else
    match reconcile_outcome w now p x with
    | (w, None) => w
    | (w, Some (target, new_reason)) =>
        let w := persist_waiting_reason w x.1 (ev_waiting_reason x.2) new_reason in
        if bool_decide (ev_status x.2 = target) then w else update_evaluation_status w now x.1 x.2 target
    end.

(** The rows are read once, before any of them is reconciled. *)
Definition reconcile_waiting_state (w : Store) (now : NaiveDateTime) (p : Pool) (draining : bool) : Store :=
  let evals := List.filter (fun x => in_flight_eval (ev_status x.2)) (map_to_list (t_evaluations (st_db w))) in
  if draining then foldl (drain_eval now) w evals else foldl (reconcile_eval now p) w evals.

(** ** Recovery of lost [.drv]s *)

Definition DRV_RECOVERY_GRACE_SECS : Z := 120.

(** [unproducible_drv_block_sql] *)
Definition eval_blocked_on_unproducible_drv (t : Db) (ev : EvaluationId) : bool :=
  existsb (fun j =>
    existsb (fun x => let '(d, a) := x in
      N.eqb (db_id a) (bjr_derivation_build j) && status_in PENDING (db_status a) && db_edges_complete a
      && negb (db_substitutable a) && negb (db_drv_closure_cached a)
      && negb (drv_nar_closure_complete_predicate t d) && drv_nar_absent_predicate t d && deps_ready_predicate t d)
      (map_to_list (t_anchors t)))
    (jobs_of_eval t ev).

(** The new evaluation of [trigger_drv_recovery] is sent as an event. *)
Definition recover_eval (now : NaiveDateTime) (w : Store) (x : EvaluationId * EvaluationRow) : Store :=
  let '(ev, e) := x in
  match ev_waiting_reason e with
  | Some (WGraphStuck _) =>
      if num_seconds_between now (ev_updated_at e) <? DRV_RECOVERY_GRACE_SECS then w
      else if negb (eval_blocked_on_unproducible_drv (st_db w) ev) then w
      else
        match ev_kind e, ev_project e with
        | KDrvRecovery, _ => update_evaluation_status w now ev e EFailed
        | _, None => w
        | _, Some _ => send w [DrvRecovery ev]
        end
  | _ => w
  end.

Definition recover_drv_stuck_evals (w : Store) (now : NaiveDateTime) : Store :=
  foldl (recover_eval now) w
    (List.filter (fun x => bool_decide (ev_status x.2 = EWaiting)) (map_to_list (t_evaluations (st_db w)))).

End waiting.

(** ** The other owners of a park *)

Section parks.
Context `{Chrono}.

(** [draining.rs] *)
Definition park_row (now : NaiveDateTime) (e : EvaluationRow) : EvaluationRow := {|
  ev_project := ev_project e; ev_status := EWaiting; ev_kind := ev_kind e;
  ev_waiting_reason := Some WDraining; ev_updated_at := now |}.

Definition unpark_row (now : NaiveDateTime) (e : EvaluationRow) : EvaluationRow := {|
  ev_project := ev_project e; ev_status := EQueued; ev_kind := ev_kind e;
  ev_waiting_reason := None; ev_updated_at := now |}.

Definition update_evals (t : Db) (p : EvaluationRow -> bool) (f : EvaluationRow -> EvaluationRow) : Db :=
  set_evaluations t ((fun e => if p e then f e else e) <$> t_evaluations t).

Definition parkable (e : EvaluationRow) : bool :=
  match ev_status e with
  | EQueued | EFetching | EEvaluatingFlake | EEvaluatingDerivation | EBuilding => true
  | _ => false
  end.

Definition park_active_evals (t : Db) (now : NaiveDateTime) : Db := update_evals t parkable (park_row now).

Definition parked_with (r : WaitingReason -> bool) (e : EvaluationRow) : bool :=
  bool_decide (ev_status e = EWaiting) && match ev_waiting_reason e with Some x => r x | None => false end.

Definition unpark_draining_evals (t : Db) (now : NaiveDateTime) : Db :=
  update_evals t (parked_with (fun r => bool_decide (r = WDraining))) (unpark_row now).

(** [unpark.rs]; [projects] are the organization's. *)
Definition unpark_for_org (t : Db) (now : NaiveDateTime) (projects : list ProjectId) (matches_reason : WaitingReason -> bool) : Db :=
  update_evals t (fun e => parked_with matches_reason e
    && match ev_project e with Some p => bool_decide (p ∈ projects) | None => false end) (unpark_row now).

Definition is_no_cache (r : WaitingReason) : bool := match r with WNoCache => true | _ => false end.
Definition is_storage_full (r : WaitingReason) : bool := match r with WCacheStorageFull => true | _ => false end.
Definition is_no_workers (r : WaitingReason) : bool :=
  match r with WWorkers _ n _ => Z.eqb n 0 | _ => false end.
Definition is_approval (r : WaitingReason) : bool := match r with WApproval _ _ => true | _ => false end.

Definition unpark_no_cache_for_org (t : Db) (now : NaiveDateTime) (projects : list ProjectId) : Db :=
  unpark_for_org t now projects is_no_cache.

Definition unpark_storage_full_for_org (t : Db) (now : NaiveDateTime) (projects : list ProjectId)
    (org_caches_all_full : bool) : Db :=
  if org_caches_all_full then t else unpark_for_org t now projects is_storage_full.

Definition unpark_no_workers_for_org (t : Db) (now : NaiveDateTime) (projects : list ProjectId)
    (has_eval_capable_registration : bool) : Db :=
  if negb has_eval_capable_registration then t else unpark_for_org t now projects is_no_workers.

(** The updated row, or [None] when the evaluation is not parked for approval. *)
Definition unpark_approval (t : Db) (now : NaiveDateTime) (ev : EvaluationId) : Db * option EvaluationRow :=
  match t_evaluations t !! ev with
  | Some e =>
      if parked_with is_approval e
      then (set_evaluations t (<[ev := unpark_row now e]> (t_evaluations t)), Some (unpark_row now e))
      else (t, None)
  | None => (t, None)
  end.

(** A parked evaluation of the pull request; rows in the order the query returns them. *)
Definition find_approval_gated_eval (rows : list (EvaluationId * EvaluationRow)) (project : ProjectId) (pr_number : Z)
    : option (EvaluationId * EvaluationRow) :=
  List.find (fun x => bool_decide (ev_project x.2 = Some project)
    && parked_with (fun r => match r with WApproval n _ => Z.eqb n pr_number | _ => false end) x.2) rows.

End parks.
