(* ===== verification/WaitingFacts.v ===== *)
(** * What the waiting-state sweep guarantees

    The sweep never leaves an evaluation building with nothing to do, leaves the parks of
    the other owners alone, and - draining - takes an approval park over. *)

From S2P Require Import Prelude Status Fixpoints ScoreContext JobData EdgeStream Retry BuildGraph Promotion Transitions Healing Settling WaitingState.

Section waiting_facts.
Context `{Chrono} (cat : Catalog) (cfg : EvalConfig) (nar_exists : string -> option bool).
Implicit Types (t : Db) (w : Store) (ev : EvaluationId) (e : EvaluationRow) (p : Pool).

Abbreviation sweep := (reconcile_waiting_state cat cfg nar_exists).
Abbreviation sweep_one := (reconcile_eval cat cfg nar_exists).

(** ** Nothing hangs *)

Lemma pending_active t ev : eval_pending_anchors t ev <> [] -> eval_active t ev = true.
Proof.
  unfold eval_pending_anchors, eval_active, eval_anchor_statuses. intros Hp.
  destruct (List.filter _ _) as [|x l] eqn:E; [done|].
  assert (Hx : In x (x :: l)) by (by left). rewrite <- E in Hx. apply filter_In in Hx as [Hx Ha].
  apply existsb_exists. exists (db_status x.2). split; [by apply (in_map (fun x => db_status x.2))|done].
Qed.

Lemma assess_building t ev caps r :
  assess_buildability cat cfg t ev caps = Some (EBuilding, r) -> eval_active t ev = true.
Proof.
  unfold assess_buildability. destruct (eval_pending_anchors t ev) as [|x l] eqn:E; [done|].
  intros _. apply pending_active. by rewrite E.
Qed.

Lemma build_phase_settles w now ev caps w' o :
  build_phase_decision cat cfg nar_exists w now ev caps = (w', o) -> settled_evals w ->
  settled_evals w' /\ forall r, o = Some (EBuilding, r) -> eval_active (st_db w') ev = true.
Proof.
  unfold build_phase_decision, attempt_graph_unstick. intros Hd Hw.
  assert (Hplain : (w, assess_buildability cat cfg (st_db w) ev caps) = (w', o) ->
    settled_evals w' /\ forall r, o = Some (EBuilding, r) -> eval_active (st_db w') ev = true).
  { intros [= <- <-]. split; [done|]. intros r. apply assess_building. }
  destruct (assess_buildability cat cfg (st_db w) ev caps) as [[s [reason|]]|] eqn:E; [|destruct s; auto|auto].
  destruct s; auto. destruct reason as [u ? ?| | | | | | |]; auto. destruct u; auto. clear Hplain.
  set (w1 := reconcile_build_graph w now nar_exists (Unstick ev)) in *.
  assert (H1 : settled_evals w1) by by apply reconcile_build_graph_settles.
  clearbody w1. set (stuck := Some (WGraphStuck _)) in Hd. clearbody stuck.
  destruct (assess_buildability cat cfg (st_db w1) ev caps) as [[s r]|] eqn:E1.
  - destruct s; injection Hd as <- <-; (split; [exact H1|]); intros r' Hr; try discriminate Hr. by eapply assess_building.
  - injection Hd as <- <-. split; [exact H1|]. intros r' Hr. discriminate Hr.
Qed.

Lemma outcome_settles w now p x w' o :
  reconcile_outcome cat cfg nar_exists w now p x = (w', o) -> settled_evals w ->
  settled_evals w' /\ forall r, o = Some (EBuilding, r) -> eval_active (st_db w') x.1 = true.
Proof.
  intros Ho Hw. destruct x as [ev e]. unfold reconcile_outcome in Ho. simpl.
  assert (Hrec : forall c, (decide_eval_recovery c (pool_eval_capable p) (pool_fetch_capable p) (connected_workers p)).1 <> EBuilding)
    by (intros c; unfold decide_eval_recovery; by destruct (capability_available _ _ _)).
  assert (Hdone : forall s o0, (s, o0) = (w', o) -> settled_evals s ->
    (forall r, o0 = Some (EBuilding, r) -> eval_active (st_db s) ev = true) ->
    settled_evals w' /\ forall r, o = Some (EBuilding, r) -> eval_active (st_db w') ev = true)
    by (by intros s o0 [= <- <-]).
  assert (Hphase : forall f, (match build_phase_decision cat cfg nar_exists w now ev (pool_caps p) with
      | (w, Some verdict) => (w, Some verdict) | (w, None) => (w, f) end) = (w', o) ->
    (forall r, f <> Some (EBuilding, r)) ->
    settled_evals w' /\ forall r, o = Some (EBuilding, r) -> eval_active (st_db w') ev = true).
  { intros f Hf Hnf. destruct (build_phase_decision _ _ _ _ _ _ _) as [w1 o1] eqn:E.
    destruct (build_phase_settles _ _ _ _ _ _ E Hw) as [H1 H2].
    destruct o1 as [v|]; [by apply (Hdone w1 (Some v))|]. apply (Hdone w1 f); [done|done|]. intros r Hr. by destruct (Hnf r). }
  assert (Hpre : forall r, decide_pre_build_target (ev_status e) (pool_eval_capable p) (pool_fetch_capable p)
      (connected_workers p) <> Some (EBuilding, r)).
  { intros r. unfold decide_pre_build_target. destruct (pre_build_capability _); [|done]. by destruct (capability_available _ _ _). }
  destruct (ev_status e) eqn:Hs; try (apply (Hdone w _ Ho Hw); intros r Hr; by destruct (Hpre r)).
  - by apply (build_phase_settles w now ev (pool_caps p)).
  - assert (Hn : forall c r, Some (decide_eval_recovery c (pool_eval_capable p) (pool_fetch_capable p) (connected_workers p))
        <> Some (EBuilding, r)) by (intros c r [= Hx]; by apply (f_equal fst) in Hx; apply Hrec in Hx).
    destruct (ev_waiting_reason e) as [[]|]; try (apply (Hphase _ Ho); intros r; apply Hn).
    + apply (Hdone w _ Ho Hw). intros r Hr. by destruct (Hn capability r).
    + apply (Hdone w _ Ho Hw). by intros r [=].
  all: apply (Hdone w _ Ho Hw); by intros r [=].
Qed.

Lemma hung_update_eval t ev f ev' :
  (forall e, ev_status (f e) = ev_status e) -> hung (update_eval t ev f) ev' -> hung t ev'.
Proof.
  intros Hf (e & He & Hs & Hr). simpl in He. destruct (decide (ev' = ev)) as [->|Hne].
  - rewrite lookup_alter_eq in He. destruct (t_evaluations t !! ev) as [e0|] eqn:E; [|done]. simpl in He.
    injection He as <-. exists e0. by rewrite Hf in Hs.
  - rewrite lookup_alter_ne in He by done. by exists e.
Qed.

Lemma persist_settles w ev c r : settled_evals w -> settled_evals (persist_waiting_reason w ev c r).
Proof.
  intros [Hl Hh]. unfold persist_waiting_reason. case_bool_decide; [done|]. split; [done|].
  intros ev' Hx%hung_update_eval; [by apply (Hh ev')|done].
Qed.

Lemma persist_active w ev c r ev' :
  eval_active (st_db (persist_waiting_reason w ev c r)) ev' = eval_active (st_db w) ev'.
Proof. unfold persist_waiting_reason. by case_bool_decide. Qed.

(** Entering the build phase with work left is fine. *)
Lemma enter_building_settles w now ev e :
  eval_active (st_db w) ev = true -> settled_evals w -> settled_evals (update_evaluation_status w now ev e EBuilding).
Proof.
  intros Ha [Hl Hh]. split; [by apply update_eval_linked|]. intros ev' (e' & He & Hs & Hj & Hx).
  revert He Hj Hx. unfold update_evaluation_status. destruct (validate_eval _ _); [|intros; by apply (Hh ev'); exists e'].
  destruct (t_evaluations (st_db w) !! ev) as [row|]; [|intros; by apply (Hh ev'); exists e'].
  destruct (eval_is_terminal _); [intros; by apply (Hh ev'); exists e'|]. simpl. intros He Hj Hx.
  destruct (decide (ev' = ev)) as [->|Hne].
  - by change (eval_active (st_db w) ev = false) in Hx; rewrite Ha in Hx.
  - rewrite lookup_insert_ne in He by done. apply (Hh ev'). by exists e'.
Qed.

Lemma sweep_one_settles now p w x : settled_evals w -> settled_evals (sweep_one now p w x).
Proof.
  intros Hw. unfold reconcile_eval. destruct (left_alone _); [done|].
  destruct (reconcile_outcome cat cfg nar_exists w now p x) as [w' o] eqn:E.
  destruct (outcome_settles _ _ _ _ _ _ E Hw) as [H1 H2]. destruct o as [[target reason]|]; [|done]. cbv zeta.
  assert (H3 := persist_settles _ x.1 (ev_waiting_reason x.2) reason H1).
  case_bool_decide; [done|]. destruct (decide (target = EBuilding)) as [->|Hne]; [|by apply update_eval_settles].
  apply enter_building_settles; [|done]. rewrite persist_active. by eapply H2.
Qed.

Lemma drain_settles now w x : settled_evals w -> settled_evals (drain_eval now w x).
Proof.
  intros Hw. destruct x as [ev e]. unfold drain_eval. destruct (drained_or_aborting e); [done|]. cbv zeta.
  case_bool_decide; [by apply persist_settles|]. apply update_eval_settles; [done|]. by apply persist_settles.
Qed.

Lemma foldl_settles {A} (f : Store -> A -> Store) l w :
  (forall w x, settled_evals w -> settled_evals (f w x)) -> settled_evals w -> settled_evals (foldl f w l).
Proof. intros Hf. revert w. induction l as [|x l IH]; intros w Hw; [done|]. by apply IH, Hf. Qed.

Lemma sweep_settles w now p draining : settled_evals w -> settled_evals (sweep w now p draining).
Proof.
  intros Hw. unfold reconcile_waiting_state. destruct draining; apply foldl_settles; try done; intros;
    [by apply drain_settles|by apply sweep_one_settles].
Qed.

Lemma recover_settles w now : settled_evals w -> settled_evals (recover_drv_stuck_evals w now).
Proof.
  intros Hw. unfold recover_drv_stuck_evals. apply foldl_settles; [|done]. clear w Hw.
  intros w [ev e] Hw. unfold recover_eval. destruct (ev_waiting_reason e) as [[]|]; try done.
  destruct (_ <? _)%Z; [done|]. destruct (negb _); [done|].
  destruct (ev_kind e), (ev_project e); try done; by apply update_eval_settles.
Qed.

(** ** Parks of other owners *)

Lemma persist_keeps_row w ev c r ev' e : ev <> ev' -> keeps_row ev' e w -> keeps_row ev' e (persist_waiting_reason w ev c r).
Proof.
  intros Hne Hr. unfold persist_waiting_reason. case_bool_decide; [done|]. unfold keeps_row. simpl.
  by rewrite lookup_alter_ne.
Qed.

Lemma update_keeps_row w now ev e0 s ev' e :
  ev <> ev' -> keeps_row ev' e w -> keeps_row ev' e (update_evaluation_status w now ev e0 s).
Proof.
  intros Hne Hr. unfold update_evaluation_status. destruct (validate_eval _ _); [|done].
  destruct (t_evaluations (st_db w) !! ev); [|done]. destruct (eval_is_terminal _); [done|].
  unfold keeps_row. simpl. by rewrite lookup_insert_ne.
Qed.

Lemma outcome_keeps_row w now p x w' o ev e :
  reconcile_outcome cat cfg nar_exists w now p x = (w', o) -> ev_status e <> EBuilding ->
  keeps_row ev e w -> keeps_row ev e w'.
Proof.
  intros Ho Hs Hr. assert (Hphase : forall x caps, keeps_row ev e (build_phase_decision cat cfg nar_exists w now x caps).1).
  { intros y caps. unfold build_phase_decision, attempt_graph_unstick.
    destruct (assess_buildability cat cfg (st_db w) y caps) as [[s [[u ? ?| | | | | | |]|]]|]; try destruct s; try destruct u; try done.
    destruct (assess_buildability _ _ _ _ _) as [[[] ?]|]; by apply reconcile_keeps_row. }
  destruct x as [ev0 e0]. unfold reconcile_outcome in Ho. specialize (Hphase ev0 (pool_caps p)).
  destruct (build_phase_decision cat cfg nar_exists w now ev0 (pool_caps p)) as [w1 [v|]]; simpl in Hphase;
    destruct (ev_status e0); try destruct (ev_waiting_reason e0) as [[]|]; injection Ho as <- <-; done.
Qed.

Lemma sweep_one_keeps_row now p w x ev e :
  ev_status e <> EBuilding -> keeps_row ev e w -> (x.1 = ev -> left_alone x.2 = true) ->
  keeps_row ev e (sweep_one now p w x).
Proof.
  intros Hs Hr Hx. unfold reconcile_eval. destruct (left_alone x.2) eqn:Hl; [done|].
  assert (Hne : x.1 <> ev) by (intros Heq; specialize (Hx Heq); congruence).
  destruct (reconcile_outcome cat cfg nar_exists w now p x) as [w' o] eqn:E.
  pose proof (outcome_keeps_row _ _ _ _ _ _ ev e E Hs Hr) as H1. destruct o as [[target reason]|]; [|done].
  cbv zeta. case_bool_decide; [by apply persist_keeps_row|]. apply update_keeps_row; [done|]. by apply persist_keeps_row.
Qed.

(** The reconciler respects the other owners: while the instance is not draining, a sweep
    leaves the row of an evaluation parked for approval, for a cache, for storage or for an
    abort exactly as it was, whatever workers are connected and whatever it does to the rest. *)
Theorem owned_parks_untouched w now p ev e r :
  t_evaluations (st_db w) !! ev = Some e -> ev_status e = EWaiting -> ev_waiting_reason e = Some r ->
  owned_elsewhere r = true ->
  t_evaluations (st_db (sweep w now p false)) !! ev = Some e.
Proof.
  intros He Hs Hr Ho. unfold reconcile_waiting_state. set (evals := List.filter _ _).
  assert (Hl : left_alone e = true) by (unfold left_alone; by rewrite Hs, Hr, Ho).
  assert (Hev : Forall (fun x => x.1 = ev -> left_alone x.2 = true) evals).
  { apply Forall_forall. intros [ev0 e0] Hx Heq. simpl in Heq. subst ev0. unfold evals in Hx.
    apply list_elem_of_In, filter_In in Hx as [Hx _]. apply list_elem_of_In, elem_of_map_to_list in Hx. simpl. congruence. }
  clearbody evals. change (keeps_row ev e (foldl (sweep_one now p) w evals)).
  assert (Hk : keeps_row ev e w) by done. clear He. revert w Hk. induction Hev as [|x evals Hx _ IH]; intros w Hk; [done|].
  simpl. apply IH. apply sweep_one_keeps_row; [by rewrite Hs|done|done].
Qed.

(** ** Draining takes an approval park over *)

Lemma drain_other now w x ev e : x.1 <> ev -> keeps_row ev e w -> keeps_row ev e (drain_eval now w x).
Proof.
  destruct x as [ev0 e0]. simpl. intros Hne Hr. unfold drain_eval. destruct (drained_or_aborting e0); [done|]. cbv zeta.
  case_bool_decide; [by apply persist_keeps_row|]. apply update_keeps_row; [done|]. by apply persist_keeps_row.
Qed.

Lemma drain_fold now ev e e' l : forall w,
  NoDup l.*1 -> keeps_row ev e w -> (ev, e) ∈ l ->
  (forall w, keeps_row ev e w -> keeps_row ev e' (drain_eval now w (ev, e))) ->
  keeps_row ev e' (foldl (drain_eval now) w l).
Proof.
  induction l as [|[ev0 e0] l IH]; intros w Hn Hr Hin Hd; [by apply elem_of_nil in Hin|].
  apply NoDup_cons in Hn as [Hni Hn]. cbn [foldl]. apply elem_of_cons in Hin as [[= <- <-]|Hin].
  - specialize (Hd w Hr). clear IH Hr Hn. revert Hd. generalize (drain_eval now w (ev, e)). clear w. revert Hni.
    induction l as [|y l IH]; intros Hni w Hd; [done|]. cbn [foldl]. apply not_elem_of_cons in Hni as [Hne Hni].
    apply IH; [done|]. apply drain_other; [|done]. intros Heq. by apply Hne.
  - apply IH; try done. apply drain_other; [|done]. simpl. intros ->. apply Hni.
    apply (list_elem_of_fmap_2 fst) in Hin. done.
Qed.

(** Draining lifts the approval gate: a sweep of a draining instance overwrites the park of
    an evaluation that waits for a pull request's approval, and the recovery that ends the
    draining moves it to [Queued] - although nobody approved it. *)
Theorem draining_lifts_approval w now p ev e n author :
  t_evaluations (st_db w) !! ev = Some e -> ev_status e = EWaiting -> ev_waiting_reason e = Some (WApproval n author) ->
  t_evaluations (unpark_draining_evals (st_db (sweep w now p true)) now) !! ev = Some (unpark_row now e).
Proof.
  intros He Hs Hr. unfold reconcile_waiting_state. set (evals := List.filter _ _).
  assert (Hk : keeps_row ev (with_waiting_reason (Some WDraining) e) (foldl (drain_eval now) w evals)).
  { apply (drain_fold now ev e); [|done| |].
    - unfold evals. pose proof (NoDup_fst_map_to_list (t_evaluations (st_db w))) as Hn.
      revert Hn. generalize (map_to_list (t_evaluations (st_db w))). intros l Hn.
      induction l as [|y l IH]; [constructor|]. apply NoDup_cons in Hn as [Hni Hn]. simpl.
      destruct (in_flight_eval _); [|by apply IH]. simpl. apply NoDup_cons. split; [|by apply IH].
      intros Hin. apply Hni. apply list_elem_of_fmap in Hin as (z & Hz & Hin). apply list_elem_of_fmap. exists z.
      split; [done|]. apply list_elem_of_In, filter_In in Hin as [Hin _]. by apply list_elem_of_In.
    - unfold evals. apply list_elem_of_In, filter_In. split; [apply list_elem_of_In; by apply elem_of_map_to_list|].
      simpl. by rewrite Hs.
    - clear w He evals. intros w Hk. unfold drain_eval, drained_or_aborting. rewrite Hs, Hr. cbv zeta.
      rewrite bool_decide_eq_true_2 by done. unfold persist_waiting_reason. rewrite bool_decide_eq_false_2 by done.
      unfold keeps_row. simpl. rewrite lookup_alter_eq. by rewrite Hk. }
  unfold unpark_draining_evals, update_evals. simpl. rewrite lookup_fmap. unfold keeps_row in Hk. rewrite Hk. simpl.
  unfold parked_with. simpl. by rewrite Hs.
Qed.

End waiting_facts.
