(* ===== verification/EvalResult.v ===== *)
(** * Recording a batch of discovered derivations

    [handle_eval_result] of [backend/gradient-scheduler/src/eval.rs]: the rows, outputs and
    input sources of the derivations a worker reports, their build-once anchors, the build
    jobs that tie them to the evaluation, and what the org's upstream caches offer.

    Reads succeed; every insert of a chunk may fail, and what follows a failure is what
    the code does. Fresh ids and the outcome of the upstream probe are arguments. *)

From S2P Require Import Prelude RustStr Status Fixpoints ScoreContext StorePath Proto JobData EdgeStream Retry BuildGraph Promotion Transitions WaitingState.

Section eval_result.
Context `{Chrono}.

(** ** Store paths ([gradient-sources/src/nar_path.rs]) *)

Definition get_hash_from_path (path : string) : result (string * string) SourceError :=
  match split_char "/" path with
  | _ :: _ :: _ :: base :: _ =>
      match split_char "-" base with
      | hash :: (_ :: _) as package => Ok (hash, join_with "-" (tail package))
      | _ => Err InvalidPath
      end
  | _ => Err InvalidPath
  end.

(** ** Tables *)

Definition set_derivations (t : Db) (l : list DerivationRow) : Db := {|
  t_anchors := t_anchors t; t_derivations := l; t_dependencies := t_dependencies t;
  t_build_jobs := t_build_jobs t; t_outputs := t_outputs t; t_input_sources := t_input_sources t;
  t_cached_paths := t_cached_paths t; t_references := t_references t; t_attempts := t_attempts t;
  t_evaluations := t_evaluations t; t_messages := t_messages t;
  t_entry_points := t_entry_points t |}.

Definition set_build_jobs (t : Db) (l : list BuildJobRow) : Db := {|
  t_anchors := t_anchors t; t_derivations := t_derivations t; t_dependencies := t_dependencies t;
  t_build_jobs := l; t_outputs := t_outputs t; t_input_sources := t_input_sources t;
  t_cached_paths := t_cached_paths t; t_references := t_references t; t_attempts := t_attempts t;
  t_evaluations := t_evaluations t; t_messages := t_messages t;
  t_entry_points := t_entry_points t |}.

Definition set_input_sources (t : Db) (l : list (DerivationId * string)) : Db := {|
  t_anchors := t_anchors t; t_derivations := t_derivations t; t_dependencies := t_dependencies t;
  t_build_jobs := t_build_jobs t; t_outputs := t_outputs t; t_input_sources := l;
  t_cached_paths := t_cached_paths t; t_references := t_references t; t_attempts := t_attempts t;
  t_evaluations := t_evaluations t; t_messages := t_messages t;
  t_entry_points := t_entry_points t |}.

Definition set_entry_points (t : Db) (l : list (EvaluationId * DerivationId)) : Db := {|
  t_anchors := t_anchors t; t_derivations := t_derivations t; t_dependencies := t_dependencies t;
  t_build_jobs := t_build_jobs t; t_outputs := t_outputs t; t_input_sources := t_input_sources t;
  t_cached_paths := t_cached_paths t; t_references := t_references t; t_attempts := t_attempts t;
  t_evaluations := t_evaluations t; t_messages := t_messages t;
  t_entry_points := l |}.

Definition set_messages (t : Db) (l : list (EvaluationId * MessageLevel)) : Db := {|
  t_anchors := t_anchors t; t_derivations := t_derivations t; t_dependencies := t_dependencies t;
  t_build_jobs := t_build_jobs t; t_outputs := t_outputs t; t_input_sources := t_input_sources t;
  t_cached_paths := t_cached_paths t; t_references := t_references t; t_attempts := t_attempts t;
  t_evaluations := t_evaluations t; t_messages := l;
  t_entry_points := t_entry_points t |}.

Definition set_dependencies (t : Db) (l : list (DerivationId * DerivationId)) : Db := {|
  t_anchors := t_anchors t; t_derivations := t_derivations t; t_dependencies := l;
  t_build_jobs := t_build_jobs t; t_outputs := t_outputs t; t_input_sources := t_input_sources t;
  t_cached_paths := t_cached_paths t; t_references := t_references t; t_attempts := t_attempts t;
  t_evaluations := t_evaluations t; t_messages := t_messages t;
  t_entry_points := t_entry_points t |}.

(** The database with the columns of derivations and features. *)
Record Graph := { gr_store : Store; gr_catalog : Catalog }.

Definition gr_db (g : Graph) : Db := st_db (gr_store g).
Definition on_graph (g : Graph) (t : Db) : Graph :=
  {| gr_store := on_db (gr_store g) t; gr_catalog := gr_catalog g |}.
Definition on_store (g : Graph) (w : Store) : Graph := {| gr_store := w; gr_catalog := gr_catalog g |}.

(** [Id::now_v7()], by use. *)
Record Fresh := {
  fr_derivation : nat -> DerivationId;
  fr_anchor : nat -> DerivationBuildId;
  fr_job : nat -> N;
  fr_feature : string -> FeatureId;
}.

(** Whether the insert of the [i]-th chunk goes through. *)
Record InsertOutcomes := {
  io_derivations : nat -> bool;
  io_outputs : nat -> bool;
  io_sources : nat -> bool;
  io_anchors : nat -> bool;
  io_jobs : nat -> bool;
  io_entry_points : nat -> bool;
}.

(** What surrounds the handler: the upstream caches of an evaluation's organization, the
    narinfo probe over them (hash to URL) and the projects' retention. *)
Record Surroundings := {
  su_upstreams : EvaluationRow -> list string;
  su_probe_batch : list string -> gmap string string -> gmap string (option string);
  su_keep_evaluations : ProjectId -> option nat;
}.

Variable fr : Fresh.
Variable io : InsertOutcomes.
Variable su : Surroundings.

(** ** Derivation rows *)

Record DerivationInsertBatch := {
  ib_ids : gmap string DerivationId;
  ib_derivations : list (DerivationRow * MDerivation);
  ib_outputs : list OutputRow;
}.

Definition or_unknown (r : result (string * string) SourceError) (name : string) : string * string :=
  match r with Ok p => p | Err _ => ("unknown", name) end.

Definition output_row (id : DerivationId) (o : DerivationOutput) : OutputRow :=
  let '(hash, package) := or_unknown (get_hash_from_path (do_path o)) (do_name o) in
  {| or_derivation := id; or_name := do_name o; or_hash := hash; or_package := package;
     or_is_cached := false; or_external_url := None |}.

Definition prepare_step (b : DerivationInsertBatch) (d : DiscoveredDerivation) : DerivationInsertBatch :=
  if has_key (ib_ids b) (disc_drv_path d) then b
  else
    let id := fr_derivation fr (length (ib_derivations b)) in
    let '(hash, name) := or_unknown (parse_drv_hash_name (disc_drv_path d)) (disc_drv_path d) in
    {| ib_ids := <[disc_drv_path d := id]> (ib_ids b);
       ib_derivations := ib_derivations b ++ [(
         {| dr_id := id; dr_hash := hash; dr_name := name |},
         {| md_hash := hash; md_name := name; md_architecture := disc_architecture d; md_pname := disc_pname d;
            md_prefer_local_build := disc_prefer_local_build d; md_is_fixed_output := disc_is_fixed_output d;
            md_closure_size := None |})];
       ib_outputs := ib_outputs b ++ map (output_row id) (disc_outputs d) |}.

Definition prepare (derivations : list DiscoveredDerivation) (existing : gmap string DerivationId)
    : DerivationInsertBatch :=
  foldl prepare_step {| ib_ids := existing; ib_derivations := []; ib_outputs := [] |} derivations.

(** The rows whose hash one of the reported paths has, by path. *)
Definition load_existing_derivations (t : Db) (derivations : list DiscoveredDerivation) : gmap string DerivationId :=
  find_rows (t_derivations t) (list_to_set (map disc_drv_path derivations)).

Definition add_derivations (g : Graph) (l : list (DerivationRow * MDerivation)) : Graph := {|
  gr_store := on_db (gr_store g) (set_derivations (gr_db g) (t_derivations (gr_db g) ++ map fst l));
  gr_catalog := {|
    cat_derivations := foldl (fun m x => <[dr_id x.1 := x.2]> m) (cat_derivations (gr_catalog g)) l;
    cat_features := cat_features (gr_catalog g); cat_feature_names := cat_feature_names (gr_catalog g) |} |}.

(** A failed chunk of derivations fails the evaluation; a failed chunk of outputs is logged. *)
Definition insert_batch (g : Graph) (now : NaiveDateTime) (ev : EvaluationId) (snapshot : EvaluationRow)
    (b : DerivationInsertBatch) : Graph * option (gmap string DerivationId) :=
  let '(rows, ok) := insert_until_failure (io_derivations io) 0 (chunks BATCH_SIZE (ib_derivations b)) in
  let g := add_derivations g rows in
  if ok then
    let outputs := insert_each (io_outputs io) 0 (chunks BATCH_SIZE (ib_outputs b)) in
    (on_graph g (set_outputs (gr_db g) (t_outputs (gr_db g) ++ outputs)), Some (ib_ids b))
  else (on_store g (update_evaluation_status_with_error (gr_store g) now ev snapshot EFailed), None).

(** ** Input sources *)

Definition source_hash (src : string) : option string :=
  match get_hash_from_path src, StorePath_parse src with
  | Ok (hash, _), Ok _ => Some hash
  | _, _ => None
  end.

(** Keep the first of equal rows: a [seen] set, or [ON CONFLICT DO NOTHING]. *)
Definition add_new {A} `{EqDecision A} (l : list A) (x : A) : list A := if bool_decide (x ∈ l) then l else l ++ [x].

Definition source_rows (derivations : list DiscoveredDerivation) (ids : gmap string DerivationId)
    : list (DerivationId * string) :=
  foldl add_new [] (concat (map (fun d =>
    match ids !! disc_drv_path d with
    | Some id => map (pair id) (omap source_hash (disc_input_sources d))
    | None => []
    end) derivations)).

Definition persist_input_sources (t : Db) (derivations : list DiscoveredDerivation)
    (ids : gmap string DerivationId) : Db :=
  set_input_sources t (foldl add_new (t_input_sources t)
    (insert_each (io_sources io) 0 (chunks BATCH_SIZE (source_rows derivations ids)))).

(** ** Anchors *)

(** Every output stored with its whole closure. *)
Definition compute_truly_substituted (t : Db) (d : DerivationId) : bool :=
  match outputs_of t d with
  | [] => false
  | outs => forallb (fun o => hash_cached t (or_hash o) && hash_closure_complete t (or_hash o)) outs
  end.

Definition is_cached_anywhere (o : OutputRow) : bool :=
  or_is_cached o || bool_decide (is_Some (or_external_url o)).

(** The outputs of some derivations, and the ones no cache is known to have. *)
Definition outputs_among (t : Db) (ids : list DerivationId) : list OutputRow :=
  List.filter (fun o => bool_decide (or_derivation o ∈ ids)) (t_outputs t).

Definition to_probe (outputs : list OutputRow) : gmap string string :=
  foldl (fun m o => <[or_hash o := String.append "/nix/store/"
      (String.append (or_hash o) (String.append "-" (or_package o)))]> m) ∅
    (List.filter (fun o => negb (is_cached_anywhere o)) outputs).

Definition derivations_all_outputs_available (outputs : list OutputRow) (available : gset string)
    : gset DerivationId :=
  let whole d := forallb (fun o => bool_decide (or_hash o ∈ available))
                   (List.filter (fun o => N.eqb (or_derivation o) d) outputs) in
  list_to_set (List.filter whole (map or_derivation outputs)).

(** A hit is recorded on every reported output with that hash that no cache had. *)
Definition record_hit (ids : list DerivationId) (found : gmap string (option string)) (o : OutputRow) : OutputRow :=
  if bool_decide (or_derivation o ∈ ids) && negb (is_cached_anywhere o) then
    match found !! or_hash o with
    | Some url => {| or_derivation := or_derivation o; or_name := or_name o; or_hash := or_hash o;
                     or_package := or_package o; or_is_cached := or_is_cached o; or_external_url := url |}
    | None => o
    end
  else o.

Definition compute_upstream_substitutable (t : Db) (snapshot : EvaluationRow) (ids : list DerivationId)
    : Db * gset DerivationId :=
  match ids, su_upstreams su snapshot, outputs_among t ids with
  | [], _, _ | _, [], _ | _, _, [] => (t, ∅)
  | _, endpoints, outputs =>
      let found := su_probe_batch su endpoints (to_probe outputs) in
      let t' := set_outputs t (map (record_hit ids found) (t_outputs t)) in
      let available := list_to_set (map or_hash
        (List.filter (fun o => bool_decide (is_Some (or_external_url o))) outputs)) ∪ dom found in
      (t', derivations_all_outputs_available outputs available)
  end.

(** The reported derivations with a row, once each. *)
Definition batch_ids (derivations : list DiscoveredDerivation) (ids : gmap string DerivationId) : list DerivationId :=
  foldl add_new [] (omap (fun d => ids !! disc_drv_path d) derivations).

Definition new_anchor (now : NaiveDateTime) (anchor_id : DerivationBuildId) (truly upstream : bool)
    (d : DiscoveredDerivation) : DerivationBuild := {|
  db_id := anchor_id;
  db_status := if truly then BSubstituted else BCreated;
  db_substitutable := if truly then false else if upstream then true else disc_substituted d;
  db_substituted := truly;
  db_edges_complete := false; db_edges_unresolved := false;
  db_closure_complete := truly;
  db_drv_closure_cached := false; db_attempt := 0;
  db_timeout_secs := i64 <$> disc_timeout_secs d;
  db_max_silent_secs := i64 <$> disc_max_silent_secs d;
  db_updated_at := now; db_queued_at := None; db_ready_at := None |}.

(** The first report of each derivation decides its anchor. *)
Definition anchor_step (now : NaiveDateTime) (ids : gmap string DerivationId) (truly upstream : DerivationId -> bool)
    (acc : list (DerivationId * DerivationBuild)) (d : DiscoveredDerivation) : list (DerivationId * DerivationBuild) :=
  match ids !! disc_drv_path d with
  | None => acc
  | Some id =>
      if bool_decide (id ∈ map fst acc) then acc
      else acc ++ [(id, new_anchor now (fr_anchor fr (length acc)) (truly id) (upstream id) d)]
  end.

Definition upsert_anchor (m : gmap DerivationId DerivationBuild) (x : DerivationId * DerivationBuild)
    : gmap DerivationId DerivationBuild :=
  match m !! x.1 with Some _ => m | None => <[x.1 := x.2]> m end.

Definition upsert_job (l : list BuildJobRow) (j : BuildJobRow) : list BuildJobRow :=
  if existsb (fun x => N.eqb (bjr_evaluation x) (bjr_evaluation j) && N.eqb (bjr_derivation x) (bjr_derivation j)) l
  then l else l ++ [j].

Definition job_rows (t : Db) (ev : EvaluationId) (all : list DerivationId) : list BuildJobRow :=
  imap (fun i x => {| bjr_id := fr_job fr i; bjr_evaluation := ev; bjr_derivation := x.1;
                      bjr_derivation_build := x.2 |})
    (omap (fun d => (fun a => (d, db_id a)) <$> t_anchors t !! d) all).

Definition set_substitutable (b : bool) (a : DerivationBuild) : DerivationBuild :=
  with_substitution b (db_substituted a) a.

(** The anchors an upstream offers are substituted, the others are not, unless they
    already succeeded. *)
Definition flag_substitutable (t : Db) (all : list DerivationId) (upstream : gset DerivationId) : Db :=
  let open a := negb (status_in TERMINAL_SUCCESS (db_status a)) in
  let t := update_where t (fun d a => bool_decide (d ∈ upstream) && open a) (set_substitutable true) in
  update_where t (fun d a => bool_decide (d ∈ all) && negb (bool_decide (d ∈ upstream)) && db_substitutable a && open a)
    (set_substitutable false).

Definition resolve_anchors (w : Store) (now : NaiveDateTime) (ev : EvaluationId) (snapshot : EvaluationRow)
    (derivations : list DiscoveredDerivation) (ids : gmap string DerivationId) : Store * bool :=
  let all := batch_ids derivations ids in
  let truly := compute_truly_substituted (st_db w) in
  let '(t, upstream) :=
    compute_upstream_substitutable (st_db w) snapshot (List.filter (fun d => negb (truly d)) all) in
  let anchors := foldl (anchor_step now ids truly (fun d => bool_decide (d ∈ upstream))) [] derivations in
  let '(inserted, ok) := insert_until_failure (io_anchors io) 0 (chunks BATCH_SIZE anchors) in
  let t := set_anchors t (foldl upsert_anchor (t_anchors t) inserted) in
  if negb ok then (update_evaluation_status_with_error (on_db w t) now ev snapshot EFailed, false)
  else
    let jobs := insert_each (io_jobs io) 0 (chunks BATCH_SIZE (job_rows t ev all)) in
    let t := set_build_jobs t (foldl upsert_job (t_build_jobs t) jobs) in
    let t := (requeue_failed_anchors t now all).1 in
    (on_db w (flag_substitutable t all upstream), true).

(** ** Features, messages, entry points *)

Definition feature_id (c : Catalog) (name : string) : FeatureId :=
  match List.filter (fun e => String.eqb e.2 name) (map_to_list (cat_feature_names c)) with
  | (id, _) :: _ => id
  | [] => fr_feature fr name
  end.

Definition add_feature (d : DerivationId) (c : Catalog) (name : string) : Catalog :=
  let id := feature_id c name in
  {| cat_derivations := cat_derivations c; cat_features := add_new (cat_features c) (d, id);
     cat_feature_names := <[id := name]> (cat_feature_names c) |}.

Definition add_system_features (c : Catalog) (derivations : list DiscoveredDerivation)
    (ids : gmap string DerivationId) : Catalog :=
  foldl (fun c d => match ids !! disc_drv_path d with
                    | Some id => foldl (add_feature id) c (disc_required_features d)
                    | None => c
                    end) c derivations.

Definition record_eval_messages (t : Db) (ev : EvaluationId) (warnings errors : list string) : Db :=
  let t := foldl (fun t _ => add_message t ev MWarning) t warnings in
  foldl (fun t _ => add_message t ev MError) t errors.

Definition entry_points_of (derivations : list DiscoveredDerivation) (ids : gmap string DerivationId)
    : list DerivationId :=
  omap (fun d => if String.eqb (disc_attr d) "" then None else ids !! disc_drv_path d) derivations.

Definition process_entry_points (w : Store) (ev : EvaluationId) (project : ProjectId)
    (drvs : list DerivationId) : Store :=
  let rows := insert_each (io_entry_points io) 0 (chunks BATCH_SIZE (map (pair ev) drvs)) in
  let w := on_db w (set_entry_points (st_db w) (t_entry_points (st_db w) ++ rows)) in
  match su_keep_evaluations su project with
  | Some keep => send w [EvaluationGc project keep]
  | None => w
  end.

(** [derivation_build_status.rs]: every reported entry point of the evaluation shows its
    anchor's status on the forge, pending ones too. *)
Definition announce_entry_point_statuses (w : Store) (ev : EvaluationId) (drvs : list DerivationId) : Store :=
  let t := st_db w in
  let entry d := bool_decide (d ∈ drvs) && bool_decide ((ev, d) ∈ t_entry_points t) in
  send w (omap (fun j => if entry (bjr_derivation j)
                         then (fun a => CiBuildStatus (bjr_id j) (db_status a)) <$> t_anchors t !! bjr_derivation j
                         else None) (jobs_of_eval t ev)).

(** ** Edges

    What the flushes of [EdgeStream] write. *)

Definition with_edge_flags (complete : bool) (unresolved : bool) (a : DerivationBuild) : DerivationBuild := {|
  db_id := db_id a; db_status := db_status a; db_substitutable := db_substitutable a;
  db_substituted := db_substituted a; db_edges_complete := complete; db_edges_unresolved := unresolved;
  db_closure_complete := db_closure_complete a; db_drv_closure_cached := db_drv_closure_cached a;
  db_attempt := db_attempt a; db_timeout_secs := db_timeout_secs a; db_max_silent_secs := db_max_silent_secs a;
  db_updated_at := db_updated_at a; db_queued_at := db_queued_at a; db_ready_at := db_ready_at a |}.

Definition insert_edges (t : Db) (edges : list (DerivationId * DerivationId)) : Db :=
  set_dependencies t (foldl add_new (t_dependencies t) edges).

Definition mark_edges_complete (t : Db) (complete : list DerivationId) : Db :=
  update_where t (fun d _ => bool_decide (d ∈ complete)) (with_edge_flags true false).

Definition set_edges_unresolved (t : Db) (ids : gset DerivationId) (value : bool) : Db :=
  update_where t (fun d _ => bool_decide (d ∈ ids)) (fun a => with_edge_flags (db_edges_complete a) value a).

(** The completion flush: the edges of the recorded derivations, and per source whether
    all of them could be resolved. *)
Definition store_deferred_deps (t : Db) (outcome : nat -> bool) (deferred : EdgePairs) : Db :=
  match flush_deferred_deps (Some (t_derivations t)) outcome deferred with
  | None => t
  | Some (edges, resolved, unresolved) =>
      set_edges_unresolved (set_edges_unresolved (insert_edges t edges) unresolved true) resolved false
  end.

(** ** The handler *)

Definition record_batch (g : Graph) (now : NaiveDateTime) (ev : EvaluationId) (snapshot : EvaluationRow)
    (project : option ProjectId) (derivations : list DiscoveredDerivation) (warnings errors : list string)
    : Graph * result unit unit :=
  let batch := prepare derivations (load_existing_derivations (gr_db g) derivations) in
  match insert_batch g now ev snapshot batch with
  | (g, None) => (g, Err tt)
  | (g, Some ids) =>
      let g := on_graph g (persist_input_sources (gr_db g) derivations ids) in
      let '(w, ok) := resolve_anchors (gr_store g) now ev snapshot derivations ids in
      if negb ok then (on_store g w, Err tt)
      else
        let w := on_db w (record_eval_messages (st_db w) ev warnings errors) in
        let w := match project with
                 | Some p =>
                     let drvs := entry_points_of derivations ids in
                     announce_entry_point_statuses (process_entry_points w ev p drvs) ev drvs
                 | None => w
                 end in
        ({| gr_store := send w [EvaluationProgress ev];
            gr_catalog := add_system_features (gr_catalog g) derivations ids |}, Ok tt)
  end.

Definition handle_eval_batch (g : Graph) (now : NaiveDateTime) (job : PendingEvalJob)
    (derivations : list DiscoveredDerivation) (warnings errors : list string) : Graph * result unit unit :=
  let ev := pe_evaluation_id job in
  match t_evaluations (gr_db g) !! ev with
  | None => (g, Err tt)
  | Some e =>
      match ev_status e with
      | EAborted => (g, Ok tt)
      | _ => record_batch g now ev e (pe_project_id job) (map canonical derivations) warnings errors
      end
  end.

End eval_result.
