(* ===== verification/EvalResultFacts.v ===== *)
(** * What a batch of derivations leaves behind

    [handle_eval_result]: anchors are built once, every reported derivation ends up with a
    row, an anchor and a build job, the substitutable flag is what the upstream caches
    offer, and no evaluation is left hanging. *)

From S2P Require Import Prelude RustStr Status Fixpoints ScoreContext StorePath Proto JobData EdgeStream Retry BuildGraph Promotion Cascade Transitions Healing Settling WaitingState EvalResult.

Section eval_result_facts.
Context `{Chrono}.
Implicit Types (t : Db) (w : Store) (d : DerivationId) (a : DerivationBuild) (ev : EvaluationId).

(** ** Kept anchors *)

(** An anchor keeps its identity; a success is not touched at all, and the only move is
    the requeue of a failure that is not reproducible. *)
Record kept t a a' : Prop := {
  kp_id : db_id a' = db_id a;
  kp_success : status_in TERMINAL_SUCCESS (db_status a) = true -> a' = a;
  kp_status : db_status a' = db_status a \/
    (status_in REQUEUEABLE (db_status a) = true /\ deterministic_build_failure t a = false /\ db_status a' = BCreated);
}.

(** Every anchor of [t] kept in [t'], whose attempts are the same. *)
Definition keeps t t' : Prop :=
  t_attempts t' = t_attempts t /\
  forall d a, t_anchors t !! d = Some a -> exists a', t_anchors t' !! d = Some a' /\ kept t a a'.

Lemma kept_refl t a : kept t a a.
Proof. split; auto. Qed.

Lemma kept_trans t a a1 a2 : kept t a a1 -> kept t a1 a2 -> kept t a a2.
Proof.
  intros [I1 S1 T1] [I2 S2 T2]. split; [congruence| |].
  - intros Hs. pose proof (S1 Hs) as ->. by apply S2.
  - destruct T1 as [T1|(R1 & D1 & T1)].
    + destruct T2 as [T2|(R2 & D2 & T2)]; [left; congruence|]. right. rewrite T1 in R2.
      split_and!; [done| |done]. unfold deterministic_build_failure in *. by rewrite I1 in D2.
    + right. split_and!; [done..|]. destruct T2 as [T2|(R2 & _)]; [congruence|]. rewrite T1 in R2. by vm_compute in R2.
Qed.

Lemma keeps_refl t : keeps t t.
Proof. split; [done|]. intros d a Ha. exists a. split; [done|apply kept_refl]. Qed.

Lemma keeps_trans t t1 t2 : keeps t t1 -> keeps t1 t2 -> keeps t t2.
Proof.
  intros [A1 K1] [A2 K2]. split; [congruence|]. intros d a Ha. destruct (K1 d a Ha) as (a1 & Ha1 & Hk1).
  destruct (K2 d a1 Ha1) as (a2 & Ha2 & Hk2). exists a2. split; [done|]. eapply kept_trans; [done|].
  destruct Hk2 as [I S T]. split; [done..|]. unfold deterministic_build_failure in *. by rewrite A1 in T.
Qed.

Lemma keeps_same t t' : t_attempts t' = t_attempts t -> t_anchors t' = t_anchors t -> keeps t t'.
Proof. intros Hat Han. split; [done|]. rewrite Han. intros d a Ha. exists a. split; [done|apply kept_refl]. Qed.

Lemma keeps_update t p f :
  (forall d a, t_anchors t !! d = Some a -> p d a = true -> kept t a (f a)) -> keeps t (update_where t p f).
Proof.
  intros Hf. split; [done|]. intros d a Ha. rewrite lookup_update_where, Ha. simpl. eexists. split; [done|].
  destruct (p d a) eqn:E; [by apply (Hf d)|apply kept_refl].
Qed.

Lemma keeps_requeue t now (ids : list DerivationId) :
  keeps t (requeue_where t now (list_to_set ids) (fun d => bool_decide (d ∈ ids))).1.
Proof.
  apply keeps_update. intros d a Ha Hp. apply andb_true_iff in Hp as [[Hin%bool_decide_eq_true Hr]%andb_true_iff Hnb].
  apply negb_true_iff, bool_decide_eq_false in Hnb. split; [done| |].
  - intros Hs. destruct (db_status a); by vm_compute in Hr, Hs.
  - right. split_and!; [done| |done]. apply not_true_is_false. intros Hd. apply Hnb.
    assert (Hc : d ∈ requeue_closure t (list_to_set ids)).
    { unfold requeue_closure. apply closure_spec. exists d. split; [by apply elem_of_list_to_set|done]. }
    apply closure_spec. exists d. split; [|done]. apply elem_of_list_to_set, elem_of_affected_keys.
    exists a. split; [done|]. by rewrite bool_decide_eq_true_2, Hd.
Qed.

Lemma keeps_requeue_chunks t now ids : keeps t (requeue_failed_anchors t now ids).1.
Proof.
  unfold requeue_failed_anchors. generalize (chunks IN_CHUNK_SIZE ids). intros cs.
  assert (Hg : forall n t0, keeps t t0 -> keeps t (foldl (fun acc chunk =>
    let '(t', n) := requeue_where acc.1 now (list_to_set chunk) (fun d => bool_decide (d ∈ chunk)) in
    (t', acc.2 + n)) (t0, n) cs).1); [|apply Hg, keeps_refl].
  induction cs as [|c cs IH]; intros n t0 Hk; [done|]. cbn [foldl fst snd].
  pose proof (keeps_requeue t0 now c) as Hr. destruct (requeue_where t0 now _ _) as [t1 m]. apply IH.
  by eapply keeps_trans.
Qed.

Lemma keeps_flags t all up : keeps t (flag_substitutable t all up).
Proof.
  unfold flag_substitutable. eapply keeps_trans; apply keeps_update.
  - intros d a _ [_ Hs%negb_true_iff]%andb_true_iff. split; [done|congruence|by left].
  - intros d a _ [_ Hs%negb_true_iff]%andb_true_iff. split; [done|congruence|by left].
Qed.

(** [ON CONFLICT DO NOTHING] leaves what is there. *)
Lemma upsert_anchors_keep l : forall m d a, m !! d = Some a -> foldl upsert_anchor m l !! d = Some a.
Proof.
  induction l as [|x l IH]; intros m d a Hm; [done|]. simpl. apply IH. unfold upsert_anchor.
  destruct (m !! x.1) eqn:E; [done|]. rewrite lookup_insert_ne; [done|congruence].
Qed.

Lemma upsert_anchors_new l : forall m d,
  is_Some (foldl upsert_anchor m l !! d) <-> is_Some (m !! d) \/ d ∈ map fst l.
Proof.
  induction l as [|x l IH]; intros m d; simpl; [rewrite elem_of_nil; tauto|].
  rewrite IH, elem_of_cons. unfold upsert_anchor. destruct (m !! x.1) as [b|] eqn:E.
  - split; [tauto|]. intros [|[->|]]; [by left|left; eauto|by right].
  - destruct (decide (d = x.1)) as [->|Hne]; [rewrite lookup_insert_eq; naive_solver|].
    rewrite lookup_insert_ne by done. naive_solver.
Qed.

Lemma keeps_upsert t l : keeps t (set_anchors t (foldl upsert_anchor (t_anchors t) l)).
Proof. split; [done|]. intros d a Ha. exists a. split; [by apply upsert_anchors_keep|apply kept_refl]. Qed.

Lemma upsert_anchors_lookup l : forall m d a,
  foldl upsert_anchor m l !! d = Some a -> m !! d = Some a \/ (d, a) ∈ l.
Proof.
  induction l as [|x l IH]; intros m d a Ha; [by left|]. simpl in Ha. apply IH in Ha as [Ha|Ha]; [|right; by constructor].
  unfold upsert_anchor in Ha. destruct (m !! x.1) eqn:E; [by left|].
  destruct (decide (d = x.1)) as [->|Hne].
  - rewrite lookup_insert_eq in Ha. injection Ha as <-. right. destruct x. constructor.
  - rewrite lookup_insert_ne in Ha by done. by left.
Qed.

(** ** The steps of a batch *)

(** What recording an error does to the tables. *)
Lemma failed_eval_tables w now ev e s :
  let t' := st_db (update_evaluation_status_with_error w now ev e s) in
  t_anchors t' = t_anchors (st_db w) /\ t_attempts t' = t_attempts (st_db w) /\
  t_build_jobs t' = t_build_jobs (st_db w) /\
  forall ev', t_evaluations t' !! ev' = t_evaluations (st_db w) !! ev' \/
    (ev' = ev /\ exists row e', t_evaluations (st_db w) !! ev' = Some row /\ t_evaluations t' !! ev' = Some e' /\
       ev_project e' = ev_project row /\ ev_status e' = s).
Proof.
  unfold update_evaluation_status_with_error. destruct (eval_is_terminal _); [by split_and!; auto|].
  unfold update_evaluation_status. destruct (validate_eval _ _); [|by split_and!; auto].
  cbn [on_db st_db add_message t_evaluations]. destruct (t_evaluations (st_db w) !! ev) as [row|] eqn:E; [|by split_and!; auto].
  destruct (eval_is_terminal (ev_status row)); [by split_and!; auto|]. split_and!; [done..|]. intros ev'. simpl.
  destruct (decide (ev' = ev)) as [->|Hne]; [right; rewrite lookup_insert_eq; eauto 10|left; by rewrite lookup_insert_ne].
Qed.

Lemma upstream_tables su t e ids :
  exists l, (compute_upstream_substitutable su t e ids).1 = set_outputs t l.
Proof.
  unfold compute_upstream_substitutable.
  destruct ids; [|destruct (su_upstreams su e); [|destruct (outputs_among t _)]]; simpl;
    first [by eexists | exists (t_outputs t); by destruct t].
Qed.

(** The anchors a batch brings, with fresh ids in order. *)
Definition batch_anchors fr now (ids : gmap string DerivationId) truly upstream derivations :=
  foldl (anchor_step fr now ids truly upstream) [] derivations.

Lemma batch_anchors_spec fr now ids truly upstream derivations :
  let l := batch_anchors fr now ids truly upstream derivations in
  (forall i x, l !! i = Some x -> db_id x.2 = fr_anchor fr i) /\
  (forall d, d ∈ map fst l <-> d ∈ omap (fun x => ids !! disc_drv_path x) derivations).
Proof.
  unfold batch_anchors. induction derivations as [|x ds IH] using rev_ind; [split; [done|intros d; by rewrite !elem_of_nil]|].
  cbv zeta in *. rewrite foldl_snoc. destruct IH as [Hi Hd]. set (l := foldl _ _ ds) in *. clearbody l.
  unfold anchor_step. split.
  - intros i y. destruct (ids !! disc_drv_path x) as [id|]; [|apply Hi]. case_bool_decide; [apply Hi|].
    rewrite lookup_app_Some. intros [?|[Hge Hy]]; [by apply Hi|].
    apply list_lookup_singleton_Some in Hy as [Hz <-]. simpl. f_equal. lia.
  - intros d'. rewrite omap_app, elem_of_app, <- Hd. simpl.
    destruct (ids !! disc_drv_path x) as [id|] eqn:E; simpl; [|rewrite elem_of_nil; tauto].
    rewrite list_elem_of_singleton. case_bool_decide as Hin; [naive_solver|].
    rewrite map_app, elem_of_app. simpl. by rewrite list_elem_of_singleton.
Qed.

(** Ids no table holds yet. *)
Definition fresh_anchors (fr : Fresh) t : Prop :=
  (forall i j, fr_anchor fr i = fr_anchor fr j -> i = j) /\
  (forall i d a, t_anchors t !! d = Some a -> db_id a <> fr_anchor fr i).

Definition unique_anchor_ids t : Prop :=
  forall d d' a a', t_anchors t !! d = Some a -> t_anchors t !! d' = Some a' -> db_id a = db_id a' -> d = d'.

Lemma upsert_unique fr t l :
  fresh_anchors fr t -> (forall i x, l !! i = Some x -> db_id x.2 = fr_anchor fr i) ->
  unique_anchor_ids t -> unique_anchor_ids (set_anchors t (foldl upsert_anchor (t_anchors t) l)).
Proof.
  intros [Hinj Hnew] Hl Hu d d' a a' Ha Ha' Heq. simpl in Ha, Ha'.
  apply upsert_anchors_lookup in Ha as [Ha|Ha]; apply upsert_anchors_lookup in Ha' as [Ha'|Ha'].
  - by eapply Hu.
  - apply list_elem_of_lookup in Ha' as [i Hi]. apply Hl in Hi. exfalso. eapply Hnew; [exact Ha|]. by rewrite Heq, <- Hi.
  - apply list_elem_of_lookup in Ha as [i Hi]. apply Hl in Hi. exfalso. eapply Hnew; [exact Ha'|]. by rewrite <- Heq, <- Hi.
  - apply list_elem_of_lookup in Ha as [i Hi]. apply list_elem_of_lookup in Ha' as [i' Hi'].
    pose proof (Hl _ _ Hi) as E. pose proof (Hl _ _ Hi') as E'. simpl in *.
    assert (i = i') as -> by (apply Hinj; congruence). congruence.
Qed.

(** ** Growth *)

(** What a batch of [ev] may do to the tables the builds live in. *)
Record grown ev t t' : Prop := {
  gn_keeps : keeps t t';
  gn_evals ev' : t_evaluations t' !! ev' = t_evaluations t !! ev' \/
    (ev' = ev /\ exists e e', t_evaluations t !! ev' = Some e /\ t_evaluations t' !! ev' = Some e' /\
       ev_project e' = ev_project e /\ ev_status e' = EFailed);
  gn_jobs j : j ∈ t_build_jobs t -> j ∈ t_build_jobs t';
  gn_new_jobs j : j ∈ t_build_jobs t' -> j ∈ t_build_jobs t \/
    (bjr_evaluation j = ev /\ exists a, t_anchors t' !! bjr_derivation j = Some a /\ db_id a = bjr_derivation_build j);
  gn_unique : unique_anchor_ids t -> unique_anchor_ids t';
}.

Lemma grown_same ev t t' :
  t_attempts t' = t_attempts t -> t_anchors t' = t_anchors t -> t_evaluations t' = t_evaluations t ->
  t_build_jobs t' = t_build_jobs t -> grown ev t t'.
Proof.
  intros Hat Han He Hj. split; [by apply keeps_same|rewrite He; by left|by rewrite Hj|rewrite Hj; by left|].
  unfold unique_anchor_ids. by rewrite Han.
Qed.

Lemma grown_trans ev t t1 t2 : grown ev t t1 -> grown ev t1 t2 -> grown ev t t2.
Proof.
  intros [K1 E1 J1 N1 U1] [K2 E2 J2 N2 U2]. split; [by eapply keeps_trans| |auto| |auto].
  - intros ev'. destruct (E2 ev') as [Heq|(-> & e1 & e2 & He1 & He2 & Hp & Hs)]; [rewrite Heq; apply E1|].
    right. split; [done|]. destruct (E1 ev) as [Heq|(_ & e0 & e1' & He0 & He1' & Hp0 & _)].
    + exists e1, e2. by rewrite <- Heq.
    + exists e0, e2. simplify_eq. split_and!; [done..|congruence|done].
  - intros j Hj. destruct (N2 j Hj) as [Hj1|?]; [|by right]. destruct (N1 j Hj1) as [?|(He & a & Ha & Hid)]; [by left|].
    right. split; [done|]. destruct K2 as [_ K2]. destruct (K2 _ _ Ha) as (a2 & Ha2 & Hk). exists a2.
    split; [done|]. by rewrite (kp_id _ _ _ Hk).
Qed.

Lemma grown_quiet ev t t' : keeps t t' -> accounted t t' [] -> grown ev t t'.
Proof.
  intros Hk [Hj He Hid _]. split; [done|rewrite He; by left|by rewrite Hj|rewrite Hj; by left|].
  intros Hu d d' a a' Ha Ha' Heq. pose proof (Hid d) as H1. pose proof (Hid d') as H2. rewrite Ha in H1. rewrite Ha' in H2.
  destruct (t_anchors t !! d) as [b|] eqn:Hb; [|done]. destruct (t_anchors t !! d') as [b'|] eqn:Hb'; [|done].
  injection H1 as H1. injection H2 as H2. eapply Hu; eauto. congruence.
Qed.

Lemma quiet_substitutable t all up : accounted t (flag_substitutable t all up) [].
Proof. unfold flag_substitutable. eapply quiet_trans; by apply accounted_columns. Qed.

Lemma grown_failed w now ev e : grown ev (st_db w) (st_db (update_evaluation_status_with_error w now ev e EFailed)).
Proof.
  destruct (failed_eval_tables w now ev e EFailed) as (Han & Hat & Hj & He). split; [by apply keeps_same|done|..].
  - by rewrite Hj.
  - rewrite Hj. by left.
  - unfold unique_anchor_ids. by rewrite Han.
Qed.

Lemma grown_upsert ev fr t l :
  fresh_anchors fr t -> (forall i x, l !! i = Some x -> db_id x.2 = fr_anchor fr i) ->
  grown ev t (set_anchors t (foldl upsert_anchor (t_anchors t) l)).
Proof.
  intros Hf Hl. split; [apply keeps_upsert|by left|done|by left|]. by apply (upsert_unique fr).
Qed.

(** ** Build jobs *)

Lemma upsert_jobs_spec l : forall js,
  (forall j, j ∈ js -> j ∈ foldl upsert_job js l) /\
  (forall j, j ∈ foldl upsert_job js l -> j ∈ js \/ j ∈ l) /\
  (forall j, j ∈ l -> exists j', j' ∈ foldl upsert_job js l /\
     bjr_evaluation j' = bjr_evaluation j /\ bjr_derivation j' = bjr_derivation j).
Proof.
  induction l as [|x l IH]; intros js; simpl.
  { split_and!; [done|by left|]. intros j Hj. by apply elem_of_nil in Hj. }
  destruct (IH (upsert_job js x)) as (H1 & H2 & H3). clear IH.
  assert (Hkeep : forall j, j ∈ js -> j ∈ upsert_job js x).
  { intros j Hj. unfold upsert_job. destruct (existsb _ _); [done|]. apply elem_of_app. by left. }
  split_and!.
  - auto.
  - intros j Hj. destruct (H2 j Hj) as [Hx|Hx]; [|right; by constructor]. unfold upsert_job in Hx.
    destruct (existsb _ _); [by left|]. apply elem_of_app in Hx as [Hx|Hx%list_elem_of_singleton]; [by left|right; subst; constructor].
  - intros j [->|Hj]%elem_of_cons; [|by apply H3].
    assert (Hx : exists j', j' ∈ upsert_job js x /\ bjr_evaluation j' = bjr_evaluation x /\ bjr_derivation j' = bjr_derivation x).
    { unfold upsert_job. destruct (existsb _ js) eqn:E.
      - apply existsb_exists in E as (j' & Hj' & [He%N.eqb_eq Hd%N.eqb_eq]%andb_true_iff).
        exists j'. split; [|done]. by apply list_elem_of_In.
      - exists x. split; [|done]. apply elem_of_app. right. by apply list_elem_of_singleton. }
    destruct Hx as (j' & Hj' & Heq). exists j'. split; [by apply H1|done].
Qed.

Lemma elem_of_job_rows fr t ev all j :
  j ∈ job_rows fr t ev all ->
  bjr_evaluation j = ev /\ exists a, t_anchors t !! bjr_derivation j = Some a /\ db_id a = bjr_derivation_build j.
Proof.
  unfold job_rows. intros (i & [d b] & -> & Hx)%elem_of_lookup_imap. simpl. split; [done|].
  apply list_elem_of_lookup_2, list_elem_of_omap in Hx as (d' & _ & Hx).
  destruct (t_anchors t !! d') as [a|] eqn:E; simplify_eq/=. eauto.
Qed.

Lemma job_rows_complete fr t ev all d a :
  d ∈ all -> t_anchors t !! d = Some a ->
  exists j, j ∈ job_rows fr t ev all /\ bjr_evaluation j = ev /\ bjr_derivation j = d.
Proof.
  intros Hd Ha. unfold job_rows. set (l := omap _ all).
  assert (Hin : (d, db_id a) ∈ l) by (apply list_elem_of_omap; exists d; by rewrite Ha).
  apply list_elem_of_lookup in Hin as [i Hi]. eexists. split; [apply elem_of_lookup_imap; by exists i, (d, db_id a)|done].
Qed.

(** A subsequence of the rows to insert. *)
Lemma insert_each_incl {A} outcome (cs : list (list A)) : forall i x, x ∈ insert_each outcome i cs -> x ∈ concat cs.
Proof.
  induction cs as [|c cs IH]; intros i x; simpl; [done|]. rewrite !elem_of_app. intros [Hx|Hx]; [|right; by eapply IH].
  destruct (outcome i); [by left|by apply elem_of_nil in Hx].
Qed.

Lemma BATCH_SIZE_pos : BATCH_SIZE <> 0%nat.
Proof. by vm_compute. Qed.

Lemma grown_jobs ev fr io t all :
  grown ev t (set_build_jobs t (foldl upsert_job (t_build_jobs t)
    (insert_each (io_jobs io) 0 (chunks BATCH_SIZE (job_rows fr t ev all))))).
Proof.
  destruct (upsert_jobs_spec (insert_each (io_jobs io) 0 (chunks BATCH_SIZE (job_rows fr t ev all))) (t_build_jobs t)) as (H1 & H2 & _).
  split; [by apply keeps_same|by left|done| |done]. intros j Hj. apply H2 in Hj as [Hj|Hj]; [by left|right].
  apply insert_each_incl in Hj. rewrite concat_chunks in Hj by apply BATCH_SIZE_pos. by apply elem_of_job_rows in Hj.
Qed.

Lemma prefix_ids fr (l k : list (DerivationId * DerivationBuild)) :
  l `prefix_of` k -> (forall i x, k !! i = Some x -> db_id x.2 = fr_anchor fr i) ->
  forall i x, l !! i = Some x -> db_id x.2 = fr_anchor fr i.
Proof. intros Hp Hk i x Hx. apply Hk. by eapply prefix_lookup_Some. Qed.

Lemma resolve_grown fr io su w now ev e derivations ids :
  fresh_anchors fr (st_db w) ->
  grown ev (st_db w) (st_db (resolve_anchors fr io su w now ev e derivations ids).1).
Proof.
  intros Hf. unfold resolve_anchors. cbv zeta. set (all := batch_ids _ _). set (todo := List.filter _ all).
  destruct (upstream_tables su (st_db w) e todo) as [l Hl].
  destruct (compute_upstream_substitutable su (st_db w) e todo) as [t up]. simpl in Hl. subst t.
  set (anchors := foldl _ [] derivations).
  pose proof (insert_until_failure_spec (io_anchors io) 0 (chunks BATCH_SIZE anchors)) as Hins.
  destruct (insert_until_failure _ _ _) as [inserted ok]. destruct Hins as [Hpre _].
  rewrite concat_chunks in Hpre by apply BATCH_SIZE_pos.
  pose proof (prefix_ids fr _ _ Hpre (proj1 (batch_anchors_spec fr now ids _ _ derivations))) as Hids.
  clearbody anchors todo all. clear Hpre.
  set (t0 := set_outputs (st_db w) l). assert (H0 : grown ev (st_db w) t0) by by apply grown_same.
  assert (H1 : grown ev (st_db w) (set_anchors t0 (foldl upsert_anchor (t_anchors t0) inserted)))
    by (eapply grown_trans; [exact H0|]; by apply (grown_upsert ev fr t0)).
  set (t1 := set_anchors t0 _) in *. clearbody t1. destruct ok; cbn [negb fst st_db on_db].
  - eapply grown_trans; [exact H1|]. eapply grown_trans; [apply (grown_jobs ev fr io t1 all)|].
    eapply grown_trans; [apply grown_quiet; [apply keeps_requeue_chunks|apply quiet_requeue_chunks]|].
    apply grown_quiet; [apply keeps_flags|apply quiet_substitutable].
  - eapply grown_trans; [exact H1|]. apply (grown_failed (on_db w t1)).
Qed.

Lemma messages_tables t ev ws es : exists l, record_eval_messages t ev ws es = set_messages t l.
Proof.
  unfold record_eval_messages.
  assert (Hg : forall lvl (l : list string) t0, (exists k, t0 = set_messages t k) ->
    exists k, foldl (fun t1 _ => add_message t1 ev lvl) t0 l = set_messages t k).
  { intros lvl l. induction l as [|x l IH]; intros t0 [k ->]; [by exists k|]. apply IH. by eexists. }
  apply Hg, Hg. exists (t_messages t). by destruct t.
Qed.

Lemma entry_points_tables io su w ev project drvs :
  exists l, st_db (process_entry_points io su w ev project drvs) = set_entry_points (st_db w) l.
Proof. unfold process_entry_points. destruct (su_keep_evaluations su project); simpl; by eexists. Qed.

(** The last part of a batch moves no build. *)
Lemma batch_tail_tables io su w ev project drvs ws es :
  let w1 := on_db w (record_eval_messages (st_db w) ev ws es) in
  let w2 := match project with
            | Some p => announce_entry_point_statuses (process_entry_points io su w1 ev p drvs) ev drvs
            | None => w1
            end in
  exists l k, st_db w2 = set_entry_points (set_messages (st_db w) l) k.
Proof.
  cbv zeta. destruct (messages_tables (st_db w) ev ws es) as [l Hl]. exists l. destruct project as [p|].
  - destruct (entry_points_tables io su (on_db w (record_eval_messages (st_db w) ev ws es)) ev p drvs) as [k Hk].
    exists k. unfold announce_entry_point_statuses, send. cbn [st_db]. rewrite Hk. cbn [st_db on_db]. by rewrite Hl.
  - exists (t_entry_points (st_db w)). cbn [st_db on_db]. rewrite Hl. by destruct (st_db w).
Qed.

Lemma batch_grown fr io su g now job derivations ws es :
  fresh_anchors fr (gr_db g) ->
  grown (pe_evaluation_id job) (gr_db g) (gr_db (handle_eval_batch fr io su g now job derivations ws es).1).
Proof.
  intros Hf. unfold handle_eval_batch. set (ev := pe_evaluation_id job).
  assert (Hrefl : grown ev (gr_db g) (gr_db g)) by by apply grown_same.
  destruct (t_evaluations (gr_db g) !! ev) as [e|]; [|done].
  assert (Hb : grown ev (gr_db g)
    (gr_db (record_batch fr io su g now ev e (pe_project_id job) (map canonical derivations) ws es).1)); [|by destruct (ev_status e)].
  generalize (map canonical derivations). clear derivations. intros derivations.
  unfold record_batch, insert_batch. set (batch := prepare _ _ _). clearbody batch.
  destruct (insert_until_failure _ _ _) as [rows ok]. destruct ok.
  2:{ apply (grown_trans ev _ (gr_db (add_derivations g rows))); [by apply grown_same|].
      apply (grown_failed (gr_store (add_derivations g rows))). }
  set (g1 := on_graph _ (persist_input_sources _ _ _ _)).
  assert (H1 : grown ev (gr_db g) (gr_db g1)) by by apply grown_same.
  assert (Hf1 : fresh_anchors fr (gr_db g1)) by done. clearbody g1.
  pose proof (resolve_grown fr io su (gr_store g1) now ev e derivations (ib_ids batch) Hf1) as H2.
  destruct (resolve_anchors _ _ _ _ _ _ _ _ _) as [w ok]. simpl in H2.
  destruct ok; cbn [negb fst gr_db gr_store on_store].
  - destruct (batch_tail_tables io su w ev (pe_project_id job) (entry_points_of derivations (ib_ids batch)) ws es) as (l & k & Hw).
    cbv zeta in Hw. eapply grown_trans; [exact H1|]. eapply grown_trans; [exact H2|]. unfold gr_db at 1. cbn [gr_store st_db send].
    rewrite Hw. by apply grown_same.
  - by eapply grown_trans.
Qed.

(** ** Build once *)

(** A batch never rebuilds: whatever inserts fail, every anchor that exists keeps its
    identity, one that succeeded is not touched at all, and the only move is the requeue of
    a failed or aborted anchor whose builder did not fail reproducibly; existing build jobs
    stay, and every new one belongs to the reporting evaluation and names its derivation's
    anchor. *)
Theorem batch_builds_once fr io su g now job derivations ws es :
  fresh_anchors fr (gr_db g) ->
  let t := gr_db g in
  let t' := gr_db (handle_eval_batch fr io su g now job derivations ws es).1 in
  (forall d a, t_anchors t !! d = Some a -> exists a', t_anchors t' !! d = Some a' /\ db_id a' = db_id a /\
     (is_terminal_success (db_status a) = true -> a' = a) /\
     (db_status a' <> db_status a ->
        status_in REQUEUEABLE (db_status a) = true /\ deterministic_build_failure t a = false /\
        db_status a' = BCreated)) /\
  (forall j, j ∈ t_build_jobs t -> j ∈ t_build_jobs t') /\
  (forall j, j ∈ t_build_jobs t' -> j ∈ t_build_jobs t \/
     (bjr_evaluation j = pe_evaluation_id job /\
      exists a, t_anchors t' !! bjr_derivation j = Some a /\ db_id a = bjr_derivation_build j)).
Proof.
  intros Hf t t'. destruct (batch_grown fr io su g now job derivations ws es Hf) as [[_ K] _ J N _].
  split; [|done]. intros d a Ha. destruct (K d a Ha) as (a' & Ha' & [I S T]). exists a'. split_and!; [done|done| |].
  - rewrite <- terminal_success_in. exact S.
  - intros Hne. by destruct T as [T|T].
Qed.

(** ** Settling *)

Lemma grown_linked ev t t' : grown ev t t' -> jobs_linked t -> jobs_linked t'.
Proof.
  intros [[_ K] _ J N U] [Hl Hu]. split; [|by apply U]. intros j Hj. destruct (N j Hj) as [Hj0|(_ & Ha)]; [|done].
  destruct (Hl j Hj0) as (a & Ha & Hid). destruct (K _ _ Ha) as (a' & Ha' & Hk). exists a'. split; [done|].
  by rewrite (kp_id _ _ _ Hk).
Qed.

Lemma elem_of_jobs_of_eval t ev j : j ∈ jobs_of_eval t ev <-> j ∈ t_build_jobs t /\ bjr_evaluation j = ev.
Proof. unfold jobs_of_eval. rewrite list_elem_of_In, filter_In, <- list_elem_of_In. by rewrite N.eqb_eq. Qed.

Lemma grown_settles w w' ev :
  settled_evals w -> (forall e, t_evaluations (st_db w) !! ev = Some e -> ev_status e <> EBuilding) ->
  grown ev (st_db w) (st_db w') -> settled_evals w'.
Proof.
  intros [Hl Hh] Hb Hg. split; [by eapply grown_linked|]. destruct Hg as [[_ K] E J N _].
  intros ev' (e & He & Hs & Hjobs & Hact). destruct (E ev') as [Heq|(-> & e0 & e' & _ & He' & _ & Hf)]; [|congruence].
  rewrite He in Heq. assert (Hne : ev' <> ev) by (intros ->; by apply (Hb e)).
  apply (Hh ev'). exists e. split_and!; [done|done| |].
  - destruct (jobs_of_eval (st_db w') ev') as [|j l] eqn:Ej; [done|].
    assert (Hj : j ∈ jobs_of_eval (st_db w') ev') by (rewrite Ej; constructor).
    apply elem_of_jobs_of_eval in Hj as [Hj He2]. destruct (N j Hj) as [Hj0|(Hx & _)]; [|congruence]. intros Hnil.
    assert (Hj1 : j ∈ jobs_of_eval (st_db w) ev') by by apply elem_of_jobs_of_eval.
    rewrite Hnil in Hj1. by apply elem_of_nil in Hj1.
  - apply not_true_is_false. intros Ht. apply not_true_iff_false in Hact. apply Hact.
    apply eval_active_spec in Ht as (d & a & j & Ha & Hact0 & Hj & Hje & Hid). apply eval_active_spec.
    destruct (K d a Ha) as (a' & Ha' & [I S T]). exists d, a', j. split_and!; [done| |by apply J|done|congruence].
    destruct T as [->|(_ & _ & ->)]; done.
Qed.

(** A batch of an evaluation that is not building yet leaves nothing hanging. *)
Lemma batch_settles fr io su w cat now job derivations ws es :
  fresh_anchors fr (st_db w) ->
  (forall e, t_evaluations (st_db w) !! pe_evaluation_id job = Some e -> ev_status e <> EBuilding) ->
  settled_evals w ->
  settled_evals (gr_store (handle_eval_batch fr io su {| gr_store := w; gr_catalog := cat |} now job derivations ws es).1).
Proof. intros Hf Hb Hw. eapply grown_settles; [done|done|]. by apply (batch_grown fr io su {| gr_store := w; gr_catalog := cat |}). Qed.

Lemma quiet_edges t edges : accounted t (insert_edges t edges) [].
Proof. split; try done. intros d a a' Ha Ha'. simpl in Ha'. congruence. Qed.

Lemma quiet_mark_edges t ds : accounted t (mark_edges_complete t ds) [].
Proof. by apply accounted_columns. Qed.

Lemma quiet_deferred t outcome deferred : accounted t (store_deferred_deps t outcome deferred) [].
Proof.
  unfold store_deferred_deps. destruct (flush_deferred_deps _ _ _) as [[[edges res] unres]|]; [|apply accounted_refl].
  eapply quiet_trans; [|by apply accounted_columns]. eapply quiet_trans; [apply quiet_edges|by apply accounted_columns].
Qed.

(** ** What the upstream caches offer *)

(** Every output of [d] is on an upstream cache: found by this lookup, or recorded by an
    earlier one for an output of the batch with the same hash. *)
Definition offered su t e (ids : list DerivationId) d : Prop :=
  d ∈ ids /\ su_upstreams su e <> [] /\ outputs_of t d <> [] /\
  forall o, o ∈ outputs_of t d ->
    is_Some (su_probe_batch su (su_upstreams su e) (to_probe (outputs_among t ids)) !! or_hash o) \/
    exists o', o' ∈ t_outputs t /\ or_derivation o' ∈ ids /\ or_hash o' = or_hash o /\ is_Some (or_external_url o').

Lemma elem_of_outputs_of t d o : o ∈ outputs_of t d <-> o ∈ t_outputs t /\ or_derivation o = d.
Proof. unfold outputs_of. rewrite list_elem_of_In, filter_In, <- list_elem_of_In. by rewrite N.eqb_eq. Qed.

Lemma elem_of_outputs_among t ids o : o ∈ outputs_among t ids <-> o ∈ t_outputs t /\ or_derivation o ∈ ids.
Proof. unfold outputs_among. rewrite list_elem_of_In, filter_In, <- list_elem_of_In. by rewrite bool_decide_eq_true. Qed.

Lemma outputs_of_nonempty t d : outputs_of t d <> [] <-> exists o, o ∈ t_outputs t /\ or_derivation o = d.
Proof.
  split.
  - intros Hne. destruct (outputs_of t d) as [|o l] eqn:E; [done|]. exists o. apply elem_of_outputs_of. rewrite E. constructor.
  - intros (o & Ho%elem_of_outputs_of) Hnil. rewrite Hnil in Ho. by apply elem_of_nil in Ho.
Qed.

Lemma whole_outputs outputs available d :
  d ∈ derivations_all_outputs_available outputs available <->
  (exists o, o ∈ outputs /\ or_derivation o = d) /\
  forall o, o ∈ outputs -> or_derivation o = d -> or_hash o ∈ available.
Proof.
  unfold derivations_all_outputs_available. rewrite elem_of_list_to_set, list_elem_of_In, filter_In, forallb_forall.
  rewrite <- list_elem_of_In. assert (Hin : d ∈ map or_derivation outputs <-> exists o, o ∈ outputs /\ or_derivation o = d)
    by (rewrite list_elem_of_fmap; naive_solver). rewrite Hin. f_equiv.
  split; intros Hx o Ho.
  - intros Hd. apply (bool_decide_eq_true (or_hash o ∈ available)), Hx, filter_In. rewrite Hd, N.eqb_refl.
    split; [by apply list_elem_of_In|done].
  - apply filter_In in Ho as [Ho%list_elem_of_In Hd%N.eqb_eq]. apply bool_decide_eq_true. by apply Hx.
Qed.

Lemma upstream_offers su t e ids d :
  d ∈ (compute_upstream_substitutable su t e ids).2 <-> offered su t e ids d.
Proof.
  unfold offered. rewrite outputs_of_nonempty.
  assert (Hnil : outputs_among t ids = [] -> d ∈ ids -> ~ exists o, o ∈ t_outputs t /\ or_derivation o = d).
  { intros Hn Hd (o & Ho & <-). assert (Hx : o ∈ outputs_among t ids) by by apply elem_of_outputs_among.
    rewrite Hn in Hx. by apply elem_of_nil in Hx. }
  unfold compute_upstream_substitutable. destruct ids as [|i ids]; [set_solver|].
  destruct (su_upstreams su e) as [|u us]; [set_solver|].
  destruct (outputs_among t (i :: ids)) as [|o0 os] eqn:Eo; [set_solver|]. rewrite <- Eo. clear Eo o0 os Hnil.
  cbn [snd]. set (found := su_probe_batch _ _ _). set (all := i :: ids) in *. clearbody all. rewrite whole_outputs.
  setoid_rewrite elem_of_union. setoid_rewrite elem_of_dom. setoid_rewrite elem_of_list_to_set.
  setoid_rewrite elem_of_outputs_of. setoid_rewrite elem_of_outputs_among.
  assert (Hurl : forall h, h ∈ map or_hash (List.filter (fun o => bool_decide (is_Some (or_external_url o))) (outputs_among t all)) <->
    exists o', o' ∈ t_outputs t /\ or_derivation o' ∈ all /\ or_hash o' = h /\ is_Some (or_external_url o')).
  { intros h. rewrite list_elem_of_fmap. setoid_rewrite list_elem_of_In. setoid_rewrite filter_In.
    setoid_rewrite <- list_elem_of_In. setoid_rewrite elem_of_outputs_among. setoid_rewrite bool_decide_eq_true. naive_solver. }
  setoid_rewrite Hurl. split.
  - intros [(o & [Ho Hall] & Hd) Hx]. split_and!; [by subst|done|by exists o|]. intros o' [Ho' Hd']. subst d.
    destruct (Hx o') as [?|?]; [by rewrite Hd'|done|by right|by left].
  - intros (Hd & _ & (o & Ho & Hod) & Hx). split; [exists o; by subst|]. intros o' [Ho' _] Hd'.
    destruct (Hx o') as [?|?]; [done|by right|by left].
Qed.

Lemma flag_substitutable_exact t all up d a :
  d ∈ all -> t_anchors (flag_substitutable t all up) !! d = Some a -> is_terminal_success (db_status a) = false ->
  db_substitutable a = bool_decide (d ∈ up).
Proof.
  intros Hd. unfold flag_substitutable. rewrite !lookup_update_where. destruct (t_anchors t !! d) as [b|]; simpl; [|done].
  intros [= <-]. rewrite <- terminal_success_in. rewrite (bool_decide_eq_true_2 _ Hd). case_bool_decide as Hup; simpl.
  - destruct (status_in TERMINAL_SUCCESS (db_status b)) eqn:E; simpl; [|done]. by rewrite E.
  - destruct (db_substitutable b) eqn:Es; simpl; [|done].
    destruct (status_in TERMINAL_SUCCESS (db_status b)) eqn:E; simpl; [|done]. by rewrite E.
Qed.

(** An open build is substituted exactly when the upstream caches offer all of it: after a
    batch, an anchor of the batch that has not succeeded is substitutable if and only if it
    is not already whole in our cache, the organization has upstream caches, and every one
    of its outputs was found there - a flag left by an earlier evaluation does not survive,
    and neither does what the worker reported in [substituted]. *)
Theorem substitutable_is_upstream_offer fr io su w now ev e derivations ids w' d a :
  resolve_anchors fr io su w now ev e derivations ids = (w', true) ->
  d ∈ batch_ids derivations ids -> t_anchors (st_db w') !! d = Some a -> is_terminal_success (db_status a) = false ->
  db_substitutable a = true <->
  offered su (st_db w) e
    (List.filter (fun d => negb (compute_truly_substituted (st_db w) d)) (batch_ids derivations ids)) d.
Proof.
  unfold resolve_anchors. cbv zeta. set (all := batch_ids _ _). set (todo := List.filter _ all).
  rewrite <- upstream_offers. destruct (compute_upstream_substitutable su (st_db w) e todo) as [t up]. cbn [snd].
  destruct (insert_until_failure _ _ _) as [inserted ok]. destruct ok; cbn [negb]; [|done].
  intros [= <-] Hd Ha Hs. cbn [st_db on_db] in Ha.
  rewrite (flag_substitutable_exact _ _ _ d a Hd Ha Hs). apply bool_decide_eq_true.
Qed.

(** ** Everything reported is recorded *)

Lemma parsed_row p h n i :
  parse_drv_hash_name p = Ok (h, n) ->
  let r := {| dr_id := i; dr_hash := h; dr_name := n |} in row_wf r /\ drv_path r = p.
Proof.
  unfold parse_drv_hash_name. destruct (split_once "-" p) as [[hash rest]|] eqn:Es; [|done].
  destruct (RustStr.strip_suffix rest ".drv") as [name|] eqn:En; [|done].
  destruct (String.eqb_spec hash ""); [done|]. destruct (String.eqb_spec name ""); [done|]. intros [= <- <-].
  apply split_once_Some in Es as [Hc ->]. apply strip_suffix_Some in En as ->. done.
Qed.

Definition parses (d : DiscoveredDerivation) : Prop := is_ok (parse_drv_hash_name (disc_drv_path d)) = true.

(** The rows a batch adds extend the table by path. *)
Record prepared fr (rows : list DerivationRow) (paths : gset string) (b : DerivationInsertBatch) : Prop := {
  pr_rows : rows_ok (rows ++ map fst (ib_derivations b));
  pr_ids p : p ∈ paths -> ib_ids b !! p = row_id (rows ++ map fst (ib_derivations b)) p;
  pr_fresh i x : ib_derivations b !! i = Some x -> dr_id x.1 = fr_derivation fr i;
}.

Lemma prepare_step_inv fr rows paths b (d : DiscoveredDerivation) :
  parses d -> disc_drv_path d ∈ paths -> prepared fr rows paths b ->
  prepared fr rows paths (prepare_step fr b d) /\ is_Some (ib_ids (prepare_step fr b d) !! disc_drv_path d).
Proof.
  intros Hp Hin [[Hw Hn] Hi Hf]. unfold prepare_step, has_key. case_bool_decide as Hk; [done|].
  unfold parses in Hp. destruct (parse_drv_hash_name (disc_drv_path d)) as [[h n]|] eqn:Ep; [|done]. cbn [or_unknown].
  destruct (parsed_row _ _ _ (fr_derivation fr (length (ib_derivations b))) Ep) as [Hrw Hrp].
  set (r := {| dr_id := _ |}) in *. cbn [ib_ids]. split; [|by rewrite lookup_insert_eq].
  apply eq_None_not_Some in Hk. rewrite (Hi _ Hin) in Hk. split; cbn [ib_derivations ib_ids].
  - rewrite map_app, app_assoc. cbn [map fst]. split.
    + apply Forall_app. split; [done|]. by constructor.
    + rewrite map_app. apply NoDup_app. split_and!; [done| |apply NoDup_singleton].
      intros q Hq Hq'. apply list_elem_of_singleton in Hq' as ->. rewrite Hrp in Hq.
      apply list_elem_of_fmap in Hq as (r' & Hr' & Hin').
      assert (Hx : row_id (rows ++ map fst (ib_derivations b)) (disc_drv_path d) = Some (dr_id r')).
      { apply index_rows_spec; [done|]. by exists r'. }
      congruence.
  - intros p Hpp. rewrite map_app, app_assoc. cbn [map fst]. unfold row_id, index_rows. rewrite foldl_app. cbn [foldl].
    rewrite Hrp. destruct (decide (p = disc_drv_path d)) as [->|Hne]; [by rewrite !lookup_insert_eq|].
    rewrite !lookup_insert_ne by done. by apply Hi.
  - intros i x. rewrite lookup_app_Some. intros [?|[Hge Hx]]; [by apply Hf|].
    apply list_lookup_singleton_Some in Hx as [Hz <-]. simpl. f_equal. lia.
Qed.

Lemma prepare_step_keeps fr b (d : DiscoveredDerivation) p : is_Some (ib_ids b !! p) -> is_Some (ib_ids (prepare_step fr b d) !! p).
Proof.
  intros Hs. unfold prepare_step. destruct (has_key _ _) eqn:E; [done|]. destruct (or_unknown _ _) as [h n]. cbn [ib_ids].
  destruct (decide (p = disc_drv_path d)) as [->|Hne]; [rewrite lookup_insert_eq; eauto|by rewrite lookup_insert_ne].
Qed.

Lemma prepare_inv fr rows (derivations : list DiscoveredDerivation) :
  rows_ok rows -> Forall parses derivations ->
  let paths := list_to_set (map disc_drv_path derivations) in
  let b := prepare fr derivations (find_rows rows paths) in
  prepared fr rows paths b /\ Forall (fun x => is_Some (ib_ids b !! disc_drv_path x)) derivations.
Proof.
  intros Hok Hps. cbv zeta. set (paths := list_to_set _).
  assert (Hin : Forall (fun x => disc_drv_path x ∈ paths) derivations).
  { apply Forall_forall. intros x Hx. apply elem_of_list_to_set, list_elem_of_fmap. by exists x. }
  assert (H0 : prepared fr rows paths {| ib_ids := find_rows rows paths; ib_derivations := []; ib_outputs := [] |}).
  { split; cbn [ib_derivations ib_ids map]; [by rewrite app_nil_r| |done]. intros p Hp. rewrite app_nil_r. by apply find_rows_spec. }
  unfold prepare. clearbody paths. revert H0. generalize {| ib_ids := find_rows rows paths; ib_derivations := []; ib_outputs := [] |}.
  induction Hps as [|x l Hx _ IH]; intros b Hb; [done|]. apply Forall_cons in Hin as [Hxin Hin].
  destruct (prepare_step_inv fr rows paths b x Hx Hxin Hb) as [Hb1 Hs]. simpl. destruct (IH Hin _ Hb1) as [Hb2 Hall].
  split; [done|]. constructor; [|done]. clear -Hs. revert Hs. generalize (prepare_step fr b x).
  induction l as [|y l IHl]; intros c Hc; [done|]. simpl. by apply IHl, prepare_step_keeps.
Qed.

Lemma insert_until_ok {A} outcome (cs : list (list A)) : (forall i, outcome i = true) ->
  forall i, insert_until_failure outcome i cs = (concat cs, true).
Proof. intros Ho. induction cs as [|c cs IH]; intros i; simpl; [done|]. by rewrite Ho, IH. Qed.

Lemma insert_each_ok {A} outcome (cs : list (list A)) : (forall i, outcome i = true) ->
  forall i, insert_each outcome i cs = concat cs.
Proof. intros Ho. induction cs as [|c cs IH]; intros i; simpl; [done|]. by rewrite Ho, IH. Qed.

Lemma elem_of_add_new {A} `{EqDecision A} (l : list A) : forall acc x,
  x ∈ foldl add_new acc l <-> x ∈ acc \/ x ∈ l.
Proof.
  induction l as [|y l IH]; intros acc x; simpl; [set_solver|]. rewrite IH. unfold add_new.
  case_bool_decide; set_solver.
Qed.

Lemma elem_of_batch_ids derivations ids i :
  i ∈ batch_ids derivations ids <-> exists x, x ∈ derivations /\ ids !! disc_drv_path x = Some i.
Proof. unfold batch_ids. rewrite elem_of_add_new, elem_of_nil, list_elem_of_omap. naive_solver. Qed.

(** The inserts the records of a build depend on go through. *)
Record inserts_ok (io : InsertOutcomes) : Prop := {
  ok_derivations i : io_derivations io i = true;
  ok_anchors i : io_anchors io i = true;
  ok_jobs i : io_jobs io i = true;
}.

Lemma resolve_records fr io su w now ev e derivations ids :
  inserts_ok io ->
  let r := resolve_anchors fr io su w now ev e derivations ids in
  r.2 = true /\ t_derivations (st_db r.1) = t_derivations (st_db w) /\
  forall i, i ∈ batch_ids derivations ids ->
    exists j, j ∈ t_build_jobs (st_db r.1) /\ bjr_evaluation j = ev /\ bjr_derivation j = i.
Proof.
  intros Hio. unfold resolve_anchors. cbv zeta. set (all := batch_ids _ _). set (todo := List.filter _ all).
  destruct (upstream_tables su (st_db w) e todo) as [l Hl].
  destruct (compute_upstream_substitutable su (st_db w) e todo) as [t up]. simpl in Hl. subst t.
  rewrite insert_until_ok by apply Hio. rewrite concat_chunks by apply BATCH_SIZE_pos. cbn [negb fst snd].
  set (truly := compute_truly_substituted _). set (isup := fun d : DerivationId => bool_decide (d ∈ up)).
  fold (batch_anchors fr now ids truly isup derivations).
  set (t1 := set_anchors _ _). rewrite insert_each_ok by apply Hio. rewrite concat_chunks by apply BATCH_SIZE_pos.
  set (t2 := set_build_jobs t1 _). pose proof (quiet_requeue_chunks t2 now all) as Q1.
  assert (Hd1 : t_derivations (requeue_failed_anchors t2 now all).1 = t_derivations t2).
  { unfold requeue_failed_anchors. generalize (chunks IN_CHUNK_SIZE all). intros cs.
    assert (Hg : forall n t0, t_derivations (foldl (fun acc chunk =>
      let '(t', n) := requeue_where acc.1 now (list_to_set chunk) (fun d => bool_decide (d ∈ chunk)) in
      (t', acc.2 + n)) (t0, n) cs).1 = t_derivations t0); [|apply Hg].
    induction cs as [|c cs IH]; intros n t0; [done|]. cbn [foldl fst snd].
    assert (Hq : t_derivations (requeue_where t0 now (list_to_set c) (fun d => bool_decide (d ∈ c))).1 = t_derivations t0) by done.
    destruct (requeue_where t0 now _ _) as [t4 m]. by rewrite IH. }
  set (t3 := (requeue_failed_anchors t2 now all).1) in *. split_and!; [done|etrans; [exact Hd1|done]|].
  intros i Hi. destruct (quiet_substitutable t3 all up) as [Hj _ _ _]. cbn [st_db on_db]. rewrite Hj, (acc_jobs _ _ _ Q1).
  assert (Hex : is_Some (t_anchors t1 !! i)).
  { apply upsert_anchors_new. right. apply (proj2 (batch_anchors_spec fr now ids truly isup derivations)).
    apply elem_of_batch_ids in Hi as (x & Hx & Hxi). apply list_elem_of_omap. by exists x. }
  destruct Hex as [a Ha]. destruct (job_rows_complete fr t1 ev all i a Hi Ha) as (j & Hjin & Hje & Hjd).
  destruct (upsert_jobs_spec (job_rows fr t1 ev all) (t_build_jobs t1)) as (_ & _ & H3).
  destruct (H3 j Hjin) as (j' & Hj' & He' & Hd'). exists j'. split_and!; [exact Hj'|congruence|congruence].
Qed.

Definition fresh_derivations (fr : Fresh) (rows : list DerivationRow) : Prop :=
  (forall i j, fr_derivation fr i = fr_derivation fr j -> i = j) /\
  (forall i r, r ∈ rows -> dr_id r <> fr_derivation fr i).

Lemma prepared_ids fr rows paths b :
  fresh_derivations fr rows -> NoDup (map dr_id rows) -> prepared fr rows paths b ->
  NoDup (map dr_id (rows ++ map fst (ib_derivations b))).
Proof.
  intros [Hinj Hnew] Hn [_ _ Hf]. rewrite map_app, map_map. apply NoDup_app. split_and!; [done| |].
  - intros x Hx Hx'. apply list_elem_of_fmap in Hx as (r & -> & Hr). apply list_elem_of_fmap in Hx' as (y & Heq & Hy).
    apply list_elem_of_lookup in Hy as [i Hi]. apply Hf in Hi. apply (Hnew i r Hr). congruence.
  - apply NoDup_alt. intros i j x Hi Hj. apply list_lookup_fmap_Some in Hi as (y & -> & Hy).
    apply list_lookup_fmap_Some in Hj as (z & Heq & Hz). apply Hf in Hy. apply Hf in Hz. apply Hinj. congruence.
Qed.

(** A batch that goes through is recorded in full: every reported derivation has exactly
    one row under its canonical path, with an anchor and a build job of this evaluation that
    names it; rows keep their ids and stay unique by path and by id, and every build job in
    the database still points at its derivation's own anchor. *)
Theorem batch_recorded fr io su g now job derivations ws es e :
  inserts_ok io -> fresh_anchors fr (gr_db g) -> fresh_derivations fr (t_derivations (gr_db g)) ->
  rows_ok (t_derivations (gr_db g)) -> NoDup (map dr_id (t_derivations (gr_db g))) -> jobs_linked (gr_db g) ->
  t_evaluations (gr_db g) !! pe_evaluation_id job = Some e -> ev_status e <> EAborted ->
  Forall (fun x => parses (canonical x)) derivations ->
  let r := handle_eval_batch fr io su g now job derivations ws es in
  let t' := gr_db r.1 in
  r.2 = Ok tt /\ rows_ok (t_derivations t') /\ NoDup (map dr_id (t_derivations t')) /\ jobs_linked t' /\
  t_derivations (gr_db g) ⊆ t_derivations t' /\
  forall x, x ∈ derivations -> exists i a j,
    row_id (t_derivations t') (disc_drv_path (canonical x)) = Some i /\ t_anchors t' !! i = Some a /\
    j ∈ t_build_jobs t' /\ bjr_evaluation j = pe_evaluation_id job /\ bjr_derivation j = i /\
    bjr_derivation_build j = db_id a.
Proof.
  intros Hio Hfa Hfd Hok Hn Hl He Hna Hps r t'.
  assert (Hl' : jobs_linked t') by (eapply grown_linked; [by apply batch_grown|done]).
  subst t'. revert Hl'. subst r. set (ev := pe_evaluation_id job) in *.
  assert (Hr : handle_eval_batch fr io su g now job derivations ws es =
    record_batch fr io su g now ev e (pe_project_id job) (map canonical derivations) ws es).
  { unfold handle_eval_batch. fold ev. rewrite He. by destruct (ev_status e). }
  rewrite Hr. clear Hr Hna.
  assert (Hps' : Forall parses (map canonical derivations)) by (by apply Forall_map).
  assert (Hin : forall x, x ∈ derivations -> canonical x ∈ map canonical derivations)
    by (intros x Hx; apply list_elem_of_fmap; eauto).
  revert Hps' Hin. generalize (map canonical derivations). intros ds Hps' Hin.
  unfold record_batch, insert_batch, load_existing_derivations.
  destruct (prepare_inv fr (t_derivations (gr_db g)) ds Hok Hps') as [Hp Hall]. cbv zeta in Hp, Hall.
  set (paths := list_to_set (map disc_drv_path ds)) in *.
  set (b := prepare fr ds _) in *. clearbody b. rewrite insert_until_ok by apply Hio.
  rewrite concat_chunks by apply BATCH_SIZE_pos.
  set (g1 := on_graph _ (persist_input_sources _ _ _ _)).
  assert (Hd1 : t_derivations (gr_db g1) = t_derivations (gr_db g) ++ map fst (ib_derivations b)) by done.
  assert (Hlk1 : jobs_linked (gr_db g1)) by exact Hl. clearbody g1.
  destruct (resolve_records fr io su (gr_store g1) now ev e ds (ib_ids b) Hio) as (Hok2 & Hd2 & Hjobs). cbv zeta in Hok2, Hd2, Hjobs.
  destruct (resolve_anchors _ _ _ _ _ _ _ _ _) as [w ok]. cbn [fst snd] in Hok2, Hd2, Hjobs. subst ok. cbn [negb].
  destruct (batch_tail_tables io su w ev (pe_project_id job) (entry_points_of ds (ib_ids b)) ws es) as (l & k & Hw).
  cbv zeta in Hw. cbn [fst snd gr_db gr_store]. unfold gr_db. cbn [gr_store st_db send]. rewrite Hw. intros Hl'.
  set (t' := set_entry_points (set_messages (st_db w) l) k) in *. 
  assert (Hdt : t_derivations t' = t_derivations (gr_db g) ++ map fst (ib_derivations b)) by (unfold t'; cbn; by rewrite Hd2, <- Hd1).
  assert (Hjt : t_build_jobs t' = t_build_jobs (st_db w)) by done. clearbody t'. rewrite Hdt. split_and!.
  - done.
  - apply Hp.
  - by eapply prepared_ids.
  - done.
  - set_solver.
  - intros x Hx. rewrite Forall_forall in Hall. destruct (Hall _ (Hin x Hx)) as [i Hi].
    destruct (Hjobs i) as (j & Hj & Hje & Hjd); [by apply elem_of_batch_ids; exists (canonical x); auto|].
    rewrite <- Hjt in Hj. destruct (proj1 Hl' j Hj) as (a & Ha & Hid). exists i, a, j. rewrite Hjd in Ha.
    split_and!; try done. rewrite <- (pr_ids _ _ _ _ Hp); [done|]. apply elem_of_list_to_set, list_elem_of_fmap. eauto.
Qed.

End eval_result_facts.
