(* ===== verification/DispatchBuild.v ===== *)
(** * Dispatching ready builds

    [dispatch_ready_builds] of [backend/gradient-scheduler/src/dispatch/build.rs]: the
    anchors the dispatch gate selects become pending build jobs of the tracker.

    The bulk lookups of [BuildDispatchMaps] are the tables they read; the columns of
    [cached_path] and the histories, which no other part of the model reads, are functions. *)

From S2P Require Import Prelude Float RustStr Status Fixpoints ScoreContext StorePath Proto JobData JobTracker WorkerPool EdgeStream Scheduler Retry BuildGraph Promotion Transitions Healing WaitingState.

Local Open Scope Z_scope.

Section dispatch_build.
Context `{CH : Chrono} {SD : Serde} {HO : HashOrder} {UF : UuidFormat}.

Record DispatchConfig := {
  dc_substitute_miss_escalation_threshold : Z;
  dc_build_retry_backoff_secs : Z;
  dc_default_timeout_secs : option Z;
  dc_default_max_silent_secs : option Z;
}.

Definition DispatchConfig_from_state (cfg : EvalConfig) : DispatchConfig := {|
  dc_substitute_miss_escalation_threshold := substitute_miss_escalation_threshold cfg;
  dc_build_retry_backoff_secs := build_retry_backoff_secs cfg;
  dc_default_timeout_secs := nonzero (build_default_timeout_secs cfg);
  dc_default_max_silent_secs := nonzero (build_default_max_silent_secs cfg);
|}.

Record BuildDispatchMaps := {
  bdm_tables : Db;
  bdm_catalog : Catalog;
  bdm_projects : gmap ProjectId OrganizationId;
  bdm_cache_info : string -> option CacheInfo;
  bdm_closure_sizes : DerivationId -> option Z;
  bdm_histories : DerivationId -> HistoryPrediction;
  bdm_connected_architectures : gset string;
  bdm_config : DispatchConfig;
}.

Inductive DispatchOutcome :=
| Dispatch (job_id : string) (job : PendingBuildJob)
| Defer (reason : string)
| Skip (reason : string).

(** [get_path_from_derivation_output(o).full()] *)
Definition output_path (o : OutputRow) : string := StorePath_full (from_parts (or_hash o) (or_package o)).

(** The store paths of every input derivation's outputs. *)
Definition direct_inputs (m : BuildDispatchMaps) (d : DerivationId) : list RequiredPath :=
  concat (map (fun dep =>
    map (fun o => {| rp_path := output_path o; rp_cache_info := bdm_cache_info m (or_hash o) |})
      (outputs_of (bdm_tables m) dep))
    (dependencies_of (bdm_tables m) d)).

Definition self_outputs (m : BuildDispatchMaps) (d : DerivationId) : list DerivationOutput :=
  map (fun o => {| do_name := or_name o; do_path := output_path o |}) (outputs_of (bdm_tables m) d).

Definition eval_drives (t : Db) (ev : EvaluationId) : bool :=
  match t_evaluations t !! ev with Some e => negb (eval_is_terminal (ev_status e)) | None => false end.

(** A live evaluation that references the derivation, or else the first. *)
Definition driving_eval (t : Db) (d : DerivationId) : option EvaluationId :=
  let evals := map bjr_evaluation (jobs_by_drv t d) in
  match List.find (eval_drives t) evals with Some ev => Some ev | None => head evals end.

Definition resolve_org_id (m : BuildDispatchMaps) (e : EvaluationRow) : option OrganizationId :=
  p ← ev_project e; bdm_projects m !! p.

Definition is_substitute_mode (mode : BuildDispatchMode) : bool :=
  match mode with SubstituteBuiltin | SubstituteStalled => true | RealArch => false end.

Definition assemble_job (m : BuildDispatchMaps) (now : NaiveDateTime) (d : DerivationId) (anchor : DerivationBuild)
    (drv : MDerivation) (eval_id : EvaluationId) (org_id : OrganizationId) (mode : BuildDispatchMode)
    : string * PendingBuildJob :=
  let substitute := is_substitute_mode mode in
  let task := {|
    bt_build_id := uuid_show (db_id anchor);
    bt_drv_path := md_store_path drv;
    bt_external_cached := substitute;
    bt_is_fixed_output := md_is_fixed_output drv;
    bt_outputs := if substitute then self_outputs m d else [];
    bt_timeout_secs := resolve_limit (db_timeout_secs anchor) (dc_default_timeout_secs (bdm_config m));
    bt_max_silent_secs := resolve_limit (db_max_silent_secs anchor) (dc_default_max_silent_secs (bdm_config m)) |} in
  (build_job_id (db_id anchor), {|
    pb_derivation_build := db_id anchor;
    pb_evaluation_id := eval_id;
    pb_org_id := org_id;
    pb_job := {| bj_builds := [task] |};
    pb_required_paths := if substitute then [] else direct_inputs m d;
    pb_architecture := if substitute then BUILTIN_ARCH else md_architecture drv;
    pb_required_features := if substitute then [] else feature_names_of (bdm_catalog m) d;
    pb_dependency_count := u32 (Z.of_nat (length (dependencies_of (bdm_tables m) d)));
    pb_closure_size := bdm_closure_sizes m d;
    pb_prefer_local_build := md_prefer_local_build drv;
    pb_is_fixed_output := md_is_fixed_output drv;
    pb_history := bdm_histories m d;
    pb_queued_at := db_updated_at anchor;
    pb_ready_at := now;
    pb_rescore_count := 0;
    pb_pname := md_pname drv;
    pb_substitute := substitute |}).

Definition dispatch_mode_of (m : BuildDispatchMaps) (anchor : DerivationBuild) (drv : MDerivation) (misses : Z)
    : BuildDispatchMode :=
  decide_dispatch_mode (db_substitutable anchor) misses
    (dc_substitute_miss_escalation_threshold (bdm_config m))
    (arch_available (bdm_connected_architectures m) (md_architecture drv)).

Definition classify_dispatch (m : BuildDispatchMaps) (now : NaiveDateTime) (d : DerivationId)
    (anchor : DerivationBuild) : DispatchOutcome :=
  match cat_derivations (bdm_catalog m) !! d with
  | None => Skip "derivation not found for anchor"
  | Some drv =>
      match driving_eval (bdm_tables m) d with
      | None => Skip "no driving evaluation for anchor"
      | Some eval_id =>
          match t_evaluations (bdm_tables m) !! eval_id with
          | None => Skip "driving evaluation row not found"
          | Some e =>
              match resolve_org_id m e with
              | None => Skip "could not resolve org_id for anchor"
              | Some org_id =>
                  let miss_count := substitute_miss_counts (bdm_tables m) (db_id anchor) eval_id in
                  let mode := dispatch_mode_of m anchor drv miss_count in
                  match mode with
                  | SubstituteStalled =>
                      if negb (retry_backoff_elapsed (i32 miss_count) (db_updated_at anchor) now
                                 (dc_build_retry_backoff_secs (bdm_config m)))
                      then Defer "substitute stalled (no arch worker); backing off re-probe"
                      else let '(id, job) := assemble_job m now d anchor drv eval_id org_id mode in Dispatch id job
                  | _ => let '(id, job) := assemble_job m now d anchor drv eval_id org_id mode in Dispatch id job
                  end
              end
          end
      end
  end.

(** [derivation.closure_size], unless the policy reads history. *)
Definition load_sizes_and_histories (cat : Catalog) (uses_history : bool) (computed : DerivationId -> option Z)
    (predict : DerivationId -> option Z -> HistoryPrediction) : (DerivationId -> option Z) * (DerivationId -> HistoryPrediction) :=
  let stored d := drv ← cat_derivations cat !! d; md_closure_size drv in
  if negb uses_history then (stored, fun _ => history_default)
  else
    let size d := match stored d with Some z => Some z | None => computed d end in
    (size, fun d => match cat_derivations cat !! d with
       | Some drv => match md_pname drv with Some _ => predict d (size d) | None => history_default end
       | None => history_default end).

Definition stamp_ready_at (t : Db) (now : NaiveDateTime) (ids : list DerivationBuildId) : Db :=
  update_where t (fun _ a => bool_decide (db_id a ∈ ids) && bool_decide (db_ready_at a = None)) (fun a => {|
    db_id := db_id a; db_status := db_status a; db_substitutable := db_substitutable a;
    db_substituted := db_substituted a; db_edges_complete := db_edges_complete a;
    db_edges_unresolved := db_edges_unresolved a; db_closure_complete := db_closure_complete a;
    db_drv_closure_cached := db_drv_closure_cached a; db_attempt := db_attempt a;
    db_timeout_secs := db_timeout_secs a; db_max_silent_secs := db_max_silent_secs a;
    db_updated_at := db_updated_at a; db_queued_at := db_queued_at a; db_ready_at := Some now |}).

Definition untracked (s : Scheduler) (anchors : list (DerivationId * DerivationBuild))
    : list (DerivationId * DerivationBuild) :=
  List.filter (fun x => negb (contains_job (sch_tracker s) (build_job_id (db_id x.2)))) anchors.

Definition enqueue_outcome (s : Scheduler) (o : DispatchOutcome) : Scheduler :=
  match o with Dispatch id job => (enqueue_build_job s id job).1 | _ => s end.

(** [maps] builds the lookups from the tables the pass reads. *)
Definition dispatch_ready_builds (s : Scheduler) (t : Db) (now : NaiveDateTime) (draining : bool)
    (maps : Db -> BuildDispatchMaps) : Scheduler * Db :=
  if draining then (s, t)
  else
    match untracked s (find_ready_anchors t) with
    | [] => (s, t)
    | anchors =>
        let t := stamp_ready_at t now (map (fun x => db_id x.2) anchors) in
        (foldl (fun s x => enqueue_outcome s (classify_dispatch (maps t) now x.1 x.2)) s anchors, t)
    end.

End dispatch_build.

Local Close Scope Z_scope.
(** * What a dispatch pass enqueues

    A pass over the ready anchors adds exactly the jobs of the anchors the dispatch gate
    selects, and the waiting-state check calls an anchor buildable exactly when a connected
    worker would take the job dispatch assembles for it. *)

Section dispatch_facts.
Context `{CH : Chrono} {SD : Serde} {HO : HashOrder} {UF : UuidFormat}.
Implicit Types (s : Scheduler) (t : Db) (d : DerivationId) (a : DerivationBuild) (m : BuildDispatchMaps).

(** ** Enqueueing *)

Abbreviation pending s := (jt_pending (sch_tracker s)).

Lemma enqueue_pending s id job :
  pending (enqueue_build_job s id job).1 =
    if contains_job (sch_tracker s) id then pending s else <[id := PendingBuild job]> (pending s).
Proof. unfold enqueue_build_job, add_pending, contains_job. by destruct (_ || _). Qed.

Lemma enqueue_active s id job :
  jt_active (sch_tracker (enqueue_build_job s id job).1) = jt_active (sch_tracker s).
Proof. unfold enqueue_build_job, add_pending. by destruct (_ || _). Qed.

Lemma contains_spec (tr : JobTracker) id :
  contains_job tr id = true <-> is_Some (jt_pending tr !! id) \/ is_Some (jt_active tr !! id).
Proof. unfold contains_job. by rewrite orb_true_iff, !bool_decide_eq_true. Qed.

Definition enqueue_all s (os : list DispatchOutcome) : Scheduler := foldl enqueue_outcome s os.

(** Outcomes that agree on a job's content whenever they agree on its id. *)
Definition coherent (os : list DispatchOutcome) : Prop :=
  forall id job job', Dispatch id job ∈ os -> Dispatch id job' ∈ os -> job = job'.

Lemma enqueue_all_active os : forall s, jt_active (sch_tracker (enqueue_all s os)) = jt_active (sch_tracker s).
Proof.
  induction os as [|o os IH]; intros s; [done|]. simpl. rewrite IH. destruct o; try done. apply enqueue_active.
Qed.

Lemma enqueue_all_pending os : forall s id j, coherent os ->
  pending (enqueue_all s os) !! id = Some j <->
  pending s !! id = Some j \/
  (contains_job (sch_tracker s) id = false /\ exists job, j = PendingBuild job /\ Dispatch id job ∈ os).
Proof.
  induction os as [|o os IH]; intros s id j Hc.
  { simpl. split; [auto|]. intros [?|(_ & ? & _ & Hin)]; [done|by apply elem_of_nil in Hin]. }
  assert (Hc' : coherent os) by (intros i x y Hx Hy; eapply Hc; by constructor).
  simpl. destruct o as [i job| |]; simpl; cycle 1.
  1, 2: rewrite (IH s id j Hc'); setoid_rewrite elem_of_cons; naive_solver.
  rewrite (IH _ id j Hc'), enqueue_pending. pose proof (enqueue_active s i job) as Ha.
  assert (Hcont : contains_job (sch_tracker (enqueue_build_job s i job).1) id =
                  contains_job (sch_tracker s) id || String.eqb id i).
  { apply eq_true_iff_eq. rewrite orb_true_iff, !contains_spec, String.eqb_eq, Ha, enqueue_pending.
    destruct (contains_job (sch_tracker s) i) eqn:E.
    - apply contains_spec in E. naive_solver.
    - destruct (decide (id = i)) as [->|Hne]; [rewrite lookup_insert_eq; naive_solver|].
      rewrite lookup_insert_ne by done. naive_solver. }
  rewrite Hcont. destruct (contains_job (sch_tracker s) i) eqn:E.
  - split.
    + intros [?|(Hn & job' & -> & Hin)]; [by left|]. apply orb_false_iff in Hn as [Hn _]. right. split; [done|].
      exists job'. split; [done|by constructor].
    + intros [?|(Hn & job' & -> & Hin)]; [by left|]. right.
      assert (Hne : id <> i) by (intros ->; congruence). split; [by rewrite Hn, (proj2 (String.eqb_neq _ _) Hne)|].
      apply elem_of_cons in Hin as [[= -> ->]|Hin]; [done|]. by exists job'.
  - destruct (decide (id = i)) as [->|Hne].
    + rewrite lookup_insert_eq, String.eqb_refl, orb_true_r. split.
      * intros [[= <-]|[? _]]; [|done]. right. split; [done|]. exists job. split; [done|constructor].
      * intros [Hp|(_ & job' & -> & Hin)].
        { assert (Hx : contains_job (sch_tracker s) i = true) by (apply contains_spec; left; by eexists). congruence. }
        left. f_equal. f_equal. eapply Hc; [constructor|done].
    + rewrite lookup_insert_ne by done. rewrite (proj2 (String.eqb_neq _ _) Hne), orb_false_r.
      setoid_rewrite elem_of_cons. naive_solver.
Qed.

(** ** The jobs of a pass *)

Lemma uuid_show_inj (x y : N) : uuid_show x = uuid_show y -> x = y.
Proof. intros E. apply (f_equal uuid_parse) in E. rewrite !uuid_parse_show in E. by injection E. Qed.

Lemma build_job_id_inj (x y : N) : build_job_id x = build_job_id y -> x = y.
Proof. unfold build_job_id. intros E. apply uuid_show_inj. simpl in E. by injection E. Qed.

Lemma classify_id m now d a id job : classify_dispatch m now d a = Dispatch id job -> id = build_job_id (db_id a).
Proof.
  unfold classify_dispatch. destruct (cat_derivations _ !! d); [|done]. destruct (driving_eval _ d); [|done].
  destruct (t_evaluations _ !! _); [|done]. destruct (resolve_org_id _ _); [|done].
  cbv zeta. destruct (dispatch_mode_of _ _ _ _); simpl; [by intros [= <- _]..|].
  destruct (negb _); [done|]. by intros [= <- _].
Qed.

(** No two anchors share an id. *)
Definition unique_ids t : Prop :=
  forall d d' a a', t_anchors t !! d = Some a -> t_anchors t !! d' = Some a' -> db_id a = db_id a' -> d = d'.

Lemma find_ready_spec t d a :
  (d, a) ∈ find_ready_anchors t <-> t_anchors t !! d = Some a /\ dispatch_ready t d a = true.
Proof. unfold find_ready_anchors. by rewrite sort_by_elem, elem_of_affected. Qed.

Lemma untracked_spec s l d a :
  (d, a) ∈ untracked s l <-> (d, a) ∈ l /\ contains_job (sch_tracker s) (build_job_id (db_id a)) = false.
Proof. unfold untracked. by rewrite list_elem_of_In, filter_In, <- list_elem_of_In, negb_true_iff. Qed.

Lemma dispatch_fold s t now maps :
  dispatch_ready_builds s t now false maps =
    let anchors := untracked s (find_ready_anchors t) in
    let t' := (dispatch_ready_builds s t now false maps).2 in
    (enqueue_all s (map (fun x => classify_dispatch (maps t') now x.1 x.2) anchors), t').
Proof.
  unfold dispatch_ready_builds. destruct (untracked s (find_ready_anchors t)) as [|x l]; [done|]. cbv zeta.
  cbn [snd]. f_equal. unfold enqueue_all. generalize (maps (stamp_ready_at t now (map (fun x0 => db_id x0.2) (x :: l)))) as m.
  intros m. generalize (x :: l) as l'. intros l'. generalize s as s0.
  induction l' as [|y l' IH]; intros s0; [done|]. simpl. apply IH.
Qed.


(** ** Parking and dispatch agree *)

(** A requirement list only matters as a set. *)
Lemma caps_satisfy_required arch l l' c :
  (forall x, x ∈ l <-> x ∈ l') -> caps_satisfy arch l c = caps_satisfy arch l' c.
Proof.
  intros Hl. unfold caps_satisfy. f_equal. apply eq_true_iff_eq. rewrite !forallb_forall.
  setoid_rewrite <- list_elem_of_In. split; intros Hf x Hx; apply Hf, Hl, Hx.
Qed.

(** The gate of a worker that offers [c]. *)
Lemma can_build_caps (w : WorkerCaps) arch required :
  can_build w arch required = caps_satisfy arch required (caps_architectures w, caps_system_features w).
Proof. done. Qed.

(** The checker and the dispatcher read the same rows for an anchor. *)
Record same_view (self : BuildabilityChecker) m (ev : EvaluationId) d a : Prop := {
  sv_catalog : bc_catalog self = bdm_catalog m;
  sv_threshold : bc_threshold self = dc_substitute_miss_escalation_threshold (bdm_config m);
  sv_arches : bc_connected_architectures self = bdm_connected_architectures m;
  sv_misses : bc_substitute_misses self (db_id a) = substitute_miss_counts (bdm_tables m) (db_id a) ev;
  sv_driving : driving_eval (bdm_tables m) d = Some ev;
}.

Lemma classify_job m now d a ev id job :
  driving_eval (bdm_tables m) d = Some ev -> classify_dispatch m now d a = Dispatch id job ->
  exists drv, cat_derivations (bdm_catalog m) !! d = Some drv /\
    let mode := dispatch_mode_of m a drv (substitute_miss_counts (bdm_tables m) (db_id a) ev) in
    pb_architecture job = (if is_substitute_mode mode then BUILTIN_ARCH else md_architecture drv) /\
    pb_required_features job = (if is_substitute_mode mode then [] else feature_names_of (bdm_catalog m) d).
Proof.
  intros Hev. unfold classify_dispatch. destruct (cat_derivations _ !! d) as [drv|]; [|done]. rewrite Hev.
  destruct (t_evaluations _ !! _); [|done]. destruct (resolve_org_id _ _); [|done]. cbv zeta. intros Hc.
  exists drv. split; [done|]. destruct (dispatch_mode_of _ _ _ _); simpl in *; [by injection Hc as <- <-..|].
  destruct (negb _); [done|]. by injection Hc as <- <-.
Qed.

(** Parking agrees with dispatch: for a queued anchor whose [.drv] closure is there (or
    that is substitutable) and that is not a stalled substitute, with workers connected, the
    waiting-state check calls it buildable exactly when one of the connected workers passes
    the capability gate for the job dispatch assembles - so an evaluation is not parked over
    work a worker would take, nor left building over work none can. *)
Theorem parking_agrees_with_dispatch self m now ev d a id job (workers : list WorkerCaps) :
  same_view self m ev d a -> db_status a = BQueued ->
  db_substitutable a || db_drv_closure_cached a = true -> workers <> [] ->
  classify_dispatch m now d a = Dispatch id job ->
  (forall drv, cat_derivations (bdm_catalog m) !! d = Some drv ->
     dispatch_mode_of m a drv (substitute_miss_counts (bdm_tables m) (db_id a) ev) <> SubstituteStalled) ->
  buildable self (map (fun w => (caps_architectures w, caps_system_features w)) workers) (d, a) = true <->
  exists w, w ∈ workers /\ job_eligible_for_caps (PendingBuild job) (Some w) = true.
Proof.
  intros [Hcat Hth Har Hm Hdr] Hq Himp Hne Hc Hst.
  destruct (classify_job m now d a ev id job Hdr Hc) as (drv & Hdrv & Harch & Hfeat).
  specialize (Hst drv Hdrv). unfold buildable, checker_mode. rewrite Hq, Hcat, Hdrv, Hth, Har, Hm.
  fold (dispatch_mode_of m a drv (substitute_miss_counts (bdm_tables m) (db_id a) ev)).
  unfold job_eligible_for_caps. setoid_rewrite can_build_caps. rewrite Harch, Hfeat.
  destruct (dispatch_mode_of _ _ _ _); simpl; [|split; [|done]|done].
  - assert (Hi : negb (db_substitutable a) && negb (db_drv_closure_cached a) = false)
      by (rewrite <- negb_orb, Himp; done).
    rewrite Hi, existsb_exists. unfold required_features_for. split.
    + intros (c & (w & <- & Hw)%in_map_iff & Hs). exists w. split; [by apply list_elem_of_In|].
      rewrite <- Hs. apply caps_satisfy_required. intros x. by rewrite sort_dedup_elem.
    + intros (w & Hw & Hs). eexists. split; [apply in_map, list_elem_of_In, Hw|].
      rewrite <- Hs. apply caps_satisfy_required. intros x. by rewrite sort_dedup_elem.
  - intros _. destruct workers as [|w ws]; [done|]. exists w. split; [constructor|done].
Qed.

End dispatch_facts.
