(* ===== verification/LifecycleFacts.v ===== *)
(** * The lifecycle of builds and evaluations

    What the scheduler does to the build graph when workers report: the database half of
    [backend/gradient-scheduler/src/build/lifecycle.rs], of [eval.rs] and of
    [job_handlers/build_status.rs] and [eval_status.rs], and the requeue of transient
    failures of [dispatch/build.rs].

    Product and metric rows are not modelled; a spawned task is an event. *)

From S2P Require Import Prelude Float RustStr RustText Status Fixpoints ScoreContext Proto JobData JobTracker EdgeStream Scheduler Retry BuildGraph Promotion Transitions Healing Settling WaitingState WaitingFacts EvalResult EvalResultFacts.

Local Open Scope Z_scope.

Section lifecycle.
Context `{CH : Chrono}.
Implicit Types (t : Db) (w : Store) (d : DerivationId) (a : DerivationBuild) (ev : EvaluationId).

(** [EDerivationBuild::find_by_id] *)
Definition find_anchor t (b : DerivationBuildId) : option (DerivationId * DerivationBuild) :=
  head (affected t (fun _ a => N.eqb (db_id a) b)).

(** ** Builds *)

Definition handle_build_status_update w (now : NaiveDateTime) (worker_id : string) (job_id : string)
    (build_id : option DerivationBuildId) : Store :=
  match build_id with
  | None => w
  | Some b =>
      match find_anchor (st_db w) b with
      | None => w
      | Some (d, a) =>
          if bool_decide (db_status a = BAborted) then send w [AbortSent worker_id job_id]
          else update_derivation_build_status w now d a BBuilding
      end
  end.

(** The anchor columns [handle_build_output] records. *)
Definition record_substituted t (now : NaiveDateTime) (b : DerivationBuildId) : Db :=
  update_where t (fun _ a => N.eqb (db_id a) b) (fun a =>
    with_status (db_status a) now (with_substitution (db_substitutable a) true a)).

Definition handle_build_output w now (b : DerivationBuildId) (substituted : bool) : Store * result unit unit :=
  match find_anchor (st_db w) b with
  | None => (w, Err tt)
  | Some _ => (if substituted then on_tables w (fun t => record_substituted t now b) else w, Ok tt)
  end.

Definition handle_build_job_completed w now (b : DerivationBuildId) : Store :=
  match find_anchor (st_db w) b with
  | None => w
  | Some (d, a) =>
      let w := update_derivation_build_status w now d a (terminal_success_status (db_substituted a)) in
      let w := if db_substitutable a then send w [SubstituteLog b d] else w in
      finalize_evals_for_derivations w now [d]
  end.

Definition bump_attempt t (b : DerivationBuildId) (n : Z) : Db :=
  update_where t (fun _ a => N.eqb (db_id a) b) (with_attempt n).

Definition log_failure w (b : DerivationBuildId) (error : string) : Store :=
  match latest_attempt (st_db w) b with
  | Some att => send w [BuildLogAppended (ba_id att)
      (newline ++ "=== build failed: " ++ strip_nix_log_tail error ++ " ===" ++ newline)%string]
  | None => w
  end.

Definition handle_build_job_failed w now (cfg : EvalConfig) (nar_exists : string -> option bool)
    (b : DerivationBuildId) (error : string) (kind : BuildFailureKind) (missing_paths : list string) : Store :=
  match find_anchor (st_db w) b with
  | None => w
  | Some (d, a) =>
      let w := log_failure w b error in
      let attempt := db_attempt a in
      let unavailable := match kind with InputsUnavailable => true | _ => false end in
      let prior := if unavailable then inputs_unavailable_attempt_count (st_db w) b else 0 in
      let w := on_tables w (fun t => fail_latest_attempt t b AFailed (attempt_reason kind)
                 (Some (truncate_failure_message error))) in
      let circuit_open := unavailable && inputs_unavailable_circuit_open prior (inputs_unavailable_max_loops cfg) in
      let w := if unavailable && negb (match missing_paths with [] => true | _ => false end) && negb circuit_open
        then on_tables w (fun t => reconcile_missing_inputs t now nar_exists d missing_paths) else w in
      let outcome := match decide_failure_outcome kind attempt (build_max_attempts cfg) with
        | OutRetry => if circuit_open then OutPermanent else OutRetry | o => o end in
      match outcome with
      | OutRetry =>
          let w := on_tables w (fun t => bump_attempt t b (i32 (attempt + 1))) in
          let '(d, reloaded) := default (d, a) (find_anchor (st_db w) b) in
          update_derivation_build_status w now d reloaded BFailedTransient
      | OutRequeue => update_derivation_build_status w now d a BQueued
      | OutPermanent | OutTimeout =>
          let w := update_derivation_build_status w now d a
            (match outcome with OutTimeout => BFailedTimeout | _ => BFailedPermanent end) in
          let w := on_tables w (fun t => (cascade_dependency_failed t now d).1) in
          finalize_evals_for_derivations w now [d]
      end
  end.

(** Transient failures whose backoff has elapsed, as read before any of them moves. *)
Definition requeue_transient_failures w now (cfg : EvalConfig) : Store :=
  foldl (fun w x =>
    if retry_backoff_elapsed (db_attempt x.2) (db_updated_at x.2) now (build_retry_backoff_secs cfg)
    then update_derivation_build_status w now x.1 x.2 BQueued else w)
    w (affected (st_db w) (fun _ a => bool_decide (db_status a = BFailedTransient))).

(** ** Orphans of a disconnect *)

Definition requeue_orphaned_eval w now (dispatches : EvaluationId -> Z) ev : Store :=
  match t_evaluations (st_db w) !! ev with
  | Some e =>
      if pre_build (ev_status e) then
        match orphaned_eval_outcome (dispatches ev) MAX_EVAL_DISPATCH_ATTEMPTS with
        | OrphanRequeue =>
            let w := persist_waiting_reason w ev (ev_waiting_reason e) (Some (WEvalWorkers CapEval 0)) in
            update_evaluation_status w now ev e EWaiting
        | OrphanExhausted => update_evaluation_status_with_error w now ev e EFailed
        end
      else w
  | None => w
  end.

Definition requeue_orphaned_build w now (b : DerivationBuildId) : Store :=
  match find_anchor (st_db w) b with
  | Some (d, a) => if bool_decide (db_status a = BBuilding) then update_derivation_build_status w now d a BQueued else w
  | None => w
  end.

Definition requeue_orphaned_jobs w now (dispatches : EvaluationId -> Z) (orphaned : list PendingJob) : Store :=
  foldl (fun w job =>
    match derivation_build job with
    | Some b => requeue_orphaned_build w now b
    | None => requeue_orphaned_eval w now dispatches (evaluation_id job)
    end) w orphaned.

(** ** Evaluations *)

Definition handle_eval_status_update w now ev (new_status : EvaluationStatus) : Store :=
  match t_evaluations (st_db w) !! ev with
  | Some e => update_evaluation_status w now ev e new_status
  | None => w
  end.

Definition handle_eval_job_completed w now (nar_exists : string -> option bool) ev : Store :=
  let w := reconcile_build_graph w now nar_exists (Eval ev) in
  let w := match t_evaluations (st_db w) !! ev with
    | Some e =>
        match ev_status e with
        | EEvaluatingFlake | EEvaluatingDerivation => update_evaluation_status w now ev e EBuilding
        | _ => w
        end
    | None => w
    end in
  check_evaluation_done w now ev.

(** [blob_existed]: a row of the shared eval cache was deleted. *)
Definition heal_corrupt_eval_cache w now ev (fingerprint : string) (blob_existed : bool) : Store * bool :=
  if negb blob_existed then (w, false)
  else
    let w := send w [EvalCacheDeleted fingerprint] in
    match t_evaluations (st_db w) !! ev with
    | Some e => (if eval_is_terminal (ev_status e) then w else update_evaluation_status w now ev e EQueued, true)
    | None => (w, true)
    end.

Definition handle_eval_job_failed w now ev (kind : BuildFailureKind) (missing_paths : list string) (blob_existed : bool)
    : Store :=
  let '(w, healed) := match kind, head missing_paths with
    | CorruptEvalCache, Some fingerprint => heal_corrupt_eval_cache w now ev fingerprint blob_existed
    | _, _ => (w, false) end in
  if healed then w
  else
    match t_evaluations (st_db w) !! ev with
    | Some e => if eval_is_terminal (ev_status e) then w else update_evaluation_status_with_error w now ev e EFailed
    | None => w
    end.

(** ** What the scheduler's handlers ask of the database

    The [Effect]s of [Scheduler] that reach this part, in the order they were emitted. The
    persisting of an evaluation's batches is in [EvalResult]. *)

Context `{SD : Serde (H := CH)} {HO : HashOrder} {UF : UuidFormat}.

Record World := {
  wd_config : EvalConfig;
  wd_nar_exists : string -> option bool;
  wd_dispatches : EvaluationId -> Z;
  wd_blob_existed : string -> bool;
  wd_edge_insert : nat -> bool;
}.

Definition apply_effect (wd : World) (now : NaiveDateTime) w (e : Effect) : Store :=
  match e with
  | DbBuildCompleted b => handle_build_job_completed w now b
  | DbBuildFailed b error kind missing =>
      handle_build_job_failed w now (wd_config wd) (wd_nar_exists wd) b error kind missing
  | DbEvalCompleted ev => handle_eval_job_completed w now (wd_nar_exists wd) ev
  | DbEvalFailed ev _ kind missing =>
      handle_eval_job_failed w now ev kind missing (wd_blob_existed wd (default "" (head missing)))
  | DbRequeueOrphans jobs => requeue_orphaned_jobs w now (wd_dispatches wd) jobs
  | DbAbortEvaluation ev =>
      match t_evaluations (st_db w) !! ev with Some e => db_abort_evaluation w now ev e | None => w end
  | DbInsertEdges edges => on_db w (insert_edges (st_db w) edges)
  | DbMarkEdgesComplete ds => on_db w (mark_edges_complete (st_db w) ds)
  | DbFlushDeferredDeps _ edges => on_db w (store_deferred_deps (st_db w) (wd_edge_insert wd) edges)
  | _ => w
  end.

Definition apply_effects (wd : World) (now : NaiveDateTime) w (es : list Effect) : Store :=
  foldl (apply_effect wd now) w es.

End lifecycle.

Local Close Scope Z_scope.
(** * No evaluation hangs

    The build graph under every handler and sweep of the server: whichever of them moves the
    last anchor an evaluation waits for also finalizes the evaluation. *)

Section lifecycle_facts.
Context `{CH : Chrono}.
Implicit Types (t : Db) (w : Store) (d : DerivationId) (a : DerivationBuild) (ev : EvaluationId).

(** ** Handlers that only use the emitters *)

Lemma finalize_for_settles w now ds : settled_evals w -> settled_evals (finalize_evals_for_derivations w now ds).
Proof. apply finalize_settles. Qed.

Lemma build_status_settles w now worker job b :
  settled_evals w -> settled_evals (handle_build_status_update w now worker job b).
Proof.
  intros Hw. unfold handle_build_status_update. destruct b as [b|]; [|done].
  destruct (find_anchor _ _) as [[d a]|]; [|done]. case_bool_decide; [done|]. by apply update_status_settles.
Qed.

Lemma build_output_settles w now b sub : settled_evals w -> settled_evals (handle_build_output w now b sub).1.
Proof.
  intros Hw. unfold handle_build_output. destruct (find_anchor _ _); [|done]. simpl.
  destruct sub; [|done]. apply on_tables_settles; [done|by apply accounted_columns].
Qed.

Lemma build_completed_settles w now b : settled_evals w -> settled_evals (handle_build_job_completed w now b).
Proof.
  intros Hw. unfold handle_build_job_completed. destruct (find_anchor _ _) as [[d a]|]; [|done]. cbv zeta.
  apply finalize_for_settles, if_settles; [by apply update_status_settles|].
  by apply send_settles, update_status_settles.
Qed.

Lemma requeue_transient_settles w now cfg : settled_evals w -> settled_evals (requeue_transient_failures w now cfg).
Proof.
  intros Hw. apply foldl_settles; [|done]. clear w Hw. intros w x Hw.
  destruct (retry_backoff_elapsed _ _ _ _); [by apply update_status_settles|done].
Qed.

(** ** Failures *)

Lemma log_failure_db w b error : st_db (log_failure w b error) = st_db w.
Proof. unfold log_failure. by destruct (latest_attempt _ _). Qed.

Lemma log_failure_settles w b error : settled_evals w -> settled_evals (log_failure w b error).
Proof. unfold settled_evals. by rewrite log_failure_db. Qed.

Lemma fail_attempt_quiet t b o r m : accounted t (fail_latest_attempt t b o r m) [].
Proof.
  unfold fail_latest_attempt. destruct (latest_attempt t b); [by apply accounted_tables|apply accounted_refl].
Qed.

(** A cascade from the same root right after one moves nothing. *)
Lemma cascade_again t now d m :
  let t' := set_evaluations (cascade_dependency_failed t now d).1 m in
  accounted t' (cascade_dependency_failed t' now d).1 [].
Proof.
  cbv zeta. set (t' := set_evaluations _ m). apply accounted_update; [done|].
  intros x a Hx Hp Hne. exfalso. unfold t' in Hx. simpl in Hx. rewrite map_lookup_imap in Hx.
  destruct (t_anchors t !! x) as [a0|] eqn:Ha0; [|done]. simpl in Hx. injection Hx as <-.
  change (dependency_closure_cte t' Dependents anywhere {[d]})
    with (dependency_closure_cte t Dependents anywhere {[d]}) in Hp.
  match type of Hp with context [if ?c then _ else _] => destruct c eqn:Hc end; [by simpl in Hp|congruence].
Qed.

(** An accepted terminal failure has already cascaded. *)
Lemma terminal_failure_cascaded w now d a s :
  is_Some (t_anchors (st_db w) !! d) -> build_is_terminal (db_status a) = false -> is_terminal_failure s = true ->
  let w' := update_derivation_build_status w now d a s in
  accounted (st_db w') (cascade_dependency_failed (st_db w') now d).1 [].
Proof.
  intros [b Ha] Hnt Hf. cbv zeta. unfold update_derivation_build_status.
  rewrite bool_decide_eq_false_2 by (intros Heq; rewrite Heq in Hnt; by destruct s).
  assert (Hv : exists r, validate_build (db_status a) s = Ok r).
  { destruct (build_transitions_exact (db_status a) s) as [_ Hm]. destruct Hm as [_ Hok].
    - split; [intros Heq; rewrite Heq in Hnt; by destruct s|]. split; [done|]. left. by destruct s.
    - destruct (validate_build _ _); [by eexists|done]. }
  destruct Hv as [r ->]. cbv zeta. set (t := if build_is_terminal s then _ else _).
  assert (Hta : t_anchors t = t_anchors (st_db w)).
  { unfold t. destruct (build_is_terminal s); [|done]. unfold stamp_attempt_finished. by destruct (latest_attempt _ _). }
  rewrite Hta, Ha, Hf. set (w1 := if is_terminal_success s then _ else _). clearbody w1.
  assert (Hw2 : exists m, st_db (move_and_emit w1 now (fun t => cascade_dependency_failed t now d)) =
    set_evaluations (cascade_dependency_failed (st_db w1) now d).1 m).
  { unfold move_and_emit. destruct (cascade_dependency_failed (st_db w1) now d) as [t1 c1].
    apply (emit_db (on_db w1 t1)). }
  destruct Hw2 as [m ->]. apply cascade_again.
Qed.

Lemma find_anchor_spec t b d a : find_anchor t b = Some (d, a) -> t_anchors t !! d = Some a /\ db_id a = b.
Proof.
  unfold find_anchor. intros Hh. assert (Hin : (d, a) ∈ affected t (fun _ a => N.eqb (db_id a) b))
    by (destruct (affected _ _); [done|]; injection Hh as ->; constructor).
  apply elem_of_affected in Hin as [Ha Hb%N.eqb_eq]. done.
Qed.

(** Settled, with the anchor of [d] still there. *)
Definition settled_with d w : Prop := settled_evals w /\ is_Some (t_anchors (st_db w) !! d).

Lemma settled_with_quiet d w f :
  settled_with d w -> accounted (st_db w) (f (st_db w)) [] -> settled_with d (on_tables w f).
Proof.
  intros [Hw Hs] Hacc. split; [by apply on_tables_settles|]. unfold on_tables. simpl.
  pose proof (acc_ids _ _ _ Hacc d) as Hid. apply (fmap_is_Some db_id). rewrite Hid. by apply fmap_is_Some.
Qed.

Lemma fail_for_good w now d a s :
  settled_with d w -> build_is_terminal (db_status a) = false -> is_terminal_failure s = true ->
  settled_evals (finalize_evals_for_derivations
    (on_tables (update_derivation_build_status w now d a s) (fun t => (cascade_dependency_failed t now d).1)) now [d]).
Proof.
  intros [Hw Hs] Hnt Hf. apply finalize_for_settles, on_tables_settles; [by apply update_status_settles|].
  by apply terminal_failure_cascaded.
Qed.

(** The failure of a build that has not already ended. *)
Lemma build_failed_settles w now cfg nar_exists b error kind missing :
  settled_evals w ->
  (forall d a, find_anchor (st_db w) b = Some (d, a) -> build_is_terminal (db_status a) = false) ->
  settled_evals (handle_build_job_failed w now cfg nar_exists b error kind missing).
Proof.
  intros Hw Hnt. unfold handle_build_job_failed. destruct (find_anchor (st_db w) b) as [[d a]|] eqn:Hf; [|done].
  specialize (Hnt d a eq_refl). apply find_anchor_spec in Hf as [Ha _]. cbv zeta.
  set (w1 := log_failure w b error). set (w2 := on_tables w1 _). set (circuit := _ && inputs_unavailable_circuit_open _ _).
  set (w3 := if _ && _ && negb circuit then _ else w2).
  assert (H1 : settled_with d w1).
  { split; [by apply log_failure_settles|]. unfold w1. rewrite log_failure_db. by eexists. }
  assert (H2 : settled_with d w2) by (apply settled_with_quiet; [done|apply fail_attempt_quiet]).
  assert (H3 : settled_with d w3).
  { unfold w3. destruct (_ && _ && _); [|done]. apply settled_with_quiet; [done|apply quiet_missing_inputs]. }
  clearbody w1 w2 w3 circuit. set (outcome := match decide_failure_outcome _ _ _ with OutRetry => _ | o => o end).
  clearbody outcome. destruct outcome; try by apply fail_for_good.
  - assert (H4 : settled_evals (on_tables w3 (fun t => bump_attempt t b (i32 (db_attempt a + 1)))))
      by (apply on_tables_settles; [apply H3|by apply accounted_columns]).
    destruct (default _ _) as [d' a']. by apply update_status_settles.
  - apply update_status_settles, H3.
Qed.

(** ** Evaluations *)

Lemma with_error_settles w now ev e s :
  s <> EBuilding -> settled_evals w -> settled_evals (update_evaluation_status_with_error w now ev e s).
Proof.
  intros Hs Hw. unfold update_evaluation_status_with_error. destruct (eval_is_terminal _); [done|].
  apply update_eval_settles; [done|]. apply on_db_settles; [done|by apply accounted_tables].
Qed.

Lemma orphans_settle w now dispatches jobs :
  settled_evals w -> settled_evals (requeue_orphaned_jobs w now dispatches jobs).
Proof.
  intros Hw. apply foldl_settles; [|done]. clear w Hw. intros w job Hw. destruct (derivation_build job) as [b|].
  - unfold requeue_orphaned_build. destruct (find_anchor _ _) as [[d a]|]; [|done].
    case_bool_decide; [by apply update_status_settles|done].
  - unfold requeue_orphaned_eval. destruct (t_evaluations _ !! _) as [e|]; [|done]. destruct (pre_build _); [|done].
    destruct (orphaned_eval_outcome _ _); [|by apply with_error_settles].
    by apply update_eval_settles, persist_settles.
Qed.

(** Entering the build phase is followed by the check that may end it at once. *)
Lemma enter_then_check w now ev e :
  settled_evals w -> settled_evals (check_evaluation_done (update_evaluation_status w now ev e EBuilding) now ev).
Proof.
  intros [Hl Hh]. split.
  - destruct (check_db (update_evaluation_status w now ev e EBuilding) now ev) as (m & -> & _).
    by apply linked_set_evaluations, update_eval_linked.
  - intros ev' Hx. apply check_keeps in Hx as [Hx Hne]. apply (Hh ev'). revert Hx.
    unfold update_evaluation_status. destruct (validate_eval _ _); [|done].
    destruct (t_evaluations (st_db w) !! ev) as [row|]; [|done]. destruct (eval_is_terminal _); [done|].
    intros (e' & He & Hr). simpl in He. rewrite lookup_insert_ne in He by done. by exists e'.
Qed.

Lemma check_one_settles w now ev : settled_evals w -> settled_evals (check_evaluation_done w now ev).
Proof. apply (finalize_settles w now [ev]). Qed.

Lemma eval_completed_settles w now nar_exists ev :
  settled_evals w -> settled_evals (handle_eval_job_completed w now nar_exists ev).
Proof.
  intros Hw. unfold handle_eval_job_completed. cbv zeta.
  assert (H1 := reconcile_build_graph_settles w now nar_exists (Eval ev) Hw).
  set (w1 := reconcile_build_graph _ _ _ _) in *. clearbody w1.
  destruct (t_evaluations _ !! ev) as [e|]; [|by apply check_one_settles].
  destruct (ev_status e); first [by apply enter_then_check | by apply check_one_settles].
Qed.

Lemma eval_failed_settles w now ev kind missing blob :
  settled_evals w -> settled_evals (handle_eval_job_failed w now ev kind missing blob).
Proof.
  intros Hw. unfold handle_eval_job_failed.
  assert (Hrest : forall w, settled_evals w -> settled_evals (match t_evaluations (st_db w) !! ev with
    | Some e => if eval_is_terminal (ev_status e) then w else update_evaluation_status_with_error w now ev e EFailed
    | None => w end)).
  { intros w' H'. destruct (t_evaluations _ !! ev); [|done]. destruct (eval_is_terminal _); [done|by apply with_error_settles]. }
  assert (Hheal : forall fp, settled_evals (heal_corrupt_eval_cache w now ev fp blob).1).
  { intros fp. unfold heal_corrupt_eval_cache. destruct blob; [|done]. simpl.
    destruct (t_evaluations _ !! ev); [|done]. simpl. destruct (eval_is_terminal _); [done|]. by apply update_eval_settles. }
  destruct kind; try by apply Hrest. destruct (head missing) as [fp|]; [|by apply Hrest].
  specialize (Hheal fp). destruct (heal_corrupt_eval_cache w now ev fp blob) as [w' []]; [done|by apply Hrest].
Qed.

(** ** Every step of the server *)

Inductive server_step : Store -> Store -> Prop :=
| step_building w now worker job b : server_step w (handle_build_status_update w now worker job b)
| step_output w now b substituted : server_step w (handle_build_output w now b substituted).1
| step_completed w now b : server_step w (handle_build_job_completed w now b)
| step_failed w now cfg nar_exists b error kind missing :
    (forall d a, find_anchor (st_db w) b = Some (d, a) -> build_is_terminal (db_status a) = false) ->
    server_step w (handle_build_job_failed w now cfg nar_exists b error kind missing)
| step_orphans w now dispatches jobs : server_step w (requeue_orphaned_jobs w now dispatches jobs)
| step_eval_status w now ev s : s <> EBuilding -> server_step w (handle_eval_status_update w now ev s)
| step_eval_batch fr io su w cat now job derivations ws es :
    fresh_anchors fr (st_db w) ->
    (forall e, t_evaluations (st_db w) !! pe_evaluation_id job = Some e -> ev_status e <> EBuilding) ->
    server_step w
      (gr_store (handle_eval_batch fr io su {| gr_store := w; gr_catalog := cat |} now job derivations ws es).1)
| step_edges w edges : server_step w (on_db w (insert_edges (st_db w) edges))
| step_edges_complete w ds : server_step w (on_db w (mark_edges_complete (st_db w) ds))
| step_deferred w outcome deferred : server_step w (on_db w (store_deferred_deps (st_db w) outcome deferred))
| step_eval_completed w now nar_exists ev : server_step w (handle_eval_job_completed w now nar_exists ev)
| step_eval_failed w now ev kind missing blob : server_step w (handle_eval_job_failed w now ev kind missing blob)
| step_abort w now ev e : server_step w (db_abort_evaluation w now ev e)
| step_requeue w now cfg : server_step w (requeue_transient_failures w now cfg)
| step_reconcile w now nar_exists scope : server_step w (reconcile_build_graph w now nar_exists scope)
| step_waiting w cat cfg nar_exists now p draining :
    server_step w (reconcile_waiting_state cat cfg nar_exists w now p draining)
| step_recover_drv w now : server_step w (recover_drv_stuck_evals w now)
| step_restart w now : server_step w (recover_interrupted_work w now).

Lemma server_step_settles w w' : server_step w w' -> settled_evals w -> settled_evals w'.
Proof.
  destruct 1; intros Hw.
  - by apply build_status_settles.
  - by apply build_output_settles.
  - by apply build_completed_settles.
  - by apply build_failed_settles.
  - by apply orphans_settle.
  - unfold handle_eval_status_update. destruct (t_evaluations _ !! _); [by apply update_eval_settles|done].
  - by apply batch_settles.
  - apply on_db_settles; [done|apply quiet_edges].
  - apply on_db_settles; [done|apply quiet_mark_edges].
  - apply on_db_settles; [done|apply quiet_deferred].
  - by apply eval_completed_settles.
  - by apply eval_failed_settles.
  - by apply abort_evaluation_settles.
  - by apply requeue_transient_settles.
  - by apply reconcile_build_graph_settles.
  - by apply sweep_settles.
  - by apply recover_settles.
  - by apply recovery_settles.
Qed.


(** ** Late failures *)

Lemma finalize_anchors w now evs : t_anchors (st_db (finalize_evals w now evs)) = t_anchors (st_db w).
Proof. destruct (finalize_db now evs w) as [m ->]. done. Qed.

Lemma refused_status w now d a s :
  build_is_terminal (db_status a) = true -> update_derivation_build_status w now d a s = w.
Proof.
  intros Ht. unfold update_derivation_build_status. case_bool_decide as He; [done|].
  destruct (validate_build (db_status a) s) as [r|] eqn:E; [|done].
  exfalso. apply (build_terminal_final (db_status a) s Ht). split; [done|]. by rewrite E.
Qed.

Lemma fail_attempt_anchors t b o r m : t_anchors (fail_latest_attempt t b o r m) = t_anchors t.
Proof. unfold fail_latest_attempt. by destruct (latest_attempt t b). Qed.

Lemma late_failure_anchors w now cfg nar_exists b error missing d a :
  find_anchor (st_db w) b = Some (d, a) -> build_is_terminal (db_status a) = true ->
  exists t, t_anchors t = t_anchors (st_db w) /\ t_dependencies t = t_dependencies (st_db w) /\
  t_anchors (st_db (handle_build_job_failed w now cfg nar_exists b error Permanent missing)) =
    t_anchors (cascade_dependency_failed t now d).1.
Proof.
  intros Hf Ht. unfold handle_build_job_failed. rewrite Hf. simpl. rewrite refused_status by done.
  unfold finalize_evals_for_derivations. rewrite finalize_anchors. unfold on_tables. simpl. eexists. split; [|split; [|done]].
  - by rewrite fail_attempt_anchors, log_failure_db.
  - unfold fail_latest_attempt. rewrite log_failure_db. by destruct (latest_attempt _ _).
Qed.

(** A late failure report poisons finished work: when a builder failure arrives for a build
    that has already ended - built, substituted or aborted - the refused transition leaves its
    status alone, but the cascade after it still fails every pending build above it. *)
Theorem late_failure_cascades w now cfg nar_exists b error missing d a x ax :
  find_anchor (st_db w) b = Some (d, a) -> build_is_terminal (db_status a) = true ->
  rtc (depends (st_db w)) x d -> x <> d ->
  t_anchors (st_db w) !! x = Some ax -> status_in CASCADE_TARGET (db_status ax) = true ->
  let t' := st_db (handle_build_job_failed w now cfg nar_exists b error Permanent missing) in
  db_status <$> t_anchors t' !! d = Some (db_status a) /\
  db_status <$> t_anchors t' !! x = Some BDependencyFailed.
Proof.
  intros Hf Ht Hp Hne Hx Hs. cbv zeta.
  destruct (late_failure_anchors w now cfg nar_exists b error missing d a Hf Ht) as (t & Hta & Htd & ->).
  apply find_anchor_spec in Hf as [Ha _].
  unfold cascade_dependency_failed, move_where. simpl. rewrite !map_lookup_imap, Hta, Ha, Hx. simpl. split.
  - rewrite N.eqb_refl, andb_false_r. done.
  - rewrite Hs, (proj2 (N.eqb_neq x d) Hne), bool_decide_eq_true_2; [done|].
    apply closure_spec. exists d. split; [set_solver|]. apply dependents_walk. unfold depends in *. by rewrite Htd.
Qed.

(** ** Refused requests *)

Lemma refused_eval w now ev e s :
  is_ok (validate_eval (ev_status e) s) = false -> update_evaluation_status w now ev e s = w.
Proof. unfold update_evaluation_status. by destruct (validate_eval _ _). Qed.

Lemma sweep_keeps_running cat cfg nar_exists w now p ev e :
  keeps_row ev e w -> pre_build (ev_status e) = true ->
  (0 < pool_eval_capable p)%nat -> (0 < pool_fetch_capable p)%nat ->
  keeps_row ev e (reconcile_waiting_state cat cfg nar_exists w now p false).
Proof.
  intros Hk Hp He Hf. unfold reconcile_waiting_state. set (evals := List.filter _ _).
  assert (Hev : Forall (fun x => x.1 = ev -> x.2 = e) evals).
  { apply Forall_forall. intros [ev0 e0] Hx Heq. simpl in *. subst ev0. unfold evals in Hx.
    apply list_elem_of_In, filter_In in Hx as [Hx _]. apply list_elem_of_In, elem_of_map_to_list in Hx.
    unfold keeps_row in Hk. congruence. }
  clearbody evals. revert w Hk. induction Hev as [|[ev0 e0] evals Hx _ IH]; intros w Hk; [done|].
  cbn [foldl]. apply IH. simpl in Hx. destruct (decide (ev0 = ev)) as [->|Hne].
  - rewrite (Hx eq_refl). unfold reconcile_eval, left_alone, reconcile_outcome. cbn [fst snd].
    assert (Hd : decide_pre_build_target (ev_status e) (pool_eval_capable p) (pool_fetch_capable p)
                   (connected_workers p) = None).
    { unfold decide_pre_build_target, capability_available. apply Nat.ltb_lt in He, Hf.
      destruct (ev_status e); simpl; by rewrite ?He, ?Hf. }
    destruct (ev_status e); try discriminate Hp; rewrite bool_decide_eq_false_2 by done; cbn [andb]; by rewrite Hd.
  - apply sweep_one_keeps_row; [by destruct (ev_status e)|done|]. intros Heq. by destruct Hne.
Qed.

(** Two handlers strand an evaluation by asking for a move the state machine refuses: the
    heal of a corrupt eval cache reports the evaluation re-queued, and the completion of an
    evaluation still in [EvaluatingFlake] reports it building, yet the row keeps its status;
    its job is gone, and with workers connected no later sweep touches the row either. *)
Theorem refused_moves_strand_evaluations cat cfg w now now' nar_exists p ev e fingerprint missing :
  t_evaluations (st_db w) !! ev = Some e -> pre_build (ev_status e) = true ->
  (0 < pool_eval_capable p)%nat -> (0 < pool_fetch_capable p)%nat ->
  let healed := handle_eval_job_failed w now ev CorruptEvalCache (fingerprint :: missing) true in
  let completed := handle_eval_job_completed w now nar_exists ev in
  t_evaluations (st_db (reconcile_waiting_state cat cfg nar_exists healed now' p false)) !! ev = Some e /\
  (ev_status e <> EEvaluatingDerivation ->
   t_evaluations (st_db (reconcile_waiting_state cat cfg nar_exists completed now' p false)) !! ev = Some e).
Proof.
  intros Hk Hp He Hf. cbv zeta. split; [|intros Hne]; apply sweep_keeps_running; try done.
  - unfold handle_eval_job_failed, heal_corrupt_eval_cache. cbn [head negb]. unfold send at 1. cbn [st_db]. rewrite Hk.
    assert (Hnt : eval_is_terminal (ev_status e) = false) by (by destruct (ev_status e)). rewrite Hnt.
    rewrite refused_eval; [done|]. by destruct (ev_status e).
  - unfold handle_eval_job_completed. cbv zeta.
    assert (Hk1 : keeps_row ev e (reconcile_build_graph w now nar_exists (Eval ev)))
      by (apply reconcile_keeps_row; [done|by destruct (ev_status e)]).
    set (w1 := reconcile_build_graph _ _ _ _) in *. clearbody w1. unfold keeps_row in Hk1. rewrite Hk1.
    apply check_keeps_row; [|by destruct (ev_status e)].
    destruct (ev_status e) eqn:Es; try done. rewrite refused_eval; [done|by rewrite Es].
Qed.

End lifecycle_facts.
