(* ===== verification/Gc.v ===== *)
(** * Garbage collection

    What the server throws away: [gc_project_evaluations] and [gc_orphan_derivations] of
    [backend/gradient-db/src/gc.rs], the passes of
    [backend/gradient-cache/src/cacher/] ([cleanup.rs], [invalidate.rs],
    [eval_cache_sweep.rs], [deep_gc.rs]), [clear_gate_flags_for_hashes] of
    [gradient-db/src/cache_storage.rs], and [delete_nar_from_cache] of
    [gradient-web/src/endpoints/caches/helpers.rs].

    A pass is a sequence of statements with the rest of the server in between: [others p]
    is what the other tasks did before the statement at point [p]. A statement of the
    database succeeds, and so does deleting a log; other calls to the object store may fail
    ([delete_fails], [probe_fails] and their like for blobs). A row of [cached_path] keeps its id while it keeps its hash. A [cutoff]
    is the time a pass computes from the clock and its configured hours or days. *)

From S2P Require Import Prelude RustStr Status Fixpoints ScoreContext StorePath JobData EdgeStream BuildGraph Promotion Transitions Healing EvalResult.

(** ** Rows and objects *)

Section gc.
Context `{Chrono}.

Abbreviation CacheId := N.
Abbreviation BlobKey := (N * list Z)%type.

(** [cache_derivation]. *)
Record CacheDerivationRow := {
  cd_id : N;
  cd_cache : CacheId;
  cd_derivation : DerivationId;
  cd_last_fetched_at : option NaiveDateTime;
}.

(** The columns of [evaluation] only the collector reads. *)
Record EvalLink := {
  el_created_at : NaiveDateTime;
  el_previous : option EvaluationId;
  el_next : option EvaluationId;
  el_commit : N;
}.

Record BlobRow := { br_id : N; br_organization : N; br_hash : list Z; br_last_used_at : NaiveDateTime }.

Record UploadSession := { us_id : N; us_expires_at : NaiveDateTime; us_dispatched_at : option NaiveDateTime }.

(** [gs_fixed_outputs] are the derivations with an output whose [ca] is set; a signature is
    kept by the hash of its path. [gs_nars] maps a stored NAR to when it was last modified,
    in seconds. *)
Record GcStore := {
  gs_db : Db;
  gs_created_at : gmap DerivationId NaiveDateTime;
  gs_fixed_outputs : list DerivationId;
  gs_signatures : list (string * CacheId);
  gs_cache_derivations : list CacheDerivationRow;
  gs_links : gmap EvaluationId EvalLink;
  gs_commits : gset N;
  gs_blob_rows : list BlobRow;
  gs_sessions : list UploadSession;
  gs_nars : gmap string Z;
  gs_blobs : gset BlobKey;
  gs_logs : gset N;
}.

Definition gs_with_db (s : GcStore) (t : Db) : GcStore := {|
  gs_db := t; gs_created_at := gs_created_at s; gs_fixed_outputs := gs_fixed_outputs s;
  gs_signatures := gs_signatures s; gs_cache_derivations := gs_cache_derivations s; gs_links := gs_links s;
  gs_commits := gs_commits s; gs_blob_rows := gs_blob_rows s; gs_sessions := gs_sessions s; gs_nars := gs_nars s;
  gs_blobs := gs_blobs s; gs_logs := gs_logs s |}.

Definition gs_with_signatures (s : GcStore) (l : list (string * CacheId)) : GcStore := {|
  gs_db := gs_db s; gs_created_at := gs_created_at s; gs_fixed_outputs := gs_fixed_outputs s;
  gs_signatures := l; gs_cache_derivations := gs_cache_derivations s; gs_links := gs_links s;
  gs_commits := gs_commits s; gs_blob_rows := gs_blob_rows s; gs_sessions := gs_sessions s; gs_nars := gs_nars s;
  gs_blobs := gs_blobs s; gs_logs := gs_logs s |}.

Definition gs_with_cache_derivations (s : GcStore) (l : list CacheDerivationRow) : GcStore := {|
  gs_db := gs_db s; gs_created_at := gs_created_at s; gs_fixed_outputs := gs_fixed_outputs s;
  gs_signatures := gs_signatures s; gs_cache_derivations := l; gs_links := gs_links s;
  gs_commits := gs_commits s; gs_blob_rows := gs_blob_rows s; gs_sessions := gs_sessions s; gs_nars := gs_nars s;
  gs_blobs := gs_blobs s; gs_logs := gs_logs s |}.

Definition gs_with_evaluations (s : GcStore) (t : Db) (links : gmap EvaluationId EvalLink) (commits : gset N) : GcStore := {|
  gs_db := t; gs_created_at := gs_created_at s; gs_fixed_outputs := gs_fixed_outputs s;
  gs_signatures := gs_signatures s; gs_cache_derivations := gs_cache_derivations s; gs_links := links;
  gs_commits := commits; gs_blob_rows := gs_blob_rows s; gs_sessions := gs_sessions s; gs_nars := gs_nars s;
  gs_blobs := gs_blobs s; gs_logs := gs_logs s |}.

Definition gs_with_nars (s : GcStore) (m : gmap string Z) : GcStore := {|
  gs_db := gs_db s; gs_created_at := gs_created_at s; gs_fixed_outputs := gs_fixed_outputs s;
  gs_signatures := gs_signatures s; gs_cache_derivations := gs_cache_derivations s; gs_links := gs_links s;
  gs_commits := gs_commits s; gs_blob_rows := gs_blob_rows s; gs_sessions := gs_sessions s; gs_nars := m;
  gs_blobs := gs_blobs s; gs_logs := gs_logs s |}.

Definition gs_with_blobs (s : GcStore) (rows : list BlobRow) (blobs : gset BlobKey) : GcStore := {|
  gs_db := gs_db s; gs_created_at := gs_created_at s; gs_fixed_outputs := gs_fixed_outputs s;
  gs_signatures := gs_signatures s; gs_cache_derivations := gs_cache_derivations s; gs_links := gs_links s;
  gs_commits := gs_commits s; gs_blob_rows := rows; gs_sessions := gs_sessions s; gs_nars := gs_nars s;
  gs_blobs := blobs; gs_logs := gs_logs s |}.

Definition gs_with_sessions (s : GcStore) (l : list UploadSession) : GcStore := {|
  gs_db := gs_db s; gs_created_at := gs_created_at s; gs_fixed_outputs := gs_fixed_outputs s;
  gs_signatures := gs_signatures s; gs_cache_derivations := gs_cache_derivations s; gs_links := gs_links s;
  gs_commits := gs_commits s; gs_blob_rows := gs_blob_rows s; gs_sessions := l; gs_nars := gs_nars s;
  gs_blobs := gs_blobs s; gs_logs := gs_logs s |}.

Definition gs_with_logs (s : GcStore) (logs : gset N) : GcStore := {|
  gs_db := gs_db s; gs_created_at := gs_created_at s; gs_fixed_outputs := gs_fixed_outputs s;
  gs_signatures := gs_signatures s; gs_cache_derivations := gs_cache_derivations s; gs_links := gs_links s;
  gs_commits := gs_commits s; gs_blob_rows := gs_blob_rows s; gs_sessions := gs_sessions s; gs_nars := gs_nars s;
  gs_blobs := gs_blobs s; gs_logs := logs |}.

Definition datetime_lt (a b : NaiveDateTime) : bool := match datetime_cmp a b with Lt => true | _ => false end.

(** ** The gate flags behind deleted artifacts ([cache_storage.rs]) *)

(** The recursive arm of [dirty]: referrers whose flag is still set. *)
Definition dirty_step (t : Db) (work : gset string) : gset string :=
  list_to_set (map fst (List.filter (fun r => bool_decide (r.2 ∈ work) && hash_closure_complete t r.1) (t_references t))).

Definition dirty_hashes (t : Db) (hashes : list string) : gset string :=
  recursive_query (list_to_set (map fst (t_references t))) (dirty_step t) (list_to_set hashes).

Definition clear_gate_flags_chunk (t : Db) (chunk : list string) : Db :=
  let t := update_where t (fun d a => db_drv_closure_cached a && existsb (fun h => bool_decide (h ∈ chunk)) (drv_hashes_of t d))
             (with_drv_closure_cached false) in
  let t := update_where t (fun d a => db_closure_complete a && existsb (fun o => bool_decide (or_hash o ∈ chunk)) (outputs_of t d))
             (with_closure_complete false) in
  let dirty := dirty_hashes t chunk in
  set_cached_paths t (map_imap (fun h cp => Some (if bool_decide (h ∈ dirty) && cp_closure_complete cp
                                                  then with_cp_closure false cp else cp)) (t_cached_paths t)).

Definition clear_gate_flags_for_hashes (t : Db) (hashes : list string) : Db :=
  foldl clear_gate_flags_chunk t (chunks IN_CHUNK_SIZE hashes).

(** [DELETE FROM cached_path]: the signatures and the recorded references of the path go with it. *)
Definition set_references (t : Db) (l : list (string * string)) : Db := {|
  t_anchors := t_anchors t; t_derivations := t_derivations t; t_dependencies := t_dependencies t;
  t_build_jobs := t_build_jobs t; t_outputs := t_outputs t; t_input_sources := t_input_sources t;
  t_cached_paths := t_cached_paths t; t_references := l; t_attempts := t_attempts t;
  t_evaluations := t_evaluations t; t_messages := t_messages t;
  t_entry_points := t_entry_points t |}.

Definition delete_path_rows (s : GcStore) (gone : gset string) : GcStore :=
  let t := gs_db s in
  let t := set_cached_paths t (filter (fun x => x.1 ∉ gone) (t_cached_paths t)) in
  let t := set_references t (filter (fun r => r.1 ∉ gone) (t_references t)) in
  gs_with_signatures (gs_with_db s t) (filter (fun g => g.1 ∉ gone) (gs_signatures s)).

Definition clear_flags (s : GcStore) (hashes : list string) : GcStore :=
  gs_with_db s (clear_gate_flags_for_hashes (gs_db s) hashes).

(** ** The object store *)

Context (delete_fails : string -> bool) (probe_fails : string -> bool).

Definition delete_nar (s : GcStore) (h : string) : GcStore :=
  if delete_fails h then s else gs_with_nars s (delete h (gs_nars s)).

Definition delete_nars (s : GcStore) (hs : list string) : GcStore := foldl delete_nar s hs.

(** [nar_storage.exists]. *)
Definition nar_exists (s : GcStore) (h : string) : option bool :=
  if probe_fails h then None else Some (bool_decide (is_Some (gs_nars s !! h))).

(** [demote_cached_output] with the object and the rows that cascade. *)
Definition demote (s : GcStore) (now : NaiveDateTime) (h : string) : GcStore * list DerivationId :=
  let '(t, producers) := demote_cached_output (gs_db s) now (nar_exists s) h in
  let has_producer := match producers with [] => false | _ => true end in
  if preserve_missing_artifact has_producer (negb has_producer && default true (nar_exists s h))
  then (gs_with_db s t, producers)
  else (delete_nar (delete_path_rows (gs_with_db s t) {[h]}) h, producers).

(** ** Evaluations ([gc.rs]) *)

(** Whether an evaluation still holds the collector of its project back. *)
Definition blocking (wedged_hours : Z) (now : NaiveDateTime) (e : EvaluationStatus * NaiveDateTime) : bool :=
  eval_is_active e.1 && ((wedged_hours <=? 0)%Z || (num_seconds_between now e.2 <? 3600 * wedged_hours)%Z).

(** The loop over the newest-first list, from index [i] with [kept] retained so far. *)
Fixpoint beyond_kept (keep i kept : nat) (evals : list (EvaluationStatus * NaiveDateTime)) : list nat :=
  match evals with
  | [] => []
  | (status, _) :: evals =>
      if eval_is_active status then beyond_kept keep (S i) kept evals
      else if Nat.ltb kept keep then beyond_kept keep (S i) (S kept) evals
      else i :: beyond_kept keep (S i) kept evals
  end.

Definition evaluations_to_gc (evals : list (EvaluationStatus * NaiveDateTime)) (keep : nat) (wedged_hours : Z)
    (now : NaiveDateTime) : list nat :=
  if Nat.eqb keep 0 then []
  else if existsb (blocking wedged_hours now) evals then []
  else beyond_kept keep 0 0 evals.

(** Newest first. *)
Definition project_evaluations (s : GcStore) (project : ProjectId) : list (EvaluationId * EvaluationRow * EvalLink) :=
  sort_by (fun a b => datetime_cmp (el_created_at b.2) (el_created_at a.2))
    (omap (fun x => match gs_links s !! x.1 with
                    | Some l => if bool_decide (ev_project x.2 = Some project) then Some (x, l) else None
                    | None => None end)
      (map_to_list (t_evaluations (gs_db s)))).

Definition unlinked (gone : gset EvaluationId) (id : EvaluationId) (l : EvalLink) : EvalLink :=
  let drop_prev := match el_previous l with Some p => bool_decide (p ∈ gone) | None => false end in
  let drop_next := match el_next l with Some n => bool_decide (n ∈ gone) | None => false end in
  {| el_created_at := el_created_at l;
     el_previous := if bool_decide (id ∈ gone) || drop_prev then None else el_previous l;
     el_next := if bool_decide (id ∈ gone) || drop_next then None else el_next l;
     el_commit := el_commit l |}.

(** [ON DELETE SET NULL] of [build_attempt.build_job]. *)
Definition detach_attempt (jobs : list N) (a : AttemptRow) : AttemptRow := {|
  ba_id := ba_id a;
  ba_build_job := match ba_build_job a with Some j => if bool_decide (j ∈ jobs) then None else Some j | None => None end;
  ba_derivation_build := ba_derivation_build a; ba_outcome := ba_outcome a; ba_reason := ba_reason a;
  ba_finished := ba_finished a; ba_failure_message := ba_failure_message a |}.

Definition delete_evaluation_rows (t : Db) (ev : EvaluationId) : Db :=
  let jobs := map bjr_id (jobs_of_eval t ev) in {|
  t_anchors := t_anchors t; t_derivations := t_derivations t; t_dependencies := t_dependencies t;
  t_build_jobs := List.filter (fun j => negb (N.eqb (bjr_evaluation j) ev)) (t_build_jobs t);
  t_outputs := t_outputs t; t_input_sources := t_input_sources t;
  t_cached_paths := t_cached_paths t; t_references := t_references t;
  t_attempts := map (detach_attempt jobs) (t_attempts t);
  t_evaluations := delete ev (t_evaluations t);
  t_messages := List.filter (fun m => negb (N.eqb m.1 ev)) (t_messages t);
  t_entry_points := List.filter (fun p => negb (N.eqb p.1 ev)) (t_entry_points t) |}.

(** One evaluation, and its commit when nothing else names it. *)
Definition delete_evaluation (s : GcStore) (ev : EvaluationId) : GcStore :=
  match gs_links s !! ev with
  | None => s
  | Some l =>
      let links := delete ev (gs_links s) in
      let referenced := existsb (fun x => N.eqb (el_commit x.2) (el_commit l)) (map_to_list links) in
      gs_with_evaluations s (delete_evaluation_rows (gs_db s) ev) links
        (if referenced then gs_commits s else gs_commits s ∖ {[el_commit l]})
  end.

Definition gc_project_evaluations (s : GcStore) (now : NaiveDateTime) (wedged_hours : Z) (project : ProjectId) (keep : nat)
    : GcStore :=
  if Nat.eqb keep 0 then s
  else
    let all_evals := project_evaluations s project in
    let delete_indices := evaluations_to_gc (map (fun x => (ev_status x.1.2, ev_updated_at x.1.2)) all_evals)
                            keep wedged_hours now in
    match delete_indices with
    | [] => s
    | _ =>
        let to_delete := omap (fun i => option_map (fun x => x.1.1) (all_evals !! i)) delete_indices in
        let gone : gset EvaluationId := list_to_set to_delete in
        let of_project := map (fun x => x.1.1) all_evals in
        let s := gs_with_evaluations s (gs_db s)
          (map_imap (fun id l => Some (if bool_decide (id ∈ of_project) then unlinked gone id l else l)) (gs_links s))
          (gs_commits s) in
        foldl delete_evaluation s to_delete
    end.

(** Projects with their [keep_evaluations]. *)
Definition cleanup_old_evaluations (s : GcStore) (now : NaiveDateTime) (wedged_hours : Z) (projects : list (ProjectId * nat))
    : GcStore :=
  foldl (fun s p => if Nat.eqb p.2 0 then s else gc_project_evaluations s now wedged_hours p.1 p.2) s projects.

(** ** Derivations no root needs ([gc.rs]) *)

Definition reachable_derivations_cte (t : Db) : gset DerivationId :=
  dependency_closure_cte t Dependencies anywhere
    (list_to_set (map snd (t_entry_points t) ++ map bjr_derivation (t_build_jobs t))).

(** [SELECT d.id, d.hash]: past its grace and outside the keep-set. *)
Definition orphan_candidates (s : GcStore) (cutoff : NaiveDateTime) : gmap DerivationId string :=
  let reachable := reachable_derivations_cte (gs_db s) in
  list_to_map (map (fun r => (dr_id r, dr_hash r))
    (List.filter (fun r => match gs_created_at s !! dr_id r with Some c => datetime_lt c cutoff | None => false end
                           && negb (bool_decide (dr_id r ∈ reachable))) (t_derivations (gs_db s)))).

(** What cascades from deleted [derivation] rows; no job and no entry point names one. *)
Definition delete_derivation_rows (s : GcStore) (gone : gset DerivationId) : GcStore :=
  let t := gs_db s in
  let anchors := filter (fun x => x.1 ∈ gone) (t_anchors t) in
  let anchor_ids := map (fun x => db_id x.2) (map_to_list anchors) in
  let t' := {|
    t_anchors := filter (fun x => x.1 ∉ gone) (t_anchors t);
    t_derivations := filter (fun r => dr_id r ∉ gone) (t_derivations t);
    t_dependencies := filter (fun e => e.1 ∉ gone /\ e.2 ∉ gone) (t_dependencies t);
    t_build_jobs := t_build_jobs t;
    t_outputs := filter (fun o => or_derivation o ∉ gone) (t_outputs t);
    t_input_sources := filter (fun x => x.1 ∉ gone) (t_input_sources t);
    t_cached_paths := t_cached_paths t; t_references := t_references t;
    t_attempts := filter (fun a => ba_derivation_build a ∉ anchor_ids) (t_attempts t);
    t_evaluations := t_evaluations t; t_messages := t_messages t; t_entry_points := t_entry_points t |} in
  gs_with_cache_derivations (gs_with_db s t') (filter (fun r => cd_derivation r ∉ gone) (gs_cache_derivations s)).

(** [DELETE ... RETURNING d.id]: the orphan test is made again. *)
Definition delete_unreachable (s : GcStore) (ids : list DerivationId) : GcStore * gset DerivationId :=
  let reachable := reachable_derivations_cte (gs_db s) in
  let gone : gset DerivationId :=
    list_to_set (map dr_id (List.filter (fun r => bool_decide (dr_id r ∈ ids) && negb (bool_decide (dr_id r ∈ reachable)))
                             (t_derivations (gs_db s)))) in
  (delete_derivation_rows s gone, gone).

Definition reclaimable_hashes (deleted_hashes still_referenced : gset string) : list string :=
  elements (deleted_hashes ∖ still_referenced).

Definition reclaimable_after_delete (deleted_output_hashes surviving_output_hashes deleted_drv_hashes surviving_drv_hashes
    : gset string) : list string :=
  reclaimable_hashes deleted_output_hashes surviving_output_hashes ++ reclaimable_hashes deleted_drv_hashes surviving_drv_hashes.

Definition attempt_logs_to_reclaim (snapshot : list (DerivationId * N)) (deleted : gset DerivationId) : list N :=
  map snd (List.filter (fun x => bool_decide (x.1 ∈ deleted)) snapshot).

(** Where the other tasks run. *)
Inductive GcPoint :=
  | AtOutputs | AtAnchors | AtAttempts | AtDelete (chunk : nat) | AtLogs | AtSurvivors | AtSurvivingDrvs | AtNars | AtRows (chunk : nat)
  | AtListing | AtOrphans | AtRowLoad | AtPurge (batch : nat) | AtBlobRows | AtBlobs | AtLogRows.

Abbreviation Others := (GcPoint -> GcStore -> GcStore).

Definition alone (_ : GcPoint) (s : GcStore) : GcStore := s.

Fixpoint delete_chunks (others : Others) (i : nat) (s : GcStore) (cs : list (list DerivationId))
    : GcStore * gset DerivationId :=
  match cs with
  | [] => (s, ∅)
  | ids :: cs =>
      let '(s, gone) := delete_unreachable (others (AtDelete i) s) ids in
      let '(s, rest) := delete_chunks others (S i) s cs in
      (s, gone ∪ rest)
  end.

Fixpoint delete_reclaimed_rows (others : Others) (i : nat) (s : GcStore) (cs : list (list string)) : GcStore :=
  match cs with
  | [] => s
  | hs :: cs => delete_reclaimed_rows others (S i) (clear_flags (delete_path_rows (others (AtRows i) s) (list_to_set hs)) hs) cs
  end.

(** What is read about the candidates before any of them is deleted. *)
Record Snapshot := {
  sn_outputs : list OutputRow;
  sn_attempts : list (DerivationId * N);
}.

Definition candidate_outputs (s : GcStore) (ids : list DerivationId) : list OutputRow :=
  List.filter (fun o => bool_decide (or_derivation o ∈ ids)) (t_outputs (gs_db s)).

(** [candidate_anchors]: the anchor ids with their derivations. *)
Definition anchor_derivation (s : GcStore) (ids : list DerivationId) : list (DerivationBuildId * DerivationId) :=
  map (fun x => (db_id x.2, x.1)) (List.filter (fun x => bool_decide (x.1 ∈ ids)) (map_to_list (t_anchors (gs_db s)))).

Definition attempt_snapshot (s : GcStore) (anchors : list (DerivationBuildId * DerivationId)) : list (DerivationId * N) :=
  omap (fun a => option_map (fun x => (x.2, ba_id a)) (List.find (fun x => N.eqb x.1 (ba_derivation_build a)) anchors))
    (t_attempts (gs_db s)).

Definition take_snapshot (others : Others) (s : GcStore) (ids : list DerivationId) : GcStore * Snapshot :=
  let s := others AtOutputs s in
  let outputs := candidate_outputs s ids in
  let s := others AtAnchors s in
  let anchors := anchor_derivation s ids in
  let s := others AtAttempts s in
  (s, {| sn_outputs := outputs; sn_attempts := attempt_snapshot s anchors |}).

(** The hashes of the deleted derivations' outputs and [.drv]s. *)
Definition deleted_output_hashes (sn : Snapshot) (deleted : gset DerivationId) : gset string :=
  list_to_set (map or_hash (List.filter (fun o => bool_decide (or_derivation o ∈ deleted)) (sn_outputs sn))).

Definition deleted_drv_hashes (candidates : gmap DerivationId string) (deleted : gset DerivationId) : gset string :=
  list_to_set (omap (fun d => candidates !! d) (elements deleted)).

(** The hashes among [hs] a row still names. *)
Definition surviving_output_hashes (s : GcStore) (hs : gset string) : gset string :=
  list_to_set (map or_hash (List.filter (fun o => bool_decide (or_hash o ∈ hs)) (t_outputs (gs_db s)))).

Definition surviving_drv_hashes (s : GcStore) (hs : gset string) : gset string :=
  list_to_set (map dr_hash (List.filter (fun r => bool_decide (dr_hash r ∈ hs)) (t_derivations (gs_db s)))).

(** From the deleted rows to what they leave in the stores. *)
Definition reclaim (others : Others) (s : GcStore) (candidates : gmap DerivationId string) (sn : Snapshot)
    (deleted : gset DerivationId) : GcStore :=
  let s := others AtLogs s in
  let s := gs_with_logs s (gs_logs s ∖ list_to_set (attempt_logs_to_reclaim (sn_attempts sn) deleted)) in
  let output_hashes := deleted_output_hashes sn deleted in
  let s := others AtSurvivors s in
  let still_referenced := surviving_output_hashes s output_hashes in
  let drv_hashes := deleted_drv_hashes candidates deleted in
  let s := others AtSurvivingDrvs s in
  let surviving_drvs := surviving_drv_hashes s drv_hashes in
  let to_delete := reclaimable_after_delete output_hashes still_referenced drv_hashes surviving_drvs in
  let s := delete_nars (others AtNars s) to_delete in
  delete_reclaimed_rows others 0 s (chunks IN_CHUNK_SIZE to_delete).

Definition gc_orphan_derivations (others : Others) (s : GcStore) (cutoff : NaiveDateTime) : GcStore :=
  let candidates := orphan_candidates s cutoff in
  if bool_decide (candidates = ∅) then s
  else
    let ids := map fst (map_to_list candidates) in
    let '(s, sn) := take_snapshot others s ids in
    let '(s, deleted) := delete_chunks others 0 s (chunks IN_CHUNK_SIZE ids) in
    if bool_decide (deleted = ∅) then s else reclaim others s candidates sn deleted.

(** ** Files and rows that do not match ([cleanup.rs]) *)

(** The four statuses the queries call a terminal failure. *)
Definition GC_FAILED : list BuildStatus := [BFailedPermanent; BAborted; BDependencyFailed; BFailedTimeout].

Definition has_anchor (t : Db) (d : DerivationId) : bool := bool_decide (is_Some (t_anchors t !! d)).

Definition live_anchor (t : Db) (d : DerivationId) : bool := anchor_in t (fun a => negb (status_in GC_FAILED (db_status a))) d.

(** [ACTIVE_HASHES_SELECT]. *)
Definition active_hashes (t : Db) : gset string := list_to_set (
  map or_hash (List.filter (fun o => live_anchor t (or_derivation o)) (t_outputs t))
  ++ map fst (List.filter (fun x => bool_decide (is_Some (cp_file_hash x.2))) (map_to_list (t_cached_paths t)))
  ++ map snd (List.filter (fun x => has_anchor t x.1) (t_input_sources t))
  ++ map dr_hash (List.filter (fun r => has_anchor t (dr_id r)) (t_derivations t))).

Record CleanupReport := { orphan_nars_scanned : nat; orphan_nars_removed : nat; zombie_cached_paths_purged : nat }.

Definition i64_max : Z := 9223372036854775807.

Definition grace_cutoff (now_secs grace_hours : Z) : Z :=
  let grace_secs := (Z.max grace_hours 0 * 3600)%Z in
  if (0 <? grace_secs)%Z then (now_secs - grace_secs)%Z else i64_max.

Definition remove_orphan (keep : gset string) (cutoff : Z) (acc : GcStore * nat) (x : string * Z) : GcStore * nat :=
  if bool_decide (x.1 ∈ keep) || (cutoff <=? x.2)%Z then acc
  else if delete_fails x.1 then acc else (delete_nar acc.1 x.1, S acc.2).

Definition ZOMBIE_DELETE_BATCH : nat := Z.to_nat 8000.

(** One transaction; the count is of the rows that were there. *)
Definition purge_batch (s : GcStore) (hs : list string) : GcStore * nat :=
  (clear_flags (delete_path_rows s (list_to_set hs)) hs,
   length (List.filter (fun h => bool_decide (is_Some (t_cached_paths (gs_db s) !! h))) hs)).

Fixpoint purge_batches (others : Others) (i : nat) (s : GcStore) (bs : list (list string)) : GcStore * nat :=
  match bs with
  | [] => (s, 0)
  | hs :: bs =>
      let '(s, n) := purge_batch (others (AtPurge i) s) hs in
      let '(s, m) := purge_batches others (S i) s bs in
      (s, n + m)
  end.

Definition zombie_rows (s : GcStore) (on_disk : gset string) : list string :=
  map fst (List.filter (fun x => bool_decide (is_Some (cp_file_hash x.2)) && negb (bool_decide (x.1 ∈ on_disk)))
    (map_to_list (t_cached_paths (gs_db s)))).

Definition purge_zombie_cached_paths (others : Others) (s : GcStore) (on_disk : gset string) : GcStore * nat :=
  let s := others AtRowLoad s in
  purge_batches others 0 s (chunks ZOMBIE_DELETE_BATCH (zombie_rows s on_disk)).

Definition cleanup_orphaned_cache_files (others : Others) (s : GcStore) (now_secs grace_hours : Z) : GcStore * CleanupReport :=
  let keep := active_hashes (gs_db s) in
  let s := others AtListing s in
  let on_disk := map_to_list (gs_nars s) in
  let on_disk_set : gset string := list_to_set (map fst on_disk) in
  let cutoff := grace_cutoff now_secs grace_hours in
  let '(s, removed) := foldl (remove_orphan keep cutoff) (others AtOrphans s, 0) on_disk in
  let '(s, purged) := purge_zombie_cached_paths others s on_disk_set in
  (s, {| orphan_nars_scanned := length on_disk; orphan_nars_removed := removed; zombie_cached_paths_purged := purged |}).

(** ** NARs nobody fetched for a while ([cleanup.rs]) *)

(** [STALE_CACHED_NARS_SELECT]. *)
Definition stale_cached_nars (s : GcStore) (cutoff : NaiveDateTime) : list CacheDerivationRow :=
  List.filter (fun r => match cd_last_fetched_at r with Some f => datetime_lt f cutoff | None => false end
    && negb (live_anchor (gs_db s) (cd_derivation r))
    && negb (bool_decide (cd_derivation r ∈ gs_fixed_outputs s))) (gs_cache_derivations s).

(** The rows of [cached_path] among [hs] that no cache signs. *)
Definition unsigned_rows (s : GcStore) (hs : list string) : list string :=
  List.filter (fun h => bool_decide (is_Some (t_cached_paths (gs_db s) !! h))
    && negb (existsb (fun g => String.eqb g.1 h) (gs_signatures s))) (remove_dups hs).

Definition evict_stale (s : GcStore) (row : CacheDerivationRow) : GcStore :=
  let output_hashes := map or_hash (outputs_of (gs_db s) (cd_derivation row)) in
  let s := gs_with_cache_derivations s (List.filter (fun r => negb (N.eqb (cd_id r) (cd_id row))) (gs_cache_derivations s)) in
  let s := match output_hashes with
    | [] => s
    | _ =>
        let s := gs_with_signatures s
          (List.filter (fun g => negb (N.eqb g.2 (cd_cache row) && bool_decide (g.1 ∈ output_hashes))) (gs_signatures s)) in
        let dropped := unsigned_rows s output_hashes in
        clear_flags (delete_path_rows s (list_to_set dropped)) dropped
    end in
  if existsb (fun r => N.eqb (cd_derivation r) (cd_derivation row)) (gs_cache_derivations s) then s
  else delete_nars s output_hashes.

Definition cleanup_stale_cached_nars (s : GcStore) (cutoff : NaiveDateTime) (ttl_hours : Z) : GcStore :=
  if (ttl_hours =? 0)%Z then s else foldl evict_stale s (stale_cached_nars s cutoff).

(** ** Leftovers of build requests ([cleanup.rs]) *)

Definition blob_key (b : BlobRow) : BlobKey := (br_organization b, br_hash b).

Definition well_formed_blob (b : BlobRow) : bool := Nat.eqb (length (br_hash b)) 32.

Definition remove_blob_row (s : GcStore) (b : BlobRow) : GcStore :=
  gs_with_blobs s (List.filter (fun r => negb (N.eqb (br_id r) (br_id b))) (gs_blob_rows s)) (gs_blobs s).

Definition remove_blob (blob_delete_fails : BlobKey -> bool) (blobs : gset BlobKey) (k : BlobKey) : gset BlobKey :=
  if blob_delete_fails k then blobs else blobs ∖ {[k]}.

Definition cleanup_stale_build_request_blobs (blob_delete_fails : BlobKey -> bool) (s : GcStore) (cutoff : NaiveDateTime)
    (ttl_hours : Z) : GcStore :=
  if (ttl_hours =? 0)%Z then s
  else foldl (fun s b =>
    if well_formed_blob b
    then let s := remove_blob_row s b in gs_with_blobs s (gs_blob_rows s) (remove_blob blob_delete_fails (gs_blobs s) (blob_key b))
    else s) s (List.filter (fun b => datetime_lt (br_last_used_at b) cutoff) (gs_blob_rows s)).

Definition cleanup_expired_upload_sessions (s : GcStore) (now : NaiveDateTime) : GcStore :=
  gs_with_sessions s (List.filter (fun u => negb (datetime_lt (us_expires_at u) now
    && negb (bool_decide (is_Some (us_dispatched_at u))))) (gs_sessions s)).

(** ** The deep sweep ([deep_gc.rs]) *)

Record DeepGcReport := {
  dg_nars : CleanupReport;
  blobs_scanned : nat;
  orphan_blobs_removed : nat;
  zombie_blob_rows_purged : nat;
  blob_check_errors : nat;
  logs_scanned : nat;
  orphan_logs_removed : nat;
}.

(** The rows whose blob was not listed, and the blobs listed without a row. *)
Definition pass_blobs (blob_delete_fails blob_probe_fails : BlobKey -> bool) (others : Others) (s : GcStore)
    : GcStore * (nat * nat * nat * nat) :=
  let on_disk := gs_blobs s in
  let s := others AtBlobRows s in
  let rows := List.filter well_formed_blob (gs_blob_rows s) in
  let row_keys : gset BlobKey := list_to_set (map blob_key rows) in
  let s := others AtBlobs s in
  let unlisted := List.filter (fun b => negb (bool_decide (blob_key b ∈ on_disk))) rows in
  let errors := List.filter (fun b => blob_probe_fails (blob_key b)) unlisted in
  let zombies := List.filter (fun b => negb (blob_probe_fails (blob_key b)) && negb (bool_decide (blob_key b ∈ gs_blobs s))) unlisted in
  let s := foldl remove_blob_row s zombies in
  let orphans := elements (on_disk ∖ row_keys) in
  let removed := List.filter (fun k => negb (blob_delete_fails k)) orphans in
  (gs_with_blobs s (gs_blob_rows s) (foldl (remove_blob blob_delete_fails) (gs_blobs s) orphans),
   (size on_disk, length removed, length zombies, length errors)).

Definition pass_logs (others : Others) (s : GcStore) : GcStore * (nat * nat) :=
  let on_disk := gs_logs s in
  let s := others AtLogRows s in
  let orphans := on_disk ∖ list_to_set (map ba_id (t_attempts (gs_db s))) in
  (gs_with_logs s (gs_logs s ∖ orphans), (size on_disk, size orphans)).

Definition run_deep_gc (blob_delete_fails blob_probe_fails : BlobKey -> bool) (others : Others) (s : GcStore)
    (now_secs grace_hours : Z) : GcStore * DeepGcReport :=
  let '(s, nars) := cleanup_orphaned_cache_files others s now_secs grace_hours in
  let '(s, (blobs, orphan_blobs, zombies, errors)) := pass_blobs blob_delete_fails blob_probe_fails others s in
  let '(s, (logs, orphan_logs)) := pass_logs others s in
  (s, {| dg_nars := nars; blobs_scanned := blobs; orphan_blobs_removed := orphan_blobs; zombie_blob_rows_purged := zombies;
         blob_check_errors := errors; logs_scanned := logs; orphan_logs_removed := orphan_logs |}).

(** ** Deleting and invalidating one path ([helpers.rs], [invalidate.rs]) *)

Inductive DeleteError := NarNotFound | DeleteDbError.

Record DeleteOutcome := { ref_counted_others : bool }.

(** A transaction that does not commit takes the rows back, but not the objects. *)
Definition transact (commits : bool) (s s' : GcStore) : GcStore := if commits then s' else gs_with_nars s (gs_nars s').

Definition signed_by (s : GcStore) (h : string) (cache : CacheId) : bool :=
  existsb (fun g => String.eqb g.1 h && N.eqb g.2 cache) (gs_signatures s).

Definition delete_nar_from_cache (commits : bool) (s : GcStore) (now : NaiveDateTime) (cache : CacheId) (h : string)
    : GcStore * result DeleteOutcome DeleteError :=
  match t_cached_paths (gs_db s) !! h with
  | None => (s, Err NarNotFound)
  | Some _ =>
      if negb (signed_by s h cache) then (s, Err NarNotFound)
      else
        let s1 := gs_with_signatures s
          (List.filter (fun g => negb (String.eqb g.1 h && N.eqb g.2 cache)) (gs_signatures s)) in
        let derivation_ids := map or_derivation (outputs_with_hash (gs_db s1) h) in
        let s1 := gs_with_cache_derivations s1 (List.filter (fun r =>
          negb (N.eqb (cd_cache r) cache && bool_decide (cd_derivation r ∈ derivation_ids))) (gs_cache_derivations s1)) in
        let remaining := existsb (fun g => String.eqb g.1 h) (gs_signatures s1) in
        let s1 := if remaining then s1
          else
            let s1 := clear_flags (demote s1 now h).1 [h] in
            gs_with_db s1 (clear_closure_complete_for_referrers (gs_db s1) h) in
        (transact commits s s1, if commits then Ok {| ref_counted_others := remaining |} else Err DeleteDbError)
  end.

Definition collect_transitive_dependents (t : Db) (start : DerivationId) : gset DerivationId :=
  recursive_query (edge_nodes t) (closure_step t Dependents anywhere) {[start]}.

Definition revoke_cache_derivation_closure (s : GcStore) (d : DerivationId) : GcStore :=
  let visited := collect_transitive_dependents (gs_db s) d in
  gs_with_cache_derivations s (List.filter (fun r => negb (bool_decide (cd_derivation r ∈ visited))) (gs_cache_derivations s)).

Inductive InvalidateError := BadPath (e : SourceError) | InvalidateDbError.

Definition invalidate_cache_for_path (commits : bool) (s : GcStore) (now : NaiveDateTime) (path : string)
    : GcStore * result unit InvalidateError :=
  match get_hash_from_path path with
  | Err e => (s, Err (BadPath e))
  | Ok (h, _) =>
      let '(s1, producers) := demote s now h in
      let s1 := clear_flags s1 [h] in
      let s1 := gs_with_db s1 (clear_closure_complete_for_referrers (gs_db s1) h) in
      let s1 := foldl revoke_cache_derivation_closure s1 producers in
      (transact commits s s1, if commits then Ok tt else Err InvalidateDbError)
  end.

End gc.

(** ** The evaluator caches ([eval_cache_sweep.rs]) *)

Section eval_cache.
Context `{Chrono}.

Abbreviation EvalCacheRow := (N * Z * NaiveDateTime)%type.

(** [row.1.max(0) as u64]. *)
Definition blob_size (r : EvalCacheRow) : Z := Z.max r.1.2 0.

Definition U64_MAX : Z := 18446744073709551615.

Definition saturating_add (a b : Z) : Z := Z.min (a + b) U64_MAX.
Definition saturating_sub (a b : Z) : Z := Z.max (a - b) 0.

(** The ids evicted for their age, the total of the others, and the others. *)
Definition split_by_age (cutoff : NaiveDateTime) (acc : list N * Z * list EvalCacheRow) (r : EvalCacheRow)
    : list N * Z * list EvalCacheRow :=
  let '(evicted, total, survivors) := acc in
  if datetime_lt r.2 cutoff then (evicted ++ [r.1.1], total, survivors)
  else (evicted, saturating_add total (blob_size r), survivors ++ [r]).

Fixpoint evict_to_cap (max_total_bytes : Z) (total : Z) (survivors : list EvalCacheRow) : list N :=
  match survivors with
  | [] => []
  | r :: survivors =>
      if (total <=? max_total_bytes)%Z then []
      else r.1.1 :: evict_to_cap max_total_bytes (saturating_sub total (blob_size r)) survivors
  end.

Definition select_evictions (rows : list EvalCacheRow) (max_total_bytes : Z) (cutoff : NaiveDateTime) : list N :=
  let by_age := sort_by (fun a b => datetime_cmp a.2 b.2) rows in
  let '(evicted, total, survivors) := foldl (split_by_age cutoff) ([], 0%Z, []) by_age in
  evicted ++ evict_to_cap max_total_bytes total survivors.

(** Rows with the fingerprint of their blob; a row whose delete fails stays, its blob does not. *)
Definition evict_eval_cache (row_fails : N -> bool) (rows : list (EvalCacheRow * string)) (blobs : gset string)
    (max_total_bytes : Z) (cutoff : NaiveDateTime) : list (EvalCacheRow * string) * gset string :=
  let victims := select_evictions (map fst rows) max_total_bytes cutoff in
  let models := List.filter (fun x => bool_decide (x.1.1.1 ∈ victims)) rows in
  (List.filter (fun x => negb (bool_decide (x.1.1.1 ∈ victims)) || row_fails x.1.1.1) rows,
   blobs ∖ list_to_set (map snd models)).

End eval_cache.
