(* ===== verification/GcSweep.v ===== *)
(** * What the collector of evaluations and the derivation sweep keep

    Which evaluations of a project go, and that nothing points at one that went. The
    rely-guarantee theorem of the derivation sweep - whatever the other tasks do, a
    derivation a root needs keeps its rows and its NARs - and its exact effect when it runs
    alone. *)

From S2P Require Import Prelude RustStr Status Fixpoints ScoreContext StorePath JobData EdgeStream BuildGraph Promotion Transitions Healing EvalResult Gc.

(** ** Old evaluations *)

Section evaluations.
Context `{Chrono}.

Definition terminal (e : EvaluationStatus * NaiveDateTime) : bool := negb (eval_is_active e.1).

Lemma beyond_kept_spec keep : forall evals i kept n, kept <= keep ->
  n ∈ beyond_kept keep i kept evals <->
  exists j e, n = i + j /\ evals !! j = Some e /\ terminal e = true /\
    keep <= kept + length (List.filter terminal (take j evals)).
Proof.
  intros evals. induction evals as [|[st u] evals IH]; intros i kept n Hk; simpl.
  { rewrite elem_of_nil. split; [done|]. intros (j & e & _ & He & _). by destruct j. }
  assert (Hshift : forall kept', (exists j e, n = S i + j /\ evals !! j = Some e /\ terminal e = true /\
      keep <= kept' + length (List.filter terminal (take j evals))) <->
    exists j e, n = i + S j /\ evals !! j = Some e /\ terminal e = true /\ keep <= kept' + length (List.filter terminal (take j evals))).
  { intros k'. split; intros (j & e & -> & ?); exists j, e; split_and!; try done; lia || tauto. }
  destruct (eval_is_active st) eqn:Ha.
  - rewrite IH, Hshift by done. split.
    + intros (j & e & ? & ?). exists (S j), e. split; [done|]. simpl. unfold terminal at 2. simpl. by rewrite Ha.
    + intros ([|j] & e & -> & He & Ht & Hn); [injection He as <-; unfold terminal in Ht; simpl in Ht; by rewrite Ha in Ht|].
      exists j, e. split; [done|]. split; [done|]. split; [done|]. simpl in Hn. unfold terminal at 1 in Hn. simpl in Hn. by rewrite Ha in Hn.
  - assert (Htrm : terminal (st, u) = true) by (unfold terminal; simpl; by rewrite Ha).
    destruct (Nat.ltb_spec kept keep) as [Hlt|Hge].
    + rewrite IH, Hshift by lia. split.
      * intros (j & e & ? & ? & ? & ?). exists (S j), e. split_and!; try done. simpl. rewrite Htrm. simpl. lia.
      * intros ([|j] & e & -> & He & Ht & Hn); [simpl in Hn; lia|]. exists j, e. split_and!; try done.
        simpl in Hn. rewrite Htrm in Hn. simpl in Hn. lia.
    + rewrite elem_of_cons, IH, Hshift by done. assert (kept = keep) as -> by lia. split.
      * intros [->|(j & e & ? & ? & ? & ?)]; [exists 0, (st, u); split_and!; try done; simpl; lia|].
        exists (S j), e. split_and!; try done. lia.
      * intros ([|j] & e & -> & He & Ht & Hn); [left; lia|right]. exists j, e. split_and!; try done. lia.
Qed.

(** Nothing while an evaluation is active and not stuck; else the terminal ones with [keep]
    terminal ones before them. *)
Lemma evaluations_to_gc_spec evals keep wedged now i :
  i ∈ evaluations_to_gc evals keep wedged now <->
  keep <> 0 /\ existsb (blocking wedged now) evals = false /\
  exists e, evals !! i = Some e /\ terminal e = true /\ keep <= length (List.filter terminal (take i evals)).
Proof.
  unfold evaluations_to_gc. destruct (Nat.eqb_spec keep 0) as [->|Hk].
  { rewrite elem_of_nil. split; [done|]. by intros [? _]. }
  destruct (existsb _ _); [rewrite elem_of_nil; split; [done|]; by intros (_ & ? & _)|].
  rewrite beyond_kept_spec by lia. split.
  - intros (j & e & -> & ?). split_and!; try done. by exists e.
  - intros (_ & _ & e & ?). exists i, e. done.
Qed.

(** The columns of [evaluation] are kept in two maps. *)
Definition same_rows (s : GcStore) : Prop :=
  forall ev, is_Some (t_evaluations (gs_db s) !! ev) <-> is_Some (gs_links s !! ev).

Lemma delete_evaluation_rows_same s ev : same_rows s -> same_rows (delete_evaluation s ev).
Proof.
  intros Hs x. unfold delete_evaluation. destruct (gs_links s !! ev); [|apply Hs]. simpl.
  destruct (decide (ev = x)) as [->|Hne]; [rewrite !lookup_delete_eq; by split; intros [? [=]]|].
  rewrite !lookup_delete_ne by done. apply Hs.
Qed.

Lemma delete_evaluation_evals s ev x : same_rows s ->
  t_evaluations (gs_db (delete_evaluation s ev)) !! x = if decide (ev = x) then None else t_evaluations (gs_db s) !! x.
Proof.
  intros Hs. unfold delete_evaluation. destruct (gs_links s !! ev) eqn:E; simpl.
  - destruct (decide (ev = x)) as [->|Hx]; [apply lookup_delete_eq|by apply lookup_delete_ne].
  - destruct (decide (ev = x)) as [->|Hx]; [|done]. destruct (t_evaluations (gs_db s) !! x) eqn:Ex; [|done].
    destruct (proj1 (Hs x)) as [? Hl]; [by rewrite Ex|]. congruence.
Qed.

Lemma delete_evaluation_links s ev x :
  gs_links (delete_evaluation s ev) !! x = if decide (ev = x) then None else gs_links s !! x.
Proof.
  unfold delete_evaluation. destruct (gs_links s !! ev) eqn:E; simpl.
  - destruct (decide (ev = x)) as [->|Hx]; [apply lookup_delete_eq|by apply lookup_delete_ne].
  - by destruct (decide (ev = x)) as [->|Hx].
Qed.

Lemma delete_evaluations_evals ids : forall s x, same_rows s ->
  t_evaluations (gs_db (foldl delete_evaluation s ids)) !! x
  = if decide (x ∈ ids) then None else t_evaluations (gs_db s) !! x.
Proof.
  induction ids as [|id ids IH]; intros s x Hs; cbn [foldl]; [done|].
  rewrite IH, delete_evaluation_evals by (try apply delete_evaluation_rows_same; done).
  repeat case_decide; set_solver.
Qed.

Lemma delete_evaluations_links ids : forall s x,
  gs_links (foldl delete_evaluation s ids) !! x = if decide (x ∈ ids) then None else gs_links s !! x.
Proof.
  induction ids as [|id ids IH]; intros s x; cbn [foldl]; [done|].
  rewrite IH, delete_evaluation_links. repeat case_decide; set_solver.
Qed.

(** An evaluation of the store names a commit. *)
Definition names_commit (s : GcStore) (c : N) : Prop := exists ev l, gs_links s !! ev = Some l /\ el_commit l = c.

Lemma names_commit_dec s c : names_commit s c \/ ~ names_commit s c.
Proof.
  destruct (decide (Exists (fun x => el_commit x.2 = c) (map_to_list (gs_links s)))) as [Hx|Hx]; [left|right].
  - apply Exists_exists in Hx as ([x l] & Hx & Hc). exists x, l. by apply elem_of_map_to_list in Hx.
  - intros (x & l & Hl & Hc). apply Hx, Exists_exists. exists (x, l). by rewrite elem_of_map_to_list.
Qed.

Lemma delete_evaluation_commits s ev c :
  c ∈ gs_commits (delete_evaluation s ev) <->
  c ∈ gs_commits s /\ (names_commit (delete_evaluation s ev) c \/ ~ names_commit s c).
Proof.
  assert (Hn : forall l, gs_links s !! ev = Some l ->
    (existsb (fun x => N.eqb (el_commit x.2) (el_commit l)) (map_to_list (delete ev (gs_links s))) = true <->
     names_commit (delete_evaluation s ev) (el_commit l))).
  { intros l Hl. unfold names_commit. setoid_rewrite delete_evaluation_links. rewrite existsb_exists. split.
    - intros ([x l'] & Hx%list_elem_of_In%elem_of_map_to_list & Hc%N.eqb_eq). exists x, l'.
      apply lookup_delete_Some in Hx as [Hne Hx]. by rewrite decide_False.
    - intros (x & l' & Hx & Hc). case_decide as Hne; [done|]. exists (x, l').
      rewrite <- list_elem_of_In, elem_of_map_to_list, lookup_delete_ne by done. split; [done|]. by apply N.eqb_eq. }
  assert (Hsame : forall c', names_commit s c' -> (forall l, gs_links s !! ev = Some l -> el_commit l <> c') ->
    names_commit (delete_evaluation s ev) c').
  { intros c' (x & l' & Hx & <-) Hne. exists x, l'. split; [|done]. rewrite delete_evaluation_links.
    case_decide as He; [subst; by destruct (Hne l')|done]. }
  unfold delete_evaluation at 1. destruct (gs_links s !! ev) as [l|] eqn:E.
  - specialize (Hn l eq_refl). cbn [gs_with_evaluations gs_commits]. cbv zeta.
    destruct (existsb _ _) eqn:Eb.
    + split; [|tauto]. intros Hc. split; [done|].
      destruct (decide (c = el_commit l)) as [->|Hne]; [left; tauto|].
      destruct (names_commit_dec s c) as [Hx|Hx]; [left; apply Hsame; [done|congruence]|by right].
    + rewrite elem_of_difference, elem_of_singleton. split.
      * intros [Hc Hne]. split; [done|].
        destruct (names_commit_dec s c) as [Hx|Hx]; [left; apply Hsame; [done|congruence]|by right].
      * intros [Hc Hor]. split; [done|]. intros ->. destruct Hor as [Ho|Ho]; [by apply Hn in Ho|].
        apply Ho. by exists ev, l.
  - split; [|tauto]. intros Hc. split; [done|].
    destruct (names_commit_dec s c) as [Hx|Hx]; [left; apply Hsame; [done|congruence]|by right].
Qed.

Lemma names_commit_shrinks s ev c : names_commit (delete_evaluation s ev) c -> names_commit s c.
Proof.
  intros (x & l & Hl & Hc). rewrite delete_evaluation_links in Hl. case_decide; [done|]. by exists x, l.
Qed.

Lemma delete_evaluations_commits ids : forall s c,
  c ∈ gs_commits (foldl delete_evaluation s ids) <->
  c ∈ gs_commits s /\ (names_commit (foldl delete_evaluation s ids) c \/ ~ names_commit s c).
Proof.
  induction ids as [|id ids IH]; intros s c; cbn [foldl].
  { split; [|tauto]. intros Hc. split; [done|]. apply names_commit_dec. }
  rewrite IH, delete_evaluation_commits. pose proof (names_commit_shrinks s id c) as H1.
  assert (H2 : names_commit (foldl delete_evaluation (delete_evaluation s id) ids) c -> names_commit (delete_evaluation s id) c).
  { clear. generalize (delete_evaluation s id). induction ids as [|i ids IH]; intros s'; cbn [foldl]; [done|].
    intros Hf%IH. by apply names_commit_shrinks in Hf. }
  tauto.
Qed.

(** ** One project *)

Lemma elem_of_project_evaluations s p x :
  x ∈ project_evaluations s p <->
  t_evaluations (gs_db s) !! x.1.1 = Some x.1.2 /\ gs_links s !! x.1.1 = Some x.2 /\ ev_project x.1.2 = Some p.
Proof.
  unfold project_evaluations. rewrite sort_by_elem, list_elem_of_omap. split.
  - intros ([ev e] & He%elem_of_map_to_list & Hx). simpl in Hx. destruct (gs_links s !! ev) eqn:El; [|done].
    case_bool_decide; simplify_eq. simpl in *. by rewrite He, El.
  - destruct x as [[ev e] l]. simpl. intros (He & Hl & Hp). exists (ev, e). rewrite elem_of_map_to_list. split; [done|].
    simpl. by rewrite Hl, bool_decide_eq_true_2.
Qed.

Definition columns_of (evals : list (EvaluationId * EvaluationRow * EvalLink)) : list (EvaluationStatus * NaiveDateTime) :=
  map (fun x => (ev_status x.1.2, ev_updated_at x.1.2)) evals.

(** The evaluation is terminal, [keep] newer ones of the project are too, and no evaluation
    of the project is still at work. *)
Definition collectable s now (wedged : Z) p keep ev : Prop :=
  keep <> 0 /\ existsb (blocking wedged now) (columns_of (project_evaluations s p)) = false /\
  exists i x, project_evaluations s p !! i = Some x /\ x.1.1 = ev /\ eval_is_active (ev_status x.1.2) = false /\
    keep <= length (List.filter terminal (take i (columns_of (project_evaluations s p)))).

(** Links stay within their project and name rows. *)
Definition links_within s : Prop := forall ev l x, gs_links s !! ev = Some l -> el_previous l = Some x \/ el_next l = Some x ->
  exists e e', t_evaluations (gs_db s) !! ev = Some e /\ t_evaluations (gs_db s) !! x = Some e' /\ ev_project e' = ev_project e.

Definition links_closed s : Prop := forall ev l x, gs_links s !! ev = Some l -> el_previous l = Some x \/ el_next l = Some x ->
  is_Some (gs_links s !! x).

Definition doomed s now wedged p keep : list EvaluationId :=
  omap (fun i => option_map (fun x => x.1.1) (project_evaluations s p !! i))
    (evaluations_to_gc (columns_of (project_evaluations s p)) keep wedged now).

Lemma elem_of_doomed s now wedged p keep ev : ev ∈ doomed s now wedged p keep <-> collectable s now wedged p keep ev.
Proof.
  unfold doomed, collectable. rewrite list_elem_of_omap. setoid_rewrite evaluations_to_gc_spec. unfold columns_of. split.
  - intros (i & (Hk & Hb & e & He & Ht & Hn) & Hx). split_and!; [done..|].
    destruct (project_evaluations s p !! i) as [x|] eqn:E; [|done]. injection Hx as <-. exists i, x.
    rewrite list_lookup_fmap, E in He. injection He as <-. split_and!; try done. by apply negb_true_iff in Ht.
  - intros (Hk & Hb & i & x & Hx & <- & Ha & Hn). exists i. split; [|by rewrite Hx]. split_and!; [done..|].
    exists (ev_status x.1.2, ev_updated_at x.1.2). rewrite list_lookup_fmap, Hx. split_and!; try done.
    unfold terminal. simpl. by rewrite Ha.
Qed.

(** The rows after the links into doomed rows are cut. *)
Definition cut_links s now wedged p keep : GcStore :=
  gs_with_evaluations s (gs_db s)
    (map_imap (fun id l => Some (if bool_decide (id ∈ map (fun x => x.1.1) (project_evaluations s p))
                                 then unlinked (list_to_set (doomed s now wedged p keep)) id l else l)) (gs_links s))
    (gs_commits s).

Lemma gc_project_unfold s now wedged p keep :
  gc_project_evaluations s now wedged p keep
  = if bool_decide (doomed s now wedged p keep = []) then s
    else foldl delete_evaluation (cut_links s now wedged p keep) (doomed s now wedged p keep).
Proof.
  unfold gc_project_evaluations. destruct (Nat.eqb_spec keep 0) as [->|Hk].
  { unfold doomed, evaluations_to_gc. by rewrite Nat.eqb_refl. }
  cbv zeta. fold (columns_of (project_evaluations s p)).
  destruct (evaluations_to_gc (columns_of (project_evaluations s p)) keep wedged now) as [|i rest] eqn:E.
  - unfold doomed. by rewrite E.
  - unfold cut_links, doomed. rewrite E. case_bool_decide as Hd; [|done]. exfalso.
    assert (Hi : i ∈ i :: rest) by constructor. rewrite <- E in Hi. apply evaluations_to_gc_spec in Hi as (_ & _ & e & He & _).
    unfold columns_of in He. rewrite list_lookup_fmap in He. simpl in Hd. by destruct (project_evaluations s p !! i).
Qed.

Lemma cut_links_lookup s now wedged p keep ev :
  gs_links (cut_links s now wedged p keep) !! ev =
  (fun l => if bool_decide (ev ∈ map (fun x => x.1.1) (project_evaluations s p))
            then unlinked (list_to_set (doomed s now wedged p keep)) ev l else l) <$> gs_links s !! ev.
Proof. unfold cut_links. simpl. rewrite map_lookup_imap. by destruct (gs_links s !! ev). Qed.

Lemma cut_links_commits s now wedged p keep c : names_commit (cut_links s now wedged p keep) c <-> names_commit s c.
Proof.
  unfold names_commit. setoid_rewrite cut_links_lookup. split.
  - intros (x & l & Hl & Hc). destruct (gs_links s !! x) as [l0|] eqn:E; simpl in Hl; [|done].
    exists x, l0. split; [done|]. injection Hl as <-. by destruct (bool_decide _).
  - intros (x & l & Hl & Hc). exists x. rewrite Hl. simpl. eexists. split; [done|]. by destruct (bool_decide _).
Qed.

Lemma cut_links_same s now wedged p keep : same_rows s -> same_rows (cut_links s now wedged p keep).
Proof. intros Hs ev. rewrite cut_links_lookup, fmap_is_Some. apply Hs. Qed.

Lemma unlinked_points gone id l x :
  el_previous (unlinked gone id l) = Some x \/ el_next (unlinked gone id l) = Some x ->
  (el_previous l = Some x \/ el_next l = Some x) /\ id ∉ gone /\ x ∉ gone.
Proof.
  unfold unlinked. simpl. destruct (bool_decide (id ∈ gone)) eqn:Hg; [by intros [?|?]|]. apply bool_decide_eq_false in Hg. simpl.
  intros [Hp|Hp].
  - destruct (el_previous l) as [y|]; simpl in Hp; [|done]. case_bool_decide; [done|]. simplify_eq. tauto.
  - destruct (el_next l) as [y|]; simpl in Hp; [|done]. case_bool_decide; [done|]. simplify_eq. tauto.
Qed.

(** C31. The collector of a project removes exactly its terminal evaluations with [keep]
    newer terminal ones - and none while an evaluation of the project is at work and not
    stuck -, leaves no link into a removed row, and drops a commit exactly when the last
    evaluation that named it went. *)
Theorem project_gc_exact s now (wedged : Z) p keep :
  same_rows s -> links_within s ->
  let s' := gc_project_evaluations s now wedged p keep in
  (forall ev e, t_evaluations (gs_db s') !! ev = Some e <->
     t_evaluations (gs_db s) !! ev = Some e /\ ~ collectable s now wedged p keep ev) /\
  links_closed s' /\
  (forall c, c ∈ gs_commits s' <-> c ∈ gs_commits s /\ (names_commit s' c \/ ~ names_commit s c)).
Proof.
  intros Hs Hw. cbv zeta. rewrite gc_project_unfold. case_bool_decide as Hd.
  { split_and!.
    - intros ev e. rewrite <- elem_of_doomed, Hd. split; [|tauto]. intros He. split; [done|]. apply not_elem_of_nil.
    - intros ev l x Hl Hx. destruct (Hw ev l x Hl Hx) as (_ & e' & _ & He & _). apply Hs. by rewrite He.
    - intros c. split; [|tauto]. intros Hc. split; [done|]. apply names_commit_dec. }
  split_and!.
  - intros ev e. rewrite delete_evaluations_evals by by apply cut_links_same. rewrite <- elem_of_doomed.
    simpl. destruct (decide _); [|tauto]. split; [done|tauto].
  - intros ev l x Hl Hx. rewrite delete_evaluations_links in Hl |- *.
    destruct (decide (ev ∈ _)) as [|Hev]; [done|]. rewrite cut_links_lookup in Hl |- *.
    destruct (gs_links s !! ev) as [l0|] eqn:El; [|done]. simpl in Hl. injection Hl as Hl.
    assert (Hx0 : el_previous l0 = Some x \/ el_next l0 = Some x).
    { revert Hl. case_bool_decide; intros <-; [|done]. by apply unlinked_points in Hx as [Hx _]. }
    destruct (Hw ev l0 x El Hx0) as (e & e' & He & He' & Hp).
    assert (Hlx : is_Some (gs_links s !! x)) by (apply Hs; by rewrite He').
    destruct (decide (x ∈ _)) as [Hin|]; [|by apply fmap_is_Some]. exfalso.
    assert (Hpx : ev_project e' = Some p).
    { apply elem_of_doomed in Hin as (_ & _ & i & y & Hy%list_elem_of_lookup_2 & <- & _).
      apply elem_of_project_evaluations in Hy as (He2 & _ & Hp2). congruence. }
    assert (Hin' : ev ∈ map (fun x => x.1.1) (project_evaluations s p)).
    { apply list_elem_of_fmap. exists (ev, e, l0). split; [done|]. apply elem_of_project_evaluations. simpl. split_and!; [done..|congruence]. }
    rewrite bool_decide_eq_true_2 in Hl by done. subst l. apply unlinked_points in Hx as (_ & _ & Hx). set_solver.
  - intros c. rewrite delete_evaluations_commits, cut_links_commits. done.
Qed.

End evaluations.

(** ** The keep-set of the derivation sweep *)

Section orphans.
Context `{Chrono} (delete_fails : string -> bool).
Implicit Types (s : GcStore) (t : Db) (d : DerivationId).

Definition root t d : Prop := (exists ev, (ev, d) ∈ t_entry_points t) \/ exists j, j ∈ t_build_jobs t /\ bjr_derivation j = d.

Lemma reachable_spec t d : d ∈ reachable_derivations_cte t <-> exists r, root t r /\ rtc (depends t) r d.
Proof.
  unfold reachable_derivations_cte. rewrite closure_spec. setoid_rewrite dependencies_walk.
  assert (Hr : forall r, r ∈ (list_to_set (map snd (t_entry_points t) ++ map bjr_derivation (t_build_jobs t)) : gset DerivationId) <-> root t r).
  { intros r. rewrite elem_of_list_to_set, elem_of_app, !list_elem_of_fmap. unfold root. split.
    - intros [([ev r'] & -> & Hin)|(j & -> & Hj)]; [left; by exists ev|right; by exists j].
    - intros [[ev Hin]|(j & Hj & <-)]; [left; by exists (ev, r)|right; by exists j]. }
  setoid_rewrite Hr. done.
Qed.

Lemma reachable_dep t d x : d ∈ reachable_derivations_cte t -> depends t d x -> x ∈ reachable_derivations_cte t.
Proof. rewrite !reachable_spec. intros (r & Hr & Hp) Hd. exists r. split; [done|]. by eapply rtc_r. Qed.

(** The two databases have the same roots and, below a reachable derivation, the same edges. *)
Lemma reachable_ext t t' :
  t_entry_points t' = t_entry_points t -> t_build_jobs t' = t_build_jobs t ->
  (forall d x, d ∈ reachable_derivations_cte t -> depends t d x -> depends t' d x) ->
  (forall d x, depends t' d x -> depends t d x) ->
  forall d, d ∈ reachable_derivations_cte t' <-> d ∈ reachable_derivations_cte t.
Proof.
  intros He Hj Hsub Hsup d. rewrite (reachable_spec t'). unfold root. rewrite He, Hj. fold (root t). split.
  - intros (r & Hr & Hp). apply reachable_spec. exists r. split; [done|]. clear Hr. induction Hp; [done|]. eapply rtc_l; eauto.
  - intros (r & Hr & Hp)%reachable_spec. exists r. split; [done|].
    assert (Hin : r ∈ reachable_derivations_cte t) by (apply reachable_spec; exists r; split; [done|constructor]).
    clear Hr. induction Hp as [|r y z Hd Hp IH]; [constructor|]. eapply rtc_l; [by apply Hsub|].
    apply IH. by eapply reachable_dep.
Qed.

(** ** Clearing flags touches nothing else *)

Definition unflagged (a : DerivationBuild) : DerivationBuild := with_closure_complete false (with_drv_closure_cached false a).

Record gate_frame t t' : Prop := {
  gf_derivations : t_derivations t' = t_derivations t;
  gf_dependencies : t_dependencies t' = t_dependencies t;
  gf_jobs : t_build_jobs t' = t_build_jobs t;
  gf_outputs : t_outputs t' = t_outputs t;
  gf_sources : t_input_sources t' = t_input_sources t;
  gf_references : t_references t' = t_references t;
  gf_attempts : t_attempts t' = t_attempts t;
  gf_entry_points : t_entry_points t' = t_entry_points t;
  gf_files h : cp_file_hash <$> t_cached_paths t' !! h = cp_file_hash <$> t_cached_paths t !! h;
  gf_anchors d : unflagged <$> t_anchors t' !! d = unflagged <$> t_anchors t !! d;
}.

#[export] Instance gate_frame_preorder : PreOrder gate_frame.
Proof.
  split; [by intros t; split|]. intros t1 t2 t3 [] []. split; congruence.
Qed.

Lemma gate_frame_update t p f : (forall a, unflagged (f a) = unflagged a) -> gate_frame t (update_where t p f).
Proof.
  intros Hf. split; try done. intros d. rewrite lookup_update_where, <- option_fmap_compose.
  destruct (t_anchors t !! d) as [a|]; [|done]. simpl. f_equal. destruct (p d a); [apply Hf|done].
Qed.

Lemma clear_gate_frame t hs : gate_frame t (clear_gate_flags_for_hashes t hs).
Proof.
  unfold clear_gate_flags_for_hashes. generalize (chunks IN_CHUNK_SIZE hs). intros cs. revert t.
  induction cs as [|c cs IH]; intros t; cbn [foldl]; [done|]. etrans; [|apply IH]. unfold clear_gate_flags_chunk. cbv zeta.
  match goal with |- gate_frame t (set_cached_paths ?u _) => assert (Hu : gate_frame t u) end.
  { etrans; [|apply gate_frame_update; by intros []]. apply gate_frame_update. by intros []. }
  etrans; [exact Hu|]. clear Hu. split; try done.
  intros h. simpl. rewrite map_lookup_imap. destruct (t_cached_paths t !! h) as [cp|]; [|done]. simpl. by destruct (_ && _).
Qed.

(** What a live derivation is promised: its row and its output's, and both their NARs. The
    last two fields say that no [.drv] has the hash of the output or the other way round. *)
Record keeps (r : DerivationRow) (o : OutputRow) s : Prop := {
  kp_row : r ∈ t_derivations (gs_db s);
  kp_live : dr_id r ∈ reachable_derivations_cte (gs_db s);
  kp_out : o ∈ t_outputs (gs_db s);
  kp_cached : hash_cached (gs_db s) (or_hash o) = true /\ hash_cached (gs_db s) (dr_hash r) = true;
  kp_nars : is_Some (gs_nars s !! or_hash o) /\ is_Some (gs_nars s !! dr_hash r);
  kp_drvs r' : r' ∈ t_derivations (gs_db s) -> dr_hash r' <> or_hash o;
  kp_outs o' : o' ∈ t_outputs (gs_db s) -> or_hash o' <> dr_hash r;
}.

Lemma hash_cached_ext t t' h : cp_file_hash <$> t_cached_paths t' !! h = cp_file_hash <$> t_cached_paths t !! h ->
  hash_cached t' h = hash_cached t h.
Proof.
  unfold hash_cached. destruct (t_cached_paths t' !! h), (t_cached_paths t !! h); simpl; intros Hh; try done. injection Hh as Hh. by rewrite Hh.
Qed.

Lemma reachable_frame t t' d : gate_frame t t' -> d ∈ reachable_derivations_cte t' <-> d ∈ reachable_derivations_cte t.
Proof.
  intros Hf. apply reachable_ext; [apply Hf|apply Hf|unfold depends; by rewrite (gf_dependencies _ _ Hf)..].
Qed.

Lemma keeps_frame r o s t : gate_frame (gs_db s) t -> keeps r o s -> keeps r o (gs_with_db s t).
Proof.
  intros Hf [Hr Hl Ho Hc Hn Hd1 Hd2]. split; simpl; rewrite ?(gf_derivations _ _ Hf), ?(gf_outputs _ _ Hf); try done.
  - by apply (reachable_frame _ _ _ Hf).
  - by rewrite !(hash_cached_ext _ _ _ (gf_files _ _ Hf _)).
Qed.

Lemma keeps_paths r o s gone : or_hash o ∉ gone -> dr_hash r ∉ gone -> keeps r o s -> keeps r o (delete_path_rows s gone).
Proof.
  intros Ho Hd [Hr Hl Hout Hc Hn Hd1 Hd2].
  assert (Hx : forall h, h ∉ gone -> hash_cached (gs_db (delete_path_rows s gone)) h = hash_cached (gs_db s) h).
  { intros h Hh. apply hash_cached_ext. simpl. f_equal.
    destruct (t_cached_paths (gs_db s) !! h) as [cp|] eqn:E.
    - apply map_lookup_filter_Some. by split.
    - by apply map_lookup_filter_None; left. }
  split; try done. by rewrite !Hx.
Qed.

Lemma delete_nars_lookup s hs h :
  gs_nars (delete_nars delete_fails s hs) !! h
  = if decide (h ∈ hs /\ delete_fails h = false) then None else gs_nars s !! h.
Proof.
  unfold delete_nars. revert s. induction hs as [|x hs IH]; intros s; cbn [foldl].
  { destruct (decide _) as [[Hx _]|]; [by apply elem_of_nil in Hx|done]. }
  rewrite IH. unfold delete_nar.
  assert (Hcons : h ∈ x :: hs <-> h = x \/ h ∈ hs) by apply elem_of_cons. destruct (delete_fails x) eqn:Hx.
  - destruct (decide (h ∈ hs /\ _)) as [[Hd Hf]|Hd], (decide (h ∈ x :: hs /\ _)) as [[He Hf']|He]; [done|tauto| |done].
    apply Hcons in He as [->|He]; [congruence|tauto].
  - cbn [gs_with_nars gs_nars]. destruct (decide (h ∈ hs /\ _)) as [Hd|Hd], (decide (h ∈ x :: hs /\ _)) as [He|He]; try done.
    + naive_solver.
    + assert (h = x) as -> by naive_solver. apply lookup_delete_eq.
    + apply lookup_delete_ne. naive_solver.
Qed.

Lemma delete_nars_rest s hs : delete_nars delete_fails s hs = gs_with_nars s (gs_nars (delete_nars delete_fails s hs)).
Proof.
  unfold delete_nars. revert s. induction hs as [|x hs IH]; intros s; cbn [foldl]; [by destruct s|].
  rewrite IH. unfold delete_nar. by destruct (delete_fails x).
Qed.

Lemma keeps_nars r o s hs : or_hash o ∉ hs -> dr_hash r ∉ hs -> keeps r o s -> keeps r o (delete_nars delete_fails s hs).
Proof.
  intros Ho Hd [Hr Hl Hout Hc Hn Hd1 Hd2]. split; try by rewrite delete_nars_rest.
  rewrite !delete_nars_lookup. by rewrite !decide_False by tauto.
Qed.

(** ** Live derivations survive *)

Lemma elem_of_gone s ids d :
  d ∈ (delete_unreachable s ids).2 <->
  (exists r, r ∈ t_derivations (gs_db s) /\ dr_id r = d) /\ d ∈ ids /\ d ∉ reachable_derivations_cte (gs_db s).
Proof.
  unfold delete_unreachable. cbn [snd]. rewrite elem_of_list_to_set, list_elem_of_fmap. split.
  - intros (r & -> & Hr). apply list_elem_of_In, filter_In in Hr as [Hr Hf]. rewrite <- list_elem_of_In in Hr.
    apply andb_true_iff in Hf as [Hi%bool_decide_eq_true Hn%negb_true_iff%bool_decide_eq_false]. split_and!; [by exists r|done..].
  - intros ((r & Hr & <-) & Hi & Hn). exists r. split; [done|]. apply list_elem_of_In, filter_In. split; [by apply list_elem_of_In|].
    by rewrite bool_decide_eq_true_2, bool_decide_eq_false_2.
Qed.

Lemma delete_rows_depends s gone d x :
  depends (gs_db (delete_derivation_rows s gone)) d x <-> depends (gs_db s) d x /\ d ∉ gone /\ x ∉ gone.
Proof. unfold depends. simpl. rewrite list_elem_of_filter. simpl. tauto. Qed.

Lemma delete_rows_reachable s gone : gone ## reachable_derivations_cte (gs_db s) -> forall d,
  d ∈ reachable_derivations_cte (gs_db (delete_derivation_rows s gone)) <-> d ∈ reachable_derivations_cte (gs_db s).
Proof.
  intros Hg. apply reachable_ext; [done|done|..].
  - intros d x Hd Hx. apply delete_rows_depends. split; [done|]. pose proof (reachable_dep _ _ _ Hd Hx). set_solver.
  - intros d x Hx. by apply delete_rows_depends in Hx as [Hx _].
Qed.

Lemma gone_unreachable s ids : (delete_unreachable s ids).2 ## reachable_derivations_cte (gs_db s).
Proof. intros d Hd%elem_of_gone Hr. tauto. Qed.

Lemma keeps_delete r o s ids : or_derivation o = dr_id r -> keeps r o s -> keeps r o (delete_unreachable s ids).1.
Proof.
  intros Hor [Hr Hl Ho Hc Hn Hd1 Hd2]. unfold delete_unreachable. cbn [fst].
  pose proof (gone_unreachable s ids) as Hg. unfold delete_unreachable in Hg. cbn [snd] in Hg.
  set (gone := list_to_set _ : gset DerivationId) in *. clearbody gone.
  assert (Hrg : dr_id r ∉ gone) by set_solver.
  split; cbn [delete_derivation_rows gs_with_db gs_with_cache_derivations gs_db gs_nars t_derivations t_outputs t_cached_paths].
  - by apply list_elem_of_filter.
  - by apply (delete_rows_reachable s gone).
  - apply list_elem_of_filter. by rewrite Hor.
  - done.
  - done.
  - intros r' [_ Hr']%list_elem_of_filter. by apply Hd1.
  - intros o' [_ Ho']%list_elem_of_filter. by apply Hd2.
Qed.

Context (others : GcPoint -> GcStore -> GcStore).

(** The other tasks keep the promise too. *)
Definition others_keep r o : Prop := forall p s, keeps r o s -> keeps r o (others p s).

Lemma keeps_delete_chunks r o cs : or_derivation o = dr_id r -> others_keep r o -> forall i s,
  keeps r o s -> keeps r o (delete_chunks others i s cs).1.
Proof.
  intros Hor Hoth. induction cs as [|ids cs IH]; intros i s Hk; cbn [delete_chunks]; [done|].
  pose proof (keeps_delete r o (others (AtDelete i) s) ids Hor (Hoth _ _ Hk)) as Hk'.
  destruct (delete_unreachable _ _) as [s1 g]. specialize (IH (S i) s1 Hk'). by destruct (delete_chunks _ _ _ _).
Qed.

Lemma keeps_reclaimed_rows r o cs : others_keep r o -> or_hash o ∉ concat cs -> dr_hash r ∉ concat cs -> forall i s,
  keeps r o s -> keeps r o (delete_reclaimed_rows others i s cs).
Proof.
  intros Hoth. induction cs as [|hs cs IH]; intros Ho Hd i s Hk; cbn [delete_reclaimed_rows]; [done|].
  cbn [concat] in Ho, Hd. rewrite elem_of_app in Ho, Hd. apply IH; [tauto..|].
  apply keeps_frame; [apply clear_gate_frame|]. apply keeps_paths; [rewrite elem_of_list_to_set; tauto..|]. by apply Hoth.
Qed.

Lemma reclaim_spares r o (s1 s2 : GcStore) outs drvs :
  keeps r o s1 -> keeps r o s2 -> or_hash o ∉ drvs -> dr_hash r ∉ outs ->
  let hs := reclaimable_after_delete outs (surviving_output_hashes s1 outs) drvs (surviving_drv_hashes s2 drvs) in
  or_hash o ∉ hs /\ dr_hash r ∉ hs.
Proof.
  intros H1 H2 Ho Hr. cbv zeta. unfold reclaimable_after_delete, reclaimable_hashes.
  rewrite !elem_of_app, !elem_of_elements, !elem_of_difference. split; intros [[Hin Hn]|[Hin Hn]]; try done; apply Hn.
  - unfold surviving_output_hashes. apply elem_of_list_to_set, list_elem_of_fmap. exists o. split; [done|].
    apply list_elem_of_In, filter_In. split; [apply list_elem_of_In, H1|]. by apply bool_decide_eq_true.
  - unfold surviving_drv_hashes. apply elem_of_list_to_set, list_elem_of_fmap. exists r. split; [done|].
    apply list_elem_of_In, filter_In. split; [apply list_elem_of_In, H2|]. by apply bool_decide_eq_true.
Qed.

Lemma candidates_are_rows s cutoff d h : orphan_candidates s cutoff !! d = Some h ->
  exists r', r' ∈ t_derivations (gs_db s) /\ dr_hash r' = h.
Proof.
  unfold orphan_candidates. intros Hd%elem_of_list_to_map_2. apply list_elem_of_fmap in Hd as (r' & [= -> ->] & Hr).
  apply list_elem_of_In, filter_In in Hr as [Hr _]. rewrite <- list_elem_of_In in Hr. eauto.
Qed.

(** C27. Whatever the rest of the server does in between - new evaluations, uploads, other
    deletions -, as long as it keeps a derivation reachable from an entry point or a build
    job and its output and [.drv] stored, so does the sweep of the orphaned derivations:
    the row, the output, both cached paths and both NARs are there afterwards. *)
Theorem live_derivation_kept s cutoff r o :
  or_derivation o = dr_id r -> others_keep r o -> keeps r o s ->
  keeps r o (gc_orphan_derivations delete_fails others s cutoff).
Proof.
  intros Hor Hoth Hk. unfold gc_orphan_derivations. case_bool_decide; [done|].
  assert (Hc : forall d h, orphan_candidates s cutoff !! d = Some h -> h <> or_hash o).
  { intros d h (r' & Hr' & <-)%candidates_are_rows. by apply (kp_drvs _ _ _ Hk). }
  generalize dependent (orphan_candidates s cutoff). intros candidates _ Hc. cbv zeta.
  generalize (map fst (map_to_list candidates)) as ids. intros ids. unfold take_snapshot.
  pose proof (Hoth AtOutputs s Hk) as Hk1. set (s1 := others AtOutputs s) in *.
  pose proof (Hoth AtAttempts _ (Hoth AtAnchors s1 Hk1)) as Hk2. set (s2 := others AtAttempts _) in *.
  set (sn := Build_Snapshot _ _). assert (Hsn : forall o', o' ∈ sn_outputs sn -> or_hash o' <> dr_hash r).
  { intros o' Ho'. cbn [sn sn_outputs] in Ho'. unfold candidate_outputs in Ho'.
    apply list_elem_of_In, filter_In in Ho' as [Ho' _]. apply (kp_outs _ _ _ Hk1), list_elem_of_In, Ho'. }
  clearbody sn s2. pose proof (keeps_delete_chunks r o (chunks IN_CHUNK_SIZE ids) Hor Hoth 0 s2 Hk2) as Hk3.
  destruct (delete_chunks _ _ _ _) as [s3 deleted]. cbn [fst] in Hk3. case_bool_decide; [done|]. unfold reclaim. cbv zeta.
  set (s4 := gs_with_logs (others AtLogs s3) _).
  assert (Hk4 : keeps r o s4) by (destruct (Hoth AtLogs s3 Hk3); by split). clearbody s4.
  pose proof (Hoth AtSurvivors s4 Hk4) as Hk5. pose proof (Hoth AtSurvivingDrvs _ Hk5) as Hk6.
  destruct (reclaim_spares r o _ _ (deleted_output_hashes sn deleted) (deleted_drv_hashes candidates deleted) Hk5 Hk6) as [Hs1 Hs2].
  { unfold deleted_drv_hashes. rewrite elem_of_list_to_set, list_elem_of_omap. intros (d & _ & Hd). by apply (Hc d (or_hash o)). }
  { unfold deleted_output_hashes. rewrite elem_of_list_to_set, list_elem_of_fmap. intros (o' & He & Ho').
    apply list_elem_of_In, filter_In in Ho' as [Ho' _]. rewrite <- list_elem_of_In in Ho'. by apply (Hsn o'). }
  apply keeps_reclaimed_rows; [done|by rewrite concat_chunks by done..|]. apply keeps_nars; [done..|]. by apply Hoth.
Qed.

(** ** The sweep on its own *)

(** [gone] and what hangs on it is missing from [s']; the flags of the others may differ. *)
Record swept s (gone : gset DerivationId) s' : Prop := {
  sw_rows r : r ∈ t_derivations (gs_db s') <-> r ∈ t_derivations (gs_db s) /\ dr_id r ∉ gone;
  sw_outputs o : o ∈ t_outputs (gs_db s') <-> o ∈ t_outputs (gs_db s) /\ or_derivation o ∉ gone;
  sw_sources x : x ∈ t_input_sources (gs_db s') <-> x ∈ t_input_sources (gs_db s) /\ x.1 ∉ gone;
  sw_anchors d : unflagged <$> t_anchors (gs_db s') !! d
    = if decide (d ∈ gone) then None else unflagged <$> t_anchors (gs_db s) !! d;
  sw_reachable d : d ∈ reachable_derivations_cte (gs_db s') <-> d ∈ reachable_derivations_cte (gs_db s);
}.

Lemma delete_unreachable_swept s ids : swept s (delete_unreachable s ids).2 (delete_unreachable s ids).1.
Proof.
  pose proof (gone_unreachable s ids) as Hg. unfold delete_unreachable in *. cbn [fst snd] in *.
  set (gone := list_to_set _ : gset DerivationId) in *. clearbody gone.
  split; cbn [delete_derivation_rows gs_with_db gs_with_cache_derivations gs_db t_derivations t_outputs t_anchors t_input_sources].
  - intros r. rewrite list_elem_of_filter. tauto.
  - intros o. rewrite list_elem_of_filter. tauto.
  - intros x. rewrite list_elem_of_filter. tauto.
  - intros d. destruct (decide (d ∈ gone)) as [Hd|Hd].
    + rewrite (proj2 (map_lookup_filter_None _ _ _)); [done|]. right. intros a _ Hn. by apply Hn.
    + f_equal. destruct (t_anchors (gs_db s) !! d) as [a|] eqn:E.
      * by apply map_lookup_filter_Some.
      * apply map_lookup_filter_None. by left.
  - by apply (delete_rows_reachable s gone).
Qed.

Lemma swept_trans s g s1 g' s2 : swept s g s1 -> swept s1 g' s2 -> swept s (g ∪ g') s2.
Proof.
  intros [] []. split.
  - intros r. rewrite sw_rows1, sw_rows0, elem_of_union. tauto.
  - intros o. rewrite sw_outputs1, sw_outputs0, elem_of_union. tauto.
  - intros x. rewrite sw_sources1, sw_sources0, elem_of_union. tauto.
  - intros d. rewrite sw_anchors1, sw_anchors0. destruct (decide (d ∈ g')), (decide (d ∈ g)), (decide (d ∈ g ∪ g')); set_solver.
  - intros d. by rewrite sw_reachable1, sw_reachable0.
Qed.

Definition stores_same s s' : Prop := gs_nars s' = gs_nars s /\ t_cached_paths (gs_db s') = t_cached_paths (gs_db s).

Lemma delete_chunks_alone cs : forall i s,
  let s' := (delete_chunks alone i s cs).1 in let gone := (delete_chunks alone i s cs).2 in
  swept s gone s' /\ stores_same s s' /\
  forall d, d ∈ gone <-> (exists r, r ∈ t_derivations (gs_db s) /\ dr_id r = d) /\ d ∈ concat cs /\ d ∉ reachable_derivations_cte (gs_db s).
Proof.
  induction cs as [|ids cs IH]; intros i s; cbn [delete_chunks].
  { cbn [fst snd concat]. split_and!; [split; set_solver|done|set_solver]. }
  change (alone (AtDelete i) s) with s. pose proof (delete_unreachable_swept s ids) as Hsw. pose proof (elem_of_gone s ids) as Hg.
  assert (Hst : stores_same s (delete_unreachable s ids).1) by done.
  destruct (delete_unreachable s ids) as [s1 g]. cbn [fst snd] in *. specialize (IH (S i) s1).
  destruct (delete_chunks _ (S i) s1 cs) as [s2 g']. cbn [fst snd concat] in *. destruct IH as (Hsw' & [Hn Hp] & Hg').
  split_and!; [by eapply swept_trans|destruct Hst; split; congruence|].
  intros d. rewrite elem_of_union, elem_of_app, Hg, Hg', (sw_reachable _ _ _ Hsw). split; [|].
  - intros [?|((r & Hr & <-) & ?)]; [tauto|]. apply (sw_rows _ _ _ Hsw) in Hr as [Hr _]. split; [by exists r|tauto].
  - intros ((r & Hr & <-) & Hin & Hn'). destruct (decide (dr_id r ∈ ids)) as [Hi|Hi]; [left; split; [by exists r|tauto]|right].
    split; [|tauto]. exists r. split; [|done]. apply (sw_rows _ _ _ Hsw). split; [done|]. rewrite Hg. tauto.
Qed.

Lemma delete_path_rows_lookup s gone h :
  t_cached_paths (gs_db (delete_path_rows s gone)) !! h = if decide (h ∈ gone) then None else t_cached_paths (gs_db s) !! h.
Proof.
  simpl. destruct (decide (h ∈ gone)) as [Hd|Hd].
  - apply map_lookup_filter_None. right. intros cp _ Hn. by apply Hn.
  - destruct (t_cached_paths (gs_db s) !! h) as [cp|] eqn:E; [by apply map_lookup_filter_Some|].
    apply map_lookup_filter_None. by left.
Qed.

(** Purging rows in transactions, with the flags behind them. *)
Record purged s (hs : list string) s' : Prop := {
  pu_paths h : cp_file_hash <$> t_cached_paths (gs_db s') !! h
    = if decide (h ∈ hs) then None else cp_file_hash <$> t_cached_paths (gs_db s) !! h;
  pu_rows : t_derivations (gs_db s') = t_derivations (gs_db s) /\ t_outputs (gs_db s') = t_outputs (gs_db s) /\
    t_input_sources (gs_db s') = t_input_sources (gs_db s);
  pu_anchors d : unflagged <$> t_anchors (gs_db s') !! d = unflagged <$> t_anchors (gs_db s) !! d;
  pu_nars : gs_nars s' = gs_nars s;
}.

Lemma purged_nil s : purged s [] s.
Proof. split; [|done..]. intros h. destruct (decide _) as [Hd|]; [by apply elem_of_nil in Hd|done]. Qed.

Lemma purged_step s hs rest s' :
  purged (clear_flags (delete_path_rows s (list_to_set hs)) hs) rest s' -> purged s (hs ++ rest) s'.
Proof.
  intros []. pose proof (clear_gate_frame (gs_db (delete_path_rows s (list_to_set hs))) hs) as Hf. unfold clear_flags in *. cbn [gs_with_db gs_db gs_nars] in *.
  split.
  - intros h. rewrite pu_paths0, (gf_files _ _ Hf), delete_path_rows_lookup.
    pose proof (elem_of_app hs rest h) as Ha. pose proof (elem_of_list_to_set (C := gset string) h hs) as Hl.
    destruct (decide (h ∈ rest)), (decide (h ∈ (list_to_set hs : gset string))), (decide (h ∈ hs ++ rest)); try done; naive_solver.
  - destruct pu_rows0 as (-> & -> & ->). by destruct Hf.
  - intros d. rewrite pu_anchors0. by rewrite (gf_anchors _ _ Hf).
  - by rewrite pu_nars0.
Qed.

Lemma delete_reclaimed_alone cs : forall i s, purged s (concat cs) (delete_reclaimed_rows alone i s cs).
Proof.
  induction cs as [|hs cs IH]; intros i s; cbn [delete_reclaimed_rows concat]; [apply purged_nil|].
  apply purged_step, IH.
Qed.

(** A row past its grace that no root needs. *)
Definition orphan s cutoff (r : DerivationRow) : Prop :=
  r ∈ t_derivations (gs_db s) /\ (exists c, gs_created_at s !! dr_id r = Some c /\ datetime_cmp c cutoff = Lt) /\
  dr_id r ∉ reachable_derivations_cte (gs_db s).

Definition orphan_id s cutoff d : Prop := exists r, orphan s cutoff r /\ dr_id r = d.

(** Only orphans have the output, or only orphans have the [.drv]. *)
Definition reclaimed s cutoff (h : string) : Prop :=
  ((exists o, o ∈ t_outputs (gs_db s) /\ or_hash o = h /\ orphan_id s cutoff (or_derivation o)) /\
   forall o, o ∈ t_outputs (gs_db s) -> or_hash o = h -> orphan_id s cutoff (or_derivation o)) \/
  ((exists r, orphan s cutoff r /\ dr_hash r = h) /\
   forall r, r ∈ t_derivations (gs_db s) -> dr_hash r = h -> orphan_id s cutoff (dr_id r)).

Lemma datetime_lt_spec a b : datetime_lt a b = true <-> datetime_cmp a b = Lt.
Proof. unfold datetime_lt. by destruct (datetime_cmp a b). Qed.

Lemma elem_of_candidates s cutoff d : NoDup (map dr_id (t_derivations (gs_db s))) ->
  forall h, orphan_candidates s cutoff !! d = Some h <-> exists r, orphan s cutoff r /\ dr_id r = d /\ dr_hash r = h.
Proof.
  intros Hnd h. unfold orphan_candidates. set (l := List.filter _ (t_derivations (gs_db s))).
  assert (Hl : forall r, r ∈ l <-> orphan s cutoff r).
  { intros r. unfold l, orphan. rewrite list_elem_of_In, filter_In, <- list_elem_of_In, andb_true_iff, negb_true_iff, bool_decide_eq_false.
    destruct (gs_created_at s !! dr_id r) as [c|]; [rewrite datetime_lt_spec|]; naive_solver. }
  assert (Hnd' : NoDup (map fst (map (fun r => (dr_id r, dr_hash r)) l))).
  { rewrite map_map. simpl. clear Hl. unfold l. clear l. induction (t_derivations (gs_db s)) as [|r rows IH]; [constructor|].
    cbn [map] in Hnd. apply NoDup_cons in Hnd as [Hn Hnd]. specialize (IH Hnd). cbn [List.filter].
    destruct (_ && _); [|done]. cbn [map]. apply NoDup_cons. split; [|done]. intros (r' & Hr & Hin)%list_elem_of_fmap.
    apply Hn, list_elem_of_fmap. exists r'. split; [done|]. apply list_elem_of_In, filter_In in Hin as [Hin _]. by apply list_elem_of_In. }
  rewrite <- elem_of_list_to_map by exact Hnd'. rewrite list_elem_of_fmap. setoid_rewrite Hl. split.
  - intros (r & [= -> ->] & Hr). by exists r.
  - intros (r & Hr & <- & <-). by exists r.
Qed.

Lemma elem_of_sweep_ids s cutoff d : NoDup (map dr_id (t_derivations (gs_db s))) ->
  d ∈ map fst (map_to_list (orphan_candidates s cutoff)) <-> orphan_id s cutoff d.
Proof.
  intros Hnd. rewrite list_elem_of_fmap. unfold orphan_id. split.
  - intros ([d' h] & -> & (r & Hr & Hd & _)%elem_of_map_to_list%elem_of_candidates); [by exists r|done].
  - intros (r & Hr & Hd). exists (d, dr_hash r). split; [done|]. apply elem_of_map_to_list, elem_of_candidates; [done|]. by exists r.
Qed.

Lemma orphan_has_row s cutoff d : orphan_id s cutoff d ->
  (exists r, r ∈ t_derivations (gs_db s) /\ dr_id r = d) /\ d ∉ reachable_derivations_cte (gs_db s).
Proof. intros (r & (Hr & _ & Hn) & <-). split; [by exists r|done]. Qed.

(** The hashes of the deleted rows that nothing left names. *)
Lemma reclaimed_spec s cutoff (s3 : GcStore) (gone : gset DerivationId) h :
  NoDup (map dr_id (t_derivations (gs_db s))) -> swept s gone s3 -> (forall d, d ∈ gone <-> orphan_id s cutoff d) ->
  let sn := {| sn_outputs := candidate_outputs s (map fst (map_to_list (orphan_candidates s cutoff)));
               sn_attempts := attempt_snapshot s (anchor_derivation s (map fst (map_to_list (orphan_candidates s cutoff)))) |} in
  let outs := deleted_output_hashes sn gone in
  let drvs := deleted_drv_hashes (orphan_candidates s cutoff) gone in
  h ∈ reclaimable_after_delete outs (surviving_output_hashes s3 outs) drvs (surviving_drv_hashes s3 drvs) <-> reclaimed s cutoff h.
Proof.
  intros Hnd Hsw Hg. cbv zeta. set (outs := deleted_output_hashes _ gone). set (drvs := deleted_drv_hashes _ gone).
  assert (Ho : h ∈ outs <-> exists o, o ∈ t_outputs (gs_db s) /\ or_hash o = h /\ orphan_id s cutoff (or_derivation o)).
  { unfold outs, deleted_output_hashes, candidate_outputs. cbn [sn_outputs]. rewrite elem_of_list_to_set, list_elem_of_fmap. split.
    - intros (o & -> & Hin). apply list_elem_of_In, filter_In in Hin as [Hin Hd%bool_decide_eq_true%Hg].
      apply filter_In in Hin as [Hin _]. exists o. by rewrite list_elem_of_In.
    - intros (o & Hin & <- & Hoi). exists o. split; [done|]. rewrite list_elem_of_In, filter_In, filter_In, <- list_elem_of_In.
      rewrite !bool_decide_eq_true, Hg, elem_of_sweep_ids by done. done. }
  assert (Hd : h ∈ drvs <-> exists r, orphan s cutoff r /\ dr_hash r = h).
  { unfold drvs, deleted_drv_hashes. rewrite elem_of_list_to_set, list_elem_of_omap. split.
    - intros (d & Hin & (r & Hr & _ & Hh)%elem_of_candidates); [by exists r|done].
    - intros (r & Hr & <-). exists (dr_id r). rewrite elem_of_elements, Hg. split; [by exists r|].
      apply elem_of_candidates; [done|]. by exists r. }
  assert (Hso : h ∈ surviving_output_hashes s3 outs <-> h ∈ outs /\ exists o, o ∈ t_outputs (gs_db s) /\ or_hash o = h /\ ~ orphan_id s cutoff (or_derivation o)).
  { unfold surviving_output_hashes. rewrite elem_of_list_to_set, list_elem_of_fmap. setoid_rewrite list_elem_of_In. setoid_rewrite filter_In.
    setoid_rewrite <- list_elem_of_In. setoid_rewrite bool_decide_eq_true. setoid_rewrite (sw_outputs _ _ _ Hsw). setoid_rewrite Hg.
    clear. split; [intros (o & -> & [Hin Hn] & Hh); split; [done|by exists o]|intros (Hh & o & Hin & <- & Hn); by exists o]. }
  assert (Hsd : h ∈ surviving_drv_hashes s3 drvs <-> h ∈ drvs /\ exists r, r ∈ t_derivations (gs_db s) /\ dr_hash r = h /\ ~ orphan_id s cutoff (dr_id r)).
  { unfold surviving_drv_hashes. rewrite elem_of_list_to_set, list_elem_of_fmap. setoid_rewrite list_elem_of_In. setoid_rewrite filter_In.
    setoid_rewrite <- list_elem_of_In. setoid_rewrite bool_decide_eq_true. setoid_rewrite (sw_rows _ _ _ Hsw). setoid_rewrite Hg.
    clear. split; [intros (r & -> & [Hin Hn] & Hh); split; [done|by exists r]|intros (Hh & r & Hin & <- & Hn); by exists r]. }
  assert (Hdec : forall d, orphan_id s cutoff d \/ ~ orphan_id s cutoff d) by (intros d; rewrite <- Hg; destruct (decide (d ∈ gone)); tauto).
  unfold reclaimable_after_delete, reclaimable_hashes, reclaimed.
  rewrite elem_of_app, !elem_of_elements, !elem_of_difference, Hso, Hsd. rewrite Ho at 1. rewrite Hd at 1. split.
  - intros [[Hex Hn]|[Hex Hn]]; [left|right]; split; try done.
    + intros o Hin Hh. destruct (Hdec (or_derivation o)); [done|]. exfalso. apply Hn. split; [by apply Ho|]. by exists o.
    + intros r Hin Hh. destruct (Hdec (dr_id r)); [done|]. exfalso. apply Hn. split; [by apply Hd|]. by exists r.
  - intros [[Hex Hall]|[Hex Hall]]; [left|right]; split; try done.
    + intros (_ & o & Hin & Hh & Hn). by apply Hn, Hall.
    + intros (_ & r & Hin & Hh & Hn). by apply Hn, Hall.
Qed.

(** What the sweep leaves behind when it runs alone. *)
Record sweep_result s cutoff s' : Prop := {
  sr_rows r : r ∈ t_derivations (gs_db s') <-> r ∈ t_derivations (gs_db s) /\ ~ orphan_id s cutoff (dr_id r);
  sr_outputs o : o ∈ t_outputs (gs_db s') <-> o ∈ t_outputs (gs_db s) /\ ~ orphan_id s cutoff (or_derivation o);
  sr_sources x : x ∈ t_input_sources (gs_db s') <-> x ∈ t_input_sources (gs_db s) /\ ~ orphan_id s cutoff x.1;
  sr_anchors d : unflagged <$> t_anchors (gs_db s') !! d = unflagged <$> t_anchors (gs_db s) !! d /\ ~ orphan_id s cutoff d \/
    t_anchors (gs_db s') !! d = None /\ orphan_id s cutoff d;
  sr_taken h : reclaimed s cutoff h -> t_cached_paths (gs_db s') !! h = None /\
    gs_nars s' !! h = if delete_fails h then gs_nars s !! h else None;
  sr_left h : ~ reclaimed s cutoff h -> gs_nars s' !! h = gs_nars s !! h /\
    cp_file_hash <$> t_cached_paths (gs_db s') !! h = cp_file_hash <$> t_cached_paths (gs_db s) !! h;
}.

Lemma orphan_sweep s cutoff :
  NoDup (map dr_id (t_derivations (gs_db s))) -> sweep_result s cutoff (gc_orphan_derivations delete_fails alone s cutoff).
Proof.
  intros Hnd. unfold gc_orphan_derivations.
  pose proof (elem_of_sweep_ids s cutoff) as Hids. specialize (fun d => Hids d Hnd).
  pose proof (fun gone s3 h => reclaimed_spec s cutoff s3 gone h Hnd) as Hrec. cbv zeta in Hrec.
  case_bool_decide as Hemp.
  { assert (Hno : forall d, ~ orphan_id s cutoff d).
    { intros d. rewrite <- Hids, Hemp, map_to_list_empty. apply not_elem_of_nil. }
    
    split; [intros r; split; [intros Hr; split; [exact Hr|apply Hno]|by intros [? _]]|intros o; split; [intros Ho; split; [exact Ho|apply Hno]|by intros [? _]]|intros x; split; [intros Hx; split; [exact Hx|apply Hno]|by intros [? _]]|intros d; left; split; [done|apply Hno]| |done].
    intros h [[(o & _ & _ & Ho) _]|[(r & Ho & _) _]]; exfalso; eapply Hno; [exact Ho|by exists r]. }
  assert (Hne : exists d, orphan_id s cutoff d).
  { apply map_choose in Hemp as (d & h & Hd). exists d. apply elem_of_candidates in Hd as (r & Hr & Hid & _); [by exists r|done]. }
  set (candidates := orphan_candidates s cutoff) in *. set (ids := map fst (map_to_list candidates)) in *.
  set (sn := {| sn_outputs := candidate_outputs s ids; sn_attempts := attempt_snapshot s (anchor_derivation s ids) |}) in *.
  change (take_snapshot alone s ids) with (s, sn). cbv beta iota zeta.
  pose proof (delete_chunks_alone (chunks IN_CHUNK_SIZE ids) 0 s) as (Hsw & [Hnar Hpath] & Hg).
  destruct (delete_chunks alone 0 s _) as [s3 gone]. cbn [fst snd] in *. rewrite concat_chunks in Hg by done.
  assert (Hgone : forall d, d ∈ gone <-> orphan_id s cutoff d).
  { intros d. rewrite Hg, Hids. split; [tauto|]. intros Ho. pose proof (orphan_has_row _ _ _ Ho). tauto. }
  case_bool_decide as Hgemp; [destruct Hne as [d Hd%Hgone]; rewrite Hgemp in Hd; by apply elem_of_empty in Hd|].
  specialize (Hrec gone s3). specialize (fun h => Hrec h Hsw Hgone).
  set (hs := reclaimable_after_delete (deleted_output_hashes sn gone) (surviving_output_hashes s3 (deleted_output_hashes sn gone))
    (deleted_drv_hashes candidates gone) (surviving_drv_hashes s3 (deleted_drv_hashes candidates gone))) in *.
  set (s4 := gs_with_logs s3 (gs_logs s3 ∖ list_to_set (attempt_logs_to_reclaim (sn_attempts sn) gone))).
  set (s5 := delete_nars delete_fails s4 hs).
  change (reclaim delete_fails alone s3 candidates sn gone) with (delete_reclaimed_rows alone 0 s5 (chunks IN_CHUNK_SIZE hs)).
  change (forall h, h ∈ hs <-> reclaimed s cutoff h) in Hrec. clearbody hs.
  pose proof (delete_reclaimed_alone (chunks IN_CHUNK_SIZE hs) 0 s5) as [Hp (Hr & Ho & Hsrc) Ha Hn].
  rewrite concat_chunks in Hp by done. assert (Hdb : gs_db s5 = gs_db s3) by (unfold s5; by rewrite delete_nars_rest).
  rewrite Hdb in *. split; try rewrite Hr; try rewrite Ho; try rewrite Hsrc.
  - intros r. by rewrite (sw_rows _ _ _ Hsw), Hgone.
  - intros o. by rewrite (sw_outputs _ _ _ Hsw), Hgone.
  - intros x. by rewrite (sw_sources _ _ _ Hsw), Hgone.
  - intros d. pose proof (Ha d) as Had. rewrite (sw_anchors _ _ _ Hsw) in Had. destruct (decide (d ∈ gone)) as [Hd|Hd]; rewrite Hgone in Hd.
    + right. split; [|done]. by apply fmap_None in Had.
    + by left.
  - intros h Hh. split.
    + specialize (Hp h). rewrite decide_True in Hp by by apply Hrec. by apply fmap_None in Hp.
    + rewrite Hn. unfold s5. rewrite delete_nars_lookup. cbn [s4 gs_with_logs gs_nars]. rewrite Hnar.
      destruct (delete_fails h); [by rewrite decide_False by naive_solver|]. rewrite decide_True; [done|]. by rewrite Hrec.
  - intros h Hh. split.
    + rewrite Hn. unfold s5. rewrite delete_nars_lookup. rewrite decide_False; [cbn [s4 gs_with_logs gs_nars]; by rewrite Hnar|].
      rewrite Hrec. tauto.
    + rewrite Hp, decide_False by by rewrite Hrec. by rewrite Hpath.
Qed.

(** C28. Alone, the sweep removes exactly the derivations past their grace that no entry
    point and no build job reaches, with their outputs and anchors, and takes from the
    cache exactly the paths that were an output, or the [.drv], of such derivations only;
    everything else it leaves, up to gate flags. An object whose deletion fails stays. *)
Theorem orphan_sweep_exact s cutoff :
  NoDup (map dr_id (t_derivations (gs_db s))) ->
  let s' := gc_orphan_derivations delete_fails alone s cutoff in
  (forall r, r ∈ t_derivations (gs_db s') <-> r ∈ t_derivations (gs_db s) /\ ~ orphan_id s cutoff (dr_id r)) /\
  (forall o, o ∈ t_outputs (gs_db s') <-> o ∈ t_outputs (gs_db s) /\ ~ orphan_id s cutoff (or_derivation o)) /\
  (forall d, unflagged <$> t_anchors (gs_db s') !! d = unflagged <$> t_anchors (gs_db s) !! d /\ ~ orphan_id s cutoff d \/
             t_anchors (gs_db s') !! d = None /\ orphan_id s cutoff d) /\
  (forall h, reclaimed s cutoff h -> t_cached_paths (gs_db s') !! h = None /\
             gs_nars s' !! h = if delete_fails h then gs_nars s !! h else None) /\
  (forall h, ~ reclaimed s cutoff h -> gs_nars s' !! h = gs_nars s !! h /\
             cp_file_hash <$> t_cached_paths (gs_db s') !! h = cp_file_hash <$> t_cached_paths (gs_db s) !! h).
Proof. intros Hnd. by destruct (orphan_sweep s cutoff Hnd). Qed.

End orphans.
