(* ===== verification/GcFacts.v ===== *)
(** * Files, rows and flags under garbage collection

    The passes over stored files, cached paths and blobs: what they keep, that they leave no
    mark untrue, how much the evaluator caches are cut back - and the cases in which a pass
    and the rest of the server get in each other's way. *)

From S2P Require Import Prelude RustStr Status Fixpoints ScoreContext StorePath JobData EdgeStream BuildGraph Promotion Transitions Healing EvalResult Gc GcSweep.

(** ** Rows and objects *)

Section files.
Context `{Chrono} (delete_fails : string -> bool).
Implicit Types (s : GcStore) (t : Db) (d : DerivationId).

(** Whether the file pass leaves an object alone. *)
Definition spared (keep : gset string) (cutoff : Z) (h : string) (modified : Z) : Prop :=
  h ∈ keep \/ (cutoff <= modified)%Z \/ delete_fails h = true.

Lemma remove_orphan_db keep cutoff acc x : gs_db (remove_orphan delete_fails keep cutoff acc x).1 = gs_db acc.1.
Proof. unfold remove_orphan, delete_nar. destruct (_ || _); [done|]. by destruct (delete_fails x.1). Qed.

Lemma remove_orphan_nars keep cutoff acc x h :
  gs_nars (remove_orphan delete_fails keep cutoff acc x).1 !! h = gs_nars acc.1 !! h \/
  h = x.1 /\ ~ spared keep cutoff h x.2 /\ gs_nars (remove_orphan delete_fails keep cutoff acc x).1 !! h = None.
Proof.
  unfold remove_orphan, delete_nar, spared. destruct (_ || _) eqn:Ho; [by left|].
  apply orb_false_iff in Ho as [Hk%bool_decide_eq_false Hm%Z.leb_gt]. destruct (delete_fails x.1) eqn:Hx; [by left|].
  simpl. destruct (decide (x.1 = h)) as [<-|Hne]; [right|left; by apply lookup_delete_ne].
  split; [done|]. split; [|apply lookup_delete_eq]. intros [?|[?|?]]; [done|lia|congruence].
Qed.

Lemma remove_orphan_takes keep cutoff acc h m : ~ spared keep cutoff h m ->
  gs_nars (remove_orphan delete_fails keep cutoff acc (h, m)).1 !! h = None.
Proof.
  unfold remove_orphan, delete_nar, spared. cbn [fst snd]. intros Hs. destruct (_ || _) eqn:Ho.
  { apply orb_true_iff in Ho as [Hk%bool_decide_eq_true|Hm%Z.leb_le]; tauto. }
  destruct (delete_fails h) eqn:Hx; [tauto|]. simpl. apply lookup_delete_eq.
Qed.

Lemma remove_orphans keep cutoff l : forall acc,
  gs_db (foldl (remove_orphan delete_fails keep cutoff) acc l).1 = gs_db acc.1 /\
  forall h, (gs_nars acc.1 !! h = None -> gs_nars (foldl (remove_orphan delete_fails keep cutoff) acc l).1 !! h = None) /\
    ((forall m, (h, m) ∈ l -> spared keep cutoff h m) ->
       gs_nars (foldl (remove_orphan delete_fails keep cutoff) acc l).1 !! h = gs_nars acc.1 !! h) /\
    ((exists m, (h, m) ∈ l /\ ~ spared keep cutoff h m) ->
       gs_nars (foldl (remove_orphan delete_fails keep cutoff) acc l).1 !! h = None).
Proof.
  induction l as [|[x mx] l IH]; intros acc; cbn [foldl].
  { split; [done|]. intros h. split_and!; [done|done|]. intros (m & Hm & _). by apply elem_of_nil in Hm. }
  destruct (IH (remove_orphan delete_fails keep cutoff acc (x, mx))) as [Hdb Hn]. clear IH. split.
  { rewrite Hdb. apply remove_orphan_db. }
  intros h. destruct (Hn h) as (Hnone & Hkeep & Htake). clear Hn Hdb.
  pose proof (remove_orphan_nars keep cutoff acc (x, mx) h) as Hstep. split_and!.
  - intros Ha. apply Hnone. destruct Hstep as [->|(_ & _ & ?)]; done.
  - intros Hs. rewrite Hkeep by (intros m Hm; apply Hs; by right). destruct Hstep as [->|(-> & Hn & _)]; [done|].
    exfalso. apply Hn, Hs. by left.
  - intros (m & [[= -> ->]|Hm]%elem_of_cons & Hn); [by apply Hnone, remove_orphan_takes|]. apply Htake. by exists m.
Qed.

Lemma elem_of_zombies s on_disk h :
  h ∈ zombie_rows s on_disk <-> hash_cached (gs_db s) h = true /\ h ∉ on_disk.
Proof.
  unfold zombie_rows, hash_cached. rewrite list_elem_of_fmap. split.
  - intros ([h' cp] & -> & Hin). apply list_elem_of_In, filter_In in Hin as [Hin Hf]. rewrite <- list_elem_of_In in Hin.
    apply elem_of_map_to_list in Hin. apply andb_true_iff in Hf as [Hc Hd%negb_true_iff%bool_decide_eq_false]. cbn [fst snd] in *. by rewrite Hin.
  - intros [Hc Hd]. destruct (t_cached_paths (gs_db s) !! h) as [cp|] eqn:E; [|done]. exists (h, cp). split; [done|].
    apply list_elem_of_In, filter_In. rewrite <- list_elem_of_In, elem_of_map_to_list. split; [done|]. cbn [fst snd].
    by rewrite Hc, bool_decide_eq_false_2.
Qed.

Lemma purge_batches_purged bs : forall i s, purged s (concat bs) (purge_batches alone i s bs).1.
Proof.
  induction bs as [|hs bs IH]; intros i s; cbn [purge_batches concat]; [apply purged_nil|].
  change (alone (AtPurge i) s) with s. unfold purge_batch. cbv beta iota.
  pose proof (IH (S i) (clear_flags (delete_path_rows s (list_to_set hs)) hs)) as Hp.
  destruct (purge_batches _ _ _ bs). by apply purged_step.
Qed.

Lemma cached_kept t h : hash_cached t h = true -> h ∈ active_hashes t.
Proof.
  unfold hash_cached, active_hashes. intros Hc. destruct (t_cached_paths t !! h) as [cp|] eqn:E; [|done].
  apply elem_of_list_to_set, elem_of_app. right. apply elem_of_app. left. apply list_elem_of_fmap. exists (h, cp). split; [done|].
  apply list_elem_of_In, filter_In. rewrite <- list_elem_of_In, elem_of_map_to_list. by split.
Qed.

(** The whole pass alone, in terms of what it found. *)
Lemma file_pass s now_secs grace :
  let s' := (cleanup_orphaned_cache_files delete_fails alone s now_secs grace).1 in
  (forall h m, gs_nars s' !! h = Some m <->
     gs_nars s !! h = Some m /\ spared (active_hashes (gs_db s)) (grace_cutoff now_secs grace) h m) /\
  (forall h, cp_file_hash <$> t_cached_paths (gs_db s') !! h =
     if hash_cached (gs_db s) h && bool_decide (gs_nars s !! h = None) then None
     else cp_file_hash <$> t_cached_paths (gs_db s) !! h).
Proof.
  unfold cleanup_orphaned_cache_files. change (alone AtListing s) with s. change (alone AtOrphans s) with s. cbv zeta.
  set (on_disk := map_to_list (gs_nars s)).
  destruct (remove_orphans (active_hashes (gs_db s)) (grace_cutoff now_secs grace) on_disk (s, 0)) as [Hdb Hn].
  destruct (foldl _ _ on_disk) as [s1 removed]. cbn [fst] in *. unfold purge_zombie_cached_paths.
  change (alone AtRowLoad s1) with s1. cbv zeta. set (zs := zombie_rows s1 _).
  assert (Hz : forall h, h ∈ zs <-> hash_cached (gs_db s) h = true /\ gs_nars s !! h = None).
  { intros h. unfold zs. rewrite elem_of_zombies, Hdb, elem_of_list_to_set, list_elem_of_fmap. unfold on_disk. split.
    - intros [Hc Hnot]. split; [done|]. destruct (gs_nars s !! h) as [m|] eqn:E; [|done]. destruct Hnot. exists (h, m).
      by rewrite elem_of_map_to_list.
    - intros [Hc Hnone]. split; [done|]. intros ([h' m] & -> & Hin%elem_of_map_to_list). cbn [fst] in Hnone. congruence. }
  pose proof (purge_batches_purged (chunks ZOMBIE_DELETE_BATCH zs) 0 s1) as [Hp _ _ Hnar].
  rewrite concat_chunks in Hp by done. destruct (purge_batches _ 0 s1 _) as [s2 n]. cbn [fst] in *. split.
  - intros h m. rewrite Hnar. destruct (Hn h) as (_ & Hkeep & Htake). unfold on_disk in *.
    setoid_rewrite elem_of_map_to_list in Hkeep. setoid_rewrite elem_of_map_to_list in Htake.
    assert (Hdec : forall m, spared (active_hashes (gs_db s)) (grace_cutoff now_secs grace) h m \/
                             ~ spared (active_hashes (gs_db s)) (grace_cutoff now_secs grace) h m).
    { intros m'. unfold spared. destruct (decide (h ∈ active_hashes (gs_db s))), (Z.le_gt_cases (grace_cutoff now_secs grace) m'),
        (delete_fails h); try tauto. right. intros [?|[?|?]]; [done|lia|done]. }
    destruct (gs_nars s !! h) as [m0|] eqn:E.
    + destruct (Hdec m0) as [Hs|Hs].
      * rewrite Hkeep by (intros ? [= <-]; done). split; [intros [= <-]; by split|by intros [? _]].
      * rewrite Htake by by exists m0. split; [done|]. intros [[= <-] ?]. done.
    + rewrite Hkeep by done. split; [done|]. by intros [? _].
  - intros h. rewrite Hp, Hdb. destruct (decide (h ∈ zs)) as [Hin|Hin]; rewrite Hz in Hin.
    + destruct Hin as [-> Hnone]. by rewrite bool_decide_eq_true_2.
    + destruct (hash_cached (gs_db s) h); [|done]. rewrite bool_decide_eq_false_2; [done|]. intros ?. tauto.
Qed.

Lemma hash_cached_files t h : hash_cached t h = true <-> exists x, cp_file_hash <$> t_cached_paths t !! h = Some (Some x).
Proof.
  unfold hash_cached. destruct (t_cached_paths t !! h) as [[[x|] c]|]; simpl; split; try done; eauto; by intros [? ?].
Qed.


(** ** Where the passes and the server meet *)

(** An upload that stores the object and records the path. *)
Definition upload (h : string) (m : Z) (cp : CachedPathRow) s : GcStore :=
  gs_with_nars (gs_with_db s (set_cached_paths (gs_db s) (<[h := cp]> (t_cached_paths (gs_db s))))) (<[h := m]> (gs_nars s)).

Definition uploads_at_load (h : string) (m : Z) (cp : CachedPathRow) (p : GcPoint) s : GcStore :=
  match p with AtRowLoad => upload h m cp s | _ => s end.

(** [uploads_at_load] only acts before the rows are loaded. *)
Lemma purge_batches_at_load h m cp bs : forall i s,
  purge_batches (uploads_at_load h m cp) i s bs = purge_batches alone i s bs.
Proof.
  induction bs as [|hs bs IH]; intros i s; cbn [purge_batches]; [done|].
  change (uploads_at_load h m cp (AtPurge i) s) with (alone (AtPurge i) s). destruct (purge_batch _ hs) as [s1 n]. by rewrite IH.
Qed.

(** The pass over the stored files lists the objects before it loads the rows: a path
    uploaded in between - object stored, row committed - has its row and its signatures
    purged as those of a missing NAR, while the NAR is there. *)
Theorem purge_forgets_upload s h m cp now_secs grace :
  gs_nars s !! h = None -> is_Some (cp_file_hash cp) ->
  let s' := (cleanup_orphaned_cache_files delete_fails (uploads_at_load h m cp) s now_secs grace).1 in
  gs_nars s' !! h = Some m /\ t_cached_paths (gs_db s') !! h = None.
Proof.
  intros Hnone [fh Hfh]. unfold cleanup_orphaned_cache_files.
  change (uploads_at_load h m cp AtListing s) with s. change (uploads_at_load h m cp AtOrphans s) with s. cbv zeta.
  set (on_disk := map_to_list (gs_nars s)).
  destruct (remove_orphans (active_hashes (gs_db s)) (grace_cutoff now_secs grace) on_disk (s, 0)) as [Hdb _].
  destruct (foldl _ _ on_disk) as [s1 removed]. cbn [fst] in *. unfold purge_zombie_cached_paths.
  change (uploads_at_load h m cp AtRowLoad s1) with (upload h m cp s1). cbv zeta. rewrite purge_batches_at_load.
  set (zs := zombie_rows _ _).
  assert (Hz : h ∈ zs).
  { unfold zs. rewrite elem_of_zombies. split.
    - unfold hash_cached. simpl. rewrite lookup_insert_eq. by rewrite Hfh.
    - rewrite elem_of_list_to_set, list_elem_of_fmap. intros ([h' m'] & -> & Hin%elem_of_map_to_list). cbn [fst] in Hnone. congruence. }
  pose proof (purge_batches_purged (chunks ZOMBIE_DELETE_BATCH zs) 0 (upload h m cp s1)) as [Hp _ _ Hnar].
  rewrite concat_chunks in Hp by done. destruct (purge_batches _ 0 _ _) as [s2 n]. cbn [fst] in *. split.
  - rewrite Hnar. simpl. apply lookup_insert_eq.
  - specialize (Hp h). rewrite decide_True in Hp by done. by apply fmap_None in Hp.
Qed.

(** A path no derivation has as its output. *)
Definition no_output t h : Prop := outputs_with_hash t h = [].

(** ** Sources *)

(** The sweep asks whether a surviving derivation has the path as its output, not whether
    one needs it as an input source: a source of a live derivation that a collected
    derivation - a fetcher, say - also produced is deleted with its row, and the live
    derivation is no longer ready. *)
Theorem sweep_takes_live_source s cutoff d h :
  NoDup (map dr_id (t_derivations (gs_db s))) -> reclaimed s cutoff h -> delete_fails h = false ->
  d ∈ reachable_derivations_cte (gs_db s) -> h ∈ sources_of (gs_db s) d ->
  let s' := gc_orphan_derivations delete_fails alone s cutoff in
  gs_nars s' !! h = None /\ hash_cached (gs_db s') h = false /\
  h ∈ sources_of (gs_db s') d /\ deps_ready_predicate (gs_db s') d = false.
Proof.
  intros Hnd Hr Hf Hd Hs. cbv zeta. pose proof (orphan_sweep delete_fails s cutoff Hnd) as Hsw.
  set (s' := gc_orphan_derivations delete_fails alone s cutoff) in *. destruct (sr_taken _ _ _ _ Hsw h Hr) as [Hp Hn].
  rewrite Hf in Hn. assert (Hc : hash_cached (gs_db s') h = false) by (unfold hash_cached; by rewrite Hp).
  assert (Hsrc : forall t x, x ∈ sources_of t d <-> (d, x) ∈ t_input_sources t).
  { intros t x. unfold sources_of. rewrite list_elem_of_fmap. split.
    - intros ([d' x'] & -> & Hin). apply list_elem_of_In, filter_In in Hin as [Hin Heq%N.eqb_eq]. cbn [fst snd] in *. subst. by apply list_elem_of_In.
    - intros Hin. exists (d, x). split; [done|]. apply list_elem_of_In, filter_In. cbn [fst]. rewrite N.eqb_refl. by rewrite <- list_elem_of_In. }
  assert (Hs' : h ∈ sources_of (gs_db s') d).
  { rewrite Hsrc in Hs |- *. apply (sr_sources _ _ _ _ Hsw). split; [done|]. intros Ho. by apply orphan_has_row in Ho as [_ Ho]. }
  split_and!; [done..|]. unfold deps_ready_predicate. apply andb_false_iff. right. apply not_true_iff_false.
  rewrite forallb_forall. intros Hall. apply list_elem_of_In in Hs'. apply Hall in Hs'. congruence.
Qed.

(** A path that was neither an output nor a [.drv] of a collected derivation stays with its
    row, whether or not anything still needs it - and the file pass keeps what has a row. *)
Theorem orphaned_source_stays s cutoff h now_secs grace :
  NoDup (map dr_id (t_derivations (gs_db s))) -> hash_cached (gs_db s) h = true -> is_Some (gs_nars s !! h) ->
  no_output (gs_db s) h -> (forall r, r ∈ t_derivations (gs_db s) -> dr_hash r <> h) ->
  let s' := (cleanup_orphaned_cache_files delete_fails alone (gc_orphan_derivations delete_fails alone s cutoff) now_secs grace).1 in
  is_Some (gs_nars s' !! h).
Proof.
  intros Hnd Hc [m Hm] Hno Hdrv. cbv zeta.
  assert (Hnr : ~ reclaimed s cutoff h).
  { intros [[(o & Ho & Hh & _) _]|[(r & [Hr _] & Hh) _]]; [|by apply (Hdrv r)].
    assert (Hin : o ∈ outputs_with_hash (gs_db s) h).
    { apply list_elem_of_In, filter_In. split; [by apply list_elem_of_In|]. by apply String.eqb_eq. }
    rewrite Hno in Hin. by apply elem_of_nil in Hin. }
  destruct (sr_left _ _ _ _ (orphan_sweep delete_fails s cutoff Hnd) h Hnr) as [Hn Hf]. exists m. apply file_pass. rewrite Hn. split; [done|].
  left. apply cached_kept. by rewrite (hash_cached_ext _ _ _ Hf).
Qed.

(** ** The time-to-live pass *)

Definition row_in (r : CacheDerivationRow) s : Prop := r ∈ gs_cache_derivations s.

Lemma evict_stale_rows s row r : row_in r (evict_stale delete_fails s row) <-> row_in r s /\ cd_id r <> cd_id row.
Proof.
  assert (Hf : r ∈ List.filter (fun r => negb (N.eqb (cd_id r) (cd_id row))) (gs_cache_derivations s) <-> row_in r s /\ cd_id r <> cd_id row).
  { rewrite list_elem_of_In, filter_In, <- list_elem_of_In, negb_true_iff, N.eqb_neq. done. }
  unfold row_in at 1, evict_stale. cbv zeta.
  assert (Hif : forall (b : bool) x hs, gs_cache_derivations (if b then x else delete_nars delete_fails x hs) = gs_cache_derivations x).
  { intros [] x hs; [done|]. by rewrite delete_nars_rest. }
  rewrite Hif. clear Hif. destruct (map or_hash _); exact Hf.
Qed.

(** What a successful build put into a cache never expires: the pass skips every derivation
    whose anchor did not fail, and an anchor outlives the evaluations that built it. *)
Theorem ttl_spares_built s cutoff ttl r d :
  cd_derivation r = d -> live_anchor (gs_db s) d = true -> row_in r s ->
  (forall r', row_in r' s -> cd_id r' = cd_id r -> r' = r) ->
  row_in r (cleanup_stale_cached_nars delete_fails s cutoff ttl).
Proof.
  intros Hd Hl Hr Hu. unfold cleanup_stale_cached_nars. destruct (_ =? _)%Z; [done|].
  assert (Hst : forall r', r' ∈ stale_cached_nars s cutoff -> cd_id r <> cd_id r').
  { intros r' Hin He. apply list_elem_of_In, filter_In in Hin as [Hin Hf]. rewrite <- list_elem_of_In in Hin.
    rewrite (Hu r' Hin) in Hf by done. rewrite Hd, Hl in Hf. by rewrite andb_false_r in Hf. }
  clear Hu. revert Hst. generalize (stale_cached_nars s cutoff). clear Hl. intros l. revert s Hr.
  induction l as [|x l IH]; intros s Hr Hst; cbn [foldl]; [done|]. apply IH.
  - apply evict_stale_rows. split; [done|]. apply Hst. by left.
  - intros r' Hin. apply Hst. by right.
Qed.

(** The pass decides by the rows of [cache_derivation] whether an object is still held: an
    object another cache signs, without such a row, is deleted under its signature. *)
Theorem ttl_takes_signed_nar s cutoff ttl row h cache :
  (ttl <> 0)%Z -> stale_cached_nars s cutoff = [row] -> h ∈ map or_hash (outputs_of (gs_db s) (cd_derivation row)) ->
  signed_by s h cache = true -> cache <> cd_cache row -> hash_cached (gs_db s) h = true -> delete_fails h = false ->
  (forall r, row_in r s -> cd_derivation r = cd_derivation row -> cd_id r = cd_id row) ->
  let s' := cleanup_stale_cached_nars delete_fails s cutoff ttl in
  hash_cached (gs_db s') h = true /\ gs_nars s' !! h = None.
Proof.
  intros Ht Hst Hh Hsig Hne Hc Hf Hone. cbv zeta. unfold cleanup_stale_cached_nars.
  rewrite (proj2 (Z.eqb_neq ttl 0)), Hst by done. cbn [foldl]. unfold evict_stale. cbv zeta.
  destruct (map or_hash (outputs_of (gs_db s) (cd_derivation row))) as [|x xs] eqn:E; [by apply elem_of_nil in Hh|].
  match goal with |- context [existsb ?f ?l] => assert (Hex : existsb f l = false) end.
  { apply not_true_iff_false. rewrite existsb_exists. intros (r & Hin & Hd%N.eqb_eq).
    cbn [clear_flags gs_with_db gs_cache_derivations delete_path_rows gs_with_signatures gs_with_cache_derivations] in Hin.
    apply filter_In in Hin as [Hin Hi%negb_true_iff%N.eqb_neq]. apply Hi, Hone; [by apply list_elem_of_In|done]. }
  rewrite Hex. clear Hex. set (s1 := gs_with_signatures _ _). set (dropped := unsigned_rows s1 (x :: xs)).
  assert (Hnd : h ∉ dropped).
  { unfold dropped, unsigned_rows. rewrite list_elem_of_In, filter_In. intros [_ Hb].
    apply andb_true_iff in Hb as [_ Hb%negb_true_iff]. apply not_true_iff_false in Hb. apply Hb, existsb_exists.
    unfold signed_by in Hsig. apply existsb_exists in Hsig as ([g gc] & Hin & Hg). cbn [fst snd] in Hg.
    apply andb_true_iff in Hg as [Hg%String.eqb_eq Hgc%N.eqb_eq]. subst. exists (h, cache). cbn [fst]. rewrite String.eqb_refl. split; [|done].
    cbn [s1 gs_with_signatures gs_signatures]. apply filter_In. split; [done|]. cbn [fst snd].
    by rewrite (proj2 (N.eqb_neq cache (cd_cache row))). }
  split.
  - rewrite delete_nars_rest. cbn [gs_with_nars gs_db clear_flags gs_with_db].
    rewrite (hash_cached_ext _ _ _ (gf_files _ _ (clear_gate_frame _ _) h)). rewrite <- Hc. apply hash_cached_ext.
    rewrite delete_path_rows_lookup, decide_False by by rewrite elem_of_list_to_set. done.
  - rewrite delete_nars_lookup. by rewrite decide_True.
Qed.

(** ** Uploads of a build request *)

Definition registers (b : BlobRow) (p : GcPoint) s : GcStore :=
  match p with AtBlobs => gs_with_blobs s (b :: gs_blob_rows s) (gs_blobs s) | _ => s end.

(** The deep sweep has no grace: a blob stored before the listing whose row is inserted after
    the rows were read is deleted, and the row - which says it need not be sent again - stays. *)
Theorem blob_pass_takes_upload blob_delete_fails blob_probe_fails s b :
  blob_key b ∈ gs_blobs s -> (forall r, r ∈ gs_blob_rows s -> blob_key r <> blob_key b /\ br_id r <> br_id b) ->
  blob_delete_fails (blob_key b) = false ->
  let s' := (pass_blobs blob_delete_fails blob_probe_fails (registers b) s).1 in
  blob_key b ∉ gs_blobs s' /\ b ∈ gs_blob_rows s'.
Proof.
  intros Hb Hrows Hf. unfold pass_blobs. change (registers b AtBlobRows s) with s. cbv zeta.
  set (rows := List.filter well_formed_blob (gs_blob_rows s)).
  assert (Hr : forall r, r ∈ rows -> r ∈ gs_blob_rows s) by (intros r; unfold rows; rewrite !list_elem_of_In, filter_In; tauto).
  change (registers b AtBlobs s) with (gs_with_blobs s (b :: gs_blob_rows s) (gs_blobs s)).
  set (s1 := gs_with_blobs s (b :: gs_blob_rows s) (gs_blobs s)). cbn [fst]. set (zs := List.filter _ (List.filter _ rows)).
  assert (Hz : forall r, r ∈ zs -> br_id r <> br_id b).
  { intros r. unfold zs. rewrite list_elem_of_In, !filter_In, <- list_elem_of_In. intros [[Hin _] _]. by apply Hrows, Hr. }
  assert (Hin : b ∈ gs_blob_rows s1) by by left. clearbody s1 zs. split; cbn [gs_with_blobs gs_blobs gs_blob_rows].
  - assert (Ho : blob_key b ∈ elements (gs_blobs s ∖ list_to_set (map blob_key rows))).
    { rewrite elem_of_elements, elem_of_difference. split; [done|].
      rewrite elem_of_list_to_set, list_elem_of_fmap. intros (r & Hk & Hrin). by apply (proj1 (Hrows r (Hr r Hrin))). }
    assert (Hgone : forall l X, blob_key b ∉ X -> blob_key b ∉ foldl (remove_blob blob_delete_fails) X l).
    { induction l as [|k l IH]; intros X HX; cbn [foldl]; [done|]. apply IH. unfold remove_blob. destruct (blob_delete_fails k); set_solver. }
    clear Hrows Hr Hz Hin. revert Ho. generalize (elements (gs_blobs s ∖ list_to_set (map blob_key rows))) (gs_blobs (foldl remove_blob_row s1 zs)).
    induction l as [|k l IH]; intros X Ho; cbn [foldl]; [by apply elem_of_nil in Ho|].
    apply elem_of_cons in Ho as [<-|Ho]; [|by apply IH]. apply Hgone. unfold remove_blob. rewrite Hf. set_solver.
  - revert s1 Hin. induction zs as [|z zs IH]; intros s1 Hin; cbn [foldl]; [done|]. apply IH; [intros r Hx; apply Hz; by right|].
    cbn [remove_blob_row gs_with_blobs gs_blob_rows]. apply list_elem_of_In, filter_In. split; [by apply list_elem_of_In|].
    apply negb_true_iff, N.eqb_neq. intros He. by apply (Hz z); [left|].
Qed.

(** ** Deleting one path *)

Context (probe_fails : string -> bool).

(** Its stored NAR and its row stay: only the outputs - there are none - are touched. *)
Lemma demote_preserves s now h :
  no_output (gs_db s) h -> is_Some (gs_nars s !! h) ->
  exists l, demote delete_fails probe_fails s now h = (gs_with_db s (set_outputs (gs_db s) l), []).
Proof.
  intros Hno Hn. unfold demote, demote_cached_output. rewrite Hno. cbn [map].
  assert (Hp : default true (nar_exists probe_fails s h) = true).
  { unfold nar_exists. destruct (probe_fails h); [done|]. by apply bool_decide_eq_true. }
  unfold preserve_missing_artifact. rewrite Hp. simpl. by eexists.
Qed.

(** Flag clearing up the reference chain leaves rows. *)
Lemma clear_worklist_files fuel : forall t seen work h,
  cp_file_hash <$> t_cached_paths (clear_worklist fuel t seen work) !! h = cp_file_hash <$> t_cached_paths t !! h.
Proof.
  assert (Hone : forall t work r h, cp_file_hash <$> t_cached_paths (clear_referrer (t, work) r).1 !! h = cp_file_hash <$> t_cached_paths t !! h).
  { intros t work r h. unfold clear_referrer. destruct (hash_closure_complete t r); [|done]. simpl.
    destruct (decide (r = h)) as [->|Hne]; [rewrite lookup_alter_eq|by rewrite lookup_alter_ne]. by destruct (t_cached_paths t !! h). }
  assert (Hall : forall rs t work h, cp_file_hash <$> t_cached_paths (foldl clear_referrer (t, work) rs).1 !! h = cp_file_hash <$> t_cached_paths t !! h).
  { induction rs as [|r rs IH]; intros t work h; cbn [foldl]; [done|]. rewrite <- (Hone t work r h).
    destruct (clear_referrer (t, work) r) as [t1 w1]. apply IH. }
  induction fuel as [|fuel IH]; intros t seen work h; simpl; [by destruct work|]. destruct work as [|x work]; [done|].
  case_bool_decide; [apply IH|]. rewrite <- (Hall (referrers_of_hash t x) t work h).
  destruct (foldl clear_referrer (t, work) _) as [t1 w1]. apply IH.
Qed.

(** C34. A path uploaded to a cache - no derivation has it as its output - cannot be deleted:
    the endpoint answers that it is gone from the last cache, and the row of the path, its
    object and their place in the keep-set of the file pass are as before. *)
Theorem deleted_upload_stays s now cache h :
  no_output (gs_db s) h -> is_Some (gs_nars s !! h) -> hash_cached (gs_db s) h = true -> signed_by s h cache = true ->
  (forall c, signed_by s h c = true -> c = cache) ->
  exists s', delete_nar_from_cache delete_fails probe_fails true s now cache h = (s', Ok {| ref_counted_others := false |}) /\
    gs_nars s' = gs_nars s /\ hash_cached (gs_db s') h = true /\ (forall c, signed_by s' h c = false) /\
    forall now_secs grace, gs_nars (cleanup_orphaned_cache_files delete_fails alone s' now_secs grace).1 !! h = gs_nars s !! h.
Proof.
  intros Hno Hn Hc Hsig Honly. unfold delete_nar_from_cache.
  destruct (t_cached_paths (gs_db s) !! h) as [cp|] eqn:E; [|unfold hash_cached in Hc; by rewrite E in Hc].
  rewrite Hsig. cbn [negb]. cbv zeta.
  set (s1 := gs_with_cache_derivations _ _).
  assert (Hsigs : forall c, signed_by s1 h c = false).
  { intros c. unfold signed_by. apply not_true_iff_false. rewrite existsb_exists. intros ([g gc] & Hin & Hg).
    cbn [s1 gs_with_cache_derivations gs_with_signatures gs_signatures] in Hin. apply filter_In in Hin as [Hin Hne].
    cbn [fst snd] in *. apply andb_true_iff in Hg as [Hg%String.eqb_eq Hgc%N.eqb_eq]. subst.
    assert (gc' : signed_by s h c = true).
    { unfold signed_by. apply existsb_exists. exists (h, c). split; [done|]. cbn [fst snd]. by rewrite String.eqb_refl, N.eqb_refl. }
    apply Honly in gc'. subst. by rewrite String.eqb_refl, N.eqb_refl in Hne. }
  assert (Hrem : existsb (fun g => String.eqb g.1 h) (gs_signatures s1) = false).
  { apply not_true_iff_false. rewrite existsb_exists. intros ([g gc] & Hin & Hg). specialize (Hsigs gc).
    unfold signed_by in Hsigs. apply not_true_iff_false in Hsigs. apply Hsigs, existsb_exists. exists (g, gc). split; [done|].
    cbn [fst snd] in *. by rewrite Hg, N.eqb_refl. }
  rewrite Hrem. cbn [transact]. destruct (demote_preserves s1 now h Hno Hn) as [l Hdem]. rewrite Hdem. cbn [fst].
  set (s2 := gs_with_db s1 _). set (s3 := clear_flags s2 [h]).
  assert (Hfile : cp_file_hash <$> t_cached_paths (clear_closure_complete_for_referrers (gs_db s3) h) !! h = cp_file_hash <$> t_cached_paths (gs_db s) !! h).
  { unfold clear_closure_complete_for_referrers. rewrite clear_worklist_files.
    unfold s3, clear_flags. cbn [gs_with_db gs_db]. by rewrite (gf_files _ _ (clear_gate_frame _ _)). }
  eexists. split; [done|]. split_and!.
  - done.
  - cbn [gs_with_db gs_db]. by rewrite (hash_cached_ext _ _ _ Hfile).
  - intros c. unfold signed_by. apply Hsigs.
  - intros now_secs grace. destruct Hn as [m Hm]. rewrite Hm. apply file_pass.
    split; [done|]. left. apply cached_kept. cbn [gs_with_db gs_db]. by rewrite (hash_cached_ext _ _ _ Hfile).
Qed.

(** A deletion whose transaction does not commit reports the error and leaves every row, with
    the object already gone. *)
Theorem failed_delete_takes_nar s now cache h :
  outputs_with_hash (gs_db s) h <> [] -> is_Some (t_cached_paths (gs_db s) !! h) -> signed_by s h cache = true ->
  (forall c, signed_by s h c = true -> c = cache) -> delete_fails h = false ->
  exists s', delete_nar_from_cache delete_fails probe_fails false s now cache h = (s', Err DeleteDbError) /\
    gs_db s' = gs_db s /\ gs_signatures s' = gs_signatures s /\ gs_nars s' !! h = None.
Proof.
  intros Hout [cp Hcp] Hsig Honly Hf. unfold delete_nar_from_cache. rewrite Hcp, Hsig. cbn [negb]. cbv zeta.
  set (s1 := gs_with_cache_derivations _ _).
  assert (Hrem : existsb (fun g => String.eqb g.1 h) (gs_signatures s1) = false).
  { apply not_true_iff_false. rewrite existsb_exists. intros ([g gc] & Hin & Hg).
    cbn [s1 gs_with_cache_derivations gs_with_signatures gs_signatures] in Hin. apply filter_In in Hin as [Hin Hne].
    cbn [fst snd] in *. apply String.eqb_eq in Hg. subst. rewrite String.eqb_refl in Hne.
    assert (Hgc : gc = cache); [|by subst; rewrite N.eqb_refl in Hne].
    apply Honly, existsb_exists. exists (h, gc). split; [done|]. cbn [fst snd]. by rewrite String.eqb_refl, N.eqb_refl. }
  rewrite Hrem. cbn [transact]. eexists. split; [done|]. split_and!; [done|done|].
  cbn [gs_with_nars gs_nars gs_with_db clear_flags]. unfold demote, demote_cached_output.
  change (outputs_with_hash (gs_db s1) h) with (outputs_with_hash (gs_db s) h).
  destruct (outputs_with_hash (gs_db s) h) as [|o os]; [done|]. cbn [map preserve_missing_artifact negb andb fst].
  unfold delete_nar. rewrite Hf. apply lookup_delete_eq.
Qed.

End files.

(** ** The closure flags of the cached paths *)

Section flags.
Context `{Chrono} (delete_fails : string -> bool) (others : GcPoint -> GcStore -> GcStore).
Implicit Types (s : GcStore) (t : Db).

(** A path marked complete is stored, and so is, marked complete, every path it refers to. *)
Definition paths_sound t : Prop := forall h, hash_closure_complete t h = true -> CACHED_PATH_CLOSURE_COMPLETE_GATE t h = true.

(** The same, but for references into [pending]. *)
Definition sound_but t (pending : list string) : Prop := forall h, hash_closure_complete t h = true ->
  hash_cached t h = true /\ forall r, (h, r) ∈ t_references t ->
    r = h \/ r ∈ pending \/ hash_cached t r = true /\ hash_closure_complete t r = true.

Lemma sound_but_nil t : sound_but t [] <-> paths_sound t.
Proof.
  unfold sound_but, paths_sound, CACHED_PATH_CLOSURE_COMPLETE_GATE, references_of. apply forall_proper. intros h.
  assert (Hw : forall r, reference_whole t h r = true <-> r = h \/ hash_cached t r = true /\ hash_closure_complete t r = true).
  { intros r. unfold reference_whole, hash_cached, hash_closure_complete. rewrite orb_true_iff, String.eqb_eq.
    destruct (t_cached_paths t !! r); [by rewrite andb_true_iff|]. split; [intros [?|?]; [by left|done]|intros [?|[? ?]]; [by left|done]]. }
  assert (Hin : forall r, In r (map snd (List.filter (fun r => String.eqb r.1 h) (t_references t))) <-> (h, r) ∈ t_references t).
  { intros r. rewrite in_map_iff. split.
    - intros ([h' r'] & <- & [Hin Heq%String.eqb_eq]%filter_In). cbn [fst snd] in *. subst. by apply list_elem_of_In.
    - intros Hin. exists (h, r). split; [done|]. apply filter_In. cbn [fst]. rewrite String.eqb_refl. by rewrite <- list_elem_of_In. }
  setoid_rewrite andb_true_iff. setoid_rewrite forallb_forall. setoid_rewrite Hin. setoid_rewrite Hw.
  split; intros Hh Hc; destruct (Hh Hc) as [Hc1 Hr]; (split; [done|]); intros r Hrr; specialize (Hr r Hrr); [|tauto].
  destruct Hr as [?|[Hn|?]]; [tauto| |tauto]. by apply elem_of_nil in Hn.
Qed.

Definition dirtied t : relation string := fun h r => (r, h) ∈ t_references t /\ hash_closure_complete t r = true.

Lemma dirty_spec t hs h : h ∈ dirty_hashes t hs <-> exists x, x ∈ hs /\ rtc (dirtied t) x h.
Proof.
  assert (Hstep : forall work y, y ∈ dirty_step t work <-> exists x, x ∈ work /\ dirtied t x y).
  { intros work y. unfold dirty_step, dirtied. rewrite elem_of_list_to_set, list_elem_of_fmap. split.
    - intros ([r x] & -> & Hin). apply list_elem_of_In, filter_In in Hin as [Hin Hf]. rewrite <- list_elem_of_In in Hin.
      apply andb_true_iff in Hf as [Hx%bool_decide_eq_true Hc]. cbn [fst snd] in *. by exists x.
    - intros (x & Hx & Hin & Hc). exists (y, x). split; [done|]. apply list_elem_of_In, filter_In. rewrite <- list_elem_of_In. split; [done|].
      cbn [fst snd]. by rewrite bool_decide_eq_true_2, Hc. }
  unfold dirty_hashes. rewrite (recursive_query_spec (dirtied t)); [|done|].
  - by setoid_rewrite elem_of_list_to_set.
  - intros x y [Hin _]. apply elem_of_list_to_set, list_elem_of_fmap. by exists (y, x).
Qed.

Lemma dirty_up t hs h r : r ∈ dirty_hashes t hs -> (h, r) ∈ t_references t -> hash_closure_complete t h = true -> h ∈ dirty_hashes t hs.
Proof. rewrite !dirty_spec. intros (x & Hx & Hp) Hr Hc. exists x. split; [done|]. eapply rtc_r; [done|]. by split. Qed.

(** What the flag column is after one chunk. *)
Lemma chunk_complete t hs h :
  hash_closure_complete (clear_gate_flags_chunk t hs) h = hash_closure_complete t h && negb (bool_decide (h ∈ dirty_hashes t hs)).
Proof.
  unfold clear_gate_flags_chunk. cbv zeta. unfold hash_closure_complete at 1. cbn [set_cached_paths t_cached_paths update_where set_anchors].
  rewrite map_lookup_imap. unfold hash_closure_complete. destruct (t_cached_paths t !! h) as [cp|] eqn:E; [|done]. cbn [mbind option_bind].
  match goal with |- context [dirty_hashes ?u hs] => change (dirty_hashes u hs) with (dirty_hashes t hs) end.
  destruct (bool_decide (h ∈ dirty_hashes t hs)), (cp_closure_complete cp) eqn:Ec; simpl; by rewrite ?Ec.
Qed.

Lemma chunk_sound t hs rest : sound_but t (hs ++ rest) -> sound_but (clear_gate_flags_chunk t hs) rest.
Proof.
  intros Hs h Hc. pose proof (clear_gate_frame t hs) as _. rewrite chunk_complete in Hc.
  apply andb_true_iff in Hc as [Hc Hd%negb_true_iff%bool_decide_eq_false]. destruct (Hs h Hc) as [Hcached Hrefs].
  assert (Hsame : forall x, hash_cached (clear_gate_flags_chunk t hs) x = hash_cached t x).
  { intros x. apply hash_cached_ext. unfold clear_gate_flags_chunk. cbn [set_cached_paths t_cached_paths update_where set_anchors].
    rewrite map_lookup_imap. destruct (t_cached_paths t !! x); [|done]. simpl. by destruct (_ && _). }
  rewrite Hsame. split; [done|]. intros r Hr. change (t_references (clear_gate_flags_chunk t hs)) with (t_references t) in Hr.
  rewrite Hsame, chunk_complete. destruct (decide (r ∈ dirty_hashes t hs)) as [Hrd|Hrd]; [exfalso; apply Hd; by eapply dirty_up|].
  rewrite bool_decide_eq_false_2, andb_true_r by done.
  destruct (Hrefs r Hr) as [?|[Hin|?]]; [by left| |tauto]. apply elem_of_app in Hin as [Hin|?]; [|tauto].
  destruct Hrd. apply dirty_spec. exists r. by split.
Qed.

Lemma clear_sound t hs : sound_but t hs -> paths_sound (clear_gate_flags_for_hashes t hs).
Proof.
  unfold clear_gate_flags_for_hashes. rewrite <- (concat_chunks IN_CHUNK_SIZE hs) at 1 by done.
  generalize (chunks IN_CHUNK_SIZE hs). intros cs. revert t. induction cs as [|c cs IH]; intros t Hs; cbn [foldl concat] in *.
  - by apply sound_but_nil.
  - apply IH. by apply chunk_sound.
Qed.

(** Deleting rows and clearing the flags behind them, as every pass does. *)
Lemma purge_sound s hs : paths_sound (gs_db s) -> paths_sound (gs_db (clear_flags (delete_path_rows s (list_to_set hs)) hs)).
Proof.
  intros Hs. unfold clear_flags. cbn [gs_with_db gs_db]. apply clear_sound. intros h Hc.
  assert (Hl : forall x, t_cached_paths (gs_db (delete_path_rows s (list_to_set hs))) !! x = if decide (x ∈ hs) then None else t_cached_paths (gs_db s) !! x).
  { intros x. rewrite delete_path_rows_lookup. pose proof (elem_of_list_to_set (C := gset string) x hs) as Hx.
    destruct (decide (x ∈ (list_to_set hs : gset string))), (decide (x ∈ hs)); tauto. }
  assert (Hout : forall x, x ∉ hs -> hash_cached (gs_db (delete_path_rows s (list_to_set hs))) x = hash_cached (gs_db s) x /\
    hash_closure_complete (gs_db (delete_path_rows s (list_to_set hs))) x = hash_closure_complete (gs_db s) x).
  { intros x Hx. unfold hash_cached, hash_closure_complete. by rewrite Hl, decide_False. }
  assert (Hh : h ∉ hs) by (intros Hin; unfold hash_closure_complete in Hc; by rewrite Hl, decide_True in Hc).
  destruct (Hout h Hh) as [Hch Hcc]. rewrite Hcc in Hc. apply sound_but_nil in Hs. destruct (Hs h Hc) as [Hcached Hrefs].
  rewrite Hch. split; [done|]. intros r Hr. cbn [delete_path_rows gs_with_signatures gs_with_db gs_db set_references t_references] in Hr.
  apply list_elem_of_filter in Hr as [_ Hr]. destruct (decide (r ∈ hs)) as [Hin|Hin]; [tauto|]. destruct (Hout r Hin) as [-> ->].
  destruct (Hrefs r Hr) as [?|[Hn|?]]; [tauto| |tauto]. by apply elem_of_nil in Hn.
Qed.

(** The other tasks keep the flags true. *)
Hypothesis others_sound : forall p s, paths_sound (gs_db s) -> paths_sound (gs_db (others p s)).

Lemma delete_nars_sound s hs : paths_sound (gs_db s) -> paths_sound (gs_db (delete_nars delete_fails s hs)).
Proof. intros Hs. by rewrite delete_nars_rest. Qed.

Lemma delete_chunks_sound cs : forall i s, paths_sound (gs_db s) -> paths_sound (gs_db (delete_chunks others i s cs).1).
Proof.
  induction cs as [|ids cs IH]; intros i s Hs; cbn [delete_chunks]; [done|].
  assert (Hd : paths_sound (gs_db (delete_unreachable (others (AtDelete i) s) ids).1)) by by apply (others_sound (AtDelete i)).
  destruct (delete_unreachable _ ids) as [s1 g]. specialize (IH (S i) s1 Hd). by destruct (delete_chunks _ _ _ _).
Qed.

Lemma reclaimed_rows_sound cs : forall i s, paths_sound (gs_db s) -> paths_sound (gs_db (delete_reclaimed_rows others i s cs)).
Proof.
  induction cs as [|hs cs IH]; intros i s Hs; cbn [delete_reclaimed_rows]; [done|]. apply IH, purge_sound. by apply others_sound.
Qed.

Lemma purge_batches_sound bs : forall i s, paths_sound (gs_db s) -> paths_sound (gs_db (purge_batches others i s bs).1).
Proof.
  induction bs as [|hs bs IH]; intros i s Hs; cbn [purge_batches]; [done|]. unfold purge_batch. cbv beta iota.
  pose proof (IH (S i) _ (purge_sound _ hs (others_sound (AtPurge i) s Hs))) as Hb. by destruct (purge_batches _ _ _ bs).
Qed.

Lemma evict_sound s row : paths_sound (gs_db s) -> paths_sound (gs_db (evict_stale delete_fails s row)).
Proof.
  intros Hs. unfold evict_stale. cbv zeta.
  match goal with |- paths_sound (gs_db (if _ then ?x else _)) => assert (Hx : paths_sound (gs_db x)) end.
  { destruct (map or_hash _); [done|]. by apply purge_sound. }
  destruct (existsb _ _); [done|]. by apply delete_nars_sound.
Qed.


End flags.

(** ** The evaluator caches *)

Section evictions.
Context `{Chrono}.
Implicit Types (r : N * Z * NaiveDateTime) (l : list (N * Z * NaiveDateTime)).

Definition total_size l : Z := foldr (fun r acc => (blob_size r + acc)%Z) 0%Z l.

Definition aged (cutoff : NaiveDateTime) r : bool := datetime_lt r.2 cutoff.

Lemma total_size_nonneg l : (0 <= total_size l)%Z.
Proof. induction l as [|r l IH]; simpl; [done|]. unfold blob_size. lia. Qed.

Lemma total_size_app l l' : total_size (l ++ l') = (total_size l + total_size l')%Z.
Proof. induction l as [|r l IH]; simpl; [done|]. rewrite IH. lia. Qed.

Lemma total_size_perm l l' : l ≡ₚ l' -> total_size l = total_size l'.
Proof. induction 1; simpl; lia. Qed.

Lemma total_size_filter p l : (total_size (List.filter p l) <= total_size l)%Z.
Proof. induction l as [|r l IH]; simpl; [done|]. destruct (p r); simpl; unfold blob_size in *; lia. Qed.

Lemma split_by_age_exact cutoff l : forall evicted survivors,
  (total_size survivors + total_size (List.filter (fun r => negb (aged cutoff r)) l) <= U64_MAX)%Z ->
  foldl (split_by_age cutoff) (evicted, total_size survivors, survivors) l
  = (evicted ++ map (fun r => r.1.1) (List.filter (aged cutoff) l),
     total_size (survivors ++ List.filter (fun r => negb (aged cutoff r)) l),
     survivors ++ List.filter (fun r => negb (aged cutoff r)) l).
Proof.
  induction l as [|r l IH]; intros evicted survivors Hu; cbn [foldl List.filter map] in *; [by rewrite !app_nil_r|].
  unfold split_by_age at 2. fold (aged cutoff r). destruct (aged cutoff r) eqn:Ha; cbn [negb] in *.
  - rewrite IH by done. by rewrite <- app_assoc.
  - cbn [total_size foldr] in Hu. fold (total_size (List.filter (fun r => negb (aged cutoff r)) l)) in Hu.
    assert (Hs : saturating_add (total_size survivors) (blob_size r) = total_size (survivors ++ [r])).
    { rewrite total_size_app. cbn [total_size foldr]. unfold saturating_add.
      pose proof (total_size_nonneg (List.filter (fun r => negb (aged cutoff r)) l)). lia. }
    rewrite Hs, IH; [by rewrite <- !app_assoc|]. rewrite total_size_app. cbn [total_size foldr]. lia.
Qed.

Lemma evict_to_cap_exact cap l : (0 <= cap)%Z -> exists k,
  evict_to_cap cap (total_size l) l = map (fun r => r.1.1) (take k l) /\ (total_size (drop k l) <= cap)%Z /\
  forall j, j < k -> (cap < total_size (drop j l))%Z.
Proof.
  intros Hcap. induction l as [|r l IH]; cbn [evict_to_cap].
  { exists 0. split_and!; [done|done|lia]. }
  destruct (Z.leb_spec (total_size (r :: l)) cap) as [Hle|Hgt]; [exists 0; split_and!; [done|done|lia]|].
  destruct IH as (k & Hk & Hsum & Hmin). exists (S k). cbn [take drop map]. split_and!; [|done|].
  - f_equal. rewrite <- Hk. f_equal. unfold saturating_sub. cbn [total_size foldr]. fold (total_size l). pose proof (total_size_nonneg l). lia.
  - intros [|j] Hj; [done|]. apply Hmin. lia.
Qed.

(** The sweep evicts every blob past its age and then, oldest first, as many of the others
    as it takes - and no more - for the rest to fit the cap. *)
Theorem evictions_exact rows cap cutoff :
  (0 <= cap)%Z -> (total_size rows <= U64_MAX)%Z ->
  let by_age := sort_by (fun a b => datetime_cmp a.2 b.2) rows in
  let fresh := List.filter (fun r => negb (aged cutoff r)) by_age in
  exists k, select_evictions rows cap cutoff
      = map (fun r => r.1.1) (List.filter (aged cutoff) by_age) ++ map (fun r => r.1.1) (take k fresh) /\
    (total_size (drop k fresh) <= cap)%Z /\ forall j, j < k -> (cap < total_size (drop j fresh))%Z.
Proof.
  intros Hcap Hu. cbv zeta. unfold select_evictions. cbv zeta.
  set (by_age := sort_by (fun a b => datetime_cmp a.2 b.2) rows).
  assert (Hp : total_size by_age = total_size rows) by apply total_size_perm, sort_by_perm.
  pose proof (total_size_filter (fun r => negb (aged cutoff r)) by_age) as Hf.
  pose proof (split_by_age_exact cutoff by_age [] []) as Hx. change (total_size []) with 0%Z in Hx. rewrite Hx by lia. clear Hx. cbn [app].
  destruct (evict_to_cap_exact cap (List.filter (fun r => negb (aged cutoff r)) by_age) Hcap) as (k & Hk & Hrest). exists k. by rewrite Hk.
Qed.

End evictions.
