(* ===== verification/GraphExamples.v ===== *)
(** * Concrete build graphs

    A three-derivation graph - 3 depends on 2, which depends on 1 - under evaluation 7, at
    which the theorems about the build graph are applied; a batch of an evaluation; and the
    same graph with a fourth derivation nothing needs, for the collector. *)

From S2P Require Import Prelude Float RustStr Status Fixpoints ScoreContext StorePath Proto JobData JobTracker WorkerPool EdgeStream Scheduler SchedulerInvariant Retry BuildGraph Promotion ClosureFlags Cascade Transitions Healing PathClosure Settling WaitingState WaitingFacts EvalResult EvalResultFacts DispatchBuild LifecycleFacts Gc GcSweep GcFacts.

#[local] Existing Instance nanosecond_clock.
#[local] Existing Instance null_serde.

Local Open Scope N_scope.

Definition example_anchor (id : N) (s : BuildStatus) : DerivationBuild := {|
  db_id := id; db_status := s; db_substitutable := false; db_substituted := false;
  db_edges_complete := true; db_edges_unresolved := false; db_closure_complete := false;
  db_drv_closure_cached := false; db_attempt := 0; db_timeout_secs := None; db_max_silent_secs := None;
  db_updated_at := at_ns 0; db_queued_at := None; db_ready_at := None |}.

Definition stored : CachedPathRow := {| cp_file_hash := Some "nar"%string; cp_closure_complete := false |}.

Definition example_job (ev d : N) : BuildJobRow :=
  {| bjr_id := 100 + d; bjr_evaluation := ev; bjr_derivation := d; bjr_derivation_build := 10 + d |}.

Definition example_output (d : N) (h : string) : OutputRow := {|
  or_derivation := d; or_name := "out"; or_hash := h; or_package := "p"; or_is_cached := true; or_external_url := None |}.

Definition example_eval (s : EvaluationStatus) (r : option WaitingReason) : EvaluationRow := {|
  ev_project := Some 5; ev_status := s; ev_kind := KNormal; ev_waiting_reason := r; ev_updated_at := at_ns 0 |}.

(** The graph with the given statuses; everything that is built is in the cache. *)
Definition example_graph (s1 s2 s3 : BuildStatus) : Db := {|
  t_anchors := {[ 1 := example_anchor 11 s1; 2 := example_anchor 12 s2; 3 := example_anchor 13 s3 ]};
  t_derivations := [{| dr_id := 1; dr_hash := "d1"; dr_name := "one" |};
                    {| dr_id := 2; dr_hash := "d2"; dr_name := "two" |};
                    {| dr_id := 3; dr_hash := "d3"; dr_name := "three" |}];
  t_dependencies := [(2, 1); (3, 2)];
  t_build_jobs := [example_job 7 1; example_job 7 2; example_job 7 3];
  t_outputs := [example_output 1 "h1"; example_output 2 "h2"; example_output 3 "h3"];
  t_input_sources := [];
  t_cached_paths := {[ "h1"%string := stored; "h2"%string := stored; "d1"%string := stored; "d2"%string := stored;
                       "d3"%string := stored ]};
  t_references := [("h2"%string, "h1"%string); ("h2"%string, "h2"%string)];
  t_attempts := [];
  t_evaluations := {[ 7 := example_eval EBuilding None ]};
  t_messages := [];
  t_entry_points := [] |}.

Lemma example_acyclic s1 s2 s3 : acyclic (example_graph s1 s2 s3).
Proof.
  exists N.to_nat. intros d x Hd. unfold depends in Hd. simpl in Hd.
  rewrite !elem_of_cons in Hd. destruct Hd as [[= -> ->]|[[= -> ->]|Hd]]; [lia|lia|by apply elem_of_nil in Hd].
Defined.

(** Agreement of a flag with its gate, row by row. *)
Lemma settled_check c scope (t : Db) :
  forallb (fun d => Bool.eqb (fc_flag c t d) (fc_gate c t d)) (anchor_keys t) = true -> settled c scope t.
Proof.
  intros Hc d Hd _. apply Bool.eqb_prop. rewrite forallb_forall in Hc. apply Hc, list_elem_of_In.
  by apply elem_of_anchor_keys.
Defined.

(** ** The flags *)

Lemma closure_sweep_exact_witness :
  let t := example_graph BCompleted BCompleted BQueued in
  anchor_in (reconcile_closure_complete t None) db_closure_complete 2 = true /\ whole t 2.
Proof.
  cbv zeta. set (t := example_graph _ _ _).
  assert (Hf : anchor_in (reconcile_closure_complete t None) db_closure_complete 2 = true) by (vm_compute; reflexivity).
  split; [exact Hf|]. apply (closure_sweep_exact t None (example_acyclic _ _ _)); [reflexivity|exact Hf].
Defined.


Lemma completion_ripple_exact_witness :
  let t := example_graph BBuilding BCompleted BQueued in
  let t2 := propagate_closure_complete (completed_row t (at_ns 5) 1 BCompleted) 1 in
  anchor_in t2 db_closure_complete 2 = true /\ whole t2 2.
Proof.
  cbv zeta. set (t := example_graph _ _ _). set (t2 := propagate_closure_complete _ _).
  assert (Hf : anchor_in t2 db_closure_complete 2 = true) by (vm_compute; reflexivity). split; [exact Hf|].
  apply (completion_ripple_exact t (at_ns 5) 1 (example_anchor 11 BBuilding) BCompleted);
    [apply example_acyclic|apply settled_check; vm_compute; reflexivity|reflexivity|reflexivity|exact Hf].
Defined.

Lemma flag_sweeps_terminate_example :
  (* one effective SET round per level of the graph *)
  ends_after (statement closure_complete_column true (set_hit closure_complete_column (fun t d => in_eval_scope t None d)))
    2 (example_graph BCompleted BCompleted BQueued)
    (reconcile_closure_complete (example_graph BCompleted BCompleted BQueued) None).
Proof.
  split; [vm_compute; reflexivity|]. split; [|vm_compute; reflexivity].
  intros [|[|i]] Hi; [vm_compute; discriminate|vm_compute; discriminate|lia].
Qed.

Lemma path_sweep_exact_witness :
  let t := example_graph BCompleted BCompleted BQueued in
  acyclic_paths t /\ hash_closure_complete (reconcile_cached_path_closure_complete t None) "h2" = true /\ closed_path t "h2".
Proof.
  cbv zeta. set (t := example_graph _ _ _).
  assert (Hac : acyclic_paths t).
  { exists (fun s => if String.eqb s "h2" then 1%nat else 0%nat). intros h r [Hin Hne]. simpl in Hin.
    rewrite !elem_of_cons in Hin. destruct Hin as [[= -> ->]|[[= -> ->]|Hin]]; [simpl; lia|done|by apply elem_of_nil in Hin]. }
  assert (Hf : hash_closure_complete (reconcile_cached_path_closure_complete t None) "h2" = true) by (vm_compute; reflexivity).
  split; [exact Hac|]. split; [exact Hf|]. by apply (path_sweep_exact t "h2" Hac).
Defined.

(** ** Failures *)

Lemma walk_example s1 s2 s3 : tc (depends (example_graph s1 s2 s3)) 3 1.
Proof. apply (tc_l _ 3 2 1); [constructor; constructor|]. apply tc_once. constructor. Defined.


Lemma failure_sweep_exact_witness :
  let t := example_graph BFailedPermanent BCreated BQueued in
  t_anchors (reconcile_dependency_failed t (at_ns 5) None).1 !! 3
  = Some (with_status BDependencyFailed (at_ns 5) (example_anchor 13 BQueued)).
Proof.
  cbv zeta. set (t := example_graph _ _ _). destruct (failure_sweep_exact t (at_ns 5) None) as [Hm _].
  apply (Hm 3 (example_anchor 13 BQueued)); [vm_compute; reflexivity|apply status_in_spec; reflexivity|reflexivity|].
  exists 1. split; [apply walk_example|]. exists (example_anchor 11 BFailedPermanent). split; [reflexivity|].
  apply status_in_spec; reflexivity.
Defined.

Lemma thaw_survives_sweep_witness :
  let t := example_graph BAborted BDependencyFailed BQueued in
  t_anchors (requeue_failed_closure_for_eval t (at_ns 5) 7).1 !! 2
  = Some (thaw (at_ns 5) (example_anchor 12 BDependencyFailed)).
Proof.
  cbv zeta. set (t := example_graph _ _ _).
  destruct (thaw_survives_sweep t (at_ns 5) (at_ns 6) 7 2 (example_anchor 12 BDependencyFailed) eq_refl) as [Hth _].
  apply Hth. split; [apply (bool_decide_eq_true _); vm_compute; reflexivity|]. split; [apply status_in_spec; reflexivity|].
  intros (r & b & _ & _ & _ & _ & Hd). discriminate Hd.
Defined.

(** ** Runs of the server *)

Definition example_store (t : Db) : Store := {| st_db := t; st_events := [] |}.

Definition no_nars (_ : string) : option bool := None.

Lemma anchors_of_example s1 s2 s3 d a :
  t_anchors (example_graph s1 s2 s3) !! d = Some a ->
  (d = 1 /\ a = example_anchor 11 s1) \/ (d = 2 /\ a = example_anchor 12 s2) \/ (d = 3 /\ a = example_anchor 13 s3).
Proof.
  simpl. rewrite !lookup_insert_Some. intros [[<- <-]|[_ [[<- <-]|[_ Hx]]]]; [tauto|tauto|].
  apply lookup_singleton_Some in Hx as [<- <-]. tauto.
Qed.

Lemma example_linked s1 s2 s3 : jobs_linked (example_graph s1 s2 s3).
Proof.
  split.
  - intros j Hj. simpl in Hj. rewrite !elem_of_cons in Hj.
    destruct Hj as [->|[->|[->|Hj]]]; [..|by apply elem_of_nil in Hj]; eexists; split; reflexivity.
  - intros d d' a a' Ha Ha' He. apply anchors_of_example in Ha, Ha'.
    destruct Ha as [[-> ->]|[[-> ->]|[-> ->]]], Ha' as [[-> ->]|[[-> ->]|[-> ->]]]; try done; simpl in He; congruence.
Qed.

Lemma example_settled s1 s2 s3 :
  eval_active (example_graph s1 s2 s3) 7 = true -> settled_evals (example_store (example_graph s1 s2 s3)).
Proof.
  intros Ha. split; [apply example_linked|]. intros ev (e & He & _ & _ & Hn). simpl in He.
  apply lookup_singleton_Some in He as [<- <-]. simpl in Hn. congruence.
Qed.


Lemma late_failure_cascades_witness :
  let w := example_store (example_graph BCompleted BCompleted BQueued) in
  let w' := handle_build_job_failed w (at_ns 5) eval_config_default no_nars 11 "late" Permanent [] in
  db_status <$> t_anchors (st_db w') !! 1 = Some BCompleted /\
  db_status <$> t_anchors (st_db w') !! 3 = Some BDependencyFailed.
Proof.
  cbv zeta. set (w := example_store _).
  apply (late_failure_cascades w (at_ns 5) eval_config_default no_nars 11 "late" [] 1 (example_anchor 11 BCompleted) 3
           (example_anchor 13 BQueued)); [vm_compute; reflexivity|reflexivity| |done|reflexivity|reflexivity].
  apply (rtc_l _ 3 2 1); [constructor; constructor|]. apply rtc_once. constructor.
Defined.

(** The late report is not seen by an evaluation that references only the builds above. *)
Definition shared_graph : Db :=
  let t := example_graph BCompleted BCompleted BQueued in {|
  t_anchors := t_anchors t; t_derivations := t_derivations t; t_dependencies := t_dependencies t;
  t_build_jobs := [example_job 8 3]; t_outputs := t_outputs t; t_input_sources := t_input_sources t;
  t_cached_paths := t_cached_paths t; t_references := t_references t; t_attempts := t_attempts t;
  t_evaluations := {[ 8 := example_eval EBuilding None ]}; t_messages := t_messages t;
  t_entry_points := t_entry_points t |}.

Lemma stale_failure_hangs :
  let w := example_store shared_graph in
  settled_evals w /\
  hung (st_db (handle_build_job_failed w (at_ns 5) eval_config_default no_nars 11 "late" Permanent [])) 8.
Proof.
  cbv zeta. split.
  - split; [split|].
    + intros j Hj. simpl in Hj. rewrite !elem_of_cons in Hj.
      destruct Hj as [->|Hj]; [|by apply elem_of_nil in Hj]. eexists; split; reflexivity.
    + intros d d' a a' Ha Ha'. apply (example_linked BCompleted BCompleted BQueued); done.
    + intros ev (e & He & _ & _ & Hn). simpl in He. apply lookup_singleton_Some in He as [<- <-].
      assert (Ht : eval_active shared_graph 8 = true) by (vm_compute; reflexivity). simpl in Hn. congruence.
  - exists (example_eval EBuilding None). split_and!; [vm_compute; reflexivity|reflexivity|vm_compute; discriminate|vm_compute; reflexivity].
Qed.

(** ** Waiting *)

Definition example_catalog : Catalog := {|
  cat_derivations := (fun _ => {| md_hash := "h"; md_name := "n"; md_architecture := "x86_64-linux"; md_pname := None;
    md_prefer_local_build := false; md_is_fixed_output := false; md_closure_size := None |}) <$>
    t_anchors (example_graph BCompleted BCompleted BQueued);
  cat_features := []; cat_feature_names := ∅ |}.

Definition example_pool : Pool :=
  {| pool_caps := [(["x86_64-linux"%string], [])]; pool_eval_capable := 1; pool_fetch_capable := 1 |}.

(** Evaluation 9 waits for the approval of pull request 42. *)
Definition with_evals (m : gmap EvaluationId EvaluationRow) : Store :=
  example_store (set_evaluations (example_graph BCompleted BCompleted BQueued) m).

Definition approval_row : EvaluationRow := example_eval EWaiting (Some (WApproval 42 "octocat")).
Definition gated_store : Store := with_evals {[ 9 := approval_row ]}.

Lemma owned_parks_untouched_witness :
  owned_elsewhere (WApproval 42 "octocat") = true /\
  t_evaluations (st_db (reconcile_waiting_state example_catalog eval_config_default no_nars gated_store (at_ns 5)
    example_pool false)) !! 9 = Some approval_row.
Proof.
  split; [reflexivity|].
  apply (owned_parks_untouched example_catalog eval_config_default no_nars gated_store (at_ns 5) example_pool 9
           approval_row (WApproval 42 "octocat")); reflexivity.
Defined.

Lemma draining_lifts_approval_witness :
  t_evaluations (unpark_draining_evals (st_db (reconcile_waiting_state example_catalog eval_config_default no_nars
    gated_store (at_ns 5) example_pool true)) (at_ns 5)) !! 9 = Some (unpark_row (at_ns 5) approval_row).
Proof.
  apply (draining_lifts_approval example_catalog eval_config_default no_nars gated_store (at_ns 5) example_pool 9
           approval_row 42 "octocat"); reflexivity.
Defined.

Lemma refused_moves_strand_evaluations_witness :
  let row := example_eval EEvaluatingFlake None in
  let w := with_evals {[ 9 := row ]} in
  t_evaluations (st_db (reconcile_waiting_state example_catalog eval_config_default no_nars
    (handle_eval_job_failed w (at_ns 5) 9 CorruptEvalCache ["fp"%string] true) (at_ns 6) example_pool false)) !! 9 = Some row /\
  t_evaluations (st_db (reconcile_waiting_state example_catalog eval_config_default no_nars
    (handle_eval_job_completed w (at_ns 5) no_nars 9) (at_ns 6) example_pool false)) !! 9 = Some row.
Proof.
  cbv zeta. set (w := with_evals _).
  destruct (refused_moves_strand_evaluations example_catalog eval_config_default w (at_ns 5) (at_ns 6) no_nars example_pool 9
    (example_eval EEvaluatingFlake None) "fp" []) as [H1 H2]; [reflexivity|reflexivity|simpl; lia|simpl; lia|].
  split; [exact H1|]. apply H2. discriminate.
Defined.

(** ** Dispatch *)

#[local] Existing Instance forward_order.
#[local] Existing Instance tally_uuid.

Definition example_maps (t : Db) : BuildDispatchMaps := {|
  bdm_tables := t; bdm_catalog := example_catalog; bdm_projects := {[ 5 := 1 ]};
  bdm_cache_info := fun _ => None; bdm_closure_sizes := fun _ => None; bdm_histories := fun _ => history_default;
  bdm_connected_architectures := {[ "x86_64-linux"%string ]}; bdm_config := DispatchConfig_from_state eval_config_default |}.

(** After healing, 3 is ready and goes to the queue. *)
Definition healed_graph : Db := heal_flags (example_graph BCompleted BCompleted BQueued) None.

Definition ready_anchor : DerivationBuild := with_drv_closure_cached true (example_anchor 13 BQueued).

Definition ready_job : PendingBuildJob :=
  match classify_dispatch (example_maps healed_graph) (at_ns 9) 3 ready_anchor with
  | Dispatch _ job => job | _ => example_pending_build 0 end.


Definition example_worker : WorkerCaps := {|
  caps_fetch := true; caps_architectures := ["x86_64-linux"%string]; caps_system_features := [];
  caps_capabilities := capabilities_default; caps_metrics := None |}.

Definition example_checker : BuildabilityChecker :=
  checker_load healed_graph example_catalog eval_config_default {[ "x86_64-linux"%string ]} 7.

Lemma parking_agrees_with_dispatch_witness :
  buildable example_checker [(["x86_64-linux"%string], [])] (3, ready_anchor) = true /\
  exists w, w ∈ [example_worker] /\ job_eligible_for_caps (PendingBuild ready_job) (Some w) = true.
Proof.
  assert (Hb : buildable example_checker [(["x86_64-linux"%string], [])] (3, ready_anchor) = true) by (vm_compute; reflexivity).
  split; [exact Hb|].
  apply (parking_agrees_with_dispatch example_checker (example_maps healed_graph) (at_ns 9) 7 3 ready_anchor
           (build_job_id 13) ready_job [example_worker]).
  - split; [reflexivity|reflexivity|reflexivity|reflexivity|vm_compute; reflexivity].
  - reflexivity.
  - reflexivity.
  - discriminate.
  - vm_compute; reflexivity.
  - intros drv _. unfold dispatch_mode_of. simpl. discriminate.
  - exact Hb.
Defined.

(** * A batch of an evaluation

    Evaluation 8 reports derivation 2 again, which evaluation 7 left failed, and a new one
    that an upstream cache offers. *)

Definition eval_job : PendingEvalJob := {|
  pe_evaluation_id := 8; pe_project_id := Some 5; pe_org_id := 1; pe_commit_id := 1; pe_repository := "repo";
  pe_job := {| fj_tasks := [EvaluateFlake; EvaluateDerivations]; fj_source := Cached "src"; fj_wildcards := ["*"%string];
               fj_timeout_secs := None; fj_input_overrides := []; fj_input_update := None |};
  pe_required_paths := []; pe_queued_at := at_ns 0; pe_ready_at := at_ns 0; pe_rescore_count := 0%Z;
  pe_history := history_default |}.

Definition reported (attr path out : string) (deps : list string) (substituted : bool) : DiscoveredDerivation := {|
  disc_attr := attr; disc_drv_path := path; disc_outputs := [{| do_name := "out"; do_path := out |}];
  disc_dependencies := deps; disc_input_sources := ["/nix/store/s9-src"%string]; disc_architecture := "x86_64-linux";
  disc_required_features := ["kvm"%string]; disc_timeout_secs := Some 60%Z; disc_max_silent_secs := None;
  disc_prefer_local_build := false; disc_is_fixed_output := false; disc_allow_substitutes := true;
  disc_pname := None; disc_substituted := substituted |}.

Definition eval_batch : list DiscoveredDerivation :=
  [reported "" "/nix/store/d2-two.drv" "/nix/store/h2-p" ["/nix/store/d1-one.drv"%string] true;
   reported "packages.hello" "d4-four.drv" "/nix/store/h4-four" ["d2-two.drv"%string] false].

Definition eval_start : Graph := {|
  gr_store := example_store (set_evaluations (example_graph BCompleted BFailedPermanent BDependencyFailed)
    {[ 7 := example_eval EFailed None; 8 := example_eval EEvaluatingDerivation None ]});
  gr_catalog := {| cat_derivations := ∅; cat_features := []; cat_feature_names := ∅ |} |}.

Definition counting : Fresh := {|
  fr_derivation := fun i => 1000 + N.of_nat i; fr_anchor := fun i => 2000 + N.of_nat i;
  fr_job := fun i => 3000 + N.of_nat i; fr_feature := fun _ => 50 |}.

Definition no_faults : InsertOutcomes := {|
  io_derivations := fun _ => true; io_outputs := fun _ => true; io_sources := fun _ => true;
  io_anchors := fun _ => true; io_jobs := fun _ => true; io_entry_points := fun _ => true |}.

(** One upstream cache, which has the output of the new derivation. *)
Definition one_upstream : Surroundings := {|
  su_upstreams := fun _ => ["https://cache.nixos.org"%string];
  su_probe_batch := fun _ _ => {[ "h4"%string := Some "https://cache.nixos.org/nar/h4.nar"%string ]};
  su_keep_evaluations := fun _ => Some 30%nat |}.

Definition eval_end : Graph * result unit unit :=
  handle_eval_batch counting no_faults one_upstream eval_start (at_ns 9) eval_job eval_batch [] ["attr x failed"%string].

Lemma counting_anchors : fresh_anchors counting (gr_db eval_start).
Proof.
  split; [intros i j Hij; simpl in Hij; lia|]. intros i d a Ha. change (t_anchors (example_graph BCompleted BFailedPermanent BDependencyFailed) !! d = Some a) in Ha.
  apply anchors_of_example in Ha as [[-> ->]|[[-> ->]|[-> ->]]]; simpl; lia.
Defined.

Lemma counting_derivations : fresh_derivations counting (t_derivations (gr_db eval_start)).
Proof.
  split; [intros i j Hij; simpl in Hij; lia|]. intros i r Hr. simpl in Hr. rewrite !elem_of_cons in Hr.
  destruct Hr as [->|[->|[->|Hr]]]; [simpl; lia..|]. by apply elem_of_nil in Hr.
Defined.

(** The failed build is open again; the finished one is untouched. *)
Lemma batch_builds_once_witness :
  fresh_anchors counting (gr_db eval_start) /\
  t_anchors (gr_db eval_end.1) !! 1 = t_anchors (gr_db eval_start) !! 1 /\
  db_status <$> t_anchors (gr_db eval_end.1) !! 2 = Some BCreated.
Proof.
  split; [exact counting_anchors|].
  pose proof (batch_builds_once counting no_faults one_upstream eval_start (at_ns 9) eval_job eval_batch []
    ["attr x failed"%string] counting_anchors) as [Hk _]. split; [|vm_compute; reflexivity].
  destruct (Hk 1 (example_anchor 11 BCompleted)) as (a' & Ha' & _ & Hs & _); [reflexivity|].
  etrans; [exact Ha'|]. rewrite Hs; reflexivity.
Defined.

Lemma eval_rows_ok : rows_ok (t_derivations (gr_db eval_start)).
Proof.
  split; [repeat constructor; discriminate|]. vm_compute.
  repeat (apply NoDup_cons; split; [|]); try apply NoDup_nil_2; intros Hx;
    repeat (apply elem_of_cons in Hx as [Hx|Hx]; [discriminate|]); by apply elem_of_nil in Hx.
Qed.

Lemma batch_recorded_witness :
  eval_end.2 = Ok tt /\ jobs_linked (gr_db eval_end.1) /\
  exists i a j, row_id (t_derivations (gr_db eval_end.1)) "d4-four.drv" = Some i /\
    t_anchors (gr_db eval_end.1) !! i = Some a /\ j ∈ t_build_jobs (gr_db eval_end.1) /\
    bjr_evaluation j = 8 /\ bjr_derivation j = i /\ bjr_derivation_build j = db_id a.
Proof.
  destruct (batch_recorded counting no_faults one_upstream eval_start (at_ns 9) eval_job eval_batch []
    ["attr x failed"%string] (example_eval EEvaluatingDerivation None)) as (Hr & _ & _ & Hl & _ & Hx).
  - split; intros i; reflexivity.
  - exact counting_anchors.
  - exact counting_derivations.
  - exact eval_rows_ok.
  - simpl. repeat (apply NoDup_cons; split; [|]); try apply NoDup_nil_2; intros Hx;
      repeat (apply elem_of_cons in Hx as [Hx|Hx]; [discriminate|]); by apply elem_of_nil in Hx.
  - exact (example_linked BCompleted BFailedPermanent BDependencyFailed).
  - reflexivity.
  - discriminate.
  - repeat constructor.
  - split; [exact Hr|]. split; [exact Hl|].
    apply (Hx (reported "packages.hello" "d4-four.drv" "/nix/store/h4-four" ["d2-two.drv"%string] false)). right. left.
Defined.

(** Derivation 2 was reported as substituted, yet no upstream has it. *)
Lemma substitutable_is_upstream_offer_witness :
  let w := gr_store eval_start in
  let e := example_eval EEvaluatingDerivation None in
  let ids := {[ "d2-two.drv"%string := 2 ]} in
  let batch := [reported "" "d2-two.drv" "/nix/store/h2-p" [] true] in
  let r := resolve_anchors counting no_faults one_upstream w (at_ns 9) 8 e batch ids in
  r.2 = true /\ exists a, t_anchors (st_db r.1) !! 2 = Some a /\ db_substitutable a = false /\
    ~ offered one_upstream (st_db w) e
        (List.filter (fun d => negb (compute_truly_substituted (st_db w) d)) (batch_ids batch ids)) 2.
Proof.
  cbv zeta. set (w := gr_store eval_start). set (batch := [_]). set (ids := {[ _ := _ ]}). set (e := example_eval _ _).
  set (r := resolve_anchors _ _ _ _ _ _ _ _ _).
  assert (Hr : r = (r.1, true)) by (destruct r as [w' b] eqn:E; enough (b = true) as -> by reflexivity;
    change b with (w', b).2; rewrite <- E; vm_compute; reflexivity).
  destruct (t_anchors (st_db r.1) !! 2) as [a|] eqn:Ha; [|vm_compute in Ha; discriminate].
  assert (Hs : is_terminal_success (db_status a) = false /\ db_substitutable a = false).
  { vm_compute in Ha. injection Ha as <-. split; reflexivity. }
  split; [rewrite Hr; reflexivity|]. exists a. split; [reflexivity|]. split; [apply Hs|].
  intros Ho. apply (substitutable_is_upstream_offer counting no_faults one_upstream w (at_ns 9) 8 e batch ids r.1 2 a Hr) in Ho;
    [destruct Hs; congruence|vm_compute; left|exact Ha|apply Hs].
Defined.

(** ** Garbage collection *)

Definition whole_path : CachedPathRow := {| cp_file_hash := Some "nar"%string; cp_closure_complete := true |}.

Definition ended_eval : EvaluationRow := example_eval ECompleted None.

(** 4 fetched the path that is also a source of 3; [up] was uploaded by hand. *)
Definition gc_graph : Db := {|
  t_anchors := {[ 1 := example_anchor 11 BCompleted; 2 := example_anchor 12 BCompleted; 3 := example_anchor 13 BCompleted;
                  4 := example_anchor 14 BCompleted ]};
  t_derivations := [{| dr_id := 1; dr_hash := "d1"; dr_name := "one" |}; {| dr_id := 2; dr_hash := "d2"; dr_name := "two" |};
                    {| dr_id := 3; dr_hash := "d3"; dr_name := "three" |}; {| dr_id := 4; dr_hash := "d4"; dr_name := "fetch" |}];
  t_dependencies := [(2, 1); (3, 2)];
  t_build_jobs := [example_job 7 3];
  t_outputs := [example_output 1 "h1"; example_output 2 "h2"; example_output 3 "h3"; example_output 4 "src"];
  t_input_sources := [(3, "src"%string)];
  t_cached_paths := {[ "h1"%string := whole_path; "h2"%string := whole_path; "h3"%string := stored; "d1"%string := stored;
                       "d2"%string := stored; "d3"%string := stored; "d4"%string := stored; "src"%string := whole_path;
                       "up"%string := stored ]};
  t_references := [("h2"%string, "h1"%string); ("h2"%string, "h2"%string); ("src"%string, "src"%string)];
  t_attempts := [];
  t_evaluations := {[ 5 := ended_eval; 6 := ended_eval; 7 := ended_eval ]};
  t_messages := [];
  t_entry_points := [(7, 3)] |}.

Definition gc_link (created : Z) (previous next : option N) : EvalLink :=
  {| el_created_at := at_ns created; el_previous := previous; el_next := next; el_commit := 40 |}.

Definition gc_nars : gmap string Z :=
  {[ "h1"%string := 0%Z; "h2"%string := 0%Z; "h3"%string := 0%Z; "d1"%string := 0%Z; "d2"%string := 0%Z; "d3"%string := 0%Z;
     "d4"%string := 0%Z; "src"%string := 0%Z; "up"%string := 0%Z ]}.

Definition gc_store : GcStore := {|
  gs_db := gc_graph;
  gs_created_at := {[ 1 := at_ns 0; 2 := at_ns 0; 3 := at_ns 0; 4 := at_ns 0 ]};
  gs_fixed_outputs := [4];
  gs_signatures := [("up"%string, 1)];
  gs_cache_derivations := [];
  gs_links := {[ 5 := gc_link 1 None (Some 6); 6 := gc_link 2 (Some 5) (Some 7); 7 := gc_link 3 (Some 6) None ]};
  gs_commits := {[ 40 ]};
  gs_blob_rows := []; gs_sessions := [];
  gs_nars := gc_nars;
  gs_blobs := ∅; gs_logs := ∅ |}.

Definition never (_ : string) : bool := false.

Lemma gc_same_rows : same_rows gc_store.
Proof.
  intros ev. cbn [gc_store gs_db gs_links gc_graph t_evaluations].
  destruct (decide (ev = 5)) as [->|?]; [split; intros _; by eexists|]. destruct (decide (ev = 6)) as [->|?]; [split; intros _; by eexists|].
  destruct (decide (ev = 7)) as [->|?]; [split; intros _; by eexists|].
  by rewrite !lookup_insert_ne, !lookup_singleton_ne by done.
Defined.

Lemma gc_links_within : links_within gc_store.
Proof.
  intros ev l x Hl Hx. cbn [gc_store gs_links] in Hl.
  apply lookup_insert_Some in Hl as [[<- <-]|[_ Hl]]; [|apply lookup_insert_Some in Hl as [[<- <-]|[_ Hl]]; [|apply lookup_singleton_Some in Hl as [<- <-]]];
    simpl in Hx; destruct Hx as [Hx|Hx]; simplify_eq; by exists ended_eval, ended_eval.
Defined.

Lemma project_gc_exact_witness :
  let s' := gc_project_evaluations gc_store (at_ns 10) 24 5 1 in
  t_evaluations (gs_db s') !! 6 = None /\ t_evaluations (gs_db s') !! 7 = Some ended_eval /\ links_closed s' /\ 40 ∈ gs_commits s'.
Proof.
  cbv zeta. destruct (project_gc_exact gc_store (at_ns 10) 24 5 1 gc_same_rows gc_links_within) as (Hev & Hl & Hc).
  split; [|split]; [vm_compute; reflexivity|apply Hev; split; [vm_compute; reflexivity|]|split; [exact Hl|]].
  - intros (_ & _ & i & x & Hx & Hid & _ & Hn). destruct i as [|i]; [simpl in Hn; lia|].
    assert (Hn0 : map (fun x => x.1.1) (project_evaluations gc_store 5) = [7; 6; 5]) by (vm_compute; reflexivity).
    assert (Hi : map (fun x => x.1.1) (project_evaluations gc_store 5) !! S i = Some 7) by (rewrite list_lookup_fmap, Hx; simpl; by rewrite Hid).
    rewrite Hn0 in Hi. by destruct i as [|[|i]].
  - apply Hc. split; [by apply elem_of_singleton|]. left. exists 7. eexists. split; vm_compute; reflexivity.
Defined.

(** Another task stores a NAR while the sweep deletes. *)
Definition busy (p : GcPoint) (s : GcStore) : GcStore :=
  match p with AtNars => gs_with_nars s (<["other"%string := 9%Z]> (gs_nars s)) | _ => s end.

Definition one_row : DerivationRow := {| dr_id := 1; dr_hash := "d1"; dr_name := "one" |}.

Lemma gc_keeps_one : keeps one_row (example_output 1 "h1") gc_store.
Proof.
  split; [constructor|apply (bool_decide_unpack _); vm_compute; reflexivity|constructor|split; vm_compute; reflexivity| |..].
  - split; by eexists.
  - intros r'. cbn [gc_store gs_db gc_graph t_derivations]. rewrite !elem_of_cons, elem_of_nil. intros [->|[->|[->|[->|[]]]]]; discriminate.
  - intros o'. cbn [gc_store gs_db gc_graph t_outputs]. rewrite !elem_of_cons, elem_of_nil. intros [->|[->|[->|[->|[]]]]]; discriminate.
Defined.

Lemma live_derivation_kept_witness :
  let s' := gc_orphan_derivations never busy gc_store (at_ns 100) in
  keeps one_row (example_output 1 "h1") s' /\ gs_nars s' !! "d4"%string = None /\ gs_nars s' !! "other"%string = Some 9%Z.
Proof.
  cbv zeta. split; [|split; vm_compute; reflexivity].
  apply live_derivation_kept; [reflexivity| |exact gc_keeps_one].
  intros p s [Hr Hl Ho Hc [[m1 H1] [m2 H2]] Hd1 Hd2]. destruct p; try by split; eauto.
  split; try done. simpl. split.
  - destruct (decide ("other"%string = or_hash (example_output 1 "h1"))) as [He|He]; [discriminate He|]. exists m1. by rewrite lookup_insert_ne.
  - destruct (decide ("other"%string = dr_hash one_row)) as [He|He]; [discriminate He|]. exists m2. by rewrite lookup_insert_ne.
Defined.

Lemma gc_unique_rows : NoDup (map dr_id (t_derivations (gs_db gc_store))).
Proof. apply (bool_decide_unpack _). vm_compute. reflexivity. Defined.

Lemma gc_four_orphan : orphan gc_store (at_ns 100) {| dr_id := 4; dr_hash := "d4"; dr_name := "fetch" |}.
Proof.
  split; [repeat constructor|]. split; [exists (at_ns 0); split; vm_compute; reflexivity|].
  apply (bool_decide_unpack _). vm_compute. reflexivity.
Defined.

Lemma gc_source_reclaimed : reclaimed gc_store (at_ns 100) "src".
Proof.
  left. split.
  - exists (example_output 4 "src"). split; [repeat constructor|]. split; [reflexivity|]. eexists. split; [exact gc_four_orphan|reflexivity].
  - intros o. cbn [gc_store gs_db gc_graph t_outputs]. rewrite !elem_of_cons, elem_of_nil.
    intros [->|[->|[->|[->|[]]]]] Hh; try discriminate Hh. eexists. split; [exact gc_four_orphan|reflexivity].
Defined.

Lemma orphan_sweep_exact_witness :
  let s' := gc_orphan_derivations never alone gc_store (at_ns 100) in
  t_anchors (gs_db s') !! 4 = None /\ gs_nars s' !! "src"%string = None /\ t_cached_paths (gs_db s') !! "src"%string = None.
Proof.
  cbv zeta. destruct (orphan_sweep_exact never gc_store (at_ns 100) gc_unique_rows) as (_ & _ & Ha & Ht & _).
  destruct (Ht _ gc_source_reclaimed) as [Hp Hn]. split; [|split; [exact Hn|exact Hp]].
  destruct (Ha 4) as [[_ Hno]|[Hnone _]]; [|exact Hnone]. exfalso. apply Hno. eexists. split; [exact gc_four_orphan|reflexivity].
Defined.

Lemma sweep_takes_live_source_witness :
  let s' := gc_orphan_derivations never alone gc_store (at_ns 100) in
  gs_nars s' !! "src"%string = None /\ deps_ready_predicate (gs_db s') 3 = false.
Proof.
  cbv zeta. destruct (sweep_takes_live_source never gc_store (at_ns 100) 3 "src" gc_unique_rows gc_source_reclaimed) as (Hn & _ & _ & Hd);
    [reflexivity|apply (bool_decide_unpack _); vm_compute; reflexivity|constructor|]. split; [exact Hn|exact Hd].
Defined.

Lemma purge_forgets_upload_witness :
  let s' := (cleanup_orphaned_cache_files never (uploads_at_load "new" 5 stored) gc_store 1000000 24).1 in
  gs_nars s' !! "new"%string = Some 5%Z /\ t_cached_paths (gs_db s') !! "new"%string = None.
Proof. cbv zeta. apply purge_forgets_upload; [vm_compute; reflexivity|by eexists]. Defined.

Lemma deleted_upload_stays_witness :
  exists s', delete_nar_from_cache never never true gc_store (at_ns 5) 1 "up" = (s', Ok {| ref_counted_others := false |}) /\
    gs_nars s' !! "up"%string = Some 0%Z /\ hash_cached (gs_db s') "up" = true.
Proof.
  destruct (deleted_upload_stays never never gc_store (at_ns 5) 1 "up") as (s' & He & Hn & Hc & _); [reflexivity|by eexists|reflexivity|reflexivity| |].
  - intros c Hc. unfold signed_by in Hc. cbn [gc_store gs_signatures existsb] in Hc.
    apply orb_true_iff in Hc as [Hc|Hc]; [|discriminate Hc]. apply andb_true_iff in Hc as [_ Hc]. apply N.eqb_eq in Hc. by symmetry.
  - exists s'. split; [exact He|]. split; [by rewrite Hn|exact Hc].
Defined.

(** The marks of a table, row by row. *)
Lemma marks_check (t : Db) :
  forallb (fun x => negb (cp_closure_complete x.2) || CACHED_PATH_CLOSURE_COMPLETE_GATE t x.1) (map_to_list (t_cached_paths t)) = true ->
  paths_sound t.
Proof.
  intros Hall h Hc. unfold hash_closure_complete in Hc. destruct (t_cached_paths t !! h) as [cp|] eqn:E; [|discriminate Hc].
  rewrite forallb_forall in Hall. specialize (Hall (h, cp)). cbn [fst snd] in Hall. rewrite Hc in Hall. apply Hall.
  apply list_elem_of_In, elem_of_map_to_list, E.
Defined.

Lemma gc_marks_sound : paths_sound gc_graph.
Proof. apply marks_check. vm_compute. reflexivity. Defined.


Lemma evictions_exact_witness :
  let rows : list (N * Z * NaiveDateTime) := [(1, 500%Z, at_ns 0); (2, 500%Z, at_ns 70); (3, 500%Z, at_ns 80); (4, 500%Z, at_ns 90)] in
  select_evictions rows 1000 (at_ns 50) = [1; 2] /\
  exists k, (total_size (drop k (List.filter (fun r => negb (aged (at_ns 50) r)) (sort_by (fun a b => datetime_cmp a.2 b.2) rows))) <= 1000)%Z.
Proof.
  cbv zeta. split; [vm_compute; reflexivity|].
  destruct (evictions_exact [(1, 500%Z, at_ns 0); (2, 500%Z, at_ns 70); (3, 500%Z, at_ns 80); (4, 500%Z, at_ns 90)] 1000 (at_ns 50))
    as (k & _ & Hk & _); [lia|vm_compute; discriminate|]. exists k. exact Hk.
Defined.
