(* ===== verification/Permissions.v ===== *)
(** * Permissions

    The capabilities of organizations and caches, their bit positions and wire names, the
    masks roles and API keys carry, and the parsing of a requested permission list
    ([backend/gradient-db/src/permissions.rs], [backend/gradient-web/src/permissions.rs]),
    with the web layer's error type ([backend/gradient-web/src/error.rs]). A mask is the
    [i64] of the column; role ids are numbers. *)

From S2P Require Import Prelude.

Local Open Scope Z_scope.

Abbreviation PermissionMask := Z.
Abbreviation RoleId := N.

(** ** Errors

    [ErrorCode] is its slug. [Internal] carries a source error no modelled code raises. *)
Abbreviation ErrorCode := string.

Inductive WebError :=
| BadRequest (c : ErrorCode) (m : string)
| Unauthorized (c : ErrorCode) (m : string)
| Forbidden (c : ErrorCode) (m : string)
| NotFound (c : ErrorCode) (m : string)
| Conflict (c : ErrorCode) (m : string)
| Gone (c : ErrorCode) (m : string)
| PayloadTooLarge (c : ErrorCode) (m : string)
| UnprocessableEntity (c : ErrorCode) (m : string)
| ServiceUnavailable (c : ErrorCode) (m : string)
| DataInconsistency (m : string)
| Internal (m : string).

Abbreviation WebResult A := (result A WebError).

Definition web_status (e : WebError) : Z :=
  match e with
  | BadRequest _ _ => 400
  | Unauthorized _ _ => 401
  | Forbidden _ _ => 403
  | NotFound _ _ => 404
  | Conflict _ _ => 409
  | Gone _ _ => 410
  | PayloadTooLarge _ _ => 413
  | UnprocessableEntity _ _ => 422
  | ServiceUnavailable _ _ => 503
  | DataInconsistency _ | Internal _ => 500
  end.

Definition bad_request (m : string) : WebError := BadRequest "bad_request" m.
Definition unauthorized (m : string) : WebError := Unauthorized "unauthorized" m.
Definition forbidden (m : string) : WebError := Forbidden "forbidden" m.
Definition forbidden_with (c : ErrorCode) (m : string) : WebError := Forbidden c m.
Definition bad_request_with (c : ErrorCode) (m : string) : WebError := BadRequest c m.
Definition conflict (m : string) : WebError := Conflict "conflict" m.
Definition invalid_name (name : string) : WebError := BadRequest "invalid_name" ("Invalid " +:+ name).
Definition already_exists (resource : string) : WebError :=
  Conflict "already_exists" (resource +:+ " already exists").
Definition not_found (resource : string) : WebError := NotFound "not_found" (resource +:+ " not found").

(** [Option::ok_or_else] and [OptionExt::or_not_found]. *)
Definition ok_or {A} (o : option A) (e : WebError) : WebResult A :=
  match o with Some x => Ok x | None => Err e end.
Definition or_not_found {A} (o : option A) (resource : string) : WebResult A := ok_or o (not_found resource).

(** ** Organization permissions *)

Inductive Permission :=
| ViewOrg | ManageOrgSettings | DeleteOrg | ManageMembers | ManageRoles | ManageIntegrations
| ManageActions | ManageWorkers | ManageSubscriptions | ManageSshKey
| CreateProject | EditProject | TriggerEvaluation | ManageTriggers.

#[export] Instance Permission_eq_dec : EqDecision Permission.
Proof. solve_decision. Defined.

Definition PERMISSION_ALL : list Permission :=
  [ViewOrg; ManageOrgSettings; DeleteOrg; ManageMembers; ManageRoles; ManageIntegrations;
   ManageActions; ManageWorkers; ManageSubscriptions; ManageSshKey;
   CreateProject; EditProject; TriggerEvaluation; ManageTriggers].

Definition permission_pos (p : Permission) : Z :=
  match p with
  | ViewOrg => 0 | ManageOrgSettings => 1 | DeleteOrg => 2 | ManageMembers => 3 | ManageRoles => 4
  | ManageIntegrations => 5 | ManageActions => 6 | ManageWorkers => 7 | ManageSubscriptions => 8
  | ManageSshKey => 9 | CreateProject => 10 | EditProject => 11 | TriggerEvaluation => 12
  | ManageTriggers => 13
  end.
Definition permission_bit (p : Permission) : PermissionMask := Z.shiftl 1 (permission_pos p).

Definition permission_wire_name (p : Permission) : string :=
  match p with
  | ViewOrg => "viewOrg" | ManageOrgSettings => "manageOrgSettings" | DeleteOrg => "deleteOrg"
  | ManageMembers => "manageMembers" | ManageRoles => "manageRoles"
  | ManageIntegrations => "manageIntegrations" | ManageActions => "manageActions"
  | ManageWorkers => "manageWorkers" | ManageSubscriptions => "manageSubscriptions"
  | ManageSshKey => "manageSshKey" | CreateProject => "createProject" | EditProject => "editProject"
  | TriggerEvaluation => "triggerEvaluation" | ManageTriggers => "manageTriggers"
  end.

Definition permission_from_wire_name (s : string) : option Permission :=
  List.find (fun p => (permission_wire_name p =? s)%string) PERMISSION_ALL.

Definition mask_grants (mask : PermissionMask) (p : Permission) : bool :=
  negb (Z.land mask (permission_bit p) =? 0).
Definition mask_from (perms : list Permission) : PermissionMask :=
  foldl (fun acc p => Z.lor acc (permission_bit p)) 0 perms.
Definition mask_to_vec (mask : PermissionMask) : list Permission :=
  filter (fun p => mask_grants mask p = true) PERMISSION_ALL.

Definition is_mutating (p : Permission) : bool := match p with ViewOrg => false | _ => true end.

Definition admin_mask : PermissionMask := mask_from PERMISSION_ALL.
Definition write_mask : PermissionMask :=
  mask_from [ViewOrg; ManageIntegrations; ManageActions; ManageWorkers; ManageSubscriptions;
             ManageSshKey; CreateProject; EditProject; TriggerEvaluation; ManageTriggers].
Definition view_mask : PermissionMask :=
  mask_from [ViewOrg; ManageIntegrations; ManageWorkers; ManageSubscriptions; ManageSshKey].

Definition BASE_ROLE_ADMIN_ID : RoleId := 1%N.
Definition BASE_ROLE_WRITE_ID : RoleId := 2%N.
Definition BASE_ROLE_VIEW_ID : RoleId := 3%N.
Definition is_builtin_role (r : RoleId) : bool :=
  (r =? BASE_ROLE_ADMIN_ID)%N || (r =? BASE_ROLE_WRITE_ID)%N || (r =? BASE_ROLE_VIEW_ID)%N.

(** ** Cache permissions *)

Inductive CachePermission :=
| ViewCache | ReadStore | WriteStore | ManageCacheSettings | ManageCacheKeys | ManageCacheUpstreams
| ManageCacheMembers | ManageCacheRoles | ManageCacheSubscriptions | DeleteCache.

#[export] Instance CachePermission_eq_dec : EqDecision CachePermission.
Proof. solve_decision. Defined.

Definition CACHE_PERMISSION_ALL : list CachePermission :=
  [ViewCache; ReadStore; WriteStore; ManageCacheSettings; ManageCacheKeys; ManageCacheUpstreams;
   ManageCacheMembers; ManageCacheRoles; ManageCacheSubscriptions; DeleteCache].

Definition cache_permission_pos (p : CachePermission) : Z :=
  match p with
  | ViewCache => 0 | ReadStore => 1 | WriteStore => 2 | ManageCacheSettings => 3 | ManageCacheKeys => 4
  | ManageCacheUpstreams => 5 | ManageCacheMembers => 6 | ManageCacheRoles => 7
  | ManageCacheSubscriptions => 8 | DeleteCache => 9
  end.
Definition cache_permission_bit (p : CachePermission) : PermissionMask := Z.shiftl 1 (cache_permission_pos p).

Definition cache_permission_wire_name (p : CachePermission) : string :=
  match p with
  | ViewCache => "viewCache" | ReadStore => "readStore" | WriteStore => "writeStore"
  | ManageCacheSettings => "manageCacheSettings" | ManageCacheKeys => "manageCacheKeys"
  | ManageCacheUpstreams => "manageCacheUpstreams" | ManageCacheMembers => "manageCacheMembers"
  | ManageCacheRoles => "manageCacheRoles" | ManageCacheSubscriptions => "manageCacheSubscriptions"
  | DeleteCache => "deleteCache"
  end.

Definition cache_permission_from_wire_name (s : string) : option CachePermission :=
  List.find (fun p => (cache_permission_wire_name p =? s)%string) CACHE_PERMISSION_ALL.

Definition cache_mask_grants (mask : PermissionMask) (p : CachePermission) : bool :=
  negb (Z.land mask (cache_permission_bit p) =? 0).
Definition cache_mask_from (perms : list CachePermission) : PermissionMask :=
  foldl (fun acc p => Z.lor acc (cache_permission_bit p)) 0 perms.
Definition cache_mask_to_vec (mask : PermissionMask) : list CachePermission :=
  filter (fun p => cache_mask_grants mask p = true) CACHE_PERMISSION_ALL.

Definition is_cache_mutating (p : CachePermission) : bool :=
  match p with ViewCache | ReadStore => false | _ => true end.

Definition cache_admin_mask : PermissionMask := cache_mask_from CACHE_PERMISSION_ALL.
Definition cache_write_mask : PermissionMask := cache_mask_from [ViewCache; ReadStore; WriteStore].
Definition cache_view_mask : PermissionMask := cache_mask_from [ViewCache; ReadStore].

Definition BASE_CACHE_ROLE_ADMIN_ID : RoleId := 17%N.
Definition BASE_CACHE_ROLE_WRITE_ID : RoleId := 18%N.
Definition BASE_CACHE_ROLE_VIEW_ID : RoleId := 19%N.
Definition is_builtin_cache_role (r : RoleId) : bool :=
  (r =? BASE_CACHE_ROLE_ADMIN_ID)%N || (r =? BASE_CACHE_ROLE_WRITE_ID)%N || (r =? BASE_CACHE_ROLE_VIEW_ID)%N.

(** ** The web layer *)

Record PermissionEntry := { entry_id : string; entry_mutating : bool }.

Definition available_permissions : list PermissionEntry :=
  map (fun p => {| entry_id := permission_wire_name p; entry_mutating := is_mutating p |}) PERMISSION_ALL.
Definition available_cache_permissions : list PermissionEntry :=
  map (fun p => {| entry_id := cache_permission_wire_name p; entry_mutating := is_cache_mutating p |})
      CACHE_PERMISSION_ALL.

(** The loop of both parsers: stop at the first unknown name. *)
Fixpoint parse_wire {P} (parse : string -> option P) (unknown : string -> WebError) (wire : list string)
    : WebResult (list P) :=
  match wire with
  | [] => Ok []
  | w :: wire =>
      let? p := ok_or (parse w) (unknown w) in
      let? ps := parse_wire parse unknown wire in
      Ok (p :: ps)
  end.

Definition parse_permission_list (wire : list string) (catalogue_hint : string) : WebResult PermissionMask :=
  let? perms := parse_wire permission_from_wire_name
    (fun w => bad_request ("Unknown permission '" +:+ w +:+ "'. See " +:+ catalogue_hint +:+ " for the catalogue."))
    wire in
  Ok (mask_from perms).

Definition parse_cache_permission_list (wire : list string) (catalogue_hint : string) : WebResult PermissionMask :=
  let? perms := parse_wire cache_permission_from_wire_name
    (fun w => bad_request ("Unknown cache permission '" +:+ w +:+ "'. See " +:+ catalogue_hint +:+ " for the catalogue."))
    wire in
  Ok (cache_mask_from perms).

(** ** Masks as sets of capabilities

    What both kinds of permission share: a complete duplicate-free catalogue whose members
    have distinct bit positions below the sign bit and distinct names. *)
Class Capability (P : Type) := {
  pm_all : list P;
  pm_pos : P -> Z;
  pm_name : P -> string;
  pm_complete : forall p, p ∈ pm_all;
  pm_pos_range : forall p, 0 <= pm_pos p < 63;
  pm_pos_inj : Inj (=) (=) pm_pos;
  pm_name_inj : Inj (=) (=) pm_name;
}.
#[export] Existing Instance pm_pos_inj.
#[export] Existing Instance pm_name_inj.

#[export] Program Instance Permission_capability : Capability Permission := {|
  pm_all := PERMISSION_ALL; pm_pos := permission_pos; pm_name := permission_wire_name |}.
Next Obligation. intros []; vm_compute; repeat constructor. Qed.
Next Obligation. intros []; simpl; lia. Qed.
Next Obligation. intros [] []; simpl; congruence. Qed.
Next Obligation. intros [] []; simpl; congruence. Qed.

#[export] Program Instance CachePermission_capability : Capability CachePermission := {|
  pm_all := CACHE_PERMISSION_ALL; pm_pos := cache_permission_pos; pm_name := cache_permission_wire_name |}.
Next Obligation. intros []; vm_compute; repeat constructor. Qed.
Next Obligation. intros []; simpl; lia. Qed.
Next Obligation. intros [] []; simpl; congruence. Qed.
Next Obligation. intros [] []; simpl; congruence. Qed.

(** A mask holds [p]. *)
Definition holds {P} `{Capability P} (m : PermissionMask) (p : P) : bool := Z.testbit m (pm_pos p).

(** A mask of the catalogue: no bit outside it. *)
Definition well_typed_mask P `{Capability P} (m : PermissionMask) : Prop :=
  0 <= m /\ forall i, Z.testbit m i = true -> exists p : P, i = pm_pos p.

Section Masks.
Context {P : Type} `{CP : Capability P}.
Implicit Types (p q : P) (m : PermissionMask).

Definition union_of (l : list P) : PermissionMask := foldl (fun acc p => Z.lor acc (Z.shiftl 1 (pm_pos p))) 0 l.

Lemma testbit_bit p i : 0 <= i -> Z.testbit (Z.shiftl 1 (pm_pos p)) i = (i =? pm_pos p).
Proof.
  intros Hi. pose proof (pm_pos_range p). rewrite Z.shiftl_spec by lia.
  destruct (Z.eqb_spec i (pm_pos p)) as [->|Hn].
  - by rewrite Z.sub_diag.
  - destruct (Z_lt_le_dec i (pm_pos p)); [by rewrite Z.testbit_neg_r by lia|].
    rewrite (Z.bits_above_log2 1); [done|lia|simpl; lia].
Qed.

Lemma land_bit_zero m p : negb (Z.land m (Z.shiftl 1 (pm_pos p)) =? 0) = holds m p.
Proof.
  pose proof (pm_pos_range p) as Hr. unfold holds. destruct (Z.testbit m (pm_pos p)) eqn:E.
  - apply negb_true_iff, Z.eqb_neq. intros Hz.
    assert (Z.testbit (Z.land m (Z.shiftl 1 (pm_pos p))) (pm_pos p) = false) as Hf by (rewrite Hz; apply Z.testbit_0_l).
    rewrite Z.land_spec, E, testbit_bit, Z.eqb_refl in Hf by lia. done.
  - apply negb_false_iff, Z.eqb_eq. apply Z.bits_inj'. intros i Hi.
    rewrite Z.land_spec, testbit_bit, Z.testbit_0_l by lia.
    destruct (Z.eqb_spec i (pm_pos p)) as [->|]; [by rewrite E|by rewrite andb_false_r].
Qed.

Lemma union_of_acc acc l i : 0 <= i ->
  Z.testbit (foldl (fun acc p => Z.lor acc (Z.shiftl 1 (pm_pos p))) acc l) i = true <->
  Z.testbit acc i = true \/ exists p, p ∈ l /\ i = pm_pos p.
Proof.
  intros Hi. revert acc. induction l as [|p l IH]; intros acc; simpl.
  - set_solver.
  - rewrite IH, Z.lor_spec, orb_true_iff, testbit_bit, Z.eqb_eq by done. set_solver.
Qed.

Lemma union_of_spec l i : 0 <= i -> Z.testbit (union_of l) i = true <-> exists p, p ∈ l /\ i = pm_pos p.
Proof. intros Hi. unfold union_of. rewrite union_of_acc by done. rewrite Z.testbit_0_l. naive_solver. Qed.

Lemma union_of_nonneg l : 0 <= union_of l.
Proof.
  unfold union_of. assert (forall acc, 0 <= acc -> 0 <= foldl (fun acc p => Z.lor acc (Z.shiftl 1 (pm_pos p))) acc l) as H.
  { induction l as [|p l IH]; intros acc Ha; simpl; [done|]. apply IH, Z.lor_nonneg. split; [done|].
    by apply Z.shiftl_nonneg. }
  by apply H.
Qed.

Lemma holds_union l p : holds (union_of l) p = true <-> p ∈ l.
Proof.
  unfold holds. rewrite union_of_spec by apply pm_pos_range. split; [|by eauto].
  by intros (q & Hq & ->%(inj pm_pos)).
Qed.

Lemma union_of_typed l : well_typed_mask P (union_of l).
Proof.
  split; [apply union_of_nonneg|]. intros i Hi.
  destruct (Z_lt_le_dec i 0); [by rewrite Z.testbit_neg_r in Hi|].
  apply union_of_spec in Hi as (p & _ & ->); eauto.
Qed.

(** A well-typed mask is determined by what it holds. *)
Lemma masks_equal m m' :
  well_typed_mask P m -> well_typed_mask P m' -> (forall p, holds m p = holds m' p) -> m = m'.
Proof.
  intros [Hm Hb] [Hm' Hb'] He. apply Z.bits_inj'. intros i Hi.
  destruct (Z.testbit m i) eqn:E.
  - destruct (Hb i E) as [p ->]. rewrite <- E. apply He.
  - destruct (Z.testbit m' i) eqn:E'; [|done]. destruct (Hb' i E') as [p ->].
    specialize (He p). unfold holds in He. congruence.
Qed.

Lemma typed_land m m' : well_typed_mask P m -> well_typed_mask P (Z.land m m').
Proof.
  intros [Hm Hb]. split; [apply Z.land_nonneg; by left|].
  intros i. rewrite Z.land_spec, andb_true_iff. intros [Hi _]. by apply Hb.
Qed.

Lemma holds_land m m' p : holds (Z.land m m') p = holds m p && holds m' p.
Proof. unfold holds. apply Z.land_spec. Qed.

(** [m & !granted == 0]: every capability of [m] is granted. *)
Lemma ldiff_zero m granted :
  well_typed_mask P m ->
  Z.land m (Z.lnot granted) = 0 <-> forall p, holds m p = true -> holds granted p = true.
Proof.
  intros [Hm Hb]. split.
  - intros Hz p Hp. unfold holds in *. pose proof (pm_pos_range p).
    assert (Z.testbit (Z.land m (Z.lnot granted)) (pm_pos p) = false) as Hf by (rewrite Hz; apply Z.testbit_0_l).
    rewrite Z.land_spec, Z.lnot_spec, Hp in Hf by lia. by destruct (Z.testbit granted (pm_pos p)).
  - intros Hall. apply Z.bits_inj'. intros i Hi. rewrite Z.land_spec, Z.lnot_spec, Z.testbit_0_l by lia.
    destruct (Z.testbit m i) eqn:E; [|done]. destruct (Hb i E) as [p ->].
    specialize (Hall p E). unfold holds in Hall. by rewrite Hall.
Qed.

Lemma holds_max m p : holds (Z.land m (2 ^ 63 - 1)) p = holds m p.
Proof.
  rewrite holds_land. unfold holds. pose proof (pm_pos_range p).
  replace (2 ^ 63 - 1) with (Z.ones 63) by done. rewrite Z.ones_spec_low by lia. apply andb_true_r.
Qed.

End Masks.

(** ** The two catalogues *)

Lemma mask_grants_holds m p : mask_grants m p = holds m p.
Proof. rewrite <- land_bit_zero. reflexivity. Qed.

Lemma cache_mask_grants_holds m p : cache_mask_grants m p = holds m p.
Proof. rewrite <- land_bit_zero. reflexivity. Qed.

Lemma mask_from_union l : mask_from l = union_of l.
Proof. reflexivity. Qed.

Lemma cache_mask_from_union l : cache_mask_from l = union_of l.
Proof. reflexivity. Qed.

Lemma mask_from_holds l p : holds (mask_from l) p = true <-> p ∈ l.
Proof. rewrite mask_from_union. apply holds_union. Qed.

Lemma cache_mask_from_holds l p : holds (cache_mask_from l) p = true <-> p ∈ l.
Proof. rewrite cache_mask_from_union. apply holds_union. Qed.

Lemma mask_from_typed l : well_typed_mask Permission (mask_from l).
Proof. rewrite mask_from_union. apply union_of_typed. Qed.

Lemma cache_mask_from_typed l : well_typed_mask CachePermission (cache_mask_from l).
Proof. rewrite cache_mask_from_union. apply union_of_typed. Qed.

Lemma elem_of_mask_to_vec m p : p ∈ mask_to_vec m <-> holds m p = true.
Proof. unfold mask_to_vec. rewrite list_elem_of_filter, mask_grants_holds. pose proof (pm_complete p). naive_solver. Qed.

Lemma elem_of_cache_mask_to_vec m p : p ∈ cache_mask_to_vec m <-> holds m p = true.
Proof.
  unfold cache_mask_to_vec. rewrite list_elem_of_filter, cache_mask_grants_holds. pose proof (pm_complete p). naive_solver.
Qed.

Lemma mask_from_to_vec m : well_typed_mask Permission m -> mask_from (mask_to_vec m) = m.
Proof.
  intros Hm. apply (masks_equal (P:=Permission)); [apply mask_from_typed|done|]. intros p.
  apply eq_bool_prop_intro. by rewrite !Is_true_true, mask_from_holds, elem_of_mask_to_vec.
Qed.

Lemma cache_mask_from_to_vec m : well_typed_mask CachePermission m -> cache_mask_from (cache_mask_to_vec m) = m.
Proof.
  intros Hm. apply (masks_equal (P:=CachePermission)); [apply cache_mask_from_typed|done|]. intros p.
  apply eq_bool_prop_intro. by rewrite !Is_true_true, cache_mask_from_holds, elem_of_cache_mask_to_vec.
Qed.

(** Finding a capability by its name. *)
Lemma find_by_name {P} `{CP : Capability P} p :
  List.find (fun q => (pm_name q =? pm_name p)%string) pm_all = Some p.
Proof.
  destruct (List.find _ pm_all) as [q|] eqn:E.
  - apply List.find_some in E as [_ E]. apply String.eqb_eq, (inj pm_name) in E. by subst.
  - exfalso. pose proof (List.find_none _ _ E p (proj1 (list_elem_of_In _ _) (pm_complete p))) as Hn.
    simpl in Hn. by rewrite String.eqb_refl in Hn.
Qed.

Lemma permission_wire_roundtrip p : permission_from_wire_name (permission_wire_name p) = Some p.
Proof. exact (find_by_name p). Qed.

Lemma cache_permission_wire_roundtrip p : cache_permission_from_wire_name (cache_permission_wire_name p) = Some p.
Proof. exact (find_by_name p). Qed.

Lemma parse_wire_names {P} (parse : string -> option P) name unknown l :
  (forall p, parse (name p) = Some p) -> parse_wire parse unknown (map name l) = Ok l.
Proof. intros H. induction l as [|p l IH]; simpl; [done|]. rewrite H; simpl. by rewrite IH. Qed.

Lemma parse_permission_list_roundtrip m hint :
  well_typed_mask Permission m -> parse_permission_list (map permission_wire_name (mask_to_vec m)) hint = Ok m.
Proof.
  intros Hm. unfold parse_permission_list. rewrite parse_wire_names by apply permission_wire_roundtrip. simpl.
  by rewrite mask_from_to_vec.
Qed.

Lemma parse_cache_permission_list_roundtrip m hint :
  well_typed_mask CachePermission m ->
  parse_cache_permission_list (map cache_permission_wire_name (cache_mask_to_vec m)) hint = Ok m.
Proof.
  intros Hm. unfold parse_cache_permission_list. rewrite parse_wire_names by apply cache_permission_wire_roundtrip. simpl.
  by rewrite cache_mask_from_to_vec.
Qed.

(** What is parsed is a mask of the catalogue. *)
Lemma parse_permission_list_typed wire hint m :
  parse_permission_list wire hint = Ok m -> well_typed_mask Permission m.
Proof. intros (ps & _ & [= <-])%result_bind_ok. apply mask_from_typed. Qed.

Lemma parse_cache_permission_list_typed wire hint m :
  parse_cache_permission_list wire hint = Ok m -> well_typed_mask CachePermission m.
Proof. intros (ps & _ & [= <-])%result_bind_ok. apply cache_mask_from_typed. Qed.
