(* ===== verification/Access.v ===== *)
(** * Access control

    The rows the access layer reads, the caller, the access policies and the loaders that
    hand an endpoint its resource or the error it answers with
    ([backend/gradient-web/src/access.rs], the API-key context of
    [backend/gradient-web/src/authorization/api_key.rs], the lookups by name of
    [backend/gradient-db/src/connection.rs], the rows of [backend/gradient-entity/src/]).

    A table is the list of its rows; [.one()] of a filtered query is the first row that
    passes the filter. Columns no modelled query reads are left out. Database errors, which
    the code passes on as internal errors, are not modelled. *)

From S2P Require Import Prelude ScoreContext Permissions.

Local Open Scope N_scope.

Abbreviation UserId := N.
Abbreviation CacheId := N.
Abbreviation ApiId := N.
Abbreviation SessionId := N.
Abbreviation ProjectRowId := N.

(** ** Rows *)
Section Rows.
Context `{Chrono}.

Record MUser := { usr_id : UserId; usr_username : string; usr_active : bool }.

Record MOrganization := { ogn_id : OrganizationId; ogn_name : string; ogn_public : bool; ogn_managed : bool }.

Record MOrganizationUser := {
  omb_id : N; omb_organization : OrganizationId; omb_user : UserId; omb_role : RoleId
}.

Record MRole := {
  orl_id : RoleId; orl_name : string; orl_organization : option OrganizationId;
  orl_permission : PermissionMask; orl_managed : bool
}.

Record MProject := {
  pjt_id : ProjectRowId; pjt_organization : OrganizationId; pjt_name : string; pjt_managed : bool
}.

Record MCache := {
  cch_id : CacheId; cch_name : string; cch_public : bool; cch_created_by : UserId; cch_managed : bool
}.

Record MCacheUser := { cmb_id : N; cmb_cache : CacheId; cmb_user : UserId; cmb_role : RoleId }.

Record MCacheRole := {
  crl_id : RoleId; crl_name : string; crl_cache : option CacheId;
  crl_permission : PermissionMask; crl_managed : bool
}.

Record MOrganizationCache := { ocs_id : N; ocs_organization : OrganizationId; ocs_cache : CacheId }.

Record MApi := {
  key_id : ApiId;
  key_owned_by : UserId;
  key_name : string;
  key_key : string;
  key_last_used_at : NaiveDateTime;
  key_created_at : NaiveDateTime;
  key_managed : bool;
  key_expires_at : option NaiveDateTime;
  key_revoked_at : option NaiveDateTime;
  key_permission : PermissionMask;
  key_organization : option OrganizationId;
  key_cache : option CacheId;
  key_allowed_ips : option (list string);
}.

Record MSession := {
  ses_id : SessionId;
  ses_user_id : UserId;
  ses_created_at : NaiveDateTime;
  ses_expires_at : NaiveDateTime;
  ses_last_used_at : NaiveDateTime;
  ses_revoked_at : option NaiveDateTime;
}.

(** A row of the audit log: who, which event, and the reason of a denial. *)
Record AuditEntry := { aud_user : option UserId; aud_event : string; aud_reason : option string }.

Record AccessDb := {
  ad_users : list MUser;
  ad_organizations : list MOrganization;
  ad_organization_users : list MOrganizationUser;
  ad_roles : list MRole;
  ad_projects : list MProject;
  ad_caches : list MCache;
  ad_cache_users : list MCacheUser;
  ad_cache_roles : list MCacheRole;
  ad_organization_caches : list MOrganizationCache;
  ad_apis : list MApi;
  ad_sessions : list MSession;
  ad_audit : list AuditEntry;
}.

(** ** Table updates *)

Definition set_organizations (db : AccessDb) (l : list MOrganization) : AccessDb := {|
  ad_users := ad_users db; ad_organizations := l;
  ad_organization_users := ad_organization_users db; ad_roles := ad_roles db;
  ad_projects := ad_projects db; ad_caches := ad_caches db; ad_cache_users := ad_cache_users db;
  ad_cache_roles := ad_cache_roles db; ad_organization_caches := ad_organization_caches db;
  ad_apis := ad_apis db; ad_sessions := ad_sessions db; ad_audit := ad_audit db
|}.

Definition set_organization_users (db : AccessDb) (l : list MOrganizationUser) : AccessDb := {|
  ad_users := ad_users db; ad_organizations := ad_organizations db; ad_organization_users := l;
  ad_roles := ad_roles db; ad_projects := ad_projects db; ad_caches := ad_caches db;
  ad_cache_users := ad_cache_users db; ad_cache_roles := ad_cache_roles db;
  ad_organization_caches := ad_organization_caches db; ad_apis := ad_apis db;
  ad_sessions := ad_sessions db; ad_audit := ad_audit db
|}.

Definition set_roles (db : AccessDb) (l : list MRole) : AccessDb := {|
  ad_users := ad_users db; ad_organizations := ad_organizations db;
  ad_organization_users := ad_organization_users db; ad_roles := l;
  ad_projects := ad_projects db; ad_caches := ad_caches db; ad_cache_users := ad_cache_users db;
  ad_cache_roles := ad_cache_roles db; ad_organization_caches := ad_organization_caches db;
  ad_apis := ad_apis db; ad_sessions := ad_sessions db; ad_audit := ad_audit db
|}.

Definition set_projects (db : AccessDb) (l : list MProject) : AccessDb := {|
  ad_users := ad_users db; ad_organizations := ad_organizations db;
  ad_organization_users := ad_organization_users db; ad_roles := ad_roles db; ad_projects := l;
  ad_caches := ad_caches db; ad_cache_users := ad_cache_users db;
  ad_cache_roles := ad_cache_roles db; ad_organization_caches := ad_organization_caches db;
  ad_apis := ad_apis db; ad_sessions := ad_sessions db; ad_audit := ad_audit db
|}.

Definition set_caches (db : AccessDb) (l : list MCache) : AccessDb := {|
  ad_users := ad_users db; ad_organizations := ad_organizations db;
  ad_organization_users := ad_organization_users db; ad_roles := ad_roles db;
  ad_projects := ad_projects db; ad_caches := l; ad_cache_users := ad_cache_users db;
  ad_cache_roles := ad_cache_roles db; ad_organization_caches := ad_organization_caches db;
  ad_apis := ad_apis db; ad_sessions := ad_sessions db; ad_audit := ad_audit db
|}.

Definition set_cache_users (db : AccessDb) (l : list MCacheUser) : AccessDb := {|
  ad_users := ad_users db; ad_organizations := ad_organizations db;
  ad_organization_users := ad_organization_users db; ad_roles := ad_roles db;
  ad_projects := ad_projects db; ad_caches := ad_caches db; ad_cache_users := l;
  ad_cache_roles := ad_cache_roles db; ad_organization_caches := ad_organization_caches db;
  ad_apis := ad_apis db; ad_sessions := ad_sessions db; ad_audit := ad_audit db
|}.

Definition set_cache_roles (db : AccessDb) (l : list MCacheRole) : AccessDb := {|
  ad_users := ad_users db; ad_organizations := ad_organizations db;
  ad_organization_users := ad_organization_users db; ad_roles := ad_roles db;
  ad_projects := ad_projects db; ad_caches := ad_caches db; ad_cache_users := ad_cache_users db;
  ad_cache_roles := l; ad_organization_caches := ad_organization_caches db;
  ad_apis := ad_apis db; ad_sessions := ad_sessions db; ad_audit := ad_audit db
|}.

Definition set_organization_caches (db : AccessDb) (l : list MOrganizationCache) : AccessDb := {|
  ad_users := ad_users db; ad_organizations := ad_organizations db;
  ad_organization_users := ad_organization_users db; ad_roles := ad_roles db;
  ad_projects := ad_projects db; ad_caches := ad_caches db; ad_cache_users := ad_cache_users db;
  ad_cache_roles := ad_cache_roles db; ad_organization_caches := l; ad_apis := ad_apis db;
  ad_sessions := ad_sessions db; ad_audit := ad_audit db
|}.

Definition set_apis (db : AccessDb) (l : list MApi) : AccessDb := {|
  ad_users := ad_users db; ad_organizations := ad_organizations db;
  ad_organization_users := ad_organization_users db; ad_roles := ad_roles db;
  ad_projects := ad_projects db; ad_caches := ad_caches db; ad_cache_users := ad_cache_users db;
  ad_cache_roles := ad_cache_roles db; ad_organization_caches := ad_organization_caches db;
  ad_apis := l; ad_sessions := ad_sessions db; ad_audit := ad_audit db
|}.

Definition set_sessions (db : AccessDb) (l : list MSession) : AccessDb := {|
  ad_users := ad_users db; ad_organizations := ad_organizations db;
  ad_organization_users := ad_organization_users db; ad_roles := ad_roles db;
  ad_projects := ad_projects db; ad_caches := ad_caches db; ad_cache_users := ad_cache_users db;
  ad_cache_roles := ad_cache_roles db; ad_organization_caches := ad_organization_caches db;
  ad_apis := ad_apis db; ad_sessions := l; ad_audit := ad_audit db
|}.

Definition set_audit_log (db : AccessDb) (l : list AuditEntry) : AccessDb := {|
  ad_users := ad_users db; ad_organizations := ad_organizations db;
  ad_organization_users := ad_organization_users db; ad_roles := ad_roles db;
  ad_projects := ad_projects db; ad_caches := ad_caches db; ad_cache_users := ad_cache_users db;
  ad_cache_roles := ad_cache_roles db; ad_organization_caches := ad_organization_caches db;
  ad_apis := ad_apis db; ad_sessions := ad_sessions db; ad_audit := l
|}.

(** [audit::record] inserts a row; who, which event, and the reason of a denial are kept. *)
Definition audit_record (db : AccessDb) (user_id : option UserId) (event : string) (reason : option string) : AccessDb :=
  set_audit_log db (ad_audit db ++ [{| aud_user := user_id; aud_event := event; aud_reason := reason |}]).

(** ** Lookups *)

(** [find().filter(..).one()] *)
Definition one {A} (f : A -> bool) (l : list A) : option A := List.find f l.

Definition get_any_organization_by_name (db : AccessDb) (name : string) : option MOrganization :=
  one (fun o => (ogn_name o =? name)%string) (ad_organizations db).

Definition get_any_project_by_name (db : AccessDb) (organization_name project_name : string)
    : option (MOrganization * MProject) :=
  match get_any_organization_by_name db organization_name with
  | Some o =>
      (fun p => (o, p)) <$> one (fun p => (pjt_organization p =? ogn_id o) && (pjt_name p =? project_name)%string)
                                (ad_projects db)
  | None => None
  end.

Definition get_any_cache_by_name (db : AccessDb) (name : string) : option MCache :=
  one (fun c => (cch_name c =? name)%string) (ad_caches db).

Definition role_by_id (db : AccessDb) (id : RoleId) : option MRole := one (fun r => orl_id r =? id) (ad_roles db).
Definition cache_role_by_id (db : AccessDb) (id : RoleId) : option MCacheRole :=
  one (fun r => crl_id r =? id) (ad_cache_roles db).
Definition user_by_id (db : AccessDb) (id : UserId) : option MUser := one (fun u => usr_id u =? id) (ad_users db).

(** ** Caller and policies *)

Inductive Caller := Anon | CallerUser (u : MUser).

Definition from_option (maybe : option MUser) : Caller :=
  match maybe with Some u => CallerUser u | None => Anon end.
Definition caller_user_id (c : Caller) : option UserId :=
  match c with CallerUser u => Some (usr_id u) | Anon => None end.

Record ApiKeyContext := {
  kc_api_id : ApiId;
  kc_mask : PermissionMask;
  kc_organization : option OrganizationId;
  kc_cache_pin : option CacheId;
  kc_cache_permission_mask : option PermissionMask;
  kc_allowed_ips : list string;
}.

Inductive OrgAccess :=
| OrgReadable (label : string)
| OrgRequire (permission : Permission) (reject_managed : bool)
| OrgMember (reject_managed : bool).

Inductive ProjectAccess :=
| ProjectReadable
| ProjectRequire (permission : Permission) (reject_managed : bool)
| ProjectMember.

Inductive CacheAccess :=
| CacheReadable
| CacheRequire (permission : CachePermission) (reject_managed : bool)
| CacheMember (reject_managed : bool).

(** ** Predicates *)

(** [if let Some(ctx) = api_key && let Some(pinned) = ctx.organization && pinned != id]. *)
Definition pinned_elsewhere (api_key : option ApiKeyContext) (organization_id : OrganizationId) : bool :=
  match api_key with
  | Some ctx => match kc_organization ctx with Some pinned => negb (pinned =? organization_id) | None => false end
  | None => false
  end.

Definition load_org_membership (db : AccessDb) (user_id : UserId) (organization_id : OrganizationId)
    : option MOrganizationUser :=
  one (fun m => (omb_organization m =? organization_id) && (omb_user m =? user_id)) (ad_organization_users db).

Definition is_org_member (db : AccessDb) (user_id : UserId) (organization_id : OrganizationId)
    (api_key : option ApiKeyContext) : bool :=
  if pinned_elsewhere api_key organization_id then false
  else match load_org_membership db user_id organization_id with Some _ => true | None => false end.

Definition load_membership_with_permissions (db : AccessDb) (user_id : UserId) (organization_id : OrganizationId)
    (api_key : option ApiKeyContext) : option (MOrganizationUser * PermissionMask) :=
  if pinned_elsewhere api_key organization_id then None
  else
    match load_org_membership db user_id organization_id with
    | None => None
    | Some membership =>
        let mask := default 0%Z (orl_permission <$> role_by_id db (omb_role membership)) in
        let effective := match api_key with Some ctx => Z.land mask (kc_mask ctx) | None => mask end in
        Some (membership, effective)
    end.

Definition has_permission (db : AccessDb) (user_id : UserId) (organization_id : OrganizationId)
    (permission : Permission) (api_key : option ApiKeyContext) : bool :=
  match load_membership_with_permissions db user_id organization_id api_key with
  | Some (_, mask) => mask_grants mask permission
  | None => false
  end.

Definition require_org_permission (db : AccessDb) (user_id : UserId) (org_id : OrganizationId)
    (permission : Permission) (not_found_label : string) (api_key : option ApiKeyContext) : WebResult unit :=
  let? r := or_not_found (load_membership_with_permissions db user_id org_id api_key) not_found_label in
  if negb (mask_grants (snd r) permission)
  then Err (forbidden "You do not have permission to perform this action.") else Ok tt.

Definition reject_managed_org (org : MOrganization) : WebResult unit :=
  if ogn_managed org
  then Err (forbidden "Cannot modify state-managed organization. This organization is managed by configuration and cannot be edited through the API.")
  else Ok tt.

Definition is_cache_member (db : AccessDb) (user_id : UserId) (cache_id : CacheId)
    (_api_key : option ApiKeyContext) : bool :=
  match one (fun m => (cmb_cache m =? cache_id) && (cmb_user m =? user_id)) (ad_cache_users db) with
  | Some _ => true
  | None => false
  end.

Definition is_cache_org_subscriber (db : AccessDb) (user_id : UserId) (cache_id : CacheId)
    (api_key : option ApiKeyContext) : bool :=
  let subscriber_orgs :=
    map ocs_organization (List.filter (fun oc => ocs_cache oc =? cache_id) (ad_organization_caches db)) in
  let allowed :=
    match api_key ≫= kc_organization with
    | Some pinned => List.filter (fun o => o =? pinned) subscriber_orgs
    | None => subscriber_orgs
    end in
  match allowed with
  | [] => false
  | _ :: _ =>
      match one (fun m => (omb_user m =? user_id) && bool_decide (omb_organization m ∈ allowed))
                (ad_organization_users db) with
      | Some _ => true
      | None => false
      end
  end.

Definition cache_role_mask (db : AccessDb) (user_id : UserId) (cache_id : CacheId)
    : WebResult (option PermissionMask) :=
  match one (fun m => (cmb_cache m =? cache_id) && (cmb_user m =? user_id)) (ad_cache_users db) with
  | None => Ok None
  | Some mem =>
      let? role := or_not_found (cache_role_by_id db (cmb_role mem)) "Cache Role" in
      Ok (Some (crl_permission role))
  end.

Definition effective_cache_mask (db : AccessDb) (user_id : UserId) (cache_id : CacheId)
    (api_key : option ApiKeyContext) : WebResult (option PermissionMask) :=
  let? mask := cache_role_mask db user_id cache_id in
  match mask with
  | Some mask => Ok (Some mask)
  | None =>
      if is_cache_org_subscriber db user_id cache_id api_key then Ok (Some cache_view_mask) else Ok None
  end.

Definition I64_MAX : PermissionMask := (2 ^ 63 - 1)%Z.

Definition require_cache_permission (db : AccessDb) (user_id : UserId) (cache_id : CacheId)
    (permission : CachePermission) (label : string) (api_key : option ApiKeyContext) : WebResult unit :=
  let? found := cache_role_mask db user_id cache_id in
  let? role_mask := or_not_found found label in
  let key_mask := default I64_MAX (api_key ≫= kc_cache_permission_mask) in
  let effective := Z.land role_mask key_mask in
  if negb (cache_mask_grants effective permission)
  then Err (forbidden ("Missing cache permission `" +:+ cache_permission_wire_name permission +:+ "`."))
  else Ok tt.

Definition reject_managed_cache (cache : MCache) : WebResult unit :=
  if cch_managed cache
  then Err (forbidden "Cannot modify state-managed cache. This cache is managed by configuration and cannot be edited through the API.")
  else Ok tt.

(** ** Loaders *)

Definition CACHE_PINNED : WebError := forbidden "Cache-pinned API key cannot be used on this endpoint.".

Definition has_cache_pin (api_key : option ApiKeyContext) : bool :=
  match api_key ≫= kc_cache_pin with Some _ => true | None => false end.

(** Visible to [caller], who is asked only when the organization is private. *)
Definition org_visible (db : AccessDb) (caller : Caller) (org : MOrganization) (api_key : option ApiKeyContext) : bool :=
  match caller_user_id caller with
  | Some uid => is_org_member db uid (ogn_id org) api_key
  | None => false
  end.

Definition load_org (db : AccessDb) (caller : Caller) (api_key : option ApiKeyContext) (org_name : string)
    (access : OrgAccess) : WebResult MOrganization :=
  if has_cache_pin api_key then Err CACHE_PINNED else
  let label := match access with OrgReadable label => label | _ => "Organization"%string end in
  let? org := or_not_found (get_any_organization_by_name db org_name) label in
  let? _ :=
    match access with
    | OrgReadable _ =>
        if negb (ogn_public org) && negb (org_visible db caller org api_key) then Err (not_found label) else Ok tt
    | OrgMember reject_managed =>
        let? uid := or_not_found (caller_user_id caller) label in
        if negb (is_org_member db uid (ogn_id org) api_key) then Err (not_found label)
        else if reject_managed then reject_managed_org org else Ok tt
    | OrgRequire permission reject_managed =>
        let? uid := or_not_found (caller_user_id caller) label in
        let? _ := require_org_permission db uid (ogn_id org) permission label api_key in
        if reject_managed then reject_managed_org org else Ok tt
    end in
  Ok org.

Definition load_project (db : AccessDb) (caller : Caller) (api_key : option ApiKeyContext)
    (org_name project_name : string) (access : ProjectAccess) : WebResult (MOrganization * MProject) :=
  if has_cache_pin api_key then Err CACHE_PINNED else
  let label := "Project"%string in
  let? found := or_not_found (get_any_project_by_name db org_name project_name) label in
  let '(org, project) := found in
  let? _ :=
    match access with
    | ProjectReadable =>
        if negb (ogn_public org) && negb (org_visible db caller org api_key) then Err (not_found label) else Ok tt
    | ProjectMember =>
        let? uid := or_not_found (caller_user_id caller) label in
        if negb (is_org_member db uid (ogn_id org) api_key) then Err (not_found label) else Ok tt
    | ProjectRequire permission reject_managed =>
        let? uid := or_not_found (caller_user_id caller) label in
        let? _ := require_org_permission db uid (ogn_id org) permission label api_key in
        if reject_managed && pjt_managed project
        then Err (forbidden "Cannot modify state-managed project. This project is managed by configuration and cannot be edited through the API.")
        else Ok tt
    end in
  Ok (org, project).

Definition load_cache (db : AccessDb) (caller : Caller) (api_key : option ApiKeyContext) (cache_name : string)
    (access : CacheAccess) : WebResult MCache :=
  let label := "Cache"%string in
  let? cache := or_not_found (get_any_cache_by_name db cache_name) label in
  let? _ :=
    match api_key ≫= kc_cache_pin with
    | Some pin => if negb (pin =? cch_id cache) then Err (forbidden "API key is pinned to a different cache.") else Ok tt
    | None => Ok tt
    end in
  let? _ :=
    match access with
    | CacheReadable =>
        if negb (cch_public cache) then
          let visible :=
            match caller_user_id caller with
            | Some uid => is_cache_member db uid (cch_id cache) api_key
                          || is_cache_org_subscriber db uid (cch_id cache) api_key
            | None => false
            end in
          if negb visible then Err (not_found label) else Ok tt
        else Ok tt
    | CacheMember reject_managed =>
        let? uid := or_not_found (caller_user_id caller) label in
        if negb (is_cache_member db uid (cch_id cache) api_key) then Err (not_found label)
        else if reject_managed then reject_managed_cache cache else Ok tt
    | CacheRequire permission reject_managed =>
        let? uid := or_not_found (caller_user_id caller) label in
        let? _ := require_cache_permission db uid (cch_id cache) permission label api_key in
        if reject_managed then reject_managed_cache cache else Ok tt
    end in
  Ok cache.

(** [visible_cache_condition] as the filter of [GET /caches]. *)
Definition visible_cache_condition (db : AccessDb) (user_id : UserId) (c : MCache) : bool :=
  let org_ids := map omb_organization (List.filter (fun m => omb_user m =? user_id) (ad_organization_users db)) in
  let org_cache_ids :=
    map ocs_cache (List.filter (fun oc => bool_decide (ocs_organization oc ∈ org_ids)) (ad_organization_caches db)) in
  (cch_created_by c =? user_id) || bool_decide (cch_id c ∈ org_cache_ids).

End Rows.
