(* ===== verification/Tokens.v ===== *)
(** * Request authentication

    Where a request comes from and who it speaks for: the IP allowlist and the resolution of
    the client address ([backend/gradient-web/src/ip_allowlist.rs], [client_ip.rs]), session
    and API-key tokens ([authorization/jwt.rs]), the two middlewares ([middleware.rs]), the
    token of a badge URL ([endpoints/badges.rs]) and the Basic credentials of the cache
    surface ([endpoints/caches/helpers.rs]).

    The textual forms of addresses and networks (the [ipnet] crate and the address parser it
    shares), JWT verification, SHA-256 and Base64 are the interface [Crypto]; a parsed
    address is its numeric value. Writes of the last-used time succeed. *)

From S2P Require Import Prelude RustStr RustText ScoreContext Permissions Access.

Local Open Scope Z_scope.

(** ** Addresses *)

Inductive IpAddr := V4 (a : Z) | V6 (a : Z).

#[export] Instance IpAddr_eq_dec : EqDecision IpAddr.
Proof. solve_decision. Defined.

(** [Ipv6Addr::to_ipv4_mapped]: [::ffff:a.b.c.d]. *)
Definition to_ipv4_mapped (a : Z) : option Z :=
  if Z.shiftr a 32 =? 65535 then Some (Z.land a (Z.ones 32)) else None.

Definition normalize_ip (ip : IpAddr) : IpAddr :=
  match ip with
  | V6 v6 => match to_ipv4_mapped v6 with Some v4 => V4 v4 | None => V6 v6 end
  | V4 v => V4 v
  end.

(** The claims of a session token that are read. *)
Record Claims := { cl_id : UserId; cl_jti : SessionId }.

Class Crypto := {
  IpNet : Type;
  parse_net : string -> option IpNet;
  parse_ip : string -> option IpAddr;
  net_contains : IpNet -> IpAddr -> bool;
  net_to_string : IpNet -> string;
  net_new : IpAddr -> Z -> option IpNet;
  decode_claims : string -> option Claims;
  sha256 : string -> list Z;
  base64_decode : string -> option string;
}.

(** ** Whitespace and encodings *)

(** [u8::is_ascii_whitespace] plus the vertical tab: [char::is_whitespace] on ASCII text,
    which header values are. *)
Definition ascii_space (c : ascii) : bool :=
  let n := nat_of_ascii c in bool_decide (n = 32%nat) || (bool_decide (9 <= n)%nat && bool_decide (n <= 13)%nat).

Fixpoint split_spaces (s : string) : list string :=
  match s with
  | EmptyString => [""%string]
  | String a s' =>
      if ascii_space a then ""%string :: split_spaces s'
      else match split_spaces s' with
           | [] => [String a ""]
           | w :: ws => String a w :: ws
           end
  end.

(** [str::split_whitespace] *)
Definition split_whitespace (s : string) : list string :=
  List.filter (fun w => negb (w =? "")%string) (split_spaces s).

(** [{:02x}] of a byte. *)
Definition hex_digit (d : Z) : string :=
  String (ascii_of_nat (Z.to_nat (if d <? 10 then 48 + d else 87 + d))) "".
Definition hex_byte (b : Z) : string := hex_digit (Z.shiftr b 4) +:+ hex_digit (Z.land b 15).

Definition continuation (c : ascii) : bool := (Z.land (Z.of_nat (nat_of_ascii c)) 192 =? 128).

(** [str::from_utf8]: well-formed UTF-8, shortest forms only, no surrogates. *)
Fixpoint utf8_valid (s : string) : bool :=
  match s with
  | EmptyString => true
  | String a s1 =>
      let x := Z.of_nat (nat_of_ascii a) in
      if x <? 128 then utf8_valid s1
      else match s1 with
      | EmptyString => false
      | String b s2 =>
          let y := Z.of_nat (nat_of_ascii b) in
          if (194 <=? x) && (x <? 224) then continuation b && utf8_valid s2
          else match s2 with
          | EmptyString => false
          | String c s3 =>
              if (224 <=? x) && (x <? 240) then
                continuation b && continuation c
                && (if x =? 224 then 160 <=? y else true) && (if x =? 237 then y <? 160 else true)
                && utf8_valid s3
              else match s3 with
              | EmptyString => false
              | String d s4 =>
                  (240 <=? x) && (x <? 245)
                  && continuation b && continuation c && continuation d
                  && (if x =? 240 then 144 <=? y else true) && (if x =? 244 then y <? 144 else true)
                  && utf8_valid s4
              end
          end
      end
  end.

Section Requests.
Context `{CH : Chrono} `{CR : Crypto}.
Implicit Types (db : AccessDb).

(** ** Source allowlist *)

Definition is_allowed (ip : IpAddr) (allowlist : list string) : bool :=
  match allowlist with
  | [] => true
  | _ :: _ =>
      let ip := normalize_ip ip in
      existsb (fun net => net_contains net ip) (omap parse_net allowlist)
  end.

Inductive IpAllowlistError := AllowlistEmpty | AllowlistInvalid (entry : string).

Definition normalize_entry (raw : string) : result string IpAllowlistError :=
  let trimmed := trim raw in
  if (trimmed =? "")%string then Err AllowlistEmpty else
  match parse_net trimmed with
  | Some net => Ok (net_to_string net)
  | None =>
      match parse_ip trimmed with
      | Some ip =>
          let prefix := match ip with V4 _ => 32 | V6 _ => 128 end in
          match net_new ip prefix with
          | Some net => Ok (net_to_string net)
          | None => Err (AllowlistInvalid trimmed)
          end
      | None => Err (AllowlistInvalid trimmed)
      end
  end.

(** ** Client address *)

Definition in_any (ip : IpAddr) (nets : list IpNet) : bool := existsb (fun n => net_contains n ip) nets.

(** [xff] is the first [X-Forwarded-For] header when it is visible ASCII. *)
Definition resolve_client_ip (xff : option string) (peer : IpAddr) (trusted_proxies : list IpNet) : IpAddr :=
  let peer := normalize_ip peer in
  if negb (in_any peer trusted_proxies) then peer else
  match xff with
  | None => peer
  | Some xff =>
      let parsed := map normalize_ip (omap (fun s => parse_ip (trim s)) (split_char "," xff)) in
      match parsed with
      | [] => peer
      | first :: _ =>
          default first (List.find (fun ip => negb (in_any ip trusted_proxies)) (reverse parsed))
      end
  end.

(** ** Tokens *)

(** The parts of a request that authentication reads: the [Authorization] header ([Some None]
    when it is not visible ASCII), the [Cookie] header, [X-Forwarded-For], and the peer. *)
Record Request := {
  rq_authorization : option (option string);
  rq_cookie : option (option string);
  rq_forwarded_for : option string;
  rq_peer : option IpAddr;
}.

Definition cookie_token (cookie : string) : option string :=
  head (omap (fun part => RustStr.strip_prefix "jwt_token=" (trim part)) (split_char ";" cookie)).

Definition token_from_cookie (rq : Request) : option string :=
  cookie ← mjoin (rq_cookie rq); cookie_token cookie.

Definition extract_bearer_or_cookie (rq : Request) : option string :=
  match rq_authorization rq with
  | Some auth =>
      val ← auth;
      match split_whitespace val with
      | bearer :: rest => if (bearer =? "Bearer")%string then head rest else token_from_cookie rq
      | [] => token_from_cookie rq
      end
  | None => token_from_cookie rq
  end.

Inductive DecodedRequest :=
| DecodedSession (user_id : UserId)
| DecodedApiKey (user_id : UserId) (context : ApiKeyContext).

Definition decoded_user_id (d : DecodedRequest) : UserId :=
  match d with DecodedSession u => u | DecodedApiKey u _ => u end.
Definition api_key_context (d : DecodedRequest) : option ApiKeyContext :=
  match d with DecodedSession _ => None | DecodedApiKey _ ctx => Some ctx end.

Definition hash_api_key (raw : string) : string := foldr (fun b out => hex_byte b +:+ out) "" (sha256 raw).

(** [a < b] on timestamps. *)
Definition earlier (a b : NaiveDateTime) : bool :=
  match datetime_cmp a b with Lt => true | _ => false end.

Definition touch_session (now : NaiveDateTime) (s : MSession) : MSession := {|
  ses_id := ses_id s; ses_user_id := ses_user_id s; ses_created_at := ses_created_at s;
  ses_expires_at := ses_expires_at s; ses_last_used_at := now; ses_revoked_at := ses_revoked_at s
|}.

Definition touch_api (now : NaiveDateTime) (k : MApi) : MApi := {|
  key_id := key_id k; key_owned_by := key_owned_by k; key_name := key_name k; key_key := key_key k;
  key_last_used_at := now; key_created_at := key_created_at k; key_managed := key_managed k;
  key_expires_at := key_expires_at k; key_revoked_at := key_revoked_at k;
  key_permission := key_permission k; key_organization := key_organization k; key_cache := key_cache k;
  key_allowed_ips := key_allowed_ips k
|}.

Definition UNAUTHORIZED : Z := 401.

(** The context an API-key row authenticates with. *)
Definition context_of_key (k : MApi) : ApiKeyContext := {|
  kc_api_id := key_id k;
  kc_mask := key_permission k;
  kc_organization := key_organization k;
  kc_cache_pin := key_cache k;
  kc_cache_permission_mask :=
    match key_cache k with Some _ => Some (key_permission k) | None => None end;
  kc_allowed_ips := default [] (key_allowed_ips k)
|}.

Definition decode_api_key db (now : NaiveDateTime) (raw : string) : AccessDb * result DecodedRequest Z :=
  let key_hash := hash_api_key raw in
  match one (fun k => (key_key k =? key_hash)%string) (ad_apis db) with
  | None => (db, Err UNAUTHORIZED)
  | Some k =>
      match key_revoked_at k with
      | Some _ => (db, Err UNAUTHORIZED)
      | None =>
          if match key_expires_at k with Some exp => earlier exp now | None => false end
          then (db, Err UNAUTHORIZED)
          else
            let context := context_of_key k in
            let db := set_apis db (map (fun r => if (key_id r =? key_id k)%N then touch_api now r else r) (ad_apis db)) in
            (db, Ok (DecodedApiKey (key_owned_by k) context))
      end
  end.

Definition decode_jwt db (now : NaiveDateTime) (jwt : string) : AccessDb * result DecodedRequest Z :=
  match RustStr.strip_prefix "GRAD" jwt with
  | Some raw => decode_api_key db now raw
  | None =>
      match decode_claims jwt with
      | None => (db, Err UNAUTHORIZED)
      | Some claims =>
          match one (fun s => (ses_id s =? cl_jti claims)%N) (ad_sessions db) with
          | None => (db, Err UNAUTHORIZED)
          | Some session =>
              if match ses_revoked_at session with Some _ => true | None => false end
                 || earlier (ses_expires_at session) now
                 || negb (ses_user_id session =? cl_id claims)%N
              then (db, Err UNAUTHORIZED)
              else
                let db := set_sessions db (map (fun r => if (ses_id r =? ses_id session)%N
                                                         then touch_session now r else r) (ad_sessions db)) in
                (db, Ok (DecodedSession (cl_id claims)))
          end
      end
  end.

(** ** Middlewares *)

Definition AUTH_DENY : string := "auth.deny".
Definition FORBIDDEN_SOURCE_IP : ErrorCode := "forbidden_source_ip".

(** What [authorize] adds to the request: the user, the API key and the client address. *)
Record Extensions := { ext_user : MUser; ext_api_key : option ApiKeyContext; ext_client_ip : IpAddr }.

Definition peer_of (rq : Request) : IpAddr := default (V4 0) (rq_peer rq).

Definition bearer_token (rq : Request) : result string (string * WebError) :=
  match rq_authorization rq with
  | Some None => Err ("Authorization header empty"%string, forbidden "Authorization header empty")
  | Some (Some val) =>
      match split_whitespace val with
      | bearer :: token :: _ =>
          if (bearer =? "Bearer")%string then Ok token
          else Err ("Invalid Authorization header"%string, forbidden "Invalid Authorization header")
      | _ => Err ("Invalid Authorization header"%string, forbidden "Invalid Authorization header")
      end
  | None =>
      match token_from_cookie rq with
      | Some t => Ok t
      | None => Err ("Authorization header not found"%string, forbidden "Authorization header not found")
      end
  end.

Definition authorize db (now : NaiveDateTime) (trusted_proxies : list IpNet) (rq : Request)
    : AccessDb * WebResult Extensions :=
  let deny db user reason e := (audit_record db user AUTH_DENY (Some reason), Err e) in
  match bearer_token rq with
  | Err (reason, e) => deny db None reason e
  | Ok token_str =>
      let '(db, decoded) := decode_jwt db now token_str in
      match decoded with
      | Err _ => deny db None "Unable to decode token"%string (unauthorized "Unable to decode token")
      | Ok decoded =>
          let user_id := decoded_user_id decoded in
          let client_ip := resolve_client_ip (rq_forwarded_for rq) (peer_of rq) trusted_proxies in
          if match api_key_context decoded with
             | Some ctx => negb (is_allowed client_ip (kc_allowed_ips ctx))
             | None => false
             end
          then deny db (Some user_id) "API key source IP not allowed"%string
                    (forbidden_with FORBIDDEN_SOURCE_IP "API key not allowed from this source IP")
          else
            match user_by_id db user_id with
            | None => deny db (Some user_id) "User not found"%string (unauthorized "User not found")
            | Some current_user =>
                if negb (usr_active current_user)
                then deny db (Some user_id) "Account deactivated"%string (forbidden "account is deactivated")
                else (db, Ok {| ext_user := current_user; ext_api_key := api_key_context decoded;
                                ext_client_ip := client_ip |})
            end
      end
  end.

(** What [authorize_optional] adds; it never rejects. *)
Record OptionalExtensions := {
  opt_user : option MUser; opt_api_key : option ApiKeyContext; opt_client_ip : IpAddr
}.

Definition authorize_optional db (now : NaiveDateTime) (trusted_proxies : list IpNet) (rq : Request)
    : AccessDb * OptionalExtensions :=
  let client_ip := resolve_client_ip (rq_forwarded_for rq) (peer_of rq) trusted_proxies in
  let nobody := {| opt_user := None; opt_api_key := None; opt_client_ip := client_ip |} in
  match extract_bearer_or_cookie rq with
  | None => (db, nobody)
  | Some token_str =>
      let '(db, decoded) := decode_jwt db now token_str in
      match decoded with
      | Err _ => (db, nobody)
      | Ok decoded =>
          if match api_key_context decoded with
             | Some ctx => is_allowed client_ip (kc_allowed_ips ctx)
             | None => true
             end
          then (db, {| opt_user := user_by_id db (decoded_user_id decoded);
                       opt_api_key := api_key_context decoded; opt_client_ip := client_ip |})
          else (db, nobody)
      end
  end.

(** ** Token in a badge or download URL *)

Definition resolve_badge_user db (now : NaiveDateTime) (maybe_user : option MUser) (api_key : option ApiKeyContext)
    (token : option string) (client_ip : IpAddr) : AccessDb * WebResult (option MUser * option ApiKeyContext) :=
  match token with
  | Some tok =>
      let '(db, decoded) := decode_jwt db now tok in
      match decoded with
      | Err _ => (db, Err (unauthorized "Invalid token"))
      | Ok decoded =>
          if match api_key_context decoded with
             | Some ctx => negb (is_allowed client_ip (kc_allowed_ips ctx))
             | None => false
             end
          then (db, Err (forbidden_with FORBIDDEN_SOURCE_IP "API key not allowed from this source IP"))
          else (db, Ok (user_by_id db (decoded_user_id decoded), api_key_context decoded))
      end
  | None => (db, Ok (maybe_user, api_key))
  end.

Definition check_badge_org_access db (org : MOrganization) (resolved_user : option MUser)
    (api_key : option ApiKeyContext) : WebResult unit :=
  if ogn_public org then Ok tt else
  match resolved_user with
  | Some user =>
      if negb (is_org_member db (usr_id user) (ogn_id org) api_key) then Err (not_found "Organization") else Ok tt
  | None => Err (unauthorized "Authorization required")
  end.

(** ** Basic credentials of the cache surface *)

(** The password of a Basic [Authorization] header. *)
Definition basic_password (rq : Request) : option string :=
  val ← mjoin (rq_authorization rq);
  encoded ← RustStr.strip_prefix "Basic " val;
  bytes ← base64_decode encoded;
  if utf8_valid bytes then snd <$> split_once ":" bytes else None.

Definition try_authenticate_basic db (now : NaiveDateTime) (rq : Request) (client_ip : IpAddr)
    : AccessDb * WebResult (option MUser) :=
  match basic_password rq with
  | None => (db, Ok None)
  | Some password =>
      let '(db, decoded) := decode_jwt db now password in
      match decoded with
      | Err _ => (db, Ok None)
      | Ok decoded =>
          if match api_key_context decoded with
             | Some ctx => negb (is_allowed client_ip (kc_allowed_ips ctx))
             | None => false
             end
          then (db, Err (forbidden_with FORBIDDEN_SOURCE_IP "API key not allowed from this source IP"))
          else (db, Ok (user_by_id db (decoded_user_id decoded)))
      end
  end.

Definition user_can_access_cache db (cache : MCache) (user : MUser) : bool :=
  (cch_created_by cache =? usr_id user)%N
  || match one (fun m => (cmb_cache m =? cch_id cache)%N && (cmb_user m =? usr_id user)%N) (ad_cache_users db) with
     | Some _ => true
     | None =>
         let org_ids :=
           map omb_organization (List.filter (fun m => (omb_user m =? usr_id user)%N) (ad_organization_users db)) in
         match org_ids with
         | [] => false
         | _ :: _ =>
             match one (fun oc => (ocs_cache oc =? cch_id cache)%N && bool_decide (ocs_organization oc ∈ org_ids))
                       (ad_organization_caches db) with
             | Some _ => true
             | None => false
             end
         end
     end.

Definition require_cache_auth db (now : NaiveDateTime) (rq : Request) (client_ip : IpAddr) (cache : MCache)
    : AccessDb * WebResult unit :=
  if cch_public cache then (db, Ok tt) else
  let '(db, maybe_user) := try_authenticate_basic db now rq client_ip in
  match maybe_user with
  | Err e => (db, Err e)
  | Ok (Some user) =>
      if user_can_access_cache db cache user then (db, Ok tt)
      else (db, Err (unauthorized "Authentication required to access this cache"))
  | Ok None => (db, Err (unauthorized "Authentication required to access this cache"))
  end.

End Requests.
