(* ===== verification/AccessAdmin.v ===== *)
(** * Managing access

    The endpoints that change who may do what: API keys ([endpoints/user.rs]), custom roles
    and members of organizations ([endpoints/orgs/roles.rs], [members.rs]) and of caches
    ([endpoints/caches/roles.rs], [members.rs]), visibility, subscription and deletion of
    both ([endpoints/orgs/settings.rs], [management.rs], [endpoints/caches/management.rs])
    and the seeding of the built-in roles ([backend/gradient-db/src/connection.rs]).

    A handler either fails, without having written anything, or returns the tables after its
    writes with its response; writes succeed. Fresh ids, the raw key and timestamps are
    arguments. Deleting a row follows the foreign keys of the schema
    ([backend/gradient-migration/src/m20241101_000000_baseline.sql]). *)

From S2P Require Import Prelude RustStr RustText ScoreContext Permissions Access Tokens.

Local Open Scope N_scope.

(** ** Names *)

Definition index_char (c : ascii) : bool :=
  let n := nat_of_ascii c in
  (bool_decide (48 <= n)%nat && bool_decide (n <= 57)%nat)
  || (bool_decide (97 <= n)%nat && bool_decide (n <= 122)%nat) || bool_decide (n = 45)%nat.

(** Whether [check_index_name] accepts: a byte outside lowercase letters, digits and dashes
    is either not lowercase or not an allowed character. *)
Definition check_index_name (s : string) : bool :=
  negb (s =? "")%string && forallb index_char (String.list_ascii_of_string s)
  && negb (starts_with s "-") && negb (ends_with s "-").

Section Admin.
Context `{CH : Chrono} `{CR : Crypto}.
Implicit Types (db : AccessDb).

Definition update_rows {A} (f : A -> bool) (g : A -> A) (l : list A) : list A :=
  map (fun r => if f r then g r else r) l.
Definition delete_rows {A} (f : A -> bool) (l : list A) : list A := List.filter (fun r => negb (f r)) l.

(** ** API keys *)

Record CreateApiKeyRequest := {
  ck_name : string;
  ck_expires_in_days : option Z;
  ck_permissions : list string;
  ck_organization : option string;
  ck_cache : option string;
  ck_allowed_ips : option (list string);
}.

Record PatchApiKeyRequest := {
  pk_name : option string;
  pk_permissions : option (list string);
  pk_organization : option (option string);
  pk_allowed_ips : option (list string);
}.

Definition forbid_via_api_key (api_key : option ApiKeyContext) : WebResult unit :=
  match api_key with
  | Some _ => Err (forbidden "API keys cannot manage API keys. Use a session token.")
  | None => Ok tt
  end.

Definition resolve_org_pin db (user_id : UserId) (name : option string) : WebResult (option OrganizationId) :=
  match name with
  | None => Ok None
  | Some name =>
      let trimmed := trim name in
      if (trimmed =? "")%string then Ok None else
      let unknown := bad_request ("Unknown organization or not a member: '" +:+ trimmed +:+ "'.") in
      let? org := ok_or (get_any_organization_by_name db trimmed) unknown in
      if negb (is_org_member db user_id (ogn_id org) None) then Err unknown else Ok (Some (ogn_id org))
  end.

Definition allowlist_message (e : IpAllowlistError) : string :=
  match e with
  | AllowlistEmpty => "empty entry"
  | AllowlistInvalid s => "not a valid IP or CIDR: " +:+ s
  end.

Fixpoint normalize_entries (entries : list string) : WebResult (list string) :=
  match entries with
  | [] => Ok []
  | e :: entries =>
      match normalize_entry e with
      | Err err =>
          Err (bad_request_with "invalid_allowed_ip"
                 ("invalid allowed_ips entry '" +:+ e +:+ "': " +:+ allowlist_message err))
      | Ok canon => let? out := normalize_entries entries in Ok (canon :: out)
      end
  end.

Definition normalize_allowed_ips (raw : option (list string)) : WebResult (option (list string)) :=
  match raw with
  | None => Ok None
  | Some entries => let? out := normalize_entries entries in Ok (Some out)
  end.

Definition NO_PERMISSION : WebError := bad_request "At least one permission is required for an API key.".

(** The mask and the pins of a new key. *)
Definition requested_scope db (user : MUser) (body : CreateApiKeyRequest)
    : WebResult (PermissionMask * option OrganizationId * option CacheId) :=
  match ck_cache body with
  | Some cache_name =>
      let? cache := load_cache db (CallerUser user) None cache_name CacheReadable in
      let? m := parse_cache_permission_list (ck_permissions body) "GET /user/keys/permissions" in
      if (m =? 0)%Z then Err NO_PERMISSION else
      let? found := effective_cache_mask db (usr_id user) (cch_id cache) None in
      let? granted := or_not_found found "Cache" in
      if negb (Z.land m (Z.lnot granted) =? 0)%Z
      then Err (forbidden "API key cannot grant cache permissions you do not hold.")
      else Ok (m, None, Some (cch_id cache))
  | None =>
      let? m := parse_permission_list (ck_permissions body) "GET /user/keys/permissions" in
      if (m =? 0)%Z then Err NO_PERMISSION else
      let? org := resolve_org_pin db (usr_id user) (ck_organization body) in
      Ok (m, org, None)
  end.

(** What minting takes from its surroundings: a fresh id, the raw key, the clock, and the
    placeholder of a key that was never used. *)
Record Minting := {
  mt_id : ApiId;
  mt_raw_key : string;
  mt_now : NaiveDateTime;
  mt_null_time : NaiveDateTime;
  mt_plus_days : NaiveDateTime -> Z -> NaiveDateTime;
}.

Definition post_keys db (mt : Minting) (user : MUser) (api_key_caller : option ApiKeyContext)
    (body : CreateApiKeyRequest) : WebResult (AccessDb * string) :=
  let? _ := forbid_via_api_key api_key_caller in
  if bool_decide (is_Some (ck_cache body)) && bool_decide (is_Some (ck_organization body))
  then Err (bad_request "API key cannot pin to both an organization and a cache.") else
  match one (fun k => (key_owned_by k =? usr_id user) && (key_name k =? ck_name body)%string) (ad_apis db) with
  | Some _ => Err (already_exists "API-Key Name")
  | None =>
      let? scope := requested_scope db user body in
      let '(mask, org_pin, cache_pin) := scope in
      let? allowed_ips := normalize_allowed_ips (ck_allowed_ips body) in
      let api_key := {|
        key_id := mt_id mt; key_owned_by := usr_id user; key_name := ck_name body;
        key_key := hash_api_key (mt_raw_key mt);
        key_last_used_at := mt_null_time mt; key_created_at := mt_now mt; key_managed := false;
        key_expires_at := mt_plus_days mt (mt_now mt) <$> ck_expires_in_days body;
        key_revoked_at := None; key_permission := mask;
        key_organization := org_pin; key_cache := cache_pin; key_allowed_ips := allowed_ips |} in
      let db := set_apis db (ad_apis db ++ [api_key]) in
      Ok (audit_record db (Some (usr_id user)) "api_key.create" None, "GRAD" +:+ mt_raw_key mt)
  end.

Definition key_by_id db (id : ApiId) : option MApi := one (fun k => key_id k =? id) (ad_apis db).

(** The caller's own key, not a managed one. *)
Definition own_key db (user : MUser) (api_id : ApiId) (verb : string) : WebResult MApi :=
  let? k := or_not_found (key_by_id db api_id) "API-Key" in
  if negb (key_owned_by k =? usr_id user) then Err (not_found "API-Key")
  else if key_managed k then Err (forbidden ("Cannot " +:+ verb +:+ " a state-managed API key."))
  else Ok k.

Definition with_key_scope (name : string) (mask : PermissionMask) (org : option OrganizationId)
    (ips : option (list string)) (k : MApi) : MApi := {|
  key_id := key_id k; key_owned_by := key_owned_by k; key_name := name; key_key := key_key k;
  key_last_used_at := key_last_used_at k; key_created_at := key_created_at k; key_managed := key_managed k;
  key_expires_at := key_expires_at k; key_revoked_at := key_revoked_at k;
  key_permission := mask; key_organization := org; key_cache := key_cache k; key_allowed_ips := ips
|}.

Definition patch_key db (user : MUser) (api_key_caller : option ApiKeyContext) (api_id : ApiId)
    (body : PatchApiKeyRequest) : WebResult (AccessDb * MApi) :=
  let? _ := forbid_via_api_key api_key_caller in
  let? k := own_key db user api_id "modify" in
  let? new_name :=
    match pk_name body with
    | Some name =>
        let clash := one (fun r => (key_owned_by r =? usr_id user) && (key_name r =? name)%string
                                   && negb (key_id r =? api_id)) (ad_apis db) in
        if negb (name =? key_name k)%string && bool_decide (is_Some clash)
        then Err (already_exists "API-Key Name") else Ok name
    | None => Ok (key_name k)
    end in
  let? new_mask :=
    match pk_permissions body with
    | Some perms =>
        let? m := parse_permission_list perms "GET /user/keys/permissions" in
        if (m =? 0)%Z then Err NO_PERMISSION else Ok m
    | None => Ok (key_permission k)
    end in
  let? new_org :=
    match pk_organization body with
    | Some maybe_name => resolve_org_pin db (usr_id user) maybe_name
    | None => Ok (key_organization k)
    end in
  let? canon := normalize_allowed_ips (pk_allowed_ips body) in
  let new_ips :=
    match canon with
    | Some [] => None
    | Some canon => Some canon
    | None => key_allowed_ips k
    end in
  let updated := with_key_scope new_name new_mask new_org new_ips k in
  let db := set_apis db (update_rows (fun r => key_id r =? api_id)
                           (with_key_scope new_name new_mask new_org new_ips) (ad_apis db)) in
  Ok (audit_record db (Some (usr_id user)) "api_key.update" None, updated).

Definition delete_keys db (user : MUser) (api_key_caller : option ApiKeyContext) (name : string)
    : WebResult (AccessDb * string) :=
  let? _ := forbid_via_api_key api_key_caller in
  let? k := or_not_found
    (one (fun k => (key_owned_by k =? usr_id user) && (key_name k =? name)%string) (ad_apis db)) "API-Key" in
  if key_managed k then Err (forbidden "Cannot delete a state-managed API key.") else
  let db := set_apis db (delete_rows (fun r => key_id r =? key_id k) (ad_apis db)) in
  Ok (audit_record db (Some (usr_id user)) "api_key.delete" None, "API-Key deleted"%string).

Definition revoke_key (now : NaiveDateTime) (k : MApi) : MApi := {|
  key_id := key_id k; key_owned_by := key_owned_by k; key_name := key_name k; key_key := key_key k;
  key_last_used_at := key_last_used_at k; key_created_at := key_created_at k; key_managed := key_managed k;
  key_expires_at := key_expires_at k; key_revoked_at := Some now;
  key_permission := key_permission k; key_organization := key_organization k; key_cache := key_cache k;
  key_allowed_ips := key_allowed_ips k
|}.

Definition post_key_revoke db (now : NaiveDateTime) (user : MUser) (api_key_caller : option ApiKeyContext)
    (api_id : ApiId) : WebResult (AccessDb * string) :=
  let? _ := forbid_via_api_key api_key_caller in
  let? k := own_key db user api_id "revoke" in
  match key_revoked_at k with
  | Some _ => Ok (db, "API-Key already revoked"%string)
  | None =>
      let db := set_apis db (update_rows (fun r => key_id r =? api_id) (revoke_key now) (ad_apis db)) in
      Ok (audit_record db (Some (usr_id user)) "api_key.revoke" None, "API-Key revoked"%string)
  end.

Definition revoke_session (now : NaiveDateTime) (s : MSession) : MSession := {|
  ses_id := ses_id s; ses_user_id := ses_user_id s; ses_created_at := ses_created_at s;
  ses_expires_at := ses_expires_at s; ses_last_used_at := ses_last_used_at s; ses_revoked_at := Some now
|}.

Definition delete_session db (now : NaiveDateTime) (user : MUser) (session_id : SessionId)
    : WebResult (AccessDb * string) :=
  let? session := or_not_found (one (fun s => ses_id s =? session_id) (ad_sessions db)) "Session" in
  if negb (ses_user_id session =? usr_id user) then Err (not_found "Session") else
  match ses_revoked_at session with
  | Some _ => Ok (db, "Session already revoked"%string)
  | None =>
      let db := set_sessions db (update_rows (fun s => ses_id s =? session_id) (revoke_session now) (ad_sessions db)) in
      Ok (audit_record db (Some (usr_id user)) "session.revoke" None, "Session revoked"%string)
  end.

(** How a key is shown: its mask read as organization permissions. *)
Definition key_permission_names (k : MApi) : list string := map permission_wire_name (mask_to_vec (key_permission k)).

(** ** Organization roles *)

Record RoleResponse := {
  rr_id : RoleId; rr_name : string; rr_organization : option OrganizationId;
  rr_builtin : bool; rr_managed : bool; rr_permissions : list string
}.

Definition RoleResponse_from_model (role : MRole) : RoleResponse := {|
  rr_id := orl_id role; rr_name := orl_name role; rr_organization := orl_organization role;
  rr_builtin := is_builtin_role (orl_id role); rr_managed := orl_managed role;
  rr_permissions := map permission_wire_name (mask_to_vec (orl_permission role))
|}.

Definition load_org_role db (org_id : OrganizationId) (role_id : RoleId) : WebResult MRole :=
  let? role := or_not_found (role_by_id db role_id) "Role" in
  match orl_organization role with
  | Some owner => if negb (owner =? org_id) then Err (not_found "Role") else Ok role
  | None => Ok role
  end.

(** Roles an organization may use: the global ones and its own. *)
Definition role_of_org (org_id : OrganizationId) (r : MRole) : bool :=
  match orl_organization r with Some o => o =? org_id | None => true end.

Definition get_organization_roles db (user : MUser) (api_key : option ApiKeyContext) (organization : string)
    : WebResult (list RoleResponse * list PermissionEntry) :=
  let? org := load_org db (CallerUser user) api_key organization (OrgMember false) in
  Ok (map RoleResponse_from_model (List.filter (role_of_org (ogn_id org)) (ad_roles db)), available_permissions).

Definition post_organization_role db (fresh : RoleId) (user : MUser) (api_key : option ApiKeyContext)
    (organization : string) (name : string) (permissions : list string) : WebResult (AccessDb * RoleResponse) :=
  let? org := load_org db (CallerUser user) api_key organization (OrgRequire ManageRoles true) in
  if negb (check_index_name name) then Err (invalid_name "Role Name") else
  let? mask := parse_permission_list permissions "GET /orgs/{organization}/roles" in
  match one (fun r => (orl_name r =? name)%string && role_of_org (ogn_id org) r) (ad_roles db) with
  | Some _ => Err (already_exists "Role Name")
  | None =>
      let role := {| orl_id := fresh; orl_name := name; orl_organization := Some (ogn_id org);
                     orl_permission := mask; orl_managed := false |} in
      let db := set_roles db (ad_roles db ++ [role]) in
      Ok (audit_record db (Some (usr_id user)) "organization.role.create" None, RoleResponse_from_model role)
  end.

Definition get_organization_role db (user : MUser) (api_key : option ApiKeyContext) (organization : string)
    (role_id : RoleId) : WebResult RoleResponse :=
  let? org := load_org db (CallerUser user) api_key organization (OrgMember false) in
  let? role := load_org_role db (ogn_id org) role_id in
  Ok (RoleResponse_from_model role).

Definition with_role (name : string) (mask : PermissionMask) (r : MRole) : MRole := {|
  orl_id := orl_id r; orl_name := name; orl_organization := orl_organization r;
  orl_permission := mask; orl_managed := orl_managed r
|}.

Definition patch_organization_role db (user : MUser) (api_key : option ApiKeyContext) (organization : string)
    (role_id : RoleId) (name : option string) (permissions : option (list string))
    : WebResult (AccessDb * RoleResponse) :=
  let? org := load_org db (CallerUser user) api_key organization (OrgRequire ManageRoles true) in
  let? role := load_org_role db (ogn_id org) role_id in
  if is_builtin_role (orl_id role)
  then Err (forbidden "Built-in roles (Admin, Write, View) cannot be modified.") else
  if orl_managed role then Err (forbidden "State-managed roles cannot be modified via the API.") else
  let? new_name :=
    match name with
    | Some name =>
        if negb (check_index_name name) then Err (invalid_name "Role Name") else
        match one (fun r => (orl_name r =? name)%string && negb (orl_id r =? role_id) && role_of_org (ogn_id org) r)
                  (ad_roles db) with
        | Some _ => Err (already_exists "Role Name")
        | None => Ok name
        end
    | None => Ok (orl_name role)
    end in
  let? new_mask :=
    match permissions with
    | Some perms => parse_permission_list perms "GET /orgs/{organization}/roles"
    | None => Ok (orl_permission role)
    end in
  let db := set_roles db (update_rows (fun r => orl_id r =? role_id) (with_role new_name new_mask) (ad_roles db)) in
  Ok (audit_record db (Some (usr_id user)) "organization.role.update" None,
      RoleResponse_from_model (with_role new_name new_mask role)).

(** A deleted role takes the memberships that name it along. *)
Definition delete_organization_role db (user : MUser) (api_key : option ApiKeyContext) (organization : string)
    (role_id : RoleId) : WebResult (AccessDb * bool) :=
  let? org := load_org db (CallerUser user) api_key organization (OrgRequire ManageRoles true) in
  let? role := load_org_role db (ogn_id org) role_id in
  if is_builtin_role (orl_id role)
  then Err (forbidden "Built-in roles (Admin, Write, View) cannot be deleted.") else
  if orl_managed role then Err (forbidden "State-managed roles cannot be deleted via the API.") else
  match one (fun m => (omb_role m =? role_id) && (omb_organization m =? ogn_id org)) (ad_organization_users db) with
  | Some _ => Err (bad_request "Role is still assigned to members. Reassign them before deleting the role.")
  | None =>
      let db := set_organization_users db (delete_rows (fun m => omb_role m =? role_id) (ad_organization_users db)) in
      let db := set_roles db (delete_rows (fun r => orl_id r =? role_id) (ad_roles db)) in
      Ok (audit_record db (Some (usr_id user)) "organization.role.delete" None, true)
  end.

(** ** Organization members *)

Definition find_user_by_username db (username : string) : WebResult MUser :=
  or_not_found (one (fun u => (usr_username u =? username)%string) (ad_users db)) "User".

Definition role_by_name db (org_id : OrganizationId) (name : string) : WebResult MRole :=
  or_not_found (one (fun r => (orl_name r =? name)%string && role_of_org org_id r) (ad_roles db)) "Role".

Definition post_organization_users db (fresh : N) (user : MUser) (api_key : option ApiKeyContext)
    (organization : string) (username role_name : string) : WebResult (AccessDb * string) :=
  let? org := load_org db (CallerUser user) api_key organization (OrgRequire ManageMembers true) in
  let? target := find_user_by_username db username in
  match load_org_membership db (usr_id target) (ogn_id org) with
  | Some _ => Err (already_exists "User already in Organization")
  | None =>
      let? role := role_by_name db (ogn_id org) role_name in
      let row := {| omb_id := fresh; omb_organization := ogn_id org; omb_user := usr_id target; omb_role := orl_id role |} in
      let db := set_organization_users db (ad_organization_users db ++ [row]) in
      Ok (audit_record db (Some (usr_id user)) "organization.member.add" None, "User invited"%string)
  end.

Definition with_member_role (role : RoleId) (m : MOrganizationUser) : MOrganizationUser := {|
  omb_id := omb_id m; omb_organization := omb_organization m; omb_user := omb_user m; omb_role := role
|}.

Definition patch_organization_users db (user : MUser) (api_key : option ApiKeyContext)
    (organization : string) (username role_name : string) : WebResult (AccessDb * string) :=
  let? org := load_org db (CallerUser user) api_key organization (OrgRequire ManageMembers true) in
  let? target := find_user_by_username db username in
  let? membership := ok_or (load_org_membership db (usr_id target) (ogn_id org)) (bad_request "User not in Organization") in
  let? role := role_by_name db (ogn_id org) role_name in
  let db := set_organization_users db
    (update_rows (fun m => omb_id m =? omb_id membership) (with_member_role (orl_id role)) (ad_organization_users db)) in
  Ok (audit_record db (Some (usr_id user)) "organization.member.role_change" None, "User role updated"%string).

Definition delete_organization_users db (user : MUser) (api_key : option ApiKeyContext)
    (organization : string) (username : string) : WebResult (AccessDb * string) :=
  let? org := load_org db (CallerUser user) api_key organization (OrgRequire ManageMembers true) in
  let? target := find_user_by_username db username in
  let? membership := ok_or (load_org_membership db (usr_id target) (ogn_id org)) (bad_request "User not in Organization") in
  let db := set_organization_users db
    (delete_rows (fun m => omb_id m =? omb_id membership) (ad_organization_users db)) in
  Ok (audit_record db (Some (usr_id user)) "organization.member.remove" None, "User kicked"%string).

(** ** Cache roles *)

Definition load_cache_role db (cache_id : CacheId) (role_id : RoleId) : WebResult MCacheRole :=
  let? role := or_not_found (cache_role_by_id db role_id) "Role" in
  match crl_cache role with
  | Some owner => if negb (owner =? cache_id) then Err (not_found "Role") else Ok role
  | None => Ok role
  end.

Definition role_of_cache (cache_id : CacheId) (r : MCacheRole) : bool :=
  match crl_cache r with Some c => c =? cache_id | None => true end.

Definition post_cache_role db (fresh : RoleId) (user : MUser) (api_key : option ApiKeyContext)
    (cache : string) (name : string) (permissions : list string) : WebResult (AccessDb * MCacheRole) :=
  let? cache := load_cache db (CallerUser user) api_key cache (CacheRequire ManageCacheRoles true) in
  if negb (check_index_name name) then Err (invalid_name "Role Name") else
  let? mask := parse_cache_permission_list permissions "GET /caches/{cache}/roles" in
  match one (fun r => (crl_name r =? name)%string && role_of_cache (cch_id cache) r) (ad_cache_roles db) with
  | Some _ => Err (already_exists "Role Name")
  | None =>
      let role := {| crl_id := fresh; crl_name := name; crl_cache := Some (cch_id cache);
                     crl_permission := mask; crl_managed := false |} in
      let db := set_cache_roles db (ad_cache_roles db ++ [role]) in
      Ok (audit_record db (Some (usr_id user)) "cache.role.create" None, role)
  end.

Definition with_cache_role (name : string) (mask : PermissionMask) (r : MCacheRole) : MCacheRole := {|
  crl_id := crl_id r; crl_name := name; crl_cache := crl_cache r; crl_permission := mask; crl_managed := crl_managed r
|}.

Definition patch_cache_role db (user : MUser) (api_key : option ApiKeyContext) (cache : string)
    (role_id : RoleId) (name : option string) (permissions : option (list string))
    : WebResult (AccessDb * MCacheRole) :=
  let? cache := load_cache db (CallerUser user) api_key cache (CacheRequire ManageCacheRoles true) in
  let? role := load_cache_role db (cch_id cache) role_id in
  if is_builtin_cache_role (crl_id role)
  then Err (forbidden "Built-in roles (Admin, Write, View) cannot be modified.") else
  if crl_managed role then Err (forbidden "State-managed roles cannot be modified via the API.") else
  let? new_name :=
    match name with
    | Some name =>
        if negb (check_index_name name) then Err (invalid_name "Role Name") else
        match one (fun r => (crl_name r =? name)%string && negb (crl_id r =? role_id) && role_of_cache (cch_id cache) r)
                  (ad_cache_roles db) with
        | Some _ => Err (already_exists "Role Name")
        | None => Ok name
        end
    | None => Ok (crl_name role)
    end in
  let? new_mask :=
    match permissions with
    | Some perms => parse_cache_permission_list perms "GET /caches/{cache}/roles"
    | None => Ok (crl_permission role)
    end in
  let db := set_cache_roles db
    (update_rows (fun r => crl_id r =? role_id) (with_cache_role new_name new_mask) (ad_cache_roles db)) in
  Ok (audit_record db (Some (usr_id user)) "cache.role.update" None, with_cache_role new_name new_mask role).

(** The schema refuses to delete a cache role that any member still holds. *)
Definition delete_cache_role db (user : MUser) (api_key : option ApiKeyContext) (cache : string)
    (role_id : RoleId) : WebResult (AccessDb * bool) :=
  let? cache := load_cache db (CallerUser user) api_key cache (CacheRequire ManageCacheRoles true) in
  let? role := load_cache_role db (cch_id cache) role_id in
  if is_builtin_cache_role (crl_id role)
  then Err (forbidden "Built-in roles (Admin, Write, View) cannot be deleted.") else
  if crl_managed role then Err (forbidden "State-managed roles cannot be deleted via the API.") else
  match one (fun m => (cmb_role m =? role_id) && (cmb_cache m =? cch_id cache)) (ad_cache_users db) with
  | Some _ => Err (bad_request "Role is still assigned to members. Reassign them before deleting the role.")
  | None =>
      if existsb (fun m => cmb_role m =? role_id) (ad_cache_users db)
      then Err (Internal "foreign key constraint fk-cache_user-role") else
      let db := set_cache_roles db (delete_rows (fun r => crl_id r =? role_id) (ad_cache_roles db)) in
      Ok (audit_record db (Some (usr_id user)) "cache.role.delete" None, true)
  end.

(** ** Cache members *)

Definition find_cache_membership db (cache_id : CacheId) (user_id : UserId) : option MCacheUser :=
  one (fun m => (cmb_cache m =? cache_id) && (cmb_user m =? user_id)) (ad_cache_users db).

Definition cache_role_by_name db (cache_id : CacheId) (name : string) : WebResult MCacheRole :=
  or_not_found (one (fun r => (crl_name r =? name)%string && role_of_cache cache_id r) (ad_cache_roles db)) "Role".

Definition post_cache_member db (fresh : N) (user : MUser) (api_key : option ApiKeyContext)
    (cache : string) (username role_name : string) : WebResult (AccessDb * string) :=
  let? cache := load_cache db (CallerUser user) api_key cache (CacheRequire ManageCacheMembers true) in
  let? target := find_user_by_username db username in
  match find_cache_membership db (cch_id cache) (usr_id target) with
  | Some _ => Err (already_exists "User already in Cache")
  | None =>
      let? role := cache_role_by_name db (cch_id cache) role_name in
      let row := {| cmb_id := fresh; cmb_cache := cch_id cache; cmb_user := usr_id target; cmb_role := crl_id role |} in
      let db := set_cache_users db (ad_cache_users db ++ [row]) in
      Ok (audit_record db (Some (usr_id user)) "cache.member.create" None, "User added"%string)
  end.

Definition with_cache_member_role (role : RoleId) (m : MCacheUser) : MCacheUser := {|
  cmb_id := cmb_id m; cmb_cache := cmb_cache m; cmb_user := cmb_user m; cmb_role := role
|}.

Definition patch_cache_member db (user : MUser) (api_key : option ApiKeyContext)
    (cache : string) (username role_name : string) : WebResult (AccessDb * string) :=
  let? cache := load_cache db (CallerUser user) api_key cache (CacheRequire ManageCacheMembers true) in
  let? target := find_user_by_username db username in
  let? membership := ok_or (find_cache_membership db (cch_id cache) (usr_id target)) (bad_request "User not in Cache") in
  let? role := cache_role_by_name db (cch_id cache) role_name in
  let db := set_cache_users db
    (update_rows (fun m => cmb_id m =? cmb_id membership) (with_cache_member_role (crl_id role)) (ad_cache_users db)) in
  Ok (audit_record db (Some (usr_id user)) "cache.member.update" None, "User role updated"%string).

(** The number of members of a cache with the built-in Admin role. *)
Definition admin_count db (cache_id : CacheId) : nat :=
  length (List.filter (fun m => (cmb_cache m =? cache_id) && (cmb_role m =? BASE_CACHE_ROLE_ADMIN_ID)) (ad_cache_users db)).

Definition delete_cache_member db (user : MUser) (api_key : option ApiKeyContext)
    (cache : string) (username : string) : WebResult (AccessDb * string) :=
  let? cache := load_cache db (CallerUser user) api_key cache (CacheRequire ManageCacheMembers true) in
  let? target := find_user_by_username db username in
  let? membership := ok_or (find_cache_membership db (cch_id cache) (usr_id target)) (bad_request "User not in Cache") in
  if (cmb_role membership =? BASE_CACHE_ROLE_ADMIN_ID) && (admin_count db (cch_id cache) <=? 1)%nat
  then Err (conflict "Cannot remove the last Admin from the cache.") else
  let db := set_cache_users db (delete_rows (fun m => cmb_id m =? cmb_id membership) (ad_cache_users db)) in
  Ok (audit_record db (Some (usr_id user)) "cache.member.delete" None, "User removed"%string).

(** ** Visibility, subscription and deletion *)

Definition with_org_public (b : bool) (o : MOrganization) : MOrganization := {|
  ogn_id := ogn_id o; ogn_name := ogn_name o; ogn_public := b; ogn_managed := ogn_managed o
|}.

(** [post_organization_public] and [delete_organization_public]. *)
Definition set_organization_public db (user : MUser) (api_key : option ApiKeyContext) (organization : string)
    (public : bool) : WebResult AccessDb :=
  let? org := load_org db (CallerUser user) api_key organization (OrgRequire ManageOrgSettings true) in
  Ok (set_organizations db (update_rows (fun o => ogn_id o =? ogn_id org) (with_org_public public) (ad_organizations db))).

Definition with_cache_public (b : bool) (c : MCache) : MCache := {|
  cch_id := cch_id c; cch_name := cch_name c; cch_public := b; cch_created_by := cch_created_by c; cch_managed := cch_managed c
|}.

(** [post_cache_public] and [delete_cache_public]. *)
Definition set_cache_public db (user : MUser) (api_key : option ApiKeyContext) (cache : string)
    (public : bool) : WebResult AccessDb :=
  let? cache := load_cache db (CallerUser user) api_key cache (CacheRequire ManageCacheSettings true) in
  Ok (set_caches db (update_rows (fun c => cch_id c =? cch_id cache) (with_cache_public public) (ad_caches db))).

Definition subscription (org_id : OrganizationId) (cache_id : CacheId) (oc : MOrganizationCache) : bool :=
  (ocs_organization oc =? org_id) && (ocs_cache oc =? cache_id).

Definition post_organization_subscribe_cache db (fresh : N) (user : MUser) (api_key : option ApiKeyContext)
    (organization cache : string) : WebResult AccessDb :=
  let? org := load_org db (CallerUser user) api_key organization (OrgRequire ManageSubscriptions false) in
  let? cache := load_cache db (CallerUser user) api_key cache (CacheRequire ManageCacheSubscriptions false) in
  match one (subscription (ogn_id org) (cch_id cache)) (ad_organization_caches db) with
  | Some _ => Err (already_exists "Organization already subscribed to Cache")
  | None =>
      Ok (set_organization_caches db
            (ad_organization_caches db ++ [{| ocs_id := fresh; ocs_organization := ogn_id org; ocs_cache := cch_id cache |}]))
  end.

Definition delete_organization_subscribe_cache db (user : MUser) (api_key : option ApiKeyContext)
    (organization cache : string) : WebResult AccessDb :=
  let? org := load_org db (CallerUser user) api_key organization (OrgRequire ManageSubscriptions false) in
  let? cache := load_cache db (CallerUser user) api_key cache (CacheRequire ManageCacheSubscriptions false) in
  let? record := ok_or (one (subscription (ogn_id org) (cch_id cache)) (ad_organization_caches db))
                       (bad_request "Organization not subscribed to Cache") in
  Ok (set_organization_caches db (delete_rows (fun oc => ocs_id oc =? ocs_id record) (ad_organization_caches db))).

Definition unpin_organization (org : OrganizationId) (k : MApi) : MApi :=
  if bool_decide (key_organization k = Some org)
  then with_key_scope (key_name k) (key_permission k) None (key_allowed_ips k) k else k.

(** [ON DELETE]: members, projects, roles (with the memberships that name them) and
    subscriptions go with the organization; the keys pinned to it lose their pin. *)
Definition drop_organization db (org : OrganizationId) : AccessDb :=
  let gone_roles := map orl_id (List.filter (fun r => bool_decide (orl_organization r = Some org)) (ad_roles db)) in
  let db := set_organizations db (delete_rows (fun o => ogn_id o =? org) (ad_organizations db)) in
  let db := set_organization_users db
    (delete_rows (fun m => (omb_organization m =? org) || bool_decide (omb_role m ∈ gone_roles)) (ad_organization_users db)) in
  let db := set_projects db (delete_rows (fun p => pjt_organization p =? org) (ad_projects db)) in
  let db := set_roles db (delete_rows (fun r => bool_decide (orl_organization r = Some org)) (ad_roles db)) in
  let db := set_organization_caches db (delete_rows (fun oc => ocs_organization oc =? org) (ad_organization_caches db)) in
  set_apis db (map (unpin_organization org) (ad_apis db)).

Definition delete_organization db (user : MUser) (api_key : option ApiKeyContext) (organization : string)
    : WebResult AccessDb :=
  let? org := load_org db (CallerUser user) api_key organization (OrgRequire DeleteOrg true) in
  Ok (audit_record (drop_organization db (ogn_id org)) (Some (usr_id user)) "organization.delete" None).

(** [ON DELETE]: members, roles, subscriptions and the keys pinned to the cache go with it. *)
Definition drop_cache db (cache : CacheId) : AccessDb :=
  let db := set_caches db (delete_rows (fun c => cch_id c =? cache) (ad_caches db)) in
  let db := set_cache_users db (delete_rows (fun m => cmb_cache m =? cache) (ad_cache_users db)) in
  let db := set_cache_roles db (delete_rows (fun r => bool_decide (crl_cache r = Some cache)) (ad_cache_roles db)) in
  let db := set_organization_caches db (delete_rows (fun oc => ocs_cache oc =? cache) (ad_organization_caches db)) in
  set_apis db (delete_rows (fun k => bool_decide (key_cache k = Some cache)) (ad_apis db)).

Definition delete_cache db (user : MUser) (api_key : option ApiKeyContext) (cache : string) : WebResult AccessDb :=
  let? cache := load_cache db (CallerUser user) api_key cache (CacheRequire DeleteCache true) in
  Ok (audit_record (drop_cache db (cch_id cache)) (Some (usr_id user)) "cache.delete" None).

(** ** Seeding *)

Definition seed_builtin_role db (role_id : RoleId) (name : string) (permission : PermissionMask) : AccessDb :=
  match role_by_id db role_id with
  | None =>
      set_roles db (ad_roles db ++ [{| orl_id := role_id; orl_name := name; orl_organization := None;
                                       orl_permission := permission; orl_managed := false |}])
  | Some existing =>
      if negb (orl_permission existing =? permission)%Z || negb (orl_name existing =? name)%string
      then set_roles db (update_rows (fun r => orl_id r =? role_id) (with_role name permission) (ad_roles db))
      else db
  end.

Definition seed_builtin_cache_role db (role_id : RoleId) (name : string) (permission : PermissionMask) : AccessDb :=
  match cache_role_by_id db role_id with
  | None =>
      set_cache_roles db (ad_cache_roles db ++ [{| crl_id := role_id; crl_name := name; crl_cache := None;
                                                   crl_permission := permission; crl_managed := false |}])
  | Some existing =>
      if negb (crl_permission existing =? permission)%Z || negb (crl_name existing =? name)%string
      then set_cache_roles db (update_rows (fun r => crl_id r =? role_id) (with_cache_role name permission) (ad_cache_roles db))
      else db
  end.

(** The end of [update_db], which every start of the server runs. *)
Definition seed_roles db : AccessDb :=
  let db := seed_builtin_role db BASE_ROLE_ADMIN_ID "Admin" admin_mask in
  let db := seed_builtin_role db BASE_ROLE_WRITE_ID "Write" write_mask in
  let db := seed_builtin_role db BASE_ROLE_VIEW_ID "View" view_mask in
  let db := seed_builtin_cache_role db BASE_CACHE_ROLE_ADMIN_ID "Admin" cache_admin_mask in
  let db := seed_builtin_cache_role db BASE_CACHE_ROLE_WRITE_ID "Write" cache_write_mask in
  seed_builtin_cache_role db BASE_CACHE_ROLE_VIEW_ID "View" cache_view_mask.

End Admin.
