(* ===== verification/AccessTypes.v ===== *)
(** * Well-typed access tables

    The invariant of the role, membership and key tables and its preservation by every
    operation that writes them. Organizations and caches keep the same two tables, so the
    invariant is stated once over views of them. *)

From S2P Require Import Prelude ScoreContext Permissions Access Tokens AccessAdmin.

Local Open Scope N_scope.

(** ** List updates *)

Lemma elem_of_list_filter_bool {A} (f : A -> bool) l x : x ∈ List.filter f l <-> f x = true /\ x ∈ l.
Proof. rewrite !list_elem_of_In, List.filter_In. tauto. Qed.

Lemma elem_of_delete_rows {A} (f : A -> bool) l x : x ∈ delete_rows f l <-> x ∈ l /\ f x = false.
Proof. unfold delete_rows. rewrite elem_of_list_filter_bool, negb_true_iff. tauto. Qed.

Lemma elem_of_update_rows {A} (f : A -> bool) g l y :
  y ∈ update_rows f g l <-> exists x, x ∈ l /\ y = (if f x then g x else x).
Proof. unfold update_rows. rewrite list_elem_of_fmap. naive_solver. Qed.

Lemma map_filter_incl {A B} (h : A -> B) (f : A -> bool) l : sublist (map h (List.filter f l)) (map h l).
Proof.
  induction l as [|x l IH]; simpl; [done|]. destruct (f x); simpl; [by apply sublist_skip|by apply sublist_cons].
Qed.

Lemma NoDup_delete_rows {A B} (h : A -> B) (f : A -> bool) l : NoDup (map h l) -> NoDup (map h (delete_rows f l)).
Proof. intros Hn. eapply sublist_NoDup; [exact Hn|]. apply map_filter_incl. Qed.

Lemma map_update_rows {A B} (h : A -> B) (f : A -> bool) g l :
  (forall x, h (g x) = h x) -> map h (update_rows f g l) = map h l.
Proof.
  intros Hg. unfold update_rows. rewrite map_map. apply map_ext. intros x. by destruct (f x).
Qed.

Lemma one_Some {A} (f : A -> bool) l x : one f l = Some x -> x ∈ l /\ f x = true.
Proof. unfold one. intros H. apply List.find_some in H as [H ?]. by rewrite list_elem_of_In. Qed.

Lemma one_None {A} (f : A -> bool) l x : one f l = None -> x ∈ l -> f x = false.
Proof. unfold one. intros H Hx. apply (List.find_none _ _ H). by rewrite <- list_elem_of_In. Qed.

Lemma NoDup_snoc {A} (l : list A) x : NoDup l -> x ∉ l -> NoDup (l ++ [x]).
Proof. intros Hl Hx. apply NoDup_app. split_and!; [done|set_solver|apply NoDup_singleton]. Qed.

(** ** Roles and members of one kind of resource *)

Record RoleView := { rv_id : RoleId; rv_scope : option N; rv_name : string; rv_mask : PermissionMask }.
Record MemberView := { mv_id : N; mv_scope : N; mv_user : UserId; mv_role : RoleId }.

(** A built-in role: its id, name and mask. *)
Abbreviation Builtin := (RoleId * string * PermissionMask)%type.

(** Both roles can be used in some scope. *)
Definition share_scope (a b : option N) : Prop := a = None \/ b = None \/ a = b.

Record roles_ok (P : Type) `{Capability P} (builtin : list Builtin) (R : list RoleView) (M : list MemberView) : Prop := {
  ro_ids : NoDup (map rv_id R);
  ro_masks : forall r, r ∈ R -> well_typed_mask P (rv_mask r);
  ro_builtin : forall i n m, (i, n, m) ∈ builtin ->
    {| rv_id := i; rv_scope := None; rv_name := n; rv_mask := m |} ∈ R;
  ro_global : forall r, r ∈ R -> rv_scope r = None -> rv_id r ∈ map (fun b => fst (fst b)) builtin;
  ro_names : forall r r', r ∈ R -> r' ∈ R -> rv_name r = rv_name r' -> share_scope (rv_scope r) (rv_scope r') -> r = r';
  ro_member_ids : NoDup (map mv_id M);
  ro_once : NoDup (map (fun m => (mv_scope m, mv_user m)) M);
  ro_role : forall m, m ∈ M -> exists r, r ∈ R /\ rv_id r = mv_role m
              /\ (rv_scope r = None \/ rv_scope r = Some (mv_scope m));
}.

Section RoleTables.
Context {P : Type} `{CP : Capability P} (builtin : list Builtin).
Implicit Types (R : list RoleView) (M : list MemberView).
Abbreviation ok := (roles_ok P builtin).

(** The role of a member, by id. *)
Lemma member_role R M m r : ok R M -> m ∈ M -> r ∈ R -> rv_id r = mv_role m ->
  rv_scope r = None \/ rv_scope r = Some (mv_scope m).
Proof.
  intros H Hm Hr He. destruct (ro_role _ _ _ _ H m Hm) as (r' & Hr' & He' & Hs).
  by assert (r = r') as -> by (eapply (NoDup_map_inj rv_id); [apply H|done|done|congruence]).
Qed.

Lemma builtin_scope R M r i n m : ok R M -> r ∈ R -> (i, n, m) ∈ builtin -> rv_id r = i ->
  r = {| rv_id := i; rv_scope := None; rv_name := n; rv_mask := m |}.
Proof.
  intros H Hr Hb Hi. eapply (NoDup_map_inj rv_id); [apply H|done|by eapply ro_builtin|done].
Qed.

Lemma add_role R M r :
  ok R M -> rv_id r ∉ map rv_id R -> rv_scope r <> None -> well_typed_mask P (rv_mask r) ->
  (forall r', r' ∈ R -> rv_name r' = rv_name r -> ~ share_scope (rv_scope r') (rv_scope r)) ->
  ok (R ++ [r]) M.
Proof.
  intros H Hf Hs Hm Hn. split.
  - rewrite map_app. apply NoDup_snoc; [apply H|done].
  - intros r' [?| ->%list_elem_of_singleton]%elem_of_app; [by eapply ro_masks|done].
  - intros i n m Hb. apply elem_of_app; left. by eapply ro_builtin.
  - intros r' [?| ->%list_elem_of_singleton]%elem_of_app Hr'; [by eapply ro_global|done].
  - intros r1 r2 [H1| ->%list_elem_of_singleton]%elem_of_app [H2| ->%list_elem_of_singleton]%elem_of_app He Hsh.
    + by eapply ro_names.
    + by destruct (Hn r1 H1 He).
    + destruct (Hn r2 H2 (eq_sym He)). unfold share_scope in *. naive_solver.
    + done.
  - apply H.
  - apply H.
  - intros m Hmm. destruct (ro_role _ _ _ _ H m Hmm) as (r' & ? & ?). exists r'. set_solver.
Qed.

(** The update of the role with id [i]: a new name and mask. *)
Definition update_role (i : RoleId) (name : string) (mask : PermissionMask) (r : RoleView) : RoleView :=
  if rv_id r =? i then {| rv_id := rv_id r; rv_scope := rv_scope r; rv_name := name; rv_mask := mask |} else r.

Lemma update_role_id i name mask r : rv_id (update_role i name mask r) = rv_id r.
Proof. unfold update_role. by destruct (_ =? _). Qed.

Lemma update_role_scope i name mask r : rv_scope (update_role i name mask r) = rv_scope r.
Proof. unfold update_role. by destruct (_ =? _). Qed.

Lemma update_role_ok R M r0 name mask :
  ok R M -> r0 ∈ R -> rv_scope r0 <> None -> well_typed_mask P mask ->
  (forall r', r' ∈ R -> rv_id r' <> rv_id r0 -> rv_name r' = name -> ~ share_scope (rv_scope r') (rv_scope r0)) ->
  ok (map (update_role (rv_id r0) name mask) R) M.
Proof.
  intros H H0 Hs Hm Hn.
  assert (forall r, r ∈ R -> rv_id r = rv_id r0 -> r = r0) as Hu.
  { intros r Hr He. eapply (NoDup_map_inj rv_id); [apply H|done..]. }
  split.
  - rewrite map_map, (map_ext _ rv_id); [apply H|]. apply update_role_id.
  - intros ? (r & -> & Hr)%list_elem_of_fmap. unfold update_role. destruct (_ =? _); [done|by eapply ro_masks].
  - intros i n m Hb. apply list_elem_of_fmap. eexists. split; [|by eapply ro_builtin].
    unfold update_role; simpl. destruct (N.eqb_spec i (rv_id r0)) as [->|]; [|done].
    by rewrite (builtin_scope R M r0 _ n m H H0 Hb eq_refl) in Hs.
  - intros ? (r & -> & Hr)%list_elem_of_fmap. rewrite update_role_scope, update_role_id. by eapply ro_global.
  - intros ? ? (r1 & -> & H1)%list_elem_of_fmap (r2 & -> & H2)%list_elem_of_fmap.
    rewrite !update_role_scope. intros He Hsh. f_equal. unfold update_role in He.
    destruct (N.eqb_spec (rv_id r1) (rv_id r0)) as [E1|E1], (N.eqb_spec (rv_id r2) (rv_id r0)) as [E2|E2]; simpl in He.
    + by rewrite (Hu r1), (Hu r2).
    + rewrite (Hu r1 H1 E1) in *. destruct (Hn r2 H2 E2 (eq_sym He)). unfold share_scope in *. naive_solver.
    + rewrite (Hu r2 H2 E2) in *. by destruct (Hn r1 H1 E1 He).
    + by eapply ro_names.
  - apply H.
  - apply H.
  - intros m Hmm. destruct (ro_role _ _ _ _ H m Hmm) as (r & Hr & He & Hsc).
    exists (update_role (rv_id r0) name mask r). rewrite update_role_id, update_role_scope.
    split_and!; [|done|done]. apply list_elem_of_fmap. eauto.
Qed.

(** Dropping roles, and members whose roles stay: no role of a remaining member is dropped,
    and no built-in role is. *)
Lemma filter_tables R M (f : RoleView -> bool) (g : MemberView -> bool) :
  ok R M -> (forall r, r ∈ R -> rv_scope r = None -> f r = true) ->
  (forall m r, m ∈ M -> g m = true -> r ∈ R -> rv_id r = mv_role m -> f r = true) ->
  ok (List.filter f R) (List.filter g M).
Proof.
  intros H Hf Hg. split.
  - eapply sublist_NoDup; [apply H|apply map_filter_incl].
  - intros r [_ Hr]%elem_of_list_filter_bool. by eapply ro_masks.
  - intros i n m Hb. pose proof (ro_builtin _ _ _ _ H i n m Hb) as Hr. apply elem_of_list_filter_bool.
    split; [by apply Hf|done].
  - intros r [_ Hr]%elem_of_list_filter_bool. by eapply ro_global.
  - intros r r' [_ Hr]%elem_of_list_filter_bool [_ Hr']%elem_of_list_filter_bool. by eapply ro_names.
  - eapply sublist_NoDup; [apply (ro_member_ids _ _ _ _ H)|apply map_filter_incl].
  - eapply sublist_NoDup; [apply (ro_once _ _ _ _ H)|apply map_filter_incl].
  - intros m [Hgm Hm]%elem_of_list_filter_bool. destruct (ro_role _ _ _ _ H m Hm) as (r & Hr & He & Hs).
    exists r. split; [|done]. apply elem_of_list_filter_bool. split; [by eapply Hg|done].
Qed.

Lemma filter_members R M (g : MemberView -> bool) : ok R M -> ok R (List.filter g M).
Proof.
  intros H. assert (R = List.filter (fun _ => true) R) as Hr by (clear; induction R; simpl; congruence).
  rewrite Hr. by apply filter_tables.
Qed.

Lemma add_member R M m r :
  ok R M -> mv_id m ∉ map mv_id M -> (forall m', m' ∈ M -> mv_scope m' = mv_scope m -> mv_user m' <> mv_user m) ->
  r ∈ R -> rv_id r = mv_role m -> (rv_scope r = None \/ rv_scope r = Some (mv_scope m)) ->
  ok R (M ++ [m]).
Proof.
  intros H Hf Hn Hr He Hs. split; try apply H.
  - rewrite map_app. apply NoDup_snoc; [apply H|done].
  - rewrite map_app. apply NoDup_snoc; [apply H|]. intros (m' & Heq & Hm')%list_elem_of_fmap.
    injection Heq as H1 H2. by apply (Hn m' Hm').
  - intros m' [Hm'| ->%list_elem_of_singleton]%elem_of_app; [by eapply ro_role|eauto].
Qed.

Definition update_member (i : N) (role : RoleId) (m : MemberView) : MemberView :=
  if mv_id m =? i then {| mv_id := mv_id m; mv_scope := mv_scope m; mv_user := mv_user m; mv_role := role |} else m.

Lemma update_member_ok R M m0 r :
  ok R M -> m0 ∈ M -> r ∈ R -> (rv_scope r = None \/ rv_scope r = Some (mv_scope m0)) ->
  ok R (map (update_member (mv_id m0) (rv_id r)) M).
Proof.
  intros H Hm Hr Hs. split; try apply H.
  - rewrite map_map, (map_ext _ mv_id); [apply H|]. intros m. unfold update_member. by destruct (_ =? _).
  - rewrite map_map, (map_ext _ (fun m => (mv_scope m, mv_user m))); [apply H|].
    intros m. unfold update_member. by destruct (_ =? _).
  - intros ? (m & -> & Hmm)%list_elem_of_fmap. unfold update_member.
    destruct (N.eqb_spec (mv_id m) (mv_id m0)) as [E|]; [|by eapply ro_role].
    exists r. split_and!; [done|done|]. simpl.
    by assert (m = m0) as -> by (eapply (NoDup_map_inj mv_id); [apply H|done..]).
Qed.

End RoleTables.

(** ** The access tables *)

Lemma ok_or_Ok {A} (o : option A) e x : ok_or o e = Ok x <-> o = Some x.
Proof. destruct o; simpl; naive_solver. Qed.

Lemma or_not_found_Ok {A} (o : option A) s x : or_not_found o s = Ok x <-> o = Some x.
Proof. apply ok_or_Ok. Qed.

(** Take apart how a handler got to its [Ok]. *)
Ltac inv_web :=
  repeat match goal with
  | H : Err _ = Ok _ |- _ => discriminate H
  | H : Ok _ = Ok _ |- _ => injection H as H; subst
  | H : result_bind _ _ = Ok _ |- _ =>
      let x := fresh "x" in let Hx := fresh "Hx" in apply result_bind_ok in H as (x & Hx & H)
  | H : ok_or _ _ = Ok _ |- _ => apply ok_or_Ok in H
  | H : or_not_found _ _ = Ok _ |- _ => apply or_not_found_Ok in H
  | H : (if ?b then _ else _) = Ok _ |- _ => let E := fresh "E" in destruct b eqn:E
  | H : match ?o with Some _ => _ | None => _ end = Ok _ |- _ => let E := fresh "E" in destruct o eqn:E
  | H : negb _ = false |- _ => apply negb_false_iff in H
  | H : negb _ = true |- _ => apply negb_true_iff in H
  | H : _ && _ = true |- _ => apply andb_true_iff in H as []
  end.

Section Tables.
Context `{CH : Chrono} `{CR : Crypto}.
Implicit Types (db : AccessDb).

Definition role_view (r : MRole) : RoleView :=
  {| rv_id := orl_id r; rv_scope := orl_organization r; rv_name := orl_name r; rv_mask := orl_permission r |}.
Definition member_view (m : MOrganizationUser) : MemberView :=
  {| mv_id := omb_id m; mv_scope := omb_organization m; mv_user := omb_user m; mv_role := omb_role m |}.
Definition cache_role_view (r : MCacheRole) : RoleView :=
  {| rv_id := crl_id r; rv_scope := crl_cache r; rv_name := crl_name r; rv_mask := crl_permission r |}.
Definition cache_member_view (m : MCacheUser) : MemberView :=
  {| mv_id := cmb_id m; mv_scope := cmb_cache m; mv_user := cmb_user m; mv_role := cmb_role m |}.

Definition BUILTIN_ROLES : list Builtin :=
  [(BASE_ROLE_ADMIN_ID, "Admin"%string, admin_mask); (BASE_ROLE_WRITE_ID, "Write"%string, write_mask);
   (BASE_ROLE_VIEW_ID, "View"%string, view_mask)].
Definition BUILTIN_CACHE_ROLES : list Builtin :=
  [(BASE_CACHE_ROLE_ADMIN_ID, "Admin"%string, cache_admin_mask); (BASE_CACHE_ROLE_WRITE_ID, "Write"%string, cache_write_mask);
   (BASE_CACHE_ROLE_VIEW_ID, "View"%string, cache_view_mask)].

(** Well-typed tables: the built-in roles are there with their names and masks and are the
    only global ones; role ids are unique, and so are role names among the roles a resource
    can use; every mask has only bits of its catalogue; a user is a member of a resource at
    most once, with a role that exists and that the resource can use; API keys have unique
    ids and a non-empty mask of the catalogue. *)
Record well_typed (db : AccessDb) : Prop := {
  wt_roles : roles_ok Permission BUILTIN_ROLES
               (map role_view (ad_roles db)) (map member_view (ad_organization_users db));
  wt_cache_roles : roles_ok CachePermission BUILTIN_CACHE_ROLES
                     (map cache_role_view (ad_cache_roles db)) (map cache_member_view (ad_cache_users db));
  wt_key_ids : NoDup (map key_id (ad_apis db));
  wt_keys : forall k, k ∈ ad_apis db -> key_permission k <> 0%Z /\ well_typed_mask Permission (key_permission k);
}.

(** What is written to which tables. *)
Lemma wt_untouched db db' :
  well_typed db -> ad_roles db' = ad_roles db -> ad_organization_users db' = ad_organization_users db ->
  ad_cache_roles db' = ad_cache_roles db -> ad_cache_users db' = ad_cache_users db -> ad_apis db' = ad_apis db ->
  well_typed db'.
Proof. intros [] E1 E2 E3 E4 E5. by constructor; rewrite ?E1, ?E2, ?E3, ?E4, ?E5. Qed.

Lemma wt_apis db l :
  well_typed db -> NoDup (map key_id l) ->
  (forall k, k ∈ l -> key_permission k <> 0%Z /\ well_typed_mask Permission (key_permission k)) ->
  well_typed (set_apis db l).
Proof. intros [] Hn Hk. by constructor. Qed.

Lemma wt_org_tables db R M :
  well_typed db -> roles_ok Permission BUILTIN_ROLES (map role_view R) (map member_view M) ->
  well_typed (set_roles (set_organization_users db M) R).
Proof. intros [] H. by constructor. Qed.

Lemma wt_cache_tables db R M :
  well_typed db -> roles_ok CachePermission BUILTIN_CACHE_ROLES (map cache_role_view R) (map cache_member_view M) ->
  well_typed (set_cache_roles (set_cache_users db M) R).
Proof. intros [] H. by constructor. Qed.

(** Table writes through the views. *)
Lemma filter_view {A B} (h : A -> B) (f : A -> bool) (g : B -> bool) l :
  (forall x, g (h x) = f x) -> map h (List.filter f l) = List.filter g (map h l).
Proof.
  intros Hg. induction l as [|x l IH]; simpl; [done|]. rewrite Hg. destruct (f x); simpl; by rewrite IH.
Qed.

Lemma update_view {A B} (h : A -> B) (f : A -> bool) (g : A -> A) (u : B -> B) l :
  (forall x, u (h x) = h (if f x then g x else x)) -> map h (update_rows f g l) = map u (map h l).
Proof. intros Hu. unfold update_rows. rewrite !map_map. apply map_ext. intros x. by rewrite Hu. Qed.

Lemma role_of_org_shared org r : role_of_org org r = true <-> share_scope (orl_organization r) (Some org).
Proof.
  unfold role_of_org, share_scope. destruct (orl_organization r) as [o|]; [rewrite N.eqb_eq|]; naive_solver.
Qed.

Lemma role_of_cache_shared cache r : role_of_cache cache r = true <-> share_scope (crl_cache r) (Some cache).
Proof.
  unfold role_of_cache, share_scope. destruct (crl_cache r) as [o|]; [rewrite N.eqb_eq|]; naive_solver.
Qed.

Lemma not_builtin_scoped r M R : roles_ok Permission BUILTIN_ROLES R M -> r ∈ R ->
  is_builtin_role (rv_id r) = false -> rv_scope r <> None.
Proof.
  intros H Hr Hb Hs. pose proof (ro_global _ _ _ _ H r Hr Hs) as Hi. unfold is_builtin_role in Hb.
  simpl in Hi. rewrite !elem_of_cons in Hi. destruct Hi as [E|[E|[E|E%not_elem_of_nil]]]; [..|done]; by rewrite E in Hb.
Qed.

Lemma not_builtin_cache_scoped r M R : roles_ok CachePermission BUILTIN_CACHE_ROLES R M -> r ∈ R ->
  is_builtin_cache_role (rv_id r) = false -> rv_scope r <> None.
Proof.
  intros H Hr Hb Hs. pose proof (ro_global _ _ _ _ H r Hr Hs) as Hi. unfold is_builtin_cache_role in Hb.
  simpl in Hi. rewrite !elem_of_cons in Hi. destruct Hi as [E|[E|[E|E%not_elem_of_nil]]]; [..|done]; by rewrite E in Hb.
Qed.

End Tables.
