(* ===== verification/AccessInvariant.v ===== *)
(** * The access tables stay well-typed

    Every operation of the access administration and of request authentication, as one step
    relation, and the preservation of [well_typed] along any run. *)

From S2P Require Import Prelude ScoreContext Permissions Access Tokens AccessAdmin AccessTypes.

Local Open Scope N_scope.

Section Invariant.
Context `{CH : Chrono} `{CR : Crypto}.
Implicit Types (db : AccessDb).

(** One request. Fresh ids are not in use. *)
Inductive access_step db : AccessDb -> Prop :=
| step_decode now jwt : access_step db (fst (decode_jwt db now jwt))
| step_authorize now proxies rq : access_step db (fst (authorize db now proxies rq))
| step_post_keys mt user key body db' r :
    mt_id mt ∉ map key_id (ad_apis db) ->
    post_keys db mt user key body = Ok (db', r) -> access_step db db'
| step_patch_key user key id body db' r : patch_key db user key id body = Ok (db', r) -> access_step db db'
| step_delete_keys user key name db' r : delete_keys db user key name = Ok (db', r) -> access_step db db'
| step_revoke_key now user key id db' r : post_key_revoke db now user key id = Ok (db', r) -> access_step db db'
| step_delete_session now user id db' r : delete_session db now user id = Ok (db', r) -> access_step db db'
| step_post_role fresh user key org name perms db' r :
    fresh ∉ map orl_id (ad_roles db) ->
    post_organization_role db fresh user key org name perms = Ok (db', r) -> access_step db db'
| step_patch_role user key org id name perms db' r :
    patch_organization_role db user key org id name perms = Ok (db', r) -> access_step db db'
| step_delete_role user key org id db' r :
    delete_organization_role db user key org id = Ok (db', r) -> access_step db db'
| step_post_member fresh user key org name role db' r :
    fresh ∉ map omb_id (ad_organization_users db) ->
    post_organization_users db fresh user key org name role = Ok (db', r) -> access_step db db'
| step_patch_member user key org name role db' r :
    patch_organization_users db user key org name role = Ok (db', r) -> access_step db db'
| step_delete_member user key org name db' r :
    delete_organization_users db user key org name = Ok (db', r) -> access_step db db'
| step_post_cache_role fresh user key cache name perms db' r :
    fresh ∉ map crl_id (ad_cache_roles db) ->
    post_cache_role db fresh user key cache name perms = Ok (db', r) -> access_step db db'
| step_patch_cache_role user key cache id name perms db' r :
    patch_cache_role db user key cache id name perms = Ok (db', r) -> access_step db db'
| step_delete_cache_role user key cache id db' r :
    delete_cache_role db user key cache id = Ok (db', r) -> access_step db db'
| step_post_cache_member fresh user key cache name role db' r :
    fresh ∉ map cmb_id (ad_cache_users db) ->
    post_cache_member db fresh user key cache name role = Ok (db', r) -> access_step db db'
| step_patch_cache_member user key cache name role db' r :
    patch_cache_member db user key cache name role = Ok (db', r) -> access_step db db'
| step_delete_cache_member user key cache name db' r :
    delete_cache_member db user key cache name = Ok (db', r) -> access_step db db'
| step_org_public user key org public db' : set_organization_public db user key org public = Ok db' -> access_step db db'
| step_cache_public user key cache public db' : set_cache_public db user key cache public = Ok db' -> access_step db db'
| step_subscribe fresh user key org cache db' :
    post_organization_subscribe_cache db fresh user key org cache = Ok db' -> access_step db db'
| step_unsubscribe user key org cache db' :
    delete_organization_subscribe_cache db user key org cache = Ok db' -> access_step db db'
| step_delete_org user key org db' : delete_organization db user key org = Ok db' -> access_step db db'
| step_delete_cache user key cache db' : delete_cache db user key cache = Ok db' -> access_step db db'
| step_restart : access_step db (seed_roles db).

(** ** Authentication *)

Lemma wt_audit db who event reason : well_typed db -> well_typed (audit_record db who event reason).
Proof. intros H. by eapply wt_untouched. Qed.

Lemma wt_update_apis db (f : MApi -> bool) (g : MApi -> MApi) :
  well_typed db -> (forall k, key_id (g k) = key_id k) ->
  (forall k, k ∈ ad_apis db -> f k = true ->
     key_permission (g k) <> 0%Z /\ well_typed_mask Permission (key_permission (g k))) ->
  well_typed (set_apis db (update_rows f g (ad_apis db))).
Proof.
  intros H Hid Hg. apply wt_apis; [done|rewrite map_update_rows by done; apply H|].
  intros ? (k & Hk & ->)%elem_of_update_rows. destruct (f k) eqn:E; [by apply Hg|by eapply wt_keys].
Qed.

Lemma wt_decode_api_key db now raw : well_typed db -> well_typed (fst (decode_api_key db now raw)).
Proof.
  intros H. unfold decode_api_key. destruct (one _ (ad_apis db)) as [k|] eqn:E; [|done].
  destruct (key_revoked_at k); [done|]. destruct (match key_expires_at k with Some _ => _ | None => _ end); [done|].
  cbn [fst]. pose proof (wt_update_apis db (fun r => key_id r =? key_id k) (touch_api now) H) as Hu.
  unfold update_rows in Hu. apply Hu; [done|]. intros r Hr _. by apply (wt_keys db H r).
Qed.

Lemma wt_decode_jwt db now jwt : well_typed db -> well_typed (fst (decode_jwt db now jwt)).
Proof.
  intros H. unfold decode_jwt. destruct (RustStr.strip_prefix _ jwt) as [raw|]; [by apply wt_decode_api_key|].
  destruct (decode_claims jwt) as [c|]; [|done]. destruct (one _ (ad_sessions db)) as [s|]; [|done].
  destruct (_ || _ || _); [done|]. cbn [fst]. by eapply wt_untouched.
Qed.

Lemma wt_authorize db now proxies rq : well_typed db -> well_typed (fst (authorize db now proxies rq)).
Proof.
  intros H. unfold authorize. destruct (bearer_token rq) as [tok|[reason e]]; [|by apply wt_audit].
  pose proof (wt_decode_jwt db now tok H) as Hd. destruct (decode_jwt db now tok) as [db1 decoded]. cbn [fst] in Hd.
  repeat first [by apply wt_audit|exact Hd|case_match|destruct decoded; cbn [fst]].
Qed.

(** ** API keys *)

Lemma cache_mask_is_org_mask m : well_typed_mask CachePermission m -> well_typed_mask Permission m.
Proof.
  intros [Hm Hb]. split; [done|]. intros i Hi. destruct (Hb i Hi) as [p ->].
  destruct p; [by exists ViewOrg|by exists ManageOrgSettings|by exists DeleteOrg|by exists ManageMembers
    |by exists ManageRoles|by exists ManageIntegrations|by exists ManageActions|by exists ManageWorkers
    |by exists ManageSubscriptions|by exists ManageSshKey].
Qed.

Lemma requested_scope_typed db user body mask org cache :
  requested_scope db user body = Ok (mask, org, cache) -> mask <> 0%Z /\ well_typed_mask Permission mask.
Proof.
  unfold requested_scope. intros H. destruct (ck_cache body); inv_web.
  - split; [by apply Z.eqb_neq|]. by eapply cache_mask_is_org_mask, parse_cache_permission_list_typed.
  - split; [by apply Z.eqb_neq|]. by eapply parse_permission_list_typed.
Qed.

Lemma wt_post_keys db mt user key body db' r :
  well_typed db -> mt_id mt ∉ map key_id (ad_apis db) -> post_keys db mt user key body = Ok (db', r) -> well_typed db'.
Proof.
  intros H Hf Hp. unfold post_keys in Hp. inv_web. destruct x0 as [[mask org] cache]. inv_web.
  apply requested_scope_typed in Hx0. apply wt_audit, wt_apis; [done| |].
  - rewrite map_app. apply NoDup_snoc; [apply H|done].
  - intros k [Hk| ->%list_elem_of_singleton]%elem_of_app; [by apply (wt_keys db)|done].
Qed.

Lemma own_key_row db user id verb k : own_key db user id verb = Ok k -> k ∈ ad_apis db /\ key_id k = id.
Proof.
  unfold own_key. intros H. inv_web. unfold key_by_id in *.
  match goal with Hk : one _ _ = Some _ |- _ => apply one_Some in Hk as [? ?%N.eqb_eq] end. done.
Qed.

Lemma wt_patch_key db user key id body db' r :
  well_typed db -> patch_key db user key id body = Ok (db', r) -> well_typed db'.
Proof.
  intros H Hp. unfold patch_key in Hp. apply result_bind_ok in Hp as (? & _ & Hp).
  apply result_bind_ok in Hp as (k & Hk & Hp). apply result_bind_ok in Hp as (name & _ & Hp).
  apply result_bind_ok in Hp as (mask & Hm & Hp). apply result_bind_ok in Hp as (org & _ & Hp).
  apply result_bind_ok in Hp as (ips & _ & [= <- _]). apply own_key_row in Hk as [Hk _].
  assert (mask <> 0%Z /\ well_typed_mask Permission mask) as Hmask.
  { destruct (pk_permissions body); inv_web; [|by apply (wt_keys db)].
    split; [by apply Z.eqb_neq|by eapply parse_permission_list_typed]. }
  apply wt_audit, wt_update_apis; [done|done|]. intros; exact Hmask.
Qed.

Lemma wt_delete_apis db f : well_typed db -> well_typed (set_apis db (delete_rows f (ad_apis db))).
Proof.
  intros H. apply wt_apis; [done|apply NoDup_delete_rows, H|]. intros k [Hk _]%elem_of_delete_rows.
  by apply (wt_keys db).
Qed.

(** ** Organization roles and members *)

Lemma wt_set_roles db R :
  well_typed db -> roles_ok Permission BUILTIN_ROLES (map role_view R) (map member_view (ad_organization_users db)) ->
  well_typed (set_roles db R).
Proof. intros H Hr. eapply wt_untouched; [by apply (wt_org_tables db R (ad_organization_users db))|done..]. Qed.

Lemma wt_set_members db M :
  well_typed db -> roles_ok Permission BUILTIN_ROLES (map role_view (ad_roles db)) (map member_view M) ->
  well_typed (set_organization_users db M).
Proof. intros H Hr. eapply wt_untouched; [by apply (wt_org_tables db (ad_roles db) M)|done..]. Qed.

Lemma wt_post_role db fresh user key org name perms db' r :
  well_typed db -> fresh ∉ map orl_id (ad_roles db) ->
  post_organization_role db fresh user key org name perms = Ok (db', r) -> well_typed db'.
Proof.
  intros H Hf Hp. unfold post_organization_role in Hp. inv_web. apply wt_audit, wt_set_roles; [done|].
  rewrite map_app. apply add_role; [apply H|by rewrite map_map|done|by eapply parse_permission_list_typed|].
  intros ? (r & -> & Hr)%list_elem_of_fmap Hn Hs. simpl in Hn, Hs.
  assert ((orl_name r =? name)%string && role_of_org (ogn_id x) r = false) as Hno
    by (eapply (one_None (fun r => (orl_name r =? name)%string && role_of_org (ogn_id x) r)); done).
  apply role_of_org_shared in Hs. by rewrite Hn, String.eqb_refl, Hs in Hno.
Qed.

(** A role that an organization may change. *)
Lemma load_org_role_row db org id role :
  load_org_role db org id = Ok role -> role ∈ ad_roles db /\ orl_id role = id
    /\ (orl_organization role = None \/ orl_organization role = Some org).
Proof.
  unfold load_org_role, role_by_id. intros H. apply result_bind_ok in H as (r & Hr & H). apply or_not_found_Ok in Hr.
  apply one_Some in Hr as [? ?%N.eqb_eq]. destruct (orl_organization r) as [o|] eqn:E; inv_web; [|by auto].
  match goal with Hn : (_ =? _) = true |- _ => apply N.eqb_eq in Hn; subst end. by auto.
Qed.

Lemma wt_update_role db role name mask :
  well_typed db -> role ∈ ad_roles db -> is_builtin_role (orl_id role) = false -> well_typed_mask Permission mask ->
  (name = orl_name role \/ exists org, orl_organization role = Some org /\
     forall r, r ∈ ad_roles db -> ((orl_name r =? name)%string && negb (orl_id r =? orl_id role) && role_of_org org r) = false) ->
  well_typed (set_roles db (update_rows (fun r => orl_id r =? orl_id role) (with_role name mask) (ad_roles db))).
Proof.
  intros H Hr Hb Hm Hn. apply wt_set_roles; [done|].
  assert (rv_scope (role_view role) <> None) as Hs.
  { by apply (not_builtin_scoped _ _ _ (wt_roles _ H) (list_elem_of_fmap_2 role_view _ _ Hr)). }
  rewrite (update_view role_view _ _ (update_role (rv_id (role_view role)) name mask)).
  - apply update_role_ok; [apply H|apply list_elem_of_fmap; by eauto|done|done|].
    intros ? (r & -> & Hrr)%list_elem_of_fmap Hid Hname Hsh. destruct Hn as [->|(org & Ho & Hclash)].
    + apply Hid. f_equal. eapply (ro_names _ _ _ _ (wt_roles _ H)); [..|exact Hname|exact Hsh]; apply list_elem_of_fmap; eauto.
    + specialize (Hclash r Hrr). simpl in Hname, Hid, Hsh. rewrite Ho in Hsh. apply role_of_org_shared in Hsh.
      rewrite Hname, String.eqb_refl, Hsh in Hclash. by rewrite (proj2 (N.eqb_neq _ _) Hid) in Hclash.
  - intros r. unfold update_role, role_view. simpl. by destruct (orl_id r =? orl_id role).
Qed.

Lemma wt_patch_role db user key org id name perms db' r :
  well_typed db -> patch_organization_role db user key org id name perms = Ok (db', r) -> well_typed db'.
Proof.
  intros H Hp. unfold patch_organization_role in Hp. apply result_bind_ok in Hp as (o & _ & Hp).
  apply result_bind_ok in Hp as (role & Hrole & Hp). apply load_org_role_row in Hrole as (Hr & <- & Hsc).
  destruct (is_builtin_role (orl_id role)) eqn:Eb; [done|]. destruct (orl_managed role); [done|].
  apply result_bind_ok in Hp as (name' & Hn & Hp). apply result_bind_ok in Hp as (mask & Hm & [= <- _]).
  assert (orl_organization role = Some (ogn_id o)) as Ho.
  { destruct Hsc as [Hsc|]; [|done]. exfalso.
    by apply (not_builtin_scoped (role_view role) _ _ (wt_roles _ H) (list_elem_of_fmap_2 role_view _ _ Hr) Eb). }
  apply wt_audit, wt_update_role; [done|done|done| |].
  - clear Hn. destruct perms; inv_web; [by eapply parse_permission_list_typed|].
    apply (ro_masks _ _ _ _ (wt_roles _ H) (role_view role)). apply list_elem_of_fmap; eauto.
  - clear Hm. destruct name as [n|]; inv_web; [|by left]. right. exists (ogn_id o). split; [done|]. intros r' Hr'.
    by eapply (one_None (fun r => (orl_name r =? name')%string && negb (orl_id r =? orl_id role) && role_of_org (ogn_id o) r)).
Qed.

Lemma wt_delete_role db user key org id db' r :
  well_typed db -> delete_organization_role db user key org id = Ok (db', r) -> well_typed db'.
Proof.
  intros H Hp. unfold delete_organization_role in Hp. apply result_bind_ok in Hp as (o & _ & Hp).
  apply result_bind_ok in Hp as (role & Hrole & Hp). apply load_org_role_row in Hrole as (Hr & <- & Hsc).
  destruct (is_builtin_role (orl_id role)) eqn:Eb; [done|]. destruct (orl_managed role); [done|]. inv_web.
  apply wt_audit. eapply wt_untouched; [eapply (wt_org_tables db)|done..]; [done|].
  unfold delete_rows.
  rewrite (filter_view role_view _ (fun v => negb (rv_id v =? orl_id role))) by done.
  rewrite (filter_view member_view _ (fun v => negb (mv_role v =? orl_id role))) by done.
  apply filter_tables; [apply H| |].
  - intros v Hv Hs. apply negb_true_iff, N.eqb_neq. intros He.
    assert (v = role_view role) as ->.
    { eapply (NoDup_map_inj rv_id); [apply (ro_ids _ _ _ _ (wt_roles _ H))|done|apply list_elem_of_fmap; by eauto|done]. }
    by apply (not_builtin_scoped (role_view role) _ _ (wt_roles _ H) (list_elem_of_fmap_2 role_view _ _ Hr) Eb).
  - intros m v _ Hg _ He. apply negb_true_iff in Hg. by rewrite He, Hg.
Qed.

Lemma role_by_name_row db org name role :
  role_by_name db org name = Ok role -> role ∈ ad_roles db
    /\ (orl_organization role = None \/ orl_organization role = Some org).
Proof.
  unfold role_by_name. intros H. apply or_not_found_Ok, one_Some in H as [Hr [_ Hs]%andb_true_iff]. split; [done|].
  apply role_of_org_shared in Hs. unfold share_scope in Hs. naive_solver.
Qed.

Lemma wt_post_member db fresh user key org name role db' r :
  well_typed db -> fresh ∉ map omb_id (ad_organization_users db) ->
  post_organization_users db fresh user key org name role = Ok (db', r) -> well_typed db'.
Proof.
  intros H Hf Hp. unfold post_organization_users in Hp. apply result_bind_ok in Hp as (o & _ & Hp).
  apply result_bind_ok in Hp as (u & _ & Hp). destruct (load_org_membership _ _ _) eqn:E; [done|].
  apply result_bind_ok in Hp as (ro & Hro & [= <- _]). apply role_by_name_row in Hro as [Hr Hs].
  apply wt_audit, wt_set_members; [done|]. rewrite map_app. eapply (add_member _ _ _ _ (role_view ro));
    [apply H|by rewrite map_map| |apply list_elem_of_fmap; by eauto|done|done].
  intros ? (m & -> & Hm)%list_elem_of_fmap. simpl. intros Ho Hu. unfold load_org_membership in E.
  pose proof (one_None _ _ m E Hm) as Hno. simpl in Hno. by rewrite Ho, Hu, !N.eqb_refl in Hno.
Qed.

Lemma load_org_membership_row db uid org m :
  load_org_membership db uid org = Some m -> m ∈ ad_organization_users db /\ omb_organization m = org /\ omb_user m = uid.
Proof.
  unfold load_org_membership. intros H. apply one_Some in H as [Hm [Ho%N.eqb_eq Hu%N.eqb_eq]%andb_true_iff]. done.
Qed.

Lemma wt_patch_member db user key org name role db' r :
  well_typed db -> patch_organization_users db user key org name role = Ok (db', r) -> well_typed db'.
Proof.
  intros H Hp. unfold patch_organization_users in Hp. apply result_bind_ok in Hp as (o & _ & Hp).
  apply result_bind_ok in Hp as (u & _ & Hp). apply result_bind_ok in Hp as (m & Hm & Hp). apply ok_or_Ok in Hm.
  apply load_org_membership_row in Hm as (Hm & Ho & _).
  apply result_bind_ok in Hp as (ro & Hro & [= <- _]). apply role_by_name_row in Hro as [Hr Hs].
  apply wt_audit, wt_set_members; [done|].
  rewrite (update_view member_view _ _ (update_member (mv_id (member_view m)) (rv_id (role_view ro)))).
  - apply update_member_ok; [apply H|apply list_elem_of_fmap; by eauto|apply list_elem_of_fmap; by eauto|].
    simpl. by rewrite Ho.
  - intros x. unfold update_member, member_view. simpl. by destruct (omb_id x =? omb_id m).
Qed.

Lemma wt_delete_member db user key org name db' r :
  well_typed db -> delete_organization_users db user key org name = Ok (db', r) -> well_typed db'.
Proof.
  intros H Hp. unfold delete_organization_users in Hp. apply result_bind_ok in Hp as (o & _ & Hp).
  apply result_bind_ok in Hp as (u & _ & Hp). apply result_bind_ok in Hp as (m & Hm & [= <- _]).
  apply wt_audit, wt_set_members; [done|]. unfold delete_rows.
  rewrite (filter_view member_view _ (fun v => negb (mv_id v =? omb_id m))) by done. apply filter_members, H.
Qed.

(** ** Cache roles and members *)

Lemma wt_set_cache_roles db R :
  well_typed db ->
  roles_ok CachePermission BUILTIN_CACHE_ROLES (map cache_role_view R) (map cache_member_view (ad_cache_users db)) ->
  well_typed (set_cache_roles db R).
Proof. intros H Hr. eapply wt_untouched; [by apply (wt_cache_tables db R (ad_cache_users db))|done..]. Qed.

Lemma wt_set_cache_users db M :
  well_typed db ->
  roles_ok CachePermission BUILTIN_CACHE_ROLES (map cache_role_view (ad_cache_roles db)) (map cache_member_view M) ->
  well_typed (set_cache_users db M).
Proof. intros H Hr. eapply wt_untouched; [by apply (wt_cache_tables db (ad_cache_roles db) M)|done..]. Qed.

Lemma cache_role_scoped db role :
  well_typed db -> role ∈ ad_cache_roles db -> is_builtin_cache_role (crl_id role) = false -> crl_cache role <> None.
Proof.
  intros H Hr Hb.
  by apply (not_builtin_cache_scoped (cache_role_view role) _ _ (wt_cache_roles _ H) (list_elem_of_fmap_2 cache_role_view _ _ Hr)).
Qed.

Lemma wt_post_cache_role db fresh user key cache name perms db' r :
  well_typed db -> fresh ∉ map crl_id (ad_cache_roles db) ->
  post_cache_role db fresh user key cache name perms = Ok (db', r) -> well_typed db'.
Proof.
  intros H Hf Hp. unfold post_cache_role in Hp. inv_web. apply wt_audit, wt_set_cache_roles; [done|].
  rewrite map_app. apply add_role; [apply H|by rewrite map_map|done|by eapply parse_cache_permission_list_typed|].
  intros ? (r & -> & Hr)%list_elem_of_fmap Hn Hs. simpl in Hn, Hs.
  assert ((crl_name r =? name)%string && role_of_cache (cch_id x) r = false) as Hno
    by (eapply (one_None (fun r => (crl_name r =? name)%string && role_of_cache (cch_id x) r)); done).
  apply role_of_cache_shared in Hs. by rewrite Hn, String.eqb_refl, Hs in Hno.
Qed.

Lemma load_cache_role_row db cache id role :
  load_cache_role db cache id = Ok role -> role ∈ ad_cache_roles db /\ crl_id role = id
    /\ (crl_cache role = None \/ crl_cache role = Some cache).
Proof.
  unfold load_cache_role, cache_role_by_id. intros H. apply result_bind_ok in H as (r & Hr & H). apply or_not_found_Ok in Hr.
  apply one_Some in Hr as [? ?%N.eqb_eq]. destruct (crl_cache r) as [o|] eqn:E; inv_web; [|by auto].
  match goal with Hn : (_ =? _) = true |- _ => apply N.eqb_eq in Hn; subst end. by auto.
Qed.

Lemma wt_update_cache_role db role name mask :
  well_typed db -> role ∈ ad_cache_roles db -> is_builtin_cache_role (crl_id role) = false ->
  well_typed_mask CachePermission mask ->
  (name = crl_name role \/ exists cache, crl_cache role = Some cache /\
     forall r, r ∈ ad_cache_roles db ->
       ((crl_name r =? name)%string && negb (crl_id r =? crl_id role) && role_of_cache cache r) = false) ->
  well_typed (set_cache_roles db (update_rows (fun r => crl_id r =? crl_id role) (with_cache_role name mask) (ad_cache_roles db))).
Proof.
  intros H Hr Hb Hm Hn. apply wt_set_cache_roles; [done|].
  rewrite (update_view cache_role_view _ _ (update_role (rv_id (cache_role_view role)) name mask)).
  - apply update_role_ok; [apply H|apply list_elem_of_fmap; by eauto|by eapply cache_role_scoped|done|].
    intros ? (r & -> & Hrr)%list_elem_of_fmap Hid Hname Hsh. destruct Hn as [->|(cache & Ho & Hclash)].
    + apply Hid. f_equal. eapply (ro_names _ _ _ _ (wt_cache_roles _ H)); [..|exact Hname|exact Hsh];
        apply list_elem_of_fmap; eauto.
    + specialize (Hclash r Hrr). simpl in Hname, Hid, Hsh. rewrite Ho in Hsh. apply role_of_cache_shared in Hsh.
      rewrite Hname, String.eqb_refl, Hsh in Hclash. by rewrite (proj2 (N.eqb_neq _ _) Hid) in Hclash.
  - intros r. unfold update_role, cache_role_view. simpl. by destruct (crl_id r =? crl_id role).
Qed.

Lemma wt_patch_cache_role db user key cache id name perms db' r :
  well_typed db -> patch_cache_role db user key cache id name perms = Ok (db', r) -> well_typed db'.
Proof.
  intros H Hp. unfold patch_cache_role in Hp. apply result_bind_ok in Hp as (o & _ & Hp).
  apply result_bind_ok in Hp as (role & Hrole & Hp). apply load_cache_role_row in Hrole as (Hr & <- & Hsc).
  destruct (is_builtin_cache_role (crl_id role)) eqn:Eb; [done|]. destruct (crl_managed role); [done|].
  apply result_bind_ok in Hp as (name' & Hn & Hp). apply result_bind_ok in Hp as (mask & Hm & [= <- _]).
  pose proof (cache_role_scoped db role H Hr Eb) as Hnone.
  apply wt_audit, wt_update_cache_role; [done|done|done| |].
  - clear Hn. destruct perms; inv_web; [by eapply parse_cache_permission_list_typed|].
    apply (ro_masks _ _ _ _ (wt_cache_roles _ H) (cache_role_view role)). apply list_elem_of_fmap; eauto.
  - clear Hm. destruct name as [n|]; inv_web; [|by left]. right. exists (cch_id o). split; [naive_solver|]. intros r' Hr'.
    by eapply (one_None (fun r => (crl_name r =? name')%string && negb (crl_id r =? crl_id role) && role_of_cache (cch_id o) r)).
Qed.

Lemma wt_delete_cache_role db user key cache id db' r :
  well_typed db -> delete_cache_role db user key cache id = Ok (db', r) -> well_typed db'.
Proof.
  intros H Hp. unfold delete_cache_role in Hp. apply result_bind_ok in Hp as (o & _ & Hp).
  apply result_bind_ok in Hp as (role & Hrole & Hp). apply load_cache_role_row in Hrole as (Hr & <- & Hsc).
  destruct (is_builtin_cache_role (crl_id role)) eqn:Eb; [done|]. destruct (crl_managed role); [done|].
  pose proof (cache_role_scoped db role H Hr Eb) as Hnone. destruct (one _ _); [done|].
  destruct (existsb _ _) eqn:Ex; [done|]. injection Hp as <- _. apply wt_audit, wt_set_cache_roles; [done|].
  unfold delete_rows. rewrite (filter_view cache_role_view _ (fun v => negb (rv_id v =? crl_id role))) by done.
  assert (map cache_member_view (ad_cache_users db) = List.filter (fun _ => true) (map cache_member_view (ad_cache_users db))) as ->
    by (clear; induction (map cache_member_view (ad_cache_users db)); simpl; congruence).
  apply filter_tables; [apply H| |].
  - intros v Hv Hs. apply negb_true_iff, N.eqb_neq. intros He. apply Hnone.
    assert (v = cache_role_view role) as ->; [|done].
    eapply (NoDup_map_inj rv_id); [apply (ro_ids _ _ _ _ (wt_cache_roles _ H))|done|apply list_elem_of_fmap; by eauto|done].
  - intros ? v (m & -> & Hm)%list_elem_of_fmap _ _ He. apply negb_true_iff, N.eqb_neq. intros Hid.
    apply not_true_iff_false in Ex. apply Ex, existsb_exists. exists m. split; [by apply list_elem_of_In|].
    apply N.eqb_eq. simpl in He. congruence.
Qed.

Lemma cache_role_by_name_row db cache name role :
  cache_role_by_name db cache name = Ok role -> role ∈ ad_cache_roles db
    /\ (crl_cache role = None \/ crl_cache role = Some cache).
Proof.
  unfold cache_role_by_name. intros H. apply or_not_found_Ok, one_Some in H as [Hr [_ Hs]%andb_true_iff]. split; [done|].
  apply role_of_cache_shared in Hs. unfold share_scope in Hs. naive_solver.
Qed.

Lemma wt_post_cache_member db fresh user key cache name role db' r :
  well_typed db -> fresh ∉ map cmb_id (ad_cache_users db) ->
  post_cache_member db fresh user key cache name role = Ok (db', r) -> well_typed db'.
Proof.
  intros H Hf Hp. unfold post_cache_member in Hp. apply result_bind_ok in Hp as (o & _ & Hp).
  apply result_bind_ok in Hp as (u & _ & Hp). destruct (find_cache_membership _ _ _) eqn:E; [done|].
  apply result_bind_ok in Hp as (ro & Hro & [= <- _]). apply cache_role_by_name_row in Hro as [Hr Hs].
  apply wt_audit, wt_set_cache_users; [done|]. rewrite map_app. eapply (add_member _ _ _ _ (cache_role_view ro));
    [apply H|by rewrite map_map| |apply list_elem_of_fmap; by eauto|done|done].
  intros ? (m & -> & Hm)%list_elem_of_fmap. simpl. intros Ho Hu. unfold find_cache_membership in E.
  pose proof (one_None _ _ m E Hm) as Hno. simpl in Hno. by rewrite Ho, Hu, !N.eqb_refl in Hno.
Qed.

Lemma wt_patch_cache_member db user key cache name role db' r :
  well_typed db -> patch_cache_member db user key cache name role = Ok (db', r) -> well_typed db'.
Proof.
  intros H Hp. unfold patch_cache_member in Hp. apply result_bind_ok in Hp as (o & _ & Hp).
  apply result_bind_ok in Hp as (u & _ & Hp). apply result_bind_ok in Hp as (m & Hm & Hp). apply ok_or_Ok in Hm.
  unfold find_cache_membership in Hm. apply one_Some in Hm as [Hm [Ho%N.eqb_eq _]%andb_true_iff].
  apply result_bind_ok in Hp as (ro & Hro & [= <- _]). apply cache_role_by_name_row in Hro as [Hr Hs].
  apply wt_audit, wt_set_cache_users; [done|].
  rewrite (update_view cache_member_view _ _ (update_member (mv_id (cache_member_view m)) (rv_id (cache_role_view ro)))).
  - apply update_member_ok; [apply H|apply list_elem_of_fmap; by eauto|apply list_elem_of_fmap; by eauto|].
    simpl. by rewrite Ho.
  - intros x. unfold update_member, cache_member_view. simpl. by destruct (cmb_id x =? cmb_id m).
Qed.

Lemma wt_delete_cache_member db user key cache name db' r :
  well_typed db -> delete_cache_member db user key cache name = Ok (db', r) -> well_typed db'.
Proof.
  intros H Hp. unfold delete_cache_member in Hp. apply result_bind_ok in Hp as (o & _ & Hp).
  apply result_bind_ok in Hp as (u & _ & Hp). apply result_bind_ok in Hp as (m & Hm & Hp).
  destruct (_ && _); [done|]. injection Hp as <- _.
  apply wt_audit, wt_set_cache_users; [done|]. unfold delete_rows.
  rewrite (filter_view cache_member_view _ (fun v => negb (mv_id v =? cmb_id m))) by done. apply filter_members, H.
Qed.

(** ** Deletion and seeding *)

Lemma wt_drop_organization db org : well_typed db -> well_typed (drop_organization db org).
Proof.
  intros H. unfold drop_organization. set (gone := map orl_id _).
  assert (forall id, id ∈ gone <-> exists r, r ∈ ad_roles db /\ orl_id r = id /\ orl_organization r = Some org) as Hgone.
  { intros id. unfold gone. rewrite list_elem_of_fmap. setoid_rewrite elem_of_list_filter_bool.
    setoid_rewrite bool_decide_eq_true. naive_solver. }
  clearbody gone.
  apply wt_apis.
  - eapply wt_untouched; [apply (wt_org_tables db
      (delete_rows (fun r => bool_decide (orl_organization r = Some org)) (ad_roles db))
      (delete_rows (fun m => (omb_organization m =? org) || bool_decide (omb_role m ∈ gone)) (ad_organization_users db)))|done..];
      [done|]. unfold delete_rows.
    rewrite (filter_view role_view _ (fun v => negb (bool_decide (rv_scope v = Some org)))) by done.
    rewrite (filter_view member_view _ (fun v => negb ((mv_scope v =? org) || bool_decide (mv_role v ∈ gone)))) by done.
    apply filter_tables; [apply H| |].
    + intros v _ Hs. by rewrite Hs.
    + intros m v _ Hg (r & -> & Hr)%list_elem_of_fmap He. apply negb_true_iff, bool_decide_eq_false. intros Hs.
      apply negb_true_iff, orb_false_iff in Hg as [_ Hg%bool_decide_eq_false]. apply Hg, Hgone. eauto.
  - rewrite map_map, (map_ext _ key_id); [apply H|]. intros k. unfold unpin_organization. by case_bool_decide.
  - intros ? (k & -> & Hk)%list_elem_of_fmap. unfold unpin_organization.
    case_bool_decide; by apply (wt_keys db H k).
Qed.

Lemma wt_drop_cache db cache : well_typed db -> well_typed (drop_cache db cache).
Proof.
  intros H. unfold drop_cache. apply wt_delete_apis.
  eapply wt_untouched; [apply (wt_cache_tables db
    (delete_rows (fun r => bool_decide (crl_cache r = Some cache)) (ad_cache_roles db))
    (delete_rows (fun m => cmb_cache m =? cache) (ad_cache_users db)))|done..]; [done|]. unfold delete_rows.
  rewrite (filter_view cache_role_view _ (fun v => negb (bool_decide (rv_scope v = Some cache)))) by done.
  rewrite (filter_view cache_member_view _ (fun v => negb (mv_scope v =? cache))) by done.
  apply filter_tables; [apply H| |].
  - intros v _ Hs. by rewrite Hs.
  - intros m v Hm Hg Hr He. apply negb_true_iff, bool_decide_eq_false. intros Hs.
    apply negb_true_iff, N.eqb_neq in Hg. destruct (member_role _ _ _ _ _ (wt_cache_roles _ H) Hm Hr He); congruence.
Qed.

(** Seeding finds the built-in roles as they should be. *)
Lemma seed_role_idle db i n m : well_typed db -> (i, n, m) ∈ BUILTIN_ROLES -> seed_builtin_role db i n m = db.
Proof.
  intros H Hb. unfold seed_builtin_role, role_by_id.
  pose proof (ro_builtin _ _ _ _ (wt_roles _ H) i n m Hb) as (r & Hr & Hin)%list_elem_of_fmap.
  destruct (one _ (ad_roles db)) as [r'|] eqn:E.
  - apply one_Some in E as [Hin' Hid%N.eqb_eq].
    pose proof (builtin_scope _ _ _ (role_view r') i n m (wt_roles _ H) (list_elem_of_fmap_2 role_view _ _ Hin') Hb Hid) as Hv.
    injection Hv as _ _ -> ->. by rewrite Z.eqb_refl, String.eqb_refl.
  - pose proof (one_None _ _ r E Hin) as Hno. injection Hr as Hi _ _ _. simpl in Hno. by rewrite <- Hi, N.eqb_refl in Hno.
Qed.

Lemma seed_cache_role_idle db i n m :
  well_typed db -> (i, n, m) ∈ BUILTIN_CACHE_ROLES -> seed_builtin_cache_role db i n m = db.
Proof.
  intros H Hb. unfold seed_builtin_cache_role, cache_role_by_id.
  pose proof (ro_builtin _ _ _ _ (wt_cache_roles _ H) i n m Hb) as (r & Hr & Hin)%list_elem_of_fmap.
  destruct (one _ (ad_cache_roles db)) as [r'|] eqn:E.
  - apply one_Some in E as [Hin' Hid%N.eqb_eq].
    pose proof (builtin_scope _ _ _ (cache_role_view r') i n m (wt_cache_roles _ H)
                  (list_elem_of_fmap_2 cache_role_view _ _ Hin') Hb Hid) as Hv.
    injection Hv as _ _ -> ->. by rewrite Z.eqb_refl, String.eqb_refl.
  - pose proof (one_None _ _ r E Hin) as Hno. injection Hr as Hi _ _ _. simpl in Hno. by rewrite <- Hi, N.eqb_refl in Hno.
Qed.

Lemma seed_roles_idle db : well_typed db -> seed_roles db = db.
Proof.
  intros H. unfold seed_roles. cbv zeta.
  rewrite !(seed_role_idle db) by (done || set_solver). by rewrite !(seed_cache_role_idle db) by (done || set_solver).
Qed.

(** ** Every step *)

Lemma access_step_typed db db' : access_step db db' -> well_typed db -> well_typed db'.
Proof.
  intros Hs H. destruct Hs.
  - by apply wt_decode_jwt.
  - by apply wt_authorize.
  - by eapply wt_post_keys.
  - by eapply wt_patch_key.
  - unfold delete_keys in *. inv_web. by apply wt_audit, wt_delete_apis.
  - unfold post_key_revoke in *. inv_web; [done|]. apply wt_audit, wt_update_apis; [done..|].
    intros k Hk _. by apply (wt_keys db H k).
  - unfold delete_session in *. inv_web; [done|]. by eapply wt_audit, wt_untouched.
  - by eapply wt_post_role.
  - by eapply wt_patch_role.
  - by eapply wt_delete_role.
  - by eapply wt_post_member.
  - by eapply wt_patch_member.
  - by eapply wt_delete_member.
  - by eapply wt_post_cache_role.
  - by eapply wt_patch_cache_role.
  - by eapply wt_delete_cache_role.
  - by eapply wt_post_cache_member.
  - by eapply wt_patch_cache_member.
  - by eapply wt_delete_cache_member.
  - unfold set_organization_public in *. inv_web. by eapply wt_untouched.
  - unfold set_cache_public in *. inv_web. by eapply wt_untouched.
  - unfold post_organization_subscribe_cache in *. inv_web. by eapply wt_untouched.
  - unfold delete_organization_subscribe_cache in *. inv_web. by eapply wt_untouched.
  - unfold delete_organization in *. inv_web. by apply wt_audit, wt_drop_organization.
  - unfold delete_cache in *. inv_web. by apply wt_audit, wt_drop_cache.
  - by rewrite seed_roles_idle.
Qed.

Lemma access_steps_typed db db' : rtc access_step db db' -> well_typed db -> well_typed db'.
Proof. induction 1 as [|x y z Hs _ IH]; [done|]. intros H. by eapply IH, access_step_typed. Qed.

End Invariant.
