(* ===== verification/AccessFacts.v ===== *)
(** * What access control guarantees

    Well-typed tables and what they exclude; API keys never reach beyond their owner; private
    resources look like missing ones; what an authorized request proves; what a minted key
    may hold; and two ways a key escapes its scope. *)

From S2P Require Import Prelude RustStr ScoreContext Permissions Access Tokens AccessAdmin AccessTypes AccessInvariant.

Local Open Scope N_scope.

Section Facts.
Context `{CH : Chrono} `{CR : Crypto}.
Implicit Types (db : AccessDb) (ctx : ApiKeyContext).

(** ** Well-typed tables *)

Lemma member_has_role db user org m mask :
  well_typed db -> load_membership_with_permissions db user org None = Some (m, mask) ->
  exists r, r ∈ ad_roles db /\ orl_id r = omb_role m /\ orl_permission r = mask /\ role_of_org org r = true.
Proof.
  intros H. unfold load_membership_with_permissions. simpl.
  destruct (load_org_membership db user org) as [m'|] eqn:E; [|done]. intros [= -> <-].
  apply load_org_membership_row in E as (Hm & Ho & _). unfold role_by_id.
  destruct (ro_role _ _ _ _ (wt_roles _ H) (member_view m)) as (v & (r & -> & Hr)%list_elem_of_fmap & Hid & Hs).
  { apply list_elem_of_fmap; eauto. }
  destruct (one _ (ad_roles db)) as [r'|] eqn:E'; simpl.
  - apply one_Some in E' as [Hr' Hid'%N.eqb_eq]. exists r'. split_and!; [done..|].
    assert (role_view r' = role_view r) as Hv.
    { eapply (NoDup_map_inj rv_id); [apply (ro_ids _ _ _ _ (wt_roles _ H))|apply list_elem_of_fmap; eauto..|].
      simpl in *. congruence. }
    apply role_of_org_shared. unfold share_scope. injection Hv as _ -> _ _. simpl in Hs. rewrite Ho in Hs. naive_solver.
  - pose proof (one_None _ _ r E' Hr) as Hno. simpl in *. by rewrite Hid, N.eqb_refl in Hno.
Qed.

Lemma cache_member_has_role db user cache :
  well_typed db -> exists mask, cache_role_mask db user cache = Ok mask.
Proof.
  intros H. unfold cache_role_mask. destruct (one _ (ad_cache_users db)) as [m|] eqn:E; [|eauto].
  apply one_Some in E as [Hm _]. unfold cache_role_by_id.
  destruct (ro_role _ _ _ _ (wt_cache_roles _ H) (cache_member_view m)) as (v & (r & -> & Hr)%list_elem_of_fmap & Hid & _).
  { apply list_elem_of_fmap; eauto. }
  destruct (one _ (ad_cache_roles db)) as [r'|] eqn:E'; simpl; [eauto|].
  pose proof (one_None _ _ r E' Hr) as Hno. simpl in *. by rewrite Hid, N.eqb_refl in Hno.
Qed.


(** ** API keys act within their owner *)

(** The organization pin of a key does not exclude [org]. *)
Definition pin_allows ctx (org : OrganizationId) : Prop := kc_organization ctx = None \/ kc_organization ctx = Some org.

Lemma pinned_elsewhere_false ctx org : pinned_elsewhere (Some ctx) org = false <-> pin_allows ctx org.
Proof.
  unfold pinned_elsewhere, pin_allows. destruct (kc_organization ctx) as [p|]; [|naive_solver].
  rewrite negb_false_iff, N.eqb_eq. naive_solver.
Qed.

Lemma member_key db uid org ctx :
  is_org_member db uid org (Some ctx) = true -> is_org_member db uid org None = true /\ pin_allows ctx org.
Proof.
  unfold is_org_member. destruct (pinned_elsewhere (Some ctx) org) eqn:E; [done|].
  apply pinned_elsewhere_false in E. done.
Qed.

Lemma membership_key db uid org ctx m mask :
  load_membership_with_permissions db uid org (Some ctx) = Some (m, mask) ->
  pin_allows ctx org /\ exists full, load_membership_with_permissions db uid org None = Some (m, full)
    /\ mask = Z.land full (kc_mask ctx).
Proof.
  unfold load_membership_with_permissions. destruct (pinned_elsewhere (Some ctx) org) eqn:E; [done|].
  apply pinned_elsewhere_false in E. simpl. destruct (load_org_membership db uid org); [|done].
  intros [= <- <-]. eauto.
Qed.

Lemma require_org_key db uid org p label ctx :
  require_org_permission db uid org p label (Some ctx) = Ok tt ->
  require_org_permission db uid org p label None = Ok tt /\ pin_allows ctx org /\ holds (kc_mask ctx) p = true.
Proof.
  unfold require_org_permission. intros ([m mask] & Hm & H)%result_bind_ok. apply or_not_found_Ok, membership_key in Hm as (Hp & full & -> & ->).
  simpl in *. destruct (mask_grants _ p) eqn:E; [|done]. rewrite mask_grants_holds, holds_land in E.
  apply andb_true_iff in E as [E1 E2]. by rewrite mask_grants_holds, E1.
Qed.

Lemma subscriber_key db uid cache ctx :
  is_cache_org_subscriber db uid cache (Some ctx) = true -> is_cache_org_subscriber db uid cache None = true.
Proof.
  unfold is_cache_org_subscriber. simpl. set (subs := map ocs_organization _).
  set (narrow := match kc_organization ctx with Some _ => _ | None => _ end).
  assert (forall o, o ∈ narrow -> o ∈ subs) as Hsub.
  { intros o. unfold narrow. destruct (kc_organization ctx); [|done]. by intros [_ ?]%elem_of_list_filter_bool. }
  clearbody narrow subs. destruct narrow as [|n narrow]; [done|].
  destruct (one _ _) as [m|] eqn:E; [|done]. apply one_Some in E as [Hm [Hu Ho%bool_decide_eq_true]%andb_true_iff].
  intros _. apply Hsub in Ho. destruct subs as [|s subs]; [by apply not_elem_of_nil in Ho|].
  destruct (one (fun m => _ && bool_decide (_ ∈ s :: subs)) _) eqn:E2; [done|].
  pose proof (one_None _ _ m E2 Hm) as Hno. simpl in Hno. rewrite Hu, (bool_decide_eq_true_2 _ Ho) in Hno. done.
Qed.

Lemma require_cache_key db uid cache p label ctx :
  require_cache_permission db uid cache p label (Some ctx) = Ok tt ->
  require_cache_permission db uid cache p label None = Ok tt
  /\ holds (default I64_MAX (kc_cache_permission_mask ctx)) p = true.
Proof.
  unfold require_cache_permission. intros (found & Hf & H)%result_bind_ok. rewrite Hf. simpl.
  apply result_bind_ok in H as (mask & Hm & H). rewrite Hm. simpl in *.
  destruct (cache_mask_grants _ p) eqn:E; [|done]. rewrite cache_mask_grants_holds, holds_land in E.
  apply andb_true_iff in E as [E1 E2].
  assert (cache_mask_grants (Z.land mask I64_MAX) p = true) as ->; [|done].
  rewrite cache_mask_grants_holds. unfold I64_MAX. by rewrite holds_max.
Qed.

Ltac passed E := match goal with H : context [if negb ?b then _ else _] |- _ => destruct b eqn:E; simpl in H; [|done] end.


(** ** Private resources look like missing ones *)

(** The tables without any organization, or cache, of this name. *)
Definition forget_organization db (name : string) : AccessDb :=
  set_organizations db (delete_rows (fun o => (ogn_name o =? name)%string) (ad_organizations db)).
Definition forget_cache db (name : string) : AccessDb :=
  set_caches db (delete_rows (fun c => (cch_name c =? name)%string) (ad_caches db)).

(** The caller, with this key, is no member of the organization. *)
Definition outsider db (caller : Caller) (key : option ApiKeyContext) (org : OrganizationId) : Prop :=
  match caller_user_id caller with Some uid => is_org_member db uid org key = false | None => True end.

(** The caller neither belongs to the cache nor to a subscribed organization. *)
Definition cache_outsider db (caller : Caller) (key : option ApiKeyContext) (cache : CacheId) : Prop :=
  match caller_user_id caller with
  | Some uid => is_cache_member db uid cache key = false /\ is_cache_org_subscriber db uid cache key = false
  | None => True
  end.

Lemma one_forgotten {A} (f : A -> bool) l : one f (delete_rows f l) = None.
Proof.
  unfold one, delete_rows. induction l as [|x l IH]; simpl; [done|]. destruct (f x) eqn:E; simpl; [done|by rewrite E].
Qed.

Lemma outsider_org_permission db uid org p label key :
  is_org_member db uid org key = false -> require_org_permission db uid org p label key = Err (not_found label).
Proof.
  unfold is_org_member, require_org_permission, load_membership_with_permissions.
  destruct (pinned_elsewhere key org); [done|]. by destruct (load_org_membership db uid org).
Qed.

Lemma outsider_cache_permission db uid cache p label key :
  is_cache_member db uid cache key = false -> require_cache_permission db uid cache p label key = Err (not_found label).
Proof.
  unfold is_cache_member, require_cache_permission, cache_role_mask. by destruct (one _ (ad_cache_users db)).
Qed.


(** ** Authentication *)

(** What a token proves: a session that is neither revoked nor expired and belongs to the
    user the token names, or a key that is neither revoked nor expired, with its owner and
    scope. *)
Inductive authentic db (now : NaiveDateTime) (token : string) : DecodedRequest -> Prop :=
| authentic_session c s :
    RustStr.strip_prefix "GRAD" token = None -> decode_claims token = Some c ->
    s ∈ ad_sessions db -> ses_id s = cl_jti c -> ses_user_id s = cl_id c ->
    ses_revoked_at s = None -> earlier (ses_expires_at s) now = false ->
    authentic db now token (DecodedSession (cl_id c))
| authentic_key raw k :
    token = "GRAD" +:+ raw -> k ∈ ad_apis db -> key_key k = hash_api_key raw ->
    key_revoked_at k = None -> (forall e, key_expires_at k = Some e -> earlier e now = false) ->
    authentic db now token (DecodedApiKey (key_owned_by k) (context_of_key k)).

Lemma decode_jwt_authentic db now token d : snd (decode_jwt db now token) = Ok d -> authentic db now token d.
Proof.
  unfold decode_jwt. destruct (RustStr.strip_prefix "GRAD" token) as [raw|] eqn:Ep.
  - apply strip_prefix_Some in Ep. unfold decode_api_key. destruct (one _ (ad_apis db)) as [k|] eqn:E; [|done].
    apply one_Some in E as [Hk Hh%String.eqb_eq]. destruct (key_revoked_at k) eqn:Er; [done|].
    destruct (key_expires_at k) as [e|] eqn:Ee; [destruct (earlier e now) eqn:El; [done|]|]; simpl; intros [= <-];
      (eapply authentic_key; [done..|]); rewrite Ee; naive_solver.
  - destruct (decode_claims token) as [c|] eqn:Ec; [|done].
    destruct (one _ (ad_sessions db)) as [s|] eqn:E; [|done]. apply one_Some in E as [Hs Hid%N.eqb_eq].
    destruct (_ || _ || _) eqn:Ebad; [done|]. apply orb_false_iff in Ebad as [[Er Ee]%orb_false_iff Eu%negb_false_iff%N.eqb_eq].
    simpl. intros [= <-]. destruct (ses_revoked_at s) eqn:Er'; [done|]. by eapply authentic_session.
Qed.

(** Decoding only moves last-used times. *)
Lemma decode_jwt_frame db now token :
  ad_users (fst (decode_jwt db now token)) = ad_users db /\ ad_audit (fst (decode_jwt db now token)) = ad_audit db
  /\ ad_caches (fst (decode_jwt db now token)) = ad_caches db
  /\ ad_organization_users (fst (decode_jwt db now token)) = ad_organization_users db
  /\ ad_cache_users (fst (decode_jwt db now token)) = ad_cache_users db
  /\ ad_organization_caches (fst (decode_jwt db now token)) = ad_organization_caches db.
Proof. unfold decode_jwt, decode_api_key. repeat case_match; done. Qed.

(** C23. A request passes [authorize] only with an authentic token of an active user - a live
    session of that user, or a live API key that the user owns, presented from an address on
    the key's allowlist - and carries on exactly that user and that key's scope; every
    refusal adds one denial to the audit log, and nothing is written there otherwise. *)
Theorem authorize_sound db now proxies rq :
  match authorize db now proxies rq with
  | (db', Ok ext) =>
      ad_audit db' = ad_audit db
      /\ exists token d, bearer_token rq = Ok token /\ authentic db now token d
         /\ user_by_id db (decoded_user_id d) = Some (ext_user ext) /\ usr_active (ext_user ext) = true
         /\ ext_api_key ext = api_key_context d
         /\ ext_client_ip ext = resolve_client_ip (rq_forwarded_for rq) (peer_of rq) proxies
         /\ forall ctx, ext_api_key ext = Some ctx -> is_allowed (ext_client_ip ext) (kc_allowed_ips ctx) = true
  | (db', Err _) =>
      exists who reason, ad_audit db' = ad_audit db ++ [{| aud_user := who; aud_event := AUTH_DENY; aud_reason := Some reason |}]
  end.
Proof.
  unfold authorize. destruct (bearer_token rq) as [token|[reason e]] eqn:Et; [|by eauto].
  pose proof (decode_jwt_authentic db now token) as Hauth.
  destruct (decode_jwt_frame db now token) as (Husers & Haudit & _).
  destruct (decode_jwt db now token) as [db1 [d|code]]; simpl in *; [|rewrite Haudit; by eauto].
  specialize (Hauth d eq_refl). rewrite <- Haudit.
  assert (user_by_id db1 = user_by_id db) as Hub by (unfold user_by_id; by rewrite Husers). rewrite Hub.
  destruct (match api_key_context d with Some _ => _ | None => _ end) eqn:Eip; [by eauto|].
  destruct (user_by_id db (decoded_user_id d)) as [u|] eqn:Eu; [|by eauto].
  destruct (usr_active u) eqn:Ea; simpl; [|by eauto]. split; [done|].
  exists token, d. split_and!; try done. intros ctx Hctx. rewrite Hctx in Eip. by apply negb_false_iff in Eip.
Qed.

(** ** Minting *)

(** A minted key holds nothing its owner could not grant: only a session mints, the one
    new key belongs to that user, is stored hashed, is pinned to an organization or a cache
    but not to both, holds at least one permission, and a key pinned to a cache holds only
    cache permissions its owner holds there, an organization pin only where the owner is a
    member. *)
Theorem minted_key_bounded db mt user caller body db' shown :
  post_keys db mt user caller body = Ok (db', shown) ->
  caller = None /\ shown = "GRAD" +:+ mt_raw_key mt
  /\ exists k, ad_apis db' = ad_apis db ++ [k] /\ key_owned_by k = usr_id user
     /\ key_key k = hash_api_key (mt_raw_key mt) /\ key_permission k <> 0%Z
     /\ match key_cache k with
        | Some c =>
            key_organization k = None
            /\ exists granted, effective_cache_mask db (usr_id user) c None = Ok (Some granted)
               /\ forall p : CachePermission, holds (key_permission k) p = true -> holds granted p = true
        | None =>
            well_typed_mask Permission (key_permission k)
            /\ forall o, key_organization k = Some o -> is_org_member db (usr_id user) o None = true
        end.
Proof.
  unfold post_keys. intros ([] & Hc & H)%result_bind_ok. destruct caller; [done|]. split; [done|].
  destruct (_ && _); [done|]. destruct (one _ _); [done|].
  apply result_bind_ok in H as ([[mask org] cache] & Hs & H). apply result_bind_ok in H as (ips & _ & [= <- <-]).
  split; [done|]. eexists. split; [done|]. cbn [key_owned_by key_key key_permission key_cache key_organization].
  split_and!; [done..|by eapply requested_scope_typed|]. unfold requested_scope in Hs. destruct (ck_cache body).
  - apply result_bind_ok in Hs as (c & _ & Hs). apply result_bind_ok in Hs as (m & Hm & Hs).
    destruct (m =? 0)%Z; [done|]. apply result_bind_ok in Hs as (found & Hf & Hs).
    apply result_bind_ok in Hs as (granted & Hg & Hs). apply or_not_found_Ok in Hg as ->.
    destruct (Z.land m (Z.lnot granted) =? 0)%Z eqn:E; [|done]. injection Hs as <- <- <-. split; [done|].
    exists granted. split; [done|]. apply ldiff_zero; [by eapply parse_cache_permission_list_typed|by apply Z.eqb_eq].
  - apply result_bind_ok in Hs as (m & Hm & Hs). destruct (m =? 0)%Z; [done|].
    apply result_bind_ok in Hs as (o & Ho & [= <- <- <-]). split; [by eapply parse_permission_list_typed|].
    intros o' ->. unfold resolve_org_pin in Ho. destruct (ck_organization body); [|done].
    destruct (_ =? _)%string; [done|]. apply result_bind_ok in Ho as (row & _ & Ho).
    destruct (is_org_member _ _ _ _) eqn:E; [|done]. by injection Ho as <-.
Qed.

(** Patching reads the new permissions as those of an organization, also for a key pinned to
    a cache: what the owner holds on the cache is not asked. *)
Lemma patched_cache_key db user id k c perms m :
  own_key db user id "modify" = Ok k -> key_cache k = Some c ->
  parse_permission_list perms "GET /user/keys/permissions" = Ok m -> m <> 0%Z ->
  exists db' k', patch_key db user None id
      {| pk_name := None; pk_permissions := Some perms; pk_organization := None; pk_allowed_ips := None |} = Ok (db', k')
    /\ key_cache k' = Some c /\ key_permission k' = m.
Proof.
  intros Hk Hc Hm H0. unfold patch_key. rewrite Hk. simpl. rewrite Hm. simpl. rewrite (proj2 (Z.eqb_neq _ _) H0). simpl.
  eexists _, _. split; [done|]. by split.
Qed.

(** ** Keys that escape their scope *)

(** The Basic credentials of the cache surface carry a key's owner but not its scope: a
    live key opens every private cache its owner can read, whatever the key's permissions
    and pins are and also when the owner is deactivated, while the cache loader refuses a
    key pinned elsewhere and [authorize] refuses a deactivated owner. *)
Theorem cache_surface_ignores_key db now rq ip c u k raw :
  basic_password rq = Some ("GRAD" +:+ raw) ->
  one (fun r => (key_key r =? hash_api_key raw)%string) (ad_apis db) = Some k ->
  key_revoked_at k = None -> (forall e, key_expires_at k = Some e -> earlier e now = false) ->
  is_allowed ip (default [] (key_allowed_ips k)) = true ->
  user_by_id db (key_owned_by k) = Some u -> user_can_access_cache db c u = true ->
  snd (require_cache_auth db now rq ip c) = Ok tt
  /\ (forall pin name access, key_cache k = Some pin -> pin <> cch_id c -> get_any_cache_by_name db name = Some c ->
        load_cache db (CallerUser u) (Some (context_of_key k)) name access
          = Err (forbidden "API key is pinned to a different cache."))
  /\ (usr_active u = false ->
      forall proxies rq', bearer_token rq' = Ok ("GRAD" +:+ raw) -> exists e, snd (authorize db now proxies rq') = Err e).
Proof.
  intros Hp Hk Hr He Hip Hu Hacc.
  assert (snd (decode_jwt db now ("GRAD" +:+ raw)) = Ok (DecodedApiKey (key_owned_by k) (context_of_key k))) as Hd.
  { unfold decode_jwt. rewrite strip_prefix_app. unfold decode_api_key. rewrite Hk, Hr.
    destruct (key_expires_at k) as [e|]; [by rewrite (He e eq_refl)|done]. }
  destruct (decode_jwt_frame db now ("GRAD" +:+ raw)) as (Hus & _ & Hca & Hou & Hcu & Hoc).
  split_and!.
  - unfold require_cache_auth. destruct (cch_public c); [done|]. unfold try_authenticate_basic. rewrite Hp.
    destruct (decode_jwt db now ("GRAD" +:+ raw)) as [db1 d]. simpl in *. subst d. simpl. rewrite Hip. simpl.
    assert (user_by_id db1 (key_owned_by k) = Some u) as -> by (unfold user_by_id; by rewrite Hus).
    assert (user_can_access_cache db1 c u = true) as ->; [|done].
    unfold user_can_access_cache in *. by rewrite Hcu, Hou, Hoc.
  - intros pin name access Hpin Hne Hc. unfold load_cache. rewrite Hc. simpl. rewrite Hpin.
    by rewrite (proj2 (N.eqb_neq _ _) Hne).
  - intros Ha proxies rq' Ht. unfold authorize. rewrite Ht.
    destruct (decode_jwt db now ("GRAD" +:+ raw)) as [db1 d]. simpl in *. subst d. simpl.
    destruct (negb _); [by eauto|].
    assert (user_by_id db1 (key_owned_by k) = Some u) as -> by (unfold user_by_id; by rewrite Hus).
    rewrite Ha. by eauto.
Qed.

(** Deleting an organization widens the keys that were pinned to it: each of them stays,
    with its secret, its owner and its permissions, but without a pin, so where it was
    refused - in every other organization - it now acts as an unpinned key of its owner. *)
Theorem deleting_org_unpins_keys db user caller name db' o k :
  load_org db (CallerUser user) caller name (OrgRequire DeleteOrg true) = Ok o ->
  delete_organization db user caller name = Ok db' ->
  k ∈ ad_apis db -> key_organization k = Some (ogn_id o) ->
  exists k', k' ∈ ad_apis db' /\ key_id k' = key_id k /\ key_key k' = key_key k /\ key_owned_by k' = key_owned_by k
    /\ key_permission k' = key_permission k /\ key_revoked_at k' = key_revoked_at k /\ key_organization k' = None
    /\ forall uid other, other <> ogn_id o ->
         is_org_member db uid other (Some (context_of_key k)) = false
         /\ is_org_member db' uid other (Some (context_of_key k')) = is_org_member db' uid other None.
Proof.
  intros Ho Hd Hk Hpin. unfold delete_organization in Hd. rewrite Ho in Hd. injection Hd as <-.
  exists (unpin_organization (ogn_id o) k). unfold unpin_organization at 2 3 4 5 6 7.
  rewrite (bool_decide_eq_true_2 _ Hpin). simpl. split_and!; try done.
  - apply list_elem_of_fmap. eauto.
  - intros uid other Hne. unfold is_org_member, pinned_elsewhere, unpin_organization. simpl.
    rewrite (bool_decide_eq_true_2 _ Hpin), Hpin. simpl.
    rewrite (proj2 (N.eqb_neq _ _)) by (intros He; by apply Hne). by split.
Qed.

End Facts.
