(* ===== verification/AccessExamples.v ===== *)
(** * Concrete runs of access control

    A small installation - two private organizations, two private caches, an active and a
    deactivated user - on which the theorems about access are applied. *)

From S2P Require Import Prelude RustStr ScoreContext Permissions Access Tokens AccessAdmin AccessTypes AccessInvariant AccessFacts.

Local Open Scope N_scope.

#[local] Existing Instance nanosecond_clock.

(** Networks and addresses are written as the one address they hold, tokens and passwords in
    the clear, hashes as the bytes themselves. *)
#[local] Instance plain_crypto : Crypto := {|
  IpNet := string;
  parse_net := fun s => Some s;
  parse_ip := fun s => Some (V4 (Z.of_nat (String.length s)));
  net_contains := fun _ _ => true;
  net_to_string := fun n => n;
  net_new := fun _ _ => None;
  decode_claims := fun s => if (s =? "session-of-alice")%string then Some {| cl_id := 1; cl_jti := 70 |} else None;
  sha256 := fun s => map (fun c => Z.of_nat (nat_of_ascii c)) (String.list_ascii_of_string s);
  base64_decode := fun s => Some s;
|}.

Definition alice : MUser := {| usr_id := 1; usr_username := "alice"; usr_active := true |}.
Definition dora : MUser := {| usr_id := 2; usr_username := "dora"; usr_active := false |}.
Definition acme : MOrganization := {| ogn_id := 10; ogn_name := "acme"; ogn_public := false; ogn_managed := false |}.
Definition beta : MOrganization := {| ogn_id := 11; ogn_name := "beta"; ogn_public := false; ogn_managed := false |}.
Definition store : MCache := {| cch_id := 20; cch_name := "store"; cch_public := false; cch_created_by := 1; cch_managed := false |}.
Definition vault : MCache := {| cch_id := 21; cch_name := "vault"; cch_public := false; cch_created_by := 2; cch_managed := false |}.

Definition key_of (id owner : N) (raw : string) (mask : Z) (org cache : option N) : MApi := {|
  key_id := id; key_owned_by := owner; key_name := "ci"; key_key := hash_api_key raw;
  key_last_used_at := at_ns 0; key_created_at := at_ns 0; key_managed := false; key_expires_at := None;
  key_revoked_at := None; key_permission := mask; key_organization := org; key_cache := cache; key_allowed_ips := None
|}.

(** Alice administers both organizations and the cache [store]; Dora owns [vault] and has a
    key pinned to [store]; Alice has a key pinned to [acme]. *)
Definition installation : AccessDb := seed_roles {|
  ad_users := [alice; dora];
  ad_organizations := [acme; beta];
  ad_organization_users := [{| omb_id := 30; omb_organization := 10; omb_user := 1; omb_role := BASE_ROLE_ADMIN_ID |};
                            {| omb_id := 31; omb_organization := 11; omb_user := 1; omb_role := BASE_ROLE_ADMIN_ID |}];
  ad_roles := [];
  ad_projects := [];
  ad_caches := [store; vault];
  ad_cache_users := [{| cmb_id := 40; cmb_cache := 20; cmb_user := 1; cmb_role := BASE_CACHE_ROLE_ADMIN_ID |}];
  ad_cache_roles := [];
  ad_organization_caches := [];
  ad_apis := [key_of 50 1 "a" 1 (Some 10) None; key_of 51 2 "d" 1 None (Some 20)];
  ad_sessions := [{| ses_id := 70; ses_user_id := 1; ses_created_at := at_ns 0; ses_expires_at := at_ns 100;
                     ses_last_used_at := at_ns 0; ses_revoked_at := None |}];
  ad_audit := []
|}.

Ltac list_cases H :=
  repeat (apply elem_of_cons in H; destruct H as [H|H]); try by apply not_elem_of_nil in H.

(** Evaluate a table of [installation] in the goal. *)
Ltac evaluate t := let v := eval vm_compute in t in change t with v.

Lemma installation_typed : well_typed installation.
Proof.
  split.
  - evaluate (map role_view (ad_roles installation)). evaluate (map member_view (ad_organization_users installation)).
    split.
    + apply (bool_decide_unpack _). by vm_compute.
    + intros r Hr. list_cases Hr; subst; cbn [rv_mask];
        [apply (mask_from_typed PERMISSION_ALL)
        |apply (mask_from_typed [ViewOrg; ManageIntegrations; ManageActions; ManageWorkers; ManageSubscriptions;
             ManageSshKey; CreateProject; EditProject; TriggerEvaluation; ManageTriggers])
        |apply (mask_from_typed [ViewOrg; ManageIntegrations; ManageWorkers; ManageSubscriptions; ManageSshKey])].
    + intros i n m Hb. unfold BUILTIN_ROLES in Hb. list_cases Hb; injection Hb as -> -> ->; vm_compute; repeat constructor.
    + intros r Hr _. list_cases Hr; subst; vm_compute; repeat constructor.
    + intros r r' Hr Hr'. list_cases Hr; list_cases Hr'; subst; cbn [rv_name]; congruence.
    + apply (bool_decide_unpack _). by vm_compute.
    + apply (bool_decide_unpack _). by vm_compute.
    + intros m Hm. list_cases Hm; subst; eexists; (split; [apply list_elem_of_here|by auto]).
  - evaluate (map cache_role_view (ad_cache_roles installation)).
    evaluate (map cache_member_view (ad_cache_users installation)). split.
    + apply (bool_decide_unpack _). by vm_compute.
    + intros r Hr. list_cases Hr; subst; cbn [rv_mask];
        [apply (cache_mask_from_typed CACHE_PERMISSION_ALL)
        |apply (cache_mask_from_typed [ViewCache; ReadStore; WriteStore])
        |apply (cache_mask_from_typed [ViewCache; ReadStore])].
    + intros i n m Hb. unfold BUILTIN_CACHE_ROLES in Hb. list_cases Hb; injection Hb as -> -> ->; vm_compute; repeat constructor.
    + intros r Hr _. list_cases Hr; subst; vm_compute; repeat constructor.
    + intros r r' Hr Hr'. list_cases Hr; list_cases Hr'; subst; cbn [rv_name]; congruence.
    + apply (bool_decide_unpack _). by vm_compute.
    + apply (bool_decide_unpack _). by vm_compute.
    + intros m Hm. list_cases Hm; subst; eexists; (split; [apply list_elem_of_here|by auto]).
  - apply (bool_decide_unpack _). by vm_compute.
  - evaluate (ad_apis installation). intros k Hk.
    list_cases Hk; subst; (split; [done|apply (mask_from_typed [ViewOrg])]).
Qed.

(** Alice creates a role, gives it to nobody, and deletes it again. *)
Definition with_releaser : AccessDb :=
  match post_organization_role installation 60 alice None "acme" "releaser" ["triggerEvaluation"; "viewOrg"] with
  | Ok (db, _) => db
  | Err _ => installation
  end.

Lemma releaser_created : access_step installation with_releaser.
Proof.
  unfold with_releaser.
  destruct (post_organization_role installation 60 alice None "acme" "releaser" ["triggerEvaluation"; "viewOrg"])
    as [[db r]|e] eqn:E; [|vm_compute in E; discriminate E].
  eapply (step_post_role installation 60); [|exact E]. apply (bool_decide_unpack _). by vm_compute.
Qed.




(** Alice mints a read-only key for her cache. *)
Definition minting : Minting := {|
  mt_id := 52; mt_raw_key := "s3cret"; mt_now := at_ns 5; mt_null_time := at_ns 0;
  mt_plus_days := fun t d => (t + d * 86400000000000)%Z
|}.
Definition read_only : CreateApiKeyRequest := {|
  ck_name := "reader"; ck_expires_in_days := Some 90%Z; ck_permissions := ["viewCache"; "readStore"];
  ck_organization := None; ck_cache := Some "store"%string; ck_allowed_ips := None
|}.

Lemma minted_key_bounded_witness :
  exists db', post_keys installation minting alice None read_only = Ok (db', "GRADs3cret"%string)
    /\ exists k, ad_apis db' = ad_apis installation ++ [k] /\ key_permission k = 3%Z
    /\ (forall p : CachePermission, holds 3%Z p = true -> holds cache_admin_mask p = true).
Proof.
  destruct (post_keys installation minting alice None read_only) as [[db' s]|e] eqn:E; [|vm_compute in E; discriminate E].
  pose proof (minted_key_bounded installation minting alice None read_only db' s E) as (_ & -> & k & Hk & _ & _ & _ & Hb).
  exists db'. split; [reflexivity|]. exists k. split; [exact Hk|].
  assert (ad_apis db' = ad_apis installation
            ++ [{| key_id := 52; key_owned_by := 1; key_name := "reader"; key_key := hash_api_key "s3cret";
                   key_last_used_at := at_ns 0; key_created_at := at_ns 5; key_managed := false;
                   key_expires_at := Some 7776000000000005%Z; key_revoked_at := None; key_permission := 3%Z;
                   key_organization := None; key_cache := Some 20; key_allowed_ips := None |}]) as Hshape
    by (vm_compute in E; injection E as <-; reflexivity).
  rewrite Hshape in Hk. apply (inj (app _)) in Hk. injection Hk as <-. split; [reflexivity|].
  cbn in Hb. destruct Hb as (_ & granted & Hg & Hall).
  assert (granted = cache_admin_mask) as -> by (vm_compute in Hg; injection Hg as <-; reflexivity). exact Hall.
Defined.

(** Dora is deactivated and her key is pinned to [store]; it still opens [vault]. *)
Definition basic_request : Request :=
  {| rq_authorization := Some (Some "Basic any:GRADd"%string); rq_cookie := None; rq_forwarded_for := None; rq_peer := None |}.

Lemma cache_surface_ignores_key_witness :
  snd (require_cache_auth installation (at_ns 5) basic_request (V4 0) vault) = Ok tt
  /\ load_cache installation (CallerUser dora) (Some (context_of_key (key_of 51 2 "d" 1 None (Some 20)))) "vault" CacheReadable
       = Err (forbidden "API key is pinned to a different cache.").
Proof.
  pose proof (cache_surface_ignores_key installation (at_ns 5) basic_request (V4 0) vault dora
    (key_of 51 2 "d" 1 None (Some 20)) "d" ltac:(by vm_compute) ltac:(by vm_compute) eq_refl
    ltac:(intros e He; discriminate He) eq_refl ltac:(by vm_compute) ltac:(by vm_compute)) as (H1 & H2 & _).
  split; [exact H1|]. apply (H2 20 "vault"%string CacheReadable); [reflexivity|discriminate|by vm_compute].
Defined.

(** Alice deletes [acme]; her key pinned to it now reads [beta]. *)
Lemma deleting_org_unpins_keys_witness :
  exists db' k', delete_organization installation alice None "acme" = Ok db' /\ k' ∈ ad_apis db' /\ key_id k' = 50
    /\ is_org_member installation 1 11 (Some (context_of_key (key_of 50 1 "a" 1 (Some 10) None))) = false
    /\ is_org_member db' 1 11 (Some (context_of_key k')) = true.
Proof.
  destruct (delete_organization installation alice None "acme") as [db'|e] eqn:E; [|vm_compute in E; discriminate E].
  pose proof (deleting_org_unpins_keys installation alice None "acme" db' acme (key_of 50 1 "a" 1 (Some 10) None)
    ltac:(by vm_compute) E ltac:(vm_compute; repeat constructor) eq_refl)
    as (k' & Hk & Hid & _ & _ & _ & _ & _ & Hall).
  exists db', k'. destruct (Hall 1 11 ltac:(discriminate)) as [H1 H2].
  split_and!; [reflexivity|exact Hk|exact Hid|exact H1|]. rewrite H2. vm_compute in E. injection E as <-. by vm_compute.
Defined.
