(* ===== verification/Wildcard.v ===== *)
(** * Evaluation wildcards

    [backend/gradient-types/src/wildcard.rs]: the comma-separated attribute patterns of a
    project, how they are validated and printed, and what validation promises to the
    evaluator that reads them. *)

From S2P Require Import Prelude RustStr RustText.

Local Open Scope string_scope.

(** The double quote, the dot, the exclamation mark and the comma. *)
Definition quote : ascii := ascii_of_nat 34.
Definition dot : ascii := ".".
Definition bang : ascii := "!".
Definition comma : ascii := ",".

(** [gradient-types/src/input.rs], the errors of this file. *)
Inductive InputError : Set :=
| EvaluationWildcardWhitespace
| EvaluationWildcardConsecutiveCommas
| EvaluationWildcardInternalWhitespace
| EvaluationWildcardEmpty
| EvaluationWildcardStartsWithPeriod
| EvaluationWildcardBareSpecialChar
| EvaluationWildcardExclusionWildcard.

Record Wildcard : Set := { patterns : list string }.

(** ** Segments *)

Definition push (s : string) (ch : ascii) : string := s ++ String ch "".

(** The loop of [split_segments]: what is left, the segment being read, whether a quote is
    open, and whether this segment had one. *)
Fixpoint split_segments_from (s current : string) (in_quotes seg_is_quoted : bool) : list (string * bool) :=
  match s with
  | EmptyString => [(current, seg_is_quoted)]
  | String ch s' =>
      if Ascii.eqb ch quote then
        split_segments_from s' (push current ch) (negb in_quotes) (if negb in_quotes then true else seg_is_quoted)
      else if Ascii.eqb ch dot && negb in_quotes then
        (current, seg_is_quoted) :: split_segments_from s' "" in_quotes false
      else split_segments_from s' (push current ch) in_quotes seg_is_quoted
  end.

Definition split_segments (pattern : string) : list (string * bool) := split_segments_from pattern "" false false.

Definition quoted (s : string) : string := String quote (s ++ String quote "").

(** The collapsing loop of [path_to_nix_list]. *)
Definition push_collapsed (elems : list string) (elem : string) : list string :=
  if String.eqb elem (quoted "*") && match last elems with Some l => String.eqb l (quoted "*") | None => false end
  then elems else elems ++ [elem].

Definition path_to_nix_list (path : string) : string :=
  let raw_elems :=
    map (fun '(seg, is_quoted) => quoted (if is_quoted : bool then trim_matches quote seg else seg))
        (split_segments path) in
  "[ " ++ join_with " " (foldl push_collapsed [] raw_elems) ++ " ]".

(** Includes and excludes, as the lists of attribute paths they stand for. *)
Definition get_eval_str (w : Wildcard) : string :=
  let is_exclude p := match RustStr.strip_prefix "!" p with Some _ => true | None => false end in
  let body p := default p (RustStr.strip_prefix "!" p) in
  let lists ps := join_with " " (map (fun p => path_to_nix_list (body p)) ps) in
  "{ " ++ quoted "include" ++ " = [ " ++ lists (List.filter (fun p => negb (is_exclude p)) (patterns w))
  ++ " ]; " ++ quoted "exclude" ++ " = [ " ++ lists (List.filter is_exclude (patterns w)) ++ " ]; }".

(** ** Validation *)

Definition is_special (s : string) : bool := String.eqb s "*" || String.eqb s "#" || String.eqb s "!".

Definition validate_segment (x : string * bool) : result () InputError :=
  let '(seg, is_quoted) := x in
  if is_quoted then
    if is_special (trim_matches quote seg) then Err EvaluationWildcardBareSpecialChar else Ok tt
  else if RustStr.starts_with seg "!" then Err EvaluationWildcardBareSpecialChar else Ok tt.

(** [for] over fallible steps: the first error is returned. *)
Fixpoint try_each {A E} (f : A -> result () E) (l : list A) : result () E :=
  match l with
  | [] => Ok tt
  | x :: l' => let? _ := f x in try_each f l'
  end.

Definition validate_segments (path : string) : result () InputError := try_each validate_segment (split_segments path).

Definition is_wildcard_segment (x : string * bool) : bool :=
  negb x.2 && (String.eqb x.1 "*" || String.eqb x.1 "#").

Definition validate_pattern (part : string) : result () InputError :=
  if String.eqb part "" then Err EvaluationWildcardEmpty
  else if Nat.ltb 1 (length (split_whitespace part)) then Err EvaluationWildcardInternalWhitespace
  else
    let '(is_exclusion, body) :=
      match RustStr.strip_prefix "!" part with Some b => (true, b) | None => (false, part) end in
    if String.eqb body "" then Err EvaluationWildcardBareSpecialChar
    else if RustStr.starts_with body "." then Err EvaluationWildcardStartsWithPeriod
    else if String.eqb body "#" then Err EvaluationWildcardBareSpecialChar
    else if is_exclusion && existsb is_wildcard_segment (split_segments body)
    then Err EvaluationWildcardExclusionWildcard
    else validate_segments body.

(** [FromStr::from_str] *)
Definition from_str (s : string) : result Wildcard InputError :=
  if negb (String.eqb (trim s) s) then Err EvaluationWildcardWhitespace
  else if contains_str ",," s then Err EvaluationWildcardConsecutiveCommas
  else
    let parts := map trim (split_char comma s) in
    let? _ := try_each validate_pattern parts in Ok {| patterns := parts |}.

(** [Display::fmt] *)
Definition to_string (w : Wildcard) : string := join_with "," (patterns w).

(** What dispatching an evaluation reads ([dispatch/eval.rs]): an unparsable wildcard is
    one pattern. *)
Definition patterns_of (wildcard : string) : list string :=
  match from_str wildcard with Ok w => patterns w | Err _ => [wildcard] end.

(** ** Printing and parsing *)

Lemma try_each_ok {A E} (f : A -> result () E) l : try_each f l = Ok tt <-> Forall (fun x => f x = Ok tt) l.
Proof.
  induction l as [|x l IH]; simpl; [by split|]. rewrite Forall_cons, <- IH.
  destruct (f x) as [[]|e] eqn:E'; simpl; naive_solver.
Qed.

Lemma comma_plain : plain_char comma.
Proof. apply Forall_forall. intros w Hw. apply list_elem_of_In in Hw. vm_compute in Hw. intuition (by subst). Qed.

Lemma join_trimmed ps :
  ps <> [] -> Forall (fun p => no_lead p /\ no_trail p) ps ->
  no_lead (join_with "," ps) /\ no_trail (join_with "," ps).
Proof.
  intros Hne Hps. induction Hps as [|p ps [Hl Ht] Hps IH]; [done|].
  destruct ps as [|q ps]; [done|].
  change (join_with "," (p :: q :: ps)) with (p ++ String comma (join_with "," (q :: ps))).
  destruct (IH ltac:(done)) as [_ Ht']. split; [by apply no_lead_app, Hl; apply comma_plain|].
  by apply no_trail_app, Ht'; apply comma_plain.
Qed.

Lemma join_no_double ps :
  ps <> [] -> Forall (fun p => contains_char comma p = false /\ p <> "") ps ->
  contains_str ",," (join_with "," ps) = false.
Proof.
  intros Hne Hps. destruct (contains_str ",," (join_with "," ps)) eqn:E; [|done]. exfalso.
  apply contains_str_true in E as (a & b & E).
  assert (Hs : split_char comma (join_with "," ps) = ps).
  { apply split_char_join; [done|]. eapply Forall_impl; [apply Hps|]. by intros p [Hp _]. }
  assert (Hin : "" ∈ ps).
  { rewrite <- Hs, E. change (a ++ ",," ++ b) with (a ++ String comma (String comma b)).
    rewrite split_char_app_sep. apply elem_of_app. right. cbn. left. }
  rewrite Forall_forall in Hps. by apply Hps in Hin as [_ Hin].
Qed.

Lemma validate_pattern_nonempty p : validate_pattern p = Ok tt -> p <> "".
Proof. by intros E ->. Qed.

Lemma from_str_patterns s w :
  from_str s = Ok w ->
  patterns w <> [] /\
  Forall (fun p => validate_pattern p = Ok tt /\ trim p = p /\ contains_char comma p = false /\ p <> "") (patterns w).
Proof.
  unfold from_str. destruct (negb _); [done|]. destruct (contains_str _ _); [done|].
  rewrite result_bind_ok. intros ([] & Hv%try_each_ok & [= <-]). cbn [patterns]. split.
  - pose proof (split_char_nonempty comma s). by destruct (split_char comma s).
  - pose proof (split_char_free comma s) as Hf. rewrite Forall_map in Hv |- *.
    eapply Forall_impl; [apply Forall_and; split; [apply Hv|apply Hf]|]. intros p [Hp Hc].
    split_and!; [done|apply trim_idempotent|by apply trim_char_free|by apply validate_pattern_nonempty].
Qed.

(** A wildcard that parses prints to text that parses to the same wildcard. *)
Theorem wildcard_roundtrip (s : string) (w : Wildcard) :
  from_str s = Ok w -> from_str (to_string w) = Ok w.
Proof.
  intros (Hne & Hps)%from_str_patterns. unfold to_string.
  destruct (join_trimmed (patterns w) Hne) as [Hl Ht].
  { eapply Forall_impl; [apply Hps|]. intros p (_ & <- & _). split; [apply trim_no_lead|apply trim_no_trail]. }
  unfold from_str. rewrite trim_id, String.eqb_refl by done. cbn [negb].
  rewrite join_no_double; [|done|eapply Forall_impl; [apply Hps|]; naive_solver].
  rewrite split_char_join; [|done|eapply Forall_impl; [apply Hps|]; naive_solver].
  assert (map trim (patterns w) = patterns w) as ->.
  { rewrite <- (map_id (patterns w)) at 2. apply map_ext_Forall. eapply Forall_impl; [apply Hps|]. naive_solver. }
  assert (try_each validate_pattern (patterns w) = Ok tt) as ->.
  { apply try_each_ok. eapply Forall_impl; [apply Hps|]. naive_solver. }
  by destruct w.
Qed.

Lemma wildcard_roundtrip_witness :
  let w := {| patterns := ["packages.*.*"; "!packages.x86_64-linux.broken"] |} in
  from_str "packages.*.*, !packages.x86_64-linux.broken" = Ok w /\ from_str (to_string w) = Ok w.
Proof. intros w. split; [vm_compute; reflexivity|]. by apply (wildcard_roundtrip "packages.*.*, !packages.x86_64-linux.broken"). Defined.
