(* ===== verification/WildcardWalk.v ===== *)
(** * Walking a flake's outputs

    [backend/gradient-eval/src/wildcard_walk.rs]: the traversal that finds the derivations
    a wildcard matches and plans the shards they are discovered in, and its cursor-backed
    use in [flake_walk.rs] and [jobs.rs]. *)

From S2P Require Import Prelude RustStr RustText EdgeStream Wildcard.

Local Open Scope string_scope.

(** An [anyhow] error is the text [{:#}] prints. *)
Class WalkNode (N : Type) := {
  child_names : N -> result (list string) string;
  child : N -> string -> result (option N) string;
  is_derivation : N -> result bool string;
  is_opaque : N -> result bool string;
}.

(** ** Patterns *)

(** One round of the loop of [collapse_stars]. *)
Definition keep_segment (out : list string) (s : string) : list string :=
  if String.eqb s "*" && match last out with Some p => String.eqb p "*" | None => false end
  then out else (out ++ [s])%list.

Definition collapse_stars (segs : list string) : list string := foldl keep_segment [] segs.

(** The loop of [parse_pattern]. *)
Fixpoint parse_segments (s cur : string) (in_quotes : bool) : list string :=
  match s with
  | EmptyString => [cur]
  | String c s' =>
      if Ascii.eqb c quote then parse_segments s' cur (negb in_quotes)
      else if Ascii.eqb c dot && negb in_quotes then cur :: parse_segments s' "" in_quotes
      else parse_segments s' (push cur c) in_quotes
  end.

Definition parse_pattern (pat : string) : bool * list string :=
  match RustStr.strip_prefix "!" pat with
  | Some rest => (true, parse_segments rest "" false)
  | None => (false, parse_segments pat "" false)
  end.

(** [segments_to_pattern], one segment. *)
Definition render_segment (s : string) : string :=
  if String.eqb s "*" || String.eqb s "#" || negb (contains_char dot s || contains_char quote s) then s
  else quoted s.

Definition segments_to_pattern (segs : list string) : string := join_with "." (map render_segment segs).

(** ** The traversal *)

Inductive Sink : Set :=
| Derivations (out : list string)
| Shards (out : list (list string)).

(** The sink and the diagnostics recorded so far. *)
Abbreviation WalkState := (Sink * list string)%type.

Definition attr_path (path : list string) : string := join_with "." path.

Definition emit_leaf (path : list string) (sink : Sink) : Sink :=
  match sink with
  | Derivations out => Derivations (out ++ [attr_path path])%list
  | Shards out => Shards (out ++ [path])%list
  end.

Definition diagnostic (path : list string) (e : string) : string :=
  "failed to evaluate '" ++ attr_path path ++ "': " ++ e.

(** The value, or the fallback with a diagnostic. *)
Definition tolerate {T} (fallback : T) (res : result T string) (path : list string) (diags : list string) :
    T * list string :=
  match res with Ok v => (v, diags) | Err e => (fallback, diags ++ [diagnostic path e])%list end.

Section traverse.
Context {N : Type} `{!WalkNode N}.

Definition descend (traverse_rest : N -> list string -> WalkState -> WalkState) (c : N) (path rest : list string)
    (st : WalkState) : WalkState :=
  match st.1 with
  | Shards out => (Shards (out ++ [path ++ rest])%list, st.2)
  | Derivations _ => traverse_rest c path st
  end.

(** The level a trailing [*] recovers below a child that is no derivation. *)
Definition recover_level (c : N) (p : list string) (st : WalkState) : WalkState :=
  match st.1 with
  | Derivations _ =>
      let '(subs, diags) := tolerate [] (child_names c) p st.2 in
      foldl (fun st sub =>
        let q := (p ++ [sub])%list in
        let '(gc, diags) := tolerate None (child c sub) q st.2 in
        match gc with
        | None => (st.1, diags)
        | Some gc =>
            let '(d, diags) := tolerate false (is_derivation gc) q diags in
            (if d then emit_leaf q st.1 else st.1, diags)
        end) (st.1, diags) subs
  | Shards out => (Shards (out ++ [p ++ ["#"]])%list, st.2)
  end.

(** What a trailing [*] does with a child. *)
Definition star_leaf (c : N) (p : list string) (st : WalkState) : WalkState :=
  let '(d, diags) := tolerate false (is_derivation c) p st.2 in
  if d then (emit_leaf p st.1, diags)
  else
    let '(o, diags) := tolerate false (is_opaque c) p diags in
    if o then (st.1, diags) else recover_level c p (st.1, diags).

Fixpoint traverse (node : N) (path segs : list string) (st : WalkState) {struct segs} : WalkState :=
  match segs with
  | [] =>
      match st.1 with
      | Derivations out =>
          let '(d, diags) := tolerate false (is_derivation node) path st.2 in
          (Derivations (if d then out ++ [attr_path path] else out)%list, diags)
      | Shards out => (Shards (out ++ [path])%list, st.2)
      end
  | seg :: rest =>
      if String.eqb seg "*" then
        let '(names, diags) := tolerate [] (child_names node) path st.2 in
        foldl (fun st name =>
          let p := (path ++ [name])%list in
          let '(c, diags) := tolerate None (child node name) p st.2 in
          match c with
          | None => (st.1, diags)
          | Some c =>
              match rest with
              | [] => star_leaf c p (st.1, diags)
              | _ :: _ =>
                  let '(o, diags) := tolerate false (is_opaque c) p diags in
                  if o then (st.1, diags)
                  else descend (fun c p st => traverse c p rest st) c p rest (st.1, diags)
              end
          end) (st.1, diags) names
      else if String.eqb seg "#" then
        let '(names, diags) := tolerate [] (child_names node) path st.2 in
        foldl (fun st name =>
          let p := (path ++ [name])%list in
          let '(c, diags) := tolerate None (child node name) p st.2 in
          match c with
          | None => (st.1, diags)
          | Some c =>
              match rest with
              | [] =>
                  let '(d, diags) := tolerate false (is_derivation c) p diags in
                  (if d then emit_leaf p st.1 else st.1, diags)
              | _ :: _ => descend (fun c p st => traverse c p rest st) c p rest (st.1, diags)
              end
          end) (st.1, diags) names
      else
        let p := (path ++ [seg])%list in
        let '(c, diags) := tolerate None (child node seg) p st.2 in
        match c with
        | Some c => traverse c p rest (st.1, diags)
        | None => (st.1, diags)
        end
  end.

Definition walk_all (root : N) (includes : list (list string)) (sink : Sink) : WalkState :=
  foldl (fun st inc => traverse root [] (collapse_stars inc) st) (sink, []) includes.

Definition excluded (excludes : list (list string)) (p : string) : bool :=
  existsb (fun ex => bool_decide (ex = split_char dot p)) excludes.

Definition derivations_of (sink : Sink) : list string := match sink with Derivations out => out | Shards _ => [] end.
Definition shards_of (sink : Sink) : list (list string) := match sink with Shards out => out | Derivations _ => [] end.

Definition discover (root : N) (includes excludes : list (list string)) : list string * list string :=
  let '(sink, diags) := walk_all root includes (Derivations []) in
  (sort_dedup (List.filter (fun p => negb (excluded excludes p)) (derivations_of sink)), sort_dedup diags).

(** The includes and the excludes among parsed patterns. *)
Definition includes_of (wildcards : list string) : list (list string) :=
  map snd (List.filter (fun p => negb p.1) (map parse_pattern wildcards)).
Definition excludes_of (wildcards : list string) : list (list string) :=
  map snd (List.filter (fun p => p.1) (map parse_pattern wildcards)).

Definition discover_patterns (root : N) (wildcards : list string) : list string * list string :=
  discover root (includes_of wildcards) (excludes_of wildcards).

Definition plan_shards (root : N) (includes : list (list string)) : list (list string) * list string :=
  let '(sink, diags) := walk_all root includes (Shards []) in (shards_of sink, sort_dedup diags).

End traverse.

(** ** The walker of a locked flake ([flake_walk.rs])

    A cursor of the evaluator's cache is the interface of the Nix bindings. *)

Class AttrCursor (C : Type) := {
  attrs : C -> result (list string) string;
  maybe_get_attr : C -> string -> result (option C) string;
  cursor_is_derivation : C -> result bool string;
  drv_path : C -> result string string;
}.

Definition map_err {A} (context : string) (r : result A string) : result A string :=
  match r with Ok a => Ok a | Err e => Err (context ++ e) end.

Section walker.
Context {C : Type} `{!AttrCursor C}.

Definition has_attr (c : C) (name : string) : result bool string :=
  let? a := maybe_get_attr c name in Ok (bool_decide (is_Some a)).

Definition cursor_is_derivation' (c : C) : result bool string := map_err "is_derivation: " (cursor_is_derivation c).

(** A typed attribute set that is no derivation. *)
Definition cursor_is_opaque (c : C) : result bool string :=
  let? d := cursor_is_derivation' c in
  if d then Ok false
  else let? t := has_attr c "type" in if t then Ok true else has_attr c "_type".

#[global] Instance CursorNode : WalkNode C := {
  child_names c := map_err "listing attributes: " (attrs c);
  child := maybe_get_attr;
  is_derivation := cursor_is_derivation';
  is_opaque := cursor_is_opaque;
}.

(** [FlakeWalker::plan_shards] *)
Definition walker_plan_shards (root : C) (wildcards : list string) : list string * list string :=
  let '(shards, errors) := plan_shards root (includes_of wildcards) in (map segments_to_pattern shards, errors).

Fixpoint follow (attr : string) (cursor : C) (segs : list string) : result C string :=
  match segs with
  | [] => Ok cursor
  | seg :: segs =>
      let? next := maybe_get_attr cursor seg in
      match next with
      | Some c => follow attr c segs
      | None => Err ("attribute '" ++ seg ++ "' not found in '" ++ attr ++ "'")
      end
  end.

(** [FlakeWalker::resolve] *)
Definition walker_resolve (root : C) (attr : string) : result (string * list string) string :=
  let? cursor := follow attr root (parse_pattern attr).2 in
  let? drv := map_err ("resolving drvPath of '" ++ attr ++ "': ") (drv_path cursor) in
  Ok (strip_nix_store_prefix drv, []).

(** [jobs.rs]: the streaming driver of [gradient eval]. *)
Definition is_concrete_attr (pattern : string) : bool :=
  negb (RustStr.starts_with pattern "!")
  && forallb (fun seg => negb (String.eqb seg "*") && negb (String.eqb seg "#")) (split_char dot pattern).

Definition eval_jobs (root : C) (wildcards : list string) : list (string * result (string * list string) string) :=
  let attrs := if forallb is_concrete_attr wildcards then wildcards else (discover_patterns root wildcards).1 in
  map (fun attr => (attr, walker_resolve root attr)) attrs.

End walker.
