(* ===== verification/WalkFacts.v ===== *)
(** * What discovery finds

    The traversal against a declarative matching relation, the split of a discovery into
    shards, and where a discovered path leads when it is resolved. *)

From S2P Require Import Prelude RustStr RustText EdgeStream Wildcard WildcardWalk.

Local Open Scope string_scope.

(** ** The traversal as a list of events

    What one traversal emits - the segments of a match or of a shard - and complains
    about, in order; the sink and the diagnostics are projections of it. *)

Inductive Event : Set :=
| Emit (segs : list string)
| Gripe (path : list string) (e : string).

Inductive Mode : Set := Discovering | Planning.

Definition asking {T} (fallback : T) (res : result T string) (path : list string) (k : T -> list Event) : list Event :=
  match res with Ok v => k v | Err e => Gripe path e :: k fallback end.

Definition emitted (ev : Event) : list (list string) := match ev with Emit s => [s] | Gripe _ _ => [] end.
Definition griped (ev : Event) : list string := match ev with Emit _ => [] | Gripe p e => [diagnostic p e] end.

Definition wild (s : string) : Prop := s = "*" \/ s = "#".

Section events.
Context {N : Type} `{!WalkNode N}.

Definition for_children (n : N) (path : list string) (k : N -> list string -> list Event) : list Event :=
  asking [] (child_names n) path (fun names =>
    flat_map (fun name =>
      let p := (path ++ [name])%list in
      asking None (child n name) p (fun c => match c with Some c => k c p | None => [] end)) names).

Definition leaf_events (c : N) (p : list string) : list Event :=
  asking false (is_derivation c) p (fun d => if d then [Emit p] else []).

Definition star_events (m : Mode) (c : N) (p : list string) : list Event :=
  asking false (is_derivation c) p (fun d =>
    if d then [Emit p]
    else asking false (is_opaque c) p (fun o =>
      if o then []
      else match m with
           | Discovering => for_children c p leaf_events
           | Planning => [Emit (p ++ ["#"])]
           end)).

Fixpoint walk_events (m : Mode) (n : N) (path segs : list string) : list Event :=
  match segs with
  | [] => match m with Discovering => leaf_events n path | Planning => [Emit path] end
  | seg :: rest =>
      let below c p := match m with Discovering => walk_events m c p rest | Planning => [Emit (p ++ rest)%list] end in
      if String.eqb seg "*" then
        for_children n path (fun c p =>
          match rest with
          | [] => star_events m c p
          | _ :: _ => asking false (is_opaque c) p (fun o => if o then [] else below c p)
          end)
      else if String.eqb seg "#" then
        for_children n path (fun c p => match rest with [] => leaf_events c p | _ :: _ => below c p end)
      else
        let p := (path ++ [seg])%list in
        asking None (child n seg) p (fun c => match c with Some c => walk_events m c p rest | None => [] end)
  end.

(** The sink and the diagnostics after some events. *)
Definition absorb (m : Mode) (st : WalkState) (evs : list Event) : WalkState :=
  (match m, st.1 with
   | Discovering, Derivations out => Derivations (out ++ map attr_path (flat_map emitted evs))
   | Planning, Shards out => Shards (out ++ flat_map emitted evs)
   | _, s => s
   end, st.2 ++ flat_map griped evs)%list.

Definition fits (m : Mode) (s : Sink) : Prop :=
  match m, s with Discovering, Derivations _ | Planning, Shards _ => True | _, _ => False end.

Lemma absorb_nil m st : absorb m st [] = st.
Proof. destruct m, st as [[out|out] ds]; unfold absorb; simpl; by rewrite ?app_nil_r. Qed.

Lemma absorb_app m st e1 e2 : absorb m st (e1 ++ e2) = absorb m (absorb m st e1) e2.
Proof.
  destruct m, st as [[out|out] ds]; unfold absorb; simpl;
    by rewrite ?flat_map_app, ?map_app, ?app_assoc.
Qed.

Lemma fits_absorb m st evs : fits m st.1 -> fits m (absorb m st evs).1.
Proof. by destruct m, st as [[out|out] ds]. Qed.

(** Asking with the state threaded is asking with the events collected. *)
Lemma tolerate_asking {T} m (fallback : T) res path st (f : T -> WalkState -> WalkState) (k : T -> list Event) :
  fits m st.1 ->
  (forall v st, fits m st.1 -> f v st = absorb m st (k v)) ->
  (let '(v, ds) := tolerate fallback res path st.2 in f v (st.1, ds)) = absorb m st (asking fallback res path k).
Proof.
  intros Hf Hk. destruct res as [v|e]; cbn.
  - rewrite Hk by done. by destruct st.
  - change (Gripe path e :: k fallback) with ([Gripe path e] ++ k fallback)%list. rewrite absorb_app.
    rewrite Hk by done. f_equal. destruct m, st as [[out|out] ds]; unfold absorb; simpl; by rewrite ?app_nil_r.
Qed.

Lemma foldl_absorb {A} m (f : WalkState -> A -> WalkState) (k : A -> list Event) l st :
  fits m st.1 -> (forall x st, fits m st.1 -> f st x = absorb m st (k x)) ->
  foldl f st l = absorb m st (flat_map k l).
Proof.
  intros Hf Hk. revert st Hf. induction l as [|x l IH]; intros st Hf; simpl; [by rewrite absorb_nil|].
  rewrite Hk by done. rewrite absorb_app. apply IH. by apply fits_absorb.
Qed.

Lemma emit_leaf_absorb m p st : fits m st.1 -> (emit_leaf p st.1, st.2) = absorb m st [Emit p].
Proof. by destruct m, st as [[out|out] ds]; unfold absorb; simpl; rewrite ?app_nil_r. Qed.

Lemma leaf_absorb m c p st :
  fits m st.1 ->
  (let '(d, ds) := tolerate false (is_derivation c) p st.2 in (if d then emit_leaf p st.1 else st.1, ds))
  = absorb m st (leaf_events c p).
Proof.
  intros Hf. apply (tolerate_asking m false (is_derivation c) p st (fun d st => (if d then emit_leaf p st.1 else st.1, st.2))
    (fun d => if d then [Emit p] else [])); [done|]. intros [] st' Hf'; [by apply emit_leaf_absorb|].
  rewrite absorb_nil. by destruct st'.
Qed.

(** The loop over the children of a node. *)
Lemma children_absorb m n path (f : N -> list string -> WalkState -> WalkState) (k : N -> list string -> list Event) st :
  fits m st.1 -> (forall c p st, fits m st.1 -> f c p st = absorb m st (k c p)) ->
  (let '(names, ds) := tolerate [] (child_names n) path st.2 in
   foldl (fun st name =>
     let p := (path ++ [name])%list in
     let '(c, ds) := tolerate None (child n name) p st.2 in
     match c with None => (st.1, ds) | Some c => f c p (st.1, ds) end) (st.1, ds) names)
  = absorb m st (for_children n path k).
Proof.
  intros Hf Hk. unfold for_children.
  apply (tolerate_asking m [] (child_names n) path st (fun names st => foldl _ st names)); [done|].
  intros names st' Hf'. apply foldl_absorb; [done|]. intros name st2 Hf2. cbn zeta.
  apply (tolerate_asking m None (child n name) (path ++ [name]) st2
    (fun c st => match c with None => st | Some c => f c (path ++ [name])%list st end)); [done|].
  intros [c|] st3 Hf3; [by apply Hk|by rewrite absorb_nil].
Qed.

Lemma recover_absorb m c p st :
  fits m st.1 ->
  recover_level c p st
  = absorb m st (match m with Discovering => for_children c p leaf_events | Planning => [Emit (p ++ ["#"])%list] end).
Proof.
  intros Hf. unfold recover_level. destruct m, st as [[out|out] ds]; try done; cbn [fst snd].
  - apply (children_absorb Discovering c p (fun gc q st =>
      let '(d, ds) := tolerate false (is_derivation gc) q st.2 in (if d then emit_leaf q st.1 else st.1, ds))
      leaf_events (Derivations out, ds)); [done|]. intros. by apply leaf_absorb.
  - unfold absorb. simpl. by rewrite app_nil_r.
Qed.

Lemma star_leaf_absorb m c p st : fits m st.1 -> star_leaf c p st = absorb m st (star_events m c p).
Proof.
  intros Hf. unfold star_leaf, star_events.
  apply (tolerate_asking m false (is_derivation c) p st (fun d st => if d then (emit_leaf p st.1, st.2)
    else let '(o, ds) := tolerate false (is_opaque c) p st.2 in if o then (st.1, ds) else recover_level c p (st.1, ds)));
    [done|].
  intros [] st1 Hf1; [by apply emit_leaf_absorb|].
  apply (tolerate_asking m false (is_opaque c) p st1 (fun o st => if o then st else recover_level c p st)); [done|].
  intros [] st2 Hf2; [by rewrite absorb_nil|]. by apply recover_absorb.
Qed.

Lemma descend_absorb m (tr : N -> list string -> WalkState -> WalkState) (k : N -> list string -> list Event) c p rest st :
  fits m st.1 -> (m = Discovering -> tr c p st = absorb m st (k c p)) ->
  descend tr c p rest st
  = absorb m st (match m with Discovering => k c p | Planning => [Emit (p ++ rest)%list] end).
Proof.
  intros Hf Hk. unfold descend. destruct m, st as [[out|out] ds]; try done; cbn [fst snd]; [by apply Hk|].
  unfold absorb. simpl. by rewrite app_nil_r.
Qed.

(** [traverse] appends exactly the events of the walk. *)
Lemma traverse_absorb m segs : forall n path st,
  fits m st.1 -> traverse n path segs st = absorb m st (walk_events m n path segs).
Proof.
  induction segs as [|seg rest IH]; intros n path st Hf.
  - destruct m, st as [[out|out] ds]; try done; cbn [traverse walk_events fst snd].
    + rewrite <- (leaf_absorb Discovering n path (Derivations out, ds) I). cbn [fst snd].
      destruct (tolerate _ _ _ _) as [[] ds']; done.
    + unfold absorb. simpl. by rewrite app_nil_r.
  - cbn [traverse walk_events].
    destruct (String.eqb seg "*"); [|destruct (String.eqb seg "#")].
    + apply (children_absorb m n path (fun c p st => match rest with
        | [] => star_leaf c p st
        | _ :: _ => let '(o, ds) := tolerate false (is_opaque c) p st.2 in
            if o then (st.1, ds) else descend (fun c p st => traverse c p rest st) c p rest (st.1, ds) end)); [done|].
      intros c p st1 Hf1. destruct rest as [|r rest]; [by apply star_leaf_absorb|].
      apply (tolerate_asking m false (is_opaque c) p st1 (fun o st => if o then st
        else descend (fun c p st => traverse c p (r :: rest) st) c p (r :: rest) st)); [done|].
      intros [] st2 Hf2; [by rewrite absorb_nil|].
      apply (descend_absorb m _ (fun c p => walk_events m c p (r :: rest))); [done|]. intros ->. by apply IH.
    + apply (children_absorb m n path (fun c p st => match rest with
        | [] => let '(d, ds) := tolerate false (is_derivation c) p st.2 in (if d then emit_leaf p st.1 else st.1, ds)
        | _ :: _ => descend (fun c p st => traverse c p rest st) c p rest st end)); [done|].
      intros c p st1 Hf1. destruct rest as [|r rest]; [by apply leaf_absorb|].
      apply (descend_absorb m _ (fun c p => walk_events m c p (r :: rest))); [done|]. intros ->. by apply IH.
    + apply (tolerate_asking m None (child n seg) (path ++ [seg]) st
        (fun c st => match c with Some c => traverse c (path ++ [seg])%list rest st | None => st end)); [done|].
      intros [c|] st1 Hf1; [by apply IH|by rewrite absorb_nil].
Qed.

Definition all_events (m : Mode) (root : N) (includes : list (list string)) : list Event :=
  flat_map (fun inc => walk_events m root [] (collapse_stars inc)) includes.

Lemma walk_all_absorb m root includes sink :
  fits m sink -> walk_all root includes sink = absorb m (sink, []) (all_events m root includes).
Proof. intros Hf. apply foldl_absorb; [done|]. intros inc st Hst. by apply traverse_absorb. Qed.

(** ** What a pattern matches *)

Definition Child (n : N) (name : string) (c : N) : Prop := child n name = Ok (Some c).
Definition Listed (n : N) (name : string) (c : N) : Prop :=
  exists names, child_names n = Ok names /\ name ∈ names /\ Child n name c.
Definition derivation (n : N) : Prop := is_derivation n = Ok true.
Definition opaque (n : N) : Prop := is_opaque n = Ok true.

(** [Matches n segs path m]: the pattern leads from [n] along the attribute names [path]
    to [m]. A [#] is any one attribute; so is a [*], which does not lead through an opaque
    set and, at the end, also reaches one level below a plain set. *)
Inductive Matches : N -> list string -> list string -> N -> Prop :=
| match_end n : Matches n [] [] n
| match_name n seg rest c p m :
    ~ wild seg -> Child n seg c -> Matches c rest p m -> Matches n (seg :: rest) (seg :: p) m
| match_hash n name rest c p m :
    Listed n name c -> Matches c rest p m -> Matches n ("#" :: rest) (name :: p) m
| match_star n name seg rest c p m :
    Listed n name c -> ~ opaque c -> Matches c (seg :: rest) p m -> Matches n ("*" :: seg :: rest) (name :: p) m
| match_star_one n name c : Listed n name c -> Matches n ["*"] [name] c
| match_star_two n name c sub g :
    Listed n name c -> ~ derivation c -> ~ opaque c -> Listed c sub g -> Matches n ["*"] [name; sub] g.

Lemma elem_asking {T} ev (fallback : T) res path k :
  ev ∈ asking fallback res path k <->
  (exists v, res = Ok v /\ ev ∈ k v) \/ (exists e, res = Err e /\ (ev = Gripe path e \/ ev ∈ k fallback)).
Proof. destruct res as [v|e]; simpl; rewrite ?elem_of_cons; naive_solver. Qed.

(** An answer that is no [true] counts as [false]. *)
Lemma emit_asking_bool s res path k :
  Emit s ∈ asking false res path k <->
  (res = Ok true /\ Emit s ∈ k true) \/ (res <> Ok true /\ Emit s ∈ k false).
Proof. rewrite elem_asking. destruct res as [[]|e]; naive_solver. Qed.

Lemma emit_children s n path k :
  Emit s ∈ for_children n path k <-> exists name c, Listed n name c /\ Emit s ∈ k c (path ++ [name])%list.
Proof.
  unfold for_children, Listed. rewrite elem_asking. setoid_rewrite list_elem_of_In. setoid_rewrite in_flat_map.
  setoid_rewrite <- list_elem_of_In. setoid_rewrite elem_asking. split.
  - intros [(names & Hn & name & Hin & [(c & Hc & Hk)|(e & _ & [|])])|(e & _ & [|(name & Hin & _)])]; try done;
      [|by apply elem_of_nil in H|by apply elem_of_nil in Hin].
    destruct c as [c|]; [|by apply elem_of_nil in Hk]. exists name, c. split; [by exists names|done].
  - intros (name & c & (names & Hn & Hin & Hc) & Hk). left. exists names. split; [done|].
    exists name. split; [done|]. left. by exists (Some c).
Qed.

Lemma emit_leaf_events s c p : Emit s ∈ leaf_events c p <-> derivation c /\ s = p.
Proof.
  unfold leaf_events, derivation. rewrite emit_asking_bool, elem_of_nil, list_elem_of_singleton. naive_solver.
Qed.

Lemma emit_star_events s c p :
  Emit s ∈ star_events Discovering c p <->
  (derivation c /\ s = p) \/
  (~ derivation c /\ ~ opaque c /\ exists sub g, Listed c sub g /\ derivation g /\ s = (p ++ [sub])%list).
Proof.
  unfold star_events, derivation, opaque. rewrite emit_asking_bool, list_elem_of_singleton.
  rewrite emit_asking_bool, elem_of_nil, emit_children. setoid_rewrite emit_leaf_events. unfold derivation. naive_solver.
Qed.

Lemma emit_walk segs : forall n path s,
  Emit s ∈ walk_events Discovering n path segs <->
  exists rel m, Matches n segs rel m /\ derivation m /\ s = (path ++ rel)%list.
Proof.
  induction segs as [|seg rest IH]; intros n path s; cbn [walk_events].
  - rewrite emit_leaf_events. split.
    + intros [Hd ->]. exists [], n. split_and!; [constructor|done|by rewrite app_nil_r].
    + intros (rel & m & Hm & Hd & ->). inversion Hm; subst. by rewrite app_nil_r.
  - destruct (String.eqb_spec seg "*") as [->|Hs]; [|destruct (String.eqb_spec seg "#") as [->|Hh]].
    + rewrite emit_children. destruct rest as [|r rest].
      * setoid_rewrite emit_star_events. split.
        -- intros (name & c & Hl & [[Hd ->]|(Hd & Ho & sub & g & Hg & Hgd & ->)]).
           ++ exists [name], c. split_and!; [by apply match_star_one|done|done].
           ++ exists [name; sub], g. split_and!; [by eapply match_star_two|done|by rewrite <- app_assoc].
        -- intros (rel & m & Hm & Hd & ->). inversion Hm; subst; try (by exfalso; apply H1; left).
           ++ exists name, m. split; [done|]. by left.
           ++ exists name, c. split; [done|]. right. split_and!; [done..|]. exists sub, m.
              split_and!; [done..|by rewrite <- app_assoc].
      * setoid_rewrite emit_asking_bool. setoid_rewrite elem_of_nil. setoid_rewrite IH. split.
        -- intros (name & c & Hl & [[_ []]|(Ho & rel & m & Hm & Hd & ->)]).
           exists (name :: rel), m. split_and!; [by eapply match_star|done|by rewrite <- app_assoc].
        -- intros (rel & m & Hm & Hd & ->). inversion Hm; subst; [by exfalso; apply H1; left|].
           exists name, c. split; [done|]. right. split; [done|]. exists p, m. by rewrite <- app_assoc.
    + rewrite emit_children. destruct rest as [|r rest].
      * setoid_rewrite emit_leaf_events. split.
        -- intros (name & c & Hl & Hd & ->). exists [name], c. split_and!; [by eapply match_hash, match_end|done|done].
        -- intros (rel & m & Hm & Hd & ->). inversion Hm as [|? ? ? ? ? ? Hw| | | |]; subst; [by exfalso; apply Hw; right|].
           match goal with H : Matches _ [] _ _ |- _ => inversion H; subst end. by exists name, m.
      * setoid_rewrite IH. split.
        -- intros (name & c & Hl & rel & m & Hm & Hd & ->). exists (name :: rel), m.
           split_and!; [by eapply match_hash|done|by rewrite <- app_assoc].
        -- intros (rel & m & Hm & Hd & ->). inversion Hm as [|? ? ? ? ? ? Hw| | | |]; subst; [by exfalso; apply Hw; right|].
           exists name, c. split; [done|]. exists p, m. by rewrite <- app_assoc.
    + rewrite elem_asking. split.
      * intros [([c|] & Hc & Hk)|(e & _ & [|Hk])]; [|by apply elem_of_nil in Hk|done|by apply elem_of_nil in Hk].
        apply IH in Hk as (rel & m & Hm & Hd & ->). exists (seg :: rel), m.
        split_and!; [eapply match_name; [unfold wild; naive_solver|done|done]|done|by rewrite <- app_assoc].
      * intros (rel & m & Hm & Hd & ->). inversion Hm; subst; try done. left. exists (Some c).
        split; [done|]. apply IH. exists p, m. by rewrite <- app_assoc.
Qed.

Lemma elem_emitted s evs : s ∈ flat_map emitted evs <-> Emit s ∈ evs.
Proof.
  rewrite list_elem_of_In, in_flat_map. setoid_rewrite <- list_elem_of_In. split.
  - intros ([s'|p e] & Hin & Hs); simpl in Hs; [|by apply elem_of_nil in Hs]. by apply list_elem_of_singleton in Hs as ->.
  - intros Hin. exists (Emit s). split; [done|]. left.
Qed.

Lemma elem_all_events ev m root includes :
  ev ∈ all_events m root includes <-> exists inc, inc ∈ includes /\ ev ∈ walk_events m root [] (collapse_stars inc).
Proof. unfold all_events. rewrite list_elem_of_In, in_flat_map. by setoid_rewrite <- list_elem_of_In. Qed.

Lemma discover_eq root includes excludes :
  discover root includes excludes =
  (sort_dedup (List.filter (fun p => negb (excluded excludes p))
     (map attr_path (flat_map emitted (all_events Discovering root includes)))),
   sort_dedup (flat_map griped (all_events Discovering root includes))).
Proof. unfold discover. by rewrite (walk_all_absorb Discovering) by done. Qed.

Lemma plan_shards_eq root includes :
  plan_shards root includes =
  (flat_map emitted (all_events Planning root includes), sort_dedup (flat_map griped (all_events Planning root includes))).
Proof. unfold plan_shards. by rewrite (walk_all_absorb Planning) by done. Qed.

Lemma elem_filter {A} (f : A -> bool) x l : x ∈ List.filter f l <-> f x = true /\ x ∈ l.
Proof. rewrite !list_elem_of_In, filter_In. tauto. Qed.

Lemma elem_discover root includes excludes a :
  a ∈ (discover root includes excludes).1 <->
  (exists inc rel m, inc ∈ includes /\ Matches root (collapse_stars inc) rel m /\ derivation m /\ a = attr_path rel) /\
  split_char dot a ∉ excludes.
Proof.
  rewrite discover_eq. cbn [fst]. rewrite sort_dedup_elem, elem_filter, negb_true_iff, list_elem_of_fmap.
  setoid_rewrite elem_emitted. setoid_rewrite elem_all_events. setoid_rewrite emit_walk.
  assert (excluded excludes a = false <-> split_char dot a ∉ excludes) as ->.
  { unfold excluded. rewrite <- not_true_iff_false, existsb_exists. setoid_rewrite bool_decide_eq_true.
    setoid_rewrite <- list_elem_of_In. split; [intros Hn Hin; apply Hn; by eexists|by intros Hn (? & Hin & ->)]. }
  naive_solver.
Qed.

(** ** Splitting a discovery *)

(** The nodes the walk can meet below [n]. *)
Inductive Below : N -> list string -> N -> Prop :=
| below_self n : Below n [] n
| below_child n name c path m : Child n name c -> Below c path m -> Below n (name :: path) m.

Lemma below_snoc n path m name c : Below n path m -> Child m name c -> Below n (path ++ [name]) c.
Proof. induction 1 as [|n name' c' path m Hc Hb IH]; intros Hm; econstructor; eauto; constructor. Qed.

(** Every attribute name listed below the root satisfies [P]. *)
Definition names_below (P : string -> Prop) (root : N) : Prop :=
  forall path n names, Below root path n -> child_names n = Ok names -> Forall P names.

(** A path of literal names is walked without a word. *)
Lemma walk_literal root path n : Below root path n -> Forall (fun s => ~ wild s) path -> forall pre segs,
  walk_events Discovering root pre (path ++ segs) = walk_events Discovering n (pre ++ path) segs.
Proof.
  induction 1 as [n|n name c path m Hc Hb IH]; intros Hw pre segs; [by rewrite app_nil_r|].
  apply Forall_cons in Hw as [Hn Hw]. cbn [app walk_events].
  destruct (String.eqb_spec name "*") as [->|_]; [by destruct Hn; left|].
  destruct (String.eqb_spec name "#") as [->|_]; [by destruct Hn; right|].
  rewrite Hc. cbn. rewrite IH by done. by rewrite <- app_assoc.
Qed.

(** What planning and then discovering every shard sees. *)
Definition split_sees (root : N) (plan : list Event) (ev : Event) : Prop :=
  ((exists p e, ev = Gripe p e) /\ ev ∈ plan) \/
  (exists sh, Emit sh ∈ plan /\ ev ∈ walk_events Discovering root [] sh).

Lemma split_nil root ev : split_sees root [] ev <-> False.
Proof. unfold split_sees. setoid_rewrite elem_of_nil. naive_solver. Qed.

Lemma split_app root e1 e2 ev : split_sees root (e1 ++ e2) ev <-> split_sees root e1 ev \/ split_sees root e2 ev.
Proof. unfold split_sees. setoid_rewrite elem_of_app. naive_solver. Qed.

Lemma split_emit root sh ev : split_sees root [Emit sh] ev <-> ev ∈ walk_events Discovering root [] sh.
Proof. unfold split_sees. setoid_rewrite list_elem_of_singleton. naive_solver. Qed.

Lemma split_gripe root p e evs ev : split_sees root (Gripe p e :: evs) ev <-> ev = Gripe p e \/ split_sees root evs ev.
Proof. unfold split_sees. setoid_rewrite elem_of_cons. naive_solver. Qed.

Lemma split_asking {T} root (fallback : T) res path (k1 k2 : T -> list Event) ev :
  (forall v, res = Ok v \/ v = fallback -> ev ∈ k1 v <-> split_sees root (k2 v) ev) ->
  ev ∈ asking fallback res path k1 <-> split_sees root (asking fallback res path k2) ev.
Proof.
  intros Hk. destruct res as [v|e]; simpl; [apply Hk; by left|]. rewrite elem_of_cons, split_gripe, Hk by by right. tauto.
Qed.

Lemma split_flat_map {A} root (k1 k2 : A -> list Event) l ev :
  (forall x, x ∈ l -> ev ∈ k1 x <-> split_sees root (k2 x) ev) ->
  ev ∈ flat_map k1 l <-> split_sees root (flat_map k2 l) ev.
Proof.
  induction l as [|x l IH]; intros Hk; simpl; [by rewrite split_nil, elem_of_nil|].
  rewrite elem_of_app, split_app, Hk, IH by (intros; try apply Hk; by constructor). done.
Qed.

Lemma split_children root n path (k1 k2 : N -> list string -> list Event) ev :
  Below root path n -> names_below (fun s => ~ wild s) root ->
  (forall c name, ~ wild name -> Below root (path ++ [name]) c ->
     ev ∈ k1 c (path ++ [name])%list <-> split_sees root (k2 c (path ++ [name])%list) ev) ->
  ev ∈ for_children n path k1 <-> split_sees root (for_children n path k2) ev.
Proof.
  intros Hb Hn Hk. apply split_asking. intros names Hnames. apply split_flat_map. intros name Hin.
  apply split_asking. intros c Hc. destruct c as [c|]; [|by rewrite split_nil, elem_of_nil].
  destruct Hc as [Hc|]; [|done]. apply Hk; [|by eapply below_snoc].
  destruct Hnames as [Hnames| ->]; [|by apply elem_of_nil in Hin].
  specialize (Hn _ _ _ Hb Hnames). rewrite Forall_forall in Hn. by apply Hn.
Qed.

Lemma split_walk root segs : names_below (fun s => ~ wild s) root -> forall n path ev,
  Below root path n -> Forall (fun s => ~ wild s) path ->
  ev ∈ walk_events Discovering n path segs <-> split_sees root (walk_events Planning n path segs) ev.
Proof.
  intros Hnames. induction segs as [|seg rest IH]; intros n path ev Hb Hp.
  - change (walk_events Planning n path []) with [Emit path]. rewrite split_emit.
    pose proof (walk_literal _ _ _ Hb Hp [] []) as Hw. rewrite app_nil_r in Hw. by rewrite Hw.
  - cbn [walk_events].
    assert (Hrest : forall c name, ~ wild name -> Below root (path ++ [name]) c ->
      ev ∈ walk_events Discovering c (path ++ [name]) rest <-> split_sees root [Emit ((path ++ [name]) ++ rest)%list] ev).
    { intros c name Hn Hc. rewrite split_emit. rewrite (walk_literal _ _ _ Hc) by by apply Forall_app; auto. done. }
    assert (Hleaf : forall c name, ~ wild name -> Below root (path ++ [name]) c ->
      ev ∈ leaf_events c (path ++ [name]) <-> split_sees root (leaf_events c (path ++ [name])) ev).
    { intros c name Hn Hc. apply split_asking. intros [] Hd; [|by rewrite split_nil, elem_of_nil]. destruct Hd as [Hd|]; [|done].
      rewrite split_emit. pose proof (walk_literal _ _ _ Hc ltac:(by apply Forall_app; auto) [] []) as Hw.
      rewrite app_nil_r in Hw. rewrite Hw. cbn. unfold leaf_events. by rewrite Hd. }
    destruct (String.eqb_spec seg "*") as [->|Hs]; [|destruct (String.eqb_spec seg "#") as [->|Hh]].
    + apply split_children; [done..|]. intros c name Hn Hc. destruct rest as [|r rest].
      * apply split_asking. intros [] Hd.
        -- destruct Hd as [Hd|]; [|done]. rewrite split_emit.
           pose proof (walk_literal _ _ _ Hc ltac:(by apply Forall_app; auto) [] []) as Hw.
           rewrite app_nil_r in Hw. rewrite Hw. cbn. unfold leaf_events. by rewrite Hd.
        -- apply split_asking. intros [] _; [by rewrite split_nil, elem_of_nil|].
           rewrite split_emit, (walk_literal _ _ _ Hc) by by apply Forall_app; auto. done.
      * apply split_asking. intros [] _; [by rewrite split_nil, elem_of_nil|]. by apply Hrest.
    + apply split_children; [done..|]. intros c name Hn Hc. destruct rest as [|r rest]; [by apply Hleaf|by apply Hrest].
    + apply split_asking. intros [c|] Hc; [|by rewrite split_nil, elem_of_nil]. destruct Hc as [Hc|]; [|done].
      apply IH; [by eapply below_snoc|]. apply Forall_app. split; [done|]. constructor; [|constructor]. unfold wild. naive_solver.
Qed.
End events.

(** ** Patterns on the wire *)

Lemma push_app cur c s : push cur c ++ s = cur ++ String c s.
Proof. unfold push. by rewrite string_app_assoc. Qed.

Lemma parse_unquoted s : forall t cur,
  contains_char quote s = false -> contains_char dot s = false ->
  parse_segments (s ++ t) cur false = parse_segments t (cur ++ s) false.
Proof.
  induction s as [|a s IH]; intros t cur Hq Hd; [by rewrite string_app_nil_r|].
  simpl in Hq, Hd. apply orb_false_iff in Hq as [Hqa Hq]. apply orb_false_iff in Hd as [Hda Hd].
  change (String a s ++ t) with (String a (s ++ t)). cbn [parse_segments]. rewrite Hqa, Hda. cbn [andb].
  rewrite IH by done. by rewrite push_app.
Qed.

Lemma parse_quoted s : forall t cur,
  contains_char quote s = false -> parse_segments (s ++ String quote t) cur true = parse_segments t (cur ++ s) false.
Proof.
  induction s as [|a s IH]; intros t cur Hq.
  - change ("" ++ String quote t) with (String quote t). cbn [parse_segments]. by rewrite Ascii.eqb_refl, string_app_nil_r.
  - simpl in Hq. apply orb_false_iff in Hq as [Hqa Hq].
    change (String a s ++ String quote t) with (String a (s ++ String quote t)). cbn [parse_segments]. rewrite Hqa.
    rewrite andb_false_r, IH by done. by rewrite push_app.
Qed.

Lemma parse_rendered s t cur :
  contains_char quote s = false -> parse_segments (render_segment s ++ t) cur false = parse_segments t (cur ++ s) false.
Proof.
  intros Hq. unfold render_segment. rewrite Hq, orb_false_r.
  destruct (contains_char dot s) eqn:Hd; [|rewrite orb_true_r; by apply parse_unquoted].
  assert (String.eqb s "*" = false /\ String.eqb s "#" = false) as [-> ->]
    by (split; apply String.eqb_neq; intros ->; by vm_compute in Hd).
  cbn [orb negb]. unfold quoted. change (String quote (s ++ String quote "") ++ t) with
    (String quote ((s ++ String quote "") ++ t)). cbn [parse_segments]. rewrite Ascii.eqb_refl. cbn [negb].
  rewrite string_app_assoc. by apply parse_quoted.
Qed.

Lemma parse_join segs : segs <> [] -> Forall (fun s => contains_char quote s = false) segs -> forall cur,
  parse_segments (segments_to_pattern segs) cur false
  = match segs with [] => [] | s :: segs => (cur ++ s) :: segs end.
Proof.
  intros Hne Hs. unfold segments_to_pattern. induction Hs as [|s segs Hq Hs IH]; intros cur; [done|].
  destruct segs as [|s' segs].
  - cbn [map join_with]. rewrite <- (string_app_nil_r (render_segment s)), parse_rendered by done. done.
  - cbn [map] in *. change (join_with "." (render_segment s :: render_segment s' :: map render_segment segs))
      with (render_segment s ++ String dot (join_with "." (render_segment s' :: map render_segment segs))).
    rewrite parse_rendered by done. cbn [parse_segments].
    assert (Ascii.eqb dot quote = false) as -> by done. rewrite Ascii.eqb_refl. cbn [andb negb]. by rewrite IH.
Qed.

(** Names the pattern syntax can carry in any position. *)
Definition plain_name (s : string) : Prop :=
  ~ wild s /\ contains_char quote s = false /\ RustStr.starts_with s "!" = false.

(** Segment lists the wire form can carry. *)
Definition carried (segs : list string) : Prop :=
  segs <> [] /\ Forall (fun s => contains_char quote s = false) segs /\
  Forall (fun s => RustStr.starts_with s "!" = false) (take 1 segs).

Lemma strip_bang_none s t : RustStr.starts_with s "!" = false -> RustStr.starts_with t "!" = false ->
  RustStr.strip_prefix "!" (render_segment s ++ t) = None.
Proof.
  unfold RustStr.starts_with. intros Hs Ht. unfold render_segment. destruct (_ || _).
  - destruct s as [|a s]; [change ("" ++ t) with t; by destruct (RustStr.strip_prefix "!" t)|].
    change (String a s ++ t) with (String a (s ++ t)). cbn -[Ascii.eqb] in *. by destruct (Ascii.eqb _ a).
  - done.
Qed.

Lemma parse_segments_to_pattern segs : carried segs -> parse_pattern (segments_to_pattern segs) = (false, segs).
Proof.
  intros (Hne & Hq & Hb). unfold parse_pattern. destruct segs as [|s segs]; [done|].
  assert (RustStr.strip_prefix "!" (segments_to_pattern (s :: segs)) = None) as ->.
  { unfold segments_to_pattern. cbn [take] in Hb. apply Forall_cons in Hb as [Hb _]. destruct segs as [|s' segs].
    - cbn [map join_with]. rewrite <- (string_app_nil_r (render_segment s)). by apply strip_bang_none.
    - cbn [map]. change (join_with "." (render_segment s :: render_segment s' :: map render_segment segs))
        with (render_segment s ++ String dot (join_with "." (render_segment s' :: map render_segment segs))).
      by apply strip_bang_none. }
  f_equal. by apply (parse_join (s :: segs)).
Qed.

(** Parsed segments hold no quotes and are never empty. *)
Lemma parse_segments_quotes s : forall cur b,
  contains_char quote cur = false -> Forall (fun x => contains_char quote x = false) (parse_segments s cur b).
Proof.
  induction s as [|c s IH]; intros cur b Hc; cbn [parse_segments]; [by repeat constructor|].
  destruct (Ascii.eqb c quote) eqn:E; [by apply IH|].
  assert (contains_char quote (push cur c) = false)
    by (unfold push; rewrite contains_char_app, Hc; simpl; by rewrite E).
  destruct (_ && _); [constructor; [done|]|]; by apply IH.
Qed.

Lemma parse_segments_nonempty s cur b : parse_segments s cur b <> [].
Proof. revert cur b. induction s as [|c s IH]; intros cur b; simpl; [done|]. by repeat case_match. Qed.

Lemma includes_quotes wildcards :
  Forall (fun inc => inc <> [] /\ Forall (fun s => contains_char quote s = false) inc) (includes_of wildcards).
Proof.
  apply Forall_forall. intros inc Hin. unfold includes_of in Hin.
  apply list_elem_of_fmap in Hin as ([b segs] & -> & Hin%elem_filter). destruct Hin as [_ Hin].
  apply list_elem_of_fmap in Hin as (w & Hw & _). cbn [snd].
  unfold parse_pattern in Hw. destruct (RustStr.strip_prefix "!" w); injection Hw as _ ->;
    (split; [apply parse_segments_nonempty|by apply parse_segments_quotes]).
Qed.

(** ** The shape of a shard *)

(** No [*] directly after a [*]. *)
Definition collapsed (l : list string) : Prop := forall i, l !! i = Some "*" -> l !! S i <> Some "*".

Lemma collapsed_snoc l s : collapsed l -> ~ (last l = Some "*" /\ s = "*") -> collapsed (l ++ [s]).
Proof.
  intros Hl Hs i Hi Hi'. rewrite last_lookup in Hs.
  destruct (decide (S i < length l)) as [Hlt|Hge].
  - rewrite lookup_app_l in Hi, Hi' by lia. by apply (Hl i).
  - apply lookup_lt_Some in Hi' as Hlen. rewrite length_app in Hlen. simpl in Hlen.
    assert (i = pred (length l) /\ 0 < length l \/ length l = S i /\ False \/ length l <= i) as [[-> Hpos]|[[_ []]|Hle]] by lia.
    + rewrite lookup_app_l in Hi by lia. rewrite lookup_app_r in Hi' by lia.
      replace (S (pred (length l)) - length l) with 0 in Hi' by lia. injection Hi' as ->. by apply Hs.
    + lia.
Qed.

Lemma collapse_stars_collapsed segs : collapsed (collapse_stars segs).
Proof.
  unfold collapse_stars. enough (H : forall out, collapsed out -> collapsed (foldl keep_segment out segs)) by by apply H.
  induction segs as [|s segs IH]; intros out Hout; simpl; [done|]. apply IH. unfold keep_segment.
  destruct (String.eqb s "*" && _) eqn:E; [done|]. apply collapsed_snoc; [done|]. intros [Hlast ->].
  by rewrite Hlast in E.
Qed.

Lemma collapse_stars_id segs : collapsed segs -> collapse_stars segs = segs.
Proof.
  unfold collapse_stars.
  enough (H : forall out, collapsed (out ++ segs) -> foldl keep_segment out segs = (out ++ segs)%list)
    by (intros Hc; apply (H [] Hc)).
  induction segs as [|s segs IH]; intros out Hs; simpl; [by rewrite app_nil_r|].
  assert (keep_segment out s = (out ++ [s])%list) as ->; [|by rewrite IH; rewrite <- app_assoc].
  unfold keep_segment. destruct (String.eqb_spec s "*") as [->|]; [|done]. cbn [andb].
  destruct (last out) as [p|] eqn:Hl; [|done]. destruct (String.eqb_spec p "*") as [->|]; [|done].
  exfalso. rewrite last_lookup in Hl. apply lookup_lt_Some in Hl as Hlen. apply (Hs (pred (length out))).
  - by rewrite lookup_app_l by lia.
  - rewrite lookup_app_r by lia. by replace (S (pred (length out)) - length out) with 0 by lia.
Qed.

Lemma collapsed_app_lits l rest : Forall (fun s => ~ wild s) l -> collapsed rest -> collapsed (l ++ rest).
Proof.
  intros Hl Hr. induction Hl as [|s l Hs Hl IH]; [done|]. intros [|i] Hi; [|by apply IH].
  simpl in Hi. injection Hi as ->. by destruct Hs; left.
Qed.

Lemma collapsed_suffix rest segs : rest `suffix_of` segs -> collapsed segs -> collapsed rest.
Proof.
  intros [pre ->] Hc i Hi Hi'. apply (Hc (length pre + i)).
  - rewrite lookup_app_r by lia. by replace (length pre + i - length pre) with i by lia.
  - rewrite lookup_app_r by lia. by replace (S (length pre + i) - length pre) with (S i) by lia.
Qed.

Section shapes.
Context {N : Type} `{!WalkNode N}.

Lemma emit_children_names (Q : string -> Prop) root n path k s :
  Below root path n -> names_below Q root -> Emit s ∈ for_children n path k ->
  exists name c, Q name /\ Below root (path ++ [name]) c /\ Emit s ∈ k c (path ++ [name])%list.
Proof.
  intros Hb HQ (name & c & (names & Hn & Hin & Hc) & Hk)%emit_children. exists name, c.
  split_and!; [|by eapply below_snoc|done]. specialize (HQ _ _ _ Hb Hn). rewrite Forall_forall in HQ. by apply HQ.
Qed.

(** A shard is the path walked, some literal names, and what is left of the pattern. *)
Lemma plan_shape (Q : string -> Prop) root segs : names_below Q root -> forall n path sh,
  Below root path n -> Emit sh ∈ walk_events Planning n path segs ->
  exists lits rest, sh = (path ++ lits ++ rest)%list /\
    Forall (fun s => Q s \/ (s ∈ segs /\ ~ wild s)) lits /\ (rest `suffix_of` segs \/ rest = ["#"]) /\
    (segs <> [] -> exists s, head lits = Some s /\ (Q s \/ head segs = Some s)).
Proof.
  intros HQ. induction segs as [|seg rest IH]; intros n path sh Hb Hin; cbn [walk_events] in Hin.
  - apply list_elem_of_singleton in Hin as [= ->]. exists [], []. split_and!; [by rewrite app_nil_r|constructor|by left|done].
  - assert (Hone : forall name tail, Q name -> sh = ((path ++ [name]) ++ tail)%list ->
      tail `suffix_of` seg :: rest \/ tail = ["#"] -> exists lits rest', sh = (path ++ lits ++ rest')%list /\
      Forall (fun s => Q s \/ (s ∈ seg :: rest /\ ~ wild s)) lits /\ (rest' `suffix_of` seg :: rest \/ rest' = ["#"]) /\
      (seg :: rest <> [] -> exists s, head lits = Some s /\ (Q s \/ head (seg :: rest) = Some s))).
    { intros name tail Hname -> Ht. exists [name], tail. split_and!; [by rewrite <- app_assoc| |done|].
      - apply Forall_singleton. by left.
      - intros _. exists name. split; [done|by left]. }
    assert (Hs : rest `suffix_of` seg :: rest) by by exists [seg].
    assert (Hleaf : forall name c, Q name -> Emit sh ∈ leaf_events c (path ++ [name]) -> sh = ((path ++ [name]) ++ [])%list).
    { intros name c _ [_ ->]%emit_leaf_events. by rewrite app_nil_r. }
    assert (Hnil : [] `suffix_of` seg :: rest) by (exists (seg :: rest); by rewrite app_nil_r).
    destruct (String.eqb_spec seg "*") as [->|Hstar]; [|destruct (String.eqb_spec seg "#") as [->|Hh]].
    + apply (emit_children_names Q root) in Hin as (name & c & Hname & Hc & Hin); [|done..]. destruct rest as [|r rest].
      * unfold star_events in Hin. apply emit_asking_bool in Hin as [[_ Hin]|[_ Hin]].
        -- apply list_elem_of_singleton in Hin as [= ->]. apply (Hone name []); [done|by rewrite app_nil_r|by left].
        -- apply emit_asking_bool in Hin as [[_ Hin]|[_ Hin]]; [by apply elem_of_nil in Hin|].
           apply list_elem_of_singleton in Hin as [= ->]. by apply (Hone name ["#"]); [|rewrite <- app_assoc|right].
      * apply emit_asking_bool in Hin as [[_ Hin]|[_ Hin]]; [by apply elem_of_nil in Hin|].
        apply list_elem_of_singleton in Hin as [= ->]. by apply (Hone name (r :: rest)); [| |left].
    + apply (emit_children_names Q root) in Hin as (name & c & Hname & Hc & Hin); [|done..]. destruct rest as [|r rest].
      * apply (Hone name []); [done|by apply (Hleaf name c)|by left].
      * apply list_elem_of_singleton in Hin as [= ->]. by apply (Hone name (r :: rest)); [| |left].
    + apply elem_asking in Hin as [([c|] & Hc & Hin)|(e & _ & [|Hin])]; [|by apply elem_of_nil in Hin|done|by apply elem_of_nil in Hin].
      apply IH in Hin as (lits & rest' & -> & Hl & Hr & _); [|by eapply below_snoc].
      exists (seg :: lits), rest'. split_and!; [by rewrite <- app_assoc| | |].
      * constructor; [right; split; [left|unfold wild; naive_solver]|]. eapply Forall_impl; [apply Hl|].
        intros s [?|[? ?]]; [by left|right; split; [by right|done]].
      * destruct Hr as [[pre ->]|]; [left; by exists (seg :: pre)|by right].
      * intros _. exists seg. split; [done|by right].
Qed.
End shapes.

Section splitting.
Context {N : Type} `{!WalkNode N}.

(** No include starts with a quoted [!]. *)
Definition bang_free (wildcards : list string) : Prop :=
  Forall (fun inc => Forall (fun s => RustStr.starts_with s "!" = false) (take 1 inc)) (includes_of wildcards).

(** The exclusions every shard is given. *)
Definition exclusions (wildcards : list string) : list string :=
  List.filter (fun w => RustStr.starts_with w "!") wildcards.

Lemma parse_pattern_exclude w : (parse_pattern w).1 = RustStr.starts_with w "!".
Proof. unfold parse_pattern, RustStr.starts_with. by destruct (RustStr.strip_prefix "!" w). Qed.

Lemma excludes_of_exclusions wildcards : excludes_of (exclusions wildcards) = excludes_of wildcards.
Proof.
  unfold excludes_of, exclusions. f_equal. induction wildcards as [|w ws IH]; [done|]. simpl.
  rewrite parse_pattern_exclude. destruct (RustStr.starts_with w "!") eqn:E; simpl; [|done].
  by rewrite parse_pattern_exclude, E, IH.
Qed.

Lemma includes_of_exclusions wildcards : includes_of (exclusions wildcards) = [].
Proof.
  unfold includes_of, exclusions. induction wildcards as [|w ws IH]; [done|]. simpl.
  destruct (RustStr.starts_with w "!") eqn:E; simpl; [|done]. by rewrite parse_pattern_exclude, E.
Qed.

Lemma patterns_of_shard sh wildcards :
  carried sh ->
  includes_of (segments_to_pattern sh :: exclusions wildcards) = [sh] /\
  excludes_of (segments_to_pattern sh :: exclusions wildcards) = excludes_of wildcards.
Proof.
  intros Hsh. rewrite <- (excludes_of_exclusions wildcards).
  pose proof (includes_of_exclusions wildcards) as Hi. unfold includes_of, excludes_of in *. cbn [map List.filter].
  rewrite (parse_segments_to_pattern sh Hsh). cbn [fst snd negb map]. by rewrite Hi.
Qed.

(** Every planned shard can be carried and is not collapsed any further. *)
Lemma shard_carried root wildcards sh :
  names_below plain_name root -> bang_free wildcards ->
  Emit sh ∈ all_events Planning root (includes_of wildcards) -> carried sh /\ collapse_stars sh = sh.
Proof.
  intros Hn Hb (inc & Hinc & Hsh)%elem_all_events.
  apply (plan_shape plain_name root) in Hsh as (lits & rest & -> & Hl & Hr & Hhead); [|done|constructor]. cbn [app] in *.
  pose proof (includes_quotes wildcards) as Hq. rewrite Forall_forall in Hq. destruct (Hq _ Hinc) as [Hne Hqi].
  unfold bang_free in Hb. rewrite Forall_forall in Hb. specialize (Hb _ Hinc).
  assert (Hsub : forall s, s ∈ collapse_stars inc -> s ∈ inc).
  { intros s. unfold collapse_stars.
    enough (H : forall out, s ∈ foldl keep_segment out inc -> s ∈ out \/ s ∈ inc) by (intros [[]%elem_of_nil|]%H; done).
    clear. induction inc as [|x inc IH]; intros out; simpl; [by left|]. intros [Hs|Hs]%IH; [|right; by right].
    unfold keep_segment in Hs. destruct (_ && _); [by left|].
    apply elem_of_app in Hs as [Hs|Hs%list_elem_of_singleton]; [by left|]. right. subst. left. }
  assert (Hhd : head (collapse_stars inc) = head inc).
  { unfold collapse_stars. destruct inc as [|x inc]; [done|]. simpl. unfold keep_segment at 2. cbn [last]. rewrite andb_false_r.
    enough (H : forall out, head (foldl keep_segment ([x] ++ out)%list inc) = Some x) by apply (H []).
    clear. induction inc as [|y inc IH]; intros out; simpl; [done|]. unfold keep_segment at 2.
    destruct (_ && _); [apply IH|]. change (x :: out ++ [y])%list with ([x] ++ (out ++ [y]))%list. apply IH. }
  assert (Hsegs : collapse_stars inc <> []) by (destruct inc, (collapse_stars _); done).
  destruct (Hhead Hsegs) as (s & Hs & Hs'). split; [split_and!|].
  - by destruct lits.
  - apply Forall_app. split.
    + eapply Forall_impl; [apply Hl|]. intros x [(_ & Hx & _)|[Hx _]]; [done|].
      rewrite Forall_forall in Hqi. by apply Hqi, Hsub.
    + destruct Hr as [Hr| ->]; [|by repeat constructor]. apply Forall_forall. intros x Hx.
      rewrite Forall_forall in Hqi. apply Hqi, Hsub. destruct Hr as [pre ->]. apply elem_of_app. by right.
  - destruct lits as [|l lits]; [done|]. simpl in Hs. injection Hs as ->. simpl. constructor; [|constructor].
    destruct Hs' as [(_ & _ & ?)|Hs']; [done|]. rewrite Hhd in Hs'. destruct inc as [|x inc]; [done|].
    injection Hs' as ->. simpl in Hb. by apply Forall_cons in Hb as [Hb _].
  - apply collapse_stars_id, collapsed_app_lits.
    + eapply Forall_impl; [apply Hl|]. intros x [(Hx & _)|[_ Hx]]; done.
    + destruct Hr as [Hr| ->]; [eapply collapsed_suffix, collapse_stars_collapsed; done|]. by intros [|i].
Qed.

Lemma all_events_split root includes ev :
  names_below (fun s => ~ wild s) root ->
  ev ∈ all_events Discovering root includes <-> split_sees root (all_events Planning root includes) ev.
Proof.
  intros Hn. unfold all_events. apply split_flat_map. intros inc _. by apply split_walk; [|constructor|constructor].
Qed.

Lemma elem_griped e evs : e ∈ flat_map griped evs <-> exists p x, e = diagnostic p x /\ Gripe p x ∈ evs.
Proof.
  rewrite list_elem_of_In, in_flat_map. setoid_rewrite <- list_elem_of_In. split.
  - intros ([s'|p x] & Hin & Hs); simpl in Hs; [by apply elem_of_nil in Hs|]. apply list_elem_of_singleton in Hs as ->. eauto.
  - intros (p & x & -> & Hin). exists (Gripe p x). split; [done|]. left.
Qed.

Lemma all_events_single m root sh : collapse_stars sh = sh -> all_events m root [sh] = walk_events m root [] sh.
Proof. intros Hsh. unfold all_events. simpl. by rewrite Hsh, app_nil_r. Qed.

(** Discovering the planned shards, each with the exclusions, finds what one pass finds
    and complains about what one pass complains about. *)
Lemma shards_discover root wildcards :
  names_below plain_name root -> bang_free wildcards ->
  let plan := plan_shards root (includes_of wildcards) in
  let shard sh := discover_patterns root (segments_to_pattern sh :: exclusions wildcards) in
  (forall a, a ∈ (discover_patterns root wildcards).1 <-> exists sh, sh ∈ plan.1 /\ a ∈ (shard sh).1) /\
  (forall e, e ∈ (discover_patterns root wildcards).2 <-> e ∈ plan.2 \/ exists sh, sh ∈ plan.1 /\ e ∈ (shard sh).2).
Proof.
  intros Hn Hb plan shard.
  assert (Hw : names_below (fun s => ~ wild s) root).
  { intros path n names Hp Hl. eapply Forall_impl; [by apply (Hn path n names)|]. by intros s []. }
  assert (Hplan : forall sh, sh ∈ plan.1 <-> Emit sh ∈ all_events Planning root (includes_of wildcards)).
  { intros sh. unfold plan. rewrite plan_shards_eq. apply elem_emitted. }
  assert (Hshard : forall sh, sh ∈ plan.1 -> shard sh =
    (sort_dedup (List.filter (fun p => negb (excluded (excludes_of wildcards) p))
       (map attr_path (flat_map emitted (walk_events Discovering root [] sh)))),
     sort_dedup (flat_map griped (walk_events Discovering root [] sh)))).
  { intros sh Hsh%Hplan. destruct (shard_carried _ _ _ Hn Hb Hsh) as [Hc Hcol]. unfold shard, discover_patterns.
    destruct (patterns_of_shard sh wildcards Hc) as [-> ->]. by rewrite discover_eq, all_events_single. }
  unfold discover_patterns at 1 2. rewrite discover_eq. cbn [fst snd]. split.
  - intros a. rewrite sort_dedup_elem, elem_filter, list_elem_of_fmap. setoid_rewrite elem_emitted.
    setoid_rewrite (all_events_split root (includes_of wildcards) _ Hw). unfold split_sees. split.
    + intros (Hx & q & -> & [[(? & ? & [=]) _]|(sh & Hsh & Hq)]). exists sh. split; [by apply Hplan|].
      rewrite Hshard by by apply Hplan. cbn [fst]. rewrite sort_dedup_elem, elem_filter, list_elem_of_fmap.
      split; [done|]. exists q. by rewrite elem_emitted.
    + intros (sh & Hsh & Ha). rewrite Hshard in Ha by done. cbn [fst] in Ha.
      rewrite sort_dedup_elem, elem_filter, list_elem_of_fmap in Ha. destruct Ha as (Hx & q & -> & Hq%elem_emitted).
      split; [done|]. exists q. split; [done|]. right. exists sh. by rewrite <- Hplan.
  - intros e. rewrite sort_dedup_elem, elem_griped.
    assert (e ∈ plan.2 <-> exists p x, e = diagnostic p x /\ Gripe p x ∈ all_events Planning root (includes_of wildcards)) as ->.
    { unfold plan. rewrite plan_shards_eq. cbn [snd]. by rewrite sort_dedup_elem, elem_griped. }
    setoid_rewrite (all_events_split root (includes_of wildcards) _ Hw). unfold split_sees. split.
    + intros (p & x & -> & [[_ Hg]|(sh & Hsh & Hg)]); [left; eauto|]. right. exists sh. split; [by apply Hplan|].
      rewrite Hshard by by apply Hplan. cbn [snd]. rewrite sort_dedup_elem, elem_griped. eauto.
    + intros [(p & x & -> & Hg)|(sh & Hsh & He)]; [exists p, x; naive_solver|].
      rewrite Hshard in He by done. cbn [snd] in He. rewrite sort_dedup_elem, elem_griped in He.
      destruct He as (p & x & -> & Hg). exists p, x. split; [done|]. right. exists sh. by rewrite <- Hplan.
Qed.
End splitting.

(** ** Correctness of discovery *)


(** *** Names that hold a dot *)

Definition dotted (s : string) : bool := contains_char dot s.

Lemma parse_segments_dots s : forall cur,
  contains_char quote s = false -> contains_char dot cur = false ->
  Forall (fun x => dotted x = false) (parse_segments s cur false).
Proof.
  induction s as [|c s IH]; intros cur Hq Hc; cbn [parse_segments]; [by repeat constructor|].
  simpl in Hq. apply orb_false_iff in Hq as [Hqc Hq]. rewrite Hqc.
  destruct (Ascii.eqb c dot) eqn:E; cbn [andb negb]; [constructor; [done|]; by apply IH|]. apply IH; [done|].
  unfold push. rewrite contains_char_app, Hc. simpl. by rewrite E.
Qed.

Lemma attr_path_quotes rel : Forall (fun s => contains_char quote s = false) rel -> contains_char quote (attr_path rel) = false.
Proof.
  intros Hr. unfold attr_path. induction Hr as [|s rel Hs Hr IH]; [done|]. destruct rel as [|s' rel]; [done|].
  change (join_with "." (s :: s' :: rel)) with (s ++ String dot (join_with "." (s' :: rel))).
  rewrite contains_char_app, Hs. simpl. exact IH.
Qed.

Lemma strip_bang_quotes s : contains_char quote s = false -> contains_char quote (default s (RustStr.strip_prefix "!" s)) = false.
Proof.
  intros Hs. destruct (RustStr.strip_prefix "!" s) as [r|] eqn:E; [|done]. apply strip_prefix_Some in E. subst.
  rewrite contains_char_app in Hs. by apply orb_false_iff in Hs as [_ Hs].
Qed.

Lemma parse_pattern_segments pat : (parse_pattern pat).2 = parse_segments (default pat (RustStr.strip_prefix "!" pat)) "" false.
Proof. unfold parse_pattern. by destruct (RustStr.strip_prefix "!" pat). Qed.

Lemma dotted_path_changes rel : Exists (fun s => dotted s = true) rel -> (parse_pattern (attr_path rel)).2 <> rel.
Proof.
  intros Hd E. rewrite parse_pattern_segments in E.
  assert (Hq : Forall (fun s => contains_char quote s = false) rel) by (rewrite <- E; by apply parse_segments_quotes).
  pose proof (parse_segments_dots _ "" (strip_bang_quotes _ (attr_path_quotes _ Hq)) eq_refl) as Hf. rewrite E in Hf.
  apply Exists_exists in Hd as (s & Hs & Hds). rewrite Forall_forall in Hf. specialize (Hf _ Hs). congruence.
Qed.

Lemma dotted_exclusion_void {N} `{!WalkNode N} (root : N) includes excludes ex :
  Exists (fun s => dotted s = true) ex -> discover root includes (ex :: excludes) = discover root includes excludes.
Proof.
  intros Hd. rewrite !discover_eq. f_equal. f_equal. apply List.filter_ext. intros p. f_equal. unfold excluded. simpl.
  rewrite bool_decide_eq_false_2; [done|]. intros ->. apply Exists_exists in Hd as (s & Hs & Hds).
  pose proof (split_char_free dot p) as Hf. rewrite Forall_forall in Hf. specialize (Hf _ Hs). unfold dotted in Hds. congruence.
Qed.

(** Names the printed path of a match carries back. *)
Definition simple_name (s : string) : Prop :=
  contains_char quote s = false /\ dotted s = false /\ RustStr.starts_with s "!" = false.

Lemma render_simple s : simple_name s -> render_segment s = s.
Proof. intros (Hq & Hd & _). unfold render_segment. unfold dotted in Hd. rewrite Hq, Hd. by rewrite orb_true_r. Qed.

Lemma parse_attr_path rel : rel <> [] -> Forall simple_name rel -> parse_pattern (attr_path rel) = (false, rel).
Proof.
  intros Hne Hr. assert (attr_path rel = segments_to_pattern rel) as ->.
  { unfold attr_path, segments_to_pattern. f_equal. rewrite <- (map_id rel) at 1. apply map_ext_Forall.
    eapply Forall_impl; [apply Hr|]. intros s Hs. by rewrite render_simple. }
  apply parse_segments_to_pattern. split_and!; [done|eapply Forall_impl; [apply Hr|]; by intros s []|].
  apply Forall_take. eapply Forall_impl; [apply Hr|]. by intros s (_ & _ & ?).
Qed.

Lemma matches_below {N} `{!WalkNode N} (n : N) segs rel m : Matches n segs rel m -> Below n rel m.
Proof.
  induction 1; try constructor; try (econstructor; [done|done]);
    repeat match goal with H : Listed _ _ _ |- _ => destruct H as (? & _ & _ & H) end;
    econstructor; try done; try constructor; econstructor; try done; constructor.
Qed.

Lemma follow_below {C} `{!AttrCursor C} attr (n : C) rel m : Below n rel m -> follow attr n rel = Ok m.
Proof.
  induction 1 as [|n name c path m Hc Hb IH]; [done|]. cbn [follow].
  change (maybe_get_attr n name) with (child n name). by rewrite Hc.
Qed.

(** A derivation found through names free of dots and quotes resolves to itself: the
    attribute path discovery prints leads back to the very node that matched. *)
Theorem discovered_resolves {C} `{!AttrCursor C} (root : C) (segs rel : list string) (m : C) :
  Matches root segs rel m -> rel <> [] -> Forall simple_name rel ->
  walker_resolve root (attr_path rel) =
  (let? drv := map_err ("resolving drvPath of '" ++ attr_path rel ++ "': ") (drv_path m) in Ok (strip_nix_store_prefix drv, [])).
Proof.
  intros Hm%matches_below Hne Hr. unfold walker_resolve. rewrite parse_attr_path by done. cbn [snd].
  by rewrite (follow_below _ _ _ _ Hm).
Qed.

(** A quoted name with a dot is lost on the way: an exclusion that holds one excludes
    nothing, and a path that holds one is resolved along other names than it was found on. *)
Theorem dotted_names_lost {C} `{!AttrCursor C} (root : C) (includes excludes : list (list string)) (names : list string) :
  Exists (fun s => dotted s = true) names ->
  discover root includes (names :: excludes) = discover root includes excludes /\
  exists segs, segs <> names /\
    walker_resolve root (attr_path names) =
    (let? c := follow (attr_path names) root segs in
     let? drv := map_err ("resolving drvPath of '" ++ attr_path names ++ "': ") (drv_path c) in Ok (strip_nix_store_prefix drv, [])).
Proof.
  intros Hd. split; [by apply dotted_exclusion_void|]. exists (parse_pattern (attr_path names)).2.
  split; [by apply dotted_path_changes|done].
Qed.

(** ** What validation promises the walk *)

(** The quotes removed, as [parse_pattern] does. *)
Fixpoint unquote (s : string) : string :=
  match s with
  | EmptyString => ""
  | String c s' => if Ascii.eqb c quote then unquote s' else String c (unquote s')
  end.

Lemma unquote_push cur c : unquote (push cur c) = if Ascii.eqb c quote then unquote cur else push (unquote cur) c.
Proof.
  unfold push. induction cur as [|a cur IH]; [change ("" ++ String c "") with (String c ""); cbn [unquote]; by destruct (Ascii.eqb c quote)|].
  change (String a cur ++ String c "") with (String a (cur ++ String c "")). cbn [unquote]. rewrite IH.
  by destruct (Ascii.eqb a quote), (Ascii.eqb c quote).
Qed.

(** The two segment parsers agree, and the flag tells whether a segment holds a quote. *)
Lemma parse_split_segments s : forall cur b f,
  parse_segments s (unquote cur) b = map (fun x => unquote x.1) (split_segments_from s cur b f).
Proof.
  induction s as [|c s IH]; intros cur b f; cbn [parse_segments split_segments_from map fst]; [done|].
  destruct (Ascii.eqb c quote) eqn:Eq.
  - rewrite <- (IH (push cur c)). by rewrite unquote_push, Eq.
  - destruct (Ascii.eqb c dot && negb b); cbn [map fst].
    + f_equal. apply (IH "").
    + rewrite <- (IH (push cur c)). by rewrite unquote_push, Eq.
Qed.

Lemma split_segments_flag s : forall cur b f,
  (f = false -> contains_char quote cur = false) -> (b = true -> f = true) ->
  Forall (fun x => x.2 = false -> contains_char quote x.1 = false) (split_segments_from s cur b f).
Proof.
  induction s as [|c s IH]; intros cur b f Hf Hb; cbn [split_segments_from]; [by constructor|].
  destruct (Ascii.eqb c quote) eqn:Eq.
  - apply IH; [|by destruct b]. destruct b; cbn [negb]; intros; [|done]. by rewrite Hb in *.
  - destruct (Ascii.eqb c dot && negb b) eqn:Ed.
    + constructor; [done|]. apply IH; [done|]. intros ->. by rewrite andb_false_r in Ed.
    + apply IH; [|done]. intros ->. unfold push. rewrite contains_char_app, Hf by done. simpl. by rewrite Eq.
Qed.

Lemma unquote_id s : contains_char quote s = false -> unquote s = s.
Proof.
  induction s as [|c s IH]; simpl; [done|]. intros [Hc Hs]%orb_false_iff. by rewrite Hc, IH.
Qed.

Lemma trim_end_quotes s : unquote s = "" -> trim_end_matches quote s = "".
Proof.
  induction s as [|c s IH]; cbn [unquote trim_end_matches]; [done|]. destruct (Ascii.eqb c quote); [|done].
  intros E. by rewrite IH.
Qed.

Lemma trim_matches_special s c : Ascii.eqb c quote = false -> unquote s = String c "" -> trim_matches quote s = String c "".
Proof.
  intros Hc. unfold trim_matches. induction s as [|a s IH]; cbn [unquote trim_start_matches]; [done|].
  destruct (Ascii.eqb a quote) eqn:Ea; [exact IH|]. intros [= -> Es]. cbn [trim_end_matches].
  rewrite trim_end_quotes by done. by rewrite Hc.
Qed.

(** The exclusions of a validated wildcard name exactly one attribute path each. *)
Lemma valid_exclusion_literal text w p segs :
  from_str text = Ok w -> p ∈ patterns w -> parse_pattern p = (true, segs) -> Forall (fun s => ~ wild s) segs.
Proof.
  intros (_ & Hps)%from_str_patterns Hp Hsegs. rewrite Forall_forall in Hps. apply Hps in Hp as (Hv & _).
  unfold parse_pattern in Hsegs. unfold validate_pattern in Hv.
  destruct (String.eqb p ""); [done|]. destruct (Nat.ltb _ _); [done|].
  destruct (RustStr.strip_prefix "!" p) as [body|]; [|done]. injection Hsegs as <-.
  destruct (String.eqb body ""), (RustStr.starts_with body "."), (String.eqb body "#"); try done. cbn [andb] in Hv.
  destruct (existsb _ _) eqn:Ex; [done|]. apply try_each_ok in Hv.
  pose proof (split_segments_flag body "" false false (fun _ => eq_refl) ltac:(done)) as Hfl.
  change (parse_segments body "" false) with (parse_segments body (unquote "") false).
  rewrite (parse_split_segments body "" false false). fold (split_segments body) in *.
  rewrite Forall_map. rewrite Forall_forall in Hv, Hfl |- *. intros [seg q] Hin. cbn [fst].
  assert (Hx : is_wildcard_segment (seg, q) = false).
  { apply not_true_iff_false. intros Ht. apply not_true_iff_false in Ex. apply Ex, existsb_exists. exists (seg, q).
    split; [by apply list_elem_of_In|done]. }
  specialize (Hv _ Hin). specialize (Hfl _ Hin). cbn [fst snd] in *. unfold validate_segment in Hv.
  destruct q.
  - intros Hw. assert (trim_matches quote seg = unquote seg) as E by by (destruct Hw as [Hw|Hw]; rewrite Hw; apply trim_matches_special).
    rewrite E in Hv. by destruct Hw as [Hw|Hw]; rewrite Hw in Hv.
  - rewrite unquote_id by by apply Hfl. intros Hw. unfold is_wildcard_segment in Hx. cbn [fst snd negb andb] in Hx.
    by destruct Hw as [->| ->].
Qed.
