(* ===== verification/EvalPool.v ===== *)
(** * Discovering and resolving on a pool of evaluators

    [backend/gradient-worker/src/worker_pool/resolver.rs]: how a worker spreads the
    discovery and the resolution of a flake over its evaluator subprocesses and survives
    their crashes, with the subprocess side of a resolve ([eval_worker.rs]), the cost
    accounting ([eval_stats.rs]) and the fate of a returned subprocess ([pool.rs]). *)

From S2P Require Import Prelude RustStr RustText EdgeStream Wildcard WildcardWalk.

Local Open Scope string_scope.

(** ** Items and statistics *)

(** [gradient-eval/src/ipc.rs] *)
Record ResolvedItem : Set := {
  item_attr : string;
  item_drv_path : option string;
  item_references : list string;
  item_error : option string;
}.

(** An attribute with the derivation and references it resolved to, or its error. *)
Abbreviation ResolvedDerivation := (string * result (string * list string) string)%type.
Abbreviation IndexedDerivation := (nat * ResolvedDerivation)%type.

Definition MAX_CRASH_ATTEMPTS : nat := 2.
Definition MAX_RESOLVE_BATCH : nat := 64.

Definition item_to_resolved (item : ResolvedItem) : ResolvedDerivation :=
  (item_attr item,
   match item_drv_path item, item_error item with
   | Some drv, _ => Ok (drv, item_references item)
   | None, Some msg => Err msg
   | None, None => Err "eval worker returned empty result"
   end).

Definition crashed_derivation (attr : string) : ResolvedDerivation :=
  (attr, Err "evaluator crashed while resolving this attribute").

Record StatsDelta : Set := {
  nr_thunks : Z; nr_function_calls : Z; nr_primop_calls : Z; nr_lookups : Z; alloc_bytes : Z; gc_heap_size : Z;
}.

Record EntryPointCost : Set := { epc_attr : string; epc_thunks : Z; epc_fn_calls : Z; epc_alloc_bytes : Z }.

Record EvalStatsAccumulator : Set := {
  total_thunks : Z; fn_calls : Z; primop_calls : Z; lookups : Z; total_alloc_bytes : Z;
  peak_heap_bytes : Z; peak_rss_bytes : Z;
  buckets : gmap string EntryPointCost;
}.

Definition no_stats : EvalStatsAccumulator := {|
  total_thunks := 0; fn_calls := 0; primop_calls := 0; lookups := 0; total_alloc_bytes := 0;
  peak_heap_bytes := 0; peak_rss_bytes := 0; buckets := ∅ |}.

(** [EvalStatsAccumulator::observe] *)
Definition observe (acc : EvalStatsAccumulator) (entry_point : string) (delta : StatsDelta) (rss_bytes : Z) :
    EvalStatsAccumulator :=
  let b := default {| epc_attr := entry_point; epc_thunks := 0; epc_fn_calls := 0; epc_alloc_bytes := 0 |}
             (buckets acc !! entry_point) in
  {| total_thunks := u64 (total_thunks acc + nr_thunks delta);
     fn_calls := u64 (fn_calls acc + nr_function_calls delta);
     primop_calls := u64 (primop_calls acc + nr_primop_calls delta);
     lookups := u64 (lookups acc + nr_lookups delta);
     total_alloc_bytes := u64 (total_alloc_bytes acc + alloc_bytes delta);
     peak_heap_bytes := Z.max (peak_heap_bytes acc) (gc_heap_size delta);
     peak_rss_bytes := Z.max (peak_rss_bytes acc) rss_bytes;
     buckets := <[entry_point := {|
       epc_attr := epc_attr b;
       epc_thunks := u64 (epc_thunks b + nr_thunks delta);
       epc_fn_calls := u64 (epc_fn_calls b + nr_function_calls delta);
       epc_alloc_bytes := u64 (epc_alloc_bytes b + alloc_bytes delta) |}]> (buckets acc) |}.

(** ** Entry points *)

Fixpoint segments_match (pat attr : list string) : bool :=
  match pat, attr with
  | [], _ => true
  | p :: pat, a :: attr => (String.eqb p "*" || String.eqb p a) && segments_match pat attr
  | _ :: _, [] => false
  end.

(** The rank of a pattern: its segments, then its literal segments. *)
Definition pattern_rank (p : string) : nat * nat :=
  let segs := split_char dot p in
  (length segs, length (List.filter (fun s => negb (String.eqb s "*")) segs)).

Definition rank_le (a b : nat * nat) : bool := Nat.ltb a.1 b.1 || (Nat.eqb a.1 b.1 && Nat.leb a.2 b.2).

(** [Iterator::max_by_key]: the last of the greatest. *)
Definition max_by_rank (l : list string) : option string :=
  foldl (fun best p =>
    match best with
    | Some b => if rank_le (pattern_rank b) (pattern_rank p) then Some p else Some b
    | None => Some p
    end) None l.

Definition entry_point_of (attr : string) (patterns : list string) : string :=
  let attr_segs := split_char dot attr in
  default (default "" (head attr_segs))
    (max_by_rank (List.filter (fun p => segments_match (split_char dot p) attr_segs) patterns)).

(** ** Resolving one batch *)

(** [BatchCall] *)
Inductive BatchCall : Set :=
| Complete (items : list ResolvedItem)
| Crashed (streamed : list ResolvedItem).

Definition answers (chunk : list (nat * string)) (items : list ResolvedItem) : list IndexedDerivation :=
  zip_with (fun x item => (x.1, item_to_resolved item)) chunk items.

(** The streamed prefix answers the attributes it was asked for, in order. *)
Definition streamed_in_order (chunk : list (nat * string)) (streamed : list ResolvedItem) : bool :=
  forallb (fun x => String.eqb (item_attr x.2) x.1.2) (zip chunk streamed).

Definition PROTOCOL_VIOLATION : string := "eval worker broke the resolve protocol".

Section resolve.
Context {W : Type}.

(** A step on the world of subprocesses. *)
#[local] Abbreviation M A := (W -> result A string * W).

Definition mret {A} (a : A) : M A := fun w => (Ok a, w).
Definition mfail {A} (e : string) : M A := fun w => (Err e, w).
Definition mbind' {A B} (m : M A) (f : A -> M B) : M B :=
  fun w => match m w with (Ok a, w') => f a w' | (Err e, w') => (Err e, w') end.

Variable resolve_once : list string -> M BatchCall.

(** [resolve_chunk], with the rounds it may still recurse; [None] when they run out. The
    two halves of a [try_join] run one after the other. *)
Fixpoint resolve_chunk (fuel : nat) (chunk : list (nat * string)) (attempt : nat) :
    M (option (list IndexedDerivation)) :=
  match fuel, chunk with
  | O, _ => mret None
  | S _, [] => mret (Some [])
  | S fuel, _ :: _ =>
      mbind' (resolve_once (map snd chunk)) (fun call =>
        match call with
        | Complete items =>
            if Nat.eqb (length items) (length chunk) then mret (Some (answers chunk items))
            else mfail PROTOCOL_VIOLATION
        | Crashed streamed =>
            if Nat.ltb (length chunk) (length streamed) then mfail PROTOCOL_VIOLATION
            else if negb (streamed_in_order chunk streamed) then mfail PROTOCOL_VIOLATION
            else
              let done := answers chunk streamed in
              match drop (length streamed) chunk with
              | [] => mret (Some done)
              | (idx, suspect) :: remainder =>
                  if Nat.leb MAX_CRASH_ATTEMPTS (attempt + 1) then
                    mbind' (resolve_chunk fuel remainder 0) (fun rest =>
                      mret (rest ← rest; Some (done ++ (idx, crashed_derivation suspect) :: rest))%list)
                  else
                    mbind' (resolve_chunk fuel [(idx, suspect)] (attempt + 1)) (fun retried =>
                      mbind' (resolve_chunk fuel remainder 0) (fun resolved =>
                        mret (retried ← retried; resolved ← resolved; Some (done ++ retried ++ resolved))%list))
              end
        end)
  end.

(** The rounds a chunk needs at most. *)
Definition chunk_fuel (chunk : list (nat * string)) : nat := 2 * length chunk + 2.

End resolve.

Abbreviation M W A := (W -> result A string * W).

(** ** The pool of subprocesses

    What the resolver asks of the pool and of the subprocess it is handed, over a world
    [W] of subprocesses: checking one out, the three requests, its size, and giving it
    back healthy or not. Any of them may fail at any time. *)

Class EvalWorkers (W : Type) := {
  acquire : M W ();
  request_plan : list string -> M W (list string * list string);
  request_list : list string -> M W (list string * list string * list string * option StatsDelta);
  request_resolve : list string -> W -> list ResolvedItem * result (list string * option StatsDelta) string * W;
  rss_bytes : W -> Z;
  release : bool -> W -> W;
}.

(** The order in which the loops of a fan-out finish their items. *)
Class Schedule := {
  completion_order : forall {A}, list A -> list A;
  completion_order_perm : forall {A} (l : list A), completion_order l ≡ₚ l;
}.

Definition queue_order : Schedule := {| completion_order := fun A l => l; completion_order_perm := fun A l => reflexivity l |}.
Definition reversed_order : Schedule :=
  {| completion_order := fun A l => reverse l; completion_order_perm := fun A l => reverse_Permutation l |}.

Record FlakeDiscovery : Set := { disc_attrs : list string; disc_warnings : list string; disc_errors : list string }.

(** [WorkerPoolResolver], with the world of its pool. *)
Record WorkerPoolResolver (W : Type) := {
  pool : W;
  pool_max : nat;
  max_eval_rss : Z;
  stats : EvalStatsAccumulator;
  resolver_patterns : list string;
  resolve_warnings : list string;
}.
Arguments pool {W}. Arguments pool_max {W}. Arguments max_eval_rss {W}. Arguments stats {W}.
Arguments resolver_patterns {W}. Arguments resolve_warnings {W}.

Section resolver.
Context {W : Type} `{EW : !EvalWorkers W} `{SC : !Schedule}.
Abbreviation R := (WorkerPoolResolver W).

Definition set_pool (w : W) (r : R) : R :=
  {| pool := w; pool_max := pool_max r; max_eval_rss := max_eval_rss r; stats := stats r;
     resolver_patterns := resolver_patterns r; resolve_warnings := resolve_warnings r |}.
Definition set_stats (s : EvalStatsAccumulator) (r : R) : R :=
  {| pool := pool r; pool_max := pool_max r; max_eval_rss := max_eval_rss r; stats := s;
     resolver_patterns := resolver_patterns r; resolve_warnings := resolve_warnings r |}.
Definition set_patterns (ps : list string) (r : R) : R :=
  {| pool := pool r; pool_max := pool_max r; max_eval_rss := max_eval_rss r; stats := stats r;
     resolver_patterns := ps; resolve_warnings := resolve_warnings r |}.
Definition set_warnings (ws : list string) (r : R) : R :=
  {| pool := pool r; pool_max := pool_max r; max_eval_rss := max_eval_rss r; stats := stats r;
     resolver_patterns := resolver_patterns r; resolve_warnings := ws |}.

Definition bucket_of (r : R) (first_attr : option string) : string :=
  match first_attr with Some a => entry_point_of a (resolver_patterns r) | None => "" end.

(** [finish_call], and giving the subprocess back: one above the memory ceiling is
    discarded. *)
Definition finish_call (bucket : string) (delta : option StatsDelta) (r : R) : R :=
  let rss := rss_bytes (pool r) in
  let r := match delta with Some d => set_stats (observe (stats r) bucket d rss) r | None => r end in
  set_pool (release (negb (Z.ltb (max_eval_rss r) rss)) (pool r)) r.

Definition discard (r : R) : R := set_pool (release false (pool r)) r.

Definition take_eval_stats (r : R) : EvalStatsAccumulator * R := (stats r, set_stats no_stats r).

Definition record_warnings (warnings : list string) (r : R) : R := set_warnings (resolve_warnings r ++ warnings)%list r.

(** *** Listing *)

(** [list_once] *)
Definition list_once (wildcards : list string) : M R (list string * list string * list string) :=
  fun r =>
    let bucket := bucket_of r (head wildcards) in
    match acquire (pool r) with
    | (Err e, w) => (Err e, set_pool w r)
    | (Ok _, w) =>
        match request_list wildcards w with
        | (Ok (attrs, warnings, errors, delta), w) =>
            (Ok (attrs, warnings, errors), finish_call bucket delta (set_pool w r))
        | (Err e, w) => (Err e, discard (set_pool w r))
        end
    end.

(** The loop of [list_shard], by the retries it has left. *)
Fixpoint list_attempts (retries : nat) (wildcards : list string) : M R (list string * list string * list string) :=
  fun r =>
    match list_once wildcards r with
    | (Ok v, r) => (Ok v, r)
    | (Err crash, r) => match retries with O => (Err crash, r) | S retries => list_attempts retries wildcards r end
    end.

Definition list_shard : list string -> M R (list string * list string * list string) :=
  list_attempts (MAX_CRASH_ATTEMPTS - 1).

(** [pooled_fan_out]: every item is run, in the order the loops get to finish them; the
    first error ends it. *)
Fixpoint run_all {A B} (run : A -> M R B) (items : list A) : M R (list B) :=
  match items with
  | [] => mret []
  | x :: items => mbind' (run x) (fun b => mbind' (run_all run items) (fun bs => mret (b :: bs)))
  end.

Definition pooled_fan_out {A B} (items : list A) (run : A -> M R B) : M R (list B) :=
  run_all run (completion_order items).

Definition plan_once (wildcards : list string) : M R (list string * list string) :=
  fun r =>
    match acquire (pool r) with
    | (Err e, w) => (Err e, set_pool w r)
    | (Ok _, w) =>
        match request_plan wildcards w with
        | (Ok v, w) => (Ok v, set_pool (release true w) r)
        | (Err e, w) => (Err e, discard (set_pool w r))
        end
    end.

Definition list_flake_derivations (wildcards : list string) : M R FlakeDiscovery :=
  fun r =>
    let is_exclusion w := RustStr.starts_with w "!" in
    let r := set_patterns (List.filter (fun w => negb (is_exclusion w)) wildcards) r in
    mbind' (plan_once wildcards) (fun '(shards, plan_errors) =>
      if Nat.leb (length shards) 1 then
        mbind' (list_shard wildcards) (fun '(attrs, warnings, errors) =>
          mret {| disc_attrs := attrs; disc_warnings := warnings; disc_errors := sort_dedup (errors ++ plan_errors) |})
      else
        let excludes := List.filter is_exclusion wildcards in
        mbind' (pooled_fan_out shards (fun shard => list_shard (shard :: excludes))) (fun found =>
          mret {|
            disc_attrs := sort_dedup (flat_map (fun x => x.1.1) found);
            disc_warnings := sort_dedup (flat_map (fun x => x.1.2) found);
            disc_errors := sort_dedup (plan_errors ++ flat_map snd found) |})) r.

(** *** Resolving *)

(** [resolve_once] *)
Definition resolve_once (attrs : list string) : M R BatchCall :=
  fun r =>
    let bucket := bucket_of r (head attrs) in
    match acquire (pool r) with
    | (Err e, w) => (Err e, set_pool w r)
    | (Ok _, w) =>
        match request_resolve attrs w with
        | (items, Ok (warnings, delta), w) =>
            (Ok (Complete items), record_warnings warnings (finish_call bucket delta (set_pool w r)))
        | (items, Err _, w) => (Ok (Crashed items), discard (set_pool w r))
        end
    end.

(** [usize::div_ceil] and [clamp]. *)
Definition batch_size (n_attrs n_workers : nat) : nat :=
  let per := n_workers * 4 in
  Nat.max 1 (Nat.min ((n_attrs + per - 1) / per) MAX_RESOLVE_BATCH).

Fixpoint enumerate {A} (i : nat) (l : list A) : list (nat * A) :=
  match l with [] => [] | x :: l => (i, x) :: enumerate (S i) l end.

Definition OUT_OF_ROUNDS : string := "resolve_chunk ran out of rounds".

Definition resolve_batch (batch : list (nat * string)) : M R (list IndexedDerivation) :=
  mbind' (resolve_chunk resolve_once (chunk_fuel batch) batch 0) (fun l =>
    match l with Some l => mret l | None => mfail OUT_OF_ROUNDS end).

Definition take_warnings : M R (list string) := fun r => (Ok (resolve_warnings r), set_warnings [] r).

Definition resolve_derivation_paths (attrs : list string) : M R (list ResolvedDerivation * list string) :=
  match attrs with
  | [] => mret ([], [])
  | _ :: _ =>
      fun r =>
        let n_workers := Nat.min (pool_max r) (length attrs) in
        let batches := chunks (batch_size (length attrs) n_workers) (enumerate 0 attrs) in
        mbind' (pooled_fan_out batches resolve_batch) (fun indexed =>
          mbind' take_warnings (fun warnings =>
            mret (map snd (sort_by (fun a b => Nat.compare a.1 b.1) (concat indexed)), sort_dedup warnings))) r
  end.

End resolver.

(** ** The subprocess ([eval_worker.rs]) *)

Section subprocess.
Context {C : Type} `{!AttrCursor C}.

(** Locking a flake and opening its evaluation cache. *)
Variable open_walker : string -> list (string * string) -> result C string.

(** [WalkerCache]: the one walker kept open, with what it was opened for. *)
Abbreviation WalkerCache := (option (string * list (string * string) * C)).

Definition walker_open (cache : WalkerCache) (repository : string) (overrides : list (string * string)) :
    result C string * WalkerCache :=
  let stale := match cache with
    | Some (repo, ovr, _) => negb (String.eqb repo repository) || negb (bool_decide (ovr = overrides))
    | None => true
    end in
  if stale then
    match open_walker repository overrides with
    | Ok w => (Ok w, Some (repository, overrides, w))
    | Err e => (Err e, None)
    end
  else match cache with Some (_, _, w) => (Ok w, cache) | None => (Err "", cache) end.

(** [stream_resolve]: one item per attribute, in order, whatever fails. *)
Definition stream_resolve (cache : WalkerCache) (repository : string) (overrides : list (string * string))
    (attrs : list string) : list ResolvedItem * WalkerCache :=
  let '(walker, cache) := walker_open cache repository overrides in
  (map (fun attr =>
     match (let? root := walker in walker_resolve root attr) with
     | Ok (drv, references) =>
         {| item_attr := attr; item_drv_path := Some drv; item_references := references; item_error := None |}
     | Err e => {| item_attr := attr; item_drv_path := None; item_references := []; item_error := Some e |}
     end) attrs, cache).

End subprocess.

(** ** What happens to a subprocess that is given back ([pool.rs]) *)

Inductive Disposition : Set := GracefulShutdown | ReturnToIdle | Kill.

Definition dispose (shutting_down healthy : bool) : Disposition :=
  match shutting_down, healthy with
  | true, true => GracefulShutdown
  | false, true => ReturnToIdle
  | _, false => Kill
  end.
