(* ===== verification/ResolverFacts.v ===== *)
(** * Crashes do not change what a flake evaluates to

    For subprocesses that answer truthfully when they answer at all, a listing finds what
    one uninterrupted discovery finds, and a resolve answers every attribute in order. *)

From S2P Require Import Prelude RustStr RustText EdgeStream Wildcard WildcardWalk WalkFacts EvalPool.

Local Open Scope string_scope.

(** ** Fan-outs *)

Lemma mbind_ok {W A B} (m : M W A) (f : A -> M W B) w b w' :
  mbind' m f w = (Ok b, w') <-> exists a w1, m w = (Ok a, w1) /\ f a w1 = (Ok b, w').
Proof. unfold mbind'. destruct (m w) as [[a|e] w1]; naive_solver. Qed.

Lemma run_all_ok {W A B} (P : A -> B -> Prop) (run : A -> M (WorkerPoolResolver W) B) :
  (forall x r b r', run x r = (Ok b, r') -> P x b) ->
  forall items r bs r', run_all run items r = (Ok bs, r') -> Forall2 P items bs.
Proof.
  intros Hrun items. induction items as [|x items IH]; intros r bs r' E; cbn [run_all] in E.
  - unfold mret in E. injection E as <- _. constructor.
  - apply mbind_ok in E as (b & r1 & Hb & E). apply mbind_ok in E as (bs' & r2 & Hbs & E).
    unfold mret in E. injection E as <- _. constructor; eauto.
Qed.

Lemma run_all_total {W A B} (run : A -> M (WorkerPoolResolver W) B) :
  (forall x r, exists b r', run x r = (Ok b, r')) -> forall items r, exists bs r', run_all run items r = (Ok bs, r').
Proof.
  intros Hrun items. induction items as [|x items IH]; intros r; cbn [run_all]; [by repeat eexists|].
  destruct (Hrun x r) as (b & r1 & Hb). destruct (IH r1) as (bs & r2 & Hbs). unfold mbind'. rewrite Hb, Hbs. by repeat eexists.
Qed.

Lemma Forall2_perm_l {A B} (P : A -> B -> Prop) l1 l1' l2 :
  l1 ≡ₚ l1' -> Forall2 P l1 l2 -> exists l2', l2 ≡ₚ l2' /\ Forall2 P l1' l2'.
Proof.
  intros Hp. revert l2. induction Hp as [|x l1 l1' Hp IH|x y l1|l1 l1' l1'' Hp1 IH1 Hp2 IH2]; intros l2 Hl.
  - inversion Hl; subst. exists []. by split.
  - inversion Hl as [|? b ? l2' Hb Hl']; subst. destruct (IH _ Hl') as (l3 & Hp3 & Hl3). exists (b :: l3).
    split; [by constructor|by constructor].
  - inversion Hl as [|? b ? l2' Hb Hl']; subst. inversion Hl' as [|? c ? l3 Hc Hl3]; subst. exists (c :: b :: l3).
    split; [constructor|by repeat constructor].
  - destruct (IH1 _ Hl) as (l3 & Hp3 & Hl3). destruct (IH2 _ Hl3) as (l4 & Hp4 & Hl4). exists l4. split; [by rewrite Hp3|done].
Qed.

Lemma concat_perm {A} (l1 l2 : list (list A)) : l1 ≡ₚ l2 -> concat l1 ≡ₚ concat l2.
Proof.
  induction 1; simpl; [done|by f_equiv| |by etrans]. rewrite !app_assoc. f_equiv. apply Permutation_app_comm.
Qed.

Lemma Forall2_concat {A B} (P : A -> B -> Prop) l1 l2 : Forall2 (Forall2 P) l1 l2 -> Forall2 P (concat l1) (concat l2).
Proof. induction 1; simpl; [constructor|by apply Forall2_app]. Qed.

(** ** Truthful subprocesses *)

(** The item a truthful subprocess streams for an attribute. *)
Definition true_item {C} `{!AttrCursor C} (root : C) (attr : string) : ResolvedItem :=
  match walker_resolve root attr with
  | Ok (drv, references) =>
      {| item_attr := attr; item_drv_path := Some drv; item_references := references; item_error := None |}
  | Err e => {| item_attr := attr; item_drv_path := None; item_references := []; item_error := Some e |}
  end.

(** The subprocesses evaluate one flake, may die in any request, and otherwise answer from
    it; a resolve that ends has streamed every item. *)
Class Truthful {C} `{!AttrCursor C} (root : C) (W : Type) `{!EvalWorkers W} : Prop := {
  true_plan ws w v w' : request_plan ws w = (Ok v, w') -> v = walker_plan_shards root ws;
  true_list ws w attrs warnings errors d w' :
    request_list ws w = (Ok (attrs, warnings, errors, d), w') -> (attrs, errors) = discover_patterns root ws;
  true_resolve attrs w items ending w' :
    request_resolve attrs w = (items, ending, w') ->
    items = map (true_item root) (take (length items) attrs) /\ (is_ok ending = true -> length items = length attrs);
}.

Lemma true_item_resolved {C} `{!AttrCursor C} (root : C) attr :
  item_to_resolved (true_item root attr) = (attr, walker_resolve root attr).
Proof. unfold true_item, item_to_resolved. by destruct (walker_resolve root attr) as [[drv refs]|e]. Qed.

(** A stream of the subprocess is the truthful one. *)
Lemma stream_resolve_true {C} `{!AttrCursor C} open_walker (cache : option (string * list (string * string) * C)) repository overrides attrs root :
  (walker_open open_walker cache repository overrides).1 = Ok root ->
  (stream_resolve open_walker cache repository overrides attrs).1 = map (true_item root) attrs.
Proof. unfold stream_resolve. destruct (walker_open _ _ _ _) as [w c]. by intros [= ->]. Qed.

(** A cached walker belongs to the flake and the overrides it is asked for. *)
Definition cache_valid {C} (open_walker : string -> list (string * string) -> result C string)
    (cache : option (string * list (string * string) * C)) : Prop :=
  match cache with Some (repo, ovr, w) => open_walker repo ovr = Ok w | None => True end.

Lemma walker_open_fresh {C} open_walker (cache : option (string * list (string * string) * C)) repository overrides :
  cache_valid open_walker cache ->
  (walker_open open_walker cache repository overrides).1 = open_walker repository overrides /\
  cache_valid open_walker (walker_open open_walker cache repository overrides).2.
Proof.
  unfold walker_open, cache_valid. destruct cache as [[[repo ovr] w]|].
  - intros Hw. destruct (String.eqb_spec repo repository) as [->|]; cbn [negb orb].
    + destruct (bool_decide (ovr = overrides)) eqn:E; cbn [negb]; [apply bool_decide_eq_true in E as ->; by rewrite Hw|].
      by destruct (open_walker repository overrides) eqn:Eo.
    + by destruct (open_walker repository overrides) eqn:Eo.
  - by destruct (open_walker repository overrides) eqn:Eo.
Qed.

Section truthful.
Context {C : Type} `{!AttrCursor C} (root : C) {W : Type} `{!EvalWorkers W} `{!Schedule} `{!Truthful root W}.

(** *** Listing *)

Lemma list_once_true ws (r r' : WorkerPoolResolver W) attrs warnings errors :
  list_once ws r = (Ok (attrs, warnings, errors), r') -> (attrs, errors) = discover_patterns root ws.
Proof.
  unfold list_once. destruct (acquire (pool r)) as [[?|?] w]; [|done].
  destruct (request_list ws w) as [[[[[al wl] el] dl]|?] w'] eqn:E; [|done]. intros [= <- <- <- _]. by eapply true_list.
Qed.

Lemma list_attempts_true k ws (r r' : WorkerPoolResolver W) v :
  list_attempts k ws r = (Ok v, r') -> (v.1.1, v.2) = discover_patterns root ws.
Proof.
  revert r. induction k as [|k IH]; intros r; cbn [list_attempts];
    (destruct (list_once ws r) as [[[[al wl] el]|?] r1] eqn:E; [intros [= <- _]; by eapply list_once_true|]); [done|apply IH].
Qed.

Lemma plan_once_true ws (r r' : WorkerPoolResolver W) v : plan_once ws r = (Ok v, r') -> v = walker_plan_shards root ws.
Proof.
  unfold plan_once. destruct (acquire (pool r)) as [[?|?] w]; [|done].
  destruct (request_plan ws w) as [[v'|?] w'] eqn:E; [|done]. intros [= <- _]. by eapply true_plan.
Qed.

Lemma discover_sorted (includes excludes : list (list string)) :
  sort_dedup (discover root includes excludes).1 = (discover root includes excludes).1 /\
  sort_dedup (discover root includes excludes).2 = (discover root includes excludes).2.
Proof. rewrite discover_eq. cbn [fst snd]. split; apply sort_dedup_ext; intros x; by rewrite sort_dedup_elem. Qed.

(** C25. A listing finds what one uninterrupted discovery of the whole flake finds, and
    reports the errors it reports: the split into shards, the order in which they finish
    and the crashes that were retried leave no trace. *)
Theorem listing_exact (wildcards : list string) (r r' : WorkerPoolResolver W) (d : FlakeDiscovery) :
  names_below plain_name root -> bang_free wildcards ->
  list_flake_derivations wildcards r = (Ok d, r') ->
  (disc_attrs d, disc_errors d) = discover_patterns root wildcards.
Proof.
  intros Hn Hb. unfold list_flake_derivations. intros E.
  apply mbind_ok in E as ([shards perr] & r1 & Hplan%plan_once_true & E).
  destruct (shards_discover root wildcards Hn Hb) as [Ha He].
  assert (Hs : shards = map segments_to_pattern (plan_shards root (includes_of wildcards)).1 /\
               perr = (plan_shards root (includes_of wildcards)).2)
    by (unfold walker_plan_shards in Hplan; destruct (plan_shards _ _); by injection Hplan).
  destruct Hs as [-> ->]. destruct (Nat.leb _ 1).
  - apply mbind_ok in E as ([[attrs warnings] errors] & r2 & Hl%list_attempts_true & E).
    unfold mret in E. injection E as <- _. cbn [disc_attrs disc_errors fst snd] in *.
    destruct (discover_patterns root wildcards) as [da de] eqn:Ed. injection Hl as -> ->. f_equal. cbn [fst snd] in *.
    assert (sort_dedup de = de) as <- by (pose proof (discover_sorted (includes_of wildcards) (excludes_of wildcards)) as [_ Hd];
      unfold discover_patterns in Ed; by rewrite Ed in Hd).
    apply sort_dedup_ext. intros x. rewrite elem_of_app, sort_dedup_elem, (He x). tauto.
  - apply mbind_ok in E as (found & r2 & Hf & E). unfold mret in E. injection E as <- _.
    cbn [disc_attrs disc_errors]. unfold pooled_fan_out in Hf.
    apply (run_all_ok (fun sh v => (v.1.1, v.2) = discover_patterns root (sh :: exclusions wildcards))) in Hf;
      [|by intros x r3 b r4 Hx%list_attempts_true].
    assert (Hx : forall P : list string * list string -> Prop,
      (exists v, v ∈ found /\ P (v.1.1, v.2)) <->
      exists sh, sh ∈ (plan_shards root (includes_of wildcards)).1 /\
                 P (discover_patterns root (segments_to_pattern sh :: exclusions wildcards))).
    { intros P. split.
      - intros (v & Hv & HP). apply list_elem_of_lookup in Hv as [i Hi].
        destruct (Forall2_lookup_r _ _ _ _ _ Hf Hi) as (sh & Hsh & Hd). apply list_elem_of_lookup_2 in Hsh.
        rewrite completion_order_perm in Hsh. apply list_elem_of_fmap in Hsh as (q & -> & Hq). exists q. by rewrite <- Hd.
      - intros (sh & Hsh & HP). assert (Hin : segments_to_pattern sh ∈ completion_order (map segments_to_pattern (plan_shards root (includes_of wildcards)).1))
          by (rewrite completion_order_perm; apply list_elem_of_fmap; eauto).
        apply list_elem_of_lookup in Hin as [i Hi]. destruct (Forall2_lookup_l _ _ _ _ _ Hf Hi) as (v & Hv & Hd).
        exists v. split; [by eapply list_elem_of_lookup_2|]. by rewrite Hd. }
    pose proof (discover_sorted (includes_of wildcards) (excludes_of wildcards)) as [Hda Hde].
    fold (discover_patterns root wildcards) in Hda, Hde. rewrite (surjective_pairing (discover_patterns root wildcards)).
    rewrite <- Hda, <- Hde. f_equal; apply sort_dedup_ext; intros x.
    + rewrite (Ha x), <- (Hx (fun d => x ∈ d.1)). rewrite list_elem_of_In, in_flat_map. by setoid_rewrite <- list_elem_of_In.
    + rewrite elem_of_app, (He x), <- (Hx (fun d => x ∈ d.2)). rewrite (list_elem_of_In (flat_map _ _)), in_flat_map.
      by setoid_rewrite <- list_elem_of_In.
Qed.

(** *** Resolving *)

(** What an attribute is answered: its own resolution, or that it crashed the evaluator. *)
Definition answered (x : nat * string) (y : IndexedDerivation) : Prop :=
  y.1 = x.1 /\ y.2.1 = x.2 /\ (y.2 = (x.2, walker_resolve root x.2) \/ y.2 = crashed_derivation x.2).

Lemma resolve_once_true attrs (r r' : WorkerPoolResolver W) call :
  resolve_once attrs r = (Ok call, r') ->
  match call with
  | Complete items => items = map (true_item root) attrs
  | Crashed items => items = map (true_item root) (take (length items) attrs)
  end.
Proof.
  unfold resolve_once. destruct (acquire (pool r)) as [[?|?] w]; [|done].
  destruct (request_resolve attrs w) as [[items ending] w'] eqn:E.
  apply true_resolve in E as [Hi Hl]. destruct ending as [[wl dl]|e]; intros [= <- _]; [|done].
  by rewrite Hi, (Hl eq_refl), firstn_all.
Qed.

Lemma answers_true (chunk : list (nat * string)) :
  Forall2 answered chunk (answers chunk (map (true_item root) (map snd chunk))).
Proof.
  unfold answers. induction chunk as [|[i a] chunk IH]; [constructor|]. cbn [map zip_with snd fst].
  constructor; [|exact IH]. rewrite true_item_resolved. by repeat split; left.
Qed.

Lemma answers_short (chunk : list (nat * string)) n :
  answers chunk (map (true_item root) (take n (map snd chunk))) =
  answers (take n chunk) (map (true_item root) (map snd (take n chunk))).
Proof.
  unfold answers. revert n. induction chunk as [|[i a] chunk IH]; intros [|n]; cbn [map zip_with snd take]; [done..|]. by rewrite IH.
Qed.

Lemma streamed_true (chunk : list (nat * string)) n :
  streamed_in_order chunk (map (true_item root) (take n (map snd chunk))) = true.
Proof.
  unfold streamed_in_order. revert n. induction chunk as [|[i a] chunk IH]; intros [|n]; cbn [map snd take zip zip_with forallb]; [done..|].
  apply andb_true_iff. split; [|apply IH]. unfold true_item. cbn [fst snd].
  destruct (walker_resolve root a) as [[? ?]|]; apply String.eqb_refl.
Qed.

(** A chunk whose rounds suffice is answered in full and in order, unless the pool fails. *)
Lemma resolve_chunk_answers fuel : forall (chunk : list (nat * string)) attempt (r : WorkerPoolResolver W),
  2 * length chunk + (1 - attempt) < fuel -> attempt <= 1 ->
  match resolve_chunk resolve_once fuel chunk attempt r with
  | (Ok (Some l), _) => Forall2 answered chunk l
  | (Ok None, _) => False
  | (Err _, _) => exists w e w', acquire (W := W) w = (Err e, w')
  end.
Proof.
  induction fuel as [|fuel IH]; intros chunk attempt r Hf Ha; [lia|]. cbn [resolve_chunk].
  destruct chunk as [|x0 chunk0]; [cbn; constructor|]. remember (x0 :: chunk0) as chunk eqn:Hchunk.
  assert (Hpos : 0 < length chunk) by (subst; simpl; lia).
  unfold mbind' at 1. destruct (resolve_once (map snd chunk) r) as [[call|e] r1] eqn:Ec.
  2: { unfold resolve_once in Ec. destruct (acquire (pool r)) as [[?|e'] w] eqn:Eq; [|by eauto].
       by destruct (request_resolve _ _) as [[? [[? ?]|?]] ?]. }
  apply resolve_once_true in Ec. destruct call as [items|streamed].
  - subst items. rewrite !length_map, Nat.eqb_refl. cbn. apply answers_true.
  - assert (Hlen : length streamed <= length chunk).
    { rewrite Ec, length_map, length_take, length_map. lia. }
    destruct (Nat.ltb_spec (length chunk) (length streamed)); [lia|].
    assert (streamed_in_order chunk streamed = true) as -> by (rewrite Ec; apply streamed_true). cbn [negb].
    assert (Hdone : Forall2 answered (take (length streamed) chunk) (answers chunk streamed)).
    { assert (answers chunk streamed = answers chunk (map (true_item root) (take (length streamed) (map snd chunk)))) as ->
        by by rewrite <- Ec.
      rewrite answers_short. apply answers_true. }
    pose proof (take_drop (length streamed) chunk) as Htd. pose proof (length_drop chunk (length streamed)) as Hld.
    destruct (drop (length streamed) chunk) as [|[idx suspect] remainder] eqn:Ed.
    { cbn. rewrite app_nil_r in Htd. by rewrite Htd in Hdone. }
    cbn [length] in Hld. cbn zeta. revert Hdone. generalize (answers chunk streamed) as done_. intros done_ Hdone. rewrite <- Htd.
    assert (Hcrash : answered (idx, suspect) (idx, crashed_derivation suspect)) by by repeat split; right.
    assert (Hrem : forall r, match resolve_chunk resolve_once fuel remainder 0 r with
      | (Ok (Some l), _) => Forall2 answered remainder l
      | (Ok None, _) => False
      | (Err _, _) => exists w e w', acquire (W := W) w = (Err e, w') end) by (intros r2; apply IH; lia).
    destruct (Nat.leb_spec MAX_CRASH_ATTEMPTS (attempt + 1)) as [Hmax|Hmax]; unfold MAX_CRASH_ATTEMPTS in Hmax.
    + unfold mbind' at 1. specialize (Hrem r1). destruct (resolve_chunk _ _ remainder 0 r1) as [[[l|]|e] r2]; try done.
      cbn. by apply Forall2_app, Forall2_cons.
    + assert (attempt = 0) as -> by lia. unfold mbind' at 1.
      specialize (IH [(idx, suspect)] 1 r1 ltac:(simpl; lia) ltac:(lia)). cbn [Nat.add] in *.
      destruct (resolve_chunk _ _ [(idx, suspect)] 1 r1) as [[[l1|]|e] r2]; try done. unfold mbind' at 1.
      specialize (Hrem r2). destruct (resolve_chunk _ _ remainder 0 r2) as [[[l2|]|e] r3]; try done.
      cbn. apply Forall2_app; [done|]. apply Forall2_cons_inv_l in IH as (y & l3 & Hy & Hl3 & ->).
      inversion Hl3; subst. cbn. by constructor.
Qed.

(** *** Putting the batches back in order *)

Definition by_index (a b : IndexedDerivation) : comparison := Nat.compare a.1 b.1.

Lemma by_index_total l : NoDup (map fst l) -> total_on by_index (fun y => y ∈ l).
Proof.
  intros Hnd. unfold by_index. split.
  - intros x y _ _. by rewrite Nat.compare_antisym.
  - intros x y z _ _ _. unfold not_gt. rewrite !Nat.compare_le_iff. lia.
  - intros x y Hx Hy E%Nat.compare_eq. apply (NoDup_map_inj fst l); done.
Qed.

Lemma enumerate_answers i attrs ys :
  Forall2 answered (enumerate i attrs) ys ->
  Forall2 (fun a y => y = (a, walker_resolve root a) \/ y = crashed_derivation a) attrs (map snd ys) /\
  map fst ys = seq i (length attrs).
Proof.
  revert i ys. induction attrs as [|a attrs IH]; intros i ys Hys; cbn [enumerate] in Hys.
  - inversion Hys; subst. by split.
  - apply Forall2_cons_inv_l in Hys as (y & ys' & (Hi & Ha & Hy) & Hys & ->). cbn [fst snd] in *.
    destruct (IH _ _ Hys) as [H1 H2]. split; [by constructor|]. cbn. by rewrite H2, Hi.
Qed.

Lemma sorted_by_index ys i n : map fst ys = seq i n -> sort_by by_index ys = ys.
Proof.
  revert ys i. induction n as [|n IH]; intros [|y ys] i E; try done. cbn in E. injection E as Hy E. cbn [sort_by].
  rewrite (IH _ _ E). destruct ys as [|z ys]; [done|]. cbn [insert_by]. unfold by_index at 1.
  destruct n; [done|]. cbn in E. injection E as Hz _. rewrite Hy, Hz.
  by rewrite (proj2 (Nat.compare_lt_iff _ _)) by lia.
Qed.

Lemma resolve_batch_total (batch : list (nat * string)) (r : WorkerPoolResolver W) :
  (forall w : W, exists w', acquire w = (Ok (), w')) ->
  exists l r', resolve_batch batch r = (Ok l, r') /\ Forall2 answered batch l.
Proof.
  intros Hacq. unfold resolve_batch, mbind'.
  pose proof (resolve_chunk_answers (chunk_fuel batch) batch 0 r ltac:(unfold chunk_fuel; lia) ltac:(lia)) as Hr.
  destruct (resolve_chunk _ _ _ _ _) as [[[l|]|e] r1]; [by eauto|done|].
  destruct Hr as (w & e' & w' & Hw). destruct (Hacq w) as (w2 & Hw2). congruence.
Qed.

(** C26. As long as subprocesses can be had, resolving ends, whatever they crash on, and
    answers every attribute exactly once and in the order asked, with what the attribute
    resolves to or with the report that it crashed the evaluator. *)
Theorem resolve_answers_all (attrs : list string) (r : WorkerPoolResolver W) :
  (forall w : W, exists w', acquire w = (Ok (), w')) ->
  exists ys warnings r', resolve_derivation_paths attrs r = (Ok (ys, warnings), r') /\
    Forall2 (fun a y => y = (a, walker_resolve root a) \/ y = crashed_derivation a) attrs ys.
Proof.
  intros Hacq. destruct attrs as [|a0 attrs0]; [do 3 eexists; split; [reflexivity|constructor]|].
  unfold resolve_derivation_paths. remember (a0 :: attrs0) as attrs eqn:Hattrs. cbn zeta.
  set (batches := chunks _ _).
  assert (Hconcat : concat batches = enumerate 0 attrs) by (apply concat_chunks; unfold batch_size; lia).
  destruct (run_all_total resolve_batch
    (fun b r => let '(ex_intro _ l (ex_intro _ r' (conj E _))) := resolve_batch_total b r Hacq in ex_intro _ l (ex_intro _ r' E))
    (completion_order batches) r) as (bs & r1 & Hbs).
  unfold mbind' at 1, pooled_fan_out. rewrite Hbs. do 3 eexists. split; [reflexivity|].
  apply (run_all_ok (Forall2 answered)) in Hbs.
  2: { intros x r2 b r3 Hb. destruct (resolve_batch_total x r2 Hacq) as (l & r4 & Hl & Hans). congruence. }
  apply Forall2_concat in Hbs.
  apply (Forall2_perm_l _ _ (enumerate 0 attrs)) in Hbs as (ys & Hp & Hys);
    [|by rewrite <- Hconcat; apply concat_perm, completion_order_perm].
  destruct (enumerate_answers 0 attrs ys Hys) as [Hans Hfst].
  fold by_index. rewrite (sort_by_perm_eq by_index (by_index_total (concat bs) ltac:(rewrite Hp, Hfst; apply NoDup_seq)) (concat bs) ys);
    [|by apply Forall_forall|done].
  by rewrite (sorted_by_index ys 0 (length attrs)).
Qed.

End truthful.
