(* ===== verification/WalkExamples.v ===== *)
(** * A flake and its evaluators

    A small tree of flake outputs with a throwing attribute, subprocesses that die a given
    number of times before they answer, and the theorems of discovery at work on them. *)

From S2P Require Import Prelude RustStr RustText EdgeStream Wildcard WildcardWalk WalkFacts EvalPool ResolverFacts.

Local Open Scope string_scope.

Inductive Tree : Set :=
| Drv (path : string)
| Attrs (kids : list (string * Tree))
| Throws.

Fixpoint assoc (name : string) (kids : list (string * Tree)) : option Tree :=
  match kids with [] => None | (k, t) :: kids => if String.eqb k name then Some t else assoc name kids end.

#[global] Instance tree_cursor : AttrCursor Tree := {|
  attrs t := match t with Drv _ => Ok [] | Attrs kids => Ok (map fst kids) | Throws => Err "boom" end;
  maybe_get_attr t name := match t with Drv _ => Ok None | Attrs kids => Ok (assoc name kids) | Throws => Err "boom" end;
  cursor_is_derivation t := match t with Drv _ => Ok true | Attrs _ => Ok false | Throws => Err "boom" end;
  drv_path t := match t with Drv p => Ok ("/nix/store/" ++ p) | _ => Err "no derivation" end;
|}.

Fixpoint all_names (t : Tree) : list string :=
  match t with Attrs kids => flat_map (fun x => x.1 :: all_names x.2) kids | _ => [] end.

Lemma assoc_names name kids t s : assoc name kids = Some t -> s ∈ all_names t -> s ∈ all_names (Attrs kids).
Proof.
  induction kids as [|[k t'] kids IH]; [done|]. cbn [assoc]. cbn. destruct (String.eqb k name).
  - intros [= ->] Hs. right. apply elem_of_app. by left.
  - intros E Hs. right. apply elem_of_app. right. by apply IH.
Qed.

Lemma below_names t path n s : Below t path n -> s ∈ all_names n -> s ∈ all_names t.
Proof.
  induction 1 as [|t name c path m Hc Hb IH]; [done|]. intros Hs. specialize (IH Hs).
  unfold Child in Hc. cbn in Hc. destruct t as [|kids|]; try done. injection Hc as Hc. by eapply assoc_names.
Qed.

Lemma tree_names_below (P : string -> Prop) t : Forall P (all_names t) -> names_below P t.
Proof.
  intros Hall path n names Hb Hn. rewrite Forall_forall in Hall |- *. intros s Hs. apply Hall. eapply below_names; [done|].
  cbn in Hn. destruct n as [|kids|]; cbn in Hn; try done; injection Hn as <-; [by apply elem_of_nil in Hs|].
  apply list_elem_of_fmap in Hs as ([k t'] & -> & Hk). cbn. apply list_elem_of_In, in_flat_map. exists (k, t').
  split; [by apply list_elem_of_In|]. by left.
Qed.

(** [packages.<system>.<name>] with one throwing package, and [checks]. *)
Definition flake : Tree := Attrs [
  ("packages", Attrs [
    ("aarch64-linux", Attrs [("hello", Drv "aaa-hello.drv")]);
    ("x86_64-linux", Attrs [("broken", Throws); ("cowsay", Drv "bbb-cowsay.drv"); ("hello", Drv "ccc-hello.drv");
                            ("python3.12", Drv "ddd-python.drv")])]);
  ("checks", Attrs [("x86_64-linux", Attrs [("test", Drv "eee-test.drv")])])].

Definition WILDCARDS : list string := ["packages.*.*"; "checks.#.*"; "!packages.x86_64-linux.hello"].

Example flake_discovery :
  discover_patterns flake WILDCARDS =
  (["checks.x86_64-linux.test"; "packages.aarch64-linux.hello"; "packages.x86_64-linux.cowsay";
    "packages.x86_64-linux.python3.12"],
   ["failed to evaluate 'packages.x86_64-linux.broken': is_derivation: boom"]).
Proof. vm_compute. reflexivity. Qed.

Lemma flake_plain : names_below plain_name flake.
Proof.
  apply tree_names_below, Forall_forall. intros s Hs. apply list_elem_of_In in Hs. vm_compute in Hs.
  repeat destruct Hs as [<-|Hs]; [..|done]; split; try (by intros [|]); by vm_compute.
Qed.

(** Subprocesses that die in the next [n] requests; a dying resolve
    streams all items but the last. *)
#[global] Instance dying : EvalWorkers nat := {|
  acquire n := (Ok (), n);
  request_plan ws n := (Ok (walker_plan_shards flake ws), n);
  request_list ws n := match n with
    | O => let '(a, e) := discover_patterns flake ws in (Ok (a, [], e, None), O)
    | S n => (Err "killed", n) end;
  request_resolve ws n := match n with
    | O => (map (true_item flake) ws, Ok ([], None), O)
    | S n => (map (true_item flake) (take (pred (length ws)) ws), Err "killed", n) end;
  rss_bytes n := 0%Z;
  release healthy n := n;
|}.

#[global] Instance dying_truthful : Truthful flake nat.
Proof.
  split.
  - intros ws w v w' E. cbn in E. by injection E.
  - intros ws w a wl e d w' E. destruct w; cbn [request_list dying] in E; [|done].
    destruct (discover_patterns flake ws) as [a' e']. by injection E as <- <- <- <- <-.
  - intros ws w items ending w' E. destruct w; cbn [request_resolve dying] in E; injection E as <- <- <-.
    + rewrite length_map, firstn_all. by split; [|intros _].
    + split; [|done]. rewrite length_map, length_take. do 2 f_equal. lia.
Qed.

Definition fresh_resolver (crashes : nat) : WorkerPoolResolver nat := {|
  pool := crashes; pool_max := 2; max_eval_rss := 100; stats := no_stats; resolver_patterns := []; resolve_warnings := [] |}.

#[local] Instance last_first : Schedule := reversed_order.

Lemma listing_exact_witness :
  exists d r', list_flake_derivations WILDCARDS (fresh_resolver 1) = (Ok d, r') /\
    (disc_attrs d, disc_errors d) = discover_patterns flake WILDCARDS.
Proof.
  destruct (list_flake_derivations WILDCARDS (fresh_resolver 1)) as [[d|e] r'] eqn:E; [|vm_compute in E; discriminate E].
  exists d, r'. split; [reflexivity|]. apply (listing_exact flake WILDCARDS (fresh_resolver 1) r' d); [apply flake_plain| |exact E].
  apply (bool_decide_eq_true_1 (bang_free WILDCARDS)). vm_compute. reflexivity.
Defined.

Definition TWO : list string := ["packages.x86_64-linux.cowsay"; "packages.x86_64-linux.hello"; "checks.nope"].

(** Two crashes in a row on the attribute resolved first: it is given up, alone. *)
Example crash_isolated :
  (resolve_derivation_paths TWO (fresh_resolver 2)).1 =
  Ok ([("packages.x86_64-linux.cowsay", Ok ("bbb-cowsay.drv", []));
       ("packages.x86_64-linux.hello", Ok ("ccc-hello.drv", []));
       crashed_derivation "checks.nope"], []).
Proof. vm_compute. reflexivity. Qed.

Lemma resolve_answers_all_witness :
  exists ys warnings r', resolve_derivation_paths TWO (fresh_resolver 3) = (Ok (ys, warnings), r') /\
    Forall2 (fun a y => y = (a, walker_resolve flake a) \/ y = crashed_derivation a) TWO ys.
Proof. apply (resolve_answers_all flake TWO (fresh_resolver 3)). intros w. exists w. reflexivity. Defined.

Lemma discovered_resolves_witness :
  let rel := ["packages"; "x86_64-linux"; "cowsay"] in
  Matches flake ["packages"; "*"] rel (Drv "bbb-cowsay.drv") /\
  walker_resolve flake (attr_path rel) = Ok ("bbb-cowsay.drv", []).
Proof.
  intros rel.
  assert (Hm : Matches flake ["packages"; "*"] rel (Drv "bbb-cowsay.drv")).
  { eapply match_name; [by intros [|]|reflexivity|]. eapply match_star_two.
    - eexists. split; [reflexivity|]. split; [right; left|reflexivity].
    - intros H. vm_compute in H. discriminate H.
    - intros H. vm_compute in H. discriminate H.
    - eexists. split; [reflexivity|]. split; [right; left|reflexivity]. }
  split; [exact Hm|]. rewrite (discovered_resolves flake ["packages"; "*"] rel (Drv "bbb-cowsay.drv")); [reflexivity|exact Hm|discriminate|].
  repeat constructor.
Defined.

(** The package the quoted exclusion names is still discovered, and does not resolve. *)
Lemma dotted_names_lost_witness :
  let names := ["packages"; "x86_64-linux"; "python3.12"] in
  discover flake [["packages"; "*"]] [names] = discover flake [["packages"; "*"]] [] /\
  "packages.x86_64-linux.python3.12" ∈ (discover flake [["packages"; "*"]] [names]).1 /\
  is_ok (walker_resolve flake "packages.x86_64-linux.python3.12") = false /\
  exists segs, segs <> names.
Proof.
  intros names. assert (Hd : Exists (fun s => dotted s = true) names) by (right; right; left; reflexivity).
  destruct (dotted_names_lost flake [["packages"; "*"]] [] names Hd) as [Hx (segs & Hs & _)].
  split_and!; [exact Hx| |vm_compute; reflexivity|exists segs; exact Hs].
  apply (bool_decide_eq_true_1 (_ ∈ _)). vm_compute. reflexivity.
Defined.
