(* ===== verification/Glob.v ===== *)
(** * Globs over flake input names

    [backend/gradient-util/src/glob.rs]: glob matching and the resolution of a project's
    input overrides against the inputs its flake declares; and what both mean. *)

From S2P Require Import Prelude RustStr RustText.

Local Open Scope string_scope.

(** ** Characters *)

(** A continuation byte of UTF-8. *)
Definition is_continuation (b : ascii) : bool := in_range 128 191 b.

Definition push_byte (b : ascii) (cs : list string) : list string :=
  match cs with
  | String c cs' :: rest => if is_continuation c then String b (String c cs') :: rest else String b "" :: cs
  | _ => String b "" :: cs
  end.

(** [str::chars], every character as the bytes that encode it. *)
Fixpoint chars (s : string) : list string :=
  match s with
  | "" => []
  | String b s' => push_byte b (chars s')
  end.

(** ** Matching *)

Definition is_meta (c : string) : bool := String.eqb c "*" || String.eqb c "?" || String.eqb c "[".

Definition is_pattern (name : string) : bool := existsb is_meta (chars name).

Fixpoint literal_prefix (cs : list string) : nat :=
  match cs with
  | c :: cs' => if is_meta c then 0%nat else S (literal_prefix cs')
  | [] => 0%nat
  end.

Definition literal_prefix_len (pattern : string) : nat := literal_prefix (chars pattern).

Fixpoint matches_from (p c : list string) {struct p} : bool :=
  match p with
  | [] => match c with [] => true | _ => false end
  | ch :: p' =>
      if String.eqb ch "*" then
        (fix star (c : list string) : bool :=
           matches_from p' c || match c with [] => false | _ :: c' => star c' end) c
      else if String.eqb ch "?" then match c with [] => false | _ :: c' => matches_from p' c' end
      else match c with x :: c' => String.eqb x ch && matches_from p' c' | [] => false end
  end.

Definition glob_match (pattern candidate : string) : bool := matches_from (chars pattern) (chars candidate).

(** ** Overrides *)

(** An input name or pattern, and the url to pin it to. *)
Definition Override : Type := string * option string.

Definition missing_input_warning (n : string) : string :=
  "flake input '" ++ n ++ "' does not exist in this project's flake - override skipped".
Definition unmatched_warning (pat : string) : string := "override pattern '" ++ pat ++ "' matched no flake inputs".
Definition conflict_warning (input : string) : string :=
  "flake input '" ++ input ++ "' matched by conflicting override patterns - skipped".

(** The best glob so far - its literal prefix and url - and whether another one ties with it. *)
Definition weigh_glob (input : string) (acc : option (nat * option string) * bool) (g : Override)
    : option (nat * option string) * bool :=
  if glob_match g.1 input then
    let spec := literal_prefix_len g.1 in
    match acc.1 with
    | Some (bspec, burl) =>
        if Nat.eqb spec bspec && negb (bool_decide (burl = g.2)) then (acc.1, true)
        else if Nat.ltb bspec spec then (Some (spec, g.2), false)
        else acc
    | None => (Some (spec, g.2), acc.2)
    end
  else acc.

Definition best_glob (globs : list Override) (input : string) : option (nat * option string) * bool :=
  foldl (weigh_glob input) (None, false) globs.

(** What becomes of one declared input: its override, or the warning that it has none. *)
Definition expand_input (literals globs : list Override) (input : string) : list Override * list string :=
  match List.find (fun l => String.eqb l.1 input) literals with
  | Some l => ([(input, l.2)], [])
  | None =>
      match best_glob globs input with
      | (Some (_, url), false) => ([(input, url)], [])
      | (Some _, true) => ([], [conflict_warning input])
      | (None, _) => ([], [])
      end
  end.

(** [declared] is iterated in byte order, as the [BTreeSet] is. *)
Definition expand_overrides (raw : list Override) (declared : gset string) : list Override * list string :=
  let literals := List.filter (fun o => negb (is_pattern o.1)) raw in
  let globs := List.filter (fun o => is_pattern o.1) raw in
  let inputs := sort_by String.compare (elements declared) in
  let w1 := map (fun o => missing_input_warning o.1)
              (List.filter (fun o => negb (bool_decide (o.1 ∈ declared))) literals) in
  let w2 := map (fun o => unmatched_warning o.1)
              (List.filter (fun o => negb (existsb (glob_match o.1) inputs)) globs) in
  let per_input := map (expand_input literals globs) inputs in
  (concat (map fst per_input), (w1 ++ w2 ++ concat (map snd per_input))%list).

(** ** What a glob means *)

Inductive Globs : list string -> list string -> Prop :=
| globs_nil : Globs [] []
| globs_star p c c' : Globs p c' -> Globs ("*" :: p) (c ++ c')%list
| globs_any p x c : Globs p c -> Globs ("?" :: p) (x :: c)
| globs_char p x c : x <> "*" -> x <> "?" -> Globs p c -> Globs (x :: p) (x :: c).

Lemma matches_star p c :
  matches_from ("*" :: p) c = matches_from p c || match c with [] => false | _ :: c' => matches_from ("*" :: p) c' end.
Proof. by destruct c. Qed.

Lemma matches_star_split p c :
  matches_from ("*" :: p) c = true <-> exists c1 c2, c = (c1 ++ c2)%list /\ matches_from p c2 = true.
Proof.
  induction c as [|x c IH].
  - rewrite matches_star, orb_false_r. split; [intros Hm; by exists [], []|].
    intros (c1 & c2 & Hc & Hm). symmetry in Hc. apply app_nil in Hc as [-> ->]. done.
  - rewrite matches_star, orb_true_iff, IH. split.
    + intros [Hm|(c1 & c2 & -> & Hm)]; [by exists [], (x :: c)|by exists (x :: c1), c2].
    + intros ([|y c1] & c2 & Hc & Hm); simplify_eq/=; [by left|right; by exists c1, c2].
Qed.

(** The matcher decides the relation: [*] stands for any run of characters, also for none,
    [?] for exactly one, and every other character - [[] included - for itself. *)
Theorem glob_match_exact pattern candidate :
  glob_match pattern candidate = true <-> Globs (chars pattern) (chars candidate).
Proof.
  unfold glob_match. generalize (chars candidate) as c. generalize (chars pattern) as p. clear pattern candidate.
  induction p as [|ch p IH]; intros c.
  { split; [destruct c; [constructor|done]|by inversion 1]. }
  destruct (String.eqb_spec ch "*") as [->|Hs].
  { rewrite matches_star_split. split.
    - intros (c1 & c2 & -> & Hm). constructor. by apply IH.
    - inversion 1; subst; [|done]. eexists _, _. split; [done|by apply IH]. }
  cbn [matches_from]. rewrite (proj2 (String.eqb_neq _ _) Hs).
  destruct (String.eqb_spec ch "?") as [->|Hq].
  - split; [destruct c; [done|]; intros Hm; constructor; by apply IH|].
    inversion 1; subst; [by apply IH|done].
  - split.
    + destruct c as [|x c]; [done|]. intros [Hx%String.eqb_eq Hm]%andb_true_iff. subst x.
      constructor; [done..|by apply IH].
    + inversion 1; subst; [done..|]. rewrite String.eqb_refl. by apply IH.
Qed.

(** ** What the overrides resolve to *)

(** [g] is a glob for [input] no other one is more specific than. *)
Definition most_specific (globs : list Override) (input : string) (g : Override) : Prop :=
  g ∈ globs /\ glob_match g.1 input = true /\
  forall g', g' ∈ globs -> glob_match g'.1 input = true -> (literal_prefix_len g'.1 <= literal_prefix_len g.1)%nat.

Definition best_spec (globs : list Override) (input : string) (r : option (nat * option string) * bool) : Prop :=
  match r with
  | (None, tie) => tie = false /\ forall g, g ∈ globs -> glob_match g.1 input = false
  | (Some (spec, url), tie) =>
      (exists g, most_specific globs input g /\ literal_prefix_len g.1 = spec /\ g.2 = url) /\
      (tie = false <-> forall g, most_specific globs input g -> g.2 = url)
  end.

Lemma most_specific_skip globs input g g0 :
  glob_match g0.1 input = false -> most_specific (globs ++ [g0])%list input g <-> most_specific globs input g.
Proof.
  intros Hn. unfold most_specific. setoid_rewrite elem_of_app. setoid_rewrite list_elem_of_singleton.
  split; intros (Hg & Hm & Hmax).
  - destruct Hg as [Hg| ->]; [|congruence]. split_and!; [done..|]. intros g' Hg'. apply Hmax. by left.
  - split_and!; [by left|done|]. intros g' [Hg'|Hg'] Hm'; [by apply Hmax|subst; congruence].
Qed.

Lemma most_specific_app globs input g0 g b :
  glob_match g0.1 input = true -> most_specific globs input b ->
  most_specific (globs ++ [g0])%list input g <->
  (most_specific globs input g /\ (literal_prefix_len g0.1 <= literal_prefix_len b.1)%nat) \/
  (g = g0 /\ (literal_prefix_len b.1 <= literal_prefix_len g0.1)%nat).
Proof.
  intros Hm0 (Hb & Hbm & Hbmax). unfold most_specific. setoid_rewrite elem_of_app. setoid_rewrite list_elem_of_singleton.
  split.
  - intros ([Hg| ->] & Hm & Hmax).
    + left. assert (Hle := Hbmax g Hg Hm). assert (H0 := Hmax g0 (or_intror eq_refl) Hm0).
      split_and!; [done|done| |lia]. intros g' Hg'. apply Hmax. by left.
    + right. split; [done|]. apply Hmax; [by left|done].
  - intros [((Hg & Hm & Hmax) & Hle)|[-> Hle]]; (split_and!; [auto|done|]); intros g' [Hg'|Hg'] Hm'; auto.
    + subst g'. assert (H1 := Hmax b Hb Hbm). lia.
    + assert (H1 := Hbmax g' Hg' Hm'). lia.
    + by subst.
Qed.

Lemma best_glob_spec globs input : best_spec globs input (best_glob globs input).
Proof.
  unfold best_glob. induction globs as [|g0 globs IH] using rev_ind.
  { split; [done|]. intros g Hg. by apply elem_of_nil in Hg. }
  rewrite foldl_app. simpl. destruct (foldl _ _ globs) as [best tie]. unfold weigh_glob. simpl.
  destruct (glob_match g0.1 input) eqn:Hm0.
  2: { destruct best as [[spec url]|]; simpl in *.
       - setoid_rewrite most_specific_skip; done.
       - destruct IH as [-> IH]. split; [done|]. intros g [Hg|Hg%list_elem_of_singleton]%elem_of_app; [auto|by subst]. }
  destruct best as [[spec url]|]; simpl in *.
  - destruct IH as [(b & Hb & <- & <-) Htie]. assert (Happ := fun g => most_specific_app globs input g0 g b Hm0 Hb).
    destruct (Nat.eqb_spec (literal_prefix_len g0.1) (literal_prefix_len b.1)) as [He|He]; simpl.
    + case_bool_decide as Hu; simpl.
      * replace (Nat.ltb _ _) with false by (symmetry; apply Nat.ltb_ge; lia). simpl. split.
        { exists b. split_and!; [|done..]. apply Happ. left. split; [done|lia]. }
        rewrite Htie. split; intros Hall g Hg.
        -- apply Happ in Hg as [[Hg _]|[-> _]]; [by apply Hall|done].
        -- apply Hall, Happ. left. split; [done|lia].
      * split; [exists b; split_and!; [|done..]; apply Happ; left; split; [done|lia]|].
        split; [done|]. intros Hall. exfalso. apply Hu. symmetry. apply Hall, Happ. right. split; [done|lia].
    + destruct (Nat.ltb_spec (literal_prefix_len b.1) (literal_prefix_len g0.1)); simpl.
      * split; [exists g0; split_and!; [|done..]; apply Happ; right; split; [done|lia]|].
        split; [|done]. intros _ g Hg. apply Happ in Hg as [[_ ?]|[-> _]]; [lia|done].
      * split; [exists b; split_and!; [|done..]; apply Happ; left; split; [done|lia]|].
        rewrite Htie. split; intros Hall g Hg.
        -- apply Happ in Hg as [[Hg _]|[_ ?]]; [auto|lia].
        -- apply Hall, Happ. left. split; [done|lia].
  - destruct IH as [-> Hnone].
    assert (Hg : forall g, most_specific (globs ++ [g0])%list input g <-> g = g0).
    { intros g. unfold most_specific. setoid_rewrite elem_of_app. setoid_rewrite list_elem_of_singleton. split.
      - intros ([Hg| ->] & Hm & _); [|done]. rewrite Hnone in Hm; done.
      - intros ->. split_and!; [by right|done|]. intros g' [Hg'|Hg'] Hm'; [by rewrite Hnone in Hm'|by subst]. }
    split; [exists g0; split_and!; [by apply Hg|done..]|]. split; [|done]. intros _ g Hgg. apply Hg in Hgg. by subst.
Qed.

(** The url an input is pinned to, as the comment states it: the first literal entry wins over
    any glob; without one the most specific globs decide, when they agree. *)
Definition resolves_to (raw : list Override) (input : string) (url : option string) : Prop :=
  let literals := List.filter (fun o => negb (is_pattern o.1)) raw in
  let globs := List.filter (fun o => is_pattern o.1) raw in
  match List.find (fun l => String.eqb l.1 input) literals with
  | Some l => url = l.2
  | None => (exists g, most_specific globs input g /\ g.2 = url) /\ forall g, most_specific globs input g -> g.2 = url
  end.

Lemma expand_input_spec raw input o :
  let literals := List.filter (fun o => negb (is_pattern o.1)) raw in
  let globs := List.filter (fun o => is_pattern o.1) raw in
  o ∈ (expand_input literals globs input).1 <-> o.1 = input /\ resolves_to raw input o.2.
Proof.
  cbv zeta. unfold expand_input, resolves_to. destruct (List.find _ _) as [l|].
  { simpl. rewrite list_elem_of_singleton. destruct o. naive_solver. }
  assert (Hb := best_glob_spec (List.filter (fun o => is_pattern o.1) raw) input).
  destruct (best_glob _ input) as [[[spec url]|] tie]; simpl in Hb.
  - destruct Hb as [(g & Hg & _ & Hu) Htie]. destruct tie; simpl.
    + split; [by intros ?%elem_of_nil|]. intros (_ & (g' & Hg' & Hu') & Hall). exfalso.
      enough (true = false) by done. apply Htie. intros g'' Hg''. rewrite (Hall g'' Hg''). subst url. symmetry. by apply Hall.
    + rewrite list_elem_of_singleton. assert (Hall := proj1 Htie eq_refl). split.
      * intros ->. simpl. split_and!; [done|by exists g|done].
      * intros (Hi & (g' & Hg' & Hu') & _). destruct o as [i u]. simpl in *. subst i. by rewrite <- Hu', (Hall g' Hg').
  - destruct Hb as [_ Hn]. simpl. split; [by intros ?%elem_of_nil|].
    intros (_ & (g & (Hg & Hm & _) & _) & _). rewrite Hn in Hm; done.
Qed.

(** Overrides resolve as documented: the expansion lists exactly the declared inputs with an
    override, each with the url it resolves to, and no input twice. *)
Theorem expand_overrides_exact raw declared :
  (forall input url, (input, url) ∈ (expand_overrides raw declared).1 <->
     input ∈ declared /\ resolves_to raw input url) /\
  NoDup (map fst (expand_overrides raw declared).1).
Proof.
  unfold expand_overrides. simpl. set (inputs := sort_by String.compare (elements declared)).
  assert (Hin : forall x, x ∈ inputs <-> x ∈ declared) by (intros x; unfold inputs; by rewrite sort_by_elem, elem_of_elements).
  assert (Hnd : NoDup inputs) by (unfold inputs; rewrite sort_by_perm; apply NoDup_elements).
  split.
  - intros input url. rewrite list_elem_of_In, in_concat. setoid_rewrite <- list_elem_of_In. rewrite <- Hin. split.
    + intros (l & Hl & Ho). rewrite map_map in Hl. apply list_elem_of_fmap in Hl as (i & -> & Hi).
      apply expand_input_spec in Ho as [<- Hr]. done.
    + intros [Hi Hr]. eexists. split; [rewrite map_map; apply list_elem_of_fmap; by exists input|].
      by apply expand_input_spec.
  - clear Hin. induction inputs as [|i inputs IH]; simpl; [constructor|].
    apply NoDup_cons in Hnd as [Hi Hnd]. rewrite map_app. apply NoDup_app. split_and!; [| |by apply IH].
    + unfold expand_input. destruct (List.find _ _); [apply NoDup_singleton|].
      destruct (best_glob _ i) as [[[] |] []]; try apply NoDup_nil_2; apply NoDup_singleton.
    + intros x Hx Hx'. apply list_elem_of_fmap in Hx as (o & -> & Ho). apply expand_input_spec in Ho as [Ho _].
      apply list_elem_of_fmap in Hx' as (o' & Heq & Ho'). apply list_elem_of_In, in_concat in Ho' as (l & Hl & Ho').
      apply list_elem_of_In in Hl, Ho'. rewrite map_map in Hl. apply list_elem_of_fmap in Hl as (i' & -> & Hi').
      apply expand_input_spec in Ho' as [Ho' _]. congruence.
Qed.

Example glob_examples :
  map (fun x => glob_match x.1 x.2)
    [("nixpkgs*", "nixpkgs"); ("nixpkgs*", "nixpkgs-unstable"); ("nix?", "nixa"); ("nix?", "nix"); ("*-*", "a-b-c")]
  = [true; true; true; false; true].
Proof. reflexivity. Qed.
