(* ===== verification/CiState.v ===== *)
(** * The tables of continuous integration

    Projects, triggers, commits and the columns of [evaluation] the build graph does not
    read ([backend/gradient-entity/src/]), trigger configurations
    ([gradient-types/src/triggers.rs]), and the questions the parking gates ask about an
    organization ([gradient-db/src/org_cache.rs], [cache_storage.rs], [org_workers.rs],
    [base_workers.rs]).

    The JSON columns hold the value they encode. Rows are listed in the order a query
    returns them. *)

From S2P Require Import Prelude Status ScoreContext JobData EdgeStream BuildGraph Promotion Transitions Access Glob.

Local Open Scope Z_scope.

Abbreviation TriggerId := N.
Abbreviation IntegrationId := N.

(** ** Enumerations *)

Inductive ConcurrencyPolicy := HardAbort | SoftAbort | AllowAll | SkipNew.

Definition i16_of_policy (p : ConcurrencyPolicy) : Z :=
  match p with HardAbort => 0 | SoftAbort => 1 | AllowAll => 2 | SkipNew => 3 end.

(** [TryFromPrimitive] *)
Definition policy_of_i16 (z : Z) : option ConcurrencyPolicy :=
  match z with 0 => Some HardAbort | 1 => Some SoftAbort | 2 => Some AllowAll | 3 => Some SkipNew | _ => None end.

Inductive TriggerType := TypePolling | TypeReporterPush | TypeReporterPullRequest | TypeTime.

#[export] Instance TriggerType_eq_dec : EqDecision TriggerType.
Proof. solve_decision. Defined.

Definition i16_of_trigger_type (t : TriggerType) : Z :=
  match t with TypePolling => 0 | TypeReporterPush => 1 | TypeReporterPullRequest => 2 | TypeTime => 3 end.

Definition trigger_type_of_i16 (z : Z) : option TriggerType :=
  match z with
  | 0 => Some TypePolling | 1 => Some TypeReporterPush | 2 => Some TypeReporterPullRequest | 3 => Some TypeTime
  | _ => None
  end.

(** The number is what the column stores: reading back what was written gives the same value. *)
Lemma policy_codec p z : policy_of_i16 z = Some p <-> z = i16_of_policy p.
Proof. split; [|intros ->; by destruct p]. destruct z as [|[[|[]|]|[|[]|]|]|]; try done; by intros [= <-]. Qed.

Lemma trigger_type_codec t z : trigger_type_of_i16 z = Some t <-> z = i16_of_trigger_type t.
Proof. split; [|intros ->; by destruct t]. destruct z as [|[[|[]|]|[|[]|]|]|]; try done; by intros [= <-]. Qed.

Inductive CacheSubscriptionMode := ReadWrite | ReadOnly | WriteOnly.

Inductive ActionType := ActSendMail | ActSendWebRequest | ActForgeStatusReport | ActOpenPr.

#[export] Instance ActionType_eq_dec : EqDecision ActionType.
Proof. solve_decision. Defined.

Inductive PrGranularity := PerRun | PerInput.

(** ** Trigger configurations ([triggers.rs]) *)

Inductive TriggerConfig :=
| CfgPolling (interval_secs : Z) (branch : option string)
| CfgReporterPush (integration_id : IntegrationId) (branches tags : list string) (releases_only : bool)
| CfgReporterPullRequest (integration_id : IntegrationId) (branches actions : list string) (require_approval : bool)
| CfgTime (cron : string).

Definition default_pr_actions : list string := ["opened"; "synchronize"; "reopened"]%string.
Definition default_require_approval : bool := true.

Inductive TriggerConfigError :=
| PollingIntervalTooSmall
| InvalidCron (message : string)
| MalformedConfig.

Definition trigger_type_of (c : TriggerConfig) : TriggerType :=
  match c with
  | CfgPolling _ _ => TypePolling | CfgReporterPush _ _ _ _ => TypeReporterPush
  | CfgReporterPullRequest _ _ _ _ => TypeReporterPullRequest | CfgTime _ => TypeTime
  end.

(** [NULL_TIME], the epoch, and [- Duration::days(1)]. *)
Class Calendar `{Chrono} := {
  NULL_TIME : NaiveDateTime;
  one_day_before : NaiveDateTime -> NaiveDateTime;
}.

(** The [cron] crate. *)
Class CronLib `{Chrono} := {
  Schedule : Type;
  parse_schedule : string -> result Schedule string;
  schedule_after : Schedule -> NaiveDateTime -> option NaiveDateTime;
}.

(** The [config] column with the row's [trigger_type] put in as its tag, read by [serde_json]. *)
Class TriggerCodec := {
  ConfigJson : Type;
  serde_from_tagged : TriggerType -> ConfigJson -> option TriggerConfig;
  serde_to_untagged : TriggerConfig -> ConfigJson;
}.

Section configs.
Context `{CH : Chrono} `{!CronLib} `{!TriggerCodec}.

Definition trigger_validate (c : TriggerConfig) : result () TriggerConfigError :=
  match c with
  | CfgPolling interval_secs _ => if interval_secs <? 10 then Err PollingIntervalTooSmall else Ok tt
  | CfgTime cron => match parse_schedule cron with Ok _ => Ok tt | Err m => Err (InvalidCron m) end
  | _ => Ok tt
  end.

Definition parse_row (t : TriggerType) (config : ConfigJson) : result TriggerConfig TriggerConfigError :=
  match serde_from_tagged t config with
  | None => Err MalformedConfig
  | Some parsed => let? _ := trigger_validate parsed in Ok parsed
  end.

Definition to_db_json (c : TriggerConfig) : ConfigJson := serde_to_untagged c.

(** A configuration that validates is read back from the row it was written to, and a row
    never yields one that does not validate. *)
Lemma trigger_row_roundtrip (Hserde : forall c, serde_from_tagged (trigger_type_of c) (serde_to_untagged c) = Some c) c :
  parse_row (trigger_type_of c) (to_db_json c) = let? _ := trigger_validate c in Ok c.
Proof. unfold parse_row, to_db_json. by rewrite Hserde. Qed.

Lemma parse_row_valid t config c : parse_row t config = Ok c -> trigger_validate c = Ok tt.
Proof.
  unfold parse_row. destruct (serde_from_tagged t config) as [c'|]; [|done].
  intros ([] & Hv & [= ->])%result_bind_ok. done.
Qed.

End configs.

(** ** Rows *)

(** What [evaluation.source_comment] names: a comment, or only its pull request. *)
Inductive SourceComment :=
| CommentSource (owner repo : string) (pr_number comment_id : Z)
| PullRequestSource (pr_number : Z) (pr_author : option string).

Section tables.
Context `{CH : Chrono} `{!TriggerCodec}.

Record ProjectRow := {
  pj_organization : OrganizationId;
  pj_name : string;
  pj_active : bool;
  pj_repository : string;
  pj_wildcard : string;
  pj_last_evaluation : option EvaluationId;
  pj_last_check_at : NaiveDateTime;
  pj_force_evaluation : bool;
  pj_concurrency : ConcurrencyPolicy;
}.

Record CommitRow := { cm_hash : string; cm_message : string; cm_author_name : string }.

(** The columns of [evaluation] besides those of [EvaluationRow]. *)
Record EvalColumns := {
  ec_repository : string;
  ec_commit : CommitId;
  ec_wildcard : string;
  ec_previous : option EvaluationId;
  ec_created_at : NaiveDateTime;
  ec_flake_source : option string;
  ec_trigger : option TriggerId;
  ec_started_by : option UserId;
  ec_concurrent : bool;
  ec_source_comment : option SourceComment;
}.

Record TriggerRow := {
  tr_id : TriggerId;
  tr_project : ProjectId;
  tr_type : TriggerType;
  tr_config : ConfigJson;
  tr_active : bool;
  tr_last_fired_at : option NaiveDateTime;
  tr_updated_at : NaiveDateTime;
}.

(** [act_granularity] is the granularity of an [OpenPr] configuration that parses. *)
Record ActionRow := {
  act_project : ProjectId;
  act_active : bool;
  act_type : ActionType;
  act_granularity : option PrGranularity;
}.

Record InputUpdateRow := {
  iur_evaluation : EvaluationId;
  iur_base_commit : string;
  iur_generator : string;
  iur_target_inputs : list string;
  iur_discover_only : bool;
}.

(** [ci_next] supplies the ids [now_v7] makes up. *)
Record CiDb := {
  ci_store : Store;
  ci_columns : gmap EvaluationId EvalColumns;
  ci_projects : gmap ProjectId ProjectRow;
  ci_commits : gmap CommitId CommitRow;
  ci_triggers : list TriggerRow;
  ci_overrides : list (ProjectId * Override);
  ci_eval_overrides : list (EvaluationId * Override);
  ci_actions : list ActionRow;
  ci_input_updates : list InputUpdateRow;
  ci_next : N;
}.

Definition evaluations_of (s : CiDb) : gmap EvaluationId EvaluationRow := t_evaluations (st_db (ci_store s)).

Definition set_store (s : CiDb) (w : Store) : CiDb := {|
  ci_store := w; ci_columns := ci_columns s; ci_projects := ci_projects s; ci_commits := ci_commits s;
  ci_triggers := ci_triggers s; ci_overrides := ci_overrides s; ci_eval_overrides := ci_eval_overrides s;
  ci_actions := ci_actions s; ci_input_updates := ci_input_updates s; ci_next := ci_next s |}.

Definition set_columns (s : CiDb) (m : gmap EvaluationId EvalColumns) : CiDb := {|
  ci_store := ci_store s; ci_columns := m; ci_projects := ci_projects s; ci_commits := ci_commits s;
  ci_triggers := ci_triggers s; ci_overrides := ci_overrides s; ci_eval_overrides := ci_eval_overrides s;
  ci_actions := ci_actions s; ci_input_updates := ci_input_updates s; ci_next := ci_next s |}.

Definition set_ci_projects (s : CiDb) (m : gmap ProjectId ProjectRow) : CiDb := {|
  ci_store := ci_store s; ci_columns := ci_columns s; ci_projects := m; ci_commits := ci_commits s;
  ci_triggers := ci_triggers s; ci_overrides := ci_overrides s; ci_eval_overrides := ci_eval_overrides s;
  ci_actions := ci_actions s; ci_input_updates := ci_input_updates s; ci_next := ci_next s |}.

Definition set_triggers (s : CiDb) (l : list TriggerRow) : CiDb := {|
  ci_store := ci_store s; ci_columns := ci_columns s; ci_projects := ci_projects s; ci_commits := ci_commits s;
  ci_triggers := l; ci_overrides := ci_overrides s; ci_eval_overrides := ci_eval_overrides s;
  ci_actions := ci_actions s; ci_input_updates := ci_input_updates s; ci_next := ci_next s |}.

Definition set_eval_overrides (s : CiDb) (l : list (EvaluationId * Override)) : CiDb := {|
  ci_store := ci_store s; ci_columns := ci_columns s; ci_projects := ci_projects s; ci_commits := ci_commits s;
  ci_triggers := ci_triggers s; ci_overrides := ci_overrides s; ci_eval_overrides := l;
  ci_actions := ci_actions s; ci_input_updates := ci_input_updates s; ci_next := ci_next s |}.

Definition set_input_updates (s : CiDb) (l : list InputUpdateRow) : CiDb := {|
  ci_store := ci_store s; ci_columns := ci_columns s; ci_projects := ci_projects s; ci_commits := ci_commits s;
  ci_triggers := ci_triggers s; ci_overrides := ci_overrides s; ci_eval_overrides := ci_eval_overrides s;
  ci_actions := ci_actions s; ci_input_updates := l; ci_next := ci_next s |}.

Definition set_evals (s : CiDb) (m : gmap EvaluationId EvaluationRow) : CiDb :=
  set_store s (on_db (ci_store s) (set_evaluations (st_db (ci_store s)) m)).

Definition insert_commit (s : CiDb) (c : CommitRow) : CiDb * CommitId :=
  ({| ci_store := ci_store s; ci_columns := ci_columns s; ci_projects := ci_projects s;
      ci_commits := <[ci_next s := c]> (ci_commits s);
      ci_triggers := ci_triggers s; ci_overrides := ci_overrides s; ci_eval_overrides := ci_eval_overrides s;
      ci_actions := ci_actions s; ci_input_updates := ci_input_updates s; ci_next := N.succ (ci_next s) |}, ci_next s).

Inductive DbErr := UniqueOneActive | ForeignKeyPrevious.

(** [uq_evaluation_one_active_per_project] counts these rows. *)
Definition indexed (s : CiDb) (p : ProjectId) (ev : EvaluationId) (e : EvaluationRow) : bool :=
  bool_decide (ev_project e = Some p) && eval_is_active (ev_status e)
  && match ci_columns s !! ev with Some c => negb (ec_concurrent c) | None => true end.

Definition one_active_taken (s : CiDb) (p : ProjectId) : bool :=
  existsb (fun x => indexed s p x.1 x.2) (map_to_list (evaluations_of s)).

(** [INSERT INTO evaluation], with the unique index and the foreign key of [previous]. *)
Definition insert_evaluation (s : CiDb) (e : EvaluationRow) (c : EvalColumns) : result (CiDb * EvaluationId) DbErr :=
  if eval_is_active (ev_status e) && negb (ec_concurrent c)
     && match ev_project e with Some p => one_active_taken s p | None => false end
  then Err UniqueOneActive
  else if match ec_previous c with Some p => negb (bool_decide (is_Some (evaluations_of s !! p))) | None => false end
  then Err ForeignKeyPrevious
  else
    let id := ci_next s in
    let t := st_db (ci_store s) in
    Ok ({| ci_store := on_db (ci_store s) (set_evaluations t (<[id := e]> (t_evaluations t)));
           ci_columns := <[id := c]> (ci_columns s); ci_projects := ci_projects s; ci_commits := ci_commits s;
           ci_triggers := ci_triggers s; ci_overrides := ci_overrides s; ci_eval_overrides := ci_eval_overrides s;
           ci_actions := ci_actions s; ci_input_updates := ci_input_updates s; ci_next := N.succ id |}, id).

Definition update_project (s : CiDb) (p : ProjectId) (f : ProjectRow -> ProjectRow) : CiDb :=
  set_ci_projects s (alter f p (ci_projects s)).

(** The rows of a project that are [ACTIVE]. *)
Definition active_evaluations (s : CiDb) (p : ProjectId) : list (EvaluationId * EvaluationRow) :=
  List.filter (fun x => bool_decide (ev_project x.2 = Some p) && bool_decide (ev_status x.2 ∈ EVAL_ACTIVE))
    (map_to_list (evaluations_of s)).

End tables.

(** ** What an organization can use *)

Record OrgCacheRow := { ocr_organization : OrganizationId; ocr_cache : CacheId; ocr_mode : CacheSubscriptionMode }.
(** [cr_used]: the bytes [cache_used_bytes] sums up. *)
Record CacheRow := { cr_id : CacheId; cr_active : bool; cr_max_storage_gb : Z; cr_used : Z }.
Record RegistrationRow := { rg_peer : OrganizationId; rg_active : bool; rg_enable_eval : bool }.
Record BaseWorkerRow := { bwr_id : N; bwr_enabled : bool; bwr_enable_eval : bool }.

Record OrgTables := {
  ot_subscriptions : list OrgCacheRow;
  ot_caches : list CacheRow;
  ot_instance_used : Z;
  ot_registrations : list RegistrationRow;
  ot_base_workers : list BaseWorkerRow;
  ot_org_base_workers : list (OrganizationId * N);
}.

Definition STORAGE_HEADROOM_BYTES : Z := 10 * 1024 * 1024.
Definition BYTES_PER_GB : Z := 1024 * 1024 * 1024.
Definition MAX_I64 : Z := 2 ^ 63 - 1.

Definition writable (m : CacheSubscriptionMode) : bool := match m with ReadOnly => false | _ => true end.

(** The writable subscriptions' caches. *)
Definition subscribed_cache_ids (o : OrgTables) (org : OrganizationId) : list CacheId :=
  map ocr_cache (List.filter (fun r => N.eqb (ocr_organization r) org && writable (ocr_mode r)) (ot_subscriptions o)).

Definition org_writable_caches (o : OrgTables) (org : OrganizationId) : list CacheRow :=
  match subscribed_cache_ids o org with
  | [] => []
  | ids => List.filter (fun c => bool_decide (cr_id c ∈ ids) && cr_active c) (ot_caches o)
  end.

Definition org_has_writable_cache (o : OrgTables) (org : OrganizationId) : bool :=
  match subscribed_cache_ids o org with
  | [] => false
  | ids => existsb (fun c => bool_decide (cr_id c ∈ ids) && cr_active c) (ot_caches o)
  end.

Definition limit_to_bytes (max_storage_gb : Z) : option Z :=
  if max_storage_gb <=? 0 then None else Some (max_storage_gb * BYTES_PER_GB).

Definition headroom (cache_limit_gb cache_used instance_limit_gb instance_used : Z) : Z :=
  let cache_free := default MAX_I64 (option_map (fun lim => lim - cache_used) (limit_to_bytes cache_limit_gb)) in
  let instance_free := default MAX_I64 (option_map (fun lim => lim - instance_used) (limit_to_bytes instance_limit_gb)) in
  Z.min cache_free instance_free.

Definition org_caches_all_full (o : OrgTables) (org : OrganizationId) (instance_limit_gb : Z) : bool :=
  match org_writable_caches o org with
  | [] => false
  | caches =>
      forallb (fun c => headroom (cr_max_storage_gb c) (cr_used c) instance_limit_gb (ot_instance_used o)
                          <? STORAGE_HEADROOM_BYTES) caches
  end.

Definition org_has_eval_capable_base_worker (o : OrgTables) (org : OrganizationId) : bool :=
  match map snd (List.filter (fun x => N.eqb x.1 org) (ot_org_base_workers o)) with
  | [] => false
  | ids => existsb (fun b => bool_decide (bwr_id b ∈ ids) && bwr_enabled b && bwr_enable_eval b) (ot_base_workers o)
  end.

Definition org_has_eval_capable_worker_registration (o : OrgTables) (org : OrganizationId) : bool :=
  existsb (fun r => N.eqb (rg_peer r) org && rg_active r && rg_enable_eval r) (ot_registrations o)
  || org_has_eval_capable_base_worker o org.

(** The cache gate and the storage gate ask about the same caches. *)
Lemma org_has_writable_cache_spec o org :
  org_has_writable_cache o org = negb (bool_decide (org_writable_caches o org = [])).
Proof.
  unfold org_has_writable_cache, org_writable_caches. destruct (subscribed_cache_ids o org) as [|i ids]; [done|].
  generalize (fun c => bool_decide (cr_id c ∈ i :: ids) && cr_active c) as f. intros f.
  induction (ot_caches o) as [|c l IH]; simpl; [done|]. by destruct (f c).
Qed.

(** The storage gate parks only when there is a writable cache and none of them has room,
    for limits and usage a 64-bit counter can hold. *)
Lemma org_caches_all_full_spec o org lim :
  org_caches_all_full o org lim = true <->
  org_writable_caches o org <> [] /\
  forall c, c ∈ org_writable_caches o org ->
    (0 < cr_max_storage_gb c /\ cr_max_storage_gb c * BYTES_PER_GB < cr_used c + STORAGE_HEADROOM_BYTES) \/
    (0 < lim /\ lim * BYTES_PER_GB < ot_instance_used o + STORAGE_HEADROOM_BYTES).
Proof.
  unfold org_caches_all_full. destruct (org_writable_caches o org) as [|c0 cs]; [naive_solver|].
  rewrite forallb_forall. setoid_rewrite <- list_elem_of_In. split.
  - intros Hall. split; [done|]. intros c Hc. specialize (Hall c Hc). apply Z.ltb_lt in Hall.
    unfold headroom, limit_to_bytes, MAX_I64, STORAGE_HEADROOM_BYTES in *.
    destruct (Z.leb_spec (cr_max_storage_gb c) 0), (Z.leb_spec lim 0); simpl in Hall; lia.
  - intros [_ Hall] c Hc. specialize (Hall c Hc). apply Z.ltb_lt.
    unfold headroom, limit_to_bytes, MAX_I64, STORAGE_HEADROOM_BYTES in *.
    destruct (Z.leb_spec (cr_max_storage_gb c) 0), (Z.leb_spec lim 0); simpl; lia.
Qed.
