(* ===== verification/Triggering.v ===== *)
(** * Creating evaluations

    [backend/gradient-ci/src/abort.rs], [apply/] and [trigger/]: from a trigger that fires
    to a queued evaluation, with the concurrency policy of the project and the parking
    gates; restarts, the recovery of a lost [.drv] and the evaluations that bump flake
    inputs.

    A statement of the database either succeeds or fails on a constraint; a connection that
    breaks is not modelled. Creating an evaluation is not a transaction: [between] is what
    other connections commit between its check for a running evaluation and its inserts. *)

From S2P Require Import Prelude Status ScoreContext JobData EdgeStream BuildGraph Promotion Transitions Healing WaitingState EvalResult Access Glob CiState.

Local Open Scope Z_scope.

Section triggering.
Context `{CH : Chrono} `{!Calendar} `{!TriggerCodec}.
Implicit Types (s : CiDb) (ev : EvaluationId).

(** ** Aborting ([abort.rs]) *)

Inductive AbortKind := AbortHard | AbortSoft.

Definition with_aborted (now : NaiveDateTime) (e : EvaluationRow) : EvaluationRow := {|
  ev_project := ev_project e; ev_status := EAborted; ev_kind := ev_kind e;
  ev_waiting_reason := ev_waiting_reason e; ev_updated_at := now |}.

(** The anchors only this evaluation needs; the caller drops their jobs. *)
Definition ci_abort_eval_anchors s (now : NaiveDateTime) ev : CiDb * list DerivationBuildId :=
  let t := st_db (ci_store s) in
  let aborted := map (fun x => db_id x.2) (affected t (fun _ a => abortable t ev a)) in
  (set_store s (on_tables (ci_store s) (fun t => update_where t (fun _ a => abortable t ev a) (with_status BAborted now))),
   aborted).

Definition ci_abort_evaluation s (now : NaiveDateTime) ev (kind : AbortKind) : CiDb * list DerivationBuildId :=
  match evaluations_of s !! ev with
  | None => (s, [])
  | Some e =>
      if negb (eval_is_active (ev_status e)) then (s, [])
      else
        let s := set_evals s (<[ev := with_aborted now e]> (evaluations_of s)) in
        match kind with
        | AbortHard => ci_abort_eval_anchors s now ev
        | AbortSoft => (s, [])
        end
  end.

(** ** A new evaluation ([trigger/new_evaluation.rs]) *)

Inductive TriggerError :=
| AlreadyInProgress
| NoPreviousEvaluation
| TriggerDb (e : DbErr).

Definition ensure_no_active_evaluation s (project : ProjectId) : result () TriggerError :=
  if existsb (fun x => bool_decide (ev_project x.2 = Some project)
       && match ev_status x.2 with
          | EQueued | EFetching | EEvaluatingFlake | EEvaluatingDerivation | EBuilding | EWaiting => true
          | _ => false end) (map_to_list (evaluations_of s))
  then Err AlreadyInProgress else Ok tt.

(** [trigger/flake_snapshot.rs] *)
Definition snapshot_flake_input_overrides s (project : ProjectId) ev : CiDb :=
  set_eval_overrides s (ci_eval_overrides s ++
    map (fun r => (ev, r.2)) (List.filter (fun r => N.eqb r.1 project) (ci_overrides s))).

Definition new_row (project : ProjectId) (status : EvaluationStatus) (kind : EvaluationKind) (now : NaiveDateTime)
    : EvaluationRow := {|
  ev_project := Some project; ev_status := status; ev_kind := kind; ev_waiting_reason := None; ev_updated_at := now |}.

Definition db_result {A} (r : result A DbErr) : result A TriggerError :=
  match r with Ok a => Ok a | Err e => Err (TriggerDb e) end.

(** [project.last_evaluation], when its row still exists. *)
Definition resolved_previous s (project : ProjectRow) : option EvaluationId :=
  match pj_last_evaluation project with
  | Some prev => if bool_decide (is_Some (evaluations_of s !! prev)) then Some prev else None
  | None => None
  end.

Definition mark_triggered ev (p : ProjectRow) : ProjectRow := {|
  pj_organization := pj_organization p; pj_name := pj_name p; pj_active := pj_active p;
  pj_repository := pj_repository p; pj_wildcard := pj_wildcard p; pj_last_evaluation := Some ev;
  pj_last_check_at := NULL_TIME; pj_force_evaluation := true; pj_concurrency := pj_concurrency p |}.

Definition point_last ev (p : ProjectRow) : ProjectRow := {|
  pj_organization := pj_organization p; pj_name := pj_name p; pj_active := pj_active p;
  pj_repository := pj_repository p; pj_wildcard := pj_wildcard p; pj_last_evaluation := Some ev;
  pj_last_check_at := pj_last_check_at p; pj_force_evaluation := pj_force_evaluation p;
  pj_concurrency := pj_concurrency p |}.

Record NewEvaluation := {
  ne_commit_hash : string;
  ne_commit_message : option string;
  ne_author_name : option string;
  ne_trigger : option TriggerId;
  ne_concurrent : bool;
  ne_repository_override : option string;
  ne_wildcard_override : option string;
  ne_source_comment : option SourceComment;
  ne_started_by : option UserId;
}.

(** What follows the check. The commit row stays when the evaluation cannot be inserted. *)
Definition create_evaluation s (now : NaiveDateTime) (project_id : ProjectId) (project : ProjectRow)
    (n : NewEvaluation) : CiDb * result EvaluationId TriggerError :=
  let previous := resolved_previous s project in
  let '(s, commit) := insert_commit s {|
    cm_hash := ne_commit_hash n; cm_message := default ""%string (ne_commit_message n);
    cm_author_name := default ""%string (ne_author_name n) |} in
  match insert_evaluation s (new_row project_id EQueued KNormal now) {|
    ec_repository := default (pj_repository project) (ne_repository_override n); ec_commit := commit;
    ec_wildcard := default (pj_wildcard project) (ne_wildcard_override n); ec_previous := previous;
    ec_created_at := now; ec_flake_source := None; ec_trigger := ne_trigger n; ec_started_by := ne_started_by n;
    ec_concurrent := ne_concurrent n; ec_source_comment := ne_source_comment n |} with
  | Err e => (s, Err (TriggerDb e))
  | Ok (s, ev) =>
      let s := snapshot_flake_input_overrides s project_id ev in
      (update_project s project_id (mark_triggered ev), Ok ev)
  end.

Definition trigger_evaluation (between : CiDb -> CiDb) s (now : NaiveDateTime) (project_id : ProjectId)
    (project : ProjectRow) (n : NewEvaluation) : CiDb * result EvaluationId TriggerError :=
  match (if ne_concurrent n then Ok tt else ensure_no_active_evaluation s project_id) with
  | Err e => (s, Err e)
  | Ok _ => create_evaluation (between s) now project_id project n
  end.

(** ** Applying a trigger ([apply/]) *)

Record ApprovalInfo := { ai_pr_number : Z; ai_pr_author : string }.

Record ApplyInput := {
  in_trigger_id : TriggerId;
  in_trigger_type : TriggerType;
  in_commit_hash : string;
  in_commit_message : option string;
  in_author_name : option string;
  in_manual : bool;
  in_gate_approval : option ApprovalInfo;
  in_repository_override : option string;
  in_wildcard_override : option string;
  in_source_comment : option SourceComment;
  in_instance_max_storage_gb : Z;
}.

Inductive ApplyOutcome :=
| Created (evaluation : EvaluationId) (row : EvaluationRow) (aborted_evaluation : option EvaluationId)
          (aborted_anchors : list DerivationBuildId)
| SkippedSameCommit
| SkippedConcurrency.

(** The hash of the commit an evaluation is of. *)
Definition commit_hash_of s ev : option string :=
  match ci_columns s !! ev with
  | Some c => option_map cm_hash (ci_commits s !! ec_commit c)
  | None => None
  end.

(** [apply/dedup.rs] *)
Definition skip_for_same_commit s (project : ProjectRow) (input : ApplyInput) (in_flight : option EvaluationId) : bool :=
  let dedup_applies := negb (in_manual input) && negb (bool_decide (in_trigger_type input = TypeTime)) in
  let same ev := bool_decide (is_Some (evaluations_of s !! ev))
                 && bool_decide (commit_hash_of s ev = Some (in_commit_hash input)) in
  dedup_applies
  && (match in_flight with Some running => same running | None => false end
      || match pj_last_evaluation project with Some prev => same prev | None => false end).

Record ConcurrencyDecision := {
  cd_concurrent_flag : bool;
  cd_aborted_evaluation : option EvaluationId;
  cd_aborted_anchors : list DerivationBuildId;
}.

(** [apply/concurrency.rs] *)
Definition resolve_concurrency s (now : NaiveDateTime) (project : ProjectRow) (in_flight : option EvaluationId)
    : CiDb * option ConcurrencyDecision :=
  let concurrent_flag := match pj_concurrency project with AllowAll => true | _ => false end in
  match in_flight, pj_concurrency project with
  | Some _, SkipNew => (s, None)
  | Some running, HardAbort =>
      let '(s, anchors) := ci_abort_evaluation s now running AbortHard in
      (s, Some {| cd_concurrent_flag := concurrent_flag; cd_aborted_evaluation := Some running; cd_aborted_anchors := anchors |})
  | Some running, SoftAbort =>
      let '(s, _) := ci_abort_evaluation s now running AbortSoft in
      (s, Some {| cd_concurrent_flag := concurrent_flag; cd_aborted_evaluation := Some running; cd_aborted_anchors := [] |})
  | _, _ => (s, Some {| cd_concurrent_flag := concurrent_flag; cd_aborted_evaluation := None; cd_aborted_anchors := [] |})
  end.

(** *** The parking gates ([apply/gates/]) *)

Definition with_park (r : WaitingReason) (now : NaiveDateTime) (e : EvaluationRow) : EvaluationRow := {|
  ev_project := ev_project e; ev_status := EWaiting; ev_kind := ev_kind e;
  ev_waiting_reason := Some r; ev_updated_at := now |}.

(** The model the caller holds, and the row behind it. *)
Definition Held : Type := CiDb * (EvaluationId * EvaluationRow).

Definition park_as (r : WaitingReason) (now : NaiveDateTime) (h : Held) : Held :=
  let '(s, (ev, e)) := h in
  (set_evals s (alter (with_park r now) ev (evaluations_of s)), (ev, with_park r now e)).

Definition park_unless (ready : bool) (r : WaitingReason) (now : NaiveDateTime) (h : Held) : Held :=
  if negb (bool_decide (ev_status h.2.2 = EQueued)) then h else if ready then h else park_as r now h.

Definition park_if_pending_approval (now : NaiveDateTime) (info : option ApprovalInfo) (h : Held) : Held :=
  match info with
  | None => h
  | Some info => park_unless false (WApproval (ai_pr_number info) (ai_pr_author info)) now h
  end.

Definition park_if_no_cache (o : OrgTables) (now : NaiveDateTime) (org : OrganizationId) (h : Held) : Held :=
  park_unless (org_has_writable_cache o org) WNoCache now h.

Definition park_if_storage_full (o : OrgTables) (now : NaiveDateTime) (org : OrganizationId) (max_storage_gb : Z) (h : Held)
    : Held :=
  park_unless (negb (org_caches_all_full o org max_storage_gb)) WCacheStorageFull now h.

Definition park_if_no_workers (o : OrgTables) (now : NaiveDateTime) (org : OrganizationId) (h : Held) : Held :=
  park_unless (org_has_eval_capable_worker_registration o org) (WWorkers [] 0 []) now h.

Definition run_gates (o : OrgTables) (now : NaiveDateTime) (approval : option ApprovalInfo) (org : OrganizationId)
    (instance_max_storage_gb : Z) (h : Held) : Held :=
  let h := park_if_pending_approval now approval h in
  let h := park_if_no_cache o now org h in
  let h := park_if_storage_full o now org instance_max_storage_gb h in
  park_if_no_workers o now org h.

(** The first row of the query for an active evaluation that is not concurrent. *)
Definition in_flight_of s (project_id : ProjectId) : option EvaluationId :=
  option_map fst (List.find (fun x => match ci_columns s !! x.1 with
    | Some c => negb (ec_concurrent c) | None => true end) (active_evaluations s project_id)).

Definition apply_trigger (between : CiDb -> CiDb) (o : OrgTables) s (now : NaiveDateTime) (project_id : ProjectId)
    (project : ProjectRow) (input : ApplyInput) : CiDb * result ApplyOutcome TriggerError :=
  let in_flight := in_flight_of s project_id in
  if skip_for_same_commit s project input in_flight then (s, Ok SkippedSameCommit)
  else
    match resolve_concurrency s now project in_flight with
    | (s, None) => (s, Ok SkippedConcurrency)
    | (s, Some decision) =>
        match trigger_evaluation between s now project_id project {|
          ne_commit_hash := in_commit_hash input; ne_commit_message := in_commit_message input;
          ne_author_name := in_author_name input; ne_trigger := Some (in_trigger_id input);
          ne_concurrent := cd_concurrent_flag decision; ne_repository_override := in_repository_override input;
          ne_wildcard_override := in_wildcard_override input; ne_source_comment := in_source_comment input;
          ne_started_by := None |} with
        | (s, Err AlreadyInProgress) => (s, Ok SkippedConcurrency)
        | (s, Err (TriggerDb UniqueOneActive)) => (s, Ok SkippedConcurrency)
        | (s, Err e) => (s, Err e)
        | (s, Ok ev) =>
            let '(s, (ev, row)) := run_gates o now (in_gate_approval input) (pj_organization project)
              (in_instance_max_storage_gb input) (s, (ev, new_row project_id EQueued KNormal now)) in
            (s, Ok (Created ev row (cd_aborted_evaluation decision) (cd_aborted_anchors decision)))
        end
    end.

(** A column of an evaluation that is there; every evaluation has its columns. *)
Definition column {A} (f : EvalColumns -> A) (d : A) (columns : option EvalColumns) : A :=
  match columns with Some c => f c | None => d end.

(** ** Restarting ([trigger/restart/]) *)

Definition created_at_of s ev : option NaiveDateTime := option_map ec_created_at (ci_columns s !! ev).

Definition created_later s (x y : EvaluationId * EvaluationRow) : bool :=
  match created_at_of s x.1, created_at_of s y.1 with
  | Some a, Some b => match datetime_cmp a b with Gt => true | _ => false end
  | _, _ => false
  end.

(** [ORDER BY created_at DESC LIMIT 1] *)
Definition latest_evaluation s (project : ProjectId) : option (EvaluationId * EvaluationRow) :=
  foldl (fun best x => match best with
    | Some b => if created_later s x b then Some x else best | None => Some x end) None
    (List.filter (fun x => bool_decide (ev_project x.2 = Some project)) (map_to_list (evaluations_of s))).

Definition entry_point_derivations s ev : list DerivationId :=
  map snd (List.filter (fun x => N.eqb x.1 ev) (t_entry_points (st_db (ci_store s)))).

(** An anchor that is missing, or not a success, has to be built. *)
Definition restart_initial_status s (entry_points : list DerivationId) : EvaluationStatus :=
  let anchors := omap (fun d => t_anchors (st_db (ci_store s)) !! d) (remove_dups entry_points) in
  if Nat.eqb (length (remove_dups entry_points)) 0 then ECompleted
  else if Nat.eqb (length anchors) (length (remove_dups entry_points))
          && forallb (fun a => match db_status a with BCompleted | BSubstituted => true | _ => false end) anchors
  then ECompleted else EBuilding.

(** [restart/entry_points.rs] *)
Definition copy_entry_points s (entry_points : list DerivationId) ev : CiDb :=
  set_store s (on_tables (ci_store s) (fun t =>
    set_entry_points t (t_entry_points t ++ map (fun d => (ev, d)) entry_points))).

Definition trigger_restart_builds (between : CiDb -> CiDb) s (now : NaiveDateTime) (project_id : ProjectId)
    : CiDb * result EvaluationId TriggerError :=
  match ensure_no_active_evaluation s project_id with
  | Err e => (s, Err e)
  | Ok _ =>
      let s := between s in
      match latest_evaluation s project_id with
      | None => (s, Err NoPreviousEvaluation)
      | Some (prev, _) =>
          let prev_entry_points := entry_point_derivations s prev in
          let columns := ci_columns s !! prev in
          match insert_evaluation s (new_row project_id (restart_initial_status s prev_entry_points) KNormal now) {|
            ec_repository := column ec_repository ""%string columns; ec_commit := column ec_commit 0%N columns;
            ec_wildcard := column ec_wildcard ""%string columns; ec_previous := Some prev;
            ec_created_at := now; ec_flake_source := column ec_flake_source None columns; ec_trigger := None;
            ec_started_by := None; ec_concurrent := false; ec_source_comment := None |} with
          | Err e => (s, Err (TriggerDb e))
          | Ok (s, ev) =>
              let s := snapshot_flake_input_overrides s project_id ev in
              let s := copy_entry_points s prev_entry_points ev in
              (update_project s project_id (point_last ev), Ok ev)
          end
      end
  end.

(** ** Recovering a lost [.drv] ([trigger/drv_recovery.rs]) *)

Definition trigger_drv_recovery s (now : NaiveDateTime) (project_id : ProjectId) (stuck : EvaluationId)
    : CiDb * result EvaluationId TriggerError :=
  let '(s, _) := ci_abort_evaluation s now stuck AbortSoft in
  let columns := ci_columns s !! stuck in
  match insert_evaluation s (new_row project_id EQueued KDrvRecovery now) {|
    ec_repository := column ec_repository ""%string columns; ec_commit := column ec_commit 0%N columns;
    ec_wildcard := column ec_wildcard ""%string columns; ec_previous := Some stuck;
    ec_created_at := now; ec_flake_source := column ec_flake_source None columns; ec_trigger := None;
    ec_started_by := None; ec_concurrent := false; ec_source_comment := None |} with
  | Err e => (s, Err (TriggerDb e))
  | Ok (s, ev) =>
      let s := snapshot_flake_input_overrides s project_id ev in
      (update_project s project_id (point_last ev), Ok ev)
  end.

(** ** Bumping flake inputs ([trigger/input_update.rs]) *)

Definition create_input_update_eval s (now : NaiveDateTime) (project_id : ProjectId) (project : ProjectRow)
    (base_commit : string) (target : list string) (discover_only : bool) (trigger : option TriggerId)
    : CiDb * result EvaluationId TriggerError :=
  let '(s, commit) := insert_commit s {| cm_hash := ""; cm_message := ""; cm_author_name := "" |} in
  match insert_evaluation s (new_row project_id EQueued KInputUpdate now) {|
    ec_repository := pj_repository project; ec_commit := commit; ec_wildcard := pj_wildcard project;
    ec_previous := None; ec_created_at := now; ec_flake_source := None; ec_trigger := trigger;
    ec_started_by := None; ec_concurrent := true; ec_source_comment := None |} with
  | Err e => (s, Err (TriggerDb e))
  | Ok (s, ev) =>
      (set_input_updates s (ci_input_updates s ++ [{| iur_evaluation := ev; iur_base_commit := base_commit;
         iur_generator := "flake_lock";         iur_target_inputs := target; iur_discover_only := discover_only |}]), Ok ev)
  end.

(** One evaluation per target, up to the first that fails. *)
Fixpoint create_each s (now : NaiveDateTime) (project_id : ProjectId) (project : ProjectRow) (base_commit : string)
    (targets : list (list string * bool)) (trigger : option TriggerId)
    : CiDb * result (list EvaluationId) TriggerError :=
  match targets with
  | [] => (s, Ok [])
  | (target, discover_only) :: rest =>
      match create_input_update_eval s now project_id project base_commit target discover_only trigger with
      | (s, Err e) => (s, Err e)
      | (s, Ok ev) =>
          match create_each s now project_id project base_commit rest trigger with
          | (s, Ok evs) => (s, Ok (ev :: evs))
          | (s, Err e) => (s, Err e)
          end
      end
  end.

Definition open_pr_action s (project_id : ProjectId) : option ActionRow :=
  List.find (fun a => N.eqb (act_project a) project_id && act_active a && bool_decide (act_type a = ActOpenPr))
    (ci_actions s).

Definition overrides_of s (project_id : ProjectId) : list Override :=
  map snd (List.filter (fun r => N.eqb r.1 project_id) (ci_overrides s)).

Definition active_input_updates s (project_id : ProjectId) : list EvaluationId :=
  map fst (List.filter (fun x => match ev_kind x.2 with KInputUpdate => true | _ => false end)
    (active_evaluations s project_id)).

(** What the granularity makes of the tracked inputs. *)
Definition update_targets (granularity : PrGranularity) (tracked : list string) : list (list string * bool) :=
  let globs := List.filter is_pattern tracked in
  let literals := List.filter (fun n => negb (is_pattern n)) tracked in
  match granularity with
  | PerRun => match literals ++ globs with [] => [] | all => [(all, false)] end
  | PerInput => map (fun lit => ([lit], false)) literals ++ match globs with [] => [] | _ => [(globs, true)] end
  end.

Definition maybe_trigger_input_update s (now : NaiveDateTime) (project_id : ProjectId) (project : ProjectRow)
    (base_commit : string) (trigger : option TriggerId) : CiDb * result (list EvaluationId) TriggerError :=
  match open_pr_action s project_id with
  | None => (s, Ok [])
  | Some action =>
      match act_granularity action with
      | None => (s, Ok [])
      | Some granularity =>
          let overrides := overrides_of s project_id in
          if existsb (fun o => bool_decide (is_Some o.2)) overrides then (s, Ok [])
          else match map fst overrides with
          | [] => (s, Ok [])
          | tracked =>
              match active_input_updates s project_id with
              | _ :: _ => (s, Ok [])
              | [] => create_each s now project_id project base_commit (update_targets granularity tracked) trigger
              end
          end
      end
  end.

Definition fan_out_expansion s (now : NaiveDateTime) (project_id : ProjectId) (project : ProjectRow)
    (base_commit : string) (matched : list string) (trigger : option TriggerId)
    : CiDb * result (list EvaluationId) TriggerError :=
  let active_ids := active_input_updates s project_id in
  let active_targets := concat (map iur_target_inputs
    (List.filter (fun u => bool_decide (iur_evaluation u ∈ active_ids) && negb (iur_discover_only u)) (ci_input_updates s))) in
  create_each s now project_id project base_commit
    (map (fun input => ([input], false)) (List.filter (fun i => negb (bool_decide (i ∈ active_targets))) matched)) trigger.

(** ** Releasing a park ([unpark.rs]) *)

(** The flags that are read from the organization's tables. *)
Definition projects_of_org s (org : OrganizationId) : list ProjectId :=
  map fst (List.filter (fun x => N.eqb (pj_organization x.2) org) (map_to_list (ci_projects s))).

Definition unpark_no_cache s (now : NaiveDateTime) (org : OrganizationId) : CiDb :=
  set_store s (on_tables (ci_store s) (fun t => unpark_no_cache_for_org t now (projects_of_org s org))).

Definition unpark_storage_full s (o : OrgTables) (now : NaiveDateTime) (org : OrganizationId) (instance_max_storage_gb : Z)
    : CiDb :=
  set_store s (on_tables (ci_store s) (fun t =>
    unpark_storage_full_for_org t now (projects_of_org s org) (org_caches_all_full o org instance_max_storage_gb))).

Definition unpark_no_workers s (o : OrgTables) (now : NaiveDateTime) (org : OrganizationId) : CiDb :=
  set_store s (on_tables (ci_store s) (fun t =>
    unpark_no_workers_for_org t now (projects_of_org s org) (org_has_eval_capable_worker_registration o org))).

(** The organizations of the evaluations parked on storage, each once. *)
Definition storage_full_orgs s : list OrganizationId :=
  remove_dups (omap (fun x => if parked_with is_storage_full x.2
    then match ev_project x.2 with Some p => option_map pj_organization (ci_projects s !! p) | None => None end
    else None) (map_to_list (evaluations_of s))).

Definition unpark_storage_full_all s (o : OrgTables) (now : NaiveDateTime) (instance_max_storage_gb : Z) : CiDb :=
  foldl (fun s org => unpark_storage_full s o now org instance_max_storage_gb) s (storage_full_orgs s).

Definition approve s (now : NaiveDateTime) ev : CiDb * option EvaluationRow :=
  let '(t, r) := unpark_approval (st_db (ci_store s)) now ev in (set_store s (on_db (ci_store s) t), r).

Definition with_wildcard (wildcard : string) (c : EvalColumns) : EvalColumns := {|
  ec_repository := ec_repository c; ec_commit := ec_commit c; ec_wildcard := wildcard; ec_previous := ec_previous c;
  ec_created_at := ec_created_at c; ec_flake_source := ec_flake_source c; ec_trigger := ec_trigger c;
  ec_started_by := ec_started_by c; ec_concurrent := ec_concurrent c; ec_source_comment := ec_source_comment c |}.

Definition unpark_approval_with_wildcard s (now : NaiveDateTime) ev (wildcard : string) : CiDb * option EvaluationRow :=
  match approve s now ev with
  | (s, Some e) => (set_columns s (alter (with_wildcard wildcard) ev (ci_columns s)), Some e)
  | (s, None) => (s, None)
  end.

Definition with_source_comment (sc : SourceComment) (c : EvalColumns) : EvalColumns := {|
  ec_repository := ec_repository c; ec_commit := ec_commit c; ec_wildcard := ec_wildcard c; ec_previous := ec_previous c;
  ec_created_at := ec_created_at c; ec_flake_source := ec_flake_source c; ec_trigger := ec_trigger c;
  ec_started_by := ec_started_by c; ec_concurrent := ec_concurrent c; ec_source_comment := Some sc |}.

Definition touch_row (now : NaiveDateTime) (e : EvaluationRow) : EvaluationRow := {|
  ev_project := ev_project e; ev_status := ev_status e; ev_kind := ev_kind e;
  ev_waiting_reason := ev_waiting_reason e; ev_updated_at := now |}.

Definition set_evaluation_source_comment s (now : NaiveDateTime) ev (sc : SourceComment) : CiDb :=
  match evaluations_of s !! ev with
  | None => s
  | Some _ =>
      let s := set_columns s (alter (with_source_comment sc) ev (ci_columns s)) in
      set_evals s (alter (touch_row now) ev (evaluations_of s))
  end.

End triggering.
