(* ===== verification/EvalRows.v ===== *)
(** * What the server does to the rows of evaluations

    Two facts about every handler and sweep of the server, for the parts that keep more
    columns of an evaluation: rows keep their project and, once terminal, stay terminal; and
    the row of a pull request parked for approval is left as it is or ended. *)

From S2P Require Import Prelude Float RustStr Status Fixpoints ScoreContext Proto JobData JobTracker EdgeStream Scheduler Retry BuildGraph Promotion Transitions Healing Settling WaitingState WaitingFacts EvalResult EvalResultFacts LifecycleFacts.

Section eval_rows.
Context `{CH : Chrono}.
Implicit Types (t : Db) (w : Store) (ev : EvaluationId) (e : EvaluationRow).

Definition quiet_row e e' : Prop :=
  ev_project e' = ev_project e /\ (eval_is_terminal (ev_status e) = true -> eval_is_terminal (ev_status e') = true).

(** The same evaluations, each with its project, and what was terminal terminal. *)
Definition quiet_evals (m m' : gmap EvaluationId EvaluationRow) : Prop :=
  forall ev, match m !! ev, m' !! ev with Some e, Some e' => quiet_row e e' | None, None => True | _, _ => False end.

Definition quiet w w' : Prop := quiet_evals (t_evaluations (st_db w)) (t_evaluations (st_db w')).

#[local] Instance quiet_row_preorder : PreOrder quiet_row.
Proof. split; [by split|]. intros e1 e2 e3 [P1 T1] [P2 T2]. split; [congruence|auto]. Qed.

#[export] Instance quiet_evals_preorder : PreOrder quiet_evals.
Proof.
  split; [intros m ev; destruct (m !! ev); [reflexivity|exact I]|]. intros m1 m2 m3 H1 H2 ev. specialize (H1 ev). specialize (H2 ev).
  destruct (m1 !! ev), (m2 !! ev), (m3 !! ev); try done. by etrans.
Qed.

#[export] Instance quiet_preorder : PreOrder quiet.
Proof. split; [intros w; unfold quiet; reflexivity|]. intros w1 w2 w3. unfold quiet. apply transitivity. Qed.

Lemma quiet_same w w' : t_evaluations (st_db w') = t_evaluations (st_db w) -> quiet w w'.
Proof. unfold quiet. by intros ->. Qed.

Lemma quiet_insert m ev e e' : m !! ev = Some e -> quiet_row e e' -> quiet_evals m (<[ev := e']> m).
Proof.
  intros He Hq ev'. destruct (decide (ev' = ev)) as [->|Hne]; [by rewrite lookup_insert_eq, He|].
  rewrite lookup_insert_ne by done. by destruct (m !! ev').
Qed.

Lemma quiet_map m (f : EvaluationId -> EvaluationRow -> EvaluationRow) m' :
  (forall ev e, quiet_row e (f ev e)) -> (forall ev, m' !! ev = f ev <$> m !! ev) -> quiet_evals m m'.
Proof. intros Hf Hm ev. rewrite Hm. destruct (m !! ev); simpl; [apply Hf|done]. Qed.

Lemma update_quiet w now ev e s : quiet w (update_evaluation_status w now ev e s).
Proof.
  unfold update_evaluation_status. destruct (validate_eval _ _); [|done].
  destruct (t_evaluations (st_db w) !! ev) as [row|] eqn:Hrow; [|done].
  destruct (eval_is_terminal (ev_status row)) eqn:Ht; [done|]. unfold quiet. simpl.
  eapply quiet_insert; [done|]. split; [done|by rewrite Ht].
Qed.

Lemma with_error_quiet w now ev e s : quiet w (update_evaluation_status_with_error w now ev e s).
Proof.
  unfold update_evaluation_status_with_error. destruct (eval_is_terminal _); [done|].
  etrans; [|apply update_quiet]. by apply quiet_same.
Qed.

Lemma check_quiet w now ev : quiet w (check_evaluation_done w now ev).
Proof.
  unfold check_evaluation_done. destruct (existsb _ _); [done|]. destruct (t_evaluations _ !! ev) as [e|]; [|done].
  destruct (ev_status e); try done. apply update_quiet.
Qed.

Lemma foldl_quiet {A} (f : Store -> A -> Store) l w : (forall w x, quiet w (f w x)) -> quiet w (foldl f w l).
Proof. intros Hf. revert w. induction l as [|x l IH]; intros w; [done|]. simpl. etrans; [apply Hf|apply IH]. Qed.

Lemma finalize_quiet w now evs : quiet w (finalize_evals w now evs).
Proof. apply foldl_quiet. intros. apply check_quiet. Qed.

Lemma move_quiet w now f : accounted (st_db w) (f (st_db w)).1 (f (st_db w)).2 -> quiet w (move_and_emit w now f).
Proof.
  intros Hacc. unfold move_and_emit. destruct (f (st_db w)) as [t c]. simpl in Hacc.
  assert (Ht : quiet w (on_db w t)) by (apply quiet_same; exact (acc_evals _ _ _ Hacc)).
  unfold emit_transition_effects. destruct c; [done|]. etrans; [exact Ht|]. etrans; [|apply finalize_quiet]. by apply quiet_same.
Qed.

Lemma tables_quiet w f : accounted (st_db w) (f (st_db w)) [] -> quiet w (on_tables w f).
Proof. intros Hacc. apply quiet_same, (acc_evals _ _ _ Hacc). Qed.

Lemma reconcile_quiet w now nar_exists scope : quiet w (reconcile_build_graph w now nar_exists scope).
Proof.
  apply (reconcile_ind (quiet w)); [| |done]; intros w' f Hw' Hacc; (etrans; [exact Hw'|]);
    [by apply tables_quiet|by apply move_quiet].
Qed.

(** The moves of an anchor as a chain of quiet statements and emitted moves. *)
Lemma update_status_ind (P : Store -> Prop) w now d a s :
  (forall w t, P w -> accounted (st_db w) t [] -> P (on_db w t)) ->
  (forall w f, P w -> accounted (st_db w) (f (st_db w)).1 (f (st_db w)).2 -> P (move_and_emit w now f)) ->
  P w -> P (update_derivation_build_status w now d a s).
Proof.
  intros Hq Hm Hw. unfold update_derivation_build_status. destruct (bool_decide _); [done|].
  destruct (validate_build _ _); [|done]. cbv zeta. set (t := if build_is_terminal s then _ else _).
  assert (Ht : P (on_db w t)).
  { apply Hq; [done|]. unfold t. destruct (build_is_terminal s); [apply stamp_quiet|apply accounted_refl]. }
  clearbody t. destruct (t_anchors t !! d) as [b|]; [|done].
  assert (Hif : forall (b : bool) w w', P w -> P w' -> P (if b then w' else w)) by (by intros []).
  apply Hif; [|apply Hm; [|apply accounted_move]];
  (apply Hif; [|apply Hm; [apply Hq|apply accounted_promote_dependents]]);
  try apply quiet_propagate.
  all: apply Hm; [exact Ht|apply accounted_write_status].
Qed.

Lemma update_build_quiet w now d a s : quiet w (update_derivation_build_status w now d a s).
Proof.
  apply (update_status_ind (quiet w)); [| |done]; intros w' f Hw' Hacc; (etrans; [exact Hw'|]);
    [by apply quiet_same, (acc_evals _ _ _ Hacc)|by apply move_quiet].
Qed.

Lemma build_failed_quiet w now cfg nar_exists b error kind missing :
  quiet w (handle_build_job_failed w now cfg nar_exists b error kind missing).
Proof.
  unfold handle_build_job_failed. destruct (find_anchor (st_db w) b) as [[d a]|]; [|done]. cbv zeta.
  set (w1 := log_failure w b error). set (w2 := on_tables w1 _). set (circuit := _ && inputs_unavailable_circuit_open _ _).
  set (w3 := if _ && _ && negb circuit then _ else w2).
  assert (H1 : quiet w w1) by (apply quiet_same; unfold w1; by rewrite log_failure_db).
  assert (H2 : quiet w w2) by (etrans; [exact H1|]; apply tables_quiet, fail_attempt_quiet).
  assert (H3 : quiet w w3).
  { unfold w3. destruct (_ && _ && _); [|exact H2]. etrans; [exact H2|]. apply tables_quiet, quiet_missing_inputs. }
  clearbody w1 w2 w3 circuit. set (outcome := match decide_failure_outcome _ _ _ with OutRetry => _ | o => o end).
  clearbody outcome. assert (Hfin : forall s, quiet w (finalize_evals_for_derivations
    (on_tables (update_derivation_build_status w3 now d a s) (fun t => (cascade_dependency_failed t now d).1)) now [d])).
  { intros s. etrans; [exact H3|]. etrans; [apply update_build_quiet|]. etrans; [|apply finalize_quiet]. by apply quiet_same. }
  destruct outcome; try apply Hfin.
  - destruct (default _ _) as [d' a']. etrans; [exact H3|]. etrans; [|apply update_build_quiet]. by apply quiet_same.
  - etrans; [exact H3|apply update_build_quiet].
Qed.

Lemma persist_quiet w ev c r : quiet w (persist_waiting_reason w ev c r).
Proof.
  unfold persist_waiting_reason. case_bool_decide; [done|]. unfold quiet. simpl.
  apply (quiet_map _ (fun ev' e => if N.eqb ev' ev then with_waiting_reason r e else e)).
  - intros ev' e. by destruct (N.eqb ev' ev).
  - intros ev'. destruct (N.eqb_spec ev' ev) as [->|Hne]; [by rewrite lookup_alter_eq|].
    rewrite lookup_alter_ne by done. by destruct (_ !! ev').
Qed.

Lemma orphans_quiet w now dispatches jobs : quiet w (requeue_orphaned_jobs w now dispatches jobs).
Proof.
  apply foldl_quiet. clear w. intros w job. destruct (derivation_build job) as [b|].
  - unfold requeue_orphaned_build. destruct (find_anchor _ _) as [[d a]|]; [|done].
    case_bool_decide; [apply update_build_quiet|done].
  - unfold requeue_orphaned_eval. destruct (t_evaluations _ !! _) as [e|]; [|done]. destruct (pre_build _); [|done].
    destruct (orphaned_eval_outcome _ _); [|apply with_error_quiet]. etrans; [apply persist_quiet|apply update_quiet].
Qed.

Lemma eval_completed_quiet w now nar_exists ev : quiet w (handle_eval_job_completed w now nar_exists ev).
Proof.
  unfold handle_eval_job_completed. cbv zeta. etrans; [apply (reconcile_quiet w now nar_exists (Eval ev))|].
  set (w1 := reconcile_build_graph _ _ _ _). clearbody w1.
  etrans; [|apply check_quiet]. destruct (t_evaluations _ !! ev) as [e|]; [|reflexivity].
  destruct (ev_status e); first [apply update_quiet|reflexivity].
Qed.

Lemma eval_failed_quiet w now ev kind missing blob : quiet w (handle_eval_job_failed w now ev kind missing blob).
Proof.
  unfold handle_eval_job_failed.
  assert (Hrest : forall w, quiet w (match t_evaluations (st_db w) !! ev with
    | Some e => if eval_is_terminal (ev_status e) then w else update_evaluation_status_with_error w now ev e EFailed
    | None => w end)).
  { intros w'. destruct (t_evaluations _ !! ev); [|done]. destruct (eval_is_terminal _); [done|apply with_error_quiet]. }
  assert (Hheal : forall fp, quiet w (heal_corrupt_eval_cache w now ev fp blob).1).
  { intros fp. unfold heal_corrupt_eval_cache. destruct blob; [|done]. simpl.
    destruct (t_evaluations _ !! ev); [|by apply quiet_same]. simpl. destruct (eval_is_terminal _); [by apply quiet_same|].
    etrans; [|apply update_quiet]. by apply quiet_same. }
  destruct kind; try by apply Hrest. destruct (head missing) as [fp|]; [|by apply Hrest].
  specialize (Hheal fp). destruct (heal_corrupt_eval_cache w now ev fp blob) as [w' []]; [done|]. etrans; [exact Hheal|apply Hrest].
Qed.

Lemma gate_aborting_quiet w now ev : quiet w (on_db w (gate_evaluation_aborting (st_db w) now ev)).
Proof.
  unfold gate_evaluation_aborting. destruct (t_evaluations (st_db w) !! ev) as [row|] eqn:Hrow; [|by apply quiet_same].
  destruct (eval_is_terminal (ev_status row)) eqn:Ht; [by apply quiet_same|]. unfold quiet. simpl.
  eapply quiet_insert; [done|]. split; [done|by rewrite Ht].
Qed.

Lemma abort_anchors_quiet w now ev : quiet w (abort_eval_anchors w now ev).
Proof.
  unfold abort_eval_anchors. destruct (affected _ _) as [|x l]; [done|]. cbv zeta.
  etrans; [apply (move_quiet w now (fun t => move_where t now (fun _ a => abortable t ev a) BAborted)), accounted_move|].
  by apply quiet_same.
Qed.

Lemma abort_quiet w now ev e : quiet w (db_abort_evaluation w now ev e).
Proof.
  unfold db_abort_evaluation. destruct (eval_is_terminal _); [done|]. cbv zeta.
  etrans; [apply gate_aborting_quiet|]. etrans; [apply abort_anchors_quiet|apply update_quiet].
Qed.

Lemma sweep_quiet cat cfg nar_exists w now p draining : quiet w (reconcile_waiting_state cat cfg nar_exists w now p draining).
Proof.
  unfold reconcile_waiting_state. destruct draining; apply foldl_quiet; clear w; intros w x.
  - destruct x as [ev e]. unfold drain_eval. destruct (drained_or_aborting e); [done|]. cbv zeta.
    case_bool_decide; [apply persist_quiet|]. etrans; [apply persist_quiet|apply update_quiet].
  - unfold reconcile_eval. destruct (left_alone x.2); [done|].
    assert (Hphase : forall ev caps, quiet w (build_phase_decision cat cfg nar_exists w now ev caps).1).
    { intros ev caps. unfold build_phase_decision, attempt_graph_unstick.
      destruct (assess_buildability cat cfg (st_db w) ev caps) as [[s [[u ? ?| | | | | | |]|]]|]; try destruct s; try destruct u; try done.
      destruct (assess_buildability _ _ _ _ _) as [[[] ?]|]; apply reconcile_quiet. }
    assert (Ho : quiet w (reconcile_outcome cat cfg nar_exists w now p x).1).
    { destruct x as [ev e]. unfold reconcile_outcome. specialize (Hphase ev (pool_caps p)).
      destruct (build_phase_decision cat cfg nar_exists w now ev (pool_caps p)) as [w1 [v|]]; simpl in Hphase;
        destruct (ev_status e); try destruct (ev_waiting_reason e) as [[]|]; done. }
    destruct (reconcile_outcome _ _ _ _ _ _ _) as [w1 [[target reason]|]]; [|done]. simpl in Ho. cbv zeta.
    etrans; [exact Ho|]. case_bool_decide; [apply persist_quiet|]. etrans; [apply persist_quiet|apply update_quiet].
Qed.

Lemma recover_drv_quiet w now : quiet w (recover_drv_stuck_evals w now).
Proof.
  apply foldl_quiet. clear w. intros w [ev e]. unfold recover_eval. destruct (ev_waiting_reason e) as [[]|]; try done.
  destruct (_ <? _)%Z; [done|]. destruct (negb _); [done|]. destruct (ev_kind e), (ev_project e); first [apply update_quiet|by apply quiet_same].
Qed.

Lemma restart_quiet w now : quiet w (recover_interrupted_work w now).
Proof.
  unfold recover_interrupted_work, quiet. simpl. apply (quiet_map _ (fun _ => abort_interrupted now)); [|intros ev; apply lookup_fmap].
  intros _ e. unfold abort_interrupted. destruct (ev_status e) eqn:E; simpl; split; try done; by rewrite E.
Qed.

(** Every step of the server keeps the projects, and what is terminal terminal. *)
Lemma server_step_quiet w w' : server_step w w' -> quiet w w'.
Proof.
  destruct 1.
  - unfold handle_build_status_update. destruct b as [b|]; [|done]. destruct (find_anchor _ _) as [[d a]|]; [|done].
    case_bool_decide; [by apply quiet_same|apply update_build_quiet].
  - unfold handle_build_output. destruct (find_anchor _ _); [|reflexivity]. destruct substituted; by apply quiet_same.
  - unfold handle_build_job_completed. destruct (find_anchor _ _) as [[d a]|]; [|done]. cbv zeta.
    etrans; [apply update_build_quiet|]. etrans; [|apply finalize_quiet]. destruct (db_substitutable a); by apply quiet_same.
  - apply build_failed_quiet.
  - apply orphans_quiet.
  - unfold handle_eval_status_update. destruct (t_evaluations _ !! _); [apply update_quiet|done].
  - pose proof (batch_grown fr io su {| gr_store := w; gr_catalog := cat |} now job derivations ws es H) as Hg.
    intros ev. destruct (gn_evals _ _ _ Hg ev) as [Heq|(_ & e & e' & He & He' & Hp & Hs)].
    + unfold gr_db in Heq. simpl in Heq. rewrite Heq. destruct (t_evaluations (st_db w) !! ev); [by split|exact I].
    + unfold gr_db in *. simpl in *. rewrite He, He'. split; [done|]. by rewrite Hs.
  - by apply quiet_same.
  - by apply quiet_same.
  - apply quiet_same, (acc_evals _ _ _ (quiet_deferred (st_db w) outcome deferred)).
  - apply eval_completed_quiet.
  - apply eval_failed_quiet.
  - apply abort_quiet.
  - apply foldl_quiet. intros w' x. destruct (retry_backoff_elapsed _ _ _ _); [apply update_build_quiet|reflexivity].
  - apply reconcile_quiet.
  - apply sweep_quiet.
  - apply recover_drv_quiet.
  - apply restart_quiet.
Qed.

(** ** Pull requests that wait for approval *)

Definition awaits_approval e : Prop :=
  ev_status e = EWaiting /\ exists n author, ev_waiting_reason e = Some (WApproval n author).

(** The row of [ev], parked for approval, is left alone or ended. *)
Definition gate_kept ev w w' : Prop :=
  forall e, keeps_row ev e w -> awaits_approval e ->
  keeps_row ev e w' \/ exists e', keeps_row ev e' w' /\ eval_is_terminal (ev_status e') = true.

Lemma gate_kept_trans ev w w1 w2 :
  gate_kept ev w w1 -> gate_kept ev w1 w2 -> quiet w1 w2 -> gate_kept ev w w2.
Proof.
  intros H1 H2 Hq e He Ha. destruct (H1 e He Ha) as [He1|(e1 & He1 & Ht)]; [by apply H2|].
  right. specialize (Hq ev). unfold keeps_row in *. rewrite He1 in Hq. destruct (_ !! ev) as [e2|]; [|done].
  exists e2. split; [done|]. by apply Hq.
Qed.

Lemma gate_kept_keeps ev w w' :
  (forall e, keeps_row ev e w -> ev_status e <> EBuilding -> keeps_row ev e w') -> gate_kept ev w w'.
Proof. intros Hk e He [Hs _]. left. apply Hk; [done|congruence]. Qed.

Lemma update_gate_kept ev w now ev0 e0 s :
  (ev0 = ev -> keeps_row ev e0 w -> eval_is_terminal s = true \/ is_ok (validate_eval (ev_status e0) s) = false) ->
  keeps_row ev0 e0 w -> gate_kept ev w (update_evaluation_status w now ev0 e0 s).
Proof.
  intros Hs H0 e He Ha. destruct (decide (ev0 = ev)) as [->|Hne]; [|left; by apply update_keeps_row].
  destruct (Hs eq_refl H0) as [Ht|Hv]; unfold update_evaluation_status.
  - destruct (validate_eval _ _); [|by left]. unfold keeps_row in *. rewrite He.
    destruct (eval_is_terminal (ev_status e)) eqn:Hte; [by left|]. right. simpl. rewrite lookup_insert_eq. by eexists.
  - destruct (validate_eval _ _); [done|by left].
Qed.

(** What a worker can report about an evaluation, besides failing. *)
Definition reported_phase (s : EvaluationStatus) : Prop :=
  s = EFetching \/ s = EEvaluatingFlake \/ s = EEvaluatingDerivation.

(** The steps of the server while it is not draining; [reports ev] are the evaluations
    workers hold a job of. *)
Inductive working_step (reports : EvaluationId -> Prop) : Store -> Store -> Prop :=
| work_building w now worker job b : working_step reports w (handle_build_status_update w now worker job b)
| work_output w now b substituted : working_step reports w (handle_build_output w now b substituted).1
| work_completed w now b : working_step reports w (handle_build_job_completed w now b)
| work_failed w now cfg nar_exists b error kind missing :
    (forall d a, find_anchor (st_db w) b = Some (d, a) -> build_is_terminal (db_status a) = false) ->
    working_step reports w (handle_build_job_failed w now cfg nar_exists b error kind missing)
| work_orphans w now dispatches jobs : working_step reports w (requeue_orphaned_jobs w now dispatches jobs)
| work_eval_status w now ev s : reported_phase s -> reports ev -> working_step reports w (handle_eval_status_update w now ev s)
| work_eval_batch fr io su w cat now job derivations ws es :
    fresh_anchors fr (st_db w) -> reports (pe_evaluation_id job) ->
    (forall e, t_evaluations (st_db w) !! pe_evaluation_id job = Some e -> ev_status e <> EBuilding) ->
    working_step reports w
      (gr_store (handle_eval_batch fr io su {| gr_store := w; gr_catalog := cat |} now job derivations ws es).1)
| work_edges w edges : working_step reports w (on_db w (insert_edges (st_db w) edges))
| work_edges_complete w ds : working_step reports w (on_db w (mark_edges_complete (st_db w) ds))
| work_deferred w outcome deferred : working_step reports w (on_db w (store_deferred_deps (st_db w) outcome deferred))
| work_eval_completed w now nar_exists ev : reports ev -> working_step reports w (handle_eval_job_completed w now nar_exists ev)
| work_eval_failed w now ev kind missing blob :
    reports ev -> working_step reports w (handle_eval_job_failed w now ev kind missing blob)
| work_abort w now ev e : working_step reports w (db_abort_evaluation w now ev e)
| work_requeue w now cfg : working_step reports w (requeue_transient_failures w now cfg)
| work_reconcile w now nar_exists scope : working_step reports w (reconcile_build_graph w now nar_exists scope)
| work_waiting w cat cfg nar_exists now p :
    working_step reports w (reconcile_waiting_state cat cfg nar_exists w now p false)
| work_recover_drv w now : working_step reports w (recover_drv_stuck_evals w now)
| work_restart w now : working_step reports w (recover_interrupted_work w now).

Lemma working_server reports w w' : working_step reports w w' -> server_step w w'.
Proof. destruct 1; try by constructor. constructor. by destruct H as [->|[->| ->]]. Qed.

Lemma foldl_keeps_row {A} (f : Store -> A -> Store) l w ev e :
  (forall w x, keeps_row ev e w -> keeps_row ev e (f w x)) -> keeps_row ev e w -> keeps_row ev e (foldl f w l).
Proof. intros Hf. revert w. induction l as [|x l IH]; intros w Hw; [done|]. by apply IH, Hf. Qed.

Lemma update_build_keeps_row w now d a s ev e :
  keeps_row ev e w -> ev_status e <> EBuilding -> keeps_row ev e (update_derivation_build_status w now d a s).
Proof.
  intros Hr Hs. apply update_status_ind; [| |done].
  - intros w' t Hw' Hacc. unfold keeps_row. simpl. by rewrite (acc_evals _ _ _ Hacc).
  - intros w' f Hw' Hacc. by apply move_keeps_row.
Qed.

Lemma build_failed_keeps_row w now cfg nar_exists b error kind missing ev e :
  keeps_row ev e w -> ev_status e <> EBuilding ->
  keeps_row ev e (handle_build_job_failed w now cfg nar_exists b error kind missing).
Proof.
  intros Hr Hs. unfold handle_build_job_failed. destruct (find_anchor (st_db w) b) as [[d a]|]; [|done]. cbv zeta.
  set (w1 := log_failure w b error). set (w2 := on_tables w1 _). set (circuit := _ && inputs_unavailable_circuit_open _ _).
  set (w3 := if _ && _ && negb circuit then _ else w2).
  assert (H1 : keeps_row ev e w1) by (unfold keeps_row, w1; by rewrite log_failure_db).
  assert (H2 : keeps_row ev e w2)
    by (unfold keeps_row, w2; simpl; by rewrite (acc_evals _ _ _ (fail_attempt_quiet _ _ _ _ _))).
  assert (H3 : keeps_row ev e w3).
  { unfold w3. destruct (_ && _ && _); [|exact H2]. unfold keeps_row. simpl.
    by rewrite (acc_evals _ _ _ (quiet_missing_inputs _ _ _ _ _)). }
  clearbody w1 w2 w3 circuit. set (outcome := match decide_failure_outcome _ _ _ with OutRetry => _ | o => o end).
  clearbody outcome. assert (Hfin : forall s, keeps_row ev e (finalize_evals_for_derivations
    (on_tables (update_derivation_build_status w3 now d a s) (fun t => (cascade_dependency_failed t now d).1)) now [d])).
  { intros s. apply finalize_keeps_row; [|done]. apply (update_build_keeps_row w3); done. }
  destruct outcome; try apply Hfin.
  - destruct (default _ _) as [d' a']. by apply update_build_keeps_row.
  - by apply update_build_keeps_row.
Qed.

Lemma orphans_keep_row w now dispatches jobs ev e :
  keeps_row ev e w -> ev_status e = EWaiting -> keeps_row ev e (requeue_orphaned_jobs w now dispatches jobs).
Proof.
  intros Hr Hs. apply foldl_keeps_row; [|done]. clear w Hr. intros w job Hr. destruct (derivation_build job) as [b|].
  - unfold requeue_orphaned_build. destruct (find_anchor _ _) as [[d a]|]; [|done].
    case_bool_decide; [apply update_build_keeps_row; [done|congruence]|done].
  - unfold requeue_orphaned_eval. destruct (t_evaluations _ !! _) as [e0|] eqn:E; [|done].
    destruct (pre_build (ev_status e0)) eqn:Hp; [|done].
    assert (Hne : evaluation_id job <> ev).
    { intros <-. unfold keeps_row in Hr. simplify_eq. by rewrite Hs in Hp. }
    destruct (orphaned_eval_outcome _ _).
    + by apply update_keeps_row, persist_keeps_row.
    + unfold update_evaluation_status_with_error. destruct (eval_is_terminal _); [done|]. by apply update_keeps_row.
Qed.

Lemma aborted_row w now ev e0 e :
  keeps_row ev e w -> ev_status e = EWaiting ->
  keeps_row ev e (db_abort_evaluation w now ev e0) \/
  exists e', keeps_row ev e' (db_abort_evaluation w now ev e0) /\ eval_is_terminal (ev_status e') = true.
Proof.
  intros Hr Hs. unfold db_abort_evaluation. destruct (eval_is_terminal (ev_status e0)) eqn:H0; [by left|]. cbv zeta. right.
  set (w1 := on_db w _). assert (H1 : exists e1, keeps_row ev e1 w1 /\ ev_status e1 = EWaiting).
  { unfold w1, gate_evaluation_aborting, keeps_row in *. rewrite Hr, Hs. simpl. rewrite lookup_insert_eq. by eexists. }
  clearbody w1. destruct H1 as (e1 & H1 & Hs1).
  assert (H2 : keeps_row ev e1 (abort_eval_anchors w1 now ev)).
  { unfold abort_eval_anchors. destruct (affected _ _) as [|x l]; [done|]. cbv zeta.
    apply (move_keeps_row w1 now (fun t => move_where t now (fun _ a => abortable t ev a) BAborted)); [done|congruence|apply accounted_move]. }
  unfold update_evaluation_status. replace (validate_eval (ev_status e0) EAborted) with (@Ok EvaluationStatus InvalidEvalTransition EAborted)
    by by destruct (ev_status e0).
  unfold keeps_row in *. rewrite H2, Hs1. simpl. rewrite lookup_insert_eq. by eexists.
Qed.

Lemma abort_other w now ev0 e0 ev e :
  ev0 <> ev -> keeps_row ev e w -> ev_status e <> EBuilding -> keeps_row ev e (db_abort_evaluation w now ev0 e0).
Proof.
  intros Hne Hr Hs. unfold db_abort_evaluation. destruct (eval_is_terminal _); [done|]. cbv zeta.
  apply update_keeps_row; [done|]. set (w1 := on_db w _). assert (H1 : keeps_row ev e w1).
  { unfold w1, gate_evaluation_aborting, keeps_row in *. destruct (_ !! ev0); [|done]. destruct (eval_is_terminal _); [done|].
    simpl. by rewrite lookup_insert_ne. }
  clearbody w1. unfold abort_eval_anchors. destruct (affected _ _) as [|x l]; [done|]. cbv zeta.
  apply (move_keeps_row w1 now (fun t => move_where t now (fun _ a => abortable t ev0 a) BAborted)); [done|done|apply accounted_move].
Qed.

Lemma eval_failed_gate_kept w now ev0 kind missing blob ev :
  ev0 <> ev -> gate_kept ev w (handle_eval_job_failed w now ev0 kind missing blob).
Proof.
  intros Hne. apply gate_kept_keeps. intros e Hr Hs. unfold handle_eval_job_failed.
  assert (Hrest : forall w, keeps_row ev e w -> keeps_row ev e (match t_evaluations (st_db w) !! ev0 with
    | Some e => if eval_is_terminal (ev_status e) then w else update_evaluation_status_with_error w now ev0 e EFailed
    | None => w end)).
  { intros w' Hw'. destruct (t_evaluations _ !! ev0); [|done]. destruct (eval_is_terminal _) eqn:Ht; [done|].
    unfold update_evaluation_status_with_error. rewrite Ht. by apply update_keeps_row. }
  assert (Hheal : forall fp, keeps_row ev e (heal_corrupt_eval_cache w now ev0 fp blob).1).
  { intros fp. unfold heal_corrupt_eval_cache. destruct blob; [|done]. simpl.
    destruct (t_evaluations _ !! ev0); [|done]. simpl. destruct (eval_is_terminal _); [done|].
    by apply (update_keeps_row (send w _)). }
  destruct kind; try by apply Hrest. destruct (head missing) as [fp|]; [|by apply Hrest].
  specialize (Hheal fp). destruct (heal_corrupt_eval_cache w now ev0 fp blob) as [w' []]; [done|by apply Hrest].
Qed.

(** A working server leaves a pull request that waits for approval where it is, whatever
    workers report about the evaluations they were given. *)
Lemma working_step_gate reports w w' ev : working_step reports w w' -> ~ reports ev -> gate_kept ev w w'.
Proof.
  intros Hstep Hr. destruct Hstep.
  - apply gate_kept_keeps. intros e He Hs. unfold handle_build_status_update. destruct b as [b|]; [|done].
    destruct (find_anchor _ _) as [[d a]|]; [|done]. case_bool_decide; [done|by apply update_build_keeps_row].
  - apply gate_kept_keeps. intros e He Hs. unfold handle_build_output. destruct (find_anchor _ _); [|done]. by destruct substituted.
  - apply gate_kept_keeps. intros e He Hs. unfold handle_build_job_completed.
    destruct (find_anchor _ _) as [[d a]|]; [|done]. cbv zeta. apply finalize_keeps_row; [|done].
    assert (H1 := update_build_keeps_row w now d a (terminal_success_status (db_substituted a)) ev e He Hs).
    by destruct (db_substitutable a).
  - apply gate_kept_keeps. intros e He Hs. by apply build_failed_keeps_row.
  - intros e He [Hs _]. left. by apply orphans_keep_row.
  - unfold handle_eval_status_update. destruct (t_evaluations _ !! ev0) as [e0|] eqn:E; [|by left].
    apply update_gate_kept; [|done]. by intros ->.
  - intros e He Ha. destruct (batch_grown fr io su {| gr_store := w; gr_catalog := cat |} now job derivations ws es H) as [_ Hev _ _ _].
    destruct (Hev ev) as [Heq|(-> & _)]; [left|done]. unfold keeps_row, gr_db in *. simpl in *. by rewrite Heq.
  - by left.
  - by left.
  - intros e He _. left. unfold keeps_row. simpl. by rewrite (acc_evals _ _ _ (quiet_deferred (st_db w) outcome deferred)).
  - apply gate_kept_keeps. intros e He Hs. unfold handle_eval_job_completed. cbv zeta.
    assert (H1 := reconcile_keeps_row w now nar_exists (Eval ev0) ev e He Hs).
    set (w1 := reconcile_build_graph _ _ _ _) in *. clearbody w1. apply check_keeps_row; [|done].
    assert (Hne : ev0 <> ev) by by intros ->.
    destruct (t_evaluations _ !! ev0) as [e0|]; [|done]. destruct (ev_status e0); first [by apply update_keeps_row|done].
  - apply eval_failed_gate_kept. by intros ->.
  - intros e0 He [Hs _]. destruct (decide (ev0 = ev)) as [->|Hne]; [by apply aborted_row|left].
    apply abort_other; [done|done|congruence].
  - apply gate_kept_keeps. intros e He Hs. apply foldl_keeps_row; [|done]. intros w' x Hw'.
    destruct (retry_backoff_elapsed _ _ _ _); [by apply update_build_keeps_row|done].
  - apply gate_kept_keeps. intros e He Hs. by apply reconcile_keeps_row.
  - intros e He [Hs (n & author & Hreason)]. left. unfold keeps_row, reconcile_waiting_state in *.
    set (evals := List.filter _ _).
    assert (Hl : left_alone e = true) by (unfold left_alone; by rewrite Hs, Hreason).
    assert (Hall : Forall (fun x => x.1 = ev -> left_alone x.2 = true) evals).
    { apply Forall_forall. intros [ev0 e0] Hx Heq. simpl in Heq. subst ev0. unfold evals in Hx.
      apply list_elem_of_In, filter_In in Hx as [Hx _]. apply list_elem_of_In, elem_of_map_to_list in Hx. simpl. congruence. }
    clearbody evals. change (keeps_row ev e (foldl (reconcile_eval cat cfg nar_exists now p) w evals)).
    revert w He. induction Hall as [|x l Hx _ IH]; intros w He; [done|]. apply IH. apply sweep_one_keeps_row; [congruence|done|done].
  - intros e He [Hs (n & author & Hreason)]. left. unfold recover_drv_stuck_evals. set (l := List.filter _ _).
    assert (Hall : Forall (fun x => x.1 = ev -> x.2 = e) l).
    { apply Forall_forall. intros [ev0 e0] Hx Heq. simpl in Heq. subst ev0. unfold l in Hx.
      apply list_elem_of_In, filter_In in Hx as [Hx _]. apply list_elem_of_In, elem_of_map_to_list in Hx. simpl.
      unfold keeps_row in He. congruence. }
    clearbody l. revert w He. induction Hall as [|[ev0 e0] l Hx _ IH]; intros w He; [done|]. apply IH. simpl in Hx.
    unfold recover_eval. destruct (ev_waiting_reason e0) as [[]|] eqn:E0; try done.
    assert (Hne : ev0 <> ev) by (intros Heq; specialize (Hx Heq); subst e0; congruence).
    destruct (_ <? _)%Z; [done|]. destruct (negb _); [done|].
    destruct (ev_kind e0), (ev_project e0); first [by apply update_keeps_row|done].
  - intros e He [Hs _]. left. unfold keeps_row, recover_interrupted_work in *. simpl. rewrite lookup_fmap.
    change (t_evaluations (update_where _ _ _)) with (t_evaluations (st_db w)). rewrite He. simpl. f_equal.
    unfold abort_interrupted. by rewrite Hs.
Qed.

End eval_rows.
