(* ===== verification/CiFacts.v ===== *)
(** * What triggering promises

    One evaluation per project at a time; what applying a trigger does on every branch; and
    where the two parts of the server that create evaluations get in each other's way. *)

From S2P Require Import Prelude Float RustStr Status Fixpoints ScoreContext Proto JobData JobTracker EdgeStream Scheduler Retry BuildGraph Promotion Transitions Healing Settling WaitingState WaitingFacts EvalResult EvalResultFacts LifecycleFacts Access Glob CiState Triggering EvalRows.

Local Open Scope Z_scope.

Section ci_facts.
Context `{CH : Chrono} `{!Calendar} `{!TriggerCodec}.
Implicit Types (s : CiDb) (ev : EvaluationId) (e : EvaluationRow).

(** ** One active evaluation per project *)

Record ci_wf s : Prop := {
  cw_fresh ev : is_Some (evaluations_of s !! ev) -> (ev < ci_next s)%N;
  cw_columns ev : is_Some (evaluations_of s !! ev) -> is_Some (ci_columns s !! ev);
  cw_one p ev1 e1 ev2 e2 :
    evaluations_of s !! ev1 = Some e1 -> evaluations_of s !! ev2 = Some e2 ->
    indexed s p ev1 e1 = true -> indexed s p ev2 e2 = true -> ev1 = ev2;
}.

Lemma active_terminal st : eval_is_active st = negb (eval_is_terminal st).
Proof. by destruct st. Qed.

Lemma active_in st : bool_decide (st ∈ EVAL_ACTIVE) = eval_is_active st.
Proof. by destruct st. Qed.

(** Nothing becomes active, and the columns the index reads stay. *)
Record calmer s s' : Prop := {
  cm_rows : quiet_evals (evaluations_of s) (evaluations_of s');
  cm_columns ev : ec_concurrent <$> ci_columns s' !! ev = ec_concurrent <$> ci_columns s !! ev;
  cm_next : (ci_next s <= ci_next s')%N;
}.

#[export] Instance calmer_preorder : PreOrder calmer.
Proof.
  split; [intros s; split; [reflexivity|done|lia]|]. intros s1 s2 s3 [R1 C1 N1] [R2 C2 N2]. split; [by etrans|by intros; rewrite C2|lia].
Qed.

Lemma quiet_back m m' ev e' :
  quiet_evals m m' -> m' !! ev = Some e' -> exists e, m !! ev = Some e /\ quiet_row e e'.
Proof. intros Hq He. specialize (Hq ev). rewrite He in Hq. destruct (m !! ev) as [e|]; [by exists e|done]. Qed.

Lemma indexed_back s s' p ev e e' :
  (ec_concurrent <$> ci_columns s' !! ev = ec_concurrent <$> ci_columns s !! ev) -> quiet_row e e' ->
  indexed s' p ev e' = true -> indexed s p ev e = true.
Proof.
  intros Hc [Hp Ht] Hi. unfold indexed in *. rewrite <- Hp.
  apply andb_true_iff in Hi as [Hi Hcol]. apply andb_true_iff in Hi as [-> Ha].
  rewrite active_terminal in *. apply negb_true_iff in Ha. apply andb_true_iff. split.
  - apply negb_true_iff. destruct (eval_is_terminal (ev_status e)); [by rewrite Ht in Ha|done].
  - destruct (ci_columns s' !! ev), (ci_columns s !! ev); simplify_eq/=; congruence.
Qed.

Lemma calmer_wf s s' : ci_wf s -> calmer s s' -> ci_wf s'.
Proof.
  intros [F C O] [R Cc N]. split.
  - intros ev [e' He]. destruct (quiet_back _ _ _ _ R He) as (e & Hx & _).
    enough (ev < ci_next s)%N by lia. apply F. by eexists.
  - intros ev [e' He]. destruct (quiet_back _ _ _ _ R He) as (e & Hx & _).
    apply (fmap_is_Some ec_concurrent). rewrite Cc. apply fmap_is_Some, C. by eexists.
  - intros p ev1 e1 ev2 e2 H1 H2 I1 I2.
    destruct (quiet_back _ _ _ _ R H1) as (f1 & Hf1 & Q1), (quiet_back _ _ _ _ R H2) as (f2 & Hf2 & Q2).
    apply (O p ev1 f1 ev2 f2 Hf1 Hf2); (eapply indexed_back; [apply Cc|eassumption|eassumption]).
Qed.

Lemma one_active_taken_spec s p :
  one_active_taken s p = true <-> exists ev e, evaluations_of s !! ev = Some e /\ indexed s p ev e = true.
Proof.
  unfold one_active_taken. rewrite existsb_exists. split.
  - intros ([ev e] & Hin & Hi). apply list_elem_of_In, elem_of_map_to_list in Hin. by exists ev, e.
  - intros (ev & e & He & Hi). exists (ev, e). split; [|done]. by apply list_elem_of_In, elem_of_map_to_list.
Qed.

(** An insert that goes through. *)
Lemma insert_evaluation_ok s e c s' ev :
  insert_evaluation s e c = Ok (s', ev) ->
  ev = ci_next s /\ evaluations_of s' = <[ev := e]> (evaluations_of s) /\ ci_columns s' = <[ev := c]> (ci_columns s) /\
  ci_next s' = N.succ (ci_next s) /\ ci_projects s' = ci_projects s /\ ci_commits s' = ci_commits s /\
  ci_overrides s' = ci_overrides s /\ ci_input_updates s' = ci_input_updates s /\
  (forall p, ev_project e = Some p -> eval_is_active (ev_status e) = true -> ec_concurrent c = false ->
     one_active_taken s p = false) /\
  (exists m, ci_store s' = on_db (ci_store s) (set_evaluations (st_db (ci_store s)) m)).
Proof.
  unfold insert_evaluation. destruct (_ && _ && _) eqn:E; [done|].
  match goal with |- (if ?b then _ else _) = _ -> _ => destruct b end; [done|].
  intros [= <- <-]. split_and!; try done; [|by eexists].
  intros p Hp Ha Hc. rewrite Ha, Hc, Hp in E. exact E.
Qed.

Lemma insert_wf s e c s' ev : ci_wf s -> insert_evaluation s e c = Ok (s', ev) -> ci_wf s'.
Proof.
  intros [F C O] (-> & Hev & Hcol & Hn & _ & _ & _ & _ & Huniq & _)%insert_evaluation_ok.
  assert (Hfresh : evaluations_of s !! ci_next s = None).
  { apply eq_None_not_Some. intros Hs. apply F in Hs. lia. }
  assert (Hidx : forall p ev e0, ev <> ci_next s -> indexed s' p ev e0 = indexed s p ev e0).
  { intros p ev e0 Hne. unfold indexed. by rewrite Hcol, lookup_insert_ne. }
  split.
  - intros ev. rewrite Hev, Hn. destruct (decide (ev = ci_next s)) as [->|Hne]; [lia|].
    rewrite lookup_insert_ne by done. intros Hs%F. lia.
  - intros ev. rewrite Hev, Hcol. destruct (decide (ev = ci_next s)) as [->|Hne]; [by rewrite !lookup_insert_eq|].
    rewrite !lookup_insert_ne by done. apply C.
  - intros p ev1 e1 ev2 e2. rewrite Hev.
    assert (Hnew : forall ev e0, ev <> ci_next s -> evaluations_of s !! ev = Some e0 ->
      indexed s' p (ci_next s) e = true -> indexed s' p ev e0 = true -> False).
    { intros ev e0 Hne He0 Hi Hi0. rewrite Hidx in Hi0 by done.
      assert (Ht : one_active_taken s p = true) by (apply one_active_taken_spec; by exists ev, e0).
      unfold indexed in Hi. rewrite Hcol, lookup_insert_eq in Hi. apply andb_true_iff in Hi as [Hi Hc%negb_true_iff].
      apply andb_true_iff in Hi as [Hp%bool_decide_eq_true Ha]. rewrite (Huniq p Hp Ha Hc) in Ht. done. }
    destruct (decide (ev1 = ci_next s)) as [->|H1], (decide (ev2 = ci_next s)) as [->|H2];
      rewrite ?lookup_insert_eq, ?lookup_insert_ne by done; intros He1 He2 I1 I2; simplify_eq; [done|..].
    + by destruct (Hnew ev2 e2).
    + by destruct (Hnew ev1 e1).
    + rewrite Hidx in I1, I2 by done. by apply (O p ev1 e1 ev2 e2).
Qed.

(** ** Operations that create nothing *)

Lemma calmer_same s s' :
  evaluations_of s' = evaluations_of s -> ci_columns s' = ci_columns s -> (ci_next s <= ci_next s')%N -> calmer s s'.
Proof. intros He Hc Hn. split; [by rewrite He|by intros; rewrite Hc|done]. Qed.

Lemma calmer_store s w : quiet (ci_store s) w -> calmer s (set_store s w).
Proof. intros Hq. split; [exact Hq|done|done]. Qed.

Lemma calmer_row s ev e e' :
  evaluations_of s !! ev = Some e -> quiet_row e e' -> calmer s (set_evals s (<[ev := e']> (evaluations_of s))).
Proof. intros He Hq. split; [by eapply quiet_insert|done|done]. Qed.

Lemma calmer_columns s f ev :
  (forall c, ec_concurrent (f c) = ec_concurrent c) -> calmer s (set_columns s (alter f ev (ci_columns s))).
Proof.
  intros Hf. split; [done| |done]. intros ev'. simpl. destruct (decide (ev' = ev)) as [->|Hne].
  - rewrite lookup_alter_eq. destruct (ci_columns s !! ev); simpl; [by rewrite Hf|done].
  - by rewrite lookup_alter_ne.
Qed.

Lemma calmer_update_evals s p f :
  (forall e, p e = true -> ev_project (f e) = ev_project e /\ eval_is_terminal (ev_status e) = false) ->
  calmer s (set_store s (on_tables (ci_store s) (fun t => update_evals t p f))).
Proof.
  intros Hf. apply calmer_store. unfold quiet. simpl.
  apply (quiet_map _ (fun _ e => if p e then f e else e)); [|intros; apply lookup_fmap].
  intros _ e. destruct (p e) eqn:Hp; [|done]. destruct (Hf e Hp) as [Hq Ht]. split; [done|congruence].
Qed.

Lemma parked_not_terminal r e : parked_with r e = true -> eval_is_terminal (ev_status e) = false.
Proof. intros [Hs%bool_decide_eq_true _]%andb_true_iff. by rewrite Hs. Qed.

Lemma unpark_calmer s now projects r :
  calmer s (set_store s (on_tables (ci_store s) (fun t => unpark_for_org t now projects r))).
Proof. apply calmer_update_evals. intros e [Hp _]%andb_true_iff. split; [done|]. by eapply parked_not_terminal. Qed.

Lemma unpark_storage_calmer s o now org lim : calmer s (unpark_storage_full s o now org lim).
Proof.
  unfold unpark_storage_full, unpark_storage_full_for_org. destruct (org_caches_all_full _ _ _); [by apply calmer_same|].
  apply unpark_calmer.
Qed.

Lemma foldl_calmer {A} (f : CiDb -> A -> CiDb) l s : (forall s x, calmer s (f s x)) -> calmer s (foldl f s l).
Proof. intros Hf. revert s. induction l as [|x l IH]; intros s; [done|]. simpl. etrans; [apply Hf|apply IH]. Qed.

Lemma approve_calmer s now ev : calmer s (approve s now ev).1.
Proof.
  unfold approve, unpark_approval. destruct (t_evaluations _ !! ev) as [e|] eqn:E; [|by apply calmer_same].
  destruct (parked_with is_approval e) eqn:Hp; [|by apply calmer_same].
  apply (calmer_store s (on_db _ _)). unfold quiet. simpl. eapply quiet_insert; [exact E|]. split; [done|].
  by rewrite (parked_not_terminal _ _ Hp).
Qed.

Lemma abort_calmer s now ev kind : calmer s (ci_abort_evaluation s now ev kind).1.
Proof.
  unfold ci_abort_evaluation. destruct (evaluations_of s !! ev) as [e|] eqn:E; [|done].
  destruct (negb _); [done|]. cbv zeta.
  assert (H1 : calmer s (set_evals s (<[ev := with_aborted now e]> (evaluations_of s)))) by by eapply calmer_row.
  destruct kind; [|exact H1]. etrans; [exact H1|]. by apply calmer_same.
Qed.

Lemma alter_found {A} (f : A -> A) (m : gmap N A) (i : N) (x : A) : m !! i = Some x -> alter f i m = <[i := f x]> m.
Proof.
  intros Hx. apply map_eq. intros j. destruct (decide (j = i)) as [->|Hne].
  - by rewrite lookup_alter_eq, Hx, lookup_insert_eq.
  - by rewrite lookup_alter_ne, lookup_insert_ne.
Qed.

(** ** The gates *)

(** Why the gates park, if they do. *)
Definition gate_reason (o : OrgTables) (approval : option ApprovalInfo) (org : OrganizationId) (max_storage_gb : Z)
    : option WaitingReason :=
  match approval with
  | Some a => Some (WApproval (ai_pr_number a) (ai_pr_author a))
  | None =>
      if negb (org_has_writable_cache o org) then Some WNoCache
      else if org_caches_all_full o org max_storage_gb then Some WCacheStorageFull
      else if negb (org_has_eval_capable_worker_registration o org) then Some (WWorkers [] 0 [])
      else None
  end.

Definition gated_row (r : option WaitingReason) (now : NaiveDateTime) e : EvaluationRow :=
  match r with Some r => with_park r now e | None => e end.

Lemma run_gates_spec o now approval org lim s ev e :
  evaluations_of s !! ev = Some e -> ev_status e = EQueued ->
  run_gates o now approval org lim (s, (ev, e)) =
  (match gate_reason o approval org lim with
   | Some r => set_evals s (<[ev := with_park r now e]> (evaluations_of s))
   | None => s end, (ev, gated_row (gate_reason o approval org lim) now e)).
Proof.
  intros He Hs. assert (Hpark : forall r, park_as r now (s, (ev, e)) =
    (set_evals s (<[ev := with_park r now e]> (evaluations_of s)), (ev, with_park r now e))).
  { intros r. unfold park_as. by rewrite (alter_found _ _ _ e). }
  unfold run_gates, park_if_pending_approval, park_if_no_cache, park_if_storage_full, park_if_no_workers, gate_reason.
  assert (Hq : forall ready r, park_unless ready r now (s, (ev, e)) = if ready then (s, (ev, e)) else park_as r now (s, (ev, e))).
  { intros ready r. unfold park_unless. simpl. by rewrite Hs. }
  assert (Hw : forall ready r s' r', park_unless ready r now (s', (ev, with_park r' now e)) = (s', (ev, with_park r' now e))) by done.
  destruct approval as [a|]; [by rewrite Hq, Hpark, !Hw|].
  rewrite Hq. destruct (org_has_writable_cache o org); cbn [negb]; [|by rewrite Hpark, !Hw].
  rewrite Hq. destruct (org_caches_all_full o org lim); cbn [negb]; [by rewrite Hpark, !Hw|].
  rewrite Hq. destruct (org_has_eval_capable_worker_registration o org); [done|]. by rewrite Hpark.
Qed.

(** ** Creating *)

Lemma ensure_spec s p :
  match ensure_no_active_evaluation s p with
  | Ok _ => forall ev e, evaluations_of s !! ev = Some e -> ev_project e = Some p -> eval_is_active (ev_status e) = false
  | Err e => e = AlreadyInProgress /\
      exists ev e, evaluations_of s !! ev = Some e /\ ev_project e = Some p /\ eval_is_active (ev_status e) = true
  end.
Proof.
  unfold ensure_no_active_evaluation. destruct (existsb _ _) eqn:E.
  - split; [done|]. apply existsb_exists in E as ([ev e] & Hin & [Hp%bool_decide_eq_true Hs]%andb_true_iff).
    simpl in Hp, Hs. apply list_elem_of_In, elem_of_map_to_list in Hin. exists ev, e. split_and!; [done..|]. by destruct (ev_status e).
  - intros ev e He Hp. destruct (eval_is_active (ev_status e)) eqn:Ha; [|done]. exfalso.
    rewrite <- not_true_iff_false in E. apply E, existsb_exists. exists (ev, e).
    split; [by apply list_elem_of_In, elem_of_map_to_list|]. simpl. rewrite bool_decide_eq_true_2 by done. by destruct (ev_status e).
Qed.

Lemma insert_commit_calmer s c : calmer s (insert_commit s c).1.
Proof. apply calmer_same; simpl; [done|done|lia]. Qed.

(** The state an evaluation is inserted into, and the outcome when nothing is in the way. *)
Lemma create_evaluation_wf s now p project n : ci_wf s -> ci_wf (create_evaluation s now p project n).1.
Proof.
  intros Hwf. unfold create_evaluation. destruct (insert_commit s _) as [s1 commit] eqn:E1.
  assert (H1 : ci_wf s1) by (eapply calmer_wf; [exact Hwf|]; change s1 with (s1, commit).1; rewrite <- E1; apply insert_commit_calmer).
  destruct (insert_evaluation s1 _ _) as [[s2 ev]|e] eqn:E2; [|done]. simpl.
  eapply calmer_wf; [by eapply insert_wf|]. by apply calmer_same.
Qed.

Lemma create_input_update_wf s now p project base target d trigger :
  ci_wf s -> ci_wf (create_input_update_eval s now p project base target d trigger).1.
Proof.
  intros Hwf. unfold create_input_update_eval. destruct (insert_commit s _) as [s1 commit] eqn:E1.
  assert (H1 : ci_wf s1) by (eapply calmer_wf; [exact Hwf|]; change s1 with (s1, commit).1; rewrite <- E1; apply insert_commit_calmer).
  destruct (insert_evaluation s1 _ _) as [[s2 ev]|e] eqn:E2; [|done]. simpl.
  eapply calmer_wf; [by eapply insert_wf|]. by apply calmer_same.
Qed.

Lemma create_each_wf targets s now p project base trigger :
  ci_wf s -> ci_wf (create_each s now p project base targets trigger).1.
Proof.
  revert s. induction targets as [|[target d] targets IH]; intros s Hwf; [done|]. cbn [create_each].
  assert (H1 := create_input_update_wf s now p project base target d trigger Hwf).
  revert H1. destruct (create_input_update_eval _ _ _ _ _ _ _ _) as [s1 [ev|e]]; intros H1; [|done].
  specialize (IH s1 H1). revert IH. by destruct (create_each _ _ _ _ _ _ _) as [s2 [evs|e]].
Qed.

(** What another connection may do in between. *)
Definition preserves_wf (between : CiDb -> CiDb) : Prop := forall s, ci_wf s -> ci_wf (between s).

Lemma trigger_evaluation_wf between s now p project n :
  preserves_wf between -> ci_wf s -> ci_wf (trigger_evaluation between s now p project n).1.
Proof.
  intros Hb Hwf. unfold trigger_evaluation.
  destruct (if ne_concurrent n then _ else _); [|done]. by apply create_evaluation_wf, Hb.
Qed.

(** The row a created evaluation has. *)
Lemma create_row s now p project n s' ev :
  create_evaluation s now p project n = (s', Ok ev) -> evaluations_of s' !! ev = Some (new_row p EQueued KNormal now).
Proof.
  unfold create_evaluation. destruct (insert_commit s _) as [s1 commit].
  destruct (insert_evaluation s1 _ _) as [[s2 ev']|e] eqn:E2; [|done]. intros [= <- <-].
  apply insert_evaluation_ok in E2 as (-> & Hev & _).
  change (evaluations_of s2 !! ci_next s1 = Some (new_row p EQueued KNormal now)). by rewrite Hev, lookup_insert_eq.
Qed.

Lemma resolve_concurrency_calmer s now project running : calmer s (resolve_concurrency s now project running).1.
Proof.
  unfold resolve_concurrency. destruct running as [r|]; [|done]. destruct (pj_concurrency project); try done.
  - assert (H1 := abort_calmer s now r AbortHard). revert H1. by destruct (ci_abort_evaluation _ _ _ _).
  - assert (H1 := abort_calmer s now r AbortSoft). revert H1. by destruct (ci_abort_evaluation _ _ _ _).
Qed.

Lemma apply_trigger_wf between o s now p project input :
  preserves_wf between -> ci_wf s -> ci_wf (apply_trigger between o s now p project input).1.
Proof.
  intros Hb Hwf. unfold apply_trigger. cbv zeta. destruct (skip_for_same_commit _ _ _ _); [done|].
  assert (H1 := calmer_wf _ _ Hwf (resolve_concurrency_calmer s now project (in_flight_of s p))).
  revert H1. destruct (resolve_concurrency _ _ _ _) as [s1 [decision|]]; intros H1; simpl in H1; [|done].
  match goal with |- context [trigger_evaluation between s1 now p project ?n] =>
    assert (H2 := trigger_evaluation_wf between s1 now p project n Hb H1);
    destruct (trigger_evaluation between s1 now p project n) as [s2 [ev|e]] eqn:E2 end; [|by destruct e as [| |[]]].
  simpl in H2. unfold trigger_evaluation in E2. destruct (if ne_concurrent _ then _ else _); [|done].
  apply create_row in E2. rewrite run_gates_spec by done. simpl.
  destruct (gate_reason _ _ _ _); [|done]. eapply calmer_wf; [exact H2|]. by eapply calmer_row.
Qed.

Lemma restart_wf between s now p :
  preserves_wf between -> ci_wf s -> ci_wf (trigger_restart_builds between s now p).1.
Proof.
  intros Hb Hwf. unfold trigger_restart_builds. destruct (ensure_no_active_evaluation s p); [|done].
  destruct (latest_evaluation _ _) as [[prev e]|]; [|by apply Hb]. cbv zeta.
  destruct (insert_evaluation _ _ _) as [[s2 ev]|] eqn:E2; [|by apply Hb].
  eapply calmer_wf; [eapply insert_wf; [by apply Hb|exact E2]|]. by apply calmer_same.
Qed.

Lemma drv_recovery_wf s now p stuck : ci_wf s -> ci_wf (trigger_drv_recovery s now p stuck).1.
Proof.
  intros Hwf. unfold trigger_drv_recovery. assert (H1 := calmer_wf _ _ Hwf (abort_calmer s now stuck AbortSoft)).
  revert H1. destruct (ci_abort_evaluation _ _ _ _) as [s1 l]. simpl. intros H1.
  destruct (insert_evaluation _ _ _) as [[s2 ev]|] eqn:E2; [|done].
  eapply calmer_wf; [by eapply insert_wf|]. by apply calmer_same.
Qed.

Lemma input_update_wf s now p project base trigger :
  ci_wf s -> ci_wf (maybe_trigger_input_update s now p project base trigger).1.
Proof.
  intros Hwf. unfold maybe_trigger_input_update. destruct (open_pr_action s p) as [a|]; [|done].
  destruct (act_granularity a); [|done]. cbv zeta. destruct (existsb _ _); [done|]. destruct (map fst _); [done|].
  destruct (active_input_updates _ _); [|done]. by apply create_each_wf.
Qed.

(** Every way the CI tables change. [between] is what other connections do while an
    evaluation is being created. *)
Inductive ci_step (between : CiDb -> CiDb) : CiDb -> CiDb -> Prop :=
| ci_apply o s now p project input : ci_step between s (apply_trigger between o s now p project input).1
| ci_trigger s now p project n : ci_step between s (trigger_evaluation between s now p project n).1
| ci_park s r now ev e :
    evaluations_of s !! ev = Some e -> ev_status e = EQueued -> ci_step between s (park_as r now (s, (ev, e))).1
| ci_restart s now p : ci_step between s (trigger_restart_builds between s now p).1
| ci_recovery s now p stuck : ci_step between s (trigger_drv_recovery s now p stuck).1
| ci_input_update s now p project base trigger :
    ci_step between s (maybe_trigger_input_update s now p project base trigger).1
| ci_fan_out s now p project base matched trigger :
    ci_step between s (fan_out_expansion s now p project base matched trigger).1
| ci_unpark_cache s now org : ci_step between s (unpark_no_cache s now org)
| ci_unpark_storage s o now lim : ci_step between s (unpark_storage_full_all s o now lim)
| ci_unpark_workers s o now org : ci_step between s (unpark_no_workers s o now org)
| ci_approve s now ev : ci_step between s (approve s now ev).1
| ci_approve_wildcard s now ev wildcard : ci_step between s (unpark_approval_with_wildcard s now ev wildcard).1
| ci_source_comment s now ev sc : ci_step between s (set_evaluation_source_comment s now ev sc)
| ci_server s w : server_step (ci_store s) w -> ci_step between s (set_store s w).

Lemma fan_out_wf s now p project base matched trigger :
  ci_wf s -> ci_wf (fan_out_expansion s now p project base matched trigger).1.
Proof. by apply create_each_wf. Qed.

Lemma ci_step_wf between s s' : preserves_wf between -> ci_wf s -> ci_step between s s' -> ci_wf s'.
Proof.
  intros Hb Hwf Hstep. destruct Hstep.
  - by apply apply_trigger_wf.
  - by apply trigger_evaluation_wf.
  - eapply calmer_wf; [exact Hwf|]. unfold park_as. simpl. rewrite (alter_found _ _ ev e) by done.
    eapply calmer_row; [done|]. split; [done|]. simpl. by replace (ev_status e) with EQueued.
  - by apply restart_wf.
  - by apply drv_recovery_wf.
  - by apply input_update_wf.
  - by apply fan_out_wf.
  - eapply calmer_wf; [exact Hwf|apply unpark_calmer].
  - eapply calmer_wf; [exact Hwf|]. apply foldl_calmer. intros. apply unpark_storage_calmer.
  - eapply calmer_wf; [exact Hwf|]. unfold unpark_no_workers, unpark_no_workers_for_org.
    destruct (negb _); [by apply calmer_same|apply unpark_calmer].
  - eapply calmer_wf; [exact Hwf|apply approve_calmer].
  - eapply calmer_wf; [exact Hwf|]. unfold unpark_approval_with_wildcard.
    assert (H1 := approve_calmer s now ev). revert H1. destruct (approve s now ev) as [s1 [e|]]; intros H1; [|exact H1].
    etrans; [exact H1|]. by apply calmer_columns.
  - eapply calmer_wf; [exact Hwf|]. unfold set_evaluation_source_comment.
    destruct (evaluations_of s !! ev) as [e|] eqn:E; [|done]. etrans; [by apply (calmer_columns s (with_source_comment sc) ev)|].
    cbv zeta. rewrite (alter_found _ _ ev e) by done. by apply calmer_row with e.
  - eapply calmer_wf; [exact Hwf|]. by apply calmer_store, server_step_quiet.
Qed.

(** ** What applying a trigger finds *)

Lemma active_evaluations_spec s p ev e :
  (ev, e) ∈ active_evaluations s p <->
  evaluations_of s !! ev = Some e /\ ev_project e = Some p /\ eval_is_active (ev_status e) = true.
Proof.
  unfold active_evaluations. rewrite list_elem_of_In, filter_In, <- list_elem_of_In, elem_of_map_to_list, andb_true_iff.
  simpl. by rewrite active_in, bool_decide_eq_true.
Qed.

Lemma in_flight_found s p running :
  in_flight_of s p = Some running -> exists e, evaluations_of s !! running = Some e /\ indexed s p running e = true.
Proof.
  unfold in_flight_of. destruct (List.find _ _) as [[ev e]|] eqn:E; intros [= <-].
  apply find_some in E as [Hin Hc]. apply list_elem_of_In, active_evaluations_spec in Hin as (He & Hp & Ha).
  exists e. split; [done|]. unfold indexed. rewrite bool_decide_eq_true_2, Ha by done. exact Hc.
Qed.

Lemma in_flight_none s p : in_flight_of s p = None -> one_active_taken s p = false.
Proof.
  unfold in_flight_of. destruct (List.find _ _) as [|] eqn:E; [done|]. intros _. apply not_true_iff_false.
  intros (ev & e & He & Hi)%one_active_taken_spec. unfold indexed in Hi.
  apply andb_true_iff in Hi as [[Hp%bool_decide_eq_true Ha]%andb_true_iff Hc].
  assert (Hin : (ev, e) ∈ active_evaluations s p) by by apply active_evaluations_spec.
  apply list_elem_of_In in Hin. apply (find_none _ _ E) in Hin. simpl in Hin. congruence.
Qed.

Definition allows_all project : bool := match pj_concurrency project with AllowAll => true | _ => false end.

(** The evaluation the policy of the project ends. *)
Definition superseded s project p : option EvaluationId :=
  match pj_concurrency project with HardAbort | SoftAbort => in_flight_of s p | _ => None end.

Definition end_row (now : NaiveDateTime) (running : option EvaluationId) (m : gmap EvaluationId EvaluationRow) :=
  match running with Some r => alter (with_aborted now) r m | None => m end.

Lemma abort_spec s now ev kind e :
  evaluations_of s !! ev = Some e -> eval_is_active (ev_status e) = true ->
  exists w l, ci_abort_evaluation s now ev kind = (set_store s w, l) /\
    t_evaluations (st_db w) = alter (with_aborted now) ev (evaluations_of s).
Proof.
  intros He Ha. unfold ci_abort_evaluation. rewrite He, Ha, (alter_found _ _ _ e) by done. cbv zeta. simpl.
  destruct kind; [|by eexists _, _]. eexists _, _. split; [by unfold ci_abort_eval_anchors|done].
Qed.

Lemma ci_resolve_spec s now project p :
  exists w, (resolve_concurrency s now project (in_flight_of s p)).1 = set_store s w /\
    t_evaluations (st_db w) = end_row now (superseded s project p) (evaluations_of s) /\
    match (resolve_concurrency s now project (in_flight_of s p)).2 with
    | Some d => cd_concurrent_flag d = allows_all project /\
                cd_aborted_evaluation d = superseded s project p /\
                (pj_concurrency project = SkipNew -> in_flight_of s p = None)
    | None => pj_concurrency project = SkipNew /\ is_Some (in_flight_of s p) /\ w = ci_store s
    end.
Proof.
  assert (Hself : s = set_store s (ci_store s)) by by destruct s.
  unfold resolve_concurrency, superseded, allows_all. destruct (in_flight_of s p) as [r|] eqn:Hf.
  - apply in_flight_found in Hf as (e & He & Hi). unfold indexed in Hi.
    apply andb_true_iff in Hi as [[_ Ha]%andb_true_iff _].
    destruct (pj_concurrency project).
    + destruct (abort_spec s now r AbortHard e He Ha) as (w & l & -> & Hw). by exists w.
    + destruct (abort_spec s now r AbortSoft e He Ha) as (w & l & -> & Hw). by exists w.
    + by exists (ci_store s).
    + by exists (ci_store s).
  - exists (ci_store s). by destruct (pj_concurrency project).
Qed.

(** The columns a created evaluation has. *)
Definition new_columns s (now : NaiveDateTime) project (n : NewEvaluation) : EvalColumns := {|
  ec_repository := default (pj_repository project) (ne_repository_override n); ec_commit := ci_next s;
  ec_wildcard := default (pj_wildcard project) (ne_wildcard_override n); ec_previous := resolved_previous s project;
  ec_created_at := now; ec_flake_source := None; ec_trigger := ne_trigger n; ec_started_by := ne_started_by n;
  ec_concurrent := ne_concurrent n; ec_source_comment := ne_source_comment n |}.

Lemma create_evaluation_spec s now p project n :
  match create_evaluation s now p project n with
  | (s', Ok ev) =>
      (ne_concurrent n = false -> one_active_taken s p = false) /\ ev = N.succ (ci_next s) /\
      evaluations_of s' = <[ev := new_row p EQueued KNormal now]> (evaluations_of s) /\
      ci_columns s' = <[ev := new_columns s now project n]> (ci_columns s) /\
      ci_commits s' = <[ci_next s := {| cm_hash := ne_commit_hash n; cm_message := default ""%string (ne_commit_message n);
        cm_author_name := default ""%string (ne_author_name n) |}]> (ci_commits s)
  | (s', Err e) => e = TriggerDb UniqueOneActive /\ ne_concurrent n = false /\ one_active_taken s p = true /\
      evaluations_of s' = evaluations_of s
  end.
Proof.
  unfold create_evaluation, insert_commit. cbv zeta. cbn [fst snd].
  match goal with |- context [insert_evaluation ?s1 ?e ?c] => set (sc := s1); set (cols := c) end.
  assert (Htaken : one_active_taken sc p = one_active_taken s p) by done.
  unfold insert_evaluation. simpl (ev_project _). simpl (ev_status _). cbv iota. rewrite Htaken.
  replace (match ec_previous cols with Some p => negb (bool_decide (is_Some (evaluations_of sc !! p))) | None => false end) with false.
  2:{ subst cols. simpl. unfold resolved_previous. destruct (pj_last_evaluation project); [|done].
      case_bool_decide as Hs; [|done]. change (evaluations_of sc) with (evaluations_of s). by rewrite bool_decide_eq_true_2. }
  change (ec_concurrent cols) with (ne_concurrent n). simpl.
  destruct (ne_concurrent n) eqn:Ec, (one_active_taken s p); simpl; split_and!; try done;
    subst cols; unfold new_columns; by rewrite Ec.
Qed.

(** Another evaluation of the project still runs, one the policy does not reach. *)
Definition other_active s project p : Prop :=
  exists ev e, evaluations_of s !! ev = Some e /\ ev_project e = Some p /\ eval_is_active (ev_status e) = true /\
    superseded s project p <> Some ev.

Lemma end_row_lookup now running m ev :
  end_row now running m !! ev = if bool_decide (running = Some ev) then with_aborted now <$> m !! ev else m !! ev.
Proof.
  unfold end_row. destruct running as [r|]; [|done]. case_bool_decide as Heq.
  - simplify_eq. apply lookup_alter_eq.
  - apply lookup_alter_ne. congruence.
Qed.

(** An active row after the policy was applied is one it does not reach. *)
Lemma ended_active s now project p ev e :
  end_row now (superseded s project p) (evaluations_of s) !! ev = Some e -> eval_is_active (ev_status e) = true ->
  evaluations_of s !! ev = Some e /\ superseded s project p <> Some ev.
Proof.
  rewrite end_row_lookup. case_bool_decide as Heq; [|done].
  intros (e0 & _ & ->)%fmap_Some Ha. by simpl in Ha.
Qed.

Lemma ended_ensure s now project p w :
  t_evaluations (st_db w) = end_row now (superseded s project p) (evaluations_of s) ->
  match ensure_no_active_evaluation (set_store s w) p with
  | Ok _ => ~ other_active s project p /\ one_active_taken (set_store s w) p = false
  | Err e => e = AlreadyInProgress /\ other_active s project p
  end.
Proof.
  intros Hw. assert (H1 := ensure_spec (set_store s w) p). destruct (ensure_no_active_evaluation _ _) as [|err].
  - change (evaluations_of (set_store s w)) with (t_evaluations (st_db w)) in H1. split.
    + intros (ev & e & He & Hp & Ha & Hne). specialize (H1 ev e). rewrite Hw, end_row_lookup, bool_decide_eq_false_2 in H1 by done.
      rewrite H1 in Ha by done. done.
    + apply not_true_iff_false. intros (ev & e & He & Hi)%one_active_taken_spec. unfold indexed in Hi.
      apply andb_true_iff in Hi as [[Hp%bool_decide_eq_true Ha]%andb_true_iff _]. rewrite (H1 ev e) in Ha; done.
  - destruct H1 as (-> & ev & e & He & Hp & Ha). split; [done|].
    change (evaluations_of (set_store s w)) with (t_evaluations (st_db w)) in He. rewrite Hw in He.
    destruct (ended_active _ _ _ _ _ _ He Ha) as [He0 Hne]. by exists ev, e.
Qed.

Lemma same_commit_spec s project p input :
  skip_for_same_commit s project input (in_flight_of s p) = true ->
  in_manual input = false /\ in_trigger_type input <> TypeTime /\
  exists prev, (in_flight_of s p = Some prev \/ pj_last_evaluation project = Some prev) /\
    commit_hash_of s prev = Some (in_commit_hash input).
Proof.
  unfold skip_for_same_commit. intros [[Hm%negb_true_iff Ht%negb_true_iff%bool_decide_eq_false]%andb_true_iff Hor]%andb_true_iff.
  split_and!; [done..|]. apply orb_true_iff in Hor as [Hor|Hor].
  - destruct (in_flight_of s p) as [r|]; [|done]. apply andb_true_iff in Hor as [_ Hc%bool_decide_eq_true]. eauto.
  - destruct (pj_last_evaluation project) as [r|]; [|done]. apply andb_true_iff in Hor as [_ Hc%bool_decide_eq_true]. eauto.
Qed.

Lemma commit_hash_kept s m ev : commit_hash_of (set_evals s m) ev = commit_hash_of s ev.
Proof. done. Qed.


(** Whatever the policy, a trigger that meets another running evaluation creates nothing. *)
Lemma apply_blocked between o s now p project input :
  allows_all project = false -> other_active s project p ->
  exists s', (apply_trigger between o s now p project input = (s', Ok SkippedSameCommit) /\ s' = s) \/
    (apply_trigger between o s now p project input = (s', Ok SkippedConcurrency) /\
     evaluations_of s' = end_row now (superseded s project p) (evaluations_of s)).
Proof.
  intros Ha Ho. unfold apply_trigger. cbv zeta. destruct (skip_for_same_commit _ _ _ _); [exists s; by left|].
  destruct (ci_resolve_spec s now project p) as (w & Hw & Hrows & Hd).
  destruct (resolve_concurrency s now project (in_flight_of s p)) as [s1 [d|]]; simpl in Hw, Hd; subst s1;
    exists (set_store s w); right; [|by split].
  destruct Hd as (Hc & _). unfold trigger_evaluation. cbn [ne_concurrent]. rewrite Hc, Ha.
  assert (Hens := ended_ensure s now project p w Hrows).
  destruct (ensure_no_active_evaluation _ _); destruct Hens as [-> Hens] || destruct Hens as [Hens _]; by split.
Qed.

(** ** Evaluations that bump inputs *)

Definition bumping s p ev : Prop :=
  exists e c, evaluations_of s !! ev = Some e /\ ci_columns s !! ev = Some c /\ ev_project e = Some p /\
    ev_status e = EQueued /\ ev_kind e = KInputUpdate /\ ec_concurrent c = true.

Definition rows_below (n : N) s s' : Prop :=
  forall ev, (ev < n)%N -> evaluations_of s' !! ev = evaluations_of s !! ev /\ ci_columns s' !! ev = ci_columns s !! ev.

Lemma create_input_update_spec s now p project base target d trigger :
  let '(s', r) := create_input_update_eval s now p project base target d trigger in
  r = Ok (N.succ (ci_next s)) /\ ci_next s' = N.succ (N.succ (ci_next s)) /\ rows_below (ci_next s) s s' /\
  bumping s' p (N.succ (ci_next s)).
Proof.
  unfold create_input_update_eval. simpl. split_and!; [done|done| |].
  - intros ev Hev. unfold evaluations_of. simpl. by rewrite !lookup_insert_ne by lia.
  - eexists _, _. unfold evaluations_of. simpl. rewrite !lookup_insert_eq. by split_and!.
Qed.

Lemma create_each_spec targets now p project base trigger : forall s,
  exists s' evs, create_each s now p project base targets trigger = (s', Ok evs) /\ length evs = length targets /\
    (ci_next s <= ci_next s')%N /\ rows_below (ci_next s) s s' /\ forall ev, ev ∈ evs -> bumping s' p ev.
Proof.
  induction targets as [|[target d] targets IH]; intros s.
  { exists s, []. split_and!; [done|done|lia|done|]. intros ev Hev. by apply elem_of_nil in Hev. }
  cbn [create_each]. assert (H1 := create_input_update_spec s now p project base target d trigger).
  destruct (create_input_update_eval _ _ _ _ _ _ _ _) as [s1 r]. destruct H1 as (-> & Hn1 & Hb1 & Hev1).
  destruct (IH s1) as (s' & evs & -> & Hlen & Hn & Hb & Hevs). exists s', (N.succ (ci_next s) :: evs).
  split_and!; [done|simpl; lia|lia| |].
  - intros ev Hev. destruct (Hb ev) as [-> ->]; [lia|]. by apply Hb1.
  - intros ev [->|Hin]%elem_of_cons; [|by apply Hevs]. destruct Hev1 as (e & c & He & Hc & Hrest).
    exists e, c. destruct (Hb (N.succ (ci_next s))) as [-> ->]; [lia|done].
Qed.

(** An evaluation that bumps inputs is one no policy reaches. *)
Lemma bumping_other s project p ev : bumping s p ev -> other_active s project p.
Proof.
  intros (e & c & He & Hc & Hp & Hs & _ & Hcon). exists ev, e. split_and!; [done|done|by rewrite Hs|].
  assert (Hf : in_flight_of s p <> Some ev).
  { intros (e' & He' & Hi)%in_flight_found. unfold indexed in Hi. by rewrite Hc, Hcon, andb_false_r in Hi. }
  unfold superseded. by destruct (pj_concurrency project).
Qed.

Lemma maybe_trigger_bumping s now p project base trigger s' evs :
  maybe_trigger_input_update s now p project base trigger = (s', Ok evs) ->
  rows_below (ci_next s) s s' /\ forall ev, ev ∈ evs -> bumping s' p ev.
Proof.
  intros Hm. assert (Hnone : forall s0 : CiDb, (s0, @Ok (list EvaluationId) TriggerError []) = (s', Ok evs) -> s0 = s ->
    rows_below (ci_next s) s s' /\ forall ev, ev ∈ evs -> bumping s' p ev).
  { intros s0 [= <- <-] ->. split; [done|]. intros ev Hev. by apply elem_of_nil in Hev. }
  unfold maybe_trigger_input_update in Hm. destruct (open_pr_action s p) as [a|]; [|by eapply Hnone].
  destruct (act_granularity a) as [g|]; [|by eapply Hnone]. cbv zeta in Hm. destruct (existsb _ _); [by eapply Hnone|].
  destruct (map fst (overrides_of s p)) as [|x l]; [by eapply Hnone|].
  destruct (active_input_updates s p); [|by eapply Hnone].
  destruct (create_each_spec (update_targets g (x :: l)) now p project base trigger s) as (s1 & evs1 & Hc & _ & _ & Hb & Hevs).
  rewrite Hc in Hm. by simplify_eq.
Qed.

End ci_facts.
