(* ===== verification/TriggerLoop.v ===== *)
(** * Dispatching queued evaluations

    [backend/gradient-scheduler/src/dispatch/eval.rs]: every queued evaluation the tracker
    does not hold yet becomes a pending evaluation job.

    [ORDER BY input_name] sorts by bytes. The histories are a function. *)

From S2P Require Import Prelude Float RustStr Status ScoreContext Proto JobData JobTracker WorkerPool EdgeStream Scheduler Retry BuildGraph Promotion Transitions Healing WaitingState EvalResult Access Tokens Wildcard Glob CiState Triggering.

Local Open Scope Z_scope.

(** [vec_to_hex] *)
Fixpoint vec_to_hex (v : string) : string :=
  match v with
  | EmptyString => ""
  | String b v' => hex_byte (Z.of_nat (nat_of_ascii b)) +:+ vec_to_hex v'
  end.

Section dispatch_eval.
Context `{CH : Chrono} {SD : Serde} {HO : HashOrder} {UF : UuidFormat} `{!TriggerCodec}.
Implicit Types (s : CiDb) (ev : EvaluationId).

(** [flake_job_for_eval_source] *)
Definition flake_job_for_eval_source (repository commit_sha : string) (wildcards : list string) (split_fetch : bool)
    (input_overrides : list FlakeInputOverride) (input_update : option InputUpdateSpec) : FlakeJob * list RequiredPath :=
  let tasks := if split_fetch then [FetchFlake] else [FetchFlake; EvaluateFlake; EvaluateDerivations] in
  let job source := {|
    fj_tasks := tasks; fj_source := source; fj_wildcards := wildcards; fj_timeout_secs := None;
    fj_input_overrides := input_overrides; fj_input_update := input_update |} in
  if RustStr.starts_with repository "/nix/store/"
  then (job (Cached repository), [{| rp_path := repository; rp_cache_info := None |}])
  else (job (Repository repository commit_sha), []).

(** [EvalDispatchMaps]: the sidecar of an input update, and the overrides in order. *)
Definition sidecar_of s ev (e : EvaluationRow) : option InputUpdateRow :=
  match ev_kind e with
  | KInputUpdate => List.find (fun u => N.eqb (iur_evaluation u) ev) (ci_input_updates s)
  | _ => None
  end.

Definition input_overrides_of s ev : list FlakeInputOverride :=
  map (fun o => {| input_name := o.1; input_url := o.2 |})
    (sort_by (fun a b : Override => String.compare a.1 b.1)
       (map snd (List.filter (fun x => N.eqb x.1 ev) (ci_eval_overrides s)))).

(** The job of one evaluation, when its commit and its organization are found. *)
Definition eval_job_for s (split_fetch : bool) (history : ProjectId -> HistoryPrediction)
    (x : EvaluationId * EvaluationRow) : option PendingEvalJob :=
  let '(ev, e) := x in
  match ci_columns s !! ev with
  | None => None
  | Some c =>
      match ci_commits s !! ec_commit c with
      | None => None
      | Some commit =>
          let sidecar := sidecar_of s ev e in
          let commit_sha := match sidecar with Some u => iur_base_commit u | None => vec_to_hex (cm_hash commit) end in
          let input_update := option_map (fun u => {| iu_generator := iur_generator u;
            iu_inputs := iur_target_inputs u; iu_discover_only := iur_discover_only u |}) sidecar in
          let '(job, required_paths) := flake_job_for_eval_source (ec_repository c) commit_sha
            (patterns_of (ec_wildcard c)) split_fetch (input_overrides_of s ev) input_update in
          match ev_project e with
          | None => None
          | Some p =>
              match ci_projects s !! p with
              | None => None
              | Some project => Some {|
                  pe_evaluation_id := ev; pe_project_id := ev_project e; pe_org_id := pj_organization project;
                  pe_commit_id := ec_commit c; pe_repository := ec_repository c; pe_job := job;
                  pe_required_paths := required_paths; pe_queued_at := ev_updated_at e; pe_ready_at := ev_updated_at e;
                  pe_rescore_count := 0; pe_history := history p |}
              end
          end
      end
  end.

Definition queued_untracked (sched : Scheduler) s : list (EvaluationId * EvaluationRow) :=
  List.filter (fun x => bool_decide (ev_status x.2 = EQueued) && negb (contains_job (sch_tracker sched) (eval_job_id x.1)))
    (map_to_list (evaluations_of s)).

Definition dispatch_queued_evals (sched : Scheduler) s (draining : bool) (history : ProjectId -> HistoryPrediction)
    : Scheduler :=
  if draining then sched
  else
    let split_fetch := has_idle_eval_only_worker (sch_pool sched) in
    foldl (fun sched x => match eval_job_for s split_fetch history x with
      | Some job => (enqueue_eval_job sched (eval_job_id x.1) job).1
      | None => sched end) sched (queued_untracked sched s).

(** ** What a pass enqueues *)

Definition pending_evals (sched : Scheduler) : gmap string PendingJob := jt_pending (sch_tracker sched).

Lemma enqueue_eval_pending sched id job k :
  jt_pending (sch_tracker (enqueue_eval_job sched id job).1) !! k =
  if contains_job (sch_tracker sched) id then jt_pending (sch_tracker sched) !! k
  else <[id := PendingEval job]> (jt_pending (sch_tracker sched)) !! k.
Proof. unfold enqueue_eval_job, add_pending, contains_job. by destruct (_ || _). Qed.

End dispatch_eval.

(** * When triggers fire

    [backend/gradient-scheduler/src/trigger_dispatch.rs], the check for a new commit of
    [backend/gradient-sources/src/git/update_check.rs], and the endpoints that start an
    evaluation by hand: [post_project_evaluate] and [fire_now] of
    [backend/gradient-web/src/endpoints/projects/].

    What a remote answers ([ls_remote_head], [get_commit_info]) and the hasher of the
    standard library are arguments. *)

(** What the git remotes answer: the commit of a branch, and a commit's message and author. *)
Class GitRemote := {
  ls_remote_head : string -> option string -> result string string;
  commit_info_of : string -> string -> result (string * string) string;
}.

(** [DefaultHasher] over a trigger and the time it last fired. *)
Class JitterHash `{Chrono} := {
  jitter_hash : TriggerId -> NaiveDateTime -> Z;
  jitter_hash_u64 t x : 0 <= jitter_hash t x < 2 ^ 64;
}.

Section trigger_loop.
Context `{CH : Chrono} {SD : Serde} {HO : HashOrder} {UF : UuidFormat} `{!Calendar} `{!CronLib} `{!TriggerCodec} `{!JitterHash} {GR : GitRemote}.
Implicit Types (s : CiDb) (ev : EvaluationId).

(** ** Due triggers *)

Definition POLLING_JITTER_PCT : Z := 10.

Definition polling_jitter_secs (trigger_id : TriggerId) (last_fired_at : NaiveDateTime) (interval_secs : Z) : Z :=
  let max := interval_secs / (100 / POLLING_JITTER_PCT) in
  if max =? 0 then 0 else jitter_hash trigger_id last_fired_at mod (max + 1).

Definition polling_due (trigger_id : TriggerId) (last_fired_at : option NaiveDateTime) (interval_secs : Z)
    (now : NaiveDateTime) : bool :=
  match last_fired_at with
  | None => true
  | Some t => interval_secs + polling_jitter_secs trigger_id t interval_secs <=? num_seconds_between now t
  end.

Definition datetime_leb (a b : NaiveDateTime) : bool := match datetime_cmp a b with Gt => false | _ => true end.

Definition cron_due (cron_expr : string) (last_fired_at : option NaiveDateTime) (now : NaiveDateTime) : bool :=
  match parse_schedule cron_expr with
  | Err _ => false
  | Ok sched =>
      match schedule_after sched (default (one_day_before now) last_fired_at) with
      | Some next => datetime_leb next now
      | None => false
      end
  end.

(** ** New commits ([update_check.rs]) *)

Definition clear_force (p : ProjectRow) : ProjectRow := {|
  pj_organization := pj_organization p; pj_name := pj_name p; pj_active := pj_active p;
  pj_repository := pj_repository p; pj_wildcard := pj_wildcard p; pj_last_evaluation := pj_last_evaluation p;
  pj_last_check_at := pj_last_check_at p; pj_force_evaluation := false; pj_concurrency := pj_concurrency p |}.

Definition forced (p : ProjectRow) : ProjectRow := {|
  pj_organization := pj_organization p; pj_name := pj_name p; pj_active := pj_active p;
  pj_repository := pj_repository p; pj_wildcard := pj_wildcard p; pj_last_evaluation := pj_last_evaluation p;
  pj_last_check_at := pj_last_check_at p; pj_force_evaluation := true; pj_concurrency := pj_concurrency p |}.

(** The last evaluation's row, when the pointer is not dangling. *)
Definition last_row s (project : ProjectRow) : option (EvaluationId * EvaluationRow) :=
  match pj_last_evaluation project with
  | Some ev => option_map (pair ev) (evaluations_of s !! ev)
  | None => None
  end.

Definition check_for_updates s (project_id : ProjectId) (project : ProjectRow) (branch : option string)
    : CiDb * result (bool * string) string :=
  match ls_remote_head (pj_repository project) branch with
  | Err e => (s, Err e)
  | Ok remote_hash =>
      if pj_force_evaluation project then
        match last_row s project with
        | Some (_, e) =>
            if eval_is_active (ev_status e) then (s, Ok (false, remote_hash))
            else (update_project s project_id clear_force, Ok (true, remote_hash))
        | None => (update_project s project_id clear_force, Ok (true, remote_hash))
        end
      else
        match last_row s project with
        | Some (ev, e) =>
            if eval_is_active (ev_status e) then (s, Ok (false, remote_hash))
            else (s, Ok (negb (bool_decide (commit_hash_of s ev = Some remote_hash)), remote_hash))
        | None => (s, Ok (true, remote_hash))
        end
  end.

(** [get_commit_info(..).unwrap_or_else(..)] *)
Definition commit_info_or_empty (project : ProjectRow) (commit_hash : string) : string * string :=
  match commit_info_of (pj_repository project) commit_hash with Ok x => x | Err _ => (""%string, ""%string) end.

(** ** A pass of the loop *)

Record Ci := { cl_db : CiDb; cl_scheduler : Scheduler; cl_announced : list EvaluationId }.

Definition stamp (now : NaiveDateTime) (t : TriggerRow) : TriggerRow := {|
  tr_id := tr_id t; tr_project := tr_project t; tr_type := tr_type t; tr_config := tr_config t;
  tr_active := tr_active t; tr_last_fired_at := Some now; tr_updated_at := now |}.

Definition update_last_fired s (id : TriggerId) (now : NaiveDateTime) : CiDb :=
  set_triggers s (map (fun t => if N.eqb (tr_id t) id then stamp now t else t) (ci_triggers s)).

(** What is done with what applying a trigger came to. *)
Definition follow_outcome (c : Ci) (r : CiDb * result ApplyOutcome TriggerError) : Ci :=
  match r with
  | (s, Ok (Created ev _ aborted anchors)) => {|
      cl_db := s;
      cl_scheduler := match aborted with Some a => cancel_evaluation_jobs (cl_scheduler c) a anchors | None => cl_scheduler c end;
      cl_announced := cl_announced c ++ [ev] |}
  | (s, _) => {| cl_db := s; cl_scheduler := cl_scheduler c; cl_announced := cl_announced c |}
  end.

Definition on_ci (c : Ci) (f : CiDb -> CiDb) : Ci :=
  {| cl_db := f (cl_db c); cl_scheduler := cl_scheduler c; cl_announced := cl_announced c |}.

Definition poll_input (trig : TriggerRow) (cfg : TriggerConfig) (commit_hash msg author : string) (max_storage_gb : Z)
    : ApplyInput := {|
  in_trigger_id := tr_id trig; in_trigger_type := trigger_type_of cfg; in_commit_hash := commit_hash;
  in_commit_message := Some msg; in_author_name := Some author; in_manual := false; in_gate_approval := None;
  in_repository_override := None; in_wildcard_override := None; in_source_comment := None;
  in_instance_max_storage_gb := max_storage_gb |}.

(** Due, with its parsed configuration. *)
Definition due_config (now : NaiveDateTime) (trig : TriggerRow) : option TriggerConfig :=
  match parse_row (tr_type trig) (tr_config trig) with
  | Err _ => None
  | Ok cfg =>
      if match cfg with
         | CfgPolling interval_secs _ => polling_due (tr_id trig) (tr_last_fired_at trig) interval_secs now
         | CfgTime cron => cron_due cron (tr_last_fired_at trig) now
         | _ => false end
      then Some cfg else None
  end.

Definition polling_branch (cfg : TriggerConfig) : option string :=
  match cfg with CfgPolling _ branch => branch | _ => None end.

Definition is_time (cfg : TriggerConfig) : bool := match cfg with CfgTime _ => true | _ => false end.

Definition fire_due (between : CiDb -> CiDb) (o : OrgTables) (max_storage_gb : Z) (now : NaiveDateTime)
    (projects : gmap ProjectId ProjectRow) (c : Ci) (trig : TriggerRow) : Ci :=
  match projects !! tr_project trig with
  | None => c
  | Some project =>
      if negb (pj_active project) then c
      else match due_config now trig with
      | None => c
      | Some cfg =>
          match check_for_updates (cl_db c) (tr_project trig) project (polling_branch cfg) with
          | (s, Err _) => on_ci c (fun _ => update_last_fired s (tr_id trig) now)
          | (s, Ok (has_update, commit_hash)) =>
              let '(msg, author) := commit_info_or_empty project commit_hash in
              let '(s, _) := maybe_trigger_input_update s now (tr_project trig) project commit_hash (Some (tr_id trig)) in
              let c := on_ci c (fun _ => s) in
              let c := if has_update || is_time cfg
                then follow_outcome c (apply_trigger between o s now (tr_project trig) project
                       (poll_input trig cfg commit_hash msg author max_storage_gb))
                else c in
              on_ci c (fun s => update_last_fired s (tr_id trig) now)
          end
      end
  end.

Definition scheduled (t : TriggerRow) : bool :=
  tr_active t && match tr_type t with TypePolling | TypeTime => true | _ => false end.

(** The rows are read before the first of them is looked at. *)
Definition dispatch_once (between : CiDb -> CiDb) (o : OrgTables) (max_storage_gb : Z) (now : NaiveDateTime) (c : Ci) : Ci :=
  foldl (fire_due between o max_storage_gb now (ci_projects (cl_db c))) c (List.filter scheduled (ci_triggers (cl_db c))).

(** ** By hand *)

Inductive HandAnswer :=
| AnsRestarting
| AnsStarted
| AnsOutcome (o : ApplyOutcome)
| AnsBadRequest (message : string)
| AnsNotFound
| AnsInternal.

Definition post_project_evaluate (between : CiDb -> CiDb) (o : OrgTables) (max_storage_gb : Z) (now : NaiveDateTime)
    (c : Ci) (project_id : ProjectId) (project : ProjectRow) (user : UserId) (mode : option string) : Ci * HandAnswer :=
  if bool_decide (mode = Some "restart_failed"%string) then
    match trigger_restart_builds between (cl_db c) now project_id with
    | (s, Ok _) => (on_ci c (fun _ => s), AnsRestarting)
    | (s, Err AlreadyInProgress) => (on_ci c (fun _ => s), AnsBadRequest "Evaluation already in progress")
    | (s, Err NoPreviousEvaluation) => (on_ci c (fun _ => s), AnsBadRequest "No previous evaluation to restart from")
    | (s, Err (TriggerDb _)) => (on_ci c (fun _ => s), AnsInternal)
    end
  else
    match check_for_updates (cl_db c) project_id (forced project) None with
    | (s, Err _) => (on_ci c (fun _ => s), AnsBadRequest "Failed to fetch repository state")
    | (s, Ok (_, commit_hash)) =>
        let '(msg, author) := commit_info_or_empty project commit_hash in
        let '(s, _) := maybe_trigger_input_update s now project_id project commit_hash None in
        match trigger_evaluation between s now project_id project {|
          ne_commit_hash := commit_hash; ne_commit_message := Some msg; ne_author_name := Some author;
          ne_trigger := None; ne_concurrent := false; ne_repository_override := None; ne_wildcard_override := None;
          ne_source_comment := None; ne_started_by := Some user |} with
        | (s, Err AlreadyInProgress) => (on_ci c (fun _ => s), AnsBadRequest "Evaluation already in progress")
        | (s, Err _) => (on_ci c (fun _ => s), AnsInternal)
        | (s, Ok ev) =>
            let h := (s, (ev, new_row project_id EQueued KNormal now)) in
            let h := park_if_no_cache o now (pj_organization project) h in
            let h := park_if_storage_full o now (pj_organization project) max_storage_gb h in
            let '(s, (ev, _)) := park_if_no_workers o now (pj_organization project) h in
            ({| cl_db := s; cl_scheduler := cl_scheduler c; cl_announced := cl_announced c ++ [ev] |}, AnsStarted)
        end
    end.

Definition fire_now (between : CiDb -> CiDb) (o : OrgTables) (max_storage_gb : Z) (now : NaiveDateTime)
    (c : Ci) (project_id : ProjectId) (project : ProjectRow) (id : TriggerId) : Ci * HandAnswer :=
  match List.find (fun t => N.eqb (tr_id t) id && N.eqb (tr_project t) project_id) (ci_triggers (cl_db c)) with
  | None => (c, AnsNotFound)
  | Some row =>
      if negb (tr_active row) then (c, AnsBadRequest "trigger is inactive")
      else
        let branch := match parse_row (tr_type row) (tr_config row) with Ok cfg => polling_branch cfg | Err _ => None end in
        match check_for_updates (cl_db c) project_id project branch with
        | (s, Err _) => (on_ci c (fun _ => s), AnsInternal)
        | (s, Ok (_, commit_hash)) =>
            match commit_info_of (pj_repository project) commit_hash with
            | Err _ => (on_ci c (fun _ => s), AnsInternal)
            | Ok (msg, author) =>
                let '(s, _) := maybe_trigger_input_update s now project_id project commit_hash (Some (tr_id row)) in
                let r := apply_trigger between o s now project_id project {|
                  in_trigger_id := tr_id row; in_trigger_type := tr_type row; in_commit_hash := commit_hash;
                  in_commit_message := Some msg; in_author_name := Some author; in_manual := true;
                  in_gate_approval := None; in_repository_override := None; in_wildcard_override := None;
                  in_source_comment := None; in_instance_max_storage_gb := max_storage_gb |} in
                match r with
                | (s, Err _) => (on_ci c (fun _ => s), AnsInternal)
                | (s, Ok outcome) =>
                    let s := update_last_fired s (tr_id row) now in
                    (follow_outcome c (s, Ok outcome), AnsOutcome outcome)
                end
            end
        end
  end.

(** ** What the loop promises *)

Lemma jitter_bounds id t interval : 0 <= interval -> 0 <= polling_jitter_secs id t interval <= interval / 10.
Proof.
  intros Hi. unfold polling_jitter_secs, POLLING_JITTER_PCT. change (100 / 10) with 10.
  assert (0 <= interval / 10) by (apply Z.div_pos; lia). destruct (Z.eqb_spec (interval / 10) 0) as [->|Hne]; [lia|].
  pose proof (Z.mod_pos_bound (jitter_hash id t) (interval / 10 + 1)). lia.
Qed.

(** A polling trigger never fires before its interval is over, always fires once a tenth
    more has passed, and in between keeps one decision per cycle; the wait fits 64 bits. *)
Theorem polling_window id t interval now :
  0 <= interval < 2 ^ 32 ->
  (polling_due id (Some t) interval now = true -> interval <= num_seconds_between now t) /\
  (interval + interval / 10 <= num_seconds_between now t -> polling_due id (Some t) interval now = true) /\
  0 <= interval + polling_jitter_secs id t interval < 2 ^ 63 /\
  (forall now', num_seconds_between now t <= num_seconds_between now' t ->
     polling_due id (Some t) interval now = true -> polling_due id (Some t) interval now' = true).
Proof.
  intros Hi. pose proof (jitter_bounds id t interval ltac:(lia)) as Hj. unfold polling_due.
  assert (interval / 10 <= interval) by (apply Z.div_le_upper_bound; lia).
  split_and!; intros; rewrite ?Z.leb_le in *; lia.
Qed.

(** The triggers a pass acts on, and so stamps. *)
Definition ripe (projects : gmap ProjectId ProjectRow) (now : NaiveDateTime) (t : TriggerRow) : bool :=
  match projects !! tr_project t with
  | Some project => scheduled t && pj_active project && bool_decide (is_Some (due_config now t))
  | None => false
  end.

Definition same_triggers s s' : Prop := ci_triggers s' = ci_triggers s.

Lemma insert_triggers s e c s' ev : insert_evaluation s e c = Ok (s', ev) -> same_triggers s s'.
Proof. unfold insert_evaluation. destruct (_ && _ && _); [done|]. match goal with |- (if ?b then _ else _) = _ -> _ => destruct b end; [done|]. by intros [= <- _]. Qed.

Lemma create_each_triggers targets now p project base trigger : forall s,
  same_triggers s (create_each s now p project base targets trigger).1.
Proof.
  induction targets as [|[target d] targets IH]; intros s; [done|]. cbn [create_each].
  unfold create_input_update_eval. destruct (insert_commit s _) as [s0 c] eqn:E0.
  assert (Hs0 : same_triggers s s0) by (unfold insert_commit in E0; by simplify_eq).
  destruct (insert_evaluation s0 _ _) as [[s1 ev]|err] eqn:E1; [|exact Hs0].
  apply insert_triggers in E1. match goal with |- context [create_each ?x _ _ _ _ _ _] => specialize (IH x); set (s2 := x) in * end.
  assert (Hs2 : same_triggers s s2) by (unfold same_triggers in *; subst s2; simpl; congruence).
  destruct (create_each s2 _ _ _ _ _ _) as [s3 [evs|]]; simpl in IH; unfold same_triggers in *; simpl; congruence.
Qed.

Lemma maybe_trigger_triggers s now p project base trigger :
  same_triggers s (maybe_trigger_input_update s now p project base trigger).1.
Proof.
  unfold maybe_trigger_input_update. destruct (open_pr_action s p) as [a|]; [|done].
  destruct (act_granularity a); [|done]. cbv zeta. destruct (existsb _ _); [done|]. destruct (map fst _); [done|].
  destruct (active_input_updates _ _); [|done]. apply create_each_triggers.
Qed.

Lemma check_triggers s p project branch : same_triggers s (check_for_updates s p project branch).1.
Proof.
  unfold check_for_updates. destruct (ls_remote_head _ _); [|done].
  destruct (pj_force_evaluation project); destruct (last_row s project) as [[ev e]|]; try done; by destruct (eval_is_active _).
Qed.

Lemma abort_triggers s now ev kind : same_triggers s (ci_abort_evaluation s now ev kind).1.
Proof.
  unfold ci_abort_evaluation. destruct (evaluations_of s !! ev) as [e|]; [|done]. destruct (negb _); [done|]. by destruct kind.
Qed.

Lemma park_triggers ready r now h : same_triggers h.1 (park_unless ready r now h).1.
Proof. unfold park_unless. destruct (negb _); [done|]. destruct ready; [done|]. by destruct h as [s [ev e]]. Qed.

Lemma create_triggers s now p project n : same_triggers s (create_evaluation s now p project n).1.
Proof.
  unfold create_evaluation. destruct (insert_commit s _) as [s0 c] eqn:E0.
  assert (Hs0 : same_triggers s s0) by (unfold insert_commit in E0; by simplify_eq).
  destruct (insert_evaluation s0 _ _) as [[s1 ev]|err] eqn:E1; [|exact Hs0]. apply insert_triggers in E1.
  unfold same_triggers in *. simpl. congruence.
Qed.

Lemma gates_triggers o now approval org lim h : same_triggers h.1 (run_gates o now approval org lim h).1.
Proof.
  unfold run_gates, park_if_pending_approval, park_if_no_cache, park_if_storage_full, park_if_no_workers.
  unfold same_triggers. rewrite !park_triggers. destruct approval; [apply park_triggers|done].
Qed.

Lemma apply_triggers o s now p project input : same_triggers s (apply_trigger id o s now p project input).1.
Proof.
  unfold apply_trigger. cbv zeta. destruct (skip_for_same_commit _ _ _ _); [done|].
  assert (H1' : same_triggers s (resolve_concurrency s now project (in_flight_of s p)).1).
  { unfold resolve_concurrency. destruct (in_flight_of s p) as [r|]; [|done]. destruct (pj_concurrency project); try done.
    - assert (Ha := abort_triggers s now r AbortHard). revert Ha. by destruct (ci_abort_evaluation _ _ _ _).
    - assert (Ha := abort_triggers s now r AbortSoft). revert Ha. by destruct (ci_abort_evaluation _ _ _ _). }
  destruct (resolve_concurrency _ _ _ _) as [s1 [d|]]; [|done]. simpl in H1'.
  match goal with |- context [trigger_evaluation id s1 now p project ?n] => set (new := n) end.
  assert (H2' : same_triggers s (trigger_evaluation id s1 now p project new).1).
  { unfold trigger_evaluation. destruct (if ne_concurrent new then _ else _); [|done].
    unfold same_triggers in *. rewrite create_triggers. exact H1'. }
  destruct (trigger_evaluation id s1 now p project new) as [s2 [ev|err]]; [|by destruct err as [| |[]]]. simpl in H2'.
  assert (Hg := gates_triggers o now (in_gate_approval input) (pj_organization project) (in_instance_max_storage_gb input)
    (s2, (ev, new_row p EQueued KNormal now))).
  destruct (run_gates _ _ _ _ _ _) as [s3 [ev' row]]. unfold same_triggers in *. simpl in *. congruence.
Qed.

(** A trigger of a pass leads to this. *)
Definition acts (projects : gmap ProjectId ProjectRow) (now : NaiveDateTime) (t : TriggerRow) : bool :=
  match projects !! tr_project t with
  | Some project => pj_active project && bool_decide (is_Some (due_config now t))
  | None => false
  end.

Definition stamped (now : NaiveDateTime) (hit : TriggerRow -> bool) (l : list TriggerRow) : list TriggerRow :=
  map (fun t => if hit t then stamp now t else t) l.

Lemma follow_triggers c r : ci_triggers (cl_db (follow_outcome c r)) = ci_triggers r.1.
Proof. unfold follow_outcome. by destruct r as [s [[]|]]. Qed.

Lemma fire_due_triggers o lim now projects c t :
  ci_triggers (cl_db (fire_due id o lim now projects c t)) =
  stamped now (fun t' => N.eqb (tr_id t') (tr_id t) && acts projects now t) (ci_triggers (cl_db c)).
Proof.
  assert (Hno : forall l, stamped now (fun t' => N.eqb (tr_id t') (tr_id t) && false) l = l).
  { intros l. unfold stamped. rewrite <- (map_id l) at 2. apply map_ext. intros t'. by rewrite andb_false_r. }
  unfold fire_due, acts. destruct (projects !! tr_project t) as [project|]; [|by rewrite Hno].
  destruct (pj_active project); simpl; [|by rewrite Hno].
  destruct (due_config now t) as [cfg|]; [|by rewrite Hno].
  rewrite bool_decide_eq_true_2 by by eexists.
  assert (Hst : forall s, same_triggers (cl_db c) s -> ci_triggers (update_last_fired s (tr_id t) now) =
    stamped now (fun t' => N.eqb (tr_id t') (tr_id t) && true) (ci_triggers (cl_db c))).
  { intros s Hs. unfold update_last_fired, stamped. simpl. rewrite Hs. apply map_ext. intros t'. by rewrite andb_true_r. }
  assert (Hck := check_triggers (cl_db c) (tr_project t) project (polling_branch cfg)).
  destruct (check_for_updates _ _ _ _) as [s [[has_update commit_hash]|err]]; [|by apply Hst].
  destruct (commit_info_or_empty project commit_hash) as [msg author].
  assert (Hm := maybe_trigger_triggers s now (tr_project t) project commit_hash (Some (tr_id t))).
  destruct (maybe_trigger_input_update _ _ _ _ _ _) as [s1 r]. cbv zeta. simpl in Hck, Hm. apply Hst.
  unfold same_triggers in *. destruct (has_update || is_time cfg); [|simpl; congruence].
  rewrite follow_triggers, apply_triggers. simpl. congruence.
Qed.

Lemma pass_triggers o lim now projects l : forall c,
  ci_triggers (cl_db (foldl (fire_due id o lim now projects) c l)) =
  stamped now (fun t => existsb (fun x => N.eqb (tr_id t) (tr_id x) && acts projects now x) l) (ci_triggers (cl_db c)).
Proof.
  induction l as [|x l IH]; intros c; simpl.
  - unfold stamped. symmetry. apply map_id.
  - rewrite IH, fire_due_triggers. unfold stamped. rewrite map_map. apply map_ext. intros t.
    destruct (N.eqb (tr_id t) (tr_id x) && acts projects now x); simpl; [|done]. by destruct (existsb _ _).
Qed.

(** A pass stamps exactly the active polling and timed triggers of active projects whose
    configuration is valid and which are due - whatever became of them, so that one whose
    remote fails waits for its next turn - and leaves the others as they were. *)
Theorem pass_stamps o lim now c :
  NoDup (map tr_id (ci_triggers (cl_db c))) ->
  ci_triggers (cl_db (dispatch_once id o lim now c)) =
  stamped now (ripe (ci_projects (cl_db c)) now) (ci_triggers (cl_db c)).
Proof.
  intros Hnd. unfold dispatch_once. rewrite pass_triggers. unfold stamped. apply map_ext_in. intros t Hin.
  enough (existsb (fun x => N.eqb (tr_id t) (tr_id x) && acts (ci_projects (cl_db c)) now x)
    (List.filter scheduled (ci_triggers (cl_db c))) = ripe (ci_projects (cl_db c)) now t) as -> by done.
  assert (Hr : ripe (ci_projects (cl_db c)) now t = scheduled t && acts (ci_projects (cl_db c)) now t).
  { unfold ripe, acts. destruct (_ !! _); [by rewrite andb_assoc|by rewrite andb_false_r]. }
  rewrite Hr. apply eq_true_iff_eq. rewrite existsb_exists, andb_true_iff. split.
  - intros (x & [Hx Hsc]%filter_In & [Heq%N.eqb_eq Ha]%andb_true_iff).
    assert (x = t) as -> by (eapply (NoDup_map_inj tr_id); [done|by apply list_elem_of_In..|done]). done.
  - intros [Hsc Ha]. exists t. split; [by apply filter_In|]. by rewrite N.eqb_refl.
Qed.

End trigger_loop.
