(* ===== verification/CiTheorems.v ===== *)
(** * Evaluations without build jobs

    An evaluation that a restart leaves in [Building] has entry points but no [build_job]
    rows; every way the server settles evaluations finds them through those rows. *)

From S2P Require Import Prelude Float RustStr Status Fixpoints ScoreContext Proto JobData JobTracker WorkerPool EdgeStream Scheduler Retry BuildGraph Promotion Transitions Healing Settling WaitingState WaitingFacts EvalResult EvalResultFacts DispatchBuild LifecycleFacts Access Glob CiState Triggering EvalRows CiFacts TriggerLoop.

Section idle.
Context `{CH : Chrono}.
Implicit Types (t : Db) (w : Store) (ev : EvaluationId) (e : EvaluationRow).

Definition jobless ev t : Prop := forall j, j ∈ t_build_jobs t -> bjr_evaluation j <> ev.

(** The row of [ev] is [e], and nothing is built for it. *)
Definition idle ev e w : Prop := keeps_row ev e w /\ jobless ev (st_db w).

Lemma idle_tables ev e w w' :
  idle ev e w -> t_evaluations (st_db w') !! ev = t_evaluations (st_db w) !! ev ->
  t_build_jobs (st_db w') = t_build_jobs (st_db w) -> idle ev e w'.
Proof. unfold idle, keeps_row, jobless. by intros [Hr Hj] -> ->. Qed.

Lemma idle_accounted ev e w t changes : idle ev e w -> accounted (st_db w) t changes -> idle ev e (on_db w t).
Proof.
  intros Hi Hacc. apply (idle_tables _ _ _ _ Hi); simpl; [by rewrite (acc_evals _ _ _ Hacc)|exact (acc_jobs _ _ _ Hacc)].
Qed.

Lemma update_eval_jobs w now ev e s :
  t_build_jobs (st_db (update_evaluation_status w now ev e s)) = t_build_jobs (st_db w).
Proof.
  unfold update_evaluation_status. destruct (validate_eval _ _); [|done].
  destruct (t_evaluations _ !! ev); [|done]. by destruct (eval_is_terminal _).
Qed.

Lemma idle_update ev e w now ev0 e0 s : ev0 <> ev -> idle ev e w -> idle ev e (update_evaluation_status w now ev0 e0 s).
Proof.
  intros Hne [Hr Hj]. split; [by apply update_keeps_row|]. unfold jobless. by rewrite update_eval_jobs.
Qed.

Lemma idle_persist ev e w ev0 c r : ev0 <> ev -> idle ev e w -> idle ev e (persist_waiting_reason w ev0 c r).
Proof.
  intros Hne [Hr Hj]. split; [by apply persist_keeps_row|]. unfold persist_waiting_reason. by case_bool_decide.
Qed.

Lemma idle_check ev e w now ev0 : ev0 <> ev -> idle ev e w -> idle ev e (check_evaluation_done w now ev0).
Proof.
  intros Hne Hi. unfold check_evaluation_done. destruct (existsb _ _); [done|].
  destruct (t_evaluations _ !! ev0) as [e0|]; [|done]. destruct (ev_status e0); try done. by apply idle_update.
Qed.

Lemma idle_finalize ev e now evs : forall w, ev ∉ evs -> idle ev e w -> idle ev e (finalize_evals w now evs).
Proof.
  induction evs as [|x evs IH]; intros w Hin Hi; [done|]. apply not_elem_of_cons in Hin as [Hx Hin].
  apply IH; [done|]. by apply idle_check.
Qed.

(** Nothing leads from a derivation to an evaluation without build jobs. *)
Lemma jobless_terminal ev t changes : jobless ev t -> ev ∉ terminal_evals t changes.
Proof.
  intros Hj Hin. unfold terminal_evals in Hin. apply elem_of_remove_dups, list_elem_of_In, in_concat in Hin as (l & Hl & Hev).
  apply in_map_iff in Hl as (c & <- & _). apply in_map_iff in Hev as (j & Hev & Hin).
  unfold jobs_by_drv in Hin. apply filter_In in Hin as [Hin _]. apply list_elem_of_In in Hin. by apply (Hj j).
Qed.

Lemma jobless_referencing ev t ds : jobless ev t -> ev ∉ remove_dups (concat (map (evals_referencing t) ds)).
Proof.
  intros Hj Hin. apply elem_of_remove_dups, list_elem_of_In, in_concat in Hin as (l & Hl & Hev).
  apply in_map_iff in Hl as (d & <- & _). unfold evals_referencing in Hev.
  rewrite <- list_elem_of_In, elem_of_remove_dups, list_elem_of_In in Hev. apply in_map_iff in Hev as (j & Hev & Hin).
  apply filter_In in Hin as [Hin _]. apply list_elem_of_In in Hin. by apply (Hj j).
Qed.

Lemma jobless_pending ev t : jobless ev t -> eval_pending_anchors t ev = [].
Proof.
  intros Hj. apply elem_of_nil_inv. intros [d a] Hin. unfold eval_pending_anchors in Hin.
  apply list_elem_of_In, filter_In in Hin as [Hin _]. unfold eval_anchors, affected in Hin.
  apply list_elem_of_In, list_elem_of_filter in Hin as [Hx _]. apply existsb_exists in Hx as (j & Hjin & _).
  unfold jobs_of_eval in Hjin. apply filter_In in Hjin as [Hjin Heq%N.eqb_eq]. apply list_elem_of_In in Hjin. by apply (Hj j).
Qed.

Lemma idle_move ev e w now f :
  idle ev e w -> accounted (st_db w) (f (st_db w)).1 (f (st_db w)).2 -> idle ev e (move_and_emit w now f).
Proof.
  intros Hi Hacc. unfold move_and_emit. destruct (f (st_db w)) as [t c]. simpl in Hacc.
  assert (Ht : idle ev e (on_db w t)) by (by eapply idle_accounted).
  unfold emit_transition_effects. destruct c; [done|]. apply idle_finalize; [by apply jobless_terminal, Ht|done].
Qed.

Lemma idle_on_tables ev e w f : idle ev e w -> accounted (st_db w) (f (st_db w)) [] -> idle ev e (on_tables w f).
Proof. intros Hi Hacc. by eapply idle_accounted. Qed.

Lemma idle_reconcile ev e w now nar_exists scope : idle ev e w -> idle ev e (reconcile_build_graph w now nar_exists scope).
Proof. apply reconcile_ind; intros; [by apply idle_on_tables|by apply idle_move]. Qed.

Lemma idle_update_build ev e w now d a s : idle ev e w -> idle ev e (update_derivation_build_status w now d a s).
Proof. apply update_status_ind; intros; [by eapply idle_accounted|by apply idle_move]. Qed.

Lemma idle_foldl {A} ev e (f : Store -> A -> Store) l w :
  (forall w x, x ∈ l -> idle ev e w -> idle ev e (f w x)) -> idle ev e w -> idle ev e (foldl f w l).
Proof.
  revert w. induction l as [|x l IH]; intros w Hf Hw; [done|]. simpl. apply IH.
  - intros w' y Hy. apply Hf. by right.
  - apply Hf; [by left|done].
Qed.

Lemma idle_failed ev e w now cfg nar_exists b error kind missing :
  idle ev e w -> idle ev e (handle_build_job_failed w now cfg nar_exists b error kind missing).
Proof.
  intros Hi. unfold handle_build_job_failed. destruct (find_anchor (st_db w) b) as [[d a]|]; [|done]. cbv zeta.
  set (w1 := log_failure w b error). set (w2 := on_tables w1 _). set (circuit := _ && inputs_unavailable_circuit_open _ _).
  set (w3 := if _ && _ && negb circuit then _ else w2).
  assert (H1 : idle ev e w1) by (apply (idle_tables _ _ _ _ Hi); unfold w1; by rewrite log_failure_db).
  assert (H2 : idle ev e w2) by (apply idle_on_tables; [exact H1|apply fail_attempt_quiet]).
  assert (H3 : idle ev e w3).
  { unfold w3. destruct (_ && _ && _); [|exact H2]. apply idle_on_tables; [exact H2|apply quiet_missing_inputs]. }
  clearbody w1 w2 w3 circuit. set (outcome := match decide_failure_outcome _ _ _ with OutRetry => _ | o => o end).
  clearbody outcome. assert (Hfin : forall s, idle ev e (finalize_evals_for_derivations
    (on_tables (update_derivation_build_status w3 now d a s) (fun t => (cascade_dependency_failed t now d).1)) now [d])).
  { intros s. assert (H4 := idle_update_build _ _ _ now d a s H3).
    assert (H5 : idle ev e (on_tables (update_derivation_build_status w3 now d a s) (fun t => (cascade_dependency_failed t now d).1)))
      by by apply (idle_tables _ _ _ _ H4).
    unfold finalize_evals_for_derivations. apply idle_finalize; [apply jobless_referencing, H5|exact H5]. }
  destruct outcome; try apply Hfin.
  - destruct (default _ _) as [d' a']. by apply idle_update_build.
  - by apply idle_update_build.
Qed.

Lemma idle_completed ev e w now b : idle ev e w -> idle ev e (handle_build_job_completed w now b).
Proof.
  intros Hi. unfold handle_build_job_completed. destruct (find_anchor _ _) as [[d a]|]; [|done]. cbv zeta.
  set (w1 := if db_substitutable a then _ else _).
  assert (H1 : idle ev e w1).
  { assert (H0 := idle_update_build _ _ _ now d a (terminal_success_status (db_substituted a)) Hi).
    unfold w1. destruct (db_substitutable a); [by apply (idle_tables _ _ _ _ H0)|exact H0]. }
  clearbody w1. unfold finalize_evals_for_derivations. apply idle_finalize; [apply jobless_referencing, H1|exact H1].
Qed.

Lemma idle_orphans ev e w now dispatches jobs :
  ev_status e = EBuilding -> idle ev e w -> idle ev e (requeue_orphaned_jobs w now dispatches jobs).
Proof.
  intros Hs. apply idle_foldl. clear w. intros w job _ Hi. destruct (derivation_build job) as [b|].
  - unfold requeue_orphaned_build. destruct (find_anchor _ _) as [[d a]|]; [|done]. case_bool_decide; [by apply idle_update_build|done].
  - unfold requeue_orphaned_eval. destruct (t_evaluations _ !! _) as [e0|] eqn:E; [|done].
    destruct (pre_build (ev_status e0)) eqn:Hp; [|done].
    assert (Hne : evaluation_id job <> ev).
    { intros <-. destruct Hi as [Hr _]. unfold keeps_row in Hr. simplify_eq. by rewrite Hs in Hp. }
    destruct (orphaned_eval_outcome _ _).
    + by apply idle_update, idle_persist.
    + unfold update_evaluation_status_with_error. destruct (eval_is_terminal _); [done|]. apply idle_update; [done|].
      by apply (idle_tables _ _ _ _ Hi).
Qed.

Lemma idle_abort_other ev e w now ev0 e0 : ev0 <> ev -> idle ev e w -> idle ev e (db_abort_evaluation w now ev0 e0).
Proof.
  intros Hne Hi. unfold db_abort_evaluation. destruct (eval_is_terminal _); [done|]. cbv zeta. apply idle_update; [done|].
  set (w1 := on_db w _). assert (H1 : idle ev e w1).
  { unfold w1, gate_evaluation_aborting. destruct (_ !! ev0); [|by apply (idle_tables _ _ _ _ Hi)].
    destruct (eval_is_terminal _); [by apply (idle_tables _ _ _ _ Hi)|].
    apply (idle_tables _ _ _ _ Hi); [|done]. simpl. by rewrite lookup_insert_ne. }
  clearbody w1. unfold abort_eval_anchors. destruct (affected _ _) as [|x l]; [done|]. cbv zeta.
  assert (H2 := idle_move ev e w1 now (fun t => move_where t now (fun _ a => abortable t ev0 a) BAborted) H1 (accounted_move _ _ _ _)).
  by apply (idle_tables _ _ _ _ H2).
Qed.

Lemma idle_eval_failed ev e w now ev0 kind missing blob :
  ev0 <> ev -> idle ev e w -> idle ev e (handle_eval_job_failed w now ev0 kind missing blob).
Proof.
  intros Hne Hi. unfold handle_eval_job_failed.
  assert (Hrest : forall w, idle ev e w -> idle ev e (match t_evaluations (st_db w) !! ev0 with
    | Some e => if eval_is_terminal (ev_status e) then w else update_evaluation_status_with_error w now ev0 e EFailed
    | None => w end)).
  { intros w' Hw'. destruct (t_evaluations _ !! ev0) as [e0|]; [|done]. destruct (eval_is_terminal _) eqn:Ht; [done|].
    unfold update_evaluation_status_with_error. rewrite Ht. apply idle_update; [done|]. by apply (idle_tables _ _ _ _ Hw'). }
  assert (Hheal : forall fp, idle ev e (heal_corrupt_eval_cache w now ev0 fp blob).1).
  { intros fp. unfold heal_corrupt_eval_cache. destruct blob as [bl|]; [|done]. simpl.
    assert (H1 : forall m, idle ev e (send w m)) by (intros m; by apply (idle_tables _ _ _ _ Hi)).
    destruct (t_evaluations _ !! ev0); [|apply H1]. simpl. destruct (eval_is_terminal _); [apply H1|].
    by apply idle_update. }
  destruct kind; try by apply Hrest. destruct (head missing) as [fp|]; [|by apply Hrest].
  specialize (Hheal fp). destruct (heal_corrupt_eval_cache w now ev0 fp blob) as [w' []]; [done|by apply Hrest].
Qed.

Lemma idle_sweep ev e cat cfg nar_exists w now p :
  ev_status e = EBuilding -> idle ev e w -> idle ev e (reconcile_waiting_state cat cfg nar_exists w now p false).
Proof.
  intros Hs Hi. unfold reconcile_waiting_state. set (evals := List.filter _ _).
  assert (Hall : forall x, x ∈ evals -> x.1 = ev -> x.2 = e).
  { intros [ev0 e0] Hx Heq. simpl in Heq. subst ev0. unfold evals in Hx.
    apply list_elem_of_In, filter_In in Hx as [Hx _]. apply list_elem_of_In, elem_of_map_to_list in Hx. simpl.
    destruct Hi as [Hr _]. unfold keeps_row in Hr. congruence. }
  clearbody evals. apply idle_foldl; [|done]. clear w Hi. intros w [ev0 e0] Hx Hi. specialize (Hall _ Hx). simpl in Hall.
  unfold reconcile_eval. destruct (left_alone _); [done|].
  assert (Hphase : forall ev1 caps, idle ev e (build_phase_decision cat cfg nar_exists w now ev1 caps).1).
  { intros ev1 caps. unfold build_phase_decision, attempt_graph_unstick.
    assert (Hr := idle_reconcile ev e w now nar_exists (Unstick ev1) Hi).
    destruct (assess_buildability cat cfg (st_db w) ev1 caps) as [[s [[u ? ?| | | | | | |]|]]|]; try destruct s; try destruct u; try done.
    by destruct (assess_buildability _ _ _ _ _) as [[[] ?]|]. }
  destruct (decide (ev0 = ev)) as [->|Hne].
  - rewrite (Hall eq_refl). unfold reconcile_outcome. rewrite Hs. unfold build_phase_decision, assess_buildability.
    by rewrite (jobless_pending _ _ (proj2 Hi)).
  - assert (Ho : idle ev e (reconcile_outcome cat cfg nar_exists w now p (ev0, e0)).1).
    { unfold reconcile_outcome. specialize (Hphase ev0 (pool_caps p)).
      destruct (build_phase_decision cat cfg nar_exists w now ev0 (pool_caps p)) as [w1 [v|]]; simpl in Hphase;
        destruct (ev_status e0); try destruct (ev_waiting_reason e0) as [[]|]; done. }
    destruct (reconcile_outcome _ _ _ _ _ _ _) as [w1 [[target reason]|]]; [|done]. simpl in Ho. cbv zeta. simpl.
    case_bool_decide; [by apply idle_persist|by apply idle_update, idle_persist].
Qed.

Lemma idle_recover_drv ev e w now : ev_status e = EBuilding -> idle ev e w -> idle ev e (recover_drv_stuck_evals w now).
Proof.
  intros Hs Hi. unfold recover_drv_stuck_evals. set (l := List.filter _ _).
  assert (Hall : forall x, x ∈ l -> x.1 <> ev).
  { intros [ev0 e0] Hx Heq. simpl in Heq. subst ev0. unfold l in Hx. apply list_elem_of_In, filter_In in Hx as [Hx Hw%bool_decide_eq_true].
    apply list_elem_of_In, elem_of_map_to_list in Hx. simpl in *. destruct Hi as [Hr _]. unfold keeps_row in Hr. congruence. }
  clearbody l. apply idle_foldl; [|done]. clear w Hi. intros w [ev0 e0] Hx Hi. specialize (Hall _ Hx). simpl in Hall.
  unfold recover_eval. destruct (ev_waiting_reason e0) as [[]|]; try done. destruct (_ <? _)%Z; [done|]. destruct (negb _); [done|].
  destruct (ev_kind e0), (ev_project e0); first [by apply idle_update|done|by apply (idle_tables _ _ _ _ Hi)].
Qed.

(** A step of the working server does not touch an idle evaluation, unless it aborts it. *)
Lemma working_step_idle reports ev e w w' :
  working_step reports w w' -> ~ reports ev -> ev_status e = EBuilding -> idle ev e w ->
  idle ev e w' \/ exists now e0, w' = db_abort_evaluation w now ev e0.
Proof.
  intros Hstep Hr Hs Hi. destruct Hstep.
  - left. unfold handle_build_status_update. destruct b as [b|]; [|done].
    destruct (find_anchor _ _) as [[d a]|]; [|done]. case_bool_decide; [by apply (idle_tables _ _ _ _ Hi)|by apply idle_update_build].
  - left. unfold handle_build_output. destruct (find_anchor _ _); [|done]. destruct substituted; by apply (idle_tables _ _ _ _ Hi).
  - left. by apply idle_completed.
  - left. by apply idle_failed.
  - left. by apply idle_orphans.
  - left. unfold handle_eval_status_update. destruct (t_evaluations _ !! ev0) as [e0|] eqn:E; [|done].
    apply idle_update; [|done]. by intros ->.
  - left. assert (Hg := batch_grown fr io su {| gr_store := w; gr_catalog := cat |} now job derivations ws es H).
    assert (Hne : ev <> pe_evaluation_id job) by by intros ->.
    destruct Hi as [Hrow Hj]. split.
    + destruct (gn_evals _ _ _ Hg ev) as [Heq|(-> & _)]; [|done]. unfold keeps_row, gr_db in *. simpl in *. by rewrite Heq.
    + intros j Hjin. destruct (gn_new_jobs _ _ _ Hg j Hjin) as [Hold|[-> _]]; [by apply Hj|done].
  - left. by apply (idle_tables _ _ _ _ Hi).
  - left. by apply (idle_tables _ _ _ _ Hi).
  - left. eapply idle_accounted; [done|apply quiet_deferred].
  - left. unfold handle_eval_job_completed. cbv zeta.
    assert (H1 := idle_reconcile ev e w now nar_exists (Eval ev0) Hi).
    set (w1 := reconcile_build_graph _ _ _ _) in *. clearbody w1.
    assert (Hne : ev0 <> ev) by by intros ->. apply idle_check; [done|].
    destruct (t_evaluations _ !! ev0) as [e0|]; [|done]. destruct (ev_status e0); first [by apply idle_update|done].
  - left. apply idle_eval_failed; [by intros ->|done].
  - destruct (decide (ev0 = ev)) as [->|Hne]; [right; by eexists _, _|left; by apply idle_abort_other].
  - left. apply idle_foldl; [|done]. intros w' x _ Hw'. destruct (retry_backoff_elapsed _ _ _ _); [by apply idle_update_build|done].
  - left. by apply idle_reconcile.
  - left. by apply idle_sweep.
  - left. by apply idle_recover_drv.
  - left. apply (idle_tables _ _ _ _ Hi); [|done]. unfold recover_interrupted_work. simpl. rewrite lookup_fmap.
    change (t_evaluations (update_where _ _ _)) with (t_evaluations (st_db w)). destruct Hi as [Hrow _].
    unfold keeps_row in Hrow. rewrite Hrow. simpl. unfold abort_interrupted. by rewrite Hs.
Qed.

End idle.

(** * What triggering and evaluation dispatch guarantee

    The invariant of the evaluation tables, what a pass of the evaluation dispatcher offers,
    and three ways in which creating an evaluation does not do what it is for. *)

Local Open Scope Z_scope.

Section triggering_theorems.
Context `{CH : Chrono} `{!Calendar} `{!TriggerCodec}.
Implicit Types (s : CiDb) (ev : EvaluationId) (e : EvaluationRow).

(** C18. Whatever triggers fire, whatever the server and its workers do and however the
    connections interleave, a project has at most one active evaluation that is not
    concurrent, every evaluation has its columns, and ids are never reused. *)
Theorem one_active_per_project between s s' :
  preserves_wf between -> ci_wf s -> rtc (ci_step between) s s' -> ci_wf s'.
Proof. intros Hb Hwf Hrtc. induction Hrtc; [done|]. eauto using ci_step_wf. Qed.

(** Bumping flake inputs starves the project's own evaluations: when a fired trigger has
    just created the evaluations that bump inputs, applying the same trigger to a project
    that does not allow concurrent evaluations creates nothing - and the evaluation that
    was running is ended all the same when the policy is to abort. *)
Theorem input_update_starves_ci between o s now p project base trigger s1 ev evs input :
  maybe_trigger_input_update s now p project base trigger = (s1, Ok (ev :: evs)) -> allows_all project = false ->
  exists s2, (apply_trigger between o s1 now p project input = (s2, Ok SkippedSameCommit) /\ s2 = s1) \/
    (apply_trigger between o s1 now p project input = (s2, Ok SkippedConcurrency) /\
     evaluations_of s2 = end_row now (superseded s1 project p) (evaluations_of s1)).
Proof.
  intros [_ Hb]%maybe_trigger_bumping Ha. apply apply_blocked; [done|]. eapply bumping_other, (Hb ev). by left.
Qed.

(** What a restart inserts. *)
Lemma restart_spec s now p s' ev :
  trigger_restart_builds id s now p = (s', Ok ev) ->
  ev = ci_next s /\ t_build_jobs (st_db (ci_store s')) = t_build_jobs (st_db (ci_store s)) /\
  exists status, evaluations_of s' !! ev = Some (new_row p status KNormal now) /\ (status = ECompleted \/ status = EBuilding).
Proof.
  unfold trigger_restart_builds. destruct (ensure_no_active_evaluation s p); [|done].
  change (id s) with s. destruct (latest_evaluation s p) as [[prev e]|]; [|done]. cbv zeta.
  destruct (insert_evaluation _ _ _) as [[s2 ev']|] eqn:E; [|done]. intros [= <- <-].
  apply insert_evaluation_ok in E as (-> & Hev & _ & _ & _ & _ & _ & _ & _ & m & Hm). split_and!; [done| |].
  - simpl. by rewrite Hm.
  - exists (restart_initial_status s (entry_point_derivations s prev)). split.
    + change (evaluations_of s2 !! ci_next s = Some (new_row p (restart_initial_status s (entry_point_derivations s prev)) KNormal now)).
      by rewrite Hev, lookup_insert_eq.
    + unfold restart_initial_status. destruct (Nat.eqb _ _); [by left|]. destruct (_ && _); [by left|by right].
Qed.

(** A restart of the failed builds of a project never finishes: the evaluation it puts in
    [Building] has entry points but no build jobs, and no handler or sweep of the working
    server ever changes its row, until somebody aborts it. *)
Theorem restart_never_finishes reports s now p s' ev w :
  (forall j, j ∈ t_build_jobs (st_db (ci_store s)) -> (bjr_evaluation j < ci_next s)%N) ->
  trigger_restart_builds id s now p = (s', Ok ev) ->
  ev_status <$> evaluations_of s' !! ev <> Some ECompleted -> ~ reports ev ->
  rtc (working_step reports) (ci_store s') w ->
  t_evaluations (st_db w) !! ev = Some (new_row p EBuilding KNormal now) \/
  exists w1 now1 e1, rtc (working_step reports) (ci_store s') w1 /\
    rtc (working_step reports) (db_abort_evaluation w1 now1 ev e1) w.
Proof.
  intros Hjobs (-> & Hj & status & Hrow & Hst)%restart_spec Hnot Hr Hrtc.
  assert (Hb : status = EBuilding) by (destruct Hst as [->| ->]; [by rewrite Hrow in Hnot|done]). subst status.
  assert (Hidle : idle (ci_next s) (new_row p EBuilding KNormal now) (ci_store s')).
  { split; [exact Hrow|]. intros j Hjin. rewrite Hj in Hjin. specialize (Hjobs j Hjin). lia. }
  set (P := fun w => idle (ci_next s) (new_row p EBuilding KNormal now) w \/
    exists w1 now1 e1, rtc (working_step reports) (ci_store s') w1 /\
      rtc (working_step reports) (db_abort_evaluation w1 now1 (ci_next s) e1) w).
  enough (Hend : P w) by (destruct Hend as [[Hk _]|Hend]; auto).
  revert Hrtc. apply (rtc_ind_r P); [by left|]. intros w1 w2 Hrtc Hstep [Hi|(w0 & now1 & e1 & Ha & Hb)].
  - destruct (working_step_idle _ _ (new_row p EBuilding KNormal now) _ _ Hstep Hr eq_refl Hi) as [Hi2|(now1 & e1 & ->)]; [by left|right].
    exists w1, now1, e1. split; [exact Hrtc|reflexivity].
  - right. exists w0, now1, e1. split; [done|]. by eapply rtc_r.
Qed.

End triggering_theorems.

Section dispatch_theorems.
Context `{CH : Chrono} {SD : Serde} {HO : HashOrder} {UF : UuidFormat} `{!TriggerCodec}.
Implicit Types (s : CiDb) (ev : EvaluationId).

Lemma eval_job_id_inj (x y : N) : eval_job_id x = eval_job_id y -> x = y.
Proof. unfold eval_job_id. intros E. apply uuid_show_inj. simpl in E. by injection E. Qed.

Lemma NoDup_keys {A} (f : N * A -> bool) (m : gmap N A) : NoDup (map fst (List.filter f (map_to_list m))).
Proof.
  assert (Hnd : NoDup (map fst (map_to_list m))) by apply NoDup_fst_map_to_list.
  induction (map_to_list m) as [|x l IH]; [constructor|]. simpl in Hnd. apply NoDup_cons in Hnd as [Hx Hnd].
  simpl. destruct (f x); [|by apply IH]. simpl. apply NoDup_cons. split; [|by apply IH]. intros Hin. apply Hx.
  apply list_elem_of_In in Hin. apply in_map_iff in Hin as (y & <- & Hy). apply filter_In in Hy as [Hy _].
  by apply list_elem_of_In, in_map.
Qed.

Definition offered (job : option PendingEvalJob) (before : option PendingJob) : option PendingJob :=
  match job with Some job => Some (PendingEval job) | None => before end.

Lemma enqueue_contains sched id job k :
  k <> id -> contains_job (sch_tracker (enqueue_eval_job sched id job).1) k = contains_job (sch_tracker sched) k.
Proof.
  intros Hne. unfold enqueue_eval_job, add_pending. fold (contains_job (sch_tracker sched) id).
  destruct (contains_job (sch_tracker sched) id); [done|]. unfold contains_job. simpl. by rewrite lookup_insert_ne.
Qed.

Lemma pass_lookup s split_fetch history l : forall sched k,
  NoDup (map fst l) -> (forall x, x ∈ l -> contains_job (sch_tracker sched) (eval_job_id x.1) = false) ->
  let sched' := foldl (fun sched x => match eval_job_for s split_fetch history x with
    | Some job => (enqueue_eval_job sched (eval_job_id x.1) job).1 | None => sched end) sched l in
  pending_evals sched' !! k =
    match List.find (fun x => String.eqb (eval_job_id x.1) k) l with
    | Some x => offered (eval_job_for s split_fetch history x) (pending_evals sched !! k)
    | None => pending_evals sched !! k
    end.
Proof.
  induction l as [|x l IH]; intros sched k Hnd Hc; [done|]. simpl in Hnd. apply NoDup_cons in Hnd as [Hx Hnd].
  set (sched1 := match eval_job_for s split_fetch history x with
    | Some job => (enqueue_eval_job sched (eval_job_id x.1) job).1 | None => sched end).
  assert (Hne : forall y, y ∈ l -> eval_job_id y.1 <> eval_job_id x.1).
  { intros y Hy Heq%eval_job_id_inj. apply Hx. rewrite <- Heq. apply list_elem_of_In, in_map, list_elem_of_In, Hy. }
  cbn [List.find foldl]. change (foldl _ _ l) with (foldl (fun sched x => match eval_job_for s split_fetch history x with
    | Some job => (enqueue_eval_job sched (eval_job_id x.1) job).1 | None => sched end) sched1 l).
  rewrite IH; [|done|].
  - assert (H1 : forall k', pending_evals sched1 !! k' = if String.eqb (eval_job_id x.1) k'
      then offered (eval_job_for s split_fetch history x) (pending_evals sched !! k') else pending_evals sched !! k').
    { intros k'. unfold sched1, offered. destruct (eval_job_for s split_fetch history x) as [job|]; [|by destruct (String.eqb _ _)].
      unfold pending_evals. rewrite enqueue_eval_pending, (Hc x) by by left.
      destruct (String.eqb_spec (eval_job_id x.1) k') as [->|Hk]; [by rewrite lookup_insert_eq|by rewrite lookup_insert_ne]. }
    rewrite H1. destruct (String.eqb_spec (eval_job_id x.1) k) as [Heq|Hk]; [|done].
    destruct (List.find _ l) as [y|] eqn:Ef; [|done]. apply find_some in Ef as [Hy Hk%String.eqb_eq].
    apply list_elem_of_In in Hy. exfalso. apply (Hne y Hy). congruence.
  - intros y Hy. unfold sched1. destruct (eval_job_for s split_fetch history x); [|by apply Hc; right].
    rewrite enqueue_contains by by apply Hne. apply Hc. by right.
Qed.

(** A pass of the evaluation dispatcher offers every queued evaluation the tracker does
    not hold yet, as the job its row, its project and its commit describe, and changes no
    other pending job; while the server drains it offers nothing. *)
Theorem eval_dispatch_exact sched s draining history :
  let sched' := dispatch_queued_evals sched s draining history in
  (forall ev e, evaluations_of s !! ev = Some e ->
     pending_evals sched' !! eval_job_id ev =
       if negb draining && bool_decide (ev_status e = EQueued) && negb (contains_job (sch_tracker sched) (eval_job_id ev))
       then offered (eval_job_for s (has_idle_eval_only_worker (sch_pool sched)) history (ev, e))
              (pending_evals sched !! eval_job_id ev)
       else pending_evals sched !! eval_job_id ev) /\
  (forall k, (forall ev e, evaluations_of s !! ev = Some e -> ev_status e = EQueued -> k <> eval_job_id ev) ->
     pending_evals sched' !! k = pending_evals sched !! k).
Proof.
  unfold dispatch_queued_evals. destruct draining; [done|]. cbv zeta. cbn [negb andb].
  set (l := queued_untracked sched s).
  assert (Hl : forall ev e, (ev, e) ∈ l <-> evaluations_of s !! ev = Some e /\ ev_status e = EQueued /\
    contains_job (sch_tracker sched) (eval_job_id ev) = false).
  { intros ev e. unfold l, queued_untracked.
    rewrite list_elem_of_In, filter_In, <- list_elem_of_In, elem_of_map_to_list, andb_true_iff, bool_decide_eq_true, negb_true_iff.
    done. }
  assert (Hnd : NoDup (map fst l)) by apply NoDup_keys.
  assert (Hc : forall x, x ∈ l -> contains_job (sch_tracker sched) (eval_job_id x.1) = false).
  { intros [ev e] Hx. by apply Hl in Hx as (_ & _ & ?). }
  assert (Hp := fun k => pass_lookup s (has_idle_eval_only_worker (sch_pool sched)) history l sched k Hnd Hc).
  split.
  - intros ev e He. rewrite Hp. destruct (bool_decide (ev_status e = EQueued) && _) eqn:Eb.
    + apply andb_true_iff in Eb as [Hs%bool_decide_eq_true Hx%negb_true_iff].
      assert (Hin : (ev, e) ∈ l) by by apply Hl.
      destruct (List.find _ l) as [[ev' e']|] eqn:Ef.
      * apply find_some in Ef as [Hin' Heq%String.eqb_eq]. apply eval_job_id_inj in Heq. simpl in Heq. subst ev'.
        apply list_elem_of_In, Hl in Hin' as (He' & _). by simplify_eq.
      * apply list_elem_of_In in Hin. apply (find_none _ _ Ef) in Hin. simpl in Hin. by rewrite String.eqb_refl in Hin.
    + destruct (List.find _ l) as [[ev' e']|] eqn:Ef; [|done]. exfalso. apply find_some in Ef as [Hin Heq%String.eqb_eq].
      apply eval_job_id_inj in Heq. simpl in Heq. subst ev'. apply list_elem_of_In, Hl in Hin as (He' & Hs & Hx).
      simplify_eq. by rewrite bool_decide_eq_true_2, Hx in Eb by done.
  - intros k Hk. rewrite Hp. destruct (List.find _ l) as [[ev e]|] eqn:Ef; [|done]. exfalso.
    apply find_some in Ef as [Hin Heq%String.eqb_eq]. apply list_elem_of_In, Hl in Hin as (He & Hs & _). by apply (Hk ev e).
Qed.

End dispatch_theorems.
