(* ===== verification/ForgeWebhook.v ===== *)
(** * Webhook payloads

    [backend/gradient-forge/src/webhook.rs]: what a forge sends, and the one shape per event
    the server works with; [parse_owner_repo] of [reporter.rs], the signatures of
    [github_app.rs] and the providers of [providers/].

    A body is parsed by [serde_json], so the payload of a body is an argument; so are
    [hex::decode] and the HMAC. Numbers of a payload are [u64]. *)

From S2P Require Import Prelude RustStr RustText.

Local Open Scope string_scope.

(** ** Text *)

(** [str::trim_end_matches] with a string. *)
Fixpoint trim_end_str_fuel (fuel : nat) (suffix s : string) : string :=
  match fuel with
  | O => s
  | S fuel => match strip_suffix s suffix with Some r => trim_end_str_fuel fuel suffix r | None => s end
  end.

Definition trim_end_str (suffix s : string) : string := trim_end_str_fuel (String.length s) suffix s.

Definition ascii_lower (a : ascii) : ascii :=
  if is_ascii_uppercase a then ascii_of_nat (nat_of_ascii a + 32) else a.

(** [to_ascii_lowercase] *)
Fixpoint lowercase (s : string) : string :=
  match s with EmptyString => "" | String a s => String (ascii_lower a) (lowercase s) end.

Definition eq_ignore_ascii_case (a b : string) : bool := String.eqb (lowercase a) (lowercase b).

(** [hex::decode] *)
Class Hex := { hex_decode : string -> option string }.

(** HMAC-SHA256, by key and message. *)
Class Hmac := { hmac_sha256 : string -> string -> string }.

(** ** Repositories ([reporter.rs]) *)

Definition parse_owner_repo (repository_url : string) : option (string * string) :=
  let url := default repository_url (RustStr.strip_prefix "git+" repository_url) in
  let schemed := match RustStr.strip_prefix "https://" url with
    | Some rest => Some rest
    | None => match RustStr.strip_prefix "http://" url with Some rest => Some rest | None => RustStr.strip_prefix "git://" url end
    end in
  path ← match schemed with
    | Some rest => option_map snd (split_once "/" rest)
    | None => option_map snd (split_once ":" url)
    end;
  split_once "/" (trim_end_str ".git" path).

(** ** Payloads *)

Record WebhookCommit := { wc_id : option string; wc_message : option string; wc_author : option (option string) }.

(** A repository block: GitHub always has an SSH URL, Gitea may not. *)
Record GitHubRepository := { ghr_clone_url : string; ghr_ssh_url : string; ghr_full_name : option string }.
Record GiteaRepository := { gtr_clone_url : string; gtr_ssh_url : option string; gtr_full_name : option string }.
Record GitLabProject := { glp_http_url : string; glp_ssh_url : option string }.

Record GitHubPushPayload := {
  ghp_ref : string; ghp_after : string; ghp_repository : GitHubRepository; ghp_head_commit : option WebhookCommit }.
Record GiteaPushPayload := {
  gtp_ref : string; gtp_after : string; gtp_repository : GiteaRepository; gtp_head_commit : option WebhookCommit }.
Record GitLabPushPayload := {
  glpp_ref : string; glpp_after : string; glpp_project : GitLabProject; glpp_commits : list WebhookCommit }.

(** The repository a pull request comes from or goes to. *)
Record RepoStub := { rs_full_name : option string; rs_clone_url : option string; rs_ssh_url : option string }.

Record GitHubPRRef := { ghf_sha : string; ghf_branch : string; ghf_repo : option RepoStub }.
Record GitHubPullRequestPayload := {
  ghq_action : string; ghq_head : GitHubPRRef; ghq_base : option GitHubPRRef; ghq_number : option Z;
  ghq_user : option (option string); ghq_title : option string; ghq_repository : GitHubRepository;
  ghq_sender : option (option string) }.

Record GiteaUser := { gtu_username : option string; gtu_login : option string }.
Record GiteaPRRef := { gtf_sha : string; gtf_branch : option string; gtf_name : option string; gtf_repo : option RepoStub }.
Record GiteaPullRequestPayload := {
  gtq_action : string; gtq_head : GiteaPRRef; gtq_base : option GiteaPRRef; gtq_number : option Z;
  gtq_user : option GiteaUser; gtq_title : option string; gtq_repository : GiteaRepository;
  gtq_sender : option GiteaUser }.

Record GitLabMRSource := { gls_http_url : option string; gls_ssh_url : option string }.
Record GitLabMergeRequestPayload := {
  glq_action : string; glq_source_branch : string; glq_last_commit : string; glq_title : option string;
  glq_iid : option Z; glq_source_project : option Z; glq_target_project : option Z; glq_source : option GitLabMRSource;
  glq_project : GitLabProject; glq_user : option (option string) }.

Record GitHubReleasePayload := { ghl_tag : string; ghl_target : string; ghl_repository : GitHubRepository }.
Record GiteaReleasePayload := {
  gtl_tag : string; gtl_target : option string; gtl_sha : option string; gtl_repository : GiteaRepository }.
Record GitLabReleasePayload := { gll_project : GitLabProject; gll_commit : option string; gll_tag : option string }.

Record GitHubReviewPayload := {
  ghv_action : string; ghv_state : option string; ghv_user : option (option string); ghv_number : option Z;
  ghv_repository : GitHubRepository; ghv_sender : option (option string) }.
Record GiteaReviewPayload := {
  gtv_action : string; gtv_type : option string; gtv_number : option Z; gtv_repository : GiteaRepository;
  gtv_sender : option GiteaUser }.

(** [serde_json::from_slice] at each payload type. *)
Class ForgeJson := {
  json_github_push : string -> option GitHubPushPayload;
  json_gitea_push : string -> option GiteaPushPayload;
  json_gitlab_push : string -> option GitLabPushPayload;
  json_github_pull : string -> option GitHubPullRequestPayload;
  json_gitea_pull : string -> option GiteaPullRequestPayload;
  json_gitlab_merge : string -> option GitLabMergeRequestPayload;
  json_github_release : string -> option GitHubReleasePayload;
  json_gitea_release : string -> option GiteaReleasePayload;
  json_gitlab_release : string -> option GitLabReleasePayload;
  json_github_review : string -> option GitHubReviewPayload;
  json_gitea_review : string -> option GiteaReviewPayload;
}.

(** ** Events *)

Record ParsedPushEvent := {
  pp_commit_hash : string; pp_repository_urls : list string; pp_commit_message : option string;
  pp_author_name : option string; pp_ref_name : string; pp_is_tag : bool }.

Inductive PushOutcome := PushBuild (e : ParsedPushEvent) | PushIgnored.

Record ParsedPullRequestEvent := {
  pq_commit_hash : string; pq_repository_urls : list string; pq_action : string; pq_branch : option string;
  pq_number : option Z; pq_author : option string; pq_sender : option string; pq_is_fork : option bool;
  pq_head_clone_url : option string; pq_title : option string }.

Record ParsedReleaseEvent := { pl_commit_hash : string; pl_repository_urls : list string; pl_tag : option string }.

Record ParsedReviewEvent := {
  pv_approved : bool; pv_reviewer : option string; pv_number : option Z; pv_full_name : option string }.

Record PushCommit := { pc_hash : string; pc_ref_name : string; pc_is_tag : bool }.

Section webhook.
Context `{HX : Hex}.

Definition ZERO_SHA : string := "0000000000000000000000000000000000000000".

Definition commit_subject (c : WebhookCommit) : option string :=
  message ← wc_message c;
  line ← head (lines message);
  let subject := trim line in
  if String.eqb subject "" then None else Some subject.

Definition decode_push_commit (git_ref after : string) : option PushCommit :=
  if String.eqb after ZERO_SHA then None
  else
    '(name, tag) ← match RustStr.strip_prefix "refs/heads/" git_ref with
      | Some branch => Some (branch, false)
      | None => option_map (fun t => (t, true)) (RustStr.strip_prefix "refs/tags/" git_ref)
      end;
    hash ← hex_decode after;
    Some {| pc_hash := hash; pc_ref_name := name; pc_is_tag := tag |}.

Definition decode_sha_hex (s : string) : option string :=
  if Nat.eqb (String.length s) 40 then hex_decode s else None.

Definition normalise_gitlab_mr_action (action : string) : string :=
  if String.eqb action "open" then "opened"
  else if String.eqb action "update" then "synchronize"
  else if String.eqb action "reopen" then "reopened"
  else if String.eqb action "merge" then "merged"
  else if String.eqb action "close" then "closed"
  else action.

Definition with_ssh (url : string) (ssh : option string) : list string :=
  url :: match ssh with Some s => [s] | None => [] end.

Definition gitea_repo_urls (r : GiteaRepository) : list string := with_ssh (gtr_clone_url r) (gtr_ssh_url r).
Definition gitlab_project_urls (p : GitLabProject) : list string := with_ssh (glp_http_url p) (glp_ssh_url p).

Definition commit_author (c : WebhookCommit) : option string :=
  match wc_author c with Some name => name | None => None end.

Definition push_event (pc : PushCommit) (urls : list string) (head : option WebhookCommit) : PushOutcome :=
  PushBuild {| pp_commit_hash := pc_hash pc; pp_repository_urls := urls;
    pp_commit_message := head ≫= commit_subject; pp_author_name := head ≫= commit_author;
    pp_ref_name := pc_ref_name pc; pp_is_tag := pc_is_tag pc |}.

Definition push_from_github (p : GitHubPushPayload) : PushOutcome :=
  match decode_push_commit (ghp_ref p) (ghp_after p) with
  | None => PushIgnored
  | Some pc => push_event pc [ghr_clone_url (ghp_repository p); ghr_ssh_url (ghp_repository p)] (ghp_head_commit p)
  end.

Definition push_from_gitea (p : GiteaPushPayload) : PushOutcome :=
  match decode_push_commit (gtp_ref p) (gtp_after p) with
  | None => PushIgnored
  | Some pc => push_event pc (with_ssh (gtr_clone_url (gtp_repository p)) (gtr_ssh_url (gtp_repository p))) (gtp_head_commit p)
  end.

Definition push_from_gitlab (p : GitLabPushPayload) : PushOutcome :=
  match decode_push_commit (glpp_ref p) (glpp_after p) with
  | None => PushIgnored
  | Some pc =>
      let head := match List.find (fun c => bool_decide (wc_id c = Some (glpp_after p))) (glpp_commits p) with
        | Some c => Some c | None => last (glpp_commits p) end in
      push_event pc (with_ssh (glp_http_url (glpp_project p)) (glp_ssh_url (glpp_project p))) head
  end.

(** A pull request comes from a fork when the two repositories are known and differ. *)
Definition fork_of (head base : option string) : option bool :=
  match head, base with Some h, Some b => Some (negb (String.eqb h b)) | _, _ => None end.

(** The head repository's clone URL, and its URLs, when it is a fork. *)
Definition fork_urls (is_fork : option bool) (head_repo : option (option string * option string))
    : option string * list string :=
  match is_fork, head_repo with
  | Some true, Some (clone, ssh) =>
      (clone, (match clone with Some u => [u] | None => [] end ++ match ssh with Some u => [u] | None => [] end)%list)
  | _, _ => (None, [])
  end.

Definition stub_urls (r : RepoStub) : option string * option string := (rs_clone_url r, rs_ssh_url r).

Definition base_name (base_repo : option RepoStub) (repository : option string) : option string :=
  match base_repo ≫= rs_full_name with Some n => Some n | None => repository end.

Definition pull_from_github (p : GitHubPullRequestPayload) : option ParsedPullRequestEvent :=
  hash ← decode_sha_hex (ghf_sha (ghq_head p));
  let base := base_name (ghq_base p ≫= ghf_repo) (ghr_full_name (ghq_repository p)) in
  let is_fork := fork_of (ghf_repo (ghq_head p) ≫= rs_full_name) base in
  let '(clone, urls) := fork_urls is_fork (option_map stub_urls (ghf_repo (ghq_head p))) in
  Some {| pq_commit_hash := hash;
    pq_repository_urls := (urls ++ [ghr_clone_url (ghq_repository p); ghr_ssh_url (ghq_repository p)])%list;
    pq_action := ghq_action p; pq_branch := Some (ghf_branch (ghq_head p)); pq_number := ghq_number p;
    pq_author := match ghq_user p with Some login => login | None => None end;
    pq_sender := match ghq_sender p with Some login => login | None => None end;
    pq_is_fork := is_fork; pq_head_clone_url := clone; pq_title := ghq_title p |}.

Definition gitea_user_name (u : option GiteaUser) : option string :=
  u ≫= fun u => match gtu_username u with Some n => Some n | None => gtu_login u end.

Definition pull_from_gitea (p : GiteaPullRequestPayload) : option ParsedPullRequestEvent :=
  hash ← decode_sha_hex (gtf_sha (gtq_head p));
  let base := base_name (gtq_base p ≫= gtf_repo) (gtr_full_name (gtq_repository p)) in
  let is_fork := fork_of (gtf_repo (gtq_head p) ≫= rs_full_name) base in
  let '(clone, urls) := fork_urls is_fork (option_map stub_urls (gtf_repo (gtq_head p))) in
  Some {| pq_commit_hash := hash; pq_repository_urls := (urls ++ gitea_repo_urls (gtq_repository p))%list;
    pq_action := gtq_action p;
    pq_branch := match gtf_branch (gtq_head p) with Some b => Some b | None => gtf_name (gtq_head p) end;
    pq_number := gtq_number p; pq_author := gitea_user_name (gtq_user p); pq_sender := gitea_user_name (gtq_sender p);
    pq_is_fork := is_fork; pq_head_clone_url := clone; pq_title := gtq_title p |}.

(** The payload of GitLab has no author: its [user] is who caused the event. *)
Definition pull_from_gitlab (p : GitLabMergeRequestPayload) : option ParsedPullRequestEvent :=
  hash ← decode_sha_hex (glq_last_commit p);
  let is_fork := match glq_source_project p, glq_target_project p with
    | Some s, Some t => Some (negb (Z.eqb s t)) | _, _ => None end in
  let user := match glq_user p with Some name => name | None => None end in
  let '(clone, urls) := fork_urls is_fork (option_map (fun s => (gls_http_url s, gls_ssh_url s)) (glq_source p)) in
  Some {| pq_commit_hash := hash; pq_repository_urls := (urls ++ gitlab_project_urls (glq_project p))%list;
    pq_action := normalise_gitlab_mr_action (glq_action p); pq_branch := Some (glq_source_branch p);
    pq_number := glq_iid p; pq_author := user; pq_sender := user;
    pq_is_fork := is_fork; pq_head_clone_url := clone; pq_title := glq_title p |}.

Definition release_from_github (p : GitHubReleasePayload) : option ParsedReleaseEvent :=
  hash ← decode_sha_hex (ghl_target p);
  Some {| pl_commit_hash := hash;
          pl_repository_urls := [ghr_clone_url (ghl_repository p); ghr_ssh_url (ghl_repository p)];
          pl_tag := Some (ghl_tag p) |}.

Definition release_from_gitea (p : GiteaReleasePayload) : option ParsedReleaseEvent :=
  hash ← match gtl_sha p ≫= decode_sha_hex with Some h => Some h | None => gtl_target p ≫= decode_sha_hex end;
  Some {| pl_commit_hash := hash; pl_repository_urls := gitea_repo_urls (gtl_repository p); pl_tag := Some (gtl_tag p) |}.

Definition release_from_gitlab (p : GitLabReleasePayload) : option ParsedReleaseEvent :=
  hash ← gll_commit p ≫= decode_sha_hex;
  Some {| pl_commit_hash := hash; pl_repository_urls := gitlab_project_urls (gll_project p); pl_tag := gll_tag p |}.

Definition review_from_github (p : GitHubReviewPayload) : ParsedReviewEvent := {|
  pv_approved := String.eqb (ghv_action p) "submitted"
    && match ghv_state p with Some s => eq_ignore_ascii_case s "approved" | None => false end;
  pv_reviewer := match (match ghv_user p with Some login => login | None => None end) with
    | Some r => Some r
    | None => match ghv_sender p with Some login => login | None => None end end;
  pv_number := ghv_number p; pv_full_name := ghr_full_name (ghv_repository p) |}.

Definition review_from_gitea (p : GiteaReviewPayload) : ParsedReviewEvent := {|
  pv_approved := String.eqb (gtv_action p) "reviewed"
    && bool_decide (gtv_type p = Some "pull_request_review_approved");
  pv_reviewer := gitea_user_name (gtv_sender p);
  pv_number := gtv_number p; pv_full_name := gtr_full_name (gtv_repository p) |}.

End webhook.

(** ** Signatures and providers *)

Inductive ForgeType := Gitea | Forgejo | GitLab | GitHub.

#[export] Instance ForgeType_eq_dec : EqDecision ForgeType.
Proof. solve_decision. Defined.

Definition forge_from_path_segment (s : string) : option ForgeType :=
  if String.eqb s "gitea" then Some Gitea
  else if String.eqb s "forgejo" then Some Forgejo
  else if String.eqb s "gitlab" then Some GitLab
  else if String.eqb s "github" then Some GitHub else None.

Definition as_path_segment (f : ForgeType) : string :=
  match f with Gitea => "gitea" | Forgejo => "forgejo" | GitLab => "gitlab" | GitHub => "github" end.

Inductive WebhookEventKind := EvPush | EvPullRequest | EvRelease | EvComment | EvReview | EvUnknown (name : string).

Section providers.
Context `{HX : Hex} `{HM : Hmac} `{FJ : ForgeJson}.

(** A digest of another length never matches. *)
Definition verify_github_signature (secret header body : string) : bool :=
  match RustStr.strip_prefix "sha256=" header with
  | None => false
  | Some hex => match hex_decode hex with Some d => String.eqb d (hmac_sha256 secret body) | None => false end
  end.

Definition verify_gitea_signature (secret header body : string) : bool :=
  match hex_decode (trim header) with Some d => String.eqb d (hmac_sha256 secret body) | None => false end.

Definition accepts_per_integration_webhook (f : ForgeType) : bool := match f with GitHub => false | _ => true end.

Definition signature_headers (f : ForgeType) : list string :=
  match f with
  | Gitea | Forgejo => ["X-Forgejo-Signature"; "X-Gitea-Signature"]
  | GitLab => ["X-Gitlab-Token"]
  | GitHub => ["X-Hub-Signature-256"]
  end.

Definition event_headers (f : ForgeType) : list string :=
  match f with
  | Gitea | Forgejo => ["X-Forgejo-Event"; "X-Gitea-Event"; "X-Gogs-Event"]
  | GitLab => ["X-Gitlab-Event"]
  | GitHub => ["X-GitHub-Event"]
  end.

Definition verify_signature (f : ForgeType) (secret signature body : string) : bool :=
  match f with
  | Gitea | Forgejo => verify_gitea_signature secret signature body
  | GitLab => String.eqb signature secret
  | GitHub => verify_github_signature secret signature body
  end.

Definition classify_event (f : ForgeType) (event : string) : WebhookEventKind :=
  match f with
  | Gitea | Forgejo =>
      if String.eqb event "push" then EvPush
      else if String.eqb event "pull_request" then EvPullRequest
      else if String.eqb event "release" then EvRelease
      else if String.eqb event "issue_comment" || String.eqb event "pull_request_comment" then EvComment
      else if String.eqb event "pull_request_review" then EvReview
      else EvUnknown event
  | GitLab =>
      if String.eqb event "Push Hook" || String.eqb event "Tag Push Hook" then EvPush
      else if String.eqb event "Merge Request Hook" then EvPullRequest
      else if String.eqb event "Release Hook" then EvRelease
      else if String.eqb event "Note Hook" then EvComment
      else EvUnknown event
  | GitHub => EvUnknown "github"
  end.

Definition parse_push_event (f : ForgeType) (body : string) : option PushOutcome :=
  match f with
  | Gitea | Forgejo => option_map push_from_gitea (json_gitea_push body)
  | GitLab => option_map push_from_gitlab (json_gitlab_push body)
  | GitHub => option_map push_from_github (json_github_push body)
  end.

Definition parse_pull_request_event (f : ForgeType) (body : string) : option ParsedPullRequestEvent :=
  match f with
  | Gitea | Forgejo => json_gitea_pull body ≫= pull_from_gitea
  | GitLab => json_gitlab_merge body ≫= pull_from_gitlab
  | GitHub => json_github_pull body ≫= pull_from_github
  end.

Definition parse_release_event (f : ForgeType) (body : string) : option ParsedReleaseEvent :=
  match f with
  | Gitea | Forgejo => json_gitea_release body ≫= release_from_gitea
  | GitLab => json_gitlab_release body ≫= release_from_gitlab
  | GitHub => json_github_release body ≫= release_from_github
  end.

End providers.
