(* ===== verification/ForgeFanout.v ===== *)
(** * From a webhook to evaluations

    [backend/gradient-web/src/endpoints/forge_hooks/fanout.rs], the repository matching of
    [installation.rs] and [response.rs]: which triggers of an integration an event fires,
    and which of the evaluations it creates wait for a maintainer.

    What a forge answers about its users is an argument. *)

From S2P Require Import Prelude Float RustStr RustText Status ScoreContext Proto JobData JobTracker WorkerPool EdgeStream Scheduler BuildGraph Promotion Transitions Healing WaitingState EvalResult Access Glob CiState Triggering TriggerLoop ForgeWebhook.

Local Open Scope Z_scope.

(** ** Repository URLs ([installation.rs]) *)

Definition trim_end_slashes (s : string) : string := RustText.trim_end_matches "/" s.

Definition normalize_repo_url (url : string) : string :=
  let s := trim_end_slashes (RustText.trim url) in
  let s := default s (strip_suffix s ".git") in
  match RustStr.strip_prefix "git@" s with
  | Some rest =>
      match split_once ":" rest with
      | Some (host, path) => ("https://" +:+ host +:+ "/" +:+ path)%string
      | None => s
      end
  | None => s
  end.

Definition joined (x : string * string) : string := (x.1 +:+ "/" +:+ x.2)%string.

Definition repo_identity (url : string) : option string := option_map (fun x => lowercase (joined x)) (parse_owner_repo url).

(** No URL that can be parsed matches every project. *)
Definition event_repo_matches_project (event_repo_urls : list string) (project_repository : string) : bool :=
  match omap repo_identity event_repo_urls with
  | [] => true
  | keys => match repo_identity project_repository with Some target => bool_decide (target ∈ keys) | None => false end
  end.

Definition github_full_name (repo_url : string) : option string :=
  let lower := lowercase repo_url in
  if contains_str "github.com" lower || RustStr.starts_with lower "github:" || RustStr.starts_with lower "git+github:"
  then option_map (fun x => lowercase (joined x)) (parse_owner_repo repo_url)
  else None.

(** ** Globs of branches and tags ([fanout.rs]) *)

Fixpoint drop_stars (p : list string) : list string :=
  match p with
  | x :: p' => if String.eqb x "*" then drop_stars p' else p
  | [] => []
  end.

(** [p] and [t] are what is left of the pattern and the text. Each call drops a character of
    the pattern, so its length is fuel enough. *)
Fixpoint glob_match_recursive (fuel : nat) (p t : list string) : bool :=
  match fuel with
  | O => bool_decide (p = []) && bool_decide (t = [])
  | S fuel =>
      match p with
      | [] => bool_decide (t = [])
      | x :: p' =>
          if String.eqb x "*" then
            match drop_stars p' with
            | [] => true
            | next => existsb (fun advance => glob_match_recursive fuel next (drop advance t)) (seq 0 (S (length t)))
            end
          else match t with
          | [] => false
          | y :: t' => if String.eqb x y then glob_match_recursive fuel p' t' else false
          end
      end
  end.

Definition glob_match_pattern (pattern text : string) : bool :=
  glob_match_recursive (length (chars pattern)) (chars pattern) (chars text).

(** No globs match everything. *)
Definition glob_matches (globs : list string) (name : string) : bool :=
  match globs with [] => true | _ => existsb (fun g => glob_match_pattern g name) globs end.

(** ** Outcomes ([response.rs]) *)

Record QueuedEvaluation := {
  qe_project : ProjectId; qe_name : string; qe_organization : string; qe_evaluation : EvaluationId }.
Record SkippedProject := { sp_project : ProjectId; sp_name : string; sp_organization : string; sp_reason : string }.

Record WebhookTriggerOutcome := {
  wo_projects_scanned : Z; wo_queued : list QueuedEvaluation; wo_skipped : list SkippedProject }.

Definition no_outcome : WebhookTriggerOutcome := {| wo_projects_scanned := 0; wo_queued := []; wo_skipped := [] |}.

Definition add_outcome (a b : WebhookTriggerOutcome) : WebhookTriggerOutcome := {|
  wo_projects_scanned := u32 (wo_projects_scanned a + wo_projects_scanned b);
  wo_queued := wo_queued a ++ wo_queued b; wo_skipped := wo_skipped a ++ wo_skipped b |}.

(** ** Rows *)

Inductive IntegrationKind := Inbound | Outbound.

#[export] Instance IntegrationKind_eq_dec : EqDecision IntegrationKind.
Proof. solve_decision. Defined.

Record IntegrationRow := {
  ig_id : IntegrationId; ig_organization : OrganizationId; ig_kind : IntegrationKind; ig_forge : ForgeType;
  ig_name : string; ig_secret : option string; ig_allowed_ips : list string; ig_installation : option N }.

(** [github_installation]; [gi_number] is GitHub's id of the installation. *)
Record InstallationRow := {
  gi_id : N; gi_organization : OrganizationId; gi_number : Z; gi_login : option string; gi_creator : UserId }.

Record OrganizationRow := { og_name : string; og_creator : UserId }.

(** What the server asks and tells a forge. *)
Inductive ForgeEffect :=
| ApprovalGranted (ev : EvaluationId)
| ApproveReview (project : ProjectId) (owner repo : string) (pr_number : Z)
| React (project : ProjectId) (owner repo : string) (pr_number comment_id : Z) (trusted : bool)
| ErrorComment (project : ProjectId) (owner repo : string) (pr_number : Z) (wildcard : string).

(** [hk_check_runs]: the ids of [check_run_ids] of an evaluation. *)
Record Hooks `{CH : Chrono} {SD : Serde} {HO : HashOrder} {UF : UuidFormat} `{!TriggerCodec} := {
  hk_ci : Ci;
  hk_integrations : list IntegrationRow;
  hk_installations : list InstallationRow;
  hk_organizations : gmap OrganizationId OrganizationRow;
  hk_check_runs : gmap EvaluationId (list Z);
  hk_effects : list ForgeEffect;
  hk_next : N;
}.

(** ** The forge *)

Record PullRequestSnapshot := {
  ps_head_sha : string; ps_head_branch : string; ps_is_fork : bool; ps_head_clone_url : option string }.

(** [reporter_for_project] finds a reporter; a probe that fails is no. *)
Class Forge := {
  reporter_for : ProjectId -> bool;
  is_repo_writer : ProjectId -> string -> string -> string -> bool;
  get_pull_request : ProjectId -> string -> string -> Z -> result (option PullRequestSnapshot) ();
  post_pr_comment : ProjectId -> string -> string -> Z -> bool;
}.

(** [approval.rs] *)
Definition sender_is_trusted `{Forge} (project : ProjectId) (owner repo sender : string) : bool :=
  reporter_for project && is_repo_writer project owner repo sender.

Record PullRequestApprovalContext := {
  ac_pr_number : option Z; ac_pr_author : option string; ac_is_fork : option bool; ac_sender : option string }.

Inductive PushRefKind := RefBranch (name : string) | RefTag (name : string).

Inductive FilterResult := Fire | FirePr (require_approval : bool) | SkipFilter | SkipTrigger.

(** ** Filters *)

Definition push_filter (ref_kind : PushRefKind) (cfg : TriggerConfig) : FilterResult :=
  match cfg with
  | CfgReporterPush _ branches tags releases_only =>
      if releases_only then SkipTrigger
      else if match ref_kind with RefBranch name => glob_matches branches name | RefTag name => glob_matches tags name end
      then Fire else SkipFilter
  | _ => SkipTrigger
  end.

Definition pr_filter (branch : option string) (action : string) (cfg : TriggerConfig) : FilterResult :=
  match cfg with
  | CfgReporterPullRequest _ branches actions require_approval =>
      if negb (existsb (String.eqb action) actions) then SkipFilter
      else if negb match branch with Some b => glob_matches branches b | None => bool_decide (branches = []) end
      then SkipFilter else FirePr require_approval
  | _ => SkipTrigger
  end.

Definition release_filter (tag : option string) (cfg : TriggerConfig) : FilterResult :=
  match cfg with
  | CfgReporterPush _ _ tags releases_only =>
      if negb releases_only then SkipTrigger
      else if match tag with Some t => glob_matches tags t | None => bool_decide (tags = []) end then Fire else SkipFilter
  | _ => SkipTrigger
  end.

Section fanout.
Context `{CH : Chrono} {SD : Serde} {HO : HashOrder} {UF : UuidFormat} `{!Calendar} `{!CronLib} `{!TriggerCodec} `{FG : Forge}.
Implicit Types (h : Hooks) (s : CiDb).

Definition on_hk_ci h (f : Ci -> Ci) : Hooks := {|
  hk_ci := f (hk_ci h); hk_integrations := hk_integrations h; hk_installations := hk_installations h;
  hk_organizations := hk_organizations h; hk_check_runs := hk_check_runs h; hk_effects := hk_effects h; hk_next := hk_next h |}.

Definition db_of h : CiDb := cl_db (hk_ci h).
Definition on_hk_db h (f : CiDb -> CiDb) : Hooks := on_hk_ci h (fun c => on_ci c f).

Definition tell h (e : ForgeEffect) : Hooks := {|
  hk_ci := hk_ci h; hk_integrations := hk_integrations h; hk_installations := hk_installations h;
  hk_organizations := hk_organizations h; hk_check_runs := hk_check_runs h; hk_effects := hk_effects h ++ [e];
  hk_next := hk_next h |}.

(** ** The approval gate *)

Definition gate_decision (ctx : PullRequestApprovalContext) (sender_trusted : bool) : option ApprovalInfo :=
  if bool_decide (ac_is_fork ctx = Some false) || sender_trusted then None
  else Some {| ai_pr_number := default 0 (ac_pr_number ctx); ai_pr_author := default ""%string (ac_pr_author ctx) |}.

Definition decide_pr_gate (project_id : ProjectId) (project : ProjectRow) (ctx : option PullRequestApprovalContext)
    : option ApprovalInfo :=
  match ctx with
  | None => None
  | Some ctx =>
      let sender_trusted :=
        match ac_sender ctx with
        | Some sender =>
            if negb (bool_decide (ac_is_fork ctx = Some false)) then
              match parse_owner_repo (pj_repository project) with
              | Some (owner, repo) => sender_is_trusted project_id owner repo sender
              | None => false
              end
            else false
        | None => false
        end in
      gate_decision ctx sender_trusted
  end.

(** ** The fan-out *)

(** Active triggers of the type, in the organization of the integration. *)
Definition load_active_triggers h (integration : IntegrationId) (t : TriggerType) : list TriggerRow :=
  List.filter (fun r => tr_active r && bool_decide (tr_type r = t)
      && match ci_projects (db_of h) !! tr_project r with
         | Some p => existsb (fun i => N.eqb (ig_id i) integration && N.eqb (ig_organization i) (pj_organization p)) (hk_integrations h)
         | None => false end) (ci_triggers (db_of h)).

Definition org_name_for h (org : OrganizationId) : string :=
  default ""%string (option_map og_name (hk_organizations h !! org)).

Definition skip_as (o : WebhookTriggerOutcome) (id : ProjectId) (p : ProjectRow) (org reason : string)
    : WebhookTriggerOutcome := {|
  wo_projects_scanned := wo_projects_scanned o; wo_queued := wo_queued o;
  wo_skipped := wo_skipped o ++ [{| sp_project := id; sp_name := pj_name p; sp_organization := org; sp_reason := reason |}] |}.

Definition queue_as (o : WebhookTriggerOutcome) (id : ProjectId) (p : ProjectRow) (org : string) (ev : EvaluationId)
    : WebhookTriggerOutcome := {|
  wo_projects_scanned := wo_projects_scanned o; wo_skipped := wo_skipped o;
  wo_queued := wo_queued o ++ [{| qe_project := id; qe_name := pj_name p; qe_organization := org; qe_evaluation := ev |}] |}.

Definition scan (o : WebhookTriggerOutcome) : WebhookTriggerOutcome := {|
  wo_projects_scanned := u32 (wo_projects_scanned o + 1); wo_queued := wo_queued o; wo_skipped := wo_skipped o |}.

Context (between : CiDb -> CiDb) (orgs : OrgTables) (max_storage_gb : Z) (now : NaiveDateTime).

Definition apply_and_record h (trig : TriggerRow) (project : ProjectRow) (input : ApplyInput) (org_name : string)
    (o : WebhookTriggerOutcome) : Hooks * WebhookTriggerOutcome :=
  let '(s, r) := apply_trigger between orgs (db_of h) now (tr_project trig) project input in
  let s := update_last_fired s (tr_id trig) now in
  let h := on_hk_ci h (fun c => follow_outcome c (s, r)) in
  (h, match r with
      | Ok (Created ev _ _ _) => queue_as o (tr_project trig) project org_name ev
      | Ok SkippedSameCommit => skip_as o (tr_project trig) project org_name "same_commit"
      | Ok SkippedConcurrency => skip_as o (tr_project trig) project org_name "concurrency"
      | Err _ => skip_as o (tr_project trig) project org_name "error"
      end).

(** What an event carries to every trigger it fires. *)
Record HookEvent := {
  vt_commit_hash : string; vt_commit_message : option string; vt_author_name : option string;
  vt_approval : option PullRequestApprovalContext; vt_repository_override : option string; vt_manual : bool;
  vt_wildcard_override : option string; vt_source_comment : option SourceComment;
}.

(** The number of the pull request is kept for every run of one. *)
Definition event_source_comment (e : HookEvent) : option SourceComment :=
  match vt_source_comment e with
  | Some sc => Some sc
  | None =>
      match vt_approval e with
      | Some c => option_map (fun n => PullRequestSource n (ac_pr_author c)) (ac_pr_number c)
      | None => None
      end
  end.

Definition fire_trigger (event_repo_urls : list string) (trigger_type : TriggerType) (e : HookEvent)
    (filter : TriggerConfig -> FilterResult) (x : Hooks * WebhookTriggerOutcome) (trig : TriggerRow)
    : Hooks * WebhookTriggerOutcome :=
  let '(h, o) := x in
  match parse_row (tr_type trig) (tr_config trig) with
  | Err _ => x
  | Ok cfg =>
      match ci_projects (db_of h) !! tr_project trig with
      | None => x
      | Some project =>
          if negb (event_repo_matches_project event_repo_urls (pj_repository project)) then x
          else
            let org_name := org_name_for h (pj_organization project) in
            let go require_approval :=
              apply_and_record h trig project {|
                in_trigger_id := tr_id trig; in_trigger_type := trigger_type; in_commit_hash := vt_commit_hash e;
                in_commit_message := vt_commit_message e; in_author_name := vt_author_name e; in_manual := vt_manual e;
                in_gate_approval := if require_approval : bool then decide_pr_gate (tr_project trig) project (vt_approval e) else None;
                in_repository_override := vt_repository_override e; in_wildcard_override := vt_wildcard_override e;
                in_source_comment := event_source_comment e; in_instance_max_storage_gb := max_storage_gb |}
                org_name (scan o) in
            match filter cfg with
            | SkipTrigger => x
            | SkipFilter => (h, skip_as o (tr_project trig) project org_name "filter")
            | Fire => go false
            | FirePr require_approval => go require_approval
            end
      end
  end.

Definition fan_out_triggers h (integration : IntegrationId) (event_repo_urls : list string) (trigger_type : TriggerType)
    (e : HookEvent) (filter : TriggerConfig -> FilterResult) : Hooks * WebhookTriggerOutcome :=
  foldl (fire_trigger event_repo_urls trigger_type e filter) (h, no_outcome) (load_active_triggers h integration trigger_type).

Definition trigger_push_for_integration h (integration : IntegrationId) (urls : list string) (ref_kind : PushRefKind)
    (commit_hash : string) (commit_message author_name : option string) : Hooks * WebhookTriggerOutcome :=
  fan_out_triggers h integration urls TypeReporterPush {|
    vt_commit_hash := commit_hash; vt_commit_message := commit_message; vt_author_name := author_name;
    vt_approval := None; vt_repository_override := None; vt_manual := false; vt_wildcard_override := None;
    vt_source_comment := None |} (push_filter ref_kind).

Definition trigger_pr_for_integration h (integration : IntegrationId) (urls : list string) (branch : option string)
    (action : string) (e : HookEvent) : Hooks * WebhookTriggerOutcome :=
  fan_out_triggers h integration urls TypeReporterPullRequest e (pr_filter branch action).

Definition trigger_release_for_integration h (integration : IntegrationId) (urls : list string) (tag : option string)
    (commit_hash : string) : Hooks * WebhookTriggerOutcome :=
  fan_out_triggers h integration urls TypeReporterPush {|
    vt_commit_hash := commit_hash; vt_commit_message := None; vt_author_name := None;
    vt_approval := None; vt_repository_override := None; vt_manual := false; vt_wildcard_override := None;
    vt_source_comment := None |} (release_filter tag).

End fanout.
