(* ===== verification/ForgeCommands.v ===== *)
(** * Comments, reviews and installations

    [backend/gradient-web/src/endpoints/forge_hooks/commands.rs], [approval.rs] and
    [installation.rs], with [gated_eval] of [gradient-ci/src/unpark.rs] and
    [gradient-ci/src/integration_lookup.rs]: what people say on a pull request, and the
    rows that bind a GitHub App to an organization.

    A body is parsed by [serde_json]; its payloads are arguments. *)

From S2P Require Import Prelude Float RustStr RustText Status ScoreContext Proto JobData JobTracker WorkerPool EdgeStream Scheduler Retry BuildGraph Promotion Transitions Healing WaitingState EvalResult Access Tokens Wildcard Glob CiState Triggering TriggerLoop ForgeWebhook ForgeFanout.

Local Open Scope Z_scope.

(** ** Payloads ([payloads.rs]) *)

Record CommentPayload := {
  cp_action : option string;
  cp_comment : option (option string * option Z);
  cp_issue : option (option Z);
  cp_pull_request : option (option Z);
  cp_sender : option (option string * option string);
  cp_repository : option (option string);
  cp_attributes : option (option Z * option string * option string);
  cp_user : option (option string * option string);
  cp_project : option (option string);
  cp_merge_request : option (option Z);
}.

(** [cs_action] has the identifier of the requested action. *)
Record CheckRunPayload := {
  ck_action : string; ck_identifier : option string; ck_id : Z; ck_full_name : option string; ck_sender : option string }.

Record InstallationPayload := {
  ip_action : string; ip_number : Z; ip_login : string; ip_sender : option string;
  ip_repositories : list string; ip_repositories_added : list string }.

Class HookJson := {
  json_comment : string -> option CommentPayload;
  json_check_run : string -> option CheckRunPayload;
  json_installation : string -> option InstallationPayload;
  json_installation_id : string -> option Z;
}.

Definition installed_full_names (p : InstallationPayload) : list string :=
  map lowercase (ip_repositories p ++ ip_repositories_added p).

(** [config->>'integration_id'] *)
Class ConfigColumn `{TriggerCodec} := { config_integration_id : ConfigJson -> option IntegrationId }.

(** ** Commands *)

Inductive GradientCommand := CmdRun (wildcard : option string) | CmdApprove.

(** Parsing a comment can panic, where a line is split inside a character. *)
Inductive Parsed := Panics | NoCommand | Command (c : GradientCommand).

Definition is_ascii_whitespace (a : ascii) : bool :=
  let n := nat_of_ascii a in
  Nat.eqb n 32 || Nat.eqb n 9 || Nat.eqb n 10 || Nat.eqb n 12 || Nat.eqb n 13.

(** [str::split_once] at a character of a class. *)
Fixpoint split_once_by (p : ascii -> bool) (s : string) : option (string * string) :=
  match s with
  | EmptyString => None
  | String a s' => if p a then Some (""%string, s') else option_map (fun x => (String a x.1, x.2)) (split_once_by p s')
  end.

Definition PREFIX : string := "/gradient".

(** The body of the loop on one line that is neither blank nor a quote. *)
Definition line_command (trimmed : string) : Parsed :=
  if (String.length trimmed <? String.length PREFIX)%nat then NoCommand
  else if negb (is_char_boundary trimmed (String.length PREFIX)) then Panics
  else
    let prefix := String.substring 0 (String.length PREFIX) trimmed in
    let rest := String.substring (String.length PREFIX) (String.length trimmed - String.length PREFIX) trimmed in
    if negb (eq_ignore_ascii_case prefix PREFIX) then NoCommand
    else if negb match rest with String a _ => is_ascii_whitespace a | EmptyString => false end then NoCommand
    else
      let rest := RustText.trim rest in
      let '(verb, arg) := match split_once_by is_ascii_whitespace rest with
        | Some (v, a) => (v, RustText.trim a)
        | None => (rest, ""%string)
        end in
      if eq_ignore_ascii_case verb "run" then Command (CmdRun (if String.eqb arg "" then None else Some arg))
      else if eq_ignore_ascii_case verb "approve" then (if String.eqb arg "" then Command CmdApprove else NoCommand)
      else NoCommand.

Definition skipped_line (trimmed : string) : bool := String.eqb trimmed "" || RustStr.starts_with trimmed ">".

Fixpoint parse_lines (found : option GradientCommand) (l : list string) : Parsed :=
  match l with
  | [] => match found with Some c => Command c | None => NoCommand end
  | line :: l =>
      let trimmed := RustText.trim line in
      if skipped_line trimmed then parse_lines found l
      else match found with
      | Some _ => NoCommand
      | None => match line_command trimmed with Command c => parse_lines (Some c) l | r => r end
      end
  end.

Definition parse_gradient_command (body : string) : Parsed := parse_lines None (lines body).

Record CommentEvent := {
  ce_body : string; ce_pr_number : option Z; ce_sender : option string; ce_owner_repo : option string;
  ce_comment_id : option Z }.

Definition or_else {A} (a b : option A) : option A := match a with Some x => Some x | None => b end.

Section commands.
Context `{CH : Chrono} {SD : Serde} {HO : HashOrder} {UF : UuidFormat} `{!Calendar} `{!CronLib} `{!TriggerCodec}
  `{HX : Hex} `{FJ : ForgeJson} `{HJ : HookJson} `{!ConfigColumn} `{CR : Crypto} `{FG : Forge}.
Implicit Types (h : Hooks) (s : CiDb) (ev : EvaluationId).

Definition parse_comment_event (forge : ForgeType) (body : string) : option CommentEvent :=
  payload ← json_comment body;
  match forge with
  | GitLab =>
      '(id, note, noteable) ← cp_attributes payload;
      if negb (bool_decide (noteable = Some "MergeRequest"%string)) then None
      else Some {| ce_comment_id := id; ce_body := default ""%string note; ce_pr_number := mjoin (cp_merge_request payload);
                   ce_sender := cp_user payload ≫= fun u => or_else u.2 u.1;
                   ce_owner_repo := mjoin (cp_project payload) |}
  | _ =>
      if negb (bool_decide (cp_action payload = Some "created"%string)) then None
      else
        let '(body, id) := default (None, None) (cp_comment payload) in
        Some {| ce_comment_id := id; ce_body := default ""%string body;
                ce_pr_number := mjoin (or_else (cp_pull_request payload) (cp_issue payload));
                ce_sender := cp_sender payload ≫= fun u => or_else u.1 u.2;
                ce_owner_repo := mjoin (cp_repository payload) |}
  end.

(** [str::rsplit_once('/')] *)
Definition rsplit_slash (s : string) : option (string * string) :=
  match reverse (split_char "/" s) with
  | repo :: (_ :: _) as parts => Some (join_with "/" (reverse (tail parts)), repo)
  | _ => None
  end.

(** ** Looking rows up *)

Definition active_project_ids_for_integration s (integration : IntegrationId) : list ProjectId :=
  remove_dups (map tr_project (List.filter (fun t => tr_active t && bool_decide (tr_type t = TypeReporterPullRequest)
    && bool_decide (config_integration_id (tr_config t) = Some integration)) (ci_triggers s))).

Definition first_project_with_reporter (projects : list ProjectId) : option ProjectId := List.find reporter_for projects.

(** [unpark.rs] *)
Definition gated_eval s (project : ProjectId) (pr_number : Z) : option EvaluationId :=
  option_map fst (find_approval_gated_eval (map_to_list (evaluations_of s)) project pr_number).

(** ** GitHub App installations ([installation.rs]) *)

Definition resolve_github_app_targets h (installation_id : Z) (repository_urls : list string) (client_ip : IpAddr)
    : list IntegrationId :=
  let webhook_urls := map normalize_repo_url repository_urls in
  omap (fun inst =>
    let org := gi_organization inst in
    if negb (existsb (fun x => N.eqb (pj_organization x.2) org
                               && bool_decide (normalize_repo_url (pj_repository x.2) ∈ webhook_urls))
                     (map_to_list (ci_projects (db_of h)))) then None
    else
      match List.find (fun i => N.eqb (ig_organization i) org && bool_decide (ig_kind i = Inbound)
              && bool_decide (ig_forge i = GitHub) && bool_decide (ig_installation i = Some (gi_id inst))) (hk_integrations h) with
      | None => None
      | Some i => if is_allowed client_ip (ig_allowed_ips i) then Some (ig_id i) else None
      end)
    (List.filter (fun i => Z.eqb (gi_number i) installation_id) (hk_installations h)).

Definition set_bindings h (installations : list InstallationRow) (integrations : list IntegrationRow) (next : N) : Hooks := {|
  hk_ci := hk_ci h; hk_integrations := integrations; hk_installations := installations;
  hk_organizations := hk_organizations h; hk_check_runs := hk_check_runs h; hk_effects := hk_effects h; hk_next := next |}.

(** [integration_lookup.rs]; an id is shown in decimal. *)
Definition github_integration_name (login : option string) (shown_id : string) : string :=
  match login with
  | Some login => if negb (String.eqb (RustText.trim login) "") then ("github-" +:+ lowercase (RustText.trim login))%string
                  else ("github-" +:+ shown_id)%string
  | None => ("github-" +:+ shown_id)%string
  end.

Definition with_login (login : option string) (i : InstallationRow) : InstallationRow := {|
  gi_id := gi_id i; gi_organization := gi_organization i; gi_number := gi_number i;
  gi_login := or_else login (gi_login i); gi_creator := gi_creator i |}.

(** [INSERT .. ON CONFLICT (organization, installation_id) DO UPDATE] *)
Definition upsert_github_installation h (org : OrganizationId) (number : Z) (login : option string) (creator : UserId)
    : Hooks * N :=
  let same i := N.eqb (gi_organization i) org && Z.eqb (gi_number i) number in
  match List.find same (hk_installations h) with
  | Some row =>
      (set_bindings h (map (fun i => if same i then with_login login i else i) (hk_installations h)) (hk_integrations h) (hk_next h),
       gi_id row)
  | None =>
      let id := hk_next h in
      (set_bindings h (hk_installations h ++ [{| gi_id := id; gi_organization := org; gi_number := number;
          gi_login := login; gi_creator := creator |}]) (hk_integrations h) (N.succ id), id)
  end.

Definition ensure_kind (org : OrganizationId) (installation : N) (name : string) h (kind : IntegrationKind) : Hooks :=
  let mine i := N.eqb (ig_organization i) org && bool_decide (ig_kind i = kind) in
  if existsb (fun i => mine i && bool_decide (ig_forge i = GitHub) && bool_decide (ig_installation i = Some installation))
       (hk_integrations h) then h
  else if existsb (fun i => mine i && String.eqb (ig_name i) name) (hk_integrations h) then h
  else set_bindings h (hk_installations h) (hk_integrations h ++ [{| ig_id := hk_next h; ig_organization := org;
         ig_kind := kind; ig_forge := GitHub; ig_name := name; ig_secret := None; ig_allowed_ips := [];
         ig_installation := Some installation |}]) (N.succ (hk_next h)).

Definition ensure_github_app_integrations h (org : OrganizationId) (installation : N) (name : string) : Hooks :=
  foldl (ensure_kind org installation name) h [Inbound; Outbound].

Definition clear_installation_id h (number : Z) : Hooks :=
  set_bindings h (List.filter (fun i => negb (Z.eqb (gi_number i) number)) (hk_installations h)) (hk_integrations h) (hk_next h).

Definition owner_orgs h (installed : list string) : list OrganizationId :=
  remove_dups (map (fun x => pj_organization x.2) (List.filter (fun x =>
    contains_str "github" (pj_repository x.2)
    && match github_full_name (pj_repository x.2) with Some n => bool_decide (n ∈ installed) | None => false end)
    (map_to_list (ci_projects (db_of h))))).

Definition bind_org (number : Z) (shown_number login : string) h (org : OrganizationId) : Hooks :=
  match hk_organizations h !! org with
  | None => h
  | Some row =>
      let '(h, inst) := upsert_github_installation h org number (Some login) (og_creator row) in
      ensure_github_app_integrations h org inst (github_integration_name (Some login) shown_number)
  end.

(** [show] writes the number of the installation. *)
Definition store_installation_id (show : Z -> string) h (p : InstallationPayload) : Hooks :=
  match installed_full_names p with
  | [] => h
  | installed => foldl (bind_org (ip_number p) (show (ip_number p)) (ip_login p)) h (owner_orgs h installed)
  end.

Definition handle_github_installation (show : Z -> string) h (body : string) : Hooks :=
  match json_installation body with
  | None => h
  | Some p => if String.eqb (ip_action p) "deleted" then clear_installation_id h (ip_number p) else store_installation_id show h p
  end.

(** ** Releasing the gate ([approval.rs]) *)

Context (between : CiDb -> CiDb) (orgs : OrgTables) (max_storage_gb : Z) (now : NaiveDateTime).

Definition dispatch_approval_granted h ev (e : EvaluationRow) : Hooks :=
  match ev_project e with Some _ => tell h (ApprovalGranted ev) | None => h end.

Definition submit_pr_approval_review h (project : ProjectId) (owner repo : string) (pr_number : Z) : Hooks :=
  if reporter_for project then tell h (ApproveReview project owner repo pr_number) else h.

Definition APPROVAL_ACTION_ID : string := "approve-and-run".

Definition find_eval_by_check_id h (check_id : Z) : option (EvaluationId * EvaluationRow) :=
  match List.find (fun x : EvaluationId * list Z => bool_decide (check_id ∈ x.2)) (map_to_list (hk_check_runs h)) with
  | Some (ev, _) => option_map (pair ev) (evaluations_of (db_of h) !! ev)
  | None => None
  end.

Definition handle_github_check_run h (body : string) : Hooks :=
  match json_check_run body with
  | None => h
  | Some p =>
      if negb (String.eqb (ck_action p) "requested_action") then h
      else if negb (bool_decide (ck_identifier p = Some APPROVAL_ACTION_ID)) then h
      else
        match ck_sender p, ck_full_name p ≫= split_once "/", find_eval_by_check_id h (ck_id p) with
        | Some sender, Some (owner, repo), Some (ev, e) =>
            match ev_project e with
            | None => h
            | Some project =>
                if negb (sender_is_trusted project owner repo sender) then h
                else match approve (db_of h) now ev with
                | (s, Some unparked) =>
                    let h := dispatch_approval_granted (on_hk_db h (fun _ => s)) ev unparked in
                    match ev_waiting_reason e with
                    | Some (WApproval pr_number _) => submit_pr_approval_review h project owner repo pr_number
                    | _ => h
                    end
                | (s, None) => on_hk_db h (fun _ => s)
                end
            end
        | _, _, _ => h
        end
  end.

Definition unpark_pr_approval_eval (pr_number : Z) h (project : ProjectId) : Hooks :=
  match gated_eval (db_of h) project pr_number with
  | None => h
  | Some ev =>
      match approve (db_of h) now ev with
      | (s, Some e) => dispatch_approval_granted (on_hk_db h (fun _ => s)) ev e
      | (s, None) => on_hk_db h (fun _ => s)
      end
  end.

(** The URLs a GitHub repository goes by. *)
Definition github_urls (owner_repo : string) : list string :=
  [("https://github.com/" +:+ owner_repo)%string; ("https://github.com/" +:+ owner_repo +:+ ".git")%string;
   ("git@github.com:" +:+ owner_repo +:+ ".git")%string].

(** The integrations an event addresses: the route's, or those of the installation. *)
Definition addressed h (integration : option IntegrationId) (body owner_repo : string) (client_ip : IpAddr)
    : option (list IntegrationId) :=
  match integration with
  | Some id => Some [id]
  | None =>
      installation_id ← json_installation_id body;
      match resolve_github_app_targets h installation_id (github_urls owner_repo) client_ip with
      | [] => None
      | targets => Some targets
      end
  end.

Definition review_for_integration (owner repo reviewer : string) (pr_number : Z) h (integration : IntegrationId) : Hooks :=
  let project_ids := active_project_ids_for_integration (db_of h) integration in
  match first_project_with_reporter project_ids with
  | None => h
  | Some probe =>
      if negb (sender_is_trusted probe owner repo reviewer) then h
      else foldl (unpark_pr_approval_eval pr_number) h project_ids
  end.

Definition parse_review (forge : ForgeType) (body : string) : option ParsedReviewEvent :=
  match forge with
  | GitHub => option_map review_from_github (json_github_review body)
  | Gitea | Forgejo => option_map review_from_gitea (json_gitea_review body)
  | GitLab => None
  end.

Definition handle_pull_request_review h (forge : ForgeType) (integration : option IntegrationId) (body : string)
    (client_ip : IpAddr) : Hooks :=
  match parse_review forge body with
  | None => h
  | Some review =>
      if negb (pv_approved review) then h
      else
        match pv_number review, pv_reviewer review, pv_full_name review with
        | Some pr_number, Some reviewer, Some owner_repo =>
            match rsplit_slash owner_repo, addressed h integration body owner_repo client_ip with
            | Some (owner, repo), Some ids => foldl (review_for_integration owner repo reviewer pr_number) h ids
            | _, _ => h
            end
        | _, _, _ => h
        end
  end.

(** ** Comments ([commands.rs]) *)

Record CommentDispatch := {
  cx_cmd : GradientCommand; cx_owner : string; cx_repo : string; cx_sender : string; cx_pr_number : Z;
  cx_wildcard : option string; cx_comment : option Z }.

(** The projects whose reporter can say why a wildcard is refused, in order. *)
Definition post_wildcard_error_comment h (ids : list IntegrationId) (owner repo : string) (pr_number : Z) (raw : string)
    : Hooks :=
  match List.find (fun p => reporter_for p && post_pr_comment p owner repo pr_number)
          (concat (map (active_project_ids_for_integration (db_of h)) ids)) with
  | Some p => tell h (ErrorComment p owner repo pr_number raw)
  | None => h
  end.

Definition comment_source (x : CommentDispatch) : option SourceComment :=
  option_map (CommentSource (cx_owner x) (cx_repo x) (cx_pr_number x)) (cx_comment x).

Definition unpark_existing_one (x : CommentDispatch) (r : Hooks * bool) (project : ProjectId) : Hooks * bool :=
  let '(h, any) := r in
  match gated_eval (db_of h) project (cx_pr_number x) with
  | None => (h, any)
  | Some ev =>
      match (match cx_wildcard x with
             | None => approve (db_of h) now ev
             | Some w => unpark_approval_with_wildcard (db_of h) now ev w end) with
      | (s, None) => (on_hk_db h (fun _ => s), any)
      | (s, Some e) =>
          let s := match comment_source x with Some sc => set_evaluation_source_comment s now ev sc | None => s end in
          let h := dispatch_approval_granted (on_hk_db h (fun _ => s)) ev e in
          let h := match cx_cmd x with
            | CmdApprove => submit_pr_approval_review h project (cx_owner x) (cx_repo x) (cx_pr_number x)
            | CmdRun _ => h end in
          (h, true)
      end
  end.

Definition unpark_existing_approvals (x : CommentDispatch) h (projects : list ProjectId) : Hooks * bool :=
  foldl (unpark_existing_one x) (h, false) projects.

(** The first reporter that answers decides. *)
Fixpoint fetch_pr_snapshot (projects : list ProjectId) (owner repo : string) (pr_number : Z) : option PullRequestSnapshot :=
  match projects with
  | [] => None
  | p :: projects =>
      if negb (reporter_for p) then fetch_pr_snapshot projects owner repo pr_number
      else match get_pull_request p owner repo pr_number with
      | Ok r => r
      | Err _ => fetch_pr_snapshot projects owner repo pr_number
      end
  end.

Definition run_fresh_evaluation (x : CommentDispatch) h (integration : IntegrationId) (projects : list ProjectId)
    : Hooks * bool :=
  match fetch_pr_snapshot projects (cx_owner x) (cx_repo x) (cx_pr_number x) with
  | None => (h, false)
  | Some snapshot =>
      match hex_decode (ps_head_sha snapshot) with
      | None => (h, false)
      | Some commit_hash =>
          let '(h, outcome) := trigger_pr_for_integration between orgs max_storage_gb now h integration
            [("https://github.com/" +:+ cx_owner x +:+ "/" +:+ cx_repo x)%string] (Some (ps_head_branch snapshot)) "synchronize" {|
            vt_commit_hash := commit_hash; vt_commit_message := None; vt_author_name := Some (cx_sender x);
            vt_approval := Some {| ac_pr_number := Some (cx_pr_number x); ac_pr_author := None;
              ac_is_fork := Some (ps_is_fork snapshot); ac_sender := Some (cx_sender x) |};
            vt_repository_override := ps_head_clone_url snapshot; vt_manual := true;
            vt_wildcard_override := cx_wildcard x; vt_source_comment := comment_source x |} in
          (h, negb (bool_decide (length (wo_queued outcome) = 0%nat)))
      end
  end.

Definition handle_comment_for_integration (x : CommentDispatch) (r : Hooks * bool) (integration : IntegrationId)
    : Hooks * bool :=
  let '(h, action_taken) := r in
  let project_ids := active_project_ids_for_integration (db_of h) integration in
  match first_project_with_reporter project_ids with
  | None => (h, action_taken)
  | Some probe =>
      let is_maintainer := sender_is_trusted probe (cx_owner x) (cx_repo x) (cx_sender x) in
      let h := match cx_comment x with
        | Some id => if reporter_for probe then tell h (React probe (cx_owner x) (cx_repo x) (cx_pr_number x) id is_maintainer) else h
        | None => h end in
      if negb is_maintainer then (h, action_taken)
      else
        match unpark_existing_approvals x h project_ids with
        | (h, true) => (h, true)
        | (h, false) =>
            match cx_cmd x with
            | CmdRun _ => let '(h, fired) := run_fresh_evaluation x h integration project_ids in (h, action_taken || fired)
            | CmdApprove => (h, action_taken)
            end
        end
  end.

(** [None] when the handler panics. *)
Definition handle_issue_comment h (forge : ForgeType) (integration : option IntegrationId) (body : string)
    (client_ip : IpAddr) : option Hooks :=
  match parse_comment_event forge body with
  | None => Some h
  | Some event =>
      match parse_gradient_command (ce_body event) with
      | Panics => None
      | NoCommand => Some h
      | Command cmd => Some
          match ce_pr_number event, ce_sender event, ce_owner_repo event with
          | Some pr_number, Some sender, Some owner_repo =>
              match rsplit_slash owner_repo, addressed h integration body owner_repo client_ip with
              | Some (owner, repo), Some ids =>
                  match cmd with
                  | CmdRun (Some raw) =>
                      match Wildcard.from_str raw with
                      | Err _ => post_wildcard_error_comment h ids owner repo pr_number raw
                      | Ok _ => (foldl (handle_comment_for_integration {| cx_cmd := cmd; cx_owner := owner; cx_repo := repo;
                          cx_sender := sender; cx_pr_number := pr_number; cx_wildcard := Some raw; cx_comment := ce_comment_id event |})
                          (h, false) ids).1
                      end
                  | _ => (foldl (handle_comment_for_integration {| cx_cmd := cmd; cx_owner := owner; cx_repo := repo;
                      cx_sender := sender; cx_pr_number := pr_number; cx_wildcard := None; cx_comment := ce_comment_id event |})
                      (h, false) ids).1
                  end
              | _, _ => h
              end
          | _, _, _ => h
          end
      end
  end.

End commands.

(** * The webhook endpoints

    [backend/gradient-web/src/endpoints/forge_hooks/mod.rs]: what is answered to a forge, and
    what its event does. Both endpoints are unauthenticated; they trust a signature over the
    body, or a token. *)

Record WebhookResponse := { wr_event : string; wr_repository_urls : list string; wr_outcome : WebhookTriggerOutcome }.

Definition empty_response (event : string) : WebhookResponse :=
  {| wr_event := event; wr_repository_urls := []; wr_outcome := no_outcome |}.

(** [Crashed]: the handler panicked. *)
Inductive WebhookAnswer :=
| Answer (r : WebhookResponse)
| ServiceUnavailable | InternalError | Unauthorized | MalformedPayload | UnsupportedForge | NotFound | ForbiddenSourceIp
| Crashed.

(** A request: its headers ([Some None] is one that is not text), its body and its peer. *)
Record HookRequest := { hr_headers : string -> option (option string); hr_body : string; hr_peer : option IpAddr }.

(** The configuration: whether the GitHub App is set up, and whether its secret loads. *)
Record HookConfig `{Crypto} := { hc_github_app : option (option string); hc_trusted_proxies : list IpNet }.

(** [decrypt_secret_with_file] *)
Class SecretStore := { decrypt_secret : string -> option string }.

Definition header (rq : HookRequest) (name : string) : string := default ""%string (mjoin (hr_headers rq name)).

(** The first header that is present, as text. *)
Definition first_header (rq : HookRequest) (names : list string) : string :=
  default ""%string (mjoin (head (omap (hr_headers rq) names))).

Section endpoints.
Context `{CH : Chrono} {SD : Serde} {HO : HashOrder} {UF : UuidFormat} `{!Calendar} `{!CronLib} `{!TriggerCodec}
  `{HX : Hex} `{HM : Hmac} `{FJ : ForgeJson} `{HJ : HookJson} `{!ConfigColumn} `{CR : Crypto} `{FG : Forge} `{ST : SecretStore}.
Implicit Types (h : Hooks).
Context (between : CiDb -> CiDb) (orgs : OrgTables) (max_storage_gb : Z) (now : NaiveDateTime) (show : Z -> string).

Definition client_ip_of (cfg : HookConfig) (rq : HookRequest) : IpAddr :=
  resolve_client_ip (mjoin (hr_headers rq "x-forwarded-for")) (default (V4 0) (hr_peer rq)) (hc_trusted_proxies cfg).

Definition approval_context_from (p : ParsedPullRequestEvent) : PullRequestApprovalContext := {|
  ac_pr_number := pq_number p; ac_pr_author := pq_author p; ac_is_fork := pq_is_fork p; ac_sender := pq_sender p |}.

Definition ref_kind_of (p : ParsedPushEvent) : PushRefKind :=
  if pp_is_tag p then RefTag (pp_ref_name p) else RefBranch (pp_ref_name p).

Definition push_one (p : ParsedPushEvent) h (integration : IntegrationId) : Hooks * WebhookTriggerOutcome :=
  trigger_push_for_integration between orgs max_storage_gb now h integration (pp_repository_urls p) (ref_kind_of p)
    (pp_commit_hash p) (pp_commit_message p) (pp_author_name p).

Definition pr_event (p : ParsedPullRequestEvent) : HookEvent := {|
  vt_commit_hash := pq_commit_hash p; vt_commit_message := pq_title p; vt_author_name := None;
  vt_approval := Some (approval_context_from p); vt_repository_override := pq_head_clone_url p; vt_manual := false;
  vt_wildcard_override := None; vt_source_comment := None |}.

Definition pr_one (p : ParsedPullRequestEvent) h (integration : IntegrationId) : Hooks * WebhookTriggerOutcome :=
  trigger_pr_for_integration between orgs max_storage_gb now h integration (pq_repository_urls p) (pq_branch p)
    (pq_action p) (pr_event p).

Definition release_one (p : ParsedReleaseEvent) h (integration : IntegrationId) : Hooks * WebhookTriggerOutcome :=
  trigger_release_for_integration between orgs max_storage_gb now h integration (pl_repository_urls p) (pl_tag p)
    (pl_commit_hash p).

(** Every integration the installation addresses, the outcomes put together. *)
Definition for_targets (one : Hooks -> IntegrationId -> Hooks * WebhookTriggerOutcome) h (targets : list IntegrationId)
    : Hooks * WebhookTriggerOutcome :=
  foldl (fun x i => let '(h, o) := x in let '(h, o') := one h i in (h, add_outcome o o')) (h, no_outcome) targets.

Definition dispatch_github_app (one : Hooks -> IntegrationId -> Hooks * WebhookTriggerOutcome) h (body : string)
    (urls : list string) (client_ip : IpAddr) : Hooks * WebhookTriggerOutcome :=
  match json_installation_id body with
  | None => (h, no_outcome)
  | Some id => for_targets one h (resolve_github_app_targets h id urls client_ip)
  end.

Definition respond (event : string) (urls : list string) (x : Hooks * WebhookTriggerOutcome) : Hooks * WebhookAnswer :=
  (x.1, Answer {| wr_event := event; wr_repository_urls := urls; wr_outcome := x.2 |}).

Definition quietly (event : string) h : Hooks * WebhookAnswer := (h, Answer (empty_response event)).

Definition on_comment (event : string) h (h' : option Hooks) : Hooks * WebhookAnswer :=
  match h' with Some h' => quietly event h' | None => (h, Crashed) end.

(** ** [POST /hooks/github] *)

Definition github_app_webhook (cfg : HookConfig) h (rq : HookRequest) : Hooks * WebhookAnswer :=
  match hc_github_app cfg with
  | None => (h, ServiceUnavailable)
  | Some None => (h, InternalError)
  | Some (Some secret) =>
      if negb (verify_github_signature secret (header rq "X-Hub-Signature-256") (hr_body rq)) then (h, Unauthorized)
      else
        let client_ip := client_ip_of cfg rq in
        let event := header rq "X-GitHub-Event" in
        let body := hr_body rq in
        if String.eqb event "push" then
          match parse_push_event GitHub body with
          | None => (h, MalformedPayload)
          | Some PushIgnored => quietly "push" h
          | Some (PushBuild p) =>
              respond "push" (pp_repository_urls p) (dispatch_github_app (push_one p) h body (pp_repository_urls p) client_ip)
          end
        else if String.eqb event "pull_request" then
          match parse_pull_request_event GitHub body with
          | None => (h, MalformedPayload)
          | Some p => respond "pull_request" (pq_repository_urls p)
                        (dispatch_github_app (pr_one p) h body (pq_repository_urls p) client_ip)
          end
        else if String.eqb event "release" then
          match parse_release_event GitHub body with
          | None => (h, MalformedPayload)
          | Some p => respond "release" (pl_repository_urls p)
                        (dispatch_github_app (release_one p) h body (pl_repository_urls p) client_ip)
          end
        else if String.eqb event "installation" || String.eqb event "installation_repositories" then
          quietly event (handle_github_installation show h body)
        else if String.eqb event "check_run" then quietly event (handle_github_check_run now h body)
        else if String.eqb event "issue_comment" then
          on_comment event h (handle_issue_comment between orgs max_storage_gb now h GitHub None body client_ip)
        else if String.eqb event "pull_request_review" then
          quietly event (handle_pull_request_review now h GitHub None body client_ip)
        else quietly event h
  end.

(** ** [POST /hooks/{forge}/{org}/{integration}] *)

Definition find_integration h (org_name name : string) : option IntegrationRow :=
  match List.find (fun x => String.eqb (og_name x.2) org_name) (map_to_list (hk_organizations h)) with
  | None => None
  | Some (org, _) =>
      List.find (fun i => N.eqb (ig_organization i) org && bool_decide (ig_kind i = Inbound) && String.eqb (ig_name i) name)
        (hk_integrations h)
  end.

Definition forge_event (cfg : HookConfig) h (rq : HookRequest) (forge : ForgeType) (integration : IntegrationId)
    : Hooks * WebhookAnswer :=
  let body := hr_body rq in
  match classify_event forge (first_header rq (event_headers forge)) with
  | EvPush =>
      match parse_push_event forge body with
      | None => (h, MalformedPayload)
      | Some PushIgnored => quietly "push" h
      | Some (PushBuild p) => respond "push" (pp_repository_urls p) (push_one p h integration)
      end
  | EvPullRequest =>
      match parse_pull_request_event forge body with
      | None => (h, MalformedPayload)
      | Some p => respond "pull_request" (pq_repository_urls p) (pr_one p h integration)
      end
  | EvRelease =>
      match parse_release_event forge body with
      | None => (h, MalformedPayload)
      | Some p => respond "release" (pl_repository_urls p) (release_one p h integration)
      end
  | EvComment =>
      on_comment "comment" h
        (handle_issue_comment between orgs max_storage_gb now h forge (Some integration) body (client_ip_of cfg rq))
  | EvReview => quietly "review" (handle_pull_request_review now h forge (Some integration) body (client_ip_of cfg rq))
  | EvUnknown name => quietly name h
  end.

Definition forge_webhook (cfg : HookConfig) h (forge_segment org_name integration_name : string) (rq : HookRequest)
    : Hooks * WebhookAnswer :=
  match forge_from_path_segment forge_segment with
  | None => (h, NotFound)
  | Some forge =>
      if negb (accepts_per_integration_webhook forge) then (h, UnsupportedForge)
      else
        match find_integration h org_name integration_name with
        | None => (h, NotFound)
        | Some integration =>
            match ig_secret integration with
            | None => (h, NotFound)
            | Some encrypted =>
                match decrypt_secret encrypted with
                | None => (h, InternalError)
                | Some secret =>
                    if negb (verify_signature forge secret (first_header rq (signature_headers forge)) (hr_body rq))
                    then (h, Unauthorized)
                    else if negb (is_allowed (client_ip_of cfg rq) (ig_allowed_ips integration)) then (h, ForbiddenSourceIp)
                    else forge_event cfg h rq forge (ig_id integration)
                end
            end
        end
  end.

End endpoints.
