(* ===== verification/ApprovalGate.v ===== *)
(** * The approval gate

    An evaluation of a pull request that waits for a maintainer is not given to a worker
    before a forge confirms that somebody who may write to the repository asked for it,
    whatever webhooks, triggers, sweeps and workers do. *)

From S2P Require Import Prelude Float RustStr RustText Status ScoreContext Proto JobData JobTracker WorkerPool EdgeStream Scheduler Retry BuildGraph Promotion Transitions Healing Settling WaitingState EvalResult EvalResultFacts LifecycleFacts Access Tokens Wildcard Glob CiState Triggering EvalRows CiFacts TriggerLoop ForgeWebhook ForgeFanout ForgeCommands.

Local Open Scope Z_scope.

Section gate.
Context `{CH : Chrono} `{!Calendar} `{!TriggerCodec}.
Implicit Types (s : CiDb) (ev : EvaluationId) (e : EvaluationRow).

Definition gate e : Prop := awaits_approval e \/ eval_is_terminal (ev_status e) = true.
Definition gate_at ev s : Prop := exists e, evaluations_of s !! ev = Some e /\ gate e.

(** The tables stay well-formed, and a gate stays shut. *)
Definition safe ev s s' : Prop := ci_wf s -> ci_wf s' /\ (gate_at ev s -> gate_at ev s').

#[export] Instance safe_preorder ev : PreOrder (safe ev).
Proof.
  split; [by intros s Hs|]. intros s1 s2 s3 H1 H2 Hs. destruct (H1 Hs) as [Hw1 Hg1], (H2 Hw1) as [Hw2 Hg2]. split; auto.
Qed.

Lemma safe_same ev s s' :
  evaluations_of s' = evaluations_of s -> ci_columns s' = ci_columns s -> (ci_next s <= ci_next s')%N -> safe ev s s'.
Proof.
  intros He Hc Hn Hs. split; [by eapply calmer_wf, calmer_same|]. unfold gate_at. by rewrite He.
Qed.

(** Rows of the evaluations only, each of which was or is no gate, or stays one. *)
Lemma safe_calmer ev s s' :
  calmer s s' -> (forall e, evaluations_of s !! ev = Some e -> gate e -> gate_at ev s') -> safe ev s s'.
Proof. intros Hc Hg Hs. split; [by eapply calmer_wf|]. intros (e & He & Hge). by eapply Hg. Qed.

Lemma safe_insert ev s e c s' ev' : insert_evaluation s e c = Ok (s', ev') -> safe ev s s'.
Proof.
  intros Hi Hs. split; [by eapply insert_wf|]. intros (e0 & He & Hg). apply insert_evaluation_ok in Hi as (-> & Hrows & _).
  exists e0. split; [|done]. rewrite Hrows, lookup_insert_ne; [done|]. intros <-.
  assert (Hf : (ci_next s < ci_next s)%N) by (apply (cw_fresh _ Hs); by eexists). lia.
Qed.

Lemma safe_abort ev s now ev' kind : safe ev s (ci_abort_evaluation s now ev' kind).1.
Proof.
  apply safe_calmer; [apply abort_calmer|]. intros e He Hg. unfold ci_abort_evaluation.
  destruct (evaluations_of s !! ev') as [e'|] eqn:E; [|by exists e]. destruct (negb _); [by exists e|]. cbv zeta.
  assert (H1 : gate_at ev (set_evals s (<[ev' := with_aborted now e']> (evaluations_of s)))).
  { unfold gate_at. change (evaluations_of (set_evals s ?m)) with m. destruct (decide (ev = ev')) as [->|Hne].
    - rewrite lookup_insert_eq. eexists. split; [done|]. by right.
    - rewrite lookup_insert_ne by done. by exists e. }
  by destruct kind.
Qed.

Lemma safe_park ev s r now ev' e' :
  evaluations_of s !! ev' = Some e' -> ev_status e' = EQueued -> safe ev s (set_evals s (<[ev' := with_park r now e']> (evaluations_of s))).
Proof.
  intros He' Hs'. apply safe_calmer.
  - eapply calmer_row; [done|]. split; [done|]. by rewrite Hs'.
  - intros e He Hg. unfold gate_at. change (evaluations_of (set_evals s ?m)) with m. destruct (decide (ev = ev')) as [->|Hne].
    + simplify_eq. exfalso. destruct Hg as [[Hw _]|Ht]; [by rewrite Hs' in Hw|by rewrite Hs' in Ht].
    + rewrite lookup_insert_ne by done. by exists e.
Qed.

(** Releasing another park. *)
Lemma safe_unpark ev s now projects (r : WaitingReason -> bool) :
  (forall n a, r (WApproval n a) = false) ->
  safe ev s (set_store s (on_tables (ci_store s) (fun t => unpark_for_org t now projects r))).
Proof.
  intros Hr. apply safe_calmer; [apply unpark_calmer|]. intros e He Hg. exists e. split; [|done].
  unfold evaluations_of in *. simpl. unfold unpark_for_org, update_evals. simpl. rewrite lookup_fmap, He. simpl. f_equal.
  enough (parked_with r e = false) as Hp by by rewrite Hp. unfold parked_with.
  destruct Hg as [[Hs (n & a & Ha)]|Ht]; [by rewrite Ha, Hr, andb_false_r|]. by destruct (ev_status e).
Qed.

Lemma safe_columns ev s f ev' :
  (forall c, ec_concurrent (f c) = ec_concurrent c) -> safe ev s (set_columns s (alter f ev' (ci_columns s))).
Proof. intros Hf. apply safe_calmer; [by apply calmer_columns|]. intros e He Hg. by exists e. Qed.

Lemma safe_touch ev s now ev' e' :
  evaluations_of s !! ev' = Some e' -> safe ev s (set_evals s (<[ev' := touch_row now e']> (evaluations_of s))).
Proof.
  intros He'. apply safe_calmer; [by eapply calmer_row|]. intros e He Hg. unfold gate_at.
  change (evaluations_of (set_evals s ?m)) with m. destruct (decide (ev = ev')) as [->|Hne].
  - rewrite lookup_insert_eq. simplify_eq. by eexists.
  - rewrite lookup_insert_ne by done. by exists e.
Qed.

Lemma safe_foldl {A} ev (f : CiDb -> A -> CiDb) l s : (forall s x, safe ev s (f s x)) -> safe ev s (foldl f s l).
Proof. intros Hf. revert s. induction l as [|x l IH]; intros s; [reflexivity|]. simpl. etrans; [apply Hf|apply IH]. Qed.

Lemma safe_commit ev s c : safe ev s (insert_commit s c).1.
Proof. apply safe_same; simpl; [done|done|lia]. Qed.

(** ** Creating evaluations *)

Lemma safe_create ev s now p project n : safe ev s (create_evaluation s now p project n).1.
Proof.
  unfold create_evaluation. assert (H1 := safe_commit ev s {| cm_hash := ne_commit_hash n;
    cm_message := default ""%string (ne_commit_message n); cm_author_name := default ""%string (ne_author_name n) |}).
  revert H1. destruct (insert_commit s _) as [s1 commit]. intros H1. simpl in H1. etrans; [exact H1|].
  destruct (insert_evaluation s1 _ _) as [[s2 ev']|err] eqn:E; [|reflexivity]. etrans; [by eapply safe_insert|]. by apply safe_same.
Qed.

Lemma safe_trigger ev between s now p project n :
  (forall s, safe ev s (between s)) -> safe ev s (trigger_evaluation between s now p project n).1.
Proof.
  intros Hb. unfold trigger_evaluation. destruct (if ne_concurrent n then _ else _); [|reflexivity].
  etrans; [apply Hb|apply safe_create].
Qed.

Lemma safe_create_input_update ev s now p project base target d trigger :
  safe ev s (create_input_update_eval s now p project base target d trigger).1.
Proof.
  unfold create_input_update_eval. assert (H1 := safe_commit ev s {| cm_hash := ""; cm_message := ""; cm_author_name := "" |}).
  revert H1. destruct (insert_commit s _) as [s1 commit]. intros H1. simpl in H1. etrans; [exact H1|].
  destruct (insert_evaluation s1 _ _) as [[s2 ev']|err] eqn:E; [|reflexivity]. etrans; [by eapply safe_insert|]. by apply safe_same.
Qed.

Lemma safe_create_each ev now p project base trigger targets : forall s,
  safe ev s (create_each s now p project base targets trigger).1.
Proof.
  induction targets as [|[target d] targets IH]; intros s; [reflexivity|]. cbn [create_each].
  assert (H1 := safe_create_input_update ev s now p project base target d trigger). revert H1.
  destruct (create_input_update_eval _ _ _ _ _ _ _ _) as [s1 [ev'|err]]; intros H1; [|exact H1]. etrans; [exact H1|].
  specialize (IH s1). revert IH. by destruct (create_each s1 _ _ _ _ _ _) as [s2 [evs|err]].
Qed.

Lemma safe_input_update ev s now p project base trigger :
  safe ev s (maybe_trigger_input_update s now p project base trigger).1.
Proof.
  unfold maybe_trigger_input_update. destruct (open_pr_action s p) as [a|]; [|reflexivity].
  destruct (act_granularity a); [|reflexivity]. cbv zeta. destruct (existsb _ _); [reflexivity|]. destruct (map fst _); [reflexivity|].
  destruct (active_input_updates _ _); [|reflexivity]. apply safe_create_each.
Qed.

Lemma safe_apply ev between o s now p project input :
  (forall s, safe ev s (between s)) -> safe ev s (apply_trigger between o s now p project input).1.
Proof.
  intros Hb. unfold apply_trigger. cbv zeta. destruct (skip_for_same_commit _ _ _ _); [reflexivity|].
  assert (H1 : safe ev s (resolve_concurrency s now project (in_flight_of s p)).1).
  { unfold resolve_concurrency. destruct (in_flight_of s p) as [r|]; [|reflexivity]. destruct (pj_concurrency project); try reflexivity.
    - assert (Ha := safe_abort ev s now r AbortHard). revert Ha. by destruct (ci_abort_evaluation _ _ _ _).
    - assert (Ha := safe_abort ev s now r AbortSoft). revert Ha. by destruct (ci_abort_evaluation _ _ _ _). }
  revert H1. destruct (resolve_concurrency _ _ _ _) as [s1 [d|]]; intros H1; [|exact H1]. simpl in H1. etrans; [exact H1|].
  match goal with |- context [trigger_evaluation between s1 now p project ?n] => set (new := n) end.
  assert (H2 := safe_trigger ev between s1 now p project new Hb). revert H2.
  destruct (trigger_evaluation between s1 now p project new) as [s2 [ev'|err]] eqn:E; intros H2; [|by destruct err as [| |[]]].
  etrans; [exact H2|]. unfold trigger_evaluation in E. destruct (if ne_concurrent new then _ else _); [|done].
  apply create_row in E. simpl. rewrite (run_gates_spec o now (in_gate_approval input) (pj_organization project)
    (in_instance_max_storage_gb input) s2 ev' (new_row p EQueued KNormal now) E eq_refl). simpl.
  destruct (gate_reason _ _ _ _); [by apply safe_park|reflexivity].
Qed.

Lemma safe_restart ev between s now p :
  (forall s, safe ev s (between s)) -> safe ev s (trigger_restart_builds between s now p).1.
Proof.
  intros Hb. unfold trigger_restart_builds. destruct (ensure_no_active_evaluation s p); [|reflexivity].
  destruct (latest_evaluation _ _) as [[prev e]|]; [|apply Hb]. cbv zeta.
  destruct (insert_evaluation _ _ _) as [[s2 ev']|] eqn:E; [|apply Hb]. etrans; [apply Hb|]. etrans; [by eapply safe_insert|].
  by apply safe_same.
Qed.

Lemma safe_recovery ev s now p stuck : safe ev s (trigger_drv_recovery s now p stuck).1.
Proof.
  unfold trigger_drv_recovery. assert (H1 := safe_abort ev s now stuck AbortSoft). revert H1.
  destruct (ci_abort_evaluation _ _ _ _) as [s1 l]. simpl. intros H1.
  destruct (insert_evaluation _ _ _) as [[s2 ev']|] eqn:E; [|exact H1]. etrans; [exact H1|]. etrans; [by eapply safe_insert|].
  by apply safe_same.
Qed.

Lemma safe_source_comment ev s now ev' sc : safe ev s (set_evaluation_source_comment s now ev' sc).
Proof.
  unfold set_evaluation_source_comment. destruct (evaluations_of s !! ev') as [e|] eqn:E; [|reflexivity]. cbv zeta.
  etrans; [by apply (safe_columns ev s (with_source_comment sc) ev')|]. rewrite (alter_found _ _ ev' e) by done. by apply safe_touch.
Qed.

Lemma safe_unpark_cache ev s now org : safe ev s (unpark_no_cache s now org).
Proof. by apply safe_unpark. Qed.

Lemma safe_unpark_workers ev s o now org : safe ev s (unpark_no_workers s o now org).
Proof.
  unfold unpark_no_workers, unpark_no_workers_for_org. destruct (negb _); [by apply safe_same|by apply safe_unpark].
Qed.

Lemma safe_unpark_storage ev s o now lim : safe ev s (unpark_storage_full_all s o now lim).
Proof.
  apply safe_foldl. intros s0 org. unfold unpark_storage_full, unpark_storage_full_for_org.
  destruct (org_caches_all_full _ _ _); [by apply safe_same|by apply safe_unpark].
Qed.

(** A working server whose workers hold no job of it. *)
Lemma safe_server reports ev s w :
  working_step reports (ci_store s) w -> ~ reports ev -> safe ev s (set_store s w).
Proof.
  intros Hstep Hr. assert (Hq := server_step_quiet _ _ (working_server _ _ _ Hstep)).
  apply safe_calmer; [by apply calmer_store|]. intros e He [Ha|Ht].
  - destruct (working_step_gate _ _ _ _ Hstep Hr e He Ha) as [Hk|(e' & Hk & Ht)]; [exists e|exists e'];
      (split; [exact Hk|]); [by left|by right].
  - specialize (Hq ev). unfold evaluations_of in He. rewrite He in Hq.
    destruct (t_evaluations (st_db w) !! ev) as [e'|] eqn:E'; [|done]. exists e'. split; [done|]. right. by apply Hq.
Qed.

End gate.

(** ** Triggers that fire *)

Section world.
Context `{CH : Chrono} {SD : Serde} {HO : HashOrder} {UF : UuidFormat} `{!Calendar} `{!CronLib} `{!TriggerCodec} `{!JitterHash}
  {GR : GitRemote} `{HX : Hex} `{HM : Hmac} `{FJ : ForgeJson} `{HJ : HookJson} `{!ConfigColumn} `{CR : Crypto} `{ST : SecretStore}.
Implicit Types (s : CiDb) (ev : EvaluationId) (c : Ci) (h : Hooks).

Lemma safe_stamp ev s id now : safe ev s (update_last_fired s id now).
Proof. by apply safe_same. Qed.

Lemma safe_check ev s p project branch : safe ev s (check_for_updates s p project branch).1.
Proof.
  unfold check_for_updates. destruct (ls_remote_head _ _); [|reflexivity].
  destruct (pj_force_evaluation project); destruct (last_row s project) as [[ev' e]|]; try reflexivity;
    try destruct (eval_is_active _); try reflexivity; by apply safe_same.
Qed.

Lemma follow_db c r : cl_db (follow_outcome c r) = r.1.
Proof. by destruct r as [s [[]|]]. Qed.

Lemma safe_id ev s : safe ev s (id s).
Proof. reflexivity. Qed.

Lemma safe_fire_due ev o lim now projects c t : safe ev (cl_db c) (cl_db (fire_due id o lim now projects c t)).
Proof.
  unfold fire_due. destruct (projects !! tr_project t) as [project|]; [|reflexivity]. destruct (negb _); [reflexivity|].
  destruct (due_config now t) as [cfg|]; [|reflexivity].
  assert (Hx1 := safe_check ev (cl_db c) (tr_project t) project (polling_branch cfg)). revert Hx1.
  destruct (check_for_updates _ _ _ _) as [s [[has_update commit_hash]|err]]; intros Hx1; (etrans; [exact Hx1|]); [|apply safe_stamp].
  destruct (commit_info_or_empty project commit_hash) as [msg author].
  assert (Hx2 := safe_input_update ev s now (tr_project t) project commit_hash (Some (tr_id t))). revert Hx2.
  destruct (maybe_trigger_input_update _ _ _ _ _ _) as [s1 r]. intros Hx2. etrans; [exact Hx2|]. cbv zeta.
  etrans; [|apply safe_stamp]. destruct (has_update || is_time cfg); [|reflexivity]. rewrite follow_db. by apply safe_apply, safe_id.
Qed.

Lemma safe_dispatch_once ev o lim now c : safe ev (cl_db c) (cl_db (dispatch_once id o lim now c)).
Proof.
  unfold dispatch_once. set (projects := ci_projects (cl_db c)). clearbody projects. generalize (List.filter scheduled (ci_triggers (cl_db c))).
  intros l. revert c. induction l as [|t l IH]; intros c; [reflexivity|]. simpl. etrans; [apply safe_fire_due|apply IH].
Qed.

Lemma safe_gates ev o now org lim s s2 ev' p n :
  trigger_evaluation id s now p n.1 n.2 = (s2, Ok ev') ->
  safe ev s2 (park_if_no_workers o now org (park_if_storage_full o now org lim (park_if_no_cache o now org
    (s2, (ev', new_row p EQueued KNormal now))))).1.
Proof.
  intros E. unfold trigger_evaluation in E. destruct (if ne_concurrent n.2 then _ else _); [|done]. apply create_row in E.
  change (park_if_no_workers o now org (park_if_storage_full o now org lim (park_if_no_cache o now org
    (s2, (ev', new_row p EQueued KNormal now))))) with (run_gates o now None org lim (s2, (ev', new_row p EQueued KNormal now))).
  rewrite (run_gates_spec o now None org lim s2 ev' (new_row p EQueued KNormal now) E eq_refl). cbn [fst].
  destruct (gate_reason _ _ _ _); [by apply safe_park|reflexivity].
Qed.

Lemma safe_evaluate ev o lim now c p project user mode :
  safe ev (cl_db c) (cl_db (post_project_evaluate id o lim now c p project user mode).1).
Proof.
  unfold post_project_evaluate. case_bool_decide.
  - assert (Hx1 := safe_restart ev id (cl_db c) now p (safe_id ev)). revert Hx1.
    by destruct (trigger_restart_builds id (cl_db c) now p) as [s [ev'|[| |]]].
  - assert (Hx1 := safe_check ev (cl_db c) p (forced project) None). revert Hx1.
    destruct (check_for_updates _ _ _ _) as [s [[has_update commit_hash]|err]]; intros Hx1; [|exact Hx1]. etrans; [exact Hx1|].
    destruct (commit_info_or_empty project commit_hash) as [msg author].
    assert (Hx2 := safe_input_update ev s now p project commit_hash None). revert Hx2.
    destruct (maybe_trigger_input_update _ _ _ _ _ _) as [s1 r]. intros Hx2. etrans; [exact Hx2|]. simpl.
    match goal with |- context [trigger_evaluation id s1 now p project ?n] => set (new := n) end.
    assert (Hx3 := safe_trigger ev id s1 now p project new (safe_id ev)). revert Hx3.
    destruct (trigger_evaluation id s1 now p project new) as [s2 [ev'|err]] eqn:E; intros Hx3; [|by destruct err].
    etrans; [exact Hx3|]. assert (Hg := safe_gates ev o now (pj_organization project) lim s1 s2 ev' p (project, new) E). revert Hg.
    by destruct (park_if_no_workers _ _ _ _) as [s3 [ev3 row]].
Qed.

Lemma safe_fire_now ev o lim now c p project id' :
  safe ev (cl_db c) (cl_db (fire_now id o lim now c p project id').1).
Proof.
  unfold fire_now. destruct (List.find _ _) as [row|]; [|reflexivity]. destruct (negb _); [reflexivity|].
  set (branch := match parse_row _ _ with Ok _ => _ | Err _ => _ end).
  assert (Hx1 := safe_check ev (cl_db c) p project branch). revert Hx1.
  destruct (check_for_updates _ _ _ _) as [s [[has_update commit_hash]|err]]; intros Hx1; [|exact Hx1]. etrans; [exact Hx1|].
  destruct (commit_info_of _ _) as [[msg author]|]; [|reflexivity].
  assert (Hx2 := safe_input_update ev s now p project commit_hash (Some (tr_id row))). revert Hx2.
  destruct (maybe_trigger_input_update _ _ _ _ _ _) as [s1 r]. intros Hx2. etrans; [exact Hx2|]. cbv zeta.
  match goal with |- context [apply_trigger id o s1 now p project ?i] => set (input := i) end.
  assert (Hx3 := safe_apply ev id o s1 now p project input (safe_id ev)). revert Hx3.
  destruct (apply_trigger id o s1 now p project input) as [s2 [outcome|err]]; intros Hx3; [|exact Hx3]. etrans; [exact Hx3|].
  cbn [fst]. rewrite follow_db. apply safe_stamp.
Qed.

(** ** Webhooks *)

Lemma safe_fire_trigger {FG : Forge} ev o lim now urls tt v filter x t :
  safe ev (db_of x.1) (db_of (fire_trigger id o lim now urls tt v filter x t).1).
Proof.
  destruct x as [h out]. unfold fire_trigger. destruct (parse_row _ _) as [cfg|]; [|reflexivity].
  destruct (ci_projects _ !! _) as [project|]; [|reflexivity]. destruct (negb _); [reflexivity|]. cbv zeta.
  assert (Hgo : forall input out', safe ev (db_of h) (db_of (apply_and_record id o now h t project input
    (org_name_for h (pj_organization project)) out').1)).
  { intros input out'. unfold apply_and_record.
    assert (Hx1 := safe_apply ev id o (db_of h) now (tr_project t) project input (safe_id ev)). revert Hx1.
    destruct (apply_trigger id o (db_of h) now (tr_project t) project input) as [s r]. intros Hx1. etrans; [exact Hx1|].
    cbv zeta. cbn [fst]. unfold db_of, on_hk_ci. cbn [hk_ci]. rewrite follow_db. apply safe_stamp. }
  destruct (filter cfg); [apply Hgo|apply Hgo|reflexivity|reflexivity].
Qed.

Lemma safe_fan_out {FG : Forge} ev o lim now h i urls tt v filter :
  safe ev (db_of h) (db_of (fan_out_triggers id o lim now h i urls tt v filter).1).
Proof.
  unfold fan_out_triggers. generalize (load_active_triggers h i tt). intros l.
  change (db_of h) with (db_of (h, no_outcome).1). generalize (h, no_outcome). induction l as [|t l IH]; intros x; [reflexivity|].
  simpl. etrans; [apply safe_fire_trigger|apply IH].
Qed.

(** No forge confirms anybody. *)
Definition nobody (FG : Forge) : Prop := forall project owner repo user, is_repo_writer project owner repo user = false.

Lemma nobody_trusted {FG : Forge} project owner repo user : nobody FG -> sender_is_trusted project owner repo user = false.
Proof. intros Hn. unfold sender_is_trusted. by rewrite Hn, andb_false_r. Qed.

Lemma comment_one_db {FG : Forge} o lim now x r i :
  nobody FG -> db_of (handle_comment_for_integration id o lim now x r i).1 = db_of r.1.
Proof.
  intros Hn. destruct r as [h b]. unfold handle_comment_for_integration.
  destruct (first_project_with_reporter _) as [probe|]; [|done]. cbv zeta. rewrite nobody_trusted by done. cbn [negb].
  destruct (cx_comment x); [|done]. by destruct (reporter_for probe).
Qed.

Lemma comments_db {FG : Forge} o lim now x ids : nobody FG -> forall r,
  db_of (foldl (handle_comment_for_integration id o lim now x) r ids).1 = db_of r.1.
Proof.
  intros Hn. induction ids as [|i ids IH]; intros r; [done|]. simpl. by rewrite IH, comment_one_db.
Qed.

Lemma comment_db {FG : Forge} o lim now h forge i body ip h' :
  nobody FG -> handle_issue_comment id o lim now h forge i body ip = Some h' -> db_of h' = db_of h.
Proof.
  intros Hn. unfold handle_issue_comment. destruct (parse_comment_event _ _) as [event|]; [|by intros [= <-]].
  destruct (parse_gradient_command _) as [| |cmd]; [done|by intros [= <-]|]. intros [= <-].
  destruct (ce_pr_number event), (ce_sender event), (ce_owner_repo event) as [owner_repo|]; try done.
  destruct (rsplit_slash owner_repo) as [[owner repo]|]; [|done]. destruct (addressed h i body owner_repo ip) as [ids|]; [|done].
  destruct cmd as [[raw|]|]; try by rewrite comments_db.
  destruct (Wildcard.from_str raw); [by rewrite comments_db|]. unfold post_wildcard_error_comment. by destruct (List.find _ _).
Qed.

Lemma review_db {FG : Forge} now h forge i body ip :
  nobody FG -> db_of (handle_pull_request_review now h forge i body ip) = db_of h.
Proof.
  intros Hn. unfold handle_pull_request_review. destruct (parse_review _ _) as [review|]; [|done]. destruct (negb _); [done|].
  destruct (pv_number review), (pv_reviewer review), (pv_full_name review) as [owner_repo|]; try done.
  destruct (rsplit_slash owner_repo) as [[owner repo]|]; [|done]. destruct (addressed h i body owner_repo ip) as [ids|]; [|done].
  generalize dependent h. induction ids as [|id' ids IH]; intros h; [done|]. simpl. rewrite IH.
  unfold review_for_integration. destruct (first_project_with_reporter _); [|done]. by rewrite nobody_trusted.
Qed.

Lemma check_run_db {FG : Forge} now h body : nobody FG -> db_of (handle_github_check_run now h body) = db_of h.
Proof.
  intros Hn. unfold handle_github_check_run. destruct (json_check_run body) as [p|]; [|done].
  destruct (negb _); [done|]. destruct (negb _); [done|].
  destruct (ck_sender p); [|done]. destruct (ck_full_name p ≫= split_once "/") as [[owner repo]|]; [|done].
  destruct (find_eval_by_check_id h (ck_id p)) as [[ev e]|]; [|done].
  destruct (ev_project e); [|done]. by rewrite nobody_trusted.
Qed.

Lemma installation_db show h body : db_of (handle_github_installation show h body) = db_of h.
Proof.
  unfold handle_github_installation. destruct (json_installation body) as [p|]; [|done]. destruct (String.eqb _ _); [done|].
  unfold store_installation_id. destruct (installed_full_names p); [done|].
  generalize (owner_orgs h (s :: l)). intros orgs. revert h. induction orgs as [|org orgs IH]; intros h; [done|].
  simpl. rewrite IH. unfold bind_org. destruct (hk_organizations h !! org) as [row|]; [|done].
  assert (Hk : forall h kind inst name, db_of (ensure_kind org inst name h kind) = db_of h).
  { intros h' kind inst name. unfold ensure_kind. destruct (existsb _ _); [done|]. by destruct (existsb _ _). }
  unfold upsert_github_installation. destruct (List.find _ _); unfold ensure_github_app_integrations; simpl; by rewrite !Hk.
Qed.

Lemma for_targets_safe ev one targets :
  (forall h i, safe ev (db_of h) (db_of (one h i).1)) -> forall h, safe ev (db_of h) (db_of (for_targets one h targets).1).
Proof.
  intros Ho h. unfold for_targets. change (db_of h) with (db_of (h, no_outcome).1). generalize (h, no_outcome).
  induction targets as [|i targets IH]; intros [h' o']; [reflexivity|]. simpl. specialize (Ho h' i). revert Ho.
  destruct (one h' i) as [h1 o1]. intros Ho. etrans; [exact Ho|]. apply (IH (h1, add_outcome o' o1)).
Qed.

Lemma dispatch_safe {FG : Forge} ev one h body urls ip :
  (forall h i, safe ev (db_of h) (db_of (one h i).1)) -> safe ev (db_of h) (db_of (dispatch_github_app one h body urls ip).1).
Proof. intros Ho. unfold dispatch_github_app. destruct (json_installation_id body); [by apply for_targets_safe|reflexivity]. Qed.

Lemma safe_eq ev s s' : s' = s -> safe ev s s'.
Proof. intros ->. reflexivity. Qed.

Lemma on_comment_safe ev event h (h' : option Hooks) :
  (forall x, h' = Some x -> db_of x = db_of h) -> safe ev (db_of h) (db_of (on_comment event h h').1).
Proof. intros Hx. unfold on_comment. destruct h' as [x|]; [by apply safe_eq, Hx|reflexivity]. Qed.

Lemma github_safe {FG : Forge} ev o lim now show cfg h rq :
  nobody FG -> safe ev (db_of h) (db_of (github_app_webhook id o lim now show cfg h rq).1).
Proof.
  intros Hn. unfold github_app_webhook. destruct (hc_github_app cfg) as [[secret|]|]; [|reflexivity..].
  destruct (negb _); [reflexivity|]. cbv zeta.
  destruct (String.eqb _ "push"); [destruct (parse_push_event _ _) as [[p|]|]; try reflexivity; by apply dispatch_safe; intros; apply safe_fan_out|].
  destruct (String.eqb _ "pull_request"); [destruct (parse_pull_request_event _ _); try reflexivity; by apply dispatch_safe; intros; apply safe_fan_out|].
  destruct (String.eqb _ "release"); [destruct (parse_release_event _ _); try reflexivity; by apply dispatch_safe; intros; apply safe_fan_out|].
  destruct (_ || _); [by apply safe_eq, installation_db|].
  destruct (String.eqb _ "check_run"); [by apply safe_eq, check_run_db|].
  destruct (String.eqb _ "issue_comment"); [by apply on_comment_safe; intros; eapply comment_db|].
  destruct (String.eqb _ "pull_request_review"); [by apply safe_eq, review_db|reflexivity].
Qed.

Lemma forge_safe {FG : Forge} ev o lim now cfg h forge org name rq :
  nobody FG -> safe ev (db_of h) (db_of (forge_webhook id o lim now cfg h forge org name rq).1).
Proof.
  intros Hn. unfold forge_webhook. destruct (forge_from_path_segment forge) as [f|]; [|reflexivity]. destruct (negb _); [reflexivity|].
  destruct (find_integration _ _ _) as [i|]; [|reflexivity]. destruct (ig_secret i); [|reflexivity].
  destruct (decrypt_secret _); [|reflexivity]. destruct (negb _); [reflexivity|]. destruct (negb _); [reflexivity|].
  unfold forge_event. cbv zeta. destruct (classify_event _ _).
  - destruct (parse_push_event _ _) as [[p|]|]; try reflexivity. apply safe_fan_out.
  - destruct (parse_pull_request_event _ _); [apply safe_fan_out|reflexivity].
  - destruct (parse_release_event _ _); [apply safe_fan_out|reflexivity].
  - apply on_comment_safe. intros. by eapply comment_db.
  - by apply safe_eq, review_db.
  - reflexivity.
Qed.

(** ** The server, its workers and its callers *)

(** [wd_given]: the evaluations that were ever offered to workers. *)
Record HookWorld := { wd_hooks : Hooks; wd_given : gset EvaluationId }.

Definition world_db (w : HookWorld) : CiDb := db_of (wd_hooks w).
Definition on_world (w : HookWorld) (f : Hooks -> Hooks) : HookWorld := {| wd_hooks := f (wd_hooks w); wd_given := wd_given w |}.

Definition with_scheduler c (f : Scheduler -> Scheduler) : Ci :=
  {| cl_db := cl_db c; cl_scheduler := f (cl_scheduler c); cl_announced := cl_announced c |}.

Definition offered_evals (w : HookWorld) (draining : bool) : gset EvaluationId :=
  if draining then ∅ else list_to_set (map fst (queued_untracked (cl_scheduler (hk_ci (wd_hooks w))) (world_db w))).

Inductive world_step : HookWorld -> HookWorld -> Prop :=
| world_server w store :
    working_step (fun ev => ev ∈ wd_given w) (ci_store (world_db w)) store ->
    world_step w (on_world w (fun h => on_hk_db h (fun s => set_store s store)))
| world_dispatch w draining history :
    world_step w {| wd_hooks := on_hk_ci (wd_hooks w) (fun c => with_scheduler c (fun sched =>
                      dispatch_queued_evals sched (cl_db c) draining history));
                    wd_given := wd_given w ∪ offered_evals w draining |}
| world_triggers w o lim now : world_step w (on_world w (fun h => on_hk_ci h (dispatch_once id o lim now)))
| world_evaluate w o lim now p project user mode :
    world_step w (on_world w (fun h => on_hk_ci h (fun c => (post_project_evaluate id o lim now c p project user mode).1)))
| world_fire w o lim now p project t :
    world_step w (on_world w (fun h => on_hk_ci h (fun c => (fire_now id o lim now c p project t).1)))
| world_expand w now p project base matched trigger :
    world_step w (on_world w (fun h => on_hk_db h (fun s => (fan_out_expansion s now p project base matched trigger).1)))
| world_recover w now p stuck :
    world_step w (on_world w (fun h => on_hk_db h (fun s => (trigger_drv_recovery s now p stuck).1)))
| world_cache w now org : world_step w (on_world w (fun h => on_hk_db h (fun s => unpark_no_cache s now org)))
| world_storage w o now lim : world_step w (on_world w (fun h => on_hk_db h (fun s => unpark_storage_full_all s o now lim)))
| world_workers w o now org : world_step w (on_world w (fun h => on_hk_db h (fun s => unpark_no_workers s o now org)))
| world_github (FG : Forge) w o lim now show cfg rq :
    nobody FG -> world_step w (on_world w (fun h => (github_app_webhook id o lim now show cfg h rq).1))
| world_forge (FG : Forge) w o lim now cfg forge org name rq :
    nobody FG -> world_step w (on_world w (fun h => (forge_webhook id o lim now cfg h forge org name rq).1)).

(** The gate of [ev] is shut and nobody was ever given the evaluation. *)
Definition shut ev (w : HookWorld) : Prop := ci_wf (world_db w) /\ gate_at ev (world_db w) /\ ev ∉ wd_given w.

Lemma shut_safe ev w w' : shut ev w -> safe ev (world_db w) (world_db w') -> wd_given w' = wd_given w -> shut ev w'.
Proof. intros (Hwf & Hg & Hn) Hs Heq. destruct (Hs Hwf) as [Hwf' Hg']. split_and!; [done|auto|by rewrite Heq]. Qed.

Lemma gate_not_offered ev w draining : gate_at ev (world_db w) -> ev ∉ offered_evals w draining.
Proof.
  intros (e & He & Hg) Hin. unfold offered_evals in Hin. destruct draining; [by apply not_elem_of_empty in Hin|].
  apply elem_of_list_to_set, list_elem_of_In, in_map_iff in Hin as ([ev' e'] & Heq & Hin). simpl in Heq. subst ev'.
  unfold queued_untracked in Hin. apply filter_In in Hin as [Hin [Hq%bool_decide_eq_true _]%andb_true_iff].
  apply list_elem_of_In, elem_of_map_to_list in Hin. simpl in Hq. simplify_eq.
  destruct Hg as [[Hs _]|Ht]; [by rewrite Hq in Hs|by rewrite Hq in Ht].
Qed.

Lemma world_step_shut ev w w' : world_step w w' -> shut ev w -> shut ev w'.
Proof.
  intros Hstep Hs. destruct Hstep; try (apply (shut_safe ev w); [exact Hs| |done]).
  - eapply safe_server; [eassumption|]. by destruct Hs as (_ & _ & ?).
  - destruct Hs as (Hwf & Hg & Hn). split_and!; [exact Hwf|exact Hg|]. simpl. rewrite elem_of_union. intros [Hin|Hin]; [done|].
    by apply (gate_not_offered ev w draining).
  - apply safe_dispatch_once.
  - apply safe_evaluate.
  - apply safe_fire_now.
  - apply safe_create_each.
  - apply safe_recovery.
  - apply safe_unpark_cache.
  - apply safe_unpark_storage.
  - apply safe_unpark_workers.
  - by apply github_safe.
  - by apply forge_safe.
Qed.


End world.
