(* ===== verification/HookFacts.v ===== *)
(** * What the webhook handlers promise

    The globs, the commands, who is believed, and what becomes of pull requests from people
    nobody vouches for. *)

From S2P Require Import Prelude Float RustStr RustText Status ScoreContext Proto JobData JobTracker WorkerPool EdgeStream Scheduler Retry BuildGraph Promotion Transitions Healing Settling WaitingState EvalResult EvalResultFacts LifecycleFacts Access Tokens Wildcard Glob CiState Triggering EvalRows CiFacts TriggerLoop ForgeWebhook ForgeFanout ForgeCommands ApprovalGate.

Local Open Scope Z_scope.

(** ** Globs *)

(** [*] stands for any run of characters, every other character for itself. *)
Inductive StarMatch : list string -> list string -> Prop :=
| star_nil : StarMatch [] []
| star_run p c c' : StarMatch p c' -> StarMatch ("*"%string :: p) (c ++ c')
| star_char p x c : x <> "*"%string -> StarMatch p c -> StarMatch (x :: p) (x :: c).

Lemma star_split p t : StarMatch ("*"%string :: p) t <-> exists t1 t2, t = t1 ++ t2 /\ StarMatch p t2.
Proof.
  split; [|by intros (t1 & t2 & -> & Hm); constructor]. intros Hm. inversion Hm; subst; [by eexists _, _|done].
Qed.

Lemma drop_stars_match p t : StarMatch ("*"%string :: p) t <-> exists t1 t2, t = t1 ++ t2 /\ StarMatch (drop_stars p) t2.
Proof.
  revert t. induction p as [|x p IH]; intros t; [apply star_split|]. simpl. destruct (String.eqb_spec x "*") as [->|Hx]; [|apply star_split].
  rewrite <- IH, star_split. split.
  - intros (t1 & t2 & -> & (t3 & t4 & -> & Hm)%star_split). apply star_split. exists (t1 ++ t3), t4. by rewrite app_assoc.
  - intros Hm. exists [], t. by split.
Qed.

Lemma drop_stars_length p : (length (drop_stars p) <= length p)%nat.
Proof. induction p as [|x p IH]; simpl; [lia|]. destruct (String.eqb x "*"); simpl; lia. Qed.

Lemma glob_recursive_spec fuel : forall p t,
  (length p <= fuel)%nat -> glob_match_recursive fuel p t = true <-> StarMatch p t.
Proof.
  assert (Hnil : forall t, bool_decide (t = []) = true <-> StarMatch [] t).
  { intros t. rewrite bool_decide_eq_true. split; [intros ->; constructor|by inversion 1]. }
  induction fuel as [|fuel IH]; intros p t Hp; (destruct p as [|x p]; [|simpl in Hp; try lia]); [simpl; apply Hnil..|].
  cbn [glob_match_recursive]. destruct (String.eqb_spec x "*") as [->|Hx].
  - rewrite drop_stars_match. assert (Hl := drop_stars_length p). destruct (drop_stars p) as [|y next] eqn:Ed.
    { split; [intros _|done]. exists t, []. split; [by rewrite app_nil_r|constructor]. }
    rewrite existsb_exists. split.
    + intros (k & _ & Hm%IH); [|simpl in *; lia]. exists (take k t), (drop k t). by rewrite take_drop.
    + intros (t1 & t2 & -> & Hm). exists (length t1). rewrite drop_app_length. split; [|apply IH; [simpl in *; lia|done]].
      apply in_seq. rewrite length_app. lia.
  - destruct t as [|y t].
    { split; [done|]. inversion 1; subst; congruence. }
    destruct (String.eqb_spec x y) as [->|Hy].
    + rewrite IH by lia. split; [by constructor|]. inversion 1; subst; congruence.
    + split; [done|]. inversion 1; subst; congruence.
Qed.

(** Matching a branch or a tag against the globs of a trigger: the recursive matcher
    decides the reading of a glob as a relation, for every pattern and text and within the
    fuel its length gives, and no globs at all match everything. *)
Theorem glob_matches_exact globs name :
  glob_matches globs name = true <-> globs = [] \/ exists g, g ∈ globs /\ StarMatch (chars g) (chars name).
Proof.
  assert (Hp : forall g, glob_match_pattern g name = true <-> StarMatch (chars g) (chars name)) by (intros g; by apply glob_recursive_spec).
  destruct globs as [|g0 globs]; [simpl; naive_solver|]. unfold glob_matches. rewrite existsb_exists. split.
  - intros (g & Hin%list_elem_of_In & Hm%Hp). right. by exists g.
  - intros [|(g & Hin & Hm)]; [done|]. exists g. by rewrite <- list_elem_of_In, Hp.
Qed.

(** ** Commands *)

(** The lines of a comment that count. *)
Definition spoken (body : string) : list string :=
  List.filter (fun l => negb (skipped_line l)) (map RustText.trim (lines body)).

Lemma parse_lines_spec l : forall found,
  parse_lines found l =
  match found, List.filter (fun l => negb (skipped_line l)) (map RustText.trim l) with
  | Some c, [] => Command c
  | Some _, _ :: _ => NoCommand
  | None, [] => NoCommand
  | None, [x] => line_command x
  | None, x :: _ :: _ => match line_command x with Panics => Panics | _ => NoCommand end
  end.
Proof.
  induction l as [|x l IH]; intros found; [by destruct found|]. cbn [parse_lines map List.filter].
  destruct (skipped_line (RustText.trim x)); cbn [negb]; [by rewrite IH|].
  destruct found as [c|]; [done|]. destruct (line_command (RustText.trim x)) as [| |c]; rewrite ?IH;
    by destruct (List.filter _ (map RustText.trim l)).
Qed.

(** A comment is a command exactly when a single line of it counts and that line is one;
    and the parser panics - and with it the handler of the webhook - on every comment whose
    first line that counts is split inside a character by the ninth byte. *)
Theorem command_parse_exact body :
  parse_gradient_command body =
    match spoken body with
    | [] => NoCommand
    | [x] => line_command x
    | x :: _ :: _ => match line_command x with Panics => Panics | _ => NoCommand end
    end /\
  (parse_gradient_command body = Panics <->
   exists x rest, spoken body = x :: rest /\ (9 <= String.length x)%nat /\ is_char_boundary x 9 = false).
Proof.
  unfold parse_gradient_command. rewrite parse_lines_spec. fold (spoken body). split; [by destruct (spoken body) as [|x [|y l]]|].
  assert (Hl : forall x, line_command x = Panics <-> (9 <= String.length x)%nat /\ is_char_boundary x 9 = false).
  { intros x. unfold line_command. change (String.length PREFIX) with 9%nat.
    destruct (Nat.ltb_spec (String.length x) 9); [split; [done|lia]|].
    destruct (is_char_boundary x 9); cbn [negb]; [|by split]. split; [|by intros []].
    intros Hx. exfalso. revert Hx. destruct (negb (eq_ignore_ascii_case _ _)); [done|].
    generalize (String.substring 9 (String.length x - 9) x) as rest. intros rest.
    match goal with |- (if ?b then _ else _) = _ -> _ => destruct b end; [done|].
    destruct (split_once_by is_ascii_whitespace (RustText.trim rest)) as [[verb arg]|];
      by repeat match goal with |- context [if ?b then _ else _] => destruct b end. }
  destruct (spoken body) as [|x [|y l]].
  - split; [done|by intros (? & ? & ? & _)].
  - rewrite Hl. split; [intros Hx; by exists x, []|by intros (? & ? & [= <- <-] & ?)].
  - transitivity (line_command x = Panics); [by destruct (line_command x)|]. rewrite Hl.
    split; [intros Hx; by exists x, (y :: l)|by intros (? & ? & [= <- <-] & ?)].
Qed.

(** * Who can make the server do what

    Requests that are not authentic, pull requests from strangers, and whose word releases a
    gate. *)

Section hook_facts.
Context `{CH : Chrono} {SD : Serde} {HO : HashOrder} {UF : UuidFormat} `{!Calendar} `{!CronLib} `{!TriggerCodec}
  `{HX : Hex} `{HM : Hmac} `{FJ : ForgeJson} `{HJ : HookJson} `{!ConfigColumn} `{CR : Crypto} `{FG : Forge} `{ST : SecretStore}.
Implicit Types (s : CiDb) (ev : EvaluationId) (e : EvaluationRow) (h : Hooks).

(** ** Authentic requests *)

(** C19. A webhook changes something only when it is authentic: on the route of an integration
    the body is signed with the stored secret of that integration (or carries it, for
    GitLab), and comes from an address the integration allows; on the route of the GitHub App
    it is signed with the app's secret. Otherwise every table is as it was. *)
Theorem webhook_authentic between o lim now show cfg h rq :
  (forall forge org name, (forge_webhook between o lim now cfg h forge org name rq).1 <> h ->
     exists f i encrypted secret, forge_from_path_segment forge = Some f /\ f <> GitHub /\
       find_integration h org name = Some i /\ ig_secret i = Some encrypted /\ decrypt_secret encrypted = Some secret /\
       verify_signature f secret (first_header rq (signature_headers f)) (hr_body rq) = true /\
       is_allowed (client_ip_of cfg rq) (ig_allowed_ips i) = true) /\
  ((github_app_webhook between o lim now show cfg h rq).1 <> h ->
     exists secret, hc_github_app cfg = Some (Some secret) /\
       verify_github_signature secret (header rq "X-Hub-Signature-256") (hr_body rq) = true).
Proof.
  split.
  - intros forge org name. unfold forge_webhook. destruct (forge_from_path_segment forge) as [f|]; [|done].
    destruct (accepts_per_integration_webhook f) eqn:Hf; cbn [negb]; [|done].
    destruct (find_integration h org name) as [i|]; [|done]. destruct (ig_secret i) as [encrypted|] eqn:Hi; [|done].
    destruct (decrypt_secret encrypted) as [secret|] eqn:Hd; [|done].
    destruct (verify_signature _ _ _ _) eqn:Hv; cbn [negb]; [|done]. destruct (is_allowed _ _) eqn:Ha; cbn [negb]; [|done].
    intros _. exists f, i, encrypted, secret. split_and!; try done. by intros ->.
  - unfold github_app_webhook. destruct (hc_github_app cfg) as [[secret|]|]; [|done..].
    destruct (verify_github_signature _ _ _) eqn:Hv; cbn [negb]; [|done]. intros _. by exists secret.
Qed.

(** ** Pull requests from strangers *)

(** Nothing runs that was not there before. *)
Definition only_gates s s' : Prop :=
  ci_wf s -> ci_wf s' /\ (forall ev, gate_at ev s -> gate_at ev s') /\
  forall ev e, evaluations_of s' !! ev = Some e -> evaluations_of s !! ev = None -> gate e.

#[local] Instance only_gates_preorder : PreOrder only_gates.
Proof.
  split; [intros s Hs; split_and!; [done|done|congruence]|]. intros s1 s2 s3 Hx1 Hx2 Hs.
  destruct (Hx1 Hs) as (Hw1 & Hgg1 & Hn1), (Hx2 Hw1) as (Hw2 & Hg2 & Hn2). split_and!; [done|auto|]. intros ev e He Hnone.
  destruct (evaluations_of s2 !! ev) as [e2|] eqn:E2; [|by eapply Hn2].
  destruct (Hg2 ev) as (e' & He' & Hge'); [exists e2; split; [done|by eapply Hn1]|]. by simplify_eq.
Qed.

(** The evaluation an approval is asked for. *)
Lemma apply_gated o s now p project input a :
  in_gate_approval input = Some a -> only_gates s (apply_trigger id o s now p project input).1.
Proof.
  intros Ha Hs. assert (Hsafe := fun ev => safe_apply ev id o s now p project input (fun s => safe_id ev s)).
  split; [by apply (Hsafe 0%N)|]. split; [intros ev; by apply Hsafe|]. intros ev e. clear Hsafe.
  unfold apply_trigger. cbv zeta. destruct (skip_for_same_commit _ _ _ _); [cbn [fst]; congruence|].
  destruct (ci_resolve_spec s now project p) as (w & Hw & Hrows & Hd).
  assert (Hkeep : forall ev e, t_evaluations (st_db w) !! ev = Some e -> evaluations_of s !! ev = None -> gate e).
  { intros ev' e'. rewrite Hrows, end_row_lookup. intros He' Hnone. rewrite Hnone in He'. by case_bool_decide. }
  destruct (resolve_concurrency s now project (in_flight_of s p)) as [s1 [d|]]; simpl in Hw; subst s1; [|apply Hkeep].
  match goal with |- context [trigger_evaluation id _ now p project ?n] => set (new := n) end.
  unfold trigger_evaluation. destruct (if ne_concurrent new then _ else _) as [|err]; [|destruct err as [| |[]]; apply Hkeep].
  assert (Hcr := create_evaluation_spec (set_store s w) now p project new). change (id (set_store s w)) with (set_store s w).
  destruct (create_evaluation (set_store s w) now p project new) as [s2 [ev'|err]].
  - destruct Hcr as (_ & _ & Hrows2 & _). change (evaluations_of (set_store s w)) with (t_evaluations (st_db w)) in Hrows2.
    rewrite (run_gates_spec o now (in_gate_approval input) (pj_organization project) (in_instance_max_storage_gb input) s2 ev'
      (new_row p EQueued KNormal now)) by (done || by rewrite Hrows2, lookup_insert_eq).
    rewrite Ha. simpl. change (evaluations_of (set_evals s2 ?m)) with m. rewrite Hrows2. destruct (decide (ev = ev')) as [->|Hne].
    + rewrite lookup_insert_eq. intros [= <-] _. left. split; [done|]. by eexists _, _.
    + rewrite !lookup_insert_ne by done. apply Hkeep.
  - destruct Hcr as (-> & _ & _ & Hrows2). simpl. rewrite Hrows2. apply Hkeep.
Qed.

Lemma only_gates_same s s' :
  evaluations_of s' = evaluations_of s -> ci_columns s' = ci_columns s -> (ci_next s <= ci_next s')%N -> only_gates s s'.
Proof.
  intros He Hc Hn Hs. split; [by apply (safe_same 0%N s s' He Hc Hn)|]. split; [intros ev; by apply (safe_same ev s s' He Hc Hn)|].
  rewrite He. congruence.
Qed.

(** A pull request from a fork whose author no forge vouches for runs nothing: every
    evaluation its webhook creates is parked for approval (or already ended again), when the
    triggers it fires ask for approval, as they do unless they are told not to. *)
Theorem fork_pr_waits o lim now h i urls branch action v ctx ev e :
  ci_wf (db_of h) -> vt_approval v = Some ctx -> ac_is_fork ctx <> Some false ->
  (forall sender p owner repo, ac_sender ctx = Some sender -> is_repo_writer p owner repo sender = false) ->
  (forall t id branches actions ask, t ∈ ci_triggers (db_of h) ->
     parse_row (tr_type t) (tr_config t) = Ok (CfgReporterPullRequest id branches actions ask) -> ask = true) ->
  let h' := (trigger_pr_for_integration id o lim now h i urls branch action v).1 in
  evaluations_of (db_of h') !! ev = Some e -> evaluations_of (db_of h) !! ev = None ->
  awaits_approval e \/ eval_is_terminal (ev_status e) = true.
Proof.
  intros Hwf Hv Hfork Hw Hask h'. enough (Hog : only_gates (db_of h) (db_of h')) by (destruct (Hog Hwf) as (_ & _ & Hn); apply Hn).
  subst h'. unfold trigger_pr_for_integration, fan_out_triggers. set (l := load_active_triggers h i TypeReporterPullRequest).
  assert (Hl : forall t, t ∈ l -> t ∈ ci_triggers (db_of h)).
  { intros t Ht. unfold l, load_active_triggers in Ht. apply list_elem_of_In, filter_In in Ht as [Ht _]. by apply list_elem_of_In. }
  clearbody l. change (db_of h) with (db_of (h, no_outcome).1) at 1. generalize (h, no_outcome). clear Hwf.
  induction l as [|t l IH]; intros x; [reflexivity|]. simpl. etrans; [|apply IH; intros; apply Hl; by right].
  destruct x as [h1 out]. unfold fire_trigger. destruct (parse_row _ _) as [cfg|] eqn:Hcfg; [|reflexivity].
  destruct (ci_projects _ !! _) as [project|]; [|reflexivity]. destruct (negb _); [reflexivity|]. cbv zeta.
  unfold pr_filter. destruct cfg as [| |cid branches actions ask|]; try reflexivity.
  destruct (negb _); [reflexivity|]. destruct (negb _); [reflexivity|].
  rewrite (Hask t cid branches actions ask) by (done || apply Hl; by left).
  assert (Hgate : exists a, decide_pr_gate (tr_project t) project (vt_approval v) = Some a).
  { rewrite Hv. unfold decide_pr_gate. rewrite bool_decide_eq_false_2 by done. cbn [negb].
    assert (Hf : forall b, gate_decision ctx b = None -> b = true).
    { intros b. unfold gate_decision. rewrite bool_decide_eq_false_2 by done. by destruct b. }
    match goal with |- context [gate_decision ctx ?b] => assert (Hb : b = false) end.
    { destruct (ac_sender ctx) as [sender|] eqn:Es; [|done]. destruct (parse_owner_repo _) as [[owner repo]|]; [|done].
      unfold sender_is_trusted. by rewrite (Hw sender), andb_false_r. }
    rewrite Hb. destruct (gate_decision ctx false) as [a|] eqn:E; [by exists a|]. by apply Hf in E. }
  destruct Hgate as [a Ha]. unfold apply_and_record.
  match goal with |- context [apply_trigger id o _ now _ project ?inp] => assert (Hx1 := apply_gated o (db_of h1) now (tr_project t) project inp a Ha) end.
  revert Hx1. destruct (apply_trigger _ _ _ _ _ _ _) as [s r]. intros Hx1. etrans; [exact Hx1|]. cbv zeta. cbn [fst].
  unfold db_of, on_hk_ci. cbn [hk_ci]. rewrite follow_db. by apply only_gates_same.
Qed.

(** ** Whose word counts *)

Lemma approve_found s now ev e :
  evaluations_of s !! ev = Some e -> parked_with is_approval e = true ->
  exists s', approve s now ev = (s', Some (unpark_row now e)) /\ evaluations_of s' = <[ev := unpark_row now e]> (evaluations_of s).
Proof.
  intros He Hp. unfold approve, unpark_approval. unfold evaluations_of in He. rewrite He, Hp. by eexists.
Qed.

Lemma find_gated s p n ev :
  gated_eval s p n = Some ev -> exists e, evaluations_of s !! ev = Some e /\ parked_with is_approval e = true.
Proof.
  unfold gated_eval, find_approval_gated_eval. destruct (List.find _ _) as [[ev' e]|] eqn:E; intros [= <-].
  apply find_some in E as [Hin Hg]. apply list_elem_of_In, elem_of_map_to_list in Hin. exists e. split; [done|].
  apply andb_true_iff in Hg as [_ Hp]. unfold parked_with in *. apply andb_true_iff in Hp as [Hs Hr].
  simpl in Hs, Hr. rewrite Hs. by destruct (ev_waiting_reason e) as [[]|].
Qed.

Definition eval_queued ev s : Prop := ev_status <$> evaluations_of s !! ev = Some EQueued.

Lemma source_comment_status s now ev' sc ev :
  ev_status <$> evaluations_of (set_evaluation_source_comment s now ev' sc) !! ev = ev_status <$> evaluations_of s !! ev.
Proof.
  unfold set_evaluation_source_comment. destruct (evaluations_of s !! ev') as [e|] eqn:E; [|done]. cbv zeta.
  rewrite (alter_found _ _ ev' e) by done. change (evaluations_of (set_evals ?s ?m)) with m.
  change (evaluations_of (set_columns s _)) with (evaluations_of s).
  destruct (decide (ev = ev')) as [->|Hne]; [by rewrite lookup_insert_eq, E|by rewrite lookup_insert_ne].
Qed.

(** Releasing other gates leaves what is queued queued. *)
Lemma approve_any_queued s now ev' w ev :
  eval_queued ev s -> eval_queued ev (match w with None => approve s now ev' | Some w => unpark_approval_with_wildcard s now ev' w end).1.
Proof.
  intros Hq. assert (Hx1 : eval_queued ev (approve s now ev').1).
  { unfold eval_queued, approve, unpark_approval. unfold eval_queued, evaluations_of in Hq.
    destruct (t_evaluations _ !! ev') as [e|] eqn:E; [|exact Hq]. destruct (parked_with is_approval e) eqn:Hp; [|exact Hq].
    unfold evaluations_of. simpl. destruct (decide (ev = ev')) as [->|Hne]; [by rewrite lookup_insert_eq|by rewrite lookup_insert_ne]. }
  destruct w as [w|]; [|exact Hx1]. unfold unpark_approval_with_wildcard. revert Hx1. by destruct (approve s now ev') as [s1 [e|]].
Qed.

Lemma unpark_one_queued now x r p ev :
  eval_queued ev (db_of r.1) -> eval_queued ev (db_of (unpark_existing_one now x r p).1).
Proof.
  destruct r as [h any]. intros Hq. unfold unpark_existing_one. destruct (gated_eval _ _ _) as [ev'|]; [|done].
  assert (Hx1 := approve_any_queued (db_of h) now ev' (cx_wildcard x) ev Hq). revert Hx1.
  match goal with |- context [match ?c with pair a o => _ end] => destruct c as [s [e|]] end; intros Hx1; [|exact Hx1].
  cbv zeta. set (s2 := match comment_source x with Some sc => _ | None => _ end).
  assert (Hx2 : eval_queued ev s2).
  { unfold s2. destruct (comment_source x); [|exact Hx1]. unfold eval_queued. by rewrite source_comment_status. }
  clearbody s2. unfold dispatch_approval_granted, submit_pr_approval_review.
  destruct (cx_cmd x), (ev_project e); try exact Hx2; by destruct (reporter_for p).
Qed.

(** Who may write to one repository can release the gate of another: a command on a pull
    request is checked against the repository the comment was made in, while the
    evaluations it releases are found by the number of the pull request alone, in every
    project of the integration. *)
Theorem approval_crosses_repositories between o lim now x h action i p rest ev :
  active_project_ids_for_integration (db_of h) i = p :: rest -> reporter_for p = true ->
  is_repo_writer p (cx_owner x) (cx_repo x) (cx_sender x) = true ->
  gated_eval (db_of h) p (cx_pr_number x) = Some ev ->
  eval_queued ev (db_of (handle_comment_for_integration between o lim now x (h, action) i).1).
Proof.
  intros Hids Hrep Hwriter Hfind. unfold handle_comment_for_integration. rewrite Hids. simpl List.find.
  unfold first_project_with_reporter. simpl. rewrite Hrep. unfold sender_is_trusted. rewrite Hrep, Hwriter. cbn [andb negb].
  set (h1 := match cx_comment x with Some _ => _ | None => _ end).
  assert (Hdb : db_of h1 = db_of h) by (unfold h1; by destruct (cx_comment x)). clearbody h1.
  assert (Hx1 : eval_queued ev (db_of (unpark_existing_one now x (h1, false) p).1) /\ (unpark_existing_one now x (h1, false) p).2 = true).
  { unfold unpark_existing_one. rewrite Hdb, Hfind. destruct (find_gated _ _ _ _ Hfind) as (e & He & Hp).
    destruct (approve_found (db_of h) now ev e He Hp) as (s1 & Hap & Hrows).
    assert (Hq : forall s2, evaluations_of s2 = evaluations_of s1 -> eval_queued ev
      (match comment_source x with Some sc => set_evaluation_source_comment s2 now ev sc | None => s2 end)).
    { intros s2 Hs2. unfold eval_queued. destruct (comment_source x); [rewrite source_comment_status|]; by rewrite Hs2, Hrows, lookup_insert_eq. }
    unfold unpark_approval_with_wildcard. rewrite Hap. destruct (cx_wildcard x) as [w|]; cbv beta iota zeta; cbn [fst snd];
      (split; [|done]); unfold dispatch_approval_granted, submit_pr_approval_review; rewrite ?Hrep;
      destruct (cx_cmd x), (ev_project (unpark_row now e)); by apply Hq. }
  destruct Hx1 as [Hq Hany]. unfold unpark_existing_approvals. simpl.
  assert (Hfold : forall l r, eval_queued ev (db_of r.1) -> r.2 = true ->
    eval_queued ev (db_of (foldl (unpark_existing_one now x) r l).1) /\ (foldl (unpark_existing_one now x) r l).2 = true).
  { induction l as [|q l IH]; intros r Hr Hr2; [by split|]. simpl. apply IH; [by apply unpark_one_queued|].
    destruct r as [h2 any]. simpl in Hr2. subst any. unfold unpark_existing_one. destruct (gated_eval (db_of h2) q _); [|done].
    by match goal with |- context [match ?c with pair a o => _ end] => destruct c as [s [e|]] end. }
  specialize (Hfold rest _ Hq Hany). revert Hfold. set (r := foldl _ _ rest). clearbody r. destruct r as [h2 any]. simpl.
  by intros [Hq2 ->].
Qed.

End hook_facts.
