(* ===== verification/CiExamples.v ===== *)
(** * A project that bumps its flake inputs

    Project 5 ends the running evaluation when a new one starts, and tracks the input
    [nixpkgs]; evaluation 7 is running. *)

From S2P Require Import Prelude Float RustStr RustText Status ScoreContext StorePath Proto JobData JobTracker WorkerPool EdgeStream Scheduler Retry BuildGraph Promotion Transitions Healing Settling WaitingState EvalResult LifecycleFacts GraphExamples Access Tokens Wildcard Glob CiState Triggering EvalRows CiFacts TriggerLoop CiTheorems ForgeWebhook ForgeFanout ForgeCommands ApprovalGate HookFacts.

#[local] Existing Instance nanosecond_clock.
#[local] Existing Instance null_serde.

#[export] Instance example_calendar : Calendar := {|
  NULL_TIME := at_ns 0;
  one_day_before := fun t => (t - 86400 * 1000000000)%Z |}.

(** A schedule is a period in nanoseconds, written in tally marks. *)
#[export] Instance example_cron : CronLib := {|
  Schedule := Z;
  parse_schedule := fun s => match String.length s with O => Err "empty"%string | S n => Ok (Z.of_nat (S n)) end;
  schedule_after := fun p t => Some (at_ns (t + p)) |}.

#[export] Instance example_codec : TriggerCodec := {|
  ConfigJson := TriggerConfig;
  serde_from_tagged := fun t c => if bool_decide (trigger_type_of c = t) then Some c else None;
  serde_to_untagged := fun c => c |}.

#[export] Program Instance example_jitter : JitterHash := {| jitter_hash := fun t _ => (Z.of_N t mod 2 ^ 64)%Z |}.
Next Obligation. intros. apply Z.mod_pos_bound. lia. Defined.

#[export] Instance example_remote : GitRemote := {|
  ls_remote_head := fun url _ => if String.eqb url "gone" then Err "unreachable"%string else Ok "new"%string;
  commit_info_of := fun _ _ => Ok ("message"%string, "author"%string) |}.

Local Open Scope N_scope.

Definition example_project : ProjectRow := {|
  pj_organization := 1; pj_name := "p"; pj_active := true; pj_repository := "https://example.org/r.git"; pj_wildcard := "*";
  pj_last_evaluation := Some 7; pj_last_check_at := at_ns 0; pj_force_evaluation := false; pj_concurrency := HardAbort |}.

Definition example_columns (commit : N) : EvalColumns := {|
  ec_repository := "https://example.org/r.git"; ec_commit := commit; ec_wildcard := "*"; ec_previous := None;
  ec_created_at := at_ns 0; ec_flake_source := None; ec_trigger := None; ec_started_by := None; ec_concurrent := false;
  ec_source_comment := None |}.

Definition poll_trigger (id : N) (interval : Z) (fired : option NaiveDateTime) : TriggerRow := {|
  tr_id := id; tr_project := 5; tr_type := TypePolling; tr_config := CfgPolling interval None; tr_active := true;
  tr_last_fired_at := fired; tr_updated_at := at_ns 0 |}.

Definition bump_action : ActionRow := {|
  act_project := 5; act_active := true; act_type := ActOpenPr; act_granularity := Some PerInput |}.

Definition example_ci (e : EvaluationRow) (actions : list ActionRow) (triggers : list TriggerRow) : CiDb := {|
  ci_store := example_store (set_entry_points (set_evaluations (example_graph BCompleted BFailedPermanent BDependencyFailed)
    {[ 7 := e ]}) [(7, 3)]);
  ci_columns := {[ 7 := example_columns 20 ]}; ci_projects := {[ 5 := example_project ]};
  ci_commits := {[ 20 := {| cm_hash := "old"; cm_message := ""; cm_author_name := "" |} ]};
  ci_triggers := triggers; ci_overrides := [(5, ("nixpkgs"%string, None))]; ci_eval_overrides := [];
  ci_actions := actions; ci_input_updates := []; ci_next := 100 |}.

Definition example_orgs : OrgTables := {|
  ot_subscriptions := []; ot_caches := []; ot_instance_used := 0; ot_registrations := []; ot_base_workers := [];
  ot_org_base_workers := [] |}.

Definition example_input : ApplyInput := {|
  in_trigger_id := 3; in_trigger_type := TypePolling; in_commit_hash := "new"; in_commit_message := None;
  in_author_name := None; in_manual := false; in_gate_approval := Some {| ai_pr_number := 4; ai_pr_author := "eve" |};
  in_repository_override := None; in_wildcard_override := None; in_source_comment := None;
  in_instance_max_storage_gb := 0 |}.

Definition running_ci : CiDb := example_ci (example_eval EBuilding None) [] [].

Lemma running_wf : ci_wf running_ci.
Proof.
  assert (Hrow : forall ev e, evaluations_of running_ci !! ev = Some e -> ev = 7).
  { intros ev e He. unfold evaluations_of in He. simpl in He. apply lookup_singleton_Some in He as [<- _]. done. }
  split.
  - intros ev [e ->%Hrow]. simpl. lia.
  - intros ev [e ->%Hrow]. by eexists.
  - intros p ev1 e1 ev2 e2 ->%Hrow ->%Hrow _ _. done.
Defined.

(** The pull request ends evaluation 7 and waits for approval. *)
Lemma one_active_per_project_witness :
  let r := apply_trigger id example_orgs running_ci (at_ns 9) 5 example_project example_input in
  ci_wf r.1 /\ option_map (fun e => (ev_status e, ev_waiting_reason e)) (evaluations_of r.1 !! 101) =
    Some (EWaiting, Some (WApproval 4 "eve")) /\
  ev_status <$> evaluations_of r.1 !! 7 = Some EAborted.
Proof.
  cbv zeta. split; [|split; vm_compute; reflexivity].
  apply (one_active_per_project id running_ci); [intros s Hs; exact Hs|exact running_wf|].
  eapply rtc_l; [apply (ci_apply id example_orgs running_ci (at_ns 9) 5 example_project example_input)|apply rtc_refl].
Defined.

Definition bumping_ci : CiDb := example_ci (example_eval EBuilding None) [bump_action] [].
Definition bumped : CiDb * result (list EvaluationId) TriggerError :=
  maybe_trigger_input_update bumping_ci (at_ns 9) 5 example_project "new" (Some 3).

(** The running evaluation is gone, and nothing takes its place. *)
Lemma input_update_starves_ci_witness :
  bumped.2 = Ok [101] /\
  let r := apply_trigger id example_orgs bumped.1 (at_ns 9) 5 example_project example_input in
  r.2 = Ok SkippedConcurrency /\ ev_status <$> evaluations_of r.1 !! 7 = Some EAborted /\
  evaluations_of r.1 = end_row (at_ns 9) (superseded bumped.1 example_project 5) (evaluations_of bumped.1).
Proof.
  assert (Hm : maybe_trigger_input_update bumping_ci (at_ns 9) 5 example_project "new" (Some 3) = (bumped.1, Ok [101]))
    by (vm_compute; reflexivity).
  split; [vm_compute; reflexivity|]. cbv zeta.
  destruct (input_update_starves_ci id example_orgs bumping_ci (at_ns 9) 5 example_project "new" (Some 3) bumped.1 101 []
    example_input Hm eq_refl) as (s2 & [[Hr _]|[Hr Hrows]]).
  - exfalso. apply (f_equal snd) in Hr. revert Hr. vm_compute. discriminate.
  - rewrite Hr. split; [reflexivity|]. split; [|exact Hrows]. simpl. rewrite Hrows. vm_compute. reflexivity.
Defined.

Definition failed_ci : CiDb := example_ci (example_eval EFailed None) [] [].
Definition restarted : CiDb * result EvaluationId TriggerError := trigger_restart_builds id failed_ci (at_ns 9) 5.

(** The build that failed is not opened again, and a graph sweep does not help. *)
Lemma restart_never_finishes_witness :
  restarted.2 = Ok 100 /\
  let w := reconcile_build_graph (ci_store restarted.1) (at_ns 10) (fun _ => None) (Eval 100) in
  (t_evaluations (st_db w) !! 100 = Some (new_row 5 EBuilding KNormal (at_ns 9)) \/
   exists w1 now1 e1, rtc (working_step (fun _ => False)) (ci_store restarted.1) w1 /\
    rtc (working_step (fun _ => False)) (db_abort_evaluation w1 now1 100 e1) w) /\
  db_status <$> t_anchors (st_db w) !! 2 = Some BFailedPermanent.
Proof.
  split; [vm_compute; reflexivity|]. cbv zeta. split; [|vm_compute; reflexivity].
  apply (restart_never_finishes (fun _ => False) failed_ci (at_ns 9) 5 restarted.1 100);
    [|vm_compute; reflexivity|vm_compute; discriminate|intros Hf; exact Hf|].
  - intros j Hj. simpl in Hj. rewrite !elem_of_cons in Hj. destruct Hj as [->|[->|[->|Hj]]]; [simpl; lia..|].
    by apply elem_of_nil in Hj.
  - eapply rtc_l; [apply work_reconcile|apply rtc_refl].
Defined.

Lemma polling_window_witness :
  (0 <= 600 < 2 ^ 32)%Z /\ polling_due 9 (Some (at_ns 0)) 600 (at_ns (660 * 1000000000)) = true.
Proof. split; [lia|]. apply (polling_window 9 (at_ns 0) 600); [lia|]. vm_compute. discriminate. Defined.

Definition loop_ci : Ci := {|
  cl_db := example_ci (example_eval EBuilding None) [] [poll_trigger 3 60 (Some (at_ns 0)); poll_trigger 4 600 (Some (at_ns 0))];
  cl_scheduler := Scheduler_new "default"; cl_announced := [] |}.

Lemma pass_stamps_witness :
  let c := dispatch_once id example_orgs 0 (at_ns (70 * 1000000000)) loop_ci in
  ci_triggers (cl_db c) = stamped (at_ns (70 * 1000000000)) (ripe (ci_projects (cl_db loop_ci)) (at_ns (70 * 1000000000)))
    (ci_triggers (cl_db loop_ci)) /\
  map tr_last_fired_at (ci_triggers (cl_db c)) = [Some (at_ns (70 * 1000000000)); Some (at_ns 0)].
Proof.
  cbv zeta. assert (Hnd : NoDup (map tr_id (ci_triggers (cl_db loop_ci)))).
  { simpl. apply NoDup_cons. split; [|apply NoDup_singleton]. intros Hin%list_elem_of_singleton. discriminate. }
  pose proof (pass_stamps example_orgs 0 (at_ns (70 * 1000000000)) loop_ci Hnd) as Hs.
  split; [exact Hs|]. rewrite Hs. vm_compute. reflexivity.
Defined.

(** * A stranger, a maintainer, and somebody else's repository

    Project 5 takes pull requests of integration 1; evaluation 7 waits for approval. Mallory
    may write to a repository of her own. *)

#[local] Existing Instance forward_order.

(** Digests are the text they digest, and every address is one. *)
#[local] Instance plain_hex : Hex := {| hex_decode := fun s => if String.eqb s "" then None else Some s |}.
#[local] Instance plain_hmac : Hmac := {| hmac_sha256 := fun key body => (key +:+ body)%string |}.
#[local] Instance plain_secrets : SecretStore := {| decrypt_secret := fun s => Some s |}.
#[local] Instance plain_columns : ConfigColumn := {|
  config_integration_id := fun c => match c with CfgReporterPullRequest id _ _ _ => Some id | _ => None end |}.
#[local] Instance one_address : Crypto := {|
  IpNet := string; parse_net := fun s => Some s; parse_ip := fun s => Some (V4 (Z.of_nat (String.length s)));
  net_contains := fun _ _ => true; net_to_string := fun n => n; net_new := fun _ _ => None;
  decode_claims := fun _ => None; sha256 := fun _ => []; base64_decode := fun s => Some s |}.

(** Mallory opens a pull request from a fork. *)
Definition fork_pull : GiteaPullRequestPayload := {|
  gtq_action := "opened";
  gtq_head := {| gtf_sha := "beefbeefbeefbeefbeefbeefbeefbeefbeefbeef"; gtf_branch := Some "evil"%string; gtf_name := Some "evil"%string;
                 gtf_repo := Some {| rs_full_name := Some "mallory/fork"%string; rs_clone_url := Some "https://example.org/mallory/fork.git"%string; rs_ssh_url := None |} |};
  gtq_base := Some {| gtf_sha := "dead"; gtf_branch := Some "main"%string; gtf_name := Some "main"%string;
                 gtf_repo := Some {| rs_full_name := Some "alice/site"%string; rs_clone_url := Some "https://example.org/alice/site.git"%string; rs_ssh_url := None |} |};
  gtq_number := Some 6%Z; gtq_user := Some {| gtu_username := Some "mallory"%string; gtu_login := None |};
  gtq_title := Some "Please build"%string;
  gtq_repository := {| gtr_clone_url := "https://example.org/alice/site.git"; gtr_ssh_url := None; gtr_full_name := Some "alice/site"%string |};
  gtq_sender := Some {| gtu_username := Some "mallory"%string; gtu_login := None |} |}.

#[local] Instance example_forge_json : ForgeJson := {|
  json_github_push := fun _ => None; json_gitea_push := fun _ => None; json_gitlab_push := fun _ => None;
  json_github_pull := fun _ => None;
  json_gitea_pull := fun s => if String.eqb s "pull" then Some fork_pull else None;
  json_gitlab_merge := fun _ => None; json_github_release := fun _ => None; json_gitea_release := fun _ => None;
  json_gitlab_release := fun _ => None; json_github_review := fun _ => None; json_gitea_review := fun _ => None |}.

#[local] Instance example_hook_json : HookJson := {|
  json_comment := fun s => if String.eqb s "comment" then Some {|
      cp_action := Some "created"%string; cp_comment := Some (Some "/gradient approve"%string, Some 1%Z);
      cp_issue := Some (Some 4%Z); cp_pull_request := None; cp_sender := Some (Some "mallory"%string, None);
      cp_repository := Some (Some "alice/site"%string); cp_attributes := None; cp_user := None; cp_project := None;
      cp_merge_request := None |} else None;
  json_check_run := fun _ => None; json_installation := fun _ => None; json_installation_id := fun _ => None |}.

(** Mallory may write to her own repositories, on every forge. *)
#[local] Instance mallorys_forge : Forge := {|
  reporter_for := fun _ => true;
  is_repo_writer := fun _ owner _ user => String.eqb owner "mallory" && String.eqb user "mallory";
  get_pull_request := fun _ _ _ _ => Ok None;
  post_pr_comment := fun _ _ _ _ => true |}.

Definition strangers_forge : Forge := {|
  reporter_for := fun _ => true; is_repo_writer := fun _ _ _ _ => false;
  get_pull_request := fun _ _ _ _ => Ok None; post_pr_comment := fun _ _ _ _ => true |}.

Definition site_project : ProjectRow := {|
  pj_organization := 1; pj_name := "site"; pj_active := true; pj_repository := "https://example.org/alice/site.git"; pj_wildcard := "*";
  pj_last_evaluation := Some 7; pj_last_check_at := at_ns 0; pj_force_evaluation := false; pj_concurrency := AllowAll |}.

Definition pull_trigger : TriggerRow := {|
  tr_id := 3; tr_project := 5; tr_type := TypeReporterPullRequest; tr_config := CfgReporterPullRequest 1 [] ["opened"%string; "synchronize"%string] true;
  tr_active := true; tr_last_fired_at := None; tr_updated_at := at_ns 0 |}.

Definition parked_eval : EvaluationRow := example_eval EWaiting (Some (WApproval 4 "mallory")).

Definition site_ci (triggers : list TriggerRow) : CiDb := {|
  ci_store := ci_store (example_ci parked_eval [] []); ci_columns := ci_columns running_ci;
  ci_projects := {[ 5 := site_project ]}; ci_commits := ci_commits running_ci; ci_triggers := triggers;
  ci_overrides := []; ci_eval_overrides := []; ci_actions := []; ci_input_updates := []; ci_next := 100 |}.

Definition gitea_integration : IntegrationRow := {|
  ig_id := 1; ig_organization := 1; ig_kind := Inbound; ig_forge := Gitea; ig_name := "gitea"; ig_secret := Some "key"%string;
  ig_allowed_ips := []; ig_installation := None |}.

Definition site_hooks : Hooks := {|
  hk_ci := {| cl_db := site_ci [pull_trigger]; cl_scheduler := Scheduler_new "default"; cl_announced := [] |};
  hk_integrations := [gitea_integration]; hk_installations := [];
  hk_organizations := {[ 1 := {| og_name := "acme"; og_creator := 1 |} ]}; hk_check_runs := ∅; hk_effects := []; hk_next := 50 |}.

Definition hook_request (event body : string) : HookRequest := {|
  hr_headers := fun name =>
    if String.eqb name "X-Gitea-Signature" then Some (Some ("key" +:+ body)%string)
    else if String.eqb name "X-Gitea-Event" then Some (Some event) else None;
  hr_body := body; hr_peer := Some (V4 1) |}.

Definition hook_config : HookConfig := {| hc_github_app := None; hc_trusted_proxies := [] |}.

Lemma site_wf triggers : ci_wf (site_ci triggers).
Proof.
  assert (Hrow : forall ev e, evaluations_of (site_ci triggers) !! ev = Some e -> ev = 7).
  { intros ev e He. unfold evaluations_of in He. simpl in He. apply lookup_singleton_Some in He as [<- _]. done. }
  split.
  - intros ev [e ->%Hrow]. simpl. lia.
  - intros ev [e ->%Hrow]. by eexists.
  - intros p ev1 e1 ev2 e2 ->%Hrow ->%Hrow _ _. done.
Defined.

(** The pull request that Mallory opens is received, and waits. *)
Lemma webhook_authentic_witness :
  let rq := hook_request "pull_request" "pull" in
  (forge_webhook id example_orgs 0 (at_ns 9) hook_config site_hooks "gitea" "acme" "gitea" rq).1 <> site_hooks /\
  exists f i encrypted secret, forge_from_path_segment "gitea" = Some f /\ f <> GitHub /\
    find_integration site_hooks "acme" "gitea" = Some i /\ ig_secret i = Some encrypted /\ decrypt_secret encrypted = Some secret /\
    verify_signature f secret (first_header rq (signature_headers f)) (hr_body rq) = true /\
    is_allowed (client_ip_of hook_config rq) (ig_allowed_ips i) = true.
Proof.
  cbv zeta. assert (Hne : (forge_webhook id example_orgs 0 (at_ns 9) hook_config site_hooks "gitea" "acme" "gitea"
    (hook_request "pull_request" "pull")).1 <> site_hooks).
  { intros Heq. apply (f_equal (fun h => ci_next (db_of h))) in Heq. revert Heq. vm_compute. discriminate. }
  split; [exact Hne|].
  exact (proj1 (webhook_authentic id example_orgs 0 (at_ns 9) (fun _ => ""%string) hook_config site_hooks
    (hook_request "pull_request" "pull")) "gitea"%string "acme"%string "gitea"%string Hne).
Defined.

Definition fork_event : HookEvent := {|
  vt_commit_hash := "beef"; vt_commit_message := None; vt_author_name := None;
  vt_approval := Some {| ac_pr_number := Some 6%Z; ac_pr_author := Some "mallory"%string; ac_is_fork := Some true; ac_sender := Some "mallory"%string |};
  vt_repository_override := None; vt_manual := false; vt_wildcard_override := None; vt_source_comment := None |}.

Definition after_fork : Hooks :=
  (trigger_pr_for_integration (FG := strangers_forge) id example_orgs 0 (at_ns 9) site_hooks 1 ["https://example.org/alice/site.git"%string]
    (Some "evil"%string) "opened" fork_event).1.

Lemma fork_pr_waits_witness :
  evaluations_of (db_of after_fork) !! 101 <> None /\
  forall e, evaluations_of (db_of after_fork) !! 101 = Some e -> awaits_approval e \/ eval_is_terminal (ev_status e) = true.
Proof.
  split; [vm_compute; discriminate|]. intros e He.
  refine (fork_pr_waits (FG := strangers_forge) example_orgs 0 (at_ns 9) site_hooks 1 ["https://example.org/alice/site.git"%string]
    (Some "evil"%string) "opened" fork_event _ 101 e (site_wf _) eq_refl _ _ _ He _).
  - discriminate.
  - done.
  - intros t cid branches actions ask Ht Hp. change (ci_triggers (db_of site_hooks)) with [pull_trigger] in Ht.
    apply list_elem_of_singleton in Ht as ->. revert Hp. vm_compute. congruence.
  - vm_compute. reflexivity.
Defined.

Definition mallorys_command : CommentDispatch := {|
  cx_cmd := CmdApprove; cx_owner := "mallory"; cx_repo := "scratch"; cx_sender := "mallory"; cx_pr_number := 4; cx_wildcard := None;
  cx_comment := None |}.

(** Mallory approves pull request 4 of her own repository, and the evaluation of pull request
    4 of Alice's site is queued. *)
Lemma approval_crosses_repositories_witness :
  is_repo_writer 5 "alice" "site" "mallory" = false /\
  eval_queued 7 (db_of (handle_comment_for_integration id example_orgs 0 (at_ns 9) mallorys_command (site_hooks, false) 1).1).
Proof.
  split; [reflexivity|].
  apply (approval_crosses_repositories id example_orgs 0 (at_ns 9) mallorys_command site_hooks false 1 5 []); vm_compute; reflexivity.
Defined.

Definition site_world : HookWorld := {| wd_hooks := site_hooks; wd_given := ∅ |}.


(** A German comment takes the request down. *)
Example comment_crashes :
  (forge_webhook id example_orgs 0 (at_ns 9) hook_config site_hooks "gitea" "acme" "gitea" (hook_request "issue_comment" "comment")).2
    = Answer (empty_response "comment") /\
  parse_gradient_command "Vielen fürs Review" = Panics.
Proof. split; vm_compute; reflexivity. Qed.
