(* ===== verification/NixHash.v ===== *)
(** * Hashes of NARs

    [backend/gradient-util/src/nix_hash.rs]: the base-32 of Nix and the one form hashes are
    kept in; and [backend/gradient-storage/src/digest.rs]: comparing stored bytes with the
    hash and size a worker reported.

    SHA-256 and Base64 are third-party code. A digest is a list of bytes. *)

From S2P Require Import Prelude RustStr RustText.

Local Open Scope Z_scope.

(** [Sha256::digest] and the standard Base64 engine. *)
Class Digests := {
  sha256_digest : string -> list Z;
  base64_encode : list Z -> string;
  base64_of : string -> option (list Z);
  sha256_length s : length (sha256_digest s) = 32%nat;
  sha256_bytes s : Forall (fun b => 0 <= b < 256) (sha256_digest s);
  base64_bytes s bs : base64_of s = Some bs -> Forall (fun b => 0 <= b < 256) bs;
  base64_text bs : all_chars (in_range 33 126) (base64_encode bs) = true;
  base64_of_encode bs : Forall (fun b => 0 <= b < 256) bs -> base64_of (base64_encode bs) = Some bs;
}.

(** ** Base 32 *)

Definition NIX32_CHARS : string := "0123456789abcdfghijklmnpqrsvwxyz".

Definition is_nix32_hash (s : string) : bool :=
  Nat.eqb (String.length s) 32 && all_chars (fun c => contains_char c NIX32_CHARS) s.

(** [CHARS[c]], of a number below 32. *)
Definition nix32_char (c : Z) : ascii := default "0"%char (String.get (Z.to_nat c) NIX32_CHARS).

(** How many characters [n] bytes take. *)
Definition nix32_len (n : nat) : nat := Z.to_nat ((Z.of_nat n * 8 - 1) / 5 + 1).

Definition byte_at (bytes : list Z) (i : Z) : Z := default 0 (bytes !! Z.to_nat i).

Definition nix32_digit (bytes : list Z) (n : Z) : Z :=
  let b := n * 5 in
  let i := b / 8 in
  let j := b mod 8 in
  Z.land (Z.lor (Z.shiftr (byte_at bytes i) j) (Z.shiftl (byte_at bytes (i + 1)) (8 - j))) 31.

Fixpoint digits_below (bytes : list Z) (len : nat) : string :=
  match len with
  | O => ""
  | S n => String (nix32_char (nix32_digit bytes (Z.of_nat n))) (digits_below bytes n)
  end.

(** The most significant digit first. *)
Definition nix32_encode (bytes : list Z) : string := digits_below bytes (nix32_len (length bytes)).

(** ** The canonical form *)

Definition HASH_ALGOS : list string := ["sha256"; "blake3"].

Definition hex_value (c : ascii) : option Z :=
  let n := Z.of_nat (nat_of_ascii c) in
  if in_range 48 57 c then Some (n - 48)
  else if in_range 97 102 c then Some (n - 87)
  else if in_range 65 70 c then Some (n - 55)
  else None.

(** [u8::from_str_radix] on every pair of characters. *)
Fixpoint hex_bytes (s : string) : option (list Z) :=
  match s with
  | String a (String b s) => a ← hex_value a; b ← hex_value b; rest ← hex_bytes s; Some (a * 16 + b :: rest)
  | String _ EmptyString => None
  | EmptyString => Some []
  end.

Definition is_hex_digest (s : string) : bool := Nat.eqb (String.length s) 64 && all_chars is_ascii_hexdigit s.

Definition canonical (algo : string) (bytes : list Z) : string := (algo +:+ ":" +:+ nix32_encode bytes)%string.

Section hashes.
Context `{DG : Digests}.

Definition normalize_sri (hash algo : string) : option string :=
  rest ← strip_prefix (algo +:+ "-")%string hash;
  bytes ← base64_of rest;
  if Nat.eqb (length bytes) 32 then Some (canonical algo bytes) else None.

Definition normalize_prefixed (hash algo : string) : option string :=
  rest ← strip_prefix (algo +:+ ":")%string hash;
  Some (if is_hex_digest rest
        then match hex_bytes rest with Some bytes => canonical algo bytes | None => hash end
        else hash).

Definition first_some {A B} (f : A -> option B) (l : list A) : option B := head (omap f l).

Definition normalize_nar_hash (hash : string) : string :=
  match first_some (normalize_sri hash) HASH_ALGOS with
  | Some h => h
  | None =>
      match first_some (normalize_prefixed hash) HASH_ALGOS with
      | Some h => h
      | None =>
          if is_hex_digest hash
          then match hex_bytes hash with Some bytes => canonical "sha256" bytes | None => hash end
          else hash
      end
  end.

Definition strip_hash_algo (hash : string) : string :=
  default hash (first_some (fun algo => strip_prefix (algo +:+ ":")%string hash) HASH_ALGOS).

(** ** Verifying stored bytes ([digest.rs]) *)

Inductive VerifyError :=
| VMissing
| VSize (expected actual : Z)
| VHash (expected computed : string)
| VStore.

Definition file_hash_sri (bytes : string) : string := ("sha256-" +:+ base64_encode (sha256_digest bytes))%string.

Definition verify_nar_bytes (bytes expected_file_hash : string) (expected_size : Z) : result () VerifyError :=
  let actual := Z.of_nat (String.length bytes) in
  if negb (actual =? expected_size) then Err (VSize expected_size actual)
  else
    let expected := normalize_nar_hash expected_file_hash in
    if starts_with expected "sha256:" then
      let computed := normalize_nar_hash (file_hash_sri bytes) in
      if String.eqb computed expected then Ok tt else Err (VHash expected computed)
    else Ok tt.

(** [chunks] is what each read of the file returned. *)
Definition verify_nar_reader (chunks : list string) (expected_file_hash : string) (expected_size : Z)
    : result () VerifyError :=
  let expected := normalize_nar_hash expected_file_hash in
  let total := foldl (fun n c => n + Z.of_nat (String.length c)) 0 chunks in
  if negb (total =? expected_size) then Err (VSize expected_size total)
  else if starts_with expected "sha256:" then
    let computed := normalize_nar_hash (file_hash_sri (String.concat "" chunks)) in
    if String.eqb computed expected then Ok tt else Err (VHash expected computed)
  else Ok tt.

End hashes.

(** ** Base 32 reads the bits *)

Definition is_byte (b : Z) : Prop := 0 <= b < 256.

Lemma byte_at_range bytes i : Forall is_byte bytes -> is_byte (byte_at bytes i).
Proof.
  intros Hb. unfold byte_at. destruct (bytes !! Z.to_nat i) as [b|] eqn:E; simpl; [|unfold is_byte; lia].
  by eapply (Forall_lookup_1 _ _ _ _ Hb).
Qed.

Lemma byte_high b k : is_byte b -> 8 <= k -> Z.testbit b k = false.
Proof.
  intros Hb Hk. apply Z.bits_above_log2; [unfold is_byte in Hb; lia|].
  destruct (Z.eq_dec b 0) as [->|Hne]; [simpl; lia|].
  assert (Z.log2 b < 8); [|lia]. apply Z.log2_lt_pow2; unfold is_byte in Hb; lia.
Qed.

(** Bit [m] of the bytes, the first byte first and the lowest bit of each first. *)
Definition bit_at (bytes : list Z) (m : Z) : bool := Z.testbit (byte_at bytes (m / 8)) (m mod 8).

Lemma digit_bits bytes n k :
  Forall is_byte bytes -> 0 <= n -> 0 <= k < 5 -> Z.testbit (nix32_digit bytes n) k = bit_at bytes (n * 5 + k).
Proof.
  intros Hb Hn Hk. unfold nix32_digit, bit_at. set (b := n * 5). pose proof (Z.div_mod b 8 ltac:(lia)) as Hdm.
  pose proof (Z.mod_pos_bound b 8 ltac:(lia)) as Hm. set (i := b / 8) in *. set (j := b mod 8) in *.
  rewrite Z.land_spec, Z.lor_spec, Z.shiftr_spec by lia. rewrite Z.shiftl_spec by lia.
  replace (Z.testbit 31 k) with true; [|by destruct (decide (k = 0)) as [->|]; [done|]; change 31 with (Z.ones 5); rewrite Z.ones_spec_low by lia].
  rewrite andb_true_r. destruct (Z.lt_ge_cases (j + k) 8) as [Hlt|Hge].
  - rewrite (Z.testbit_neg_r _ (k - (8 - j))) by lia. rewrite orb_false_r.
    replace ((b + k) / 8) with i by (apply (Z.div_unique _ _ _ (j + k)); lia).
    replace ((b + k) mod 8) with (j + k) by (apply (Z.mod_unique _ _ i); lia). f_equal. lia.
  - rewrite byte_high by (by apply byte_at_range || lia). simpl.
    replace ((b + k) / 8) with (i + 1) by (apply (Z.div_unique _ _ _ (j + k - 8)); lia).
    replace ((b + k) mod 8) with (j + k - 8) by (apply (Z.mod_unique _ _ (i + 1)); lia). f_equal. lia.
Qed.

Lemma digit_range bytes n : 0 <= nix32_digit bytes n < 32.
Proof.
  unfold nix32_digit. change 31 with (Z.ones 5). rewrite Z.land_ones by lia. apply Z.mod_pos_bound. lia.
Qed.

Lemma nix32_char_inj a b : 0 <= a < 32 -> 0 <= b < 32 -> nix32_char a = nix32_char b -> a = b.
Proof.
  intros Ha Hb Heq.
  assert (Hall : forallb (fun a => forallb (fun b => negb (Ascii.eqb (nix32_char a) (nix32_char b)) || (a =? b))
    (map Z.of_nat (seq 0 32))) (map Z.of_nat (seq 0 32)) = true) by (vm_compute; reflexivity).
  assert (Hin : forall x, 0 <= x < 32 -> In x (map Z.of_nat (seq 0 32))).
  { intros x Hx. apply in_map_iff. exists (Z.to_nat x). split; [lia|]. apply in_seq. lia. }
  rewrite forallb_forall in Hall. specialize (Hall a (Hin a Ha)). rewrite forallb_forall in Hall. specialize (Hall b (Hin b Hb)).
  rewrite Heq, Ascii.eqb_refl in Hall. simpl in Hall. lia.
Qed.

Lemma nix32_char_valid c : 0 <= c < 32 -> contains_char (nix32_char c) NIX32_CHARS = true.
Proof.
  intros Hc. assert (Hall : forallb (fun c => contains_char (nix32_char c) NIX32_CHARS) (map Z.of_nat (seq 0 32)) = true)
    by (vm_compute; reflexivity).
  rewrite forallb_forall in Hall. apply Hall, in_map_iff. exists (Z.to_nat c). split; [lia|]. apply in_seq. lia.
Qed.

Lemma digits_below_length bytes len : String.length (digits_below bytes len) = len.
Proof. induction len as [|len IH]; [done|]. cbn [digits_below String.length]. by rewrite IH. Qed.

Lemma digits_below_valid bytes len : all_chars (fun c => contains_char c NIX32_CHARS) (digits_below bytes len) = true.
Proof.
  induction len as [|len IH]; [done|]. cbn [digits_below all_chars]. by rewrite nix32_char_valid, IH by apply digit_range.
Qed.

Lemma digits_below_inj bytes1 bytes2 len :
  digits_below bytes1 len = digits_below bytes2 len ->
  forall n, (n < len)%nat -> nix32_digit bytes1 (Z.of_nat n) = nix32_digit bytes2 (Z.of_nat n).
Proof.
  induction len as [|len IH]; [lia|]. cbn [digits_below]. intros [= Hc Hrest] n Hn.
  destruct (decide (n = len)) as [->|Hne]; [|apply IH; [done|lia]]. by apply nix32_char_inj; try apply digit_range.
Qed.

(** Bytes are their bits. *)
Lemma bytes_of_bits bytes1 bytes2 :
  Forall is_byte bytes1 -> Forall is_byte bytes2 -> length bytes1 = length bytes2 ->
  (forall m, 0 <= m < Z.of_nat (length bytes1) * 8 -> bit_at bytes1 m = bit_at bytes2 m) -> bytes1 = bytes2.
Proof.
  intros H1 H2 Hlen Hbits. apply list_eq. intros i. destruct (decide (i < length bytes1)%nat) as [Hi|Hi].
  - destruct (lookup_lt_is_Some_2 bytes1 i Hi) as [a Ha]. destruct (lookup_lt_is_Some_2 bytes2 i ltac:(lia)) as [b Hb].
    rewrite Ha, Hb. f_equal. pose proof (Forall_lookup_1 _ _ _ _ H1 Ha) as Ra. pose proof (Forall_lookup_1 _ _ _ _ H2 Hb) as Rb.
    apply Z.bits_inj'. intros k Hk. destruct (Z.lt_ge_cases k 8) as [Hk8|Hk8]; [|by rewrite !byte_high].
    specialize (Hbits (Z.of_nat i * 8 + k) ltac:(lia)). unfold bit_at in Hbits.
    replace ((Z.of_nat i * 8 + k) / 8) with (Z.of_nat i) in Hbits by (apply (Z.div_unique _ _ _ k); lia).
    replace ((Z.of_nat i * 8 + k) mod 8) with k in Hbits by (apply (Z.mod_unique _ _ (Z.of_nat i)); lia).
    unfold byte_at in Hbits. rewrite Nat2Z.id, Ha, Hb in Hbits. exact Hbits.
  - rewrite !lookup_ge_None_2 by lia. done.
Qed.

(** The encoding loses nothing, so hashes that read the same are the same digest. *)
Lemma nix32_encode_inj bytes1 bytes2 :
  Forall is_byte bytes1 -> Forall is_byte bytes2 -> length bytes1 = length bytes2 -> bytes1 <> [] ->
  nix32_encode bytes1 = nix32_encode bytes2 -> bytes1 = bytes2.
Proof.
  intros H1 H2 Hlen Hne Heq. apply bytes_of_bits; [done..|]. intros m Hm. unfold nix32_encode in Heq. rewrite Hlen in Heq.
  set (len := nix32_len (length bytes2)) in *.
  assert (Hcov : Z.of_nat (length bytes2) * 8 <= Z.of_nat len * 5).
  { unfold len, nix32_len. destruct bytes2 as [|b bytes2]; [by destruct bytes1|]. cbn [length].
    pose proof (Z.div_mod (Z.of_nat (S (length bytes2)) * 8 - 1) 5 ltac:(lia)).
    pose proof (Z.mod_pos_bound (Z.of_nat (S (length bytes2)) * 8 - 1) 5 ltac:(lia)). lia. }
  pose proof (Z.div_mod m 5 ltac:(lia)) as Hdm. pose proof (Z.mod_pos_bound m 5 ltac:(lia)) as Hmod.
  assert (Hd : nix32_digit bytes1 (m / 5) = nix32_digit bytes2 (m / 5)).
  { rewrite <- (Z2Nat.id (m / 5)) by lia. eapply digits_below_inj; [exact Heq|]. lia. }
  replace m with (m / 5 * 5 + m mod 5) by lia. rewrite <- !digit_bits by (done || lia). by rewrite Hd.
Qed.

Lemma nix32_encode_length bytes : length bytes = 32%nat -> String.length (nix32_encode bytes) = 52%nat.
Proof. intros H. unfold nix32_encode. by rewrite digits_below_length, H. Qed.

Lemma nix32_encode_nil_free bytes : length bytes = 32%nat -> is_hex_digest (nix32_encode bytes) = false.
Proof. intros H. unfold is_hex_digest. by rewrite nix32_encode_length. Qed.

Lemma hex_value_range c v : hex_value c = Some v -> 0 <= v < 16.
Proof.
  unfold hex_value, in_range.
  destruct (_ && _) eqn:E1; [|destruct (_ && _) eqn:E2 in |- *; [|destruct (_ && _) eqn:E3 in |- *; [|done]]]; intros [= <-];
    match goal with E : _ && _ = true |- _ => apply andb_true_iff in E as [?%Nat.leb_le ?%Nat.leb_le] end; lia.
Qed.

Lemma hex_bytes_valid : forall n s bytes, (String.length s <= n)%nat -> hex_bytes s = Some bytes ->
  Forall is_byte bytes /\ String.length s = (2 * length bytes)%nat.
Proof.
  induction n as [|n IH]; intros s bytes Hn; [destruct s; simpl in *; [by intros [= <-]|lia]|].
  destruct s as [|a [|b s]]; [by intros [= <-]|done|]. cbn [hex_bytes].
  destruct (hex_value a) as [x|] eqn:Ha; [|done]. destruct (hex_value b) as [y|] eqn:Hb; [|done]. simpl.
  destruct (hex_bytes s) as [rest|] eqn:Hs; [|done]. intros [= <-]. simpl in Hn.
  destruct (IH s rest ltac:(lia) Hs) as [Hf Hl]. apply hex_value_range in Ha, Hb. split; [constructor; [unfold is_byte; lia|done]|].
  simpl. lia.
Qed.

Lemma hex_digest_bytes s bytes : is_hex_digest s = true -> hex_bytes s = Some bytes -> Forall is_byte bytes /\ length bytes = 32%nat.
Proof.
  unfold is_hex_digest. intros [Hl%Nat.eqb_eq _]%andb_true_iff Hb. destruct (hex_bytes_valid (String.length s) s bytes) as [Hf Hl2]; [lia|done|].
  split; [done|lia].
Qed.

Section hash_facts.
Context `{DG : Digests}.

Definition digest_ok (bytes : list Z) : Prop := Forall is_byte bytes /\ length bytes = 32%nat.

(** What a text says about a digest: every spelling the code reads. *)
Inductive names : string -> string -> list Z -> Prop :=
| names_sri algo rest bytes :
    algo ∈ HASH_ALGOS -> base64_of rest = Some bytes -> length bytes = 32%nat -> names (algo +:+ "-" +:+ rest)%string algo bytes
| names_hex algo rest bytes :
    algo ∈ HASH_ALGOS -> is_hex_digest rest = true -> hex_bytes rest = Some bytes -> names (algo +:+ ":" +:+ rest)%string algo bytes
| names_bare rest bytes : is_hex_digest rest = true -> hex_bytes rest = Some bytes -> names rest "sha256" bytes
| names_nix32 algo bytes : algo ∈ HASH_ALGOS -> digest_ok bytes -> names (canonical algo bytes) algo bytes.

Lemma algo_cases algo : algo ∈ HASH_ALGOS -> algo = "sha256"%string \/ algo = "blake3"%string.
Proof. unfold HASH_ALGOS. set_solver. Qed.

Lemma not_hex_head c s : is_ascii_hexdigit c = false -> is_hex_digest (String c s) = false.
Proof. intros H. unfold is_hex_digest. simpl. by rewrite H, andb_false_r. Qed.

(** A character that is no digit, somewhere in the text. *)
Lemma bare_hex_inner rest p q c t :
  is_hex_digest rest = true -> p = (q ++ String c t)%string -> is_ascii_hexdigit c = false -> strip_prefix p rest = None.
Proof.
  intros Hh -> Hc. apply strip_prefix_None. intros r ->. unfold is_hex_digest in Hh. apply andb_true_iff in Hh as [_ Hh].
  rewrite !all_chars_app in Hh. simpl in Hh. rewrite Hc in Hh. simpl in Hh. by rewrite andb_false_r in Hh.
Qed.

Lemma names_ok h algo bytes : names h algo bytes -> digest_ok bytes /\ algo ∈ HASH_ALGOS.
Proof.
  intros []; split; try done.
  - split; [by eapply base64_bytes|done].
  - by eapply hex_digest_bytes.
  - by eapply hex_digest_bytes.
  - by left.
Qed.

Lemma canonical_stable algo bytes : algo ∈ HASH_ALGOS -> length bytes = 32%nat ->
  normalize_nar_hash (canonical algo bytes) = canonical algo bytes.
Proof.
  intros Ha Hl. unfold normalize_nar_hash, normalize_sri, normalize_prefixed, canonical, first_some, HASH_ALGOS.
  destruct (algo_cases algo Ha) as [->| ->]; lazy -[nix32_encode is_hex_digest hex_bytes].
  1-2: by rewrite nix32_encode_nil_free.
Qed.

Lemma normalize_names h algo bytes : names h algo bytes -> normalize_nar_hash h = canonical algo bytes.
Proof.
  intros [algo' rest bytes' Ha Hb Hl|algo' rest bytes' Ha Hh Hb|rest bytes' Hh Hb|algo' bytes' Ha [_ Hl]]; [| | |by apply canonical_stable].
  - unfold normalize_nar_hash, normalize_sri, first_some, HASH_ALGOS.
    destruct (algo_cases algo' Ha) as [->| ->]; lazy -[canonical Nat.eqb base64_of is_hex_digest hex_bytes length]; rewrite Hb; by rewrite Hl.
  - unfold normalize_nar_hash, normalize_sri, normalize_prefixed, first_some, HASH_ALGOS.
    destruct (algo_cases algo' Ha) as [->| ->]; lazy -[canonical is_hex_digest hex_bytes base64_of Nat.eqb length]; by rewrite Hh, Hb.
  - assert (Hsri : first_some (normalize_sri rest) HASH_ALGOS = None).
    { unfold first_some, normalize_sri, HASH_ALGOS. cbn [omap list_omap].
      rewrite (bare_hex_inner rest _ "" "s" "ha256-"), (bare_hex_inner rest _ "b" "l" "ake3-") by done. done. }
    assert (Hpre : first_some (normalize_prefixed rest) HASH_ALGOS = None).
    { unfold first_some, normalize_prefixed, HASH_ALGOS. cbn [omap list_omap].
      rewrite (bare_hex_inner rest _ "" "s" "ha256:"), (bare_hex_inner rest _ "b" "l" "ake3:") by done. done. }
    unfold normalize_nar_hash. by rewrite Hsri, Hpre, Hh, Hb.
Qed.

Lemma first_some_Some {A B} (f : A -> option B) l b : first_some f l = Some b -> exists a, a ∈ l /\ f a = Some b.
Proof.
  unfold first_some. intros H. assert (Hb : b ∈ omap f l) by (destruct (omap f l); [done|]; simpl in H; simplify_eq; by left).
  apply list_elem_of_omap in Hb as (a & Ha & Hf). by exists a.
Qed.

(** What is no digest is left alone. *)
Lemma normalize_cases h : normalize_nar_hash h = h \/ exists algo bytes, names h algo bytes.
Proof.
  unfold normalize_nar_hash. destruct (first_some (normalize_sri h) HASH_ALGOS) as [x|] eqn:E1.
  { apply first_some_Some in E1 as (algo & Ha & E). unfold normalize_sri in E. apply bind_Some in E as (rest & Hp%strip_prefix_Some & E).
    apply bind_Some in E as (bytes & Hb & E). destruct (Nat.eqb_spec (length bytes) 32); [|done]. right. exists algo, bytes.
    rewrite Hp, string_app_assoc. by constructor. }
  destruct (first_some (normalize_prefixed h) HASH_ALGOS) as [x|] eqn:E2.
  { apply first_some_Some in E2 as (algo & Ha & E). unfold normalize_prefixed in E. apply bind_Some in E as (rest & Hp%strip_prefix_Some & [= <-]).
    destruct (is_hex_digest rest) eqn:Eh; [|by left]. destruct (hex_bytes rest) as [bytes|] eqn:Eb; [|by left]. right. exists algo, bytes.
    rewrite Hp, string_app_assoc. by apply names_hex. }
  destruct (is_hex_digest h) eqn:Eh; [|by left]. destruct (hex_bytes h) as [bs|] eqn:Eb; [|by left].
  right. exists "sha256"%string, bs. by apply names_bare.
Qed.

Lemma normalize_idempotent h : normalize_nar_hash (normalize_nar_hash h) = normalize_nar_hash h.
Proof.
  destruct (normalize_cases h) as [Heq|(algo & bytes & Hn)]; [by rewrite !Heq|].
  rewrite (normalize_names _ _ _ Hn). apply names_ok in Hn as [[_ Hl] Ha]. by apply canonical_stable.
Qed.

Lemma canonical_inj a1 b1 a2 b2 :
  a1 ∈ HASH_ALGOS -> a2 ∈ HASH_ALGOS -> digest_ok b1 -> digest_ok b2 -> canonical a1 b1 = canonical a2 b2 -> a1 = a2 /\ b1 = b2.
Proof.
  intros H1 H2 [Hf1 Hl1] [Hf2 Hl2]. destruct (algo_cases _ H1) as [->| ->], (algo_cases _ H2) as [->| ->]; unfold canonical; intros Heq;
    try discriminate Heq; (split; [done|]); simplify_eq; apply nix32_encode_inj; try done; try congruence; by destruct b1.
Qed.

Lemma sha256_ok s : digest_ok (sha256_digest s).
Proof. split; [apply sha256_bytes|apply sha256_length]. Qed.

Lemma sri_names s : names (file_hash_sri s) "sha256" (sha256_digest s).
Proof. apply (names_sri "sha256"); [by left|apply base64_of_encode, sha256_bytes|apply sha256_length]. Qed.

Lemma verify_spec bytes hash size :
  verify_nar_bytes bytes hash size = Ok tt <->
  Z.of_nat (String.length bytes) = size /\
  (starts_with (normalize_nar_hash hash) "sha256:" = true -> normalize_nar_hash hash = canonical "sha256" (sha256_digest bytes)).
Proof.
  unfold verify_nar_bytes. rewrite (normalize_names _ _ _ (sri_names bytes)).
  destruct (Z.eqb_spec (Z.of_nat (String.length bytes)) size) as [Hs|Hs]; cbn [negb]; [|naive_solver].
  destruct (starts_with _ _); [|naive_solver]. destruct (String.eqb_spec (canonical "sha256" (sha256_digest bytes)) (normalize_nar_hash hash)); naive_solver.
Qed.

Lemma verify_reader_spec chunks hash size :
  verify_nar_reader chunks hash size = verify_nar_bytes (String.concat "" chunks) hash size.
Proof.
  unfold verify_nar_reader, verify_nar_bytes.
  assert (Hf : forall l n, foldl (fun n c => n + Z.of_nat (String.length c)) n l = n + Z.of_nat (String.length (String.concat "" l))).
  { induction l as [|c l IH]; intros n; [simpl; lia|]. cbn [foldl]. rewrite IH. destruct l as [|d l]; [simpl; lia|].
    change (String.concat "" (c :: d :: l)) with (c ++ String.concat "" (d :: l))%string. rewrite string_length_app. lia. }
  by rewrite Hf.
Qed.

(** C40. A text that names a SHA-256 digest, in whichever of the four spellings, verifies exactly
    the bytes of that digest and that size, read in whatever pieces; and two texts are kept
    in the same form exactly when they name the same digest of the same algorithm. *)
Theorem hash_verify_exact hash algo digest :
  names hash algo digest ->
  (forall chunks size, algo = "sha256"%string ->
     verify_nar_reader chunks hash size = Ok tt <->
     Z.of_nat (String.length (String.concat "" chunks)) = size /\ sha256_digest (String.concat "" chunks) = digest) /\
  (forall hash' algo' digest', names hash' algo' digest' ->
     normalize_nar_hash hash = normalize_nar_hash hash' <-> algo = algo' /\ digest = digest') /\
  normalize_nar_hash (normalize_nar_hash hash) = normalize_nar_hash hash.
Proof.
  intros Hn. pose proof (names_ok _ _ _ Hn) as [Hok Ha]. split_and!.
  - intros chunks size ->. rewrite verify_reader_spec, verify_spec, (normalize_names _ _ _ Hn).
    split; intros [Hs Hh]; (split; [done|]); [|by rewrite Hh].
    symmetry. by apply (canonical_inj "sha256" digest "sha256"); [by left|by left|done|apply sha256_ok|apply Hh].
  - intros hash' algo' digest' Hn'. rewrite (normalize_names _ _ _ Hn), (normalize_names _ _ _ Hn').
    apply names_ok in Hn' as [Hok' Ha']. split; [by apply canonical_inj|by intros [-> ->]].
  - apply normalize_idempotent.
Qed.

End hash_facts.

(** The vectors of the unit tests. *)
Example nix32_vectors :
  nix32_encode [227; 176; 196; 66; 152; 252; 28; 20; 154; 251; 244; 200; 153; 111; 185; 36; 39; 174; 65; 228; 100; 155; 147;
    76; 164; 149; 153; 27; 120; 82; 184; 85] = "0mdqa9w1p6cmli6976v4wi0sw9r4p5prkj7lzfd1877wk11c9c73"%string /\
  nix32_encode (repeat 0 32) = "0000000000000000000000000000000000000000000000000000"%string.
Proof. split; vm_compute; reflexivity. Qed.
