(* ===== verification/CacheRows.v ===== *)
(** * The rows of a binary cache

    What an uploaded NAR leaves in the database and how its signature gets there:
    [ingest.rs] and [signing.rs] of [backend/gradient-proto/src/], the recording half of
    [handler/nar.rs], the keys of [backend/gradient-sources/src/cache_key/], and the sweep of
    [backend/gradient-cache/src/cacher/sign_sweep.rs].

    Ed25519, the cipher of the stored keys and the clock are third-party code: the class
    [Signing]. A table is the list of its rows; [producers] and [built_for] stand for the
    joins from outputs to projects and from derivations to subscribed caches. A database
    that answers with an error is not modelled, except for the lost insert. *)

From stdpp Require Import pretty.
From S2P Require Import Prelude RustStr RustText StorePath NixHash.

Local Open Scope Z_scope.

Class Signing := {
  SecretKey : Type;
  PublicKey : Type;
  load_secret_bytes : string -> option string;
  decrypt_with_password : string -> list Z -> option (list Z);
  from_utf8 : list Z -> option string;
  secret_from_slice : list Z -> option SecretKey;
  public_from_slice : list Z -> option PublicKey;
  signature_from_slice : list Z -> option (list Z);
  sk_sign : SecretKey -> string -> list Z;
  pk_verify : PublicKey -> string -> list Z -> bool;
  sk_public : SecretKey -> PublicKey;
  (* A secret key is the seed followed by the public key. *)
  secret_tail bs sk : secret_from_slice bs = Some sk ->
    (length bs = 64)%nat /\ Forall is_byte bs /\ public_from_slice (drop (length bs - 32) bs) = Some (sk_public sk);
  sign_bytes sk m : Forall is_byte (sk_sign sk m);
  sign_slice sk m : signature_from_slice (sk_sign sk m) = Some (sk_sign sk m);
  sign_verifies sk m : pk_verify (sk_public sk) m (sk_sign sk m) = true;
}.

(** ** Keys ([format.rs], [narinfo.rs], [signing.rs]) *)

Record CacheRow := { ca_id : Z; ca_name : string; ca_private_key : string; ca_public_key : string }.

Inductive SourceError := FileRead | CacheKeyDecoding (cache : string) | PrivateKeyDecryption | KeyUtf8Conversion | KeyPairConversion.

Definition or_err {A E} (o : option A) (e : E) : result A E := match o with Some a => Ok a | None => Err e end.

(** [str::replace]. *)
Fixpoint replace_fuel (fuel : nat) (from to s : string) : string :=
  match fuel, s with
  | _, EmptyString => EmptyString
  | O, _ => s
  | S fuel, String c rest =>
      match strip_prefix from s with
      | Some r => to +:+ replace_fuel fuel from to r
      | None => String c (replace_fuel fuel from to rest)
      end
  end.

Definition replace_all (from to s : string) : string := replace_fuel (String.length s) from to s.

Definition cache_key_host (serve_url : string) : string :=
  replace_all ":" "-" (replace_all "http://" "" (replace_all "https://" "" serve_url)).

Definition key_name (url name : string) : string := (cache_key_host url +:+ "-" +:+ name)%string.

Definition full_ref (r : string) : string := if starts_with r "/nix/store/" then r else ("/nix/store/" +:+ r)%string.

(** [sort] of strings, by bytes. *)
Definition fingerprint (store_path nar_hash nar_size : string) (references : list string) : string :=
  ("1;" +:+ store_path +:+ ";" +:+ nar_hash +:+ ";" +:+ nar_size +:+ ";"
   +:+ join_with "," (sort_by String.compare (map full_ref references)))%string.

Section keys.
Context `{DG : Digests} `{SG : Signing}.

Definition full_signature_token (sig : list Z) (serve_url cache_name : string) : string :=
  (key_name serve_url cache_name +:+ ":" +:+ base64_encode sig)%string.

Definition decrypt_signing_key (secret_file : string) (cache : CacheRow) : result string SourceError :=
  let? secret := or_err (load_secret_bytes secret_file) FileRead in
  let? encrypted := or_err (base64_of (ca_private_key cache)) (CacheKeyDecoding (ca_name cache)) in
  let? plain := or_err (decrypt_with_password secret encrypted) PrivateKeyDecryption in
  or_err (from_utf8 plain) KeyUtf8Conversion.

Definition format_cache_public_key (secret_file : string) (cache : CacheRow) (url : string) : result string SourceError :=
  let? pub := (if String.eqb (ca_public_key cache) ""
    then let? key := decrypt_signing_key secret_file cache in
         let? bs := or_err (base64_of (trim key)) (CacheKeyDecoding (ca_name cache)) in
         if Nat.ltb (length bs) 32 then Err KeyPairConversion
         else Ok (base64_encode (drop (length bs - 32) bs))
    else Ok (ca_public_key cache)) in
  Ok (key_name url (ca_name cache) +:+ ":" +:+ pub)%string.

Definition format_cache_key (secret_file : string) (cache : CacheRow) (url : string) : result string SourceError :=
  let? key := decrypt_signing_key secret_file cache in
  Ok (key_name url (ca_name cache) +:+ ":" +:+ trim key)%string.

Record CacheSigner := { cs_secret_key : SecretKey; cs_cache_name : string; cs_base_url : string }.

Definition from_cache (secret_file : string) (cache : CacheRow) (serve_url : string) : result CacheSigner SourceError :=
  let? key := decrypt_signing_key secret_file cache in
  let? bs := or_err (base64_of (trim key)) (CacheKeyDecoding (ca_name cache)) in
  let? sk := or_err (secret_from_slice bs) KeyPairConversion in
  Ok {| cs_secret_key := sk; cs_cache_name := ca_name cache; cs_base_url := cache_key_host serve_url |}.

Definition sign_narinfo_raw (s : CacheSigner) (store_path nar_hash : string) (nar_size : Z) (references : list string) : list Z :=
  sk_sign (cs_secret_key s) (fingerprint store_path nar_hash (pretty nar_size) references).

Definition sign_narinfo (s : CacheSigner) (store_path nar_hash : string) (nar_size : Z) (references : list string) : string :=
  (cs_base_url s +:+ "-" +:+ cs_cache_name s +:+ ":" +:+ base64_encode (sign_narinfo_raw s store_path nar_hash nar_size references))%string.

Definition sign_narinfo_fingerprint (secret_file : string) (cache : CacheRow) (serve_url store_path nar_hash : string)
    (nar_size : Z) (references : list string) : result string SourceError :=
  let? signer := from_cache secret_file cache serve_url in
  Ok (sign_narinfo signer store_path nar_hash nar_size references).

End keys.

(** ** Rows *)

Record CachedPath := {
  kp_id : Z;
  kp_hash : string;
  kp_package : string;
  kp_file_hash : option string;
  kp_file_size : option Z;
  kp_nar_size : option Z;
  kp_nar_hash : option string;
  kp_deriver : option string;
  kp_ca : option string;
}.

Record SignatureRow := { sg_cached_path : Z; sg_cache : Z; sg_signature : option (list Z) }.

Record ReferenceRow := { rf_referrer : string; rf_reference : string; rf_reference_hash : string; rf_position : Z }.

Record OutputRow := {
  ou_derivation : Z;
  ou_hash : string;
  ou_package : string;
  ou_is_cached : bool;
  ou_cached_path : option Z;
}.

(** A project that built the output of a hash: its [sign_cache] flag and name. *)
Record Producer := { pr_hash : string; pr_sign_cache : bool; pr_name : string }.

Record MetricRow := { me_cache : Z; me_bucket : Z; me_bytes_sent : Z; me_nar_count : Z }.

Record CacheDb := {
  cached_paths : list CachedPath;
  signatures : list SignatureRow;
  path_references : list ReferenceRow;
  outputs : list OutputRow;
  caches : list CacheRow;
  subscriptions : list (Z * Z);
  producers : list Producer;
  metrics : list MetricRow;
  dependencies : list (Z * Z);
  built_for : list (Z * Z);
  cache_derivations : list (Z * Z);
}.

Definition with_paths (db : CacheDb) (l : list CachedPath) : CacheDb := {|
  cached_paths := l; signatures := signatures db; path_references := path_references db; outputs := outputs db;
  caches := caches db; subscriptions := subscriptions db; producers := producers db; metrics := metrics db;
  dependencies := dependencies db; built_for := built_for db; cache_derivations := cache_derivations db |}.

Definition with_signatures (db : CacheDb) (l : list SignatureRow) : CacheDb := {|
  cached_paths := cached_paths db; signatures := l; path_references := path_references db; outputs := outputs db;
  caches := caches db; subscriptions := subscriptions db; producers := producers db; metrics := metrics db;
  dependencies := dependencies db; built_for := built_for db; cache_derivations := cache_derivations db |}.

Definition with_references (db : CacheDb) (l : list ReferenceRow) : CacheDb := {|
  cached_paths := cached_paths db; signatures := signatures db; path_references := l; outputs := outputs db;
  caches := caches db; subscriptions := subscriptions db; producers := producers db; metrics := metrics db;
  dependencies := dependencies db; built_for := built_for db; cache_derivations := cache_derivations db |}.

Definition with_outputs (db : CacheDb) (l : list OutputRow) : CacheDb := {|
  cached_paths := cached_paths db; signatures := signatures db; path_references := path_references db; outputs := l;
  caches := caches db; subscriptions := subscriptions db; producers := producers db; metrics := metrics db;
  dependencies := dependencies db; built_for := built_for db; cache_derivations := cache_derivations db |}.

Definition with_metrics (db : CacheDb) (l : list MetricRow) : CacheDb := {|
  cached_paths := cached_paths db; signatures := signatures db; path_references := path_references db; outputs := outputs db;
  caches := caches db; subscriptions := subscriptions db; producers := producers db; metrics := l;
  dependencies := dependencies db; built_for := built_for db; cache_derivations := cache_derivations db |}.

Definition with_cache_derivations (db : CacheDb) (l : list (Z * Z)) : CacheDb := {|
  cached_paths := cached_paths db; signatures := signatures db; path_references := path_references db; outputs := outputs db;
  caches := caches db; subscriptions := subscriptions db; producers := producers db; metrics := metrics db;
  dependencies := dependencies db; built_for := built_for db; cache_derivations := l |}.

(** [.one()] of a query by the unique hash. *)
Definition find_path (db : CacheDb) (hash : string) : option CachedPath :=
  List.find (fun r => String.eqb (kp_hash r) hash) (cached_paths db).

Definition path_by_id (db : CacheDb) (id : Z) : option CachedPath :=
  List.find (fun r => kp_id r =? id) (cached_paths db).

Definition find_signature (db : CacheDb) (path cache : Z) : option SignatureRow :=
  List.find (fun s => (sg_cached_path s =? path) && (sg_cache s =? cache)) (signatures db).

Definition find_cache (db : CacheDb) (id : Z) : option CacheRow := List.find (fun c => ca_id c =? id) (caches db).

(** Adds the rows whose key is not taken: [ON CONFLICT DO NOTHING]. *)
Definition insert_new {A} (same : A -> A -> bool) (rows : list A) (new : list A) : list A :=
  foldl (fun rows r => if existsb (same r) rows then rows else (rows ++ [r])%list) rows new.

(** [SELECT reference ... ORDER BY position]. *)
Definition references_for_hash (db : CacheDb) (hash : string) : list string :=
  map rf_reference (sort_by (fun a b => Z.compare (rf_position a) (rf_position b))
    (filter (fun r => rf_referrer r = hash) (path_references db))).

(** [is_fully_cached] of a row. *)
Definition is_fully_cached (r : CachedPath) : bool := match kp_file_hash r with Some _ => true | None => false end.

Definition kp_store_path (r : CachedPath) : string := StorePath_full (from_parts (kp_hash r) (kp_package r)).

(** ** Recording an upload ([ingest.rs]) *)

Record IngestInput := {
  in_store_path : string;
  in_file_hash : string;
  in_file_size : Z;
  in_nar_size : Z;
  in_nar_hash : string;
  in_references : list string;
  in_deriver : option string;
  in_ca : option string;
}.

Inductive SignTargets := OrgCaches (org : Z) | OneCache (cache : Z) | NoTarget.

Record IngestOutcome := { io_cached_path : Z; io_created : bool }.

Inductive IngestError := MalformedPath (store_path : string) | StorageFailed.

Definition parse_store_path (store_path : string) : result StorePath IngestError :=
  match StorePath_parse store_path with
  | Ok sp => if is_nix32_hash (sp_hash sp) then Ok sp else Err (MalformedPath store_path)
  | Err _ => Err (MalformedPath store_path)
  end.

(** [split_part(tok, '-', 1)]. *)
Definition first_part (tok : string) : string := default "" (head (split_char "-" tok)).

Definition same_reference (a b : ReferenceRow) : bool :=
  String.eqb (rf_referrer a) (rf_referrer b) && String.eqb (rf_reference a) (rf_reference b).

(** [WITH ORDINALITY] counts from one, before the empty tokens are left out. *)
Definition ordinality {A} (l : list A) : list (A * Z) := zip l (map (fun i => Z.of_nat i) (seq 1 (length l))).

Definition reference_rows (hash : string) (references : list string) : list ReferenceRow :=
  omap (fun '(tok, ord) => if String.eqb tok "" then None
    else Some {| rf_referrer := hash; rf_reference := tok; rf_reference_hash := first_part tok; rf_position := ord |})
    (ordinality references).

Definition sync_reference_index (db : CacheDb) (hash : string) (references : list string) : CacheDb :=
  with_references db (insert_new same_reference (path_references db) (reference_rows hash references)).

Section ingest.
Context `{DG : Digests}.

Definition or_keep {A} (new old : option A) : option A := match new with Some a => Some a | None => old end.

Definition refreshed (input : IngestInput) (r : CachedPath) : CachedPath := {|
  kp_id := kp_id r; kp_hash := kp_hash r; kp_package := kp_package r;
  kp_file_hash := Some (normalize_nar_hash (in_file_hash input)); kp_file_size := Some (in_file_size input);
  kp_nar_size := Some (in_nar_size input); kp_nar_hash := Some (normalize_nar_hash (in_nar_hash input));
  kp_deriver := or_keep (in_deriver input) (kp_deriver r); kp_ca := or_keep (in_ca input) (kp_ca r) |}.

Definition new_path (id : Z) (hash package : string) (input : IngestInput) : CachedPath := {|
  kp_id := id; kp_hash := hash; kp_package := package;
  kp_file_hash := Some (normalize_nar_hash (in_file_hash input)); kp_file_size := Some (in_file_size input);
  kp_nar_size := Some (in_nar_size input); kp_nar_hash := Some (normalize_nar_hash (in_nar_hash input));
  kp_deriver := in_deriver input; kp_ca := in_ca input |}.

(** [seen] is what the lookup answered: another connection may have inserted the row since,
    in which case the insert fails on the unique hash and the row is read again. *)
Definition upsert_path (db : CacheDb) (seen : option CachedPath) (id : Z) (hash package : string) (input : IngestInput)
    : CacheDb * IngestOutcome :=
  match seen with
  | Some row =>
      (with_paths db (map (fun r => if kp_id r =? kp_id row then refreshed input r else r) (cached_paths db)),
       {| io_cached_path := kp_id row; io_created := false |})
  | None =>
      match find_path db hash with
      | Some row => (db, {| io_cached_path := kp_id row; io_created := false |})
      | None => (with_paths db (cached_paths db ++ [new_path id hash package input]), {| io_cached_path := id; io_created := true |})
      end
  end.

Definition target_caches (db : CacheDb) (targets : SignTargets) : list Z :=
  match targets with
  | NoTarget => []
  | OneCache id => [id]
  | OrgCaches org => map snd (filter (fun s => s.1 = org) (subscriptions db))
  end.

Definition same_signature (a b : SignatureRow) : bool :=
  (sg_cached_path a =? sg_cached_path b) && (sg_cache a =? sg_cache b).

Definition placeholder (path cache : Z) : SignatureRow := {| sg_cached_path := path; sg_cache := cache; sg_signature := None |}.

Definition record_upload (db : CacheDb) (seen : option CachedPath) (id : Z) (hash package : string) (input : IngestInput)
    (targets : SignTargets) : CacheDb * IngestOutcome :=
  let (db, out) := upsert_path db seen id hash package input in
  let db := match in_references input with [] => db | references => sync_reference_index db hash references end in
  (with_signatures db (insert_new same_signature (signatures db)
    (map (placeholder (io_cached_path out)) (target_caches db targets))), out).

Definition upsert_and_sign (db : CacheDb) (id : Z) (hash package : string) (input : IngestInput) (targets : SignTargets)
    : CacheDb * IngestOutcome := record_upload db (find_path db hash) id hash package input targets.

Definition ingest_metadata_only (db : CacheDb) (id : Z) (input : IngestInput) (targets : SignTargets)
    : result (CacheDb * IngestOutcome) IngestError :=
  let? sp := parse_store_path (in_store_path input) in
  Ok (upsert_and_sign db id (sp_hash sp) (sp_name_ sp) input targets).

(** ** Stored objects

    [objects] maps the key of an object to its bytes. [fails] says that the store answers
    this call with an error. *)

Abbreviation Objects := (gmap string string).

Definition object_path (prefix hash : string) : string :=
  let (shard, stem) := if Nat.leb 2 (String.length hash)
    then (String.substring 0 2 hash, String.substring 2 (String.length hash - 2) hash) else ("__", hash)%string in
  (prefix +:+ "nars/" +:+ shard +:+ "/" +:+ stem +:+ ".nar.zst")%string.

Definition object_exists (store : Objects) (prefix hash : string) : bool :=
  match store !! object_path prefix hash with Some _ => true | None => false end.

(** [lookup_fails]: the database answered with an error, which counts as no match. *)
Definition nar_write_needed (db : CacheDb) (store : Objects) (prefix hash file_hash : string) (lookup_fails head_fails : bool)
    : result bool IngestError :=
  let incoming := normalize_nar_hash file_hash in
  let recorded_match := negb lookup_fails &&
    match find_path db hash ≫= kp_file_hash with Some fh => String.eqb fh incoming | None => false end in
  if recorded_match
  then if head_fails then Err StorageFailed else Ok (negb (object_exists store prefix hash))
  else Ok true.

Record StoreFaults := { fault_lookup : bool; fault_head : bool; fault_put : bool }.

(** Both writers, of bytes and of a reader: whether anything was written. *)
Definition put_nar_idempotent (db : CacheDb) (store : Objects) (prefix hash file_hash nar : string) (faults : StoreFaults)
    : result (Objects * bool) IngestError :=
  let? needed := nar_write_needed db store prefix hash file_hash (fault_lookup faults) (fault_head faults) in
  if negb needed then Ok (store, false)
  else if fault_put faults then Err StorageFailed
  else Ok (<[object_path prefix hash := nar]> store, true).

Definition ingest_nar (db : CacheDb) (store : Objects) (prefix : string) (id : Z) (nar : string) (input : IngestInput)
    (targets : SignTargets) (faults : StoreFaults) : result (CacheDb * Objects * IngestOutcome) IngestError :=
  let? sp := parse_store_path (in_store_path input) in
  let? written := put_nar_idempotent db store prefix (sp_hash sp) (in_file_hash input) nar faults in
  let (db, out) := upsert_and_sign db id (sp_hash sp) (sp_name_ sp) input targets in
  Ok (db, fst written, out).

(** ** Signing in place ([signing.rs]) *)

Context `{SG : Signing}.

(** The deployment: its secret file and its public address. *)
Record Deployment := { de_secret_file : string; de_serve_url : string; de_prefix : string }.

Definition producing_projects_all_private (db : CacheDb) (hash : string) : bool :=
  let rows := filter (fun p => pr_hash p = hash) (producers db) in
  Nat.ltb 0 (length rows) &&
  Nat.eqb (length (filter (fun p => pr_sign_cache p || String.eqb (pr_name p) "build-request") rows)) 0.

Definition build_signer (db : CacheDb) (d : Deployment) (cache : Z) : option CacheSigner :=
  c ← find_cache db cache;
  if String.eqb (ca_private_key c) "" then None
  else match from_cache (de_secret_file d) c (de_serve_url d) with Ok s => Some s | Err _ => None end.

(** [signature_of] is the signature of a cache's row, when there is a signer for it. *)
Definition fill_signatures (db : CacheDb) (pending : SignatureRow -> bool) (signature_of : SignatureRow -> option (list Z)) : CacheDb :=
  with_signatures db (map (fun s => if pending s
    then match signature_of s with
         | Some sig => {| sg_cached_path := sg_cached_path s; sg_cache := sg_cache s; sg_signature := Some sig |}
         | None => s
         end
    else s) (signatures db)).

Definition is_pending (s : SignatureRow) : bool := match sg_signature s with None => true | Some _ => false end.

Record SignRequest := {
  rq_cached_path : Z; rq_store_path : string; rq_nar_hash : string; rq_nar_size : Z; rq_references : list string }.

(** The part of a store path before the name, as the handlers cut it. *)
Definition hash_part (store_path : string) : string :=
  default "" (head (split_char "-" (default store_path (strip_prefix "/nix/store/" store_path)))).

Definition sign_cached_path (db : CacheDb) (d : Deployment) (r : SignRequest) : CacheDb :=
  let hash := hash_part (rq_store_path r) in
  if String.eqb hash "" || producing_projects_all_private db hash then db
  else fill_signatures db (fun s => (sg_cached_path s =? rq_cached_path r) && is_pending s)
    (fun s => signer ← build_signer db d (sg_cache s);
              Some (sign_narinfo_raw signer (rq_store_path r) (normalize_nar_hash (rq_nar_hash r))
                      (u64 (rq_nar_size r)) (rq_references r))).

(** ** The recording half of an upload ([handler/nar.rs]) *)

Record NarUploadRecord := {
  up_file_hash : string; up_file_size : Z; up_nar_size : Z; up_nar_hash : string;
  up_references : list string; up_deriver : option string; up_ca : option string }.

Definition mark_outputs (id : Z) (hash : string) (l : list OutputRow) : list OutputRow :=
  map (fun o => if String.eqb (ou_hash o) hash
    then {| ou_derivation := ou_derivation o; ou_hash := ou_hash o; ou_package := ou_package o;
            ou_is_cached := true; ou_cached_path := Some id |} else o) l.

Definition mark_nar_stored (db : CacheDb) (d : Deployment) (id : Z) (org : option Z) (store_path : string) (r : NarUploadRecord)
    : result CacheDb IngestError :=
  let hash := hash_part store_path in
  if String.eqb hash "" then Ok db
  else
    let targets := match org with Some o => OrgCaches o | None => NoTarget end in
    let input := {| in_store_path := store_path; in_file_hash := up_file_hash r; in_file_size := up_file_size r;
      in_nar_size := up_nar_size r; in_nar_hash := up_nar_hash r; in_references := up_references r;
      in_deriver := up_deriver r; in_ca := up_ca r |} in
    let? ingested := ingest_metadata_only db id input targets in
    let path := io_cached_path (snd ingested) in
    let db := with_outputs (fst ingested) (mark_outputs path hash (outputs (fst ingested))) in
    Ok (match org with
        | Some _ => sign_cached_path db d {| rq_cached_path := path; rq_store_path := store_path;
            rq_nar_hash := up_nar_hash r; rq_nar_size := up_nar_size r; rq_references := up_references r |}
        | None => db
        end).

(** [bucket] is the current time, to the minute. *)
Definition upsert_cache_metric (db : CacheDb) (cache bucket bytes : Z) : CacheDb :=
  let same m := (me_cache m =? cache) && (me_bucket m =? bucket) in
  with_metrics db (if existsb same (metrics db)
    then map (fun m => if same m then {| me_cache := cache; me_bucket := bucket;
           me_bytes_sent := me_bytes_sent m + bytes; me_nar_count := me_nar_count m + 1 |} else m) (metrics db)
    else (metrics db ++ [{| me_cache := cache; me_bucket := bucket; me_bytes_sent := bytes; me_nar_count := 1 |}])%list).

(** [None]: the organization subscribes to no cache. *)
Definition record_nar_push_metric (db : CacheDb) (org : option Z) (bucket bytes : Z) : option CacheDb :=
  match org with
  | None => Some db
  | Some o =>
      s ← List.find (fun s => s.1 =? o) (subscriptions db);
      Some (upsert_cache_metric db (snd s) bucket bytes)
  end.

(** ** The sweep ([sign_sweep.rs]) *)

Definition SIGN_SWEEP_BATCH : nat := Z.to_nat 1000.

(** The flags of the projects that produced each path of the batch, of those any did. *)
Definition load_producing_project_flags (db : CacheDb) (paths : list CachedPath) : list (Z * list bool) :=
  omap (fun p =>
    match map (fun r => pr_sign_cache r || String.eqb (pr_name r) "build-request")
            (filter (fun r => pr_hash r = kp_hash p) (producers db)) with
    | [] => None
    | flags => Some (kp_id p, flags)
    end) paths.

Definition compute_skipped_cached_paths (flags : list (Z * list bool)) : list Z :=
  map fst (filter (fun p => (negb (Nat.eqb (length (snd p)) 0) && forallb negb (snd p)) = true) flags).

(** The signature the sweep gives a row, when it gives one. *)
Definition sweep_signature (db : CacheDb) (d : Deployment) (skipped : list Z) (s : SignatureRow) : option (list Z) :=
  signer ← build_signer db d (sg_cache s);
  cp ← path_by_id db (sg_cached_path s);
  if existsb (Z.eqb (sg_cached_path s)) skipped then None
  else
    nar_hash ← kp_nar_hash cp;
    nar_size ← kp_nar_size cp;
    Some (sign_narinfo_raw signer (kp_store_path cp) (normalize_nar_hash nar_hash) (u64 nar_size)
            (references_for_hash db (kp_hash cp))).

Definition sweep_batch (db : CacheDb) : list SignatureRow := take SIGN_SWEEP_BATCH (filter (fun s => is_pending s = true) (signatures db)).

Definition batch_skipped (db : CacheDb) (batch : list SignatureRow) : list Z :=
  compute_skipped_cached_paths (load_producing_project_flags db
    (filter (fun p => existsb (fun s => sg_cached_path s =? kp_id p) batch = true) (cached_paths db))).

Definition signed_pass (db : CacheDb) (d : Deployment) : CacheDb :=
  let batch := sweep_batch db in
  fill_signatures db (fun s => is_pending s && existsb (same_signature s) batch) (sweep_signature db d (batch_skipped db batch)).

(** The rows of the batch that got a signature. *)
Definition newly_signed (db : CacheDb) (d : Deployment) : list SignatureRow :=
  let batch := sweep_batch db in
  filter (fun s => is_Some (sweep_signature db d (batch_skipped db batch) s)) batch.

(** [INSERT_LAYER]: of the given derivations, those of an organization of the cache whose
    outputs are all cached and whose dependencies the cache has, and it does not have yet. *)
Definition completes (db : CacheDb) (cache drv : Z) : bool :=
  existsb (fun b => (b.1 =? cache) && (b.2 =? drv)) (built_for db) &&
  forallb (fun o => negb (ou_derivation o =? drv) || ou_is_cached o) (outputs db) &&
  forallb (fun e => negb (e.1 =? drv) || existsb (fun c => (c.1 =? cache) && (c.2 =? e.2)) (cache_derivations db)) (dependencies db) &&
  negb (existsb (fun c => (c.1 =? cache) && (c.2 =? drv)) (cache_derivations db)).

Definition insert_layer (db : CacheDb) (cache : Z) (frontier : list Z) : CacheDb * list Z :=
  let inserted := filter (fun d => completes db cache d = true) (remove_dups frontier) in
  (with_cache_derivations db (cache_derivations db ++ map (pair cache) inserted)%list, inserted).

Definition dependents (db : CacheDb) (drvs : list Z) : list Z :=
  remove_dups (map fst (filter (fun e => existsb (Z.eqb e.2) drvs = true) (dependencies db))).

Fixpoint record_frontier (fuel : nat) (db : CacheDb) (cache : Z) (frontier : list Z) : CacheDb :=
  match fuel, frontier with
  | O, _ | _, [] => db
  | S fuel, _ =>
      let (db', inserted) := insert_layer db cache frontier in
      match inserted with [] => db | _ => record_frontier fuel db' cache (dependents db' inserted) end
  end.

Definition record_newly_completed_derivations (db : CacheDb) (cache : Z) (seed : list Z) (full : bool) : CacheDb :=
  if full then fst (insert_layer db cache (map snd (filter (fun b => b.1 = cache) (built_for db))))
  else record_frontier (S (length (built_for db))) db cache seed.

Definition FULL_BACKFILL_SECS : Z := 3600.

(** The second component is the timer afterwards. *)
Definition full_backfill_due (last : option Z) (now : Z) : bool * option Z :=
  match last with
  | None => (false, Some now)
  | Some t => if now - t <? FULL_BACKFILL_SECS then (false, last) else (true, Some now)
  end.

Definition sign_missing_signatures (db : CacheDb) (d : Deployment) (last : option Z) (now : Z) : CacheDb * option Z :=
  match sweep_batch db with
  | [] => (db, last)
  | _ =>
      let signed := newly_signed db d in
      let db' := signed_pass db d in
      let hashes := omap (fun s => kp_hash <$> path_by_id db (sg_cached_path s)) signed in
      let seed := remove_dups (map ou_derivation (filter (fun o => ou_hash o ∈ hashes) (outputs db'))) in
      let (full, last) := full_backfill_due last now in
      (foldl (fun db cache => record_newly_completed_derivations db cache seed full) db' (remove_dups (map sg_cache signed)), last)
  end.

End ingest.
