(* ===== verification/Partials.v ===== *)
(** * Partial files

    [backend/gradient-storage/src/partial.rs]: the files an unfinished NAR transfer grows in.

    The directory is a map from keys to files, with a second map for the token each file was
    written under. A call makes its file operations in order; [fault] is the number of the
    one that fails, counted from zero, and [None] when none does. A write that fails leaves
    a part of its bytes behind. *)

From stdpp Require Import pretty.
From S2P Require Import Prelude RustStr RustText.

Local Open Scope Z_scope.

Record PartialFile := { pf_bytes : string; pf_mtime : Z }.

Record Partials := {
  pt_files : gmap string PartialFile;
  pt_tokens : gmap string string;
  pt_claims : Z;  (* [CLAIM_SEQ] *)
}.

Definition with_files (s : Partials) (files : gmap string PartialFile) : Partials :=
  {| pt_files := files; pt_tokens := pt_tokens s; pt_claims := pt_claims s |}.
Definition with_tokens (s : Partials) (tokens : gmap string string) : Partials :=
  {| pt_files := pt_files s; pt_tokens := tokens; pt_claims := pt_claims s |}.

Abbreviation Fault := (option nat).

Definition fails (fault : Fault) (n : nat) : bool := match fault with Some k => Nat.eqb k n | None => false end.

(** The faults of the operations after the first [n]. *)
Definition after (fault : Fault) (n : nat) : Fault :=
  match fault with Some k => if Nat.ltb k n then None else Some (k - n)%nat | None => None end.

Definition strlen (s : string) : Z := Z.of_nat (String.length s).

Definition file_len (s : Partials) (key : string) : Z :=
  match pt_files s !! key with Some f => strlen (pf_bytes f) | None => 0 end.

(** [false]: a file could not be removed. *)
Definition discard (s : Partials) (key : string) (fault : Fault) : Partials * bool :=
  if fails fault 0 then (s, false)
  else
    let s := with_files s (delete key (pt_files s)) in
    if fails fault 1 then (s, false) else (with_tokens s (delete key (pt_tokens s)), true).

(** [None]: an error. *)
Definition received_len (s : Partials) (key token : string) (fault : Fault) : Partials * option Z :=
  if fails fault 0 then (s, None)
  else
    match pt_tokens s !! key with
    | None => (s, Some 0)
    | Some stored =>
        if negb (String.eqb stored token) then
          let (s, ok) := discard s key (after fault 1) in (s, if ok then Some 0 else None)
        else if fails fault 1 then (s, None) else (s, Some (file_len s key))
    end.

(** The file operations are: open, truncate or stat, write the token, seek, and write; a
    write that fails as operation [4 + k] has written [k] bytes. *)
Definition append (s : Partials) (key token : string) (offset : Z) (data : string) (now : Z) (fault : Fault) : Partials * bool :=
  if fails fault 0 then (s, false)
  else
    let opened := default {| pf_bytes := ""; pf_mtime := now |} (pt_files s !! key) in
    let created := with_files s (<[key := opened]> (pt_files s)) in
    if fails fault 1 then (created, false)
    else if negb (offset =? 0) && negb (offset =? strlen (pf_bytes opened)) then (created, false)
    else
      let base := if offset =? 0 then ""%string else pf_bytes opened in
      let put bytes := with_files s (<[key := {| pf_bytes := bytes; pf_mtime := now |}]> (pt_files s)) in
      let tokened s := with_tokens s (<[key := token]> (pt_tokens s)) in
      match fault with
      | None => (tokened (put (base +:+ data)%string), true)
      | Some k =>
          if Nat.leb k 2 then (put base, false)
          else (tokened (put (base +:+ String.substring 0 (k - 4) data)%string), false)
      end.

Definition staged_len (s : Partials) (key : string) : Z := file_len s key.

Definition partial_token (s : Partials) (key : string) : option string := pt_tokens s !! key.

(** [None]: no such file, or it could not be read. Also [open_read]. *)
Definition read_all (s : Partials) (key : string) (fault : Fault) : option string :=
  if fails fault 0 then None else pf_bytes <$> pt_files s !! key.

Definition claim_key (key : string) (seq : Z) : string := (key +:+ "." +:+ pretty seq +:+ ".claim")%string.

(** A claim that fails after its first rename has moved the file. *)
Definition detach (s : Partials) (key : string) (fault : Fault) : Partials * result (option string) () :=
  if fails fault 0 then (s, Err tt)
  else
    match pt_files s !! key with
    | None => (s, Ok None)
    | Some f =>
        let claim := claim_key key (pt_claims s) in
        let s := {| pt_files := pt_files s; pt_tokens := pt_tokens s; pt_claims := u64 (pt_claims s + 1) |} in
        if fails fault 1 then (s, Err tt)
        else
          let s := with_files s (<[claim := f]> (delete key (pt_files s))) in
          if fails fault 2 then (s, Err tt)
          else
            (match pt_tokens s !! key with
             | Some t => with_tokens s (<[claim := t]> (delete key (pt_tokens s)))
             | None => s
             end, Ok (Some claim))
    end.

Definition total_bytes (s : Partials) : Z := map_fold (fun _ f n => strlen (pf_bytes f) + n) 0 (pt_files s).

(** Removes the files last written before [now - ttl]; a zero [ttl] turns the sweep off. *)
Definition gc (s : Partials) (ttl now : Z) : Partials * Z :=
  if ttl =? 0 then (s, 0)
  else
    let cutoff := if now <? ttl then 0 else now - ttl in
    let old := fun kv : string * PartialFile => pf_mtime (snd kv) < cutoff in
    let gone := map fst (filter old (map_to_list (pt_files s))) in
    (foldl (fun s key => fst (discard s key None)) s gone, Z.of_nat (length gone)).

(** ** What the operations do to the other files *)

Lemma substring_all t : String.substring 0 (String.length t) t = t.
Proof. induction t as [|a t IH]; [done|]. cbn. by rewrite IH. Qed.

Lemma take_drop_nat s : forall n, (n <= String.length s)%nat ->
  (String.substring 0 n s +:+ String.substring n (String.length s - n) s)%string = s /\ String.length (String.substring 0 n s) = n.
Proof.
  induction s as [|c s IH]; intros [|n] Hn; cbn [String.length] in *; [done|lia| |].
  - split; [|done]. exact (substring_all (String c s)).
  - destruct (IH n ltac:(lia)) as [H1 H2]. split.
    + change (String c (String.substring 0 n s +:+ String.substring n (String.length s - n) s) = String c s)%string. by rewrite H1.
    + change (String.substring 0 (S n) (String c s)) with (String c (String.substring 0 n s)). cbn. by rewrite H2.
Qed.

Lemma strlen_app a b : strlen (a +:+ b) = strlen a + strlen b.
Proof. unfold strlen. rewrite string_length_app. lia. Qed.

Lemma strlen_pos s : 0 <= strlen s.
Proof. unfold strlen. lia. Qed.

Lemma file_len_pos s key : 0 <= file_len s key.
Proof. unfold file_len. destruct (pt_files s !! key); [apply strlen_pos|lia]. Qed.

Lemma discard_spec s key :
  discard s key None = ({| pt_files := delete key (pt_files s); pt_tokens := delete key (pt_tokens s); pt_claims := pt_claims s |}, true).
Proof. done. Qed.

Lemma discard_files s key fault k : k <> key -> pt_files (fst (discard s key fault)) !! k = pt_files s !! k.
Proof. intros Hk. unfold discard. repeat case_match; simpl; try done; by rewrite lookup_delete_ne. Qed.

Lemma discard_tokens s key fault k : k <> key -> pt_tokens (fst (discard s key fault)) !! k = pt_tokens s !! k.
Proof. intros Hk. unfold discard. repeat case_match; simpl; try done; by rewrite lookup_delete_ne. Qed.

Lemma discard_gone s key fault : pt_files (fst (discard s key fault)) !! key = None \/ pt_files (fst (discard s key fault)) !! key = pt_files s !! key.
Proof. unfold discard. repeat case_match; simpl; try (by right); left; by rewrite lookup_delete_eq. Qed.

Lemma append_ok s key token offset data now :
  offset = 0 \/ offset = file_len s key ->
  exists s', append s key token offset data now None = (s', true) /\
    pt_files s' !! key = Some {| pf_bytes := (if Z.eqb offset 0 then "" else default "" (pf_bytes <$> pt_files s !! key)) +:+ data; pf_mtime := now |} /\
    pt_tokens s' !! key = Some token /\ pt_claims s' = pt_claims s /\
    (forall k, k <> key -> pt_files s' !! k = pt_files s !! k /\ pt_tokens s' !! k = pt_tokens s !! k).
Proof.
  intros Hoff. unfold append. cbn [fails].
  assert (Hc : negb (offset =? 0) && negb (offset =? strlen (pf_bytes (default {| pf_bytes := ""; pf_mtime := now |} (pt_files s !! key)))) = false).
  { destruct Hoff as [->|Hoff]; [done|]. unfold file_len in Hoff. destruct (pt_files s !! key); simpl in *; [|rewrite Hoff; done].
    rewrite Hoff, Z.eqb_refl. by rewrite andb_false_r. }
  rewrite Hc. eexists. split; [reflexivity|]. simpl. rewrite !lookup_insert_eq. split_and!; [|done|done|].
  - by destruct (pt_files s !! key).
  - intros k Hk. by rewrite !lookup_insert_ne.
Qed.

Lemma append_refused s key token offset data now fault :
  snd (append s key token offset data now fault) = true -> fault = None /\ (offset = 0 \/ offset = file_len s key).
Proof.
  unfold append. destruct (fails fault 0) eqn:E0; [done|]. destruct (fails fault 1) eqn:E1; [done|].
  destruct (negb (offset =? 0) && _) eqn:E2; [done|]. destruct fault as [k|]; [by case_match|]. intros _. split; [done|].
  destruct (Z.eqb_spec offset 0); [by left|]. simpl in E2. apply negb_false_iff, Z.eqb_eq in E2. right. rewrite E2. unfold file_len.
  by destruct (pt_files s !! key).
Qed.

Lemma append_files s key token offset data now fault k :
  k <> key -> pt_files (fst (append s key token offset data now fault)) !! k = pt_files s !! k /\
              pt_tokens (fst (append s key token offset data now fault)) !! k = pt_tokens s !! k.
Proof.
  intros Hk. unfold append. repeat case_match; simpl; rewrite ?lookup_insert_ne by done; done.
Qed.

Lemma received_len_files s key token fault k :
  k <> key -> pt_files (fst (received_len s key token fault)) !! k = pt_files s !! k /\
              pt_tokens (fst (received_len s key token fault)) !! k = pt_tokens s !! k.
Proof.
  intros Hk. unfold received_len. destruct (fails fault 0); [done|]. destruct (pt_tokens s !! key) as [t|]; [|done].
  destruct (negb _); [|by case_match]. pose proof (discard_files s key (after fault 1) k Hk). pose proof (discard_tokens s key (after fault 1) k Hk).
  by destruct (discard s key (after fault 1)).
Qed.

(** What the sweep leaves. *)
Lemma foldl_discard_lookup l s k :
  pt_files (foldl (fun s key => fst (discard s key None)) s l) !! k = if decide (k ∈ l) then None else pt_files s !! k.
Proof.
  revert s. induction l as [|x l IH]; intros s; cbn [foldl]; [by destruct (decide (k ∈ [])); [set_solver|]|].
  rewrite IH, discard_spec. simpl. destruct (decide (k ∈ l)), (decide (k ∈ x :: l)); try done; try set_solver.
  - assert (k = x) as -> by set_solver. by rewrite lookup_delete_eq.
  - rewrite lookup_delete_ne by set_solver. done.
Qed.

Lemma gc_lookup s ttl now k : 0 < ttl ->
  pt_files (fst (gc s ttl now)) !! k =
  (f ← pt_files s !! k; if pf_mtime f <? (if now <? ttl then 0 else now - ttl) then None else Some f).
Proof.
  intros Ht. unfold gc. destruct (Z.eqb_spec ttl 0); [lia|]. cbn [fst]. rewrite foldl_discard_lookup.
  set (cutoff := if now <? ttl then 0 else now - ttl). destruct (pt_files s !! k) as [f|] eqn:Ef; simpl.
  - destruct (Z.ltb_spec (pf_mtime f) cutoff) as [Hlt|Hge].
    + rewrite decide_True; [done|]. apply list_elem_of_fmap. exists (k, f). split; [done|]. apply list_elem_of_filter. split; [done|].
      by apply elem_of_map_to_list.
    + rewrite decide_False; [done|]. intros Hin. apply list_elem_of_fmap in Hin as ([k' f'] & -> & Hin).
      apply list_elem_of_filter in Hin as [Hlt Hin]. apply elem_of_map_to_list in Hin. simpl in *. rewrite Ef in Hin. simplify_eq. lia.
  - by destruct (decide _).
Qed.
