(* ===== verification/NarStage.v ===== *)
(** * NARs pushed by a worker

    [backend/gradient-proto/src/handler/nar_transfer.rs]: the chunks of a push grow a partial
    file, and the report that follows commits it: size and hash are compared, the bytes are
    stored and the rows written. The commit runs beside the read loop of the session.

    What is sent to the worker and told to the scheduler is the list of [Event]s a handler
    answers with; a reason is given without the error it quotes. Which organization a job
    belongs to is an argument. *)

From stdpp Require Import pretty.
From S2P Require Import Prelude RustStr RustText StorePath NixHash CacheRows Partials.

Local Open Scope Z_scope.

Inductive AppendOutcome := AppendOk | AppendOverflow | AppendPoisoned.

Record PathState := { ps_token : string; ps_staged : Z }.

Record StagedNar := { sn_key : string; sn_token : string }.

Record NarReceiveStore := {
  nr_peer_id : string;
  nr_max_bytes : Z;
  nr_active : gmap string PathState;
  nr_poisoned : gset string;
}.

Definition with_active (n : NarReceiveStore) (active : gmap string PathState) : NarReceiveStore :=
  {| nr_peer_id := nr_peer_id n; nr_max_bytes := nr_max_bytes n; nr_active := active; nr_poisoned := nr_poisoned n |}.
Definition with_poisoned (n : NarReceiveStore) (poisoned : gset string) : NarReceiveStore :=
  {| nr_peer_id := nr_peer_id n; nr_max_bytes := nr_max_bytes n; nr_active := nr_active n; nr_poisoned := poisoned |}.

Definition new_receive_store (peer_id : string) (max_bytes : Z) : NarReceiveStore :=
  {| nr_peer_id := peer_id; nr_max_bytes := max_bytes; nr_active := ∅; nr_poisoned := ∅ |}.

Definition unit_separator : string := byte 31.

Definition state_key (job_id store_path : string) : string := (job_id +:+ unit_separator +:+ store_path)%string.

Definition stage_key (n : NarReceiveStore) (job_id hash : string) : string :=
  (nr_peer_id n +:+ "/" +:+ job_id +:+ "/" +:+ hash)%string.

(** [NarReceiveStore::key]. The 32 characters between the store directory and the name. *)
Definition store_hash (store_path : string) : option string :=
  let hash := hash_part store_path in
  if Nat.eqb (String.length hash) 32 && all_chars is_ascii_alphanumeric hash then Some hash else None.

Definition note_header (n : NarReceiveStore) (s : Partials) (job_id store_path token : string) (fault : Fault)
    : NarReceiveStore * Partials * Z :=
  let sk := state_key job_id store_path in
  let n := with_poisoned n (nr_poisoned n ∖ {[sk]}) in
  let '(s, received) :=
    match store_hash store_path with
    | Some h => let (s, r) := received_len s (stage_key n job_id h) token fault in (s, default 0 r)
    | None => (s, 0)
    end in
  (with_active n (<[sk := {| ps_token := token; ps_staged := received |}]> (nr_active n)), s, received).

Definition poison (n : NarReceiveStore) (s : Partials) (job_id store_path hash : string) (fault : Fault) : NarReceiveStore * Partials :=
  let sk := state_key job_id store_path in
  let s := fst (discard s (stage_key n job_id hash) fault) in
  (with_poisoned (with_active n (delete sk (nr_active n))) (nr_poisoned n ∪ {[sk]}), s).

Definition staged_total (n : NarReceiveStore) : Z := map_fold (fun _ p total => ps_staged p + total) 0 (nr_active n).

Definition MAX_U64 : Z := 2 ^ 64 - 1.

Definition saturating_add_u64 (a b : Z) : Z := Z.min (a + b) MAX_U64.

Definition no_token : PathState := {| ps_token := ""; ps_staged := 0 |}.

(** [fault] is of the append, [fault'] of the discard that follows a failure. *)
Definition nar_append (n : NarReceiveStore) (s : Partials) (job_id store_path : string) (offset : Z) (data : string) (now : Z)
    (fault fault' : Fault) : NarReceiveStore * Partials * AppendOutcome :=
  let sk := state_key job_id store_path in
  if bool_decide (sk ∈ nr_poisoned n) then (n, s, AppendPoisoned)
  else
    match store_hash store_path with
    | None => (n, s, AppendPoisoned)
    | Some hash =>
        let state := default no_token (nr_active n !! sk) in
        let n := with_active n (<[sk := state]> (nr_active n)) in
        if nr_max_bytes n <? saturating_add_u64 (staged_total n) (strlen data)
        then (poison n s job_id store_path hash fault', AppendOverflow)
        else
          match append s (stage_key n job_id hash) (ps_token state) offset data now fault with
          | (s, true) =>
              (with_active n (<[sk := {| ps_token := ps_token state; ps_staged := ps_staged state + strlen data |}]> (nr_active n)),
               s, AppendOk)
          | (s, false) => (poison n s job_id store_path hash fault', AppendOverflow)
          end
    end.

Definition take_staged (n : NarReceiveStore) (s : Partials) (job_id store_path : string) (fault : Fault)
    : NarReceiveStore * Partials * option StagedNar :=
  let sk := state_key job_id store_path in
  match nr_active n !! sk with
  | None => (n, s, None)
  | Some state =>
      let n := with_active n (delete sk (nr_active n)) in
      match store_hash store_path with
      | None => (n, s, None)
      | Some hash =>
          let base := stage_key n job_id hash in
          let (s, claimed) := detach s base fault in
          (n, s, Some {| sn_key := match claimed with Ok (Some claim) => claim | _ => base end; sn_token := ps_token state |})
      end
  end.

Definition finish_path (n : NarReceiveStore) (s : Partials) (job_id store_path : string) (fault : Fault) : NarReceiveStore * Partials :=
  let n := with_active n (delete (state_key job_id store_path) (nr_active n)) in
  (n, match store_hash store_path with Some hash => fst (discard s (stage_key n job_id hash) fault) | None => s end).

Definition is_poisoned (n : NarReceiveStore) (job_id store_path : string) : bool :=
  bool_decide (state_key job_id store_path ∈ nr_poisoned n).

Definition clear_poison (n : NarReceiveStore) (s : Partials) (job_id store_path : string) (fault : Fault) : NarReceiveStore * Partials :=
  finish_path (with_poisoned n (nr_poisoned n ∖ {[state_key job_id store_path]})) s job_id store_path fault.

(** ** The handlers of a session *)

Inductive Event :=
| NarPushResume (job_id store_path : string) (received_bytes : Z)
| AbortJob (job_id reason : string)
| HandleJobFailed (peer_id job_id reason : string).  (* as a transient failure *)

Definition on_push_stream_header (n : NarReceiveStore) (s : Partials) (job_id store_path token : string) (fault : Fault)
    : NarReceiveStore * Partials * list Event :=
  let '(n, s, received) := note_header n s job_id store_path token fault in
  (n, s, [NarPushResume job_id store_path received]).

Definition push_rejected (n : NarReceiveStore) (store_path : string) (offset : Z) : string :=
  ("NAR upload for " +:+ store_path +:+ " rejected: staged-partial budget (" +:+ pretty (nr_max_bytes n)
   +:+ " bytes) exceeded or non-contiguous offset " +:+ pretty offset)%string.

Definition on_nar_push (n : NarReceiveStore) (s : Partials) (job_id store_path data : string) (offset now : Z)
    (fault fault' : Fault) : NarReceiveStore * Partials * list Event :=
  if String.eqb data "" then (n, s, [])
  else
    let '(n, s, outcome) := nar_append n s job_id store_path offset data now fault fault' in
    (n, s, match outcome with AppendOverflow => [AbortJob job_id (push_rejected n store_path offset)] | _ => [] end).

Record NarUploaded := {
  nu_job_id : string;
  nu_store_path : string;
  nu_record : NarUploadRecord;  (* [file_size] and [nar_size] as sent, below [2 ^ 64] *)
}.

Record CommitUploadedNar := {
  cu_peer_id : string;
  cu_upload : NarUploaded;
  cu_org_id : option Z;
  cu_hash : string;
  cu_staged : option StagedNar;
}.

Definition poisoned_reason (store_path : string) : string :=
  ("NarUploaded for " +:+ store_path +:+ " rejected: prior NarPush chunk exceeded the staged-partial budget or arrived out of order")%string.

(** The commit, if there is one, runs later. *)
Definition on_nar_uploaded (n : NarReceiveStore) (s : Partials) (u : NarUploaded) (org_for_job : string -> option Z) (fault : Fault)
    : NarReceiveStore * Partials * list Event * option CommitUploadedNar :=
  let job := nu_job_id u in
  let path := nu_store_path u in
  if is_poisoned n job path then
    let (n, s) := clear_poison n s job path fault in (n, s, [AbortJob job (poisoned_reason path)], None)
  else
    match store_hash path with
    | None => (n, s, [AbortJob job ("NarUploaded for malformed store path " +:+ path)%string], None)
    | Some hash =>
        let '(n, s, staged) := take_staged n s job path fault in
        (n, s, [], Some {| cu_peer_id := nr_peer_id n; cu_upload := u; cu_org_id := org_for_job job; cu_hash := hash; cu_staged := staged |})
    end.

(** ** Commits *)

Section commits.
Context `{DG : Digests} `{SG : Signing}.

(** The shared state a commit works on. *)
Record Cache := { c_partials : Partials; c_objects : gmap string string; c_db : CacheDb }.

Definition fail_build_transient (c : CommitUploadedNar) (reason : string) : list Event :=
  let job := nu_job_id (cu_upload c) in
  [AbortJob job reason; HandleJobFailed (cu_peer_id c) job reason].

Record CommitFaults := {
  cf_stat : Fault;
  cf_verify_read : bool;
  cf_put_read : bool;
  cf_store : StoreFaults;
  cf_discard : Fault;
}.

Definition no_faults : CommitFaults := {| cf_stat := None; cf_verify_read := false; cf_put_read := false;
  cf_store := {| fault_lookup := false; fault_head := false; fault_put := false |}; cf_discard := None |}.

Definition size_mismatch (staged reported : Z) : string :=
  ("staged NAR size " +:+ pretty staged +:+ " does not match reported file_size " +:+ pretty reported)%string.

Definition read_if (fault : bool) (s : Partials) (key : string) : option string := if fault then None else read_all s key None.

(** Whether it stored the NAR, and why not. *)
Definition commit_relayed (w : Cache) (d : Deployment) (c : CommitUploadedNar) (staged : StagedNar) (f : CommitFaults)
    : Cache * result () string :=
  let r := nu_record (cu_upload c) in
  let (s, len) := received_len (c_partials w) (sn_key staged) (sn_token staged) (cf_stat f) in
  let w := {| c_partials := s; c_objects := c_objects w; c_db := c_db w |} in
  if negb (default 0 len =? up_file_size r) then (w, Err (size_mismatch (default 0 len) (up_file_size r)))
  else
    match read_if (cf_verify_read f) s (sn_key staged) with
    | None => (w, Err "failed to read staged NAR")
    | Some bytes =>
        match verify_nar_bytes bytes (up_file_hash r) (up_file_size r) with
        | Err _ => (w, Err "NAR content verification failed")
        | Ok _ =>
            match read_if (cf_put_read f) s (sn_key staged) with
            | None => (w, Err "failed to read staged NAR")
            | Some nar =>
                match put_nar_idempotent (c_db w) (c_objects w) (de_prefix d) (cu_hash c) (up_file_hash r) nar (cf_store f) with
                | Err _ => (w, Err "failed to write NAR to storage")
                | Ok (objects, _) =>
                    ({| c_partials := fst (discard s (sn_key staged) (cf_discard f)); c_objects := objects; c_db := c_db w |}, Ok tt)
                end
            end
        end
    end%string.

(** [NarStore::verify]: [rehash] reads the object back. *)
Definition nar_store_verify (objects : gmap string string) (prefix hash file_hash : string) (file_size : Z) (rehash : bool)
    : result () VerifyError :=
  match objects !! object_path prefix hash with
  | None => Err VMissing
  | Some bytes =>
      if negb (strlen bytes =? file_size) then Err (VSize file_size (strlen bytes))
      else if rehash then verify_nar_bytes bytes file_hash file_size else Ok tt
  end.

Definition commit_presigned (w : Cache) (d : Deployment) (c : CommitUploadedNar) (rehash : bool) : result () string :=
  let r := nu_record (cu_upload c) in
  match nar_store_verify (c_objects w) (de_prefix d) (cu_hash c) (up_file_hash r) (up_file_size r) rehash with
  | Ok _ => Ok tt
  | Err _ => Err "presigned NAR upload verification failed"%string
  end.

(** [as i64]. *)
Definition as_i64 (z : Z) : Z := (z + 2 ^ 63) mod 2 ^ 64 - 2 ^ 63.

(** The rows of a commit that stored its NAR. [id] is the fresh id of a new row, [bucket]
    the minute of the counters. *)
Definition record_commit (db : CacheDb) (d : Deployment) (c : CommitUploadedNar) (id bucket : Z) : CacheDb :=
  let r := nu_record (cu_upload c) in
  let size := as_i64 (up_file_size r) in
  let recorded := {| up_file_hash := up_file_hash r; up_file_size := size; up_nar_size := as_i64 (up_nar_size r);
    up_nar_hash := up_nar_hash r; up_references := up_references r; up_deriver := up_deriver r; up_ca := up_ca r |} in
  let db := match mark_nar_stored db d id (cu_org_id c) (nu_store_path (cu_upload c)) recorded with Ok db => db | Err _ => db end in
  default db (record_nar_push_metric db (cu_org_id c) bucket size).

(** Everything before the rows. *)
Definition store_commit (w : Cache) (d : Deployment) (c : CommitUploadedNar) (rehash : bool) (f : CommitFaults) : Cache * result () string :=
  match cu_staged c with
  | Some staged => commit_relayed w d c staged f
  | None => (w, commit_presigned w d c rehash)
  end.

Definition commit_uploaded_nar (w : Cache) (d : Deployment) (c : CommitUploadedNar) (rehash : bool) (id bucket : Z) (f : CommitFaults)
    : Cache * list Event :=
  match store_commit w d c rehash f with
  | (w, Err reason) => (w, fail_build_transient c reason)
  | (w, Ok _) =>
      ({| c_partials := c_partials w; c_objects := c_objects w; c_db := record_commit (c_db w) d c id bucket |}, [])
  end.

(** ** A server: its sessions, and the commits they started *)

Record Server := {
  sv_cache : Cache;
  sv_sessions : gmap string NarReceiveStore;
  sv_waiting : list CommitUploadedNar;   (* not begun *)
  sv_stored : list CommitUploadedNar;    (* bytes stored, rows not yet written *)
}.

Inductive Input :=
| Connect (peer : string)
| Header (peer job_id store_path token : string) (fault : Fault)
| Push (peer job_id store_path data : string) (offset now : Z) (fault fault' : Fault)
| Uploaded (peer : string) (u : NarUploaded) (fault : Fault)
| StoreNext (i : nat) (rehash : bool) (f : CommitFaults)
| RecordNext (i : nat) (id bucket : Z)
| Sweep (ttl now : Z).

Definition with_c_partials (w : Cache) (s : Partials) : Cache := {| c_partials := s; c_objects := c_objects w; c_db := c_db w |}.

Definition set_session (sv : Server) (peer : string) (n : NarReceiveStore) (s : Partials) : Server :=
  {| sv_cache := with_c_partials (sv_cache sv) s; sv_sessions := <[peer := n]> (sv_sessions sv);
     sv_waiting := sv_waiting sv; sv_stored := sv_stored sv |}.

(** A step of the server; [max] is the budget of a session. *)
Definition server_step (d : Deployment) (org_for_job : string -> option Z) (max : Z) (sv : Server) (i : Input) : Server * list Event :=
  let s := c_partials (sv_cache sv) in
  match i with
  | Connect peer => (set_session sv peer (new_receive_store peer max) s, [])
  | Header peer job path token fault =>
      match sv_sessions sv !! peer with
      | None => (sv, [])
      | Some n => let '(n, s, out) := on_push_stream_header n s job path token fault in (set_session sv peer n s, out)
      end
  | Push peer job path data offset now fault fault' =>
      match sv_sessions sv !! peer with
      | None => (sv, [])
      | Some n => let '(n, s, out) := on_nar_push n s job path data offset now fault fault' in (set_session sv peer n s, out)
      end
  | Uploaded peer u fault =>
      match sv_sessions sv !! peer with
      | None => (sv, [])
      | Some n =>
          let '(n, s, out, commit) := on_nar_uploaded n s u org_for_job fault in
          let sv := set_session sv peer n s in
          ({| sv_cache := sv_cache sv; sv_sessions := sv_sessions sv;
              sv_waiting := (sv_waiting sv ++ match commit with Some c => [c] | None => [] end)%list; sv_stored := sv_stored sv |}, out)
      end
  | StoreNext k rehash f =>
      match sv_waiting sv !! k with
      | None => (sv, [])
      | Some c =>
          let (w, stored) := store_commit (sv_cache sv) d c rehash f in
          ({| sv_cache := w; sv_sessions := sv_sessions sv; sv_waiting := delete k (sv_waiting sv);
              sv_stored := (sv_stored sv ++ match stored with Ok _ => [c] | Err _ => [] end)%list |},
           match stored with Ok _ => [] | Err reason => fail_build_transient c reason end)
      end
  | RecordNext k id bucket =>
      match sv_stored sv !! k with
      | None => (sv, [])
      | Some c =>
          let w := sv_cache sv in
          ({| sv_cache := {| c_partials := c_partials w; c_objects := c_objects w; c_db := record_commit (c_db w) d c id bucket |};
              sv_sessions := sv_sessions sv; sv_waiting := sv_waiting sv; sv_stored := delete k (sv_stored sv) |}, [])
      end
  | Sweep ttl now => ({| sv_cache := with_c_partials (sv_cache sv) (fst (gc s ttl now)); sv_sessions := sv_sessions sv;
                         sv_waiting := sv_waiting sv; sv_stored := sv_stored sv |}, [])
  end.

End commits.

(** ** The path and its hash *)

Lemma split_once_head c s l r : split_once c s = Some (l, r) -> head (split_char c s) = Some l.
Proof.
  intros H. apply split_once_Some in H as [Hl ->]. by rewrite split_char_app.
Qed.

Lemma alnum_no_slash s : all_chars is_ascii_alphanumeric s = true -> contains_char "/" s = false.
Proof.
  induction s as [|c s IH]; [done|]. cbn [all_chars contains_char]. intros [Hc Hs]%andb_true_iff. rewrite IH by done. rewrite orb_false_r.
  destruct (Ascii.eqb_spec c "/"); [|done]. by subst c.
Qed.

Lemma store_hash_part path h : store_hash path = Some h -> hash_part path = h /\ String.length h = 32%nat /\ all_chars is_ascii_alphanumeric h = true.
Proof.
  unfold store_hash. destruct (_ && _) eqn:E; [|done]. intros [= <-]. apply andb_true_iff in E as [E1%Nat.eqb_eq E2]. done.
Qed.

Lemma head_split_app c s h : head (split_char c s) = Some h -> exists t, s = (h +:+ t)%string.
Proof.
  revert h. induction s as [|a s IH]; intros h; cbn [split_char]; [intros [= <-]; by exists ""%string|].
  destruct (Ascii.eqb a c); [intros [= <-]; by eexists|]. destruct (split_char c s) as [|w ws]; intros [= <-].
  - by exists s.
  - destruct (IH w eq_refl) as [t ->]. by exists t.
Qed.

(** The two ways the code cuts the hash out of a path agree. *)
Lemma parse_store_hash path h sp : store_hash path = Some h -> parse_store_path path = Ok sp -> sp_hash sp = h.
Proof.
  intros Hh Hp. apply store_hash_part in Hh as (Hpart & Hlen & Hal). unfold parse_store_path in Hp.
  destruct (StorePath_parse path) as [sp'|] eqn:Ep; [|done]. destruct (is_nix32_hash _); [|done]. injection Hp as ->.
  set (rest := default path (strip_prefix "/nix/store/" path)).
  assert (Hhead : head (split_char "-" rest) = Some h).
  { unfold hash_part in Hpart. fold rest in Hpart. destruct (split_char "-" rest) eqn:E; [by destruct (split_char_nonempty "-" rest)|]. cbn in Hpart. cbn. by rewrite Hpart. }
  destruct (head_split_app _ _ _ Hhead) as [t Ht].
  assert (Hbase : match strip_prefix STORE_DIR path with Some r => trim_start_matches "/" r | None => path end = rest).
  { unfold rest in *. clear rest. destruct (strip_prefix "/nix/store/" path) as [r|] eqn:Es; cbn [from_option id] in *.
    - apply strip_prefix_Some in Es as ->. change ("/nix/store/" ++ r)%string with (STORE_DIR ++ String "/" r)%string. rewrite strip_prefix_app.
      cbn [trim_start_matches Ascii.eqb]. rewrite Ht. apply trim_start_app; [by destruct h|by apply alnum_no_slash].
    - destruct (strip_prefix STORE_DIR path) as [r|] eqn:Es'; [|done]. apply strip_prefix_Some in Es'. exfalso. rewrite Es' in Ht.
      destruct h as [|c h]; [done|]. change (STORE_DIR ++ r)%string with (String "/" ("nix/store" ++ r))%string in Ht.
      change (String c h +:+ t)%string with (String c (h +:+ t)) in Ht. injection Ht as <- _. cbn in Hal. done. }
  unfold StorePath_parse in Ep. rewrite Hbase in Ep. destruct (split_once "-" rest) as [[l r]|] eqn:Eo; [|done].
  destruct (_ || _) in Ep; [done|]. injection Ep as <-. cbn. apply split_once_head in Eo. congruence.
Qed.

(** ** Rows *)

Definition ids_unique (db : CacheDb) : Prop := NoDup (map kp_id (cached_paths db)).

Lemma find_map_hash (g : CachedPath -> CachedPath) h l :
  (forall r, kp_hash (g r) = kp_hash r) ->
  List.find (fun r => String.eqb (kp_hash r) h) (map g l) = g <$> List.find (fun r => String.eqb (kp_hash r) h) l.
Proof. intros Hg. induction l as [|r l IH]; [done|]. cbn. rewrite Hg. by destruct (String.eqb (kp_hash r) h). Qed.

Lemma find_app_hash h l r :
  List.find (fun r => String.eqb (kp_hash r) h) (l ++ [r]) =
  match List.find (fun r => String.eqb (kp_hash r) h) l with Some x => Some x | None => if String.eqb (kp_hash r) h then Some r else None end.
Proof. induction l as [|x l IH]; [done|]. cbn. by destruct (String.eqb (kp_hash x) h). Qed.

Lemma find_path_ext db db' h : cached_paths db = cached_paths db' -> find_path db h = find_path db' h.
Proof. unfold find_path. by intros ->. Qed.

Lemma find_path_hash db h r : find_path db h = Some r -> kp_hash r = h /\ In r (cached_paths db).
Proof. intros H. apply find_some in H as [Hin Heq]. by apply String.eqb_eq in Heq. Qed.

Section rows.
Context `{DG : Digests} `{SG : Signing}.

Lemma unique_ids_inj db r1 r2 : ids_unique db -> In r1 (cached_paths db) -> In r2 (cached_paths db) -> kp_id r1 = kp_id r2 -> r1 = r2.
Proof.
  unfold ids_unique. induction (cached_paths db) as [|x l IH]; cbn; [done|]. rewrite NoDup_cons. intros [Hx Hl] H1 H2 Heq.
  assert (Hin : forall r, In r l -> kp_id r ∈ map kp_id l) by (intros r Hr; apply list_elem_of_In, in_map, Hr).
  destruct H1 as [->|H1], H2 as [->|H2]; [done|..].
  - destruct Hx. rewrite Heq. by apply Hin.
  - destruct Hx. rewrite <- Heq. by apply Hin.
  - by apply IH.
Qed.

(** Recording an upload writes the row of its hash and no other. *)
Lemma upsert_lookup db id h package input : ids_unique db ->
  exists row, find_path (fst (upsert_path db (find_path db h) id h package input)) h = Some row /\
    kp_file_hash row = Some (normalize_nar_hash (in_file_hash input)) /\
    kp_id row = io_cached_path (snd (upsert_path db (find_path db h) id h package input)) /\
    (forall h', h' <> h -> find_path (fst (upsert_path db (find_path db h) id h package input)) h' = find_path db h').
Proof.
  intros Hu. unfold upsert_path. destruct (find_path db h) as [row|] eqn:Ef.
  - set (g := fun r => if kp_id r =? kp_id row then refreshed input r else r).
    assert (Hg : forall r, kp_hash (g r) = kp_hash r) by (intros r; unfold g; by destruct (_ =? _)).
    exists (g row). cbn [fst snd io_cached_path]. unfold find_path, with_paths. cbn [cached_paths]. split_and!.
    + rewrite find_map_hash by done. unfold find_path in Ef. by rewrite Ef.
    + unfold g. by rewrite Z.eqb_refl.
    + unfold g. by rewrite Z.eqb_refl.
    + intros h' Hne. rewrite find_map_hash by done. destruct (List.find _ (cached_paths db)) as [r|] eqn:Er; [|done]. simpl. f_equal. unfold g.
      destruct (Z.eqb_spec (kp_id r) (kp_id row)) as [Heq|]; [|done]. destruct Hne.
      apply find_path_hash in Ef as [<- Hin]. apply (find_path_hash db h') in Er as [<- Hin']. f_equal. by eapply unique_ids_inj.
  - exists (new_path id h package input). cbn [fst snd io_cached_path]. unfold find_path, with_paths in *. cbn [cached_paths]. split_and!; [|done|done|].
    + rewrite find_app_hash, Ef. cbn. by rewrite String.eqb_refl.
    + intros h' Hne. rewrite find_app_hash. cbn [kp_hash new_path]. rewrite (proj2 (String.eqb_neq h h')) by congruence.
      by destruct (List.find (fun r => String.eqb (kp_hash r) h') (cached_paths db)).
Qed.

Lemma record_upload_paths db seen id h package input targets :
  cached_paths (fst (record_upload db seen id h package input targets)) = cached_paths (fst (upsert_path db seen id h package input)) /\
  snd (record_upload db seen id h package input targets) = snd (upsert_path db seen id h package input).
Proof. unfold record_upload. destruct (upsert_path db seen id h package input) as [db' out]. by destruct (in_references input). Qed.

Lemma sign_paths db d r : cached_paths (sign_cached_path db d r) = cached_paths db.
Proof. unfold sign_cached_path. by destruct (_ || _). Qed.

Lemma mark_paths db d id org path r sp h :
  ids_unique db -> store_hash path = Some h -> parse_store_path path = Ok sp ->
  exists db', mark_nar_stored db d id org path r = Ok db' /\
    (exists row, find_path db' h = Some row /\ kp_file_hash row = Some (normalize_nar_hash (up_file_hash r))) /\
    (forall h', h' <> h -> find_path db' h' = find_path db h').
Proof.
  intros Hu Hh Hp. pose proof (parse_store_hash _ _ _ Hh Hp) as Hsp. apply store_hash_part in Hh as (Hpart & Hlen & _).
  unfold mark_nar_stored. rewrite Hpart. destruct (String.eqb_spec h "") as [->|_]; [done|]. unfold ingest_metadata_only. cbn [in_store_path]. rewrite Hp.
  cbn [result_bind]. unfold upsert_and_sign. rewrite Hsp. set (input := {| in_store_path := path |}). set (targets := match org with Some o => OrgCaches o | None => NoTarget end).
  pose proof (record_upload_paths db (find_path db h) id h (sp_name_ sp) input targets) as [Hpaths _].
  destruct (upsert_lookup db id h (sp_name_ sp) input Hu) as (row & Hrow & Hfh & _ & Hother).
  eexists. split; [done|].
  assert (Hsame : forall x h', find_path (match org with Some _ => sign_cached_path x d {| rq_cached_path := io_cached_path (snd (record_upload db (find_path db h) id h (sp_name_ sp) input targets)); rq_store_path := path;
            rq_nar_hash := up_nar_hash r; rq_nar_size := up_nar_size r; rq_references := up_references r |} | None => x end) h' = find_path x h').
  { intros x h'. unfold find_path. destruct org; [by rewrite sign_paths|done]. }
  split; [exists row; split; [|done]|intros h' Hne]; rewrite Hsame.
  - rewrite <- Hrow. by apply find_path_ext.
  - rewrite <- (Hother h' Hne). by apply find_path_ext.
Qed.

Lemma metric_paths db org bucket bytes db' : record_nar_push_metric db org bucket bytes = Some db' -> cached_paths db' = cached_paths db.
Proof. unfold record_nar_push_metric. destruct org; [|by intros [= ->]]. destruct (List.find _ _); [|done]. by intros [= <-]. Qed.

Lemma record_commit_paths db d c id bucket sp :
  ids_unique db -> store_hash (nu_store_path (cu_upload c)) = Some (cu_hash c) -> parse_store_path (nu_store_path (cu_upload c)) = Ok sp ->
  (exists row, find_path (record_commit db d c id bucket) (cu_hash c) = Some row /\
     kp_file_hash row = Some (normalize_nar_hash (up_file_hash (nu_record (cu_upload c))))) /\
  (forall h', h' <> cu_hash c -> find_path (record_commit db d c id bucket) h' = find_path db h').
Proof.
  intros Hu Hh Hp. unfold record_commit. set (r := {| up_file_hash := _ |}).
  destruct (mark_paths db d id (cu_org_id c) _ r sp _ Hu Hh Hp) as (db' & -> & Hrow & Hother).
  assert (Hm : forall h', find_path (default db' (record_nar_push_metric db' (cu_org_id c) bucket (as_i64 (up_file_size (nu_record (cu_upload c)))))) h' = find_path db' h').
  { intros h'. destruct (record_nar_push_metric _ _ _ _) as [db''|] eqn:E; [|done]. simpl. unfold find_path. by rewrite (metric_paths _ _ _ _ _ E). }
  split; [destruct Hrow as (row & Hrow & Hfh); exists row; by rewrite Hm|]. intros h' Hne. rewrite Hm. by apply Hother.
Qed.

End rows.

(** ** Objects *)

Lemma object_path_inj prefix h1 h2 :
  (2 <= String.length h1)%nat -> (2 <= String.length h2)%nat -> object_path prefix h1 = object_path prefix h2 -> h1 = h2.
Proof.
  assert (Happ : forall a b c : string, (a ++ b)%string = (a ++ c)%string -> b = c).
  { induction a as [|x a IH]; intros b c; [done|]. intros [= H]. by apply IH. }
  assert (Hsuf : forall a b c : string, (a ++ c)%string = (b ++ c)%string -> a = b).
  { intros a b c H. pose proof (strip_suffix_app a c) as Ha. rewrite H, strip_suffix_app in Ha. by simplify_eq. }
  destruct h1 as [|a1 [|b1 r1]], h2 as [|a2 [|b2 r2]]; try (cbn; lia). intros _ _.
  assert (Hp : forall a b r, object_path prefix (String a (String b r)) = (prefix ++ "nars/" ++ String a (String b (String "/" (r ++ ".nar.zst"))))%string).
  { intros a b r. unfold object_path. destruct (take_drop_nat (String a (String b r)) 2) as [Hcat _]; [cbn; lia|].
    revert Hcat. change (String.length (String a (String b r))) with (S (S (String.length r))). cbn [Nat.leb].
    replace (String.substring 0 2 (String a (String b r))) with (String a (String b "")) by (by destruct r).
    intros Hcat. assert (Hr : String.substring 2 (S (S (String.length r)) - 2) (String a (String b r)) = r) by (by injection Hcat).
    by rewrite Hr. }
  rewrite !Hp. intros H. apply Happ, Happ in H. injection H as -> -> H. by apply Hsuf in H as ->.
Qed.

Section commit_facts.
Context `{DG : Digests} `{SG : Signing}.

(** A row that gives a SHA-256 gives that of the object stored under its hash. *)
Definition rows_true (prefix : string) (db : CacheDb) (objects : gmap string string) : Prop :=
  forall hash row fh bytes, String.length hash = 32%nat -> find_path db hash = Some row -> kp_file_hash row = Some fh ->
    objects !! object_path prefix hash = Some bytes -> starts_with (normalize_nar_hash fh) "sha256:" = true ->
    normalize_nar_hash fh = canonical "sha256" (sha256_digest bytes).

(** What the commit of a relayed push has checked by the time it stores. *)
Lemma relayed_stores w d c staged f w' : commit_relayed w d c staged f = (w', Ok tt) ->
  exists bytes, verify_nar_bytes bytes (up_file_hash (nu_record (cu_upload c))) (up_file_size (nu_record (cu_upload c))) = Ok tt /\
    (exists written, put_nar_idempotent (c_db w) (c_objects w) (de_prefix d) (cu_hash c) (up_file_hash (nu_record (cu_upload c))) bytes (cf_store f)
       = Ok (c_objects w', written)) /\ c_db w' = c_db w.
Proof.
  unfold commit_relayed. destruct (received_len _ _ _ _) as [s len]. destruct (negb _); [done|]. unfold read_if.
  destruct (cf_verify_read f); [done|]. destruct (read_all s (sn_key staged) None) as [bytes|] eqn:Er; [|done].
  destruct (verify_nar_bytes bytes _ _) as [[]|] eqn:Ev; [|done]. destruct (cf_put_read f); [done|].
  destruct (put_nar_idempotent _ _ _ _ _ _ _) as [[objects written]|] eqn:Ep; [|done]. intros [= <-]. exists bytes. cbn. split_and!; [done|by exists written|done].
Qed.

Lemma relayed_fails w d c staged f w' reason : commit_relayed w d c staged f = (w', Err reason) -> c_objects w' = c_objects w /\ c_db w' = c_db w.
Proof.
  unfold commit_relayed. destruct (received_len _ _ _ _) as [s len]. destruct (negb _); [by intros [= <- _]|].
  destruct (read_if (cf_verify_read f) _ _); [|by intros [= <- _]]. destruct (verify_nar_bytes _ _ _); [|by intros [= <- _]].
  destruct (read_if (cf_put_read f) _ _); [|by intros [= <- _]]. destruct (put_nar_idempotent _ _ _ _ _ _ _) as [[]|]; [done|by intros [= <- _]].
Qed.

(** The stored object, written now or kept because the row says it is this one. *)
Lemma put_stores db store prefix hash file_hash bytes faults store' written :
  put_nar_idempotent db store prefix hash file_hash bytes faults = Ok (store', written) ->
  (written = true /\ store' = <[object_path prefix hash := bytes]> store) \/
  (written = false /\ store' = store /\ exists row kept, find_path db hash = Some row /\
     kp_file_hash row = Some (normalize_nar_hash file_hash) /\ store !! object_path prefix hash = Some kept).
Proof.
  unfold put_nar_idempotent, nar_write_needed. destruct (negb (fault_lookup faults)); cbn [andb].
  2:{ cbn. destruct (fault_put faults); [done|]. intros [= <- <-]. by left. }
  destruct (find_path db hash) as [row|] eqn:Er; cbn [mbind option_bind].
  2:{ cbn. destruct (fault_put faults); [done|]. intros [= <- <-]. by left. }
  destruct (kp_file_hash row) as [fh|] eqn:Ef; [destruct (String.eqb_spec fh (normalize_nar_hash file_hash)) as [->|]|].
  - destruct (fault_head faults); [done|]. unfold object_exists. destruct (store !! object_path prefix hash) as [kept|] eqn:Ek; cbn.
    + intros [= <- <-]. right. split_and!; [done|done|]. by exists row, kept.
    + destruct (fault_put faults); [done|]. intros [= <- <-]. by left.
  - cbn. destruct (fault_put faults); [done|]. intros [= <- <-]. by left.
  - cbn. destruct (fault_put faults); [done|]. intros [= <- <-]. by left.
Qed.


(** Two uploads of one path with different contents, in flight at once: when both are
    stored before either writes its row and the first to store writes last, the row gives
    the hash of the first NAR and the object is the second. The first NAR is then taken to
    be stored already, so uploading it again does not repair the object. *)
Theorem racing_commits_corrupt d org_for_job max sv a b rha rhb fa fb sa sb spa spb w1 w2 ida idb bka bkb :
  sv_waiting sv = [a; b] -> sv_stored sv = [] -> cu_staged a = Some sa -> cu_staged b = Some sb ->
  cu_hash a = cu_hash b -> ids_unique (c_db (sv_cache sv)) -> ids_unique (record_commit (c_db (sv_cache sv)) d b idb bkb) ->
  store_hash (nu_store_path (cu_upload a)) = Some (cu_hash a) -> parse_store_path (nu_store_path (cu_upload a)) = Ok spa ->
  store_hash (nu_store_path (cu_upload b)) = Some (cu_hash b) -> parse_store_path (nu_store_path (cu_upload b)) = Ok spb ->
  starts_with (normalize_nar_hash (up_file_hash (nu_record (cu_upload a)))) "sha256:" = true ->
  starts_with (normalize_nar_hash (up_file_hash (nu_record (cu_upload b)))) "sha256:" = true ->
  normalize_nar_hash (up_file_hash (nu_record (cu_upload a))) <> normalize_nar_hash (up_file_hash (nu_record (cu_upload b))) ->
  (forall row, find_path (c_db (sv_cache sv)) (cu_hash a) = Some row ->
     kp_file_hash row <> Some (normalize_nar_hash (up_file_hash (nu_record (cu_upload b))))) ->
  store_commit (sv_cache sv) d a rha fa = (w1, Ok tt) -> store_commit w1 d b rhb fb = (w2, Ok tt) ->
  let step sv i := fst (server_step d org_for_job max sv i) in
  let w := sv_cache (step (step (step (step sv (StoreNext 0 rha fa)) (StoreNext 0 rhb fb)) (RecordNext 1 idb bkb)) (RecordNext 0 ida bka)) in
  ~ rows_true (de_prefix d) (c_db w) (c_objects w) /\
  nar_write_needed (c_db w) (c_objects w) (de_prefix d) (cu_hash a) (up_file_hash (nu_record (cu_upload a))) false false = Ok false.
Proof.
  intros Hw Hs Hsa Hsb Hab Hu Hu' Hha Hpa Hhb Hpb Hshaa Hshab Hne Hnorow H1 H2 step.
  assert (Hstep : sv_cache (step (step (step (step sv (StoreNext 0 rha fa)) (StoreNext 0 rhb fb)) (RecordNext 1 idb bkb)) (RecordNext 0 ida bka)) =
    {| c_partials := c_partials w2; c_objects := c_objects w2; c_db := record_commit (record_commit (c_db w2) d b idb bkb) d a ida bka |}).
  { unfold step, server_step. rewrite Hw. cbn [lookup list_lookup]. rewrite H1. cbn [sv_waiting delete list_delete fst sv_stored sv_cache]. rewrite Hs.
    cbn [app lookup list_lookup]. rewrite H2. reflexivity. }
  rewrite Hstep. cbn [c_db c_objects]. clear Hstep step.
  unfold store_commit in H1, H2. rewrite Hsa in H1. rewrite Hsb in H2.
  apply relayed_stores in H1 as (bytesa & Hva & (wa & Hputa) & Hdb1). apply relayed_stores in H2 as (bytesb & Hvb & (wb & Hputb) & Hdb2).
  rewrite Hdb2, Hdb1 in *. apply verify_spec in Hvb as [_ Hvb].
  pose proof (record_commit_paths _ d a ida bka spa Hu' Hha Hpa) as [(row & Hrow & Hfh) _].
  assert (Hobj : c_objects w2 !! object_path (de_prefix d) (cu_hash a) = Some bytesb).
  { apply put_stores in Hputb as [[_ ->]|(_ & _ & row0 & kept & Hrow0 & Hfh0 & _)]; [by rewrite <- Hab, lookup_insert_eq|].
    rewrite <- Hab in Hrow0. by destruct (Hnorow _ Hrow0). }
  pose proof (store_hash_part _ _ Hha) as (_ & Hlen & _). split.
  - intros Htrue. specialize (Htrue (cu_hash a) row _ bytesb Hlen Hrow Hfh Hobj). rewrite normalize_idempotent in Htrue.
    apply Hne. rewrite (Htrue Hshaa). symmetry. by apply Hvb.
  - unfold nar_write_needed. rewrite Hrow. cbn [mbind option_bind negb andb]. rewrite Hfh, String.eqb_refl. unfold object_exists. by rewrite Hobj.
Qed.

End commit_facts.

(** ** The budget *)

Lemma staged_total_insert n sk st :
  staged_total (with_active n (<[sk := st]> (nr_active n))) = ps_staged st + staged_total (with_active n (delete sk (nr_active n))).
Proof.
  unfold staged_total. cbn [nr_active with_active]. rewrite <- insert_delete_eq.
  rewrite (map_fold_insert_L _ 0 sk st (delete sk (nr_active n))); [done|intros; lia|by rewrite lookup_delete_eq].
Qed.

Lemma staged_total_pos n : map_Forall (fun _ st => 0 <= ps_staged st) (nr_active n) -> 0 <= staged_total n.
Proof.
  unfold staged_total. generalize (nr_active n) as m. clear n. intros m. induction m as [|k st m Hk Hf IH] using map_first_key_ind; [done|].
  intros Hall. rewrite map_fold_insert_L; [|intros; lia|done]. apply map_Forall_insert in Hall as [H1 H2]; [|done]. specialize (IH H2). cbn in *. lia.
Qed.

(** A chunk is staged only within the budget of its session and where the file ends (or
    from the start); every other chunk of a path not yet rejected poisons it: nothing of it
    stays staged, its share of the budget is free again, and what follows is dropped. *)
Theorem append_within_budget n s job path hash offset data now fault :
  store_hash path = Some hash -> state_key job path ∉ nr_poisoned n -> nr_max_bytes n < MAX_U64 ->
  let '(n', s', outcome) := nar_append n s job path offset data now fault None in
  match outcome with
  | AppendOk => staged_total n' <= nr_max_bytes n /\ fault = None /\ (offset = 0 \/ offset = file_len s (stage_key n job hash)) /\
      staged_total n' = staged_total n + strlen data
  | AppendOverflow => nr_active n' = delete (state_key job path) (nr_active n) /\
      pt_files s' !! stage_key n job hash = None /\ is_poisoned n' job path = true
  | AppendPoisoned => False
  end.
Proof.
  intros Hh Hnp Hmax. unfold nar_append. rewrite bool_decide_eq_false_2 by done. rewrite Hh.
  set (sk := state_key job path). set (st := default no_token (nr_active n !! sk)).
  assert (Hsame : staged_total (with_active n (<[sk := st]> (nr_active n))) = staged_total n).
  { rewrite staged_total_insert. destruct (nr_active n !! sk) as [x|] eqn:Ex; unfold st; simpl.
    - rewrite <- staged_total_insert. unfold staged_total. cbn. by rewrite insert_id.
    - rewrite delete_id by done. destruct n. unfold staged_total. cbn. lia. }
  rewrite Hsame. destruct (Z.ltb_spec (nr_max_bytes n) (saturating_add_u64 (staged_total n) (strlen data))) as [Hover|Hfits]; cbn [nr_max_bytes with_active] in *.
  { rewrite (proj2 (Z.ltb_lt _ _)) by done. unfold poison. cbn. split_and!.
    - by rewrite delete_insert_eq.
    - by rewrite lookup_delete_eq.
    - apply bool_decide_eq_true_2. cbn. set_solver. }
  rewrite (proj2 (Z.ltb_ge _ _)) by done. pose proof (append_refused s (stage_key (with_active n (<[sk:=st]> (nr_active n))) job hash) (ps_token st) offset data now fault) as Href.
  destruct (append s _ (ps_token st) offset data now fault) as [s' [|]].
  - destruct (Href eq_refl) as [-> Hoff]. cbn [nr_active with_active]. rewrite insert_insert_eq. unfold saturating_add_u64 in Hfits.
    assert (Heq : staged_total {| nr_peer_id := nr_peer_id n; nr_max_bytes := nr_max_bytes n;
        nr_active := <[sk := {| ps_token := ps_token st; ps_staged := ps_staged st + strlen data |}]> (nr_active n); nr_poisoned := nr_poisoned n |}
      = staged_total n + strlen data).
    { pose proof (staged_total_insert n sk {| ps_token := ps_token st; ps_staged := ps_staged st + strlen data |}) as H1.
      pose proof (staged_total_insert n sk st) as H2. unfold with_active in *. cbn in *. lia. }
    unfold with_active. cbn. split_and!; [|done|done|exact Heq]. rewrite Heq. lia.
  - unfold poison. cbn. split_and!.
    + by rewrite delete_insert_eq.
    + by rewrite lookup_delete_eq.
    + apply bool_decide_eq_true_2. cbn. set_solver.
Qed.

(** ** A push that is left alone *)

Fixpoint push_all (n : NarReceiveStore) (s : Partials) (job path : string) (chunks : list string) (offset now : Z)
    : NarReceiveStore * Partials * list Event :=
  match chunks with
  | [] => (n, s, [])
  | data :: chunks =>
      let '(n, s, out) := on_nar_push n s job path data offset now None None in
      let '(n, s, out') := push_all n s job path chunks (offset + strlen data) now in
      (n, s, out ++ out')
  end.

(** [staged] of the path is in the file and counted, besides [others] bytes of other paths. *)
Definition staged_upto (n : NarReceiveStore) (s : Partials) (job path hash token staged : string) (others : Z) : Prop :=
  nr_active n !! state_key job path = Some {| ps_token := token; ps_staged := strlen staged |} /\
  state_key job path ∉ nr_poisoned n /\
  staged_total (with_active n (delete (state_key job path) (nr_active n))) = others /\
  (staged = ""%string \/ ((pf_bytes <$> pt_files s !! stage_key n job hash) = Some staged /\ pt_tokens s !! stage_key n job hash = Some token)).

Lemma push_one n s job path hash token staged others data now :
  store_hash path = Some hash -> staged_upto n s job path hash token staged others -> nr_max_bytes n < MAX_U64 ->
  others + strlen staged + strlen data <= nr_max_bytes n ->
  exists n' s', on_nar_push n s job path data (strlen staged) now None None = (n', s', []) /\
    staged_upto n' s' job path hash token (staged +:+ data) others /\ nr_max_bytes n' = nr_max_bytes n /\ nr_peer_id n' = nr_peer_id n.
Proof.
  intros Hh (Hact & Hnp & Hoth & Hfile) Hmax Hfits. unfold on_nar_push. destruct (String.eqb_spec data "") as [->|Hd].
  { exists n, s. rewrite string_app_nil_r. split_and!; try done. }
  unfold nar_append. rewrite bool_decide_eq_false_2 by done. rewrite Hh, Hact. cbn [from_option id].
  set (sk := state_key job path) in *. set (st := {| ps_token := token; ps_staged := strlen staged |}).
  rewrite (staged_total_insert n sk st), Hoth. cbn [ps_staged st nr_max_bytes with_active].
  rewrite (proj2 (Z.ltb_ge _ _)) by (unfold saturating_add_u64; lia).
  change (stage_key _ job hash) with (stage_key n job hash). change (ps_token st) with token.
  destruct (append_ok s (stage_key n job hash) token (strlen staged) data now) as (s' & -> & Hf & Ht & _ & _).
  { destruct Hfile as [->|[Hf _]]; [by left|]. right. unfold file_len. destruct (pt_files s !! stage_key n job hash); [|done]. simpl in Hf. by simplify_eq. }
  eexists _, s'. split; [done|]. cbn [nr_active with_active ps_token st]. unfold staged_upto. cbn [nr_active with_active nr_poisoned nr_max_bytes nr_peer_id].
  rewrite insert_insert_eq, lookup_insert_eq, strlen_app. split_and!; try done.
  - rewrite <- Hoth. unfold staged_total. cbn. by rewrite delete_insert_eq.
  - right. change (stage_key _ job hash) with (stage_key n job hash). rewrite Hf. split; [|done]. cbn. f_equal. destruct Hfile as [->|[Hf' _]]; [done|].
    destruct (pt_files s !! stage_key n job hash) as [f|]; [|done]. simpl in Hf'. simplify_eq. cbn.
    destruct (Z.eqb_spec (strlen (pf_bytes f)) 0) as [He|]; [|done]. unfold strlen in He. by destruct (pf_bytes f).
Qed.

Lemma push_many n s job path hash token others now chunks : forall staged n0 s0, n0 = n -> s0 = s ->
  store_hash path = Some hash -> staged_upto n s job path hash token staged others -> nr_max_bytes n < MAX_U64 ->
  others + strlen staged + strlen (String.concat "" chunks) <= nr_max_bytes n ->
  exists n' s', push_all n s job path chunks (strlen staged) now = (n', s', []) /\
    staged_upto n' s' job path hash token (staged +:+ String.concat "" chunks) others /\ nr_peer_id n' = nr_peer_id n.
Proof.
  revert n s. induction chunks as [|data chunks IH]; intros n s staged n0 s0 -> -> Hh Hst Hmax Hfits.
  { exists n, s. cbn. rewrite string_app_nil_r. by split_and!. }
  assert (Hcat : String.concat "" (data :: chunks) = (data +:+ String.concat "" chunks)%string).
  { destruct chunks; [by rewrite string_app_nil_r|done]. }
  rewrite Hcat in Hfits |- *. rewrite strlen_app in Hfits. pose proof (strlen_pos (String.concat "" chunks)).
  destruct (push_one n s job path hash token staged others data now Hh Hst Hmax ltac:(lia)) as (n1 & s1 & Hp & Hst1 & Hm1 & Hpeer).
  cbn [push_all]. rewrite Hp.
  destruct (IH n1 s1 (staged +:+ data)%string n1 s1 eq_refl eq_refl Hh Hst1 ltac:(by rewrite Hm1) ltac:(rewrite Hm1, strlen_app; lia)) as (n2 & s2 & Hall & Hst2 & Hp2).
  rewrite strlen_app in Hall. rewrite Hall. exists n2, s2. split; [done|]. rewrite string_app_assoc in Hst2. split; [done|]. by rewrite Hp2.
Qed.

Lemma header_staged n s job path hash token staged others :
  store_hash path = Some hash ->
  staged_total (with_active n (delete (state_key job path) (nr_active n))) = others ->
  ((pf_bytes <$> pt_files s !! stage_key n job hash) = Some staged /\ pt_tokens s !! stage_key n job hash = Some token) \/
  (staged = ""%string /\ pt_tokens s !! stage_key n job hash <> Some token) ->
  exists n' s', on_push_stream_header n s job path token None = (n', s', [NarPushResume job path (strlen staged)]) /\
    staged_upto n' s' job path hash token staged others /\ nr_max_bytes n' = nr_max_bytes n /\ nr_peer_id n' = nr_peer_id n.
Proof.
  intros Hh Hoth Hres. unfold on_push_stream_header, note_header. rewrite Hh.
  change (stage_key (with_poisoned n (nr_poisoned n ∖ {[state_key job path]})) job hash) with (stage_key n job hash).
  set (key := stage_key n job hash) in *. set (sk := state_key job path) in *.
  assert (Hrec : exists s', received_len s key token None = (s', Some (strlen staged)) /\
    (staged = ""%string \/ ((pf_bytes <$> pt_files s' !! key) = Some staged /\ pt_tokens s' !! key = Some token))).
  { unfold received_len. cbn [fails]. destruct Hres as [[Hf Ht]|[-> Ht]].
    - rewrite Ht, String.eqb_refl. cbn [negb]. exists s. split; [|by right]. unfold file_len. destruct (pt_files s !! key); [|done]. simpl in Hf. by simplify_eq.
    - destruct (pt_tokens s !! key) as [t|] eqn:Et; [|exists s; split; [done|by left]]. rewrite (proj2 (String.eqb_neq t token)) by congruence. cbn. eexists. split; [done|by left]. }
  destruct Hrec as (s' & Hr & Hfile). rewrite Hr. cbn [from_option id]. eexists _, s'. split; [done|]. unfold staged_upto. cbn [nr_active with_active nr_poisoned with_poisoned].
  rewrite lookup_insert_eq. split_and!; try done; [set_solver|].
  rewrite <- Hoth. unfold staged_total. cbn. by rewrite delete_insert_eq.
Qed.

Section pushes.
Context `{DG : Digests} `{SG : Signing}.

(** C37. A push in which nothing fails: the header is answered with the bytes staged under
    its token, the chunks that complete them are taken in silence, and the report that
    follows commits exactly the bytes of the whole NAR, whether they came in one session
    or the first of them in an earlier one. *)
Theorem push_commits_exact w d n job path hash token staged chunks now u org rehash others :
  store_hash path = Some hash ->
  staged_total (with_active n (delete (state_key job path) (nr_active n))) = others ->
  ((pf_bytes <$> pt_files (c_partials w) !! stage_key n job hash) = Some staged /\ pt_tokens (c_partials w) !! stage_key n job hash = Some token) \/
  (staged = ""%string /\ pt_tokens (c_partials w) !! stage_key n job hash <> Some token) ->
  let o := (staged +:+ String.concat "" chunks)%string in
  o <> ""%string -> nr_max_bytes n < MAX_U64 -> others + strlen o <= nr_max_bytes n ->
  nu_job_id u = job -> nu_store_path u = path -> up_file_size (nu_record u) = strlen o ->
  verify_nar_bytes o (up_file_hash (nu_record u)) (strlen o) = Ok tt ->
  exists n1 s1 n2 s2 n3 s3 c w' written,
    on_push_stream_header n (c_partials w) job path token None = (n1, s1, [NarPushResume job path (strlen staged)]) /\
    push_all n1 s1 job path chunks (strlen staged) now = (n2, s2, []) /\
    on_nar_uploaded n2 s2 u org None = (n3, s3, [], Some c) /\
    store_commit (with_c_partials w s3) d c rehash no_faults = (w', Ok tt) /\
    put_nar_idempotent (c_db w) (c_objects w) (de_prefix d) hash (up_file_hash (nu_record u)) o (cf_store no_faults) = Ok (c_objects w', written).
Proof.
  intros Hh Hoth Hres o Hne Hmax Hfits Hj Hp Hsize Hver.
  destruct (header_staged n (c_partials w) job path hash token staged others Hh Hoth Hres) as (n1 & s1 & Hhead & Hst1 & Hm1 & Hpeer1).
  assert (Ho : strlen o = strlen staged + strlen (String.concat "" chunks)) by (unfold o; by rewrite strlen_app).
  destruct (push_many n1 s1 job path hash token others now chunks staged n1 s1 eq_refl eq_refl Hh Hst1 ltac:(lia) ltac:(lia)) as (n2 & s2 & Hall & Hst2 & Hpeer2).
  destruct Hst2 as (Hact & Hnp & _ & Hfile). fold o in Hact, Hfile. destruct Hfile as [->|[Hf Ht]]; [done|].
  destruct (pt_files s2 !! stage_key n2 job hash) as [f|] eqn:Ef; [|done]. simpl in Hf. injection Hf as Hf.
  set (claim := claim_key (stage_key n2 job hash) (pt_claims s2)).
  set (s3 := {| pt_files := <[claim := f]> (delete (stage_key n2 job hash) (pt_files s2));
    pt_tokens := <[claim := token]> (delete (stage_key n2 job hash) (pt_tokens s2)); pt_claims := u64 (pt_claims s2 + 1) |}).
  set (c := {| cu_peer_id := nr_peer_id n2; cu_upload := u; cu_org_id := org job; cu_hash := hash; cu_staged := Some {| sn_key := claim; sn_token := token |} |}).
  assert (Hup : on_nar_uploaded n2 s2 u org None = (with_active n2 (delete (state_key job path) (nr_active n2)), s3, [], Some c)).
  { unfold on_nar_uploaded. rewrite Hj, Hp. unfold is_poisoned. rewrite bool_decide_eq_false_2 by done. rewrite Hh. unfold take_staged. rewrite Hact, Hh.
    change (stage_key (with_active n2 _) job hash) with (stage_key n2 job hash). unfold detach. cbn [fails]. rewrite Ef. cbn [with_files pt_tokens]. rewrite Ht. reflexivity. }
  assert (Hput : exists objects written, put_nar_idempotent (c_db w) (c_objects w) (de_prefix d) hash (up_file_hash (nu_record u)) o (cf_store no_faults) = Ok (objects, written)).
  { unfold put_nar_idempotent, nar_write_needed. cbn [no_faults cf_store fault_lookup fault_head fault_put].
    destruct (negb false && _); cbn [result_bind]; [destruct (negb (object_exists _ _ _))|]; cbn; by eexists _, _. }
  destruct Hput as (objects & written & Hput).
  exists n1, s1, n2, s2, (with_active n2 (delete (state_key job path) (nr_active n2))), s3, c,
    {| c_partials := fst (discard s3 claim None); c_objects := objects; c_db := c_db w |}, written.
  split_and!; [done|done|exact Hup| |exact Hput].
  unfold store_commit, commit_relayed. cbn [cu_staged c cu_upload sn_key sn_token with_c_partials c_partials c_objects c_db no_faults cf_stat cf_verify_read cf_put_read cf_store cf_discard cu_hash read_if].
  unfold received_len. cbn [fails]. cbn [s3 pt_tokens]. rewrite lookup_insert_eq, String.eqb_refl. cbn [negb].
  unfold file_len, read_if, read_all. cbn [fails s3 pt_files]. rewrite lookup_insert_eq. cbn [fmap option_fmap option_map from_option id].
  rewrite Hf, Hsize, Z.eqb_refl. cbn [negb]. rewrite Hver. cbn [no_faults cf_store] in Hput |- *. by rewrite Hput.
Qed.

(** ** Claims outlive the budget *)

Lemma total_insert s key f : pt_files s !! key = None -> total_bytes (with_files s (<[key := f]> (pt_files s))) = strlen (pf_bytes f) + total_bytes s.
Proof. intros H. unfold total_bytes. cbn. rewrite map_fold_insert_L; [done|intros; lia|done]. Qed.

Lemma claim_key_inj key i j : claim_key key i = claim_key key j -> i = j.
Proof.
  unfold claim_key. intros H. apply (inj (String.append key)), (inj (String.append ".")) in H.
  pose proof (strip_suffix_app (pretty i) ".claim") as Hi. pose proof (strip_suffix_app (pretty j) ".claim") as Hj.
  assert (Heq : Some (pretty i) = Some (pretty j)) by (rewrite <- Hi, <- Hj; by rewrite H). injection Heq as Heq. by apply (inj pretty) in Heq.
Qed.

Lemma claim_key_longer key seq : claim_key key seq <> key.
Proof. unfold claim_key. intros H. apply (f_equal strlen) in H. rewrite !strlen_app in H. pose proof (strlen_pos (pretty seq)). change (strlen ".") with 1 in H. change (strlen ".claim") with 6 in H. lia. Qed.

(** A chunk as large as the budget, reported with a wrong size, and the failed commit. *)
Definition wasted_round (d : Deployment) (org : string -> option Z) (max : Z) (peer data : string) (u : NarUploaded) (now : Z) (sv : Server) : Server :=
  let step sv i := fst (server_step d org max sv i) in
  step (step (step sv (Push peer (nu_job_id u) (nu_store_path u) data 0 now None None)) (Uploaded peer u None)) (StoreNext 0 false no_faults).

Definition wasted (peer hash : string) (max : Z) (data job : string) (k : Z) (sv : Server) : Prop :=
  sv_sessions sv !! peer = Some (new_receive_store peer max) /\ sv_waiting sv = [] /\
  let s := c_partials (sv_cache sv) in
  let key := stage_key (new_receive_store peer max) job hash in
  pt_claims s = k /\ total_bytes s = k * strlen data /\ (forall x f, pt_files s !! x = Some f -> exists j, 0 <= j < k /\ x = claim_key key j).

Lemma wasted_step d org max peer hash data u now k sv :
  store_hash (nu_store_path u) = Some hash -> data <> ""%string -> strlen data <= max < MAX_U64 -> up_file_size (nu_record u) <> strlen data ->
  0 <= k < MAX_U64 -> wasted peer hash max data (nu_job_id u) k sv ->
  wasted peer hash max data (nu_job_id u) (k + 1) (wasted_round d org max peer data u now sv).
Proof.
  intros Hh Hd Hmax Hsize Hk (Hsess & Hwait & Hclaims & Htotal & Hkeys). set (n := new_receive_store peer max) in *.
  set (job := nu_job_id u) in *. set (path := nu_store_path u) in *. set (key := stage_key n job hash) in *. set (sk := state_key job path).
  set (s := c_partials (sv_cache sv)) in *.
  assert (Hnone : pt_files s !! key = None).
  { destruct (pt_files s !! key) as [f|] eqn:E; [|done]. destruct (Hkeys key f E) as (j & _ & Hj). by destruct (claim_key_longer key j). }
  destruct (append_ok s key "" 0 data now (or_introl eq_refl)) as (s1 & Happ & Hf1 & Ht1 & Hc1 & Hrest1).
  rewrite Hnone in Hf1. cbn in Hf1. change ("" +:+ data)%string with data in Hf1.
  set (n1 := with_active n (<[sk := {| ps_token := ""; ps_staged := strlen data |}]> ∅)).
  assert (Hpush : on_nar_push n s job path data 0 now None None = (n1, s1, [])).
  { unfold on_nar_push. rewrite (proj2 (String.eqb_neq data "")) by done. unfold nar_append. rewrite bool_decide_eq_false_2 by (cbn; set_solver). rewrite Hh.
    fold sk. change (nr_active n) with (∅ : gmap string PathState). rewrite lookup_empty. cbn [from_option id].
    assert (Htot : staged_total (with_active n (<[sk := no_token]> ∅)) = 0).
    { unfold staged_total. cbn. by rewrite insert_empty, map_fold_singleton. }
    rewrite Htot. cbn [nr_max_bytes with_active n new_receive_store]. rewrite (proj2 (Z.ltb_ge _ _)) by (unfold saturating_add_u64; lia).
    change (stage_key (with_active n (<[sk:=no_token]> ∅)) job hash) with key. change (ps_token no_token) with ""%string. rewrite Happ.
    unfold n1. f_equal. f_equal. cbn. unfold with_active. cbn. by rewrite insert_insert_eq. }
  set (claim := claim_key key k).
  set (s2 := {| pt_files := <[claim := {| pf_bytes := data; pf_mtime := now |}]> (delete key (pt_files s1));
    pt_tokens := <[claim := ""%string]> (delete key (pt_tokens s1)); pt_claims := k + 1 |}).
  set (c := {| cu_peer_id := peer; cu_upload := u; cu_org_id := org job; cu_hash := hash; cu_staged := Some {| sn_key := claim; sn_token := "" |} |}).
  assert (Hup : on_nar_uploaded n1 s1 u org None = (n, s2, [], Some c)).
  { unfold on_nar_uploaded. fold job path. unfold is_poisoned. rewrite bool_decide_eq_false_2 by (cbn; set_solver). rewrite Hh. unfold take_staged. fold sk.
    cbn [n1 nr_active with_active]. rewrite lookup_insert_eq, Hh. change (stage_key _ job hash) with key. unfold detach. cbn [fails]. rewrite Hf1. cbn [with_files pt_tokens].
    rewrite Ht1. rewrite Hc1, Hclaims. fold claim. cbn [with_tokens ps_token pt_files pt_claims].
    assert (Hu : u64 (k + 1) = k + 1) by (unfold u64, wrap; apply Z.mod_small; unfold MAX_U64 in Hk; lia). rewrite Hu.
    unfold n1, with_active. cbn. rewrite delete_insert_id by apply lookup_empty. reflexivity. }
  unfold wasted_round, server_step. fold job path. rewrite Hsess. fold s n. rewrite Hpush. cbn [fst set_session sv_sessions sv_cache with_c_partials c_partials].
  rewrite lookup_insert_eq, Hup. cbn [fst set_session sv_sessions sv_cache with_c_partials c_partials sv_waiting]. rewrite Hwait. cbn [app lookup list_lookup].
  assert (Hcommit : forall w, c_partials w = s2 -> store_commit w d c false no_faults =
     ({| c_partials := s2; c_objects := c_objects w; c_db := c_db w |}, Err (size_mismatch (strlen data) (up_file_size (nu_record u))))).
  { intros w Hw. unfold store_commit, commit_relayed. cbn [cu_staged c]. rewrite Hw. unfold received_len. cbn [fails no_faults cf_stat sn_key sn_token s2 pt_tokens].
    rewrite lookup_insert_eq, String.eqb_refl. cbn [negb]. unfold file_len. cbn [s2 pt_files]. rewrite lookup_insert_eq. cbn [pf_bytes from_option id cu_upload c].
    by rewrite (proj2 (Z.eqb_neq _ _)) by congruence. }
  rewrite Hcommit by done. cbn [fst]. unfold wasted. cbn [sv_sessions sv_waiting sv_cache c_partials delete list_delete pt_claims s2].
  rewrite lookup_insert_eq. fold n key. split_and!; [done|done|done| |].
  - assert (Hfiles : pt_files s2 = <[claim := {| pf_bytes := data; pf_mtime := now |}]> (pt_files s)).
    { cbn [s2 pt_files]. f_equal. apply map_eq. intros x. destruct (decide (x = key)) as [->|Hx]; [by rewrite lookup_delete_eq, Hnone|].
      rewrite lookup_delete_ne by done. by apply Hrest1. }
    assert (Hfresh : pt_files s !! claim = None).
    { destruct (pt_files s !! claim) as [f|] eqn:E; [|done]. destruct (Hkeys claim f E) as (j & Hj & Heq). apply claim_key_inj in Heq. lia. }
    pose proof (total_insert s claim {| pf_bytes := data; pf_mtime := now |} Hfresh) as Ht. unfold total_bytes in *. cbn [with_files pt_files pf_bytes s2] in *.
    rewrite Hfiles, Ht, Htotal. lia.
  - intros x f Hx. cbn [s2 pt_files] in Hx. destruct (decide (x = claim)) as [->|Hne]; [by exists k; split; [lia|]|]. rewrite lookup_insert_ne in Hx by done.
    destruct (decide (x = key)) as [->|Hx']; [by rewrite lookup_delete_eq in Hx|]. rewrite lookup_delete_ne in Hx by done.
    destruct (Hrest1 x Hx') as [Hsame _]. rewrite Hsame in Hx. destruct (Hkeys x f Hx) as (j & Hj & ->). exists j. split; [lia|done].
Qed.

(** The budget of a session does not bound what its worker leaves on the server's disk:
    a report of the wrong size takes the staged file out of the budget and its commit fails
    without removing it, so as many rounds of that as the worker likes leave as many budgets
    of bytes, all until the sweep of old files. *)
Theorem claims_escape_budget d org max peer hash data u now rounds sv :
  store_hash (nu_store_path u) = Some hash -> data <> ""%string -> strlen data <= max < MAX_U64 -> up_file_size (nu_record u) <> strlen data ->
  Z.of_nat rounds <= MAX_U64 -> sv_sessions sv !! peer = Some (new_receive_store peer max) -> sv_waiting sv = [] ->
  c_partials (sv_cache sv) = {| pt_files := ∅; pt_tokens := ∅; pt_claims := 0 |} ->
  let sv' := Nat.iter rounds (wasted_round d org max peer data u now) sv in
  total_bytes (c_partials (sv_cache sv')) = Z.of_nat rounds * strlen data /\
  (staged_total <$> sv_sessions sv' !! peer) = Some 0.
Proof.
  intros Hh Hd Hmax Hsize Hr Hsess Hwait Hempty sv'.
  assert (H : wasted peer hash max data (nu_job_id u) (Z.of_nat rounds) sv').
  { unfold sv'. clear sv'. induction rounds as [|rounds IH].
    - change (Nat.iter 0 ?f sv) with sv. unfold wasted. cbv zeta. rewrite Hempty. split_and!; [done|done|done|done|]. intros x f Hx. cbn in Hx. by rewrite lookup_empty in Hx.
    - rewrite Nat2Z.inj_succ. cbn [Nat.iter nat_rect]. apply wasted_step; [done|done|done|done|lia|apply IH; lia]. }
  destruct H as (Hs & _ & _ & Ht & _). split; [done|]. by rewrite Hs.
Qed.

End pushes.
