(* ===== verification/NarInfo.v ===== *)
(** * Narinfo files

    Writing and reading the text that describes a path to Nix
    ([backend/gradient-types/src/nix_cache.rs]), checking its signature
    ([backend/gradient-sources/src/cache_key/verification.rs]), the names in the URLs of a
    cache ([backend/gradient-sources/src/nar_path.rs]), and the record a cache serves
    ([get_nar_by_hash] of [backend/gradient-web/src/endpoints/caches/helpers.rs]). *)

From stdpp Require Import pretty.
From S2P Require Import Prelude RustStr RustText StorePath Permissions NixHash CacheRows.

Local Open Scope Z_scope.

(** ** The records and their text *)

Record NixCacheInfo := { ni_want_mass_query : bool; ni_store_dir : string; ni_priority : Z }.

Definition pretty_bool (b : bool) : string := if b then "true" else "false".

(** One line. *)
Definition field (name value : string) : string := (name +:+ ": " +:+ value +:+ newline)%string.

Definition cache_info_to_nix_string (i : NixCacheInfo) : string :=
  (field "WantMassQuery" (pretty_bool (ni_want_mass_query i)) +:+ field "StoreDir" (ni_store_dir i)
   +:+ "Priority: " +:+ pretty (ni_priority i))%string.

Record GradientCacheInfo := { gi_gradient_version : string; gi_gradient_url : string }.

Definition gradient_info_to_nix_string (i : GradientCacheInfo) : string :=
  (field "GradientVersion" (gi_gradient_version i) +:+ field "GradientUrl" (gi_gradient_url i))%string.

Record NixPathInfo := {
  np_store_path : string;
  np_url : string;
  np_compression : string;
  np_file_hash : string;
  np_file_size : Z;
  np_nar_hash : string;
  np_nar_size : Z;
  np_references : list string;
  np_sig : string;
  np_deriver : option string;
  np_ca : option string;
}.

(** [rsplit('/').next()]. *)
Definition store_path_name (path : string) : string := List.last (split_char "/" path) path.

Definition to_nix_string (i : NixPathInfo) : string :=
  (field "StorePath" (np_store_path i) +:+ field "URL" (np_url i) +:+ field "Compression" (np_compression i)
   +:+ field "FileHash" (np_file_hash i) +:+ field "FileSize" (pretty (np_file_size i))
   +:+ field "NarHash" (np_nar_hash i) +:+ field "NarSize" (pretty (np_nar_size i))
   +:+ (match np_references i with [] => "" | refs => field "References" (join_with " " (map store_path_name refs)) end)
   +:+ (match np_deriver i with Some d => field "Deriver" (store_path_name d) | None => "" end)
   +:+ field "Sig" (np_sig i)
   +:+ (match np_ca i with Some c => field "CA" c | None => "" end))%string.

Inductive NarInfoParseError := MissingField (field : string) | InvalidValue (field value : string).

(** [str::parse] of an unsigned integer below [bound]. *)
Definition digit_value (c : ascii) : option Z :=
  if is_ascii_digit c then Some (Z.of_nat (nat_of_ascii c) - 48) else None.

Fixpoint parse_digits (bound acc : Z) (s : string) : option Z :=
  match s with
  | EmptyString => Some acc
  | String c s' =>
      d ← digit_value c;
      let acc := acc * 10 + d in
      if acc <? bound then parse_digits bound acc s' else None
  end.

Definition parse_unsigned (bound : Z) (s : string) : option Z :=
  let digits := default s (strip_prefix "+" s) in
  match digits with EmptyString => None | _ => parse_digits bound 0 digits end.

(** The last line with a key counts, except for [Sig], where the first does. *)
Definition narinfo_entry (kv : gmap string string * option string) (line : string) : gmap string string * option string :=
  match split_once ":" line with
  | None => kv
  | Some (k, v) =>
      if String.eqb (trim k) "Sig" then (fst kv, match snd kv with Some s => Some s | None => Some (trim v) end)
      else (<[trim k := trim v]> (fst kv), snd kv)
  end.

Definition parse_narinfo_body (body : string) : result NixPathInfo NarInfoParseError :=
  let '(kv, sig) := foldl narinfo_entry (∅, None) (lines body) in
  let get k := or_err (kv !! k) (MissingField k) in
  let? store_path := get "StorePath" in
  let? url := get "URL" in
  let? compression := get "Compression" in
  let? file_hash := get "FileHash" in
  let? file_size_raw := get "FileSize" in
  let? file_size := or_err (parse_unsigned (2 ^ 32) file_size_raw) (InvalidValue "FileSize" file_size_raw) in
  let? nar_hash := get "NarHash" in
  let? nar_size_raw := get "NarSize" in
  let? nar_size := or_err (parse_unsigned (2 ^ 64) nar_size_raw) (InvalidValue "NarSize" nar_size_raw) in
  let? sig := or_err sig (MissingField "Sig") in
  Ok {| np_store_path := store_path; np_url := url; np_compression := compression; np_file_hash := file_hash;
        np_file_size := file_size; np_nar_hash := nar_hash; np_nar_size := nar_size;
        np_references := split_whitespace (default "" (kv !! "References")); np_sig := sig;
        np_deriver := kv !! "Deriver"; np_ca := kv !! "CA" |}%string.

(** ** Checking a signature ([verification.rs]) *)

Record SignedFields := {
  sf_store_path : option string; sf_nar_hash : option string; sf_nar_size : option string;
  sf_references : list string; sf_sigs : list string }.

Definition no_fields : SignedFields :=
  {| sf_store_path := None; sf_nar_hash := None; sf_nar_size := None; sf_references := []; sf_sigs := [] |}.

Definition signed_field (f : SignedFields) (line : string) : SignedFields :=
  match strip_prefix "StorePath: " line with
  | Some v => {| sf_store_path := Some (trim v); sf_nar_hash := sf_nar_hash f; sf_nar_size := sf_nar_size f;
                 sf_references := sf_references f; sf_sigs := sf_sigs f |}
  | None =>
  match strip_prefix "NarHash: " line with
  | Some v => {| sf_store_path := sf_store_path f; sf_nar_hash := Some (trim v); sf_nar_size := sf_nar_size f;
                 sf_references := sf_references f; sf_sigs := sf_sigs f |}
  | None =>
  match strip_prefix "NarSize: " line with
  | Some v => {| sf_store_path := sf_store_path f; sf_nar_hash := sf_nar_hash f; sf_nar_size := Some (trim v);
                 sf_references := sf_references f; sf_sigs := sf_sigs f |}
  | None =>
  match strip_prefix "References: " line with
  | Some v => {| sf_store_path := sf_store_path f; sf_nar_hash := sf_nar_hash f; sf_nar_size := sf_nar_size f;
                 sf_references := split_whitespace v; sf_sigs := sf_sigs f |}
  | None =>
  match strip_prefix "Sig: " line with
  | Some v => {| sf_store_path := sf_store_path f; sf_nar_hash := sf_nar_hash f; sf_nar_size := sf_nar_size f;
                 sf_references := sf_references f; sf_sigs := sf_sigs f ++ [trim v] |}
  | None => f
  end end end end end.

Section verification.
Context `{DG : Digests} `{SG : Signing}.

Definition sig_token_verifies (key_name : string) (pubkey : PublicKey) (fp token : string) : bool :=
  match split_once ":" token with
  | None => false
  | Some (sig_name, sig_b64) =>
      String.eqb sig_name key_name &&
      match base64_of sig_b64 ≫= signature_from_slice with
      | Some sig => pk_verify pubkey fp sig
      | None => false
      end
  end.

Definition verify_narinfo_signature (public_key narinfo_body : string) : bool :=
  match split_once ":" public_key with
  | None => false
  | Some (name, pub_b64) =>
      match base64_of (trim pub_b64) ≫= public_from_slice with
      | None => false
      | Some pubkey =>
          let f := foldl signed_field no_fields (lines narinfo_body) in
          match sf_store_path f, sf_nar_hash f, sf_nar_size f with
          | Some store_path, Some nar_hash, Some nar_size =>
              existsb (sig_token_verifies name pubkey (fingerprint store_path nar_hash nar_size (sf_references f))) (sf_sigs f)
          | _, _, _ => false
          end
      end
  end.

(** ** Names in URLs ([nar_path.rs]) *)

Definition get_hash_from_url (url : string) : option string :=
  match split_char "." url with
  | hash :: ext :: rest =>
      if Nat.ltb 1 (length rest) then None
      else if negb (Nat.eqb (String.length hash) 32) && negb (Nat.eqb (String.length hash) 52) then None
      else if negb ((String.eqb ext "narinfo" && Nat.eqb (length rest) 0) || String.eqb ext "nar") then None
      else if negb (all_chars (fun c => contains_char c NIX32_CHARS) hash) then None
      else Some hash
  | _ => None
  end%string.

Definition get_hash_from_path (path : string) : option (string * string) :=
  part ← split_char "/" path !! 3%nat;
  match split_char "-" part with
  | hash :: (_ :: _) as rest => Some (hash, join_with "-" (tail rest))
  | _ => None
  end.

Definition get_path_from_derivation_output (o : OutputRow) : StorePath := from_parts (ou_hash o) (ou_package o).

Definition parse_drv_hash_name (drv_path : string) : option (string * string) :=
  '(hash, rest) ← split_once "-" drv_path;
  name ← strip_suffix rest ".drv";
  if String.eqb hash "" || String.eqb name "" then None else Some (hash, name).

(** A hash shorter than two characters makes both of these panic: [None]. *)
Definition nar_location (ext base_path hash : string) : option string :=
  if Nat.ltb (String.length hash) 2 then None
  else Some (base_path +:+ "/nars/" +:+ String.substring 0 2 hash +:+ "/" +:+ String.substring 2 (String.length hash - 2) hash +:+ ext)%string.

Definition get_cache_nar_location : string -> string -> option string := nar_location ".nar".
Definition get_cache_nar_compressed_location : string -> string -> option string := nar_location ".nar.zst".

(** ** The record a cache serves ([helpers.rs]) *)

Definition row_signature (db : CacheDb) (path cache : Z) : WebResult (list Z) :=
  let? row := or_not_found (find_signature db path cache) "Signature" in
  or_not_found (sg_signature row) "Signature not yet computed".

Definition nar_url (file_hash : string) : string := ("nar/" +:+ strip_hash_algo file_hash +:+ ".nar.zst")%string.

(** The part both lookups share. *)
Definition path_info (db : CacheDb) (d : Deployment) (cache : CacheRow) (row : CachedPath) (sig : list Z) (store_path file_hash : string)
    (file_size : Z) : WebResult NixPathInfo :=
  let? nar_hash := or_not_found (kp_nar_hash row) "NarHash not recorded" in
  let? nar_size := or_not_found (kp_nar_size row) "NarSize not recorded" in
  Ok {| np_store_path := store_path; np_url := nar_url (normalize_nar_hash file_hash); np_compression := "zstd";
        np_file_hash := file_hash; np_file_size := u32 file_size; np_nar_hash := normalize_nar_hash nar_hash; np_nar_size := u64 nar_size;
        np_references := references_for_hash db (kp_hash row); np_sig := full_signature_token sig (de_serve_url d) (ca_name cache);
        np_deriver := kp_deriver row; np_ca := kp_ca row |}.

Definition get_nar_by_cached_path (db : CacheDb) (d : Deployment) (cache : CacheRow) (hash : string) : WebResult NixPathInfo :=
  let? row := or_not_found (find_path db hash) "Path" in
  if negb (is_fully_cached row) then Err (not_found "Path")
  else
    let? sig := row_signature db (kp_id row) (ca_id cache) in
    let? file_hash := or_err (kp_file_hash row) (bad_request "Missing file hash") in
    let? file_size := or_err (kp_file_size row) (bad_request "Missing file size") in
    path_info db d cache row sig (kp_store_path row) file_hash file_size.

Definition get_nar_by_hash (db : CacheDb) (d : Deployment) (cache : CacheRow) (hash : string) : WebResult NixPathInfo :=
  match List.find (fun o => ou_is_cached o && String.eqb (ou_hash o) hash) (outputs db) with
  | None => get_nar_by_cached_path db d cache hash
  | Some output =>
      let? row := or_not_found (find_path db hash) "CachedPath" in
      let? sig := row_signature db (kp_id row) (ca_id cache) in
      let? _ := or_not_found (kp_nar_hash row) "NarHash not recorded" in
      let? _ := or_not_found (kp_nar_size row) "NarSize not recorded" in
      let? file_hash := or_not_found (kp_file_hash row) "FileHash not recorded" in
      let? file_size := or_not_found (kp_file_size row) "FileSize not recorded" in
      path_info db d cache row sig (StorePath_full (get_path_from_derivation_output output)) (normalize_nar_hash file_hash) file_size
  end.

End verification.
