(* ===== verification/CacheServe.v ===== *)
(** * The endpoints of a binary cache

    What Nix asks a cache for and what is uploaded to it over HTTP
    ([backend/gradient-web/src/endpoints/caches/]: [helpers.rs], [narinfo.rs], [nar.rs],
    [upload.rs], [nars.rs], [build_log.rs]).

    The rows the access layer reads are [AccessDb]; the other columns of a cache are its
    [CacheSettings]. Requests to upstreams are the class [Upstreams]. Unpacking a NAR, the
    audit log and the columns that count fetches are not modelled. *)

From stdpp Require Import pretty.
From S2P Require Import Prelude RustStr RustText ScoreContext StorePath Permissions Access Tokens NixHash CacheRows Partials NarStage NarInfo.

Local Open Scope Z_scope.

(** The body of a successful answer to a GET. *)
Class Upstreams := { http_get : string -> option string }.

Record CacheSettings := {
  st_cache : CacheId;
  st_active : bool;
  st_priority : Z;
  st_local_priority : option Z;
  st_private_key : string;
  st_public_key : string;
}.

Record UpstreamRow := { us_id : Z; us_cache : CacheId; us_url : option string; us_public_key : option string }.

Section serving.
Context `{Chrono} `{Crypto} `{DG : Digests} `{SG : Signing} `{UP : Upstreams}.

(** The configuration. *)
Record WebConfig := {
  wc_deployment : Deployment;
  wc_trusted_proxies : list IpNet;
  wc_local_ips : list IpNet;
  wc_max_nar_upload_size : Z;
  wc_partial_ttl : Z;
  wc_version : string;
}.

Record Web := {
  we_access : AccessDb;
  we_settings : list CacheSettings;
  we_upstreams : list UpstreamRow;
  we_cache : Cache;         (* the rows and objects of the binary cache *)
  we_uploads : Partials;    (* [nar-upload-partial] *)
}.

Definition set_access (w : Web) (a : AccessDb) : Web := {| we_access := a; we_settings := we_settings w;
  we_upstreams := we_upstreams w; we_cache := we_cache w; we_uploads := we_uploads w |}.
Definition set_cache (w : Web) (c : Cache) : Web := {| we_access := we_access w; we_settings := we_settings w;
  we_upstreams := we_upstreams w; we_cache := c; we_uploads := we_uploads w |}.
Definition set_uploads (w : Web) (s : Partials) : Web := {| we_access := we_access w; we_settings := we_settings w;
  we_upstreams := we_upstreams w; we_cache := we_cache w; we_uploads := s |}.

(** What identifies the caller of an unauthenticated endpoint. *)
Record Visit := { vi_now : NaiveDateTime; vi_request : Request; vi_peer : option IpAddr }.

(** An unknown peer counts as [0.0.0.0]. *)
Definition cache_client_ip (cfg : WebConfig) (v : Visit) : IpAddr :=
  resolve_client_ip (rq_forwarded_for (vi_request v)) (default (V4 0) (vi_peer v)) (wc_trusted_proxies cfg).

Definition settings_of (w : Web) (cache : MCache) : option CacheSettings :=
  one (fun s => (st_cache s =? cch_id cache)%N) (we_settings w).

Definition cache_row (cache : MCache) (s : CacheSettings) : CacheRow :=
  {| ca_id := Z.of_N (cch_id cache); ca_name := cch_name cache; ca_private_key := st_private_key s; ca_public_key := st_public_key s |}.

(** [CacheContext::load]. *)
Definition cache_context (w : Web) (cfg : WebConfig) (v : Visit) (name : string) : Web * WebResult (MCache * CacheSettings) :=
  match get_any_cache_by_name (we_access w) name with
  | None => (w, Err (not_found "Cache"))
  | Some cache =>
      match settings_of w cache with
      | None => (w, Err (not_found "Cache"))
      | Some s =>
          if negb (st_active s) then (w, Err (bad_request "Cache is disabled"))
          else
            let (a, auth) := require_cache_auth (we_access w) (vi_now v) (vi_request v) (cache_client_ip cfg v) cache in
            (set_access w a, match auth with Ok _ => Ok (cache, s) | Err e => Err e end)
      end
  end.

(** ** Answers *)

Inductive Body :=
| Text (content_type body : string)
| JsonCacheInfo (i : NixCacheInfo)
| JsonGradientInfo (i : GradientCacheInfo)
| JsonPathInfo (i : NixPathInfo)
| Nar (bytes : string).

Record Answer := { an_body : Body; an_x_cache : option string }.

Definition plain (b : Body) : Answer := {| an_body := b; an_x_cache := None |}.

Definition nix_cache_info (w : Web) (cfg : WebConfig) (v : Visit) (cache : string) (json : bool) : Web * WebResult Answer :=
  let (w, ctx) := cache_context w cfg v cache in
  (w,
   let? found := ctx in
   let s := snd found in
   let priority :=
     match st_local_priority s, vi_peer v with
     | Some p, Some addr =>
         if negb (p =? 0) && in_any (resolve_client_ip (rq_forwarded_for (vi_request v)) addr (wc_trusted_proxies cfg)) (wc_local_ips cfg)
         then p else st_priority s
     | _, _ => st_priority s
     end in
   let info := {| ni_want_mass_query := true; ni_store_dir := "/nix/store"; ni_priority := priority |} in
   Ok (plain (if json then JsonCacheInfo info else Text "text/x-nix-cache-info" (cache_info_to_nix_string info)))).

Definition gradient_cache_info (w : Web) (cfg : WebConfig) (v : Visit) (cache : string) (json : bool) : Web * WebResult Answer :=
  let (w, ctx) := cache_context w cfg v cache in
  (w,
   let? _ := ctx in
   let info := {| gi_gradient_version := wc_version cfg; gi_gradient_url := de_serve_url (wc_deployment cfg) |} in
   Ok (plain (if json then JsonGradientInfo info else Text "text/x-gradient-cache-info" (gradient_info_to_nix_string info)))).

(** The [URL] line of a narinfo, pointed at our proxy. *)
Definition rewrite_line (upstream : UpstreamRow) (line : string) : string :=
  match strip_prefix "URL: " line with
  | Some nar_path => ("URL: nar/upstream/" +:+ pretty (us_id upstream) +:+ "/" +:+ trim nar_path)%string
  | None => line
  end.

Definition rewrite_narinfo (upstream : UpstreamRow) (body : string) : string :=
  (join_with newline (map (rewrite_line upstream) (lines body)) +:+ newline)%string.

Definition trim_end_slash (url : string) : string := trim_end_matches "/" url.

Definition ask_upstream (path_hash : string) (u : UpstreamRow) : option string :=
  base_url ← us_url u;
  public_key ← us_public_key u;
  body ← http_get (trim_end_slash base_url +:+ "/" +:+ path_hash +:+ ".narinfo")%string;
  if verify_narinfo_signature public_key body then Some (rewrite_narinfo u body) else None.

Definition upstreams_of (w : Web) (cache : MCache) : list UpstreamRow :=
  List.filter (fun u => (us_cache u =? cch_id cache)%N) (we_upstreams w).

Definition fetch_from_upstream (w : Web) (cache : MCache) (path_hash : string) : option string :=
  first_some (ask_upstream path_hash) (upstreams_of w cache).

(** [GET /cache/{cache}/{path}]. *)
Definition narinfo_path (w : Web) (cfg : WebConfig) (v : Visit) (cache path : string) (json : bool) : Web * WebResult Answer :=
  match get_hash_from_url path with
  | None => (w, Err (bad_request "Invalid path format"))
  | Some path_hash =>
      if negb (ends_with path ".narinfo") then (w, Err (not_found "Path"))
      else
        let (w, ctx) := cache_context w cfg v cache in
        (w,
         let? found := ctx in
         match get_nar_by_hash (c_db (we_cache w)) (wc_deployment cfg) (cache_row (fst found) (snd found)) path_hash with
         | Ok info => Ok {| an_body := if json then JsonPathInfo info else Text "text/x-nix-narinfo" (to_nix_string info);
                            an_x_cache := Some "HIT"%string |}
         | Err _ =>
             match fetch_from_upstream w (fst found) path_hash with
             | Some body =>
                 if json then
                   match parse_narinfo_body body with
                   | Ok parsed => Ok {| an_body := JsonPathInfo parsed; an_x_cache := Some "MISS"%string |}
                   | Err _ => Err (Internal "Upstream narinfo malformed")
                   end
                 else Ok {| an_body := Text "text/x-nix-narinfo" body; an_x_cache := Some "MISS"%string |}
             | None => Err (not_found "Path")
             end
         end)
  end.

(** ** NARs ([nar.rs]) *)

(** The store hash of a file hash, of any cache; else the hash itself. *)
Definition resolve_effective_hash_db (db : CacheDb) (path_hash : string) : string :=
  let candidates := [("blake3:" +:+ path_hash)%string; ("sha256:" +:+ path_hash)%string] in
  match List.find (fun r => match kp_file_hash r with Some fh => bool_decide (fh ∈ candidates) | None => false end) (cached_paths db) with
  | Some row => kp_hash row
  | None => path_hash
  end.

Definition fetch_nar_stream (w : Web) (cfg : WebConfig) (path_hash : string) : WebResult (string * string) :=
  let effective := resolve_effective_hash_db (c_db (we_cache w)) path_hash in
  let? bytes := or_not_found (c_objects (we_cache w) !! object_path (de_prefix (wc_deployment cfg)) effective) "Path" in
  Ok (effective, bytes).

Definition nar_path_ok (path : string) : bool := ends_with path ".nar" || contains_str ".nar." path.

(** [GET /cache/{cache}/nar/{path}]. *)
Definition nar (w : Web) (cfg : WebConfig) (v : Visit) (cache path : string) : Web * WebResult Answer :=
  match get_hash_from_url path with
  | None => (w, Err (bad_request "Invalid path format"))
  | Some path_hash =>
      if negb (nar_path_ok path) then (w, Err (not_found "Path"))
      else
        let (w, ctx) := cache_context w cfg v cache in
        (w,
         let? _ := ctx in
         let? found := fetch_nar_stream w cfg path_hash in
         Ok (plain (Nar (snd found))))
  end.

Definition build_upstream_nar_url (base_url path : string) (query : option string) : string :=
  let url := (trim_end_slash base_url +:+ "/" +:+ path)%string in
  match query with Some q => if String.eqb q "" then url else (url +:+ "?" +:+ q)%string | None => url end.

Definition upstream_nar (w : Web) (cfg : WebConfig) (v : Visit) (cache_name : string) (upstream_id : Z) (path : string)
    (query : option string) : Web * WebResult Answer :=
  let (w, ctx) := cache_context w cfg v cache_name in
  (w,
   let? found := ctx in
   let? upstream := or_not_found (one (fun u => us_id u =? upstream_id) (upstreams_of w (fst found))) "Upstream" in
   let? base_url := Permissions.ok_or (us_url upstream) (bad_request "Not an external upstream") in
   let? bytes := or_not_found (http_get (build_upstream_nar_url base_url path query)) "NAR in upstream" in
   Ok (plain (Nar bytes))).

(** [fetch_log_from_upstreams]: the first non-empty log. *)
Definition ask_log (drv base_url : string) : option string :=
  body ← http_get (trim_end_slash base_url +:+ "/log/" +:+ drv)%string;
  if String.eqb body "" then None else Some body.

Definition fetch_log_from_upstreams (upstreams : list string) (drv : string) : option string := first_some (ask_log drv) upstreams.

Definition upstream_urls (w : Web) (cache : MCache) : list string := omap us_url (upstreams_of w cache).

(** ** Uploads ([upload.rs]) *)

Record NarinfoPart := {
  na_store_path : string; na_file_hash : string; na_file_size : Z; na_nar_size : Z; na_nar_hash : string;
  na_references : list string; na_deriver : option string }.

Inductive MultipartField := NarinfoField (parsed : option NarinfoPart) | NarField (chunks : list string) | OtherField.

Definition INPUT_VALIDATION (m : string) : WebError := BadRequest "input_validation" m.

Definition too_large (max : Z) : WebError :=
  PayloadTooLarge "payload_too_large" ("nar exceeds max upload size of " +:+ pretty max +:+ " bytes").

Definition write_store : CacheAccess := CacheRequire WriteStore false.

(** [fault] is of the append of the chunk it is paired with. *)
Fixpoint stage_nar_field (s : Partials) (key : string) (chunks : list string) (offset max now : Z) : Partials * WebResult Z :=
  match chunks with
  | [] => (s, Ok offset)
  | chunk :: rest =>
      if max <? offset + strlen chunk then (fst (discard s key None), Err (too_large max))
      else
        match append s key "oneshot" offset chunk now None with
        | (s, true) => stage_nar_field s key rest (offset + strlen chunk) max now
        | (s, false) => (s, Err (Internal "failed to stage NAR"))
        end
  end.

(** The fields in the order they arrive: what was read of the two that matter. *)
Fixpoint read_fields (s : Partials) (key : string) (fields : list MultipartField) (max now : Z)
    (narinfo : option NarinfoPart) (staged : option Z) : Partials * WebResult (option NarinfoPart * option Z) :=
  match fields with
  | [] => (s, Ok (narinfo, staged))
  | NarinfoField None :: _ => (s, Err (INPUT_VALIDATION "invalid narinfo JSON"))
  | NarinfoField (Some n) :: rest => read_fields s key rest max now (Some n) staged
  | NarField chunks :: rest =>
      match stage_nar_field s key chunks 0 max now with
      | (s, Ok size) => read_fields s key rest max now narinfo (Some size)
      | (s, Err e) => (s, Err e)
      end
  | OtherField :: rest => read_fields s key rest max now narinfo staged
  end.

Definition ingest_input (n : NarinfoPart) : IngestInput := {|
  in_store_path := na_store_path n; in_file_hash := na_file_hash n; in_file_size := na_file_size n;
  in_nar_size := na_nar_size n; in_nar_hash := na_nar_hash n; in_references := na_references n;
  in_deriver := na_deriver n; in_ca := None |}.

(** [sign_uploaded_path]. *)
Definition sign_uploaded_path (db : CacheDb) (d : Deployment) (n : NarinfoPart) (cached_path : Z) : CacheDb :=
  sign_cached_path db d {| rq_cached_path := cached_path; rq_store_path := na_store_path n; rq_nar_hash := na_nar_hash n;
    rq_nar_size := na_nar_size n; rq_references := na_references n |}.

Definition ingest_error (e : IngestError) : WebError :=
  Internal (match e with MalformedPath p => "malformed store path: " +:+ p | StorageFailed => "storage" end)%string.

(** What both uploads do once their bytes are staged under [key]. *)
Definition ingest_staged (w : Web) (cfg : WebConfig) (cache : MCache) (key : string) (n : NarinfoPart) (id : Z) (faults : StoreFaults)
    : Web * WebResult IngestOutcome :=
  let d := wc_deployment cfg in
  match read_all (we_uploads w) key None with
  | None => (w, Err (Internal "failed to read staged NAR"))
  | Some bytes =>
      match ingest_nar (c_db (we_cache w)) (c_objects (we_cache w)) (de_prefix d) id bytes (ingest_input n)
              (OneCache (Z.of_N (cch_id cache))) faults with
      | Err e => (w, Err (ingest_error e))
      | Ok (db, objects, out) =>
          let w := set_uploads w (fst (discard (we_uploads w) key None)) in
          let db := sign_uploaded_path db d n (io_cached_path out) in
          (set_cache w {| c_partials := c_partials (we_cache w); c_objects := objects; c_db := db |}, Ok out)
      end
  end.

Definition with_code (c : Z) {A} (r : WebResult A) : WebResult (Z * A) := let? a := r in Ok (c, a).

(** [upload] is the fresh name of the staged file. *)
Definition nars_upload (w : Web) (cfg : WebConfig) (user : MUser) (api_key : option ApiKeyContext) (cache_name upload : string)
    (fields : list MultipartField) (id now : Z) (faults : StoreFaults) : Web * WebResult (Z * IngestOutcome) :=
  match load_cache (we_access w) (CallerUser user) api_key cache_name write_store with
  | Err e => (w, Err e)
  | Ok cache =>
      let key := (pretty (cch_id cache) +:+ "/oneshot-" +:+ upload)%string in
      let (s, read) := read_fields (we_uploads w) key fields (wc_max_nar_upload_size cfg) now None None in
      let w := set_uploads w s in
      let drop := set_uploads w (fst (discard s key None)) in
      match read with
      | Err e => (w, Err e)
      | Ok (None, _) => (drop, Err (INPUT_VALIDATION "missing narinfo part"))
      | Ok (Some n, None) => (w, Err (INPUT_VALIDATION "missing nar part"))
      | Ok (Some n, Some size) =>
          if negb (as_i64 size =? na_file_size n) then (drop, Err (INPUT_VALIDATION "nar size mismatch"))
          else
            match read_all s key None with
            | None => (w, Err (Internal "failed to read staged NAR"))
            | Some bytes =>
                match verify_nar_bytes bytes (na_file_hash n) (u64 (na_file_size n)) with
                | Err _ => (drop, Err (INPUT_VALIDATION "nar content verification failed"))
                | Ok _ => let (w, r) := ingest_staged w cfg cache key n id faults in (w, with_code 201 r)
                end
            end
      end
  end.

Definition require_safe_hash (store_hash : string) : WebResult () :=
  if String.eqb store_hash "" || contains_char "/" store_hash || contains_str ".." store_hash
  then Err (INPUT_VALIDATION "invalid store hash") else Ok tt.

Definition chunk_key (cache : MCache) (store_hash : string) : string := (pretty (cch_id cache) +:+ "/" +:+ store_hash)%string.

(** The number of bytes received so far. *)
Definition nar_chunk (w : Web) (cfg : WebConfig) (user : MUser) (api_key : option ApiKeyContext) (cache_name store_hash : string)
    (offset : Z) (body : string) (now : Z) : Web * WebResult Z :=
  match load_cache (we_access w) (CallerUser user) api_key cache_name write_store with
  | Err e => (w, Err e)
  | Ok cache =>
      match require_safe_hash store_hash with
      | Err e => (w, Err e)
      | Ok _ =>
          if wc_max_nar_upload_size cfg <? u64 (offset + strlen body) then (w, Err (too_large (wc_max_nar_upload_size cfg)))
          else
            let key := chunk_key cache store_hash in
            let s := if offset =? 0 then fst (gc (we_uploads w) (wc_partial_ttl cfg) now) else we_uploads w in
            match received_len s key store_hash None with
            | (s, None) => (set_uploads w s, Err (Internal "read partial token"))
            | (s, Some staged) =>
                if (offset =? 0) || (offset =? staged) then
                  match append s key store_hash offset body now None with
                  | (s, true) => (set_uploads w s, Ok (offset + strlen body))
                  | (s, false) => (set_uploads w s, Err (Internal "append"))
                  end
                else (set_uploads w s, Ok staged)
            end
      end
  end.

Definition nar_finalize (w : Web) (cfg : WebConfig) (user : MUser) (api_key : option ApiKeyContext) (cache_name store_hash : string)
    (n : NarinfoPart) (id : Z) (faults : StoreFaults) : Web * WebResult (Z * IngestOutcome) :=
  match load_cache (we_access w) (CallerUser user) api_key cache_name write_store with
  | Err e => (w, Err e)
  | Ok cache =>
      match require_safe_hash store_hash with
      | Err e => (w, Err e)
      | Ok _ =>
          let key := chunk_key cache store_hash in
          if negb (as_i64 (staged_len (we_uploads w) key) =? na_file_size n) then (w, Err (INPUT_VALIDATION "nar size mismatch"))
          else
            match read_all (we_uploads w) key None with
            | None => (w, Err (Internal "failed to read staged NAR"))
            | Some bytes =>
                match verify_nar_bytes bytes (na_file_hash n) (u64 (na_file_size n)) with
                | Err _ => (w, Err (INPUT_VALIDATION "nar content verification failed"))
                | Ok _ => let (w, r) := ingest_staged w cfg cache key n id faults in (w, with_code 201 r)
                end
            end
      end
  end.

(** ** Looking at the contents ([nars.rs]) *)

(** The columns of [NarDetail], the reference list and whether the cache signed it. *)
Definition show (w : Web) (caller : Caller) (api_key : option ApiKeyContext) (cache_name hash : string)
    : WebResult (CachedPath * list string * bool) :=
  let? cache := load_cache (we_access w) caller api_key cache_name CacheReadable in
  let db := c_db (we_cache w) in
  let? cp := or_not_found (find_path db hash) "Path" in
  let? sig := or_not_found (find_signature db (kp_id cp) (Z.of_N (cch_id cache))) "Signature" in
  Ok (cp, references_for_hash db hash, negb (is_pending sig)).

Definition available (w : Web) (caller : Caller) (api_key : option ApiKeyContext) (cache_name : string) (hash : option string)
    : WebResult bool :=
  let? cache := load_cache (we_access w) caller api_key cache_name CacheReadable in
  let hash := default ""%string hash in
  if String.eqb hash "" then Err (bad_request "missing ?hash=")
  else
    let db := c_db (we_cache w) in
    Ok match find_path db hash with
       | Some cp => match find_signature db (kp_id cp) (Z.of_N (cch_id cache)) with Some _ => true | None => false end
       | None => false
       end.

Record NarStats := { ns_total_nars : Z; ns_total_nar_size : Z; ns_total_file_size : Z }.

(** The signature rows of a cache, with their paths. *)
Definition held_rows (db : CacheDb) (cache : Z) : list (SignatureRow * CachedPath) :=
  omap (fun s => if sg_cache s =? cache then pair s <$> path_by_id db (sg_cached_path s) else None) (signatures db).

Definition sum_of (f : CachedPath -> option Z) (rows : list (SignatureRow * CachedPath)) : Z :=
  foldr (fun r n => default 0 (f (snd r)) + n) 0 rows.

Definition stats (w : Web) (caller : Caller) (api_key : option ApiKeyContext) (cache_name : string) : WebResult NarStats :=
  let? cache := load_cache (we_access w) caller api_key cache_name CacheReadable in
  let rows := held_rows (c_db (we_cache w)) (Z.of_N (cch_id cache)) in
  Ok {| ns_total_nars := Z.of_nat (length rows); ns_total_nar_size := sum_of kp_nar_size rows; ns_total_file_size := sum_of kp_file_size rows |}.

End serving.
