(* ===== verification/NarPull.v ===== *)
(** * NARs fetched by a worker

    The server reads a stored NAR and cuts it into chunks ([serve_nar_request] of
    [backend/gradient-proto/src/handler/nar_transfer.rs], [get_stream_object] of
    [backend/gradient-storage/src/nar.rs]); the worker puts them together again, on disk if
    it can, so that an interrupted download resumes
    ([backend/gradient-worker/src/proto/nar_recv.rs], [request_nars] of [proto/job.rs]).

    How the object store cuts the bytes it streams is an argument, and so is where it
    fails. The demotion of a path whose object is gone is in [Healing]. *)

From stdpp Require Import pretty.
From S2P Require Import Prelude RustStr RustText CacheRows Partials NarStage.

Local Open Scope Z_scope.

(** ** Serving *)

Definition NAR_PUSH_CHUNK_SIZE : Z := 4 * 1024 * 1024.

Inductive ServeMessage :=
| NarUnavailable (reason : string)
| NarAbort (reason : string)
| NarStreamHeader (total_bytes : Z) (stream_token : string)
| NarPush (data : string) (offset : Z) (is_final : bool).

(** What a read of the stream gives. *)
Inductive Read := Block (bytes : string) | ReadFails | ReadStalls.

Definition str_take (n : Z) (s : string) : string := String.substring 0 (Z.to_nat n) s.
Definition str_drop (n : Z) (s : string) : string := String.substring (Z.to_nat n) (String.length s - Z.to_nat n) s.

(** [get_stream_object] with an offset: the full size and the bytes from there. *)
Definition get_stream_from (objects : gmap string string) (prefix hash : string) (offset : Z) : option (Z * string) :=
  bytes ← objects !! object_path prefix hash;
  Some (strlen bytes, if strlen bytes <=? offset then ""%string else str_drop offset bytes).

(** One block: the chunks it fills, and what is left in the buffer. *)
Fixpoint fill (fuel : nat) (size : Z) (buf slice : string) (offset : Z) : list ServeMessage * string * Z :=
  match fuel, slice with
  | O, _ | _, EmptyString => ([], buf, offset)
  | S fuel, _ =>
      let take := Z.min (strlen slice) (size - strlen buf) in
      let buf := (buf +:+ str_take take slice)%string in
      let slice := str_drop take slice in
      if strlen buf =? size then
        let '(out, rest, last) := fill fuel size "" slice (offset + size) in
        (NarPush buf offset false :: out, rest, last)
      else fill fuel size buf slice offset
  end.

(** The chunks of a stream: each block is read when it comes. *)
Fixpoint push_blocks (size : Z) (buf : string) (offset : Z) (reads : list Read) : list ServeMessage :=
  match reads with
  | [] => [NarPush buf offset true]
  | ReadFails :: _ => [NarAbort "NAR storage stream error"]
  | ReadStalls :: _ => [NarAbort "NAR storage read stalled mid-transfer"]
  | Block bytes :: rest =>
      let '(out, buf, offset) := fill (String.length bytes) size buf bytes offset in
      (out ++ push_blocks size buf offset rest)%list
  end.

Definition server_token (size : Z) : string := ("len-" +:+ pretty size)%string.

Definition serve_hash (store_path : string) : option string :=
  rest ← strip_prefix "/nix/store/" store_path; head (split_char "-" rest).

(** [cut] is how the store cuts a stream into reads, with its failures; [size] is
    [NAR_PUSH_CHUNK_SIZE]. *)
Definition serve_nar_request (size : Z) (cut : string -> list Read) (objects : gmap string string) (prefix store_path : string)
    (resume_from : Z) (client_token : option string) : list ServeMessage :=
  match serve_hash store_path with
  | None => [NarUnavailable ("invalid store path: " +:+ store_path)%string]
  | Some hash =>
      match get_stream_from objects prefix hash resume_from with
      | None => [NarUnavailable ("NAR not found in cache for " +:+ store_path)%string]
      | Some (total, stream) =>
          let token := server_token total in
          let token_mismatch := match client_token with Some t => negb (String.eqb t token) | None => false end in
          let restart := (total <? resume_from) || token_mismatch in
          let start := if restart then 0 else resume_from in
          match (if restart then snd <$> get_stream_from objects prefix hash 0 else Some stream) with
          | None => [NarUnavailable ("failed to reopen " +:+ store_path +:+ " for fresh transfer")%string]
          | Some stream => NarStreamHeader total token :: push_blocks size "" start (cut stream)
          end
      end
  end.

(** ** Receiving *)

Abbreviation PullKey := (string * string)%type.  (* job and store path *)

Record HeaderInfo := { hi_total_bytes : Z; hi_token : string }.

Record NarReceiver := {
  re_buffers : gmap PullKey string;
  re_headers : gmap PullKey HeaderInfo;
  re_waiters : gset PullKey;
  re_push_waiters : gset PullKey;
  re_partial : option Partials;  (* [None]: no store configured *)
}.

Definition with_buffers (r : NarReceiver) (b : gmap PullKey string) : NarReceiver := {| re_buffers := b; re_headers := re_headers r;
  re_waiters := re_waiters r; re_push_waiters := re_push_waiters r; re_partial := re_partial r |}.
Definition with_headers (r : NarReceiver) (h : gmap PullKey HeaderInfo) : NarReceiver := {| re_buffers := re_buffers r; re_headers := h;
  re_waiters := re_waiters r; re_push_waiters := re_push_waiters r; re_partial := re_partial r |}.
Definition with_waiters (r : NarReceiver) (w : gset PullKey) : NarReceiver := {| re_buffers := re_buffers r; re_headers := re_headers r;
  re_waiters := w; re_push_waiters := re_push_waiters r; re_partial := re_partial r |}.
Definition with_push_waiters (r : NarReceiver) (w : gset PullKey) : NarReceiver := {| re_buffers := re_buffers r;
  re_headers := re_headers r; re_waiters := re_waiters r; re_push_waiters := w; re_partial := re_partial r |}.
Definition with_partial (r : NarReceiver) (p : Partials) : NarReceiver := {| re_buffers := re_buffers r; re_headers := re_headers r;
  re_waiters := re_waiters r; re_push_waiters := re_push_waiters r; re_partial := Some p |}.

(** What the waiter of a pull is given. *)
Inductive Delivery := Delivered (bytes : string) | Failed (reason : string).

Definition partial_key (job_id store_path : string) : option string :=
  hash ← store_hash store_path; Some (job_id +:+ "/" +:+ hash)%string.

(** The staging store and the key, when the path is staged to disk. *)
Definition staging (r : NarReceiver) (k : PullKey) : option (Partials * string) :=
  p ← re_partial r; pk ← partial_key (fst k) (snd k); Some (p, pk).

Definition resumable (r : NarReceiver) (k : PullKey) : Z * option string :=
  match staging r k with
  | Some (p, pk) => (staged_len p pk, partial_token p pk)
  | None => (0, None)
  end.

Definition register (r : NarReceiver) (k : PullKey) : NarReceiver := with_waiters r (re_waiters r ∪ {[k]}).

Definition note_pull_header (r : NarReceiver) (k : PullKey) (total_bytes : Z) (token : string) : NarReceiver :=
  with_headers r (<[k := {| hi_total_bytes := total_bytes; hi_token := token |}]> (re_headers r)).

(** A delivery nobody waits for is dropped. *)
Definition deliver (r : NarReceiver) (k : PullKey) (d : Delivery) : NarReceiver * option Delivery :=
  (with_waiters r (re_waiters r ∖ {[k]}), if bool_decide (k ∈ re_waiters r) then Some d else None).

Definition pull_fail (r : NarReceiver) (k : PullKey) (reason : string) : NarReceiver * option Delivery :=
  deliver (with_headers (with_buffers r (delete k (re_buffers r))) (delete k (re_headers r))) k (Failed reason).

(** The final chunk: the assembled bytes, checked against the advertised size. *)
Definition assemble (r : NarReceiver) (k : PullKey) (fault : Fault) : NarReceiver * option Delivery :=
  let expected := hi_total_bytes <$> re_headers r !! k in
  let r := with_headers r (delete k (re_headers r)) in
  let '(r, buf) :=
    match staging r k with
    | Some (p, pk) => (with_partial r (fst (discard p pk None)), default ""%string (read_all p pk fault))
    | None => (with_buffers r (delete k (re_buffers r)), default ""%string (re_buffers r !! k))
    end in
  deliver r k (match expected with
               | Some total => if strlen buf =? total then Delivered buf else Failed "assembled NAR size differs from the advertised one"
               | None => Delivered buf
               end).

(** [fault] is of the append, or of the last read. *)
Definition accept_chunk (r : NarReceiver) (k : PullKey) (data : string) (offset : Z) (is_final : bool) (now : Z) (fault : Fault)
    : NarReceiver * option Delivery :=
  let token := default ""%string (hi_token <$> re_headers r !! k) in
  let finish r := if is_final then assemble r k fault else (r, None) in
  if String.eqb data "" then finish r
  else
    match staging r k with
    | Some (p, pk) =>
        match append p pk token offset data now fault with
        | (p, true) => finish (with_partial r p)
        | (p, false) => deliver (with_partial r (fst (discard p pk None))) k (Failed "partial append failed")
        end
    | None => finish (with_buffers r (<[k := (default "" (re_buffers r !! k) +:+ data)%string]> (re_buffers r)))
    end.

(** [None]: the push gate answers zero. *)
Definition register_push (r : NarReceiver) (k : PullKey) : NarReceiver := with_push_waiters r (re_push_waiters r ∪ {[k]}).

Definition resolve_push (r : NarReceiver) (k : PullKey) (received : Z) : NarReceiver * option Z :=
  (with_push_waiters r (re_push_waiters r ∖ {[k]}), if bool_decide (k ∈ re_push_waiters r) then Some received else None).

Definition await_resume (answer : option Z) : Z := default 0 answer.

Definition forget_job (r : NarReceiver) (job : string) : NarReceiver :=
  {| re_buffers := filter (fun kv => kv.1.1 <> job) (re_buffers r); re_headers := filter (fun kv => kv.1.1 <> job) (re_headers r);
     re_waiters := filter (fun k => k.1 <> job) (re_waiters r); re_push_waiters := filter (fun k => k.1 <> job) (re_push_waiters r);
     re_partial := re_partial r |}.

(** The dispatch loop. *)
Definition on_message (r : NarReceiver) (k : PullKey) (m : ServeMessage) (now : Z) : NarReceiver * option Delivery :=
  match m with
  | NarUnavailable reason | NarAbort reason => pull_fail r k reason
  | NarStreamHeader total token => (note_pull_header r k total token, None)
  | NarPush data offset is_final => accept_chunk r k data offset is_final now None
  end.

Fixpoint on_messages (r : NarReceiver) (k : PullKey) (l : list ServeMessage) (now : Z) : NarReceiver * option Delivery :=
  match l with
  | [] => (r, None)
  | m :: l =>
      match on_message r k m now with
      | (r, Some d) => (r, Some d)
      | (r, None) => on_messages r k l now
      end
  end.

(** What [request_nars] asks for: the offset and token of a resumed request. *)
Definition pull_request (r : NarReceiver) (k : PullKey) : Z * option string :=
  match resumable r k with
  | (received, Some token) => if 0 <? received then (received, Some token) else (0, None)
  | (_, None) => (0, None)
  end.

(** One pull of a path; of the messages the server sends, [arrive] many reach the worker
    before the connection is lost. *)
Definition pull (size : Z) (cut : string -> list Read) (objects : gmap string string) (prefix : string) (r : NarReceiver) (k : PullKey)
    (arrive : option nat) (now : Z) : NarReceiver * option Delivery :=
  let r := register r k in
  let (from, token) := pull_request r k in
  let messages := serve_nar_request size cut objects prefix (snd k) from token in
  on_messages r k (match arrive with Some n => take n messages | None => messages end) now.

(** ** Cutting text *)

Lemma take_drop n s : 0 <= n <= strlen s -> (str_take n s +:+ str_drop n s)%string = s /\ strlen (str_take n s) = n.
Proof.
  intros Hn. unfold strlen in Hn. destruct (take_drop_nat s (Z.to_nat n) ltac:(lia)) as [H1 H2].
  unfold str_take, str_drop, strlen. rewrite H2. split; [done|lia].
Qed.

Lemma drop_app a b : str_drop (strlen a) (a +:+ b) = b.
Proof.
  destruct (take_drop (strlen a) (a +:+ b)) as [H1 H2]; [rewrite strlen_app; pose proof (strlen_pos a); pose proof (strlen_pos b); lia|].
  revert H1 H2. generalize (str_take (strlen a) (a +:+ b)) (str_drop (strlen a) (a +:+ b)). intros x y. unfold strlen. intros H1 H2.
  assert (Hl : String.length x = String.length a) by lia. clear H2. revert x H1 Hl.
  induction a as [|c a IH]; intros x H1 Hl; destruct x as [|e x]; simpl in *; try done.
  change (String e x +:+ y)%string with (String e (x +:+ y)) in H1. change (String c a +:+ b)%string with (String c (a +:+ b)) in H1.
  simplify_eq. by apply (IH x); [|lia].
Qed.

Lemma drop_zero s : str_drop 0 s = s.
Proof. apply (drop_app "" s). Qed.

(** ** The stream of chunks *)

(** Chunks that carry [bytes] from [offset] on, each not longer than [size]; [whole] says
    that the last one came. *)
Inductive stream (size : Z) : bool -> Z -> string -> list ServeMessage -> Prop :=
| stream_final offset d : strlen d <= size -> stream size true offset d [NarPush d offset true]
| stream_abort offset bytes reason : stream size false offset bytes [NarAbort reason]
| stream_push whole offset d rest l :
    d <> ""%string -> strlen d = size -> stream size whole (offset + strlen d) rest l ->
    stream size whole offset (d +:+ rest) (NarPush d offset false :: l).

(** Full chunks only. *)
Inductive pushes (size : Z) : Z -> string -> list ServeMessage -> Z -> Prop :=
| pushes_nil offset : pushes size offset "" [] offset
| pushes_cons offset d rest l last :
    d <> ""%string -> strlen d = size -> pushes size (offset + strlen d) rest l last ->
    pushes size offset (d +:+ rest) (NarPush d offset false :: l) last.

(** What a store may answer when it streams [s]: [whole] when no read failed. *)
Inductive reads : bool -> string -> list Read -> Prop :=
| reads_end : reads true "" []
| reads_block whole b rest l : reads whole rest l -> reads whole (b +:+ rest) (Block b :: l)
| reads_fail s l : reads false s (ReadFails :: l)
| reads_stall s l : reads false s (ReadStalls :: l).

Lemma fill_pushes size : 0 < size -> forall fuel buf slice offset,
  (String.length slice <= fuel)%nat -> strlen buf < size ->
  let '(out, rest, last) := fill fuel size buf slice offset in
  exists sent, pushes size offset sent out last /\ (sent +:+ rest)%string = (buf +:+ slice)%string /\ strlen rest < size.
Proof.
  intros Hsize. induction fuel as [|fuel IH]; intros buf slice offset Hf Hb.
  { destruct slice; [|simpl in Hf; lia]. exists ""%string. split_and!; [constructor|by rewrite string_app_nil_r|done]. }
  destruct slice as [|c slice]; [exists ""%string; split_and!; [constructor|by rewrite string_app_nil_r|done]|]. cbn [fill].
  set (s := String c slice) in *. set (t := Z.min (strlen s) (size - strlen buf)).
  assert (Ht : 0 < t <= strlen s) by (assert (0 < strlen s) by (unfold strlen, s; cbn [String.length]; lia); lia).
  destruct (take_drop t s ltac:(lia)) as [Hcat Hlen].
  assert (Hrest : (String.length (str_drop t s) <= fuel)%nat).
  { assert (strlen (str_take t s) + strlen (str_drop t s) = strlen s) by (by rewrite <- strlen_app, Hcat). unfold strlen in *. lia. }
  destruct (Z.eqb_spec (strlen (buf +:+ str_take t s)) size) as [Hfull|Hnot].
  - specialize (IH ""%string (str_drop t s) (offset + size) Hrest ltac:(done)).
    destruct (fill fuel size "" (str_drop t s) (offset + size)) as [[out rest] last]. destruct IH as (sent & Hp & Hs & Hr).
    exists ((buf +:+ str_take t s) +:+ sent)%string. split_and!; [|by rewrite !string_app_assoc, Hs; change ("" +:+ str_drop t s)%string with (str_drop t s); rewrite Hcat|done].
    constructor; [|done|by rewrite Hfull]. intros He. rewrite He in Hfull. unfold strlen in Hfull. simpl in Hfull. lia.
  - assert (Hlt : strlen (buf +:+ str_take t s) < size) by (rewrite strlen_app in *; lia).
    specialize (IH (buf +:+ str_take t s)%string (str_drop t s) offset Hrest Hlt).
    destruct (fill fuel size (buf +:+ str_take t s) (str_drop t s) offset) as [[out rest] last]. destruct IH as (sent & Hp & Hs & Hr).
    exists sent. split_and!; [done| |done]. by rewrite Hs, string_app_assoc, Hcat.
Qed.

Lemma pushes_stream size whole offset sent out last rest l :
  pushes size offset sent out last -> stream size whole last rest l -> stream size whole offset (sent +:+ rest) (out ++ l).
Proof.
  induction 1 as [|offset d sent out last Hd Hl Hp IH]; intros Hs; [done|]. rewrite string_app_assoc. by constructor; [| |apply IH].
Qed.

(** What the server sends is the bytes it reads, cut where the chunk size says. *)
Lemma push_blocks_stream size : 0 < size -> forall l whole s buf offset,
  reads whole s l -> strlen buf < size -> stream size whole offset (buf +:+ s) (push_blocks size buf offset l).
Proof.
  intros Hsize l whole s buf offset Hr. revert buf offset. induction Hr as [|whole b rest l Hr IH|s l|s l]; intros buf offset Hb; cbn [push_blocks].
  - rewrite string_app_nil_r. constructor. lia.
  - pose proof (fill_pushes size Hsize (String.length b) buf b offset ltac:(lia) Hb) as Hf.
    destruct (fill (String.length b) size buf b offset) as [[out buf'] last]. destruct Hf as (sent & Hp & Hs & Hr').
    rewrite <- string_app_assoc, <- Hs, string_app_assoc. eapply pushes_stream; [done|]. by apply IH.
  - constructor.
  - constructor.
Qed.

(** ** The receiver *)

(** What the files under [pk] say about the object [o]: bytes staged under its token are a
    beginning of it. *)
Definition staged_ok (o : string) (p : Partials) (pk : string) : Prop :=
  pt_tokens p !! pk = Some (server_token (strlen o)) ->
  match pt_files p !! pk with Some f => exists rest, o = (pf_bytes f +:+ rest)%string | None => True end.

(** The receiver in the middle of the stream of [o], [done] of it staged. *)
Definition receiving (o done : string) (r : NarReceiver) (k : PullKey) (pk : string) : Prop :=
  exists p, k ∈ re_waiters r /\ re_headers r !! k = Some {| hi_total_bytes := strlen o; hi_token := server_token (strlen o) |} /\
  staging r k = Some (p, pk) /\ staged_ok o p pk /\
  (done = ""%string \/ ((pf_bytes <$> pt_files p !! pk) = Some done /\ pt_tokens p !! pk = Some (server_token (strlen o)))).

Lemma staging_with_partial r k p pk p' : staging r k = Some (p, pk) -> staging (with_partial r p') k = Some (p', pk).
Proof.
  unfold staging. destruct (re_partial r); [|done]. simpl. destruct (partial_key k.1 k.2); [|done]. simpl. by intros [= -> ->].
Qed.

Lemma staging_same r r' k : re_partial r' = re_partial r -> staging r' k = staging r k.
Proof. intros H. unfold staging. by rewrite H. Qed.

(** A chunk in its place is staged. *)
Lemma accept_push o done d rest r k pk now :
  o = (done +:+ d +:+ rest)%string -> d <> ""%string -> receiving o done r k pk ->
  exists p' r', append (fst (default ({| pt_files := ∅; pt_tokens := ∅; pt_claims := 0 |}, pk) (staging r k))) pk (server_token (strlen o))
      (strlen done) d now None = (p', true) /\ r' = with_partial r p' /\ receiving o (done +:+ d) r' k pk.
Proof.
  intros Ho Hd (p & Hw & Hh & Hst & Hok & Hdone). rewrite Hst. cbn [from_option id fst].
  destruct (append_ok p pk (server_token (strlen o)) (strlen done) d now) as (p' & Happ & Hf & Ht & _ & _).
  { destruct Hdone as [->|[Hf _]]; [by left|]. right. unfold file_len. destruct (pt_files p !! pk); [|done]. simpl in Hf. by simplify_eq. }
  assert (Hbytes : pf_bytes <$> pt_files p' !! pk = Some (done +:+ d)%string).
  { rewrite Hf. simpl. destruct Hdone as [->|[Hd' _]]; [done|]. destruct (pt_files p !! pk) as [f|]; [|done]. simpl in Hd'. simplify_eq.
    destruct (Z.eqb_spec (strlen (pf_bytes f)) 0) as [He|]; [|done]. unfold strlen in He. by destruct (pf_bytes f). }
  exists p', (with_partial r p'). split; [done|]. split; [done|]. exists p'. split_and!; [done|done|by eapply staging_with_partial| |by right].
  intros _. destruct (pt_files p' !! pk) as [f|]; [|done]. simpl in Hbytes. exists rest. injection Hbytes as ->. by rewrite string_app_assoc.
Qed.

Lemma deliver_waiting r k d : k ∈ re_waiters r -> deliver r k d = (with_waiters r (re_waiters r ∖ {[k]}), Some d).
Proof. intros H. unfold deliver. by rewrite bool_decide_eq_true_2. Qed.

(** The last chunk hands over the whole object. *)
Lemma assemble_whole o r k pk : o <> ""%string -> receiving o o r k pk ->
  exists r', assemble r k None = (r', Some (Delivered o)) /\ exists p', staging r' k = Some (p', pk) /\ staged_ok o p' pk.
Proof.
  intros Hne (p & Hw & Hh & Hst & Hok & Hdone). destruct Hdone as [->|[Hf Ht]]; [done|]. unfold assemble. rewrite Hh. cbn [fmap option_fmap option_map hi_total_bytes].
  rewrite (staging_same r) by done. rewrite Hst. rewrite discard_spec. cbn [fst].
  unfold read_all. cbn [fails]. rewrite Hf. cbn [from_option id]. rewrite Z.eqb_refl, deliver_waiting by done. eexists. split; [done|].
  eexists. split; [by eapply staging_with_partial|]. intros Htok. simpl in Htok. by rewrite lookup_delete_eq in Htok.
Qed.

(** However much of a stream arrives, what is staged stays a beginning of the object; the
    whole stream delivers it. *)
Lemma receive_stream size o : o <> ""%string -> forall whole l offset bytes, stream size whole offset bytes l ->
  forall done r k pk now n, o = (done +:+ bytes)%string -> offset = strlen done -> receiving o done r k pk ->
  let '(r', d) := on_messages r k (take n l) now in
  (exists p', staging r' k = Some (p', pk) /\ staged_ok o p' pk) /\
  (whole = true -> (length l <= n)%nat -> d = Some (Delivered o)).
Proof.
  intros Hne whole l offset bytes Hs. induction Hs as [offset d Hd|offset bytes reason|whole offset d rest l Hd Hl Hs IH];
    intros done r k pk now n Ho Hoff Hrec; (destruct n as [|n]; [destruct Hrec as (p & _ & _ & Hst & Hok & _); cbn; split; [by exists p|simpl; lia]|]).
  - cbn [take on_messages on_message]. unfold accept_chunk.
    pose proof Hrec as (p & Hw & Hh & Hst & Hok & Hdone). rewrite Hh. cbn [fmap option_fmap option_map hi_token from_option id].
    destruct (String.eqb_spec d "") as [->|Hd'].
    + rewrite string_app_nil_r in Ho. subst done. destruct (assemble_whole o r k pk Hne Hrec) as (r' & -> & p' & Hp'). split; [by exists p'|done].
    + destruct (accept_push o done d "" r k pk now) as (p' & r' & Happ & -> & Hrec'); [by rewrite string_app_nil_r|done|done|].
      rewrite Hst in Happ |- *. change (fst (default _ (Some (p, pk)))) with p in Happ. cbv iota beta. rewrite Hoff, Happ. rewrite <- Ho in Hrec'.
      destruct (assemble_whole o _ k pk Hne Hrec') as (r'' & -> & p'' & Hp''). split; [by exists p''|done].
  - cbn [take on_messages on_message]. unfold pull_fail. destruct Hrec as (p & Hw & Hh & Hst & Hok & Hdone). rewrite deliver_waiting by done.
    split; [|done]. exists p. split; [|done]. by rewrite <- Hst.
  - cbn [take on_messages on_message]. unfold accept_chunk. pose proof Hrec as (p & Hw & Hh & Hst & Hok & Hdone). rewrite Hh.
    cbn [fmap option_fmap option_map hi_token from_option id]. rewrite (proj2 (String.eqb_neq d "")) by done.
    destruct (accept_push o done d rest r k pk now) as (p' & r' & Happ & -> & Hrec'); [done|done|done|].
    rewrite Hst in Happ |- *. change (fst (default _ (Some (p, pk)))) with p in Happ. cbv iota beta. rewrite Hoff, Happ.
    specialize (IH (done +:+ d)%string (with_partial r p') k pk now n). destruct (on_messages (with_partial r p') k (take n l) now) as [r' dl].
    cbn [length]. destruct IH as [H1 H2]; [by rewrite string_app_assoc|by rewrite strlen_app, Hoff|done|]. split; [done|].
    intros Hw' Hn. apply H2; [done|lia].
Qed.

(** ** Pulls *)

Lemma receiving_start o r k pk p from : 
  k ∈ re_waiters r -> staging r k = Some (p, pk) -> staged_ok o p pk ->
  from = ""%string \/ ((pf_bytes <$> pt_files p !! pk) = Some from /\ pt_tokens p !! pk = Some (server_token (strlen o))) ->
  receiving o from (note_pull_header r k (strlen o) (server_token (strlen o))) k pk.
Proof.
  intros Hw Hst Hok Hfrom. exists p. unfold note_pull_header, with_headers. cbn [re_waiters re_headers]. rewrite lookup_insert_eq.
  split_and!; try done.
Qed.

Lemma get_stream_drop objects prefix hash o from rest :
  objects !! object_path prefix hash = Some o -> o = (from +:+ rest)%string ->
  get_stream_from objects prefix hash (strlen from) = Some (strlen o, rest).
Proof.
  intros Ho ->. unfold get_stream_from. rewrite Ho. cbn [mbind option_bind]. f_equal. f_equal.
  rewrite strlen_app. pose proof (strlen_pos rest). destruct (Z.leb_spec (strlen from + strlen rest) (strlen from)) as [Hle|_].
  - unfold strlen in Hle. destruct rest; [done|]. simpl in Hle. lia.
  - apply drop_app.
Qed.

Definition all_read (l : list Read) : bool := forallb (fun r => match r with Block _ => true | _ => false end) l.

(** How a store may cut what it streams. *)
Definition store_reads (cut : string -> list Read) : Prop := forall s, reads (all_read (cut s)) s (cut s).

(** What is served for a request made from the staged state: the rest of the object. *)
Lemma serve_rest size cut objects prefix path hash o r k pk p :
  0 < size -> objects !! object_path prefix hash = Some o -> serve_hash path = Some hash -> o <> ""%string ->
  store_reads cut -> staging r k = Some (p, pk) -> staged_ok o p pk ->
  let (from, token) := pull_request r k in
  exists done rest l, serve_nar_request size cut objects prefix path from token =
      NarStreamHeader (strlen o) (server_token (strlen o)) :: l /\
    stream size (all_read (cut rest)) (strlen done) rest l /\ o = (done +:+ rest)%string /\
    (done = ""%string \/ ((pf_bytes <$> pt_files p !! pk) = Some done /\ pt_tokens p !! pk = Some (server_token (strlen o)))).
Proof.
  intros Hsize Hobj Hhash Hne Hcut Hst Hok.
  assert (Hfresh : get_stream_from objects prefix hash 0 = Some (strlen o, o)) by by apply (get_stream_drop _ _ _ o "" o).
  assert (H0 : exists l, l = push_blocks size "" 0 (cut o) /\ stream size (all_read (cut o)) 0 o l).
  { eexists. split; [done|]. apply (push_blocks_stream size Hsize _ _ o ""); [apply Hcut|unfold strlen; simpl; lia]. }
  destruct H0 as (l0 & Hl0 & Hs0).
  unfold pull_request, resumable. rewrite Hst. unfold staged_len, partial_token, file_len.
  destruct (pt_tokens p !! pk) as [t|] eqn:Et.
  2:{ unfold serve_nar_request. rewrite Hhash, Hfresh. pose proof (strlen_pos o). destruct (Z.ltb_spec (strlen o) 0); [lia|].
      cbn [orb]. exists ""%string, o, l0. split_and!; [by rewrite Hl0|done|done|by left]. }
  destruct (pt_files p !! pk) as [f|] eqn:Ef; [destruct (Z.ltb_spec 0 (strlen (pf_bytes f))) as [Hpos|Hz]|].
  - unfold serve_nar_request. rewrite Hhash. destruct (String.eqb_spec t (server_token (strlen o))) as [->|Hneq].
    + unfold staged_ok in Hok. rewrite Et, Ef in Hok. destruct (Hok eq_refl) as [rest Ho]. rewrite (get_stream_drop _ _ _ o (pf_bytes f) rest Hobj Ho).
      assert (Hle : strlen o = strlen (pf_bytes f) + strlen rest) by (by rewrite Ho, strlen_app). pose proof (strlen_pos rest).
      destruct (Z.ltb_spec (strlen o) (strlen (pf_bytes f))); [lia|]. rewrite String.eqb_refl. cbn [negb orb].
      exists (pf_bytes f), rest, (push_blocks size "" (strlen (pf_bytes f)) (cut rest)). split_and!; [done| |done|by right].
      apply (push_blocks_stream size Hsize _ _ rest ""); [apply Hcut|unfold strlen; simpl; lia].
    + assert (Hg : exists st, get_stream_from objects prefix hash (strlen (pf_bytes f)) = Some (strlen o, st)).
      { unfold get_stream_from. rewrite Hobj. by eexists. }
      destruct Hg as [st ->]. rewrite (proj2 (String.eqb_neq _ _) Hneq). cbn [negb]. rewrite orb_true_r, Hfresh. cbn [fmap option_fmap option_map snd].
      exists ""%string, o, l0. split_and!; [by rewrite Hl0|done|done|by left].
  - unfold serve_nar_request. rewrite Hhash, Hfresh. pose proof (strlen_pos o). destruct (Z.ltb_spec (strlen o) 0); [lia|].
    cbn [orb]. exists ""%string, o, l0. split_and!; [by rewrite Hl0|done|done|by left].
  - cbn [Z.ltb Z.compare]. unfold serve_nar_request. rewrite Hhash, Hfresh. pose proof (strlen_pos o). destruct (Z.ltb_spec (strlen o) 0); [lia|].
    cbn [orb]. exists ""%string, o, l0. split_and!; [by rewrite Hl0|done|done|by left].
Qed.

(** One pull, cut anywhere. *)
Lemma pull_step size cut objects prefix hash o r k pk p arrive now :
  0 < size -> objects !! object_path prefix hash = Some o -> serve_hash (snd k) = Some hash -> o <> ""%string ->
  store_reads cut -> staging r k = Some (p, pk) -> staged_ok o p pk ->
  let (r', d) := pull size cut objects prefix r k arrive now in
  (exists p', staging r' k = Some (p', pk) /\ staged_ok o p' pk) /\ ((forall s, all_read (cut s) = true) -> arrive = None -> d = Some (Delivered o)).
Proof.
  intros Hsize Hobj Hhash Hne Hcut Hst Hok. unfold pull. set (r0 := register r k).
  assert (Hst0 : staging r0 k = Some (p, pk)) by (by rewrite <- Hst).
  assert (Hw : k ∈ re_waiters r0) by (unfold r0, register; simpl; set_solver).
  pose proof (serve_rest size cut objects prefix (snd k) hash o r0 k pk p Hsize Hobj Hhash Hne Hcut Hst0 Hok) as Hserve.
  destruct (pull_request r0 k) as [from token]. destruct Hserve as (done & rest & l & -> & Hstream & Ho & Hdone).
  pose proof (receiving_start o r0 k pk p done Hw Hst0 Hok Hdone) as Hrec.
  assert (Hrun : forall n, let '(r', d) := on_messages r0 k (take n (NarStreamHeader (strlen o) (server_token (strlen o)) :: l)) now in
    (exists p', staging r' k = Some (p', pk) /\ staged_ok o p' pk) /\ (all_read (cut rest) = true -> (S (length l) <= n)%nat -> d = Some (Delivered o))).
  { intros [|n]; [cbn; split; [by exists p|lia]|]. cbn [take on_messages on_message].
    pose proof (receive_stream size o Hne _ l (strlen done) rest Hstream done _ k pk now n Ho eq_refl Hrec) as H.
    destruct (on_messages _ k (take n l) now) as [r' d]. destruct H as [H1 H2]. split; [done|]. intros. apply H2; [done|lia]. }
  destruct arrive as [n|].
  - specialize (Hrun n). destruct (on_messages _ k _ now) as [r' d]. destruct Hrun as [H1 H2]. by split.
  - specialize (Hrun (S (length l))). rewrite firstn_all2 in Hrun by (simpl; lia). destruct (on_messages _ k _ now) as [r' d].
    destruct Hrun as [H1 H2]. split; [done|]. intros. by apply H2.
Qed.

(** An attempt at a pull: how the store cut the stream and how much of it arrived. *)
Record Attempt := { at_cut : string -> list Read; at_arrive : option nat; at_now : Z }.

Definition attempts (size : Z) (objects : gmap string string) (prefix : string) (r : NarReceiver) (k : PullKey) (l : list Attempt) : NarReceiver :=
  foldl (fun r a => fst (pull size (at_cut a) objects prefix r k (at_arrive a) (at_now a))) r l.

(** C38. However often a download of a stored object is cut short, by the connection or by
    the store, and wherever its chunks end, the pull that at last runs to its end hands over
    the object, whatever was staged before under the object's token being a beginning of it. *)
Theorem pull_resumes size objects prefix hash o r k pk p history cut now :
  0 < size -> objects !! object_path prefix hash = Some o -> serve_hash (snd k) = Some hash -> o <> ""%string ->
  staging r k = Some (p, pk) -> staged_ok o p pk ->
  Forall (fun a => store_reads (at_cut a)) history -> store_reads cut -> (forall s, all_read (cut s) = true) ->
  snd (pull size cut objects prefix (attempts size objects prefix r k history) k None now) = Some (Delivered o).
Proof.
  intros Hsize Hobj Hhash Hne Hst Hok Hhist Hcut Hall.
  assert (H : exists p', staging (attempts size objects prefix r k history) k = Some (p', pk) /\ staged_ok o p' pk).
  { unfold attempts. revert r p Hst Hok. induction Hhist as [|a l Ha Hl IH]; intros r p Hst Hok; cbn [foldl]; [by exists p|].
    pose proof (pull_step size (at_cut a) objects prefix hash o r k pk p (at_arrive a) (at_now a) Hsize Hobj Hhash Hne Ha Hst Hok) as Hstep.
    destruct (pull size (at_cut a) objects prefix r k (at_arrive a) (at_now a)) as [r' d]. destruct Hstep as [(p' & H1 & H2) _]. by apply (IH r' p'). }
  destruct H as (p' & H1 & H2).
  pose proof (pull_step size cut objects prefix hash o _ k pk p' None now Hsize Hobj Hhash Hne Hcut H1 H2) as H.
  destruct (pull size cut objects prefix _ k None now) as [r' d]. destruct H as [_ H]. by apply H.
Qed.
