(* ===== verification/CacheFacts.v ===== *)
(** * What a binary cache serves

    The narinfo text reads back ([narinfo_roundtrip]); an upload is served with a signature
    that verifies ([fresh_upload_verifies]) until the path is uploaded again with other
    contents ([reupload_breaks_signature]); which caches an upload and a download reach
    ([upload_crosses_caches], [nar_of_any_cache]). *)

From stdpp Require Import pretty.
From S2P Require Import Prelude ScoreContext StorePath Permissions Access Tokens RustStr RustText NixHash CacheRows Partials NarStage NarInfo CacheServe.

Local Open Scope Z_scope.

(** ** Visible text *)

Definition is_visible (c : ascii) : bool := in_range 33 126 c.

Definition visible (s : string) : Prop := all_chars is_visible s = true.

Lemma visible_app a b : visible (a +:+ b) <-> visible a /\ visible b.
Proof. unfold visible. rewrite all_chars_app. apply andb_true_iff. Qed.

Lemma visible_cons c s : visible (String c s) <-> is_visible c = true /\ visible s.
Proof. unfold visible. cbn [all_chars]. apply andb_true_iff. Qed.

Lemma white_space_invisible : Forall (fun w => exists c r, w = String c r /\ is_visible c = false) WHITE_SPACE.
Proof.
  apply Forall_forall. intros w Hw. apply list_elem_of_In in Hw.
  assert (Hall : forallb (fun w => match w with String c _ => negb (is_visible c) | EmptyString => false end) WHITE_SPACE = true) by (vm_compute; reflexivity).
  rewrite forallb_forall in Hall. specialize (Hall w Hw). destruct w as [|c r]; [done|]. apply negb_true_iff in Hall. by exists c, r.
Qed.

Lemma visible_no_lead s : visible s -> no_lead s.
Proof.
  intros Hs. eapply Forall_impl; [apply white_space_invisible|]. intros w (c & r & -> & Hc) t ->. apply (proj1 (visible_cons c (r +:+ t))) in Hs as [Hs _]. congruence.
Qed.

Lemma visible_no_trail s : visible s -> no_trail s.
Proof.
  intros Hs. eapply Forall_impl; [apply white_space_invisible|]. intros w (c & r & -> & Hc) t ->. apply visible_app in Hs as [_ [Hs _]%visible_cons]. congruence.
Qed.

Lemma visible_trim s : visible s -> trim s = s.
Proof. intros Hs. apply trim_id; [by apply visible_no_lead|by apply visible_no_trail]. Qed.

Lemma visible_free c s : is_visible c = false -> visible s -> contains_char c s = false.
Proof.
  intros Hc. induction s as [|a s IH]; [done|]. intros [Ha Hs]%visible_cons. cbn [contains_char]. rewrite IH by done. rewrite orb_false_r.
  destruct (Ascii.eqb_spec a c) as [->|]; [congruence|done].
Qed.

Lemma strip_visible c s : is_visible c = true -> strip_any RustStr.strip_prefix WHITE_SPACE (String c s) = None.
Proof.
  intros Hc. apply strip_any_None. eapply Forall_impl; [apply white_space_invisible|]. intros w (x & r & -> & Hx). cbn.
  destruct (Ascii.eqb_spec x c) as [->|]; [|done]. congruence.
Qed.

Lemma trim_space s : trim (String " " s) = trim s.
Proof.
  reflexivity.
Qed.

Fixpoint last_char (s : string) : option ascii :=
  match s with EmptyString => None | String c EmptyString => Some c | String _ s => last_char s end.

Lemma last_char_app a v : v <> ""%string -> last_char (a +:+ v) = last_char v.
Proof.
  intros Hv. induction a as [|c a IH]; [done|]. change (String c a +:+ v)%string with (String c (a +:+ v)).
  destruct (a +:+ v)%string as [|d s] eqn:E; [|exact IH]. by destruct a, v.
Qed.

Lemma last_char_visible v : v <> ""%string -> visible v -> exists c, last_char v = Some c /\ is_visible c = true.
Proof.
  induction v as [|c v IH]; [done|]. intros _ [Hc Hv]%visible_cons. destruct v as [|d v]; [by exists c|]. by apply IH.
Qed.

Lemma white_space_last : Forall (fun w => w <> ""%string /\ forall c, last_char w = Some c -> is_visible c = false) WHITE_SPACE.
Proof.
  apply Forall_forall. intros w Hw. apply list_elem_of_In in Hw.
  assert (Hall : forallb (fun w => match last_char w with Some c => negb (is_visible c) | None => false end) WHITE_SPACE = true) by (vm_compute; reflexivity).
  rewrite forallb_forall in Hall. specialize (Hall w Hw). destruct w as [|c r]; [done|]. split; [done|]. intros x Hx. rewrite Hx in Hall. by apply negb_true_iff in Hall.
Qed.

Lemma no_trail_visible a v : v <> ""%string -> visible v -> no_trail (a +:+ v).
Proof.
  intros Hne Hv. destruct (last_char_visible v Hne Hv) as (c & Hc & Hvis). eapply Forall_impl; [apply white_space_last|].
  intros w [Hw Hlast] t E. apply (f_equal last_char) in E. rewrite !last_char_app in E by done. rewrite Hc in E. symmetry in E. apply Hlast in E. congruence.
Qed.

(** ** Words *)

Definition pieces (s : string) : list string := whitespace_pieces (String.length s) s.

Lemma pieces_space s : pieces (String " " s) = ""%string :: pieces s.
Proof.
  unfold pieces. cbn [String.length whitespace_pieces].
  assert (H : strip_any RustStr.strip_prefix WHITE_SPACE (String " " s) = Some s) by reflexivity. by rewrite H.
Qed.

Lemma pieces_visible w s : visible w ->
  pieces (w +:+ s) = match pieces s with [] => [w] | p :: ps => (w +:+ p)%string :: ps end.
Proof.
  induction w as [|c w IH]; intros Hw.
  - change ("" +:+ s)%string with s. destruct (pieces s) eqn:E; [|done]. unfold pieces in E.
    destruct (String.length s); [done|]. cbn [whitespace_pieces] in E. by repeat case_match.
  - change (String c w +:+ s)%string with (String c (w +:+ s)). apply visible_cons in Hw as [Hc Hw].
    unfold pieces at 1. cbn [String.length whitespace_pieces]. rewrite strip_visible by done. fold (pieces (w +:+ s)). rewrite IH by done.
    destruct (pieces s); reflexivity.
Qed.

Lemma split_words ws : Forall (fun w => visible w /\ w <> ""%string) ws -> split_whitespace (join_with " " ws) = ws.
Proof.
  assert (Hsplit : forall s, split_whitespace s = List.filter (fun w => negb (String.eqb w "")) (pieces s)) by done.
  assert (Hne : forall w : string, w <> ""%string -> negb (String.eqb w "") = true) by (intros w Hw; by rewrite (proj2 (String.eqb_neq w ""))).
  induction ws as [|w ws IH]; intros Hall; [done|]. apply Forall_cons in Hall as [[Hv Hw] Hall]. specialize (IH Hall).
  destruct ws as [|w' ws].
  - cbn [join_with]. pose proof (pieces_visible w "" Hv) as H. rewrite string_app_nil_r in H. rewrite Hsplit, H. cbn [pieces String.length whitespace_pieces].
    change (pieces "") with [""%string]. cbv iota. rewrite string_app_nil_r. cbn [List.filter]. by rewrite Hne.
  - change (join_with " " (w :: w' :: ws)) with (w +:+ String " " (join_with " " (w' :: ws)))%string.
    rewrite Hsplit, pieces_visible by done. rewrite pieces_space. rewrite string_app_nil_r. cbn [List.filter]. rewrite Hne by done. f_equal. exact IH.
Qed.

(** ** Lines *)

Fixpoint unlines (ls : list string) : string :=
  match ls with [] => "" | l :: ls => (l +:+ newline +:+ unlines ls)%string end.

Lemma unlines_app a b : unlines (a ++ b) = (unlines a +:+ unlines b)%string.
Proof. induction a as [|x a IH]; [done|]. cbn [unlines app]. rewrite IH. by rewrite !string_app_assoc. Qed.

Lemma lines_unlines ls :
  Forall (fun l => contains_char (ascii_of_nat 10) l = false /\ chomp_cr l = l) ls -> lines (unlines ls) = ls.
Proof.
  intros Hall. assert (Hs : split_char (ascii_of_nat 10) (unlines ls) = (ls ++ [""%string])%list).
  { induction Hall as [|l ls [Hl _] Hall IH]; [done|]. cbn [unlines]. change (newline +:+ unlines ls)%string with (String (ascii_of_nat 10) (unlines ls)).
    by rewrite split_char_app, IH. }
  unfold lines. rewrite Hs, reverse_app. cbn [reverse rev_append app]. rewrite app_nil_r.
  assert (Hm : map chomp_cr (reverse ls) = reverse ls).
  { clear Hs. apply Forall_reverse in Hall. induction Hall as [|l l' [_ Hl] _ IH]; [done|]. cbn. by rewrite Hl, IH. }
  change (reverse (map chomp_cr (reverse ls)) = ls). by rewrite Hm, reverse_involutive.
Qed.

Lemma chomp_visible k v : visible v -> visible k -> contains_char (ascii_of_nat 10) (k +:+ ": " +:+ v)%string = false /\
  chomp_cr (k +:+ ": " +:+ v)%string = (k +:+ ": " +:+ v)%string.
Proof.
  intros Hv Hk. split; [by rewrite !contains_char_app, (visible_free _ k), (visible_free _ v) by done|].
  unfold chomp_cr. destruct (strip_suffix _ carriage_return) as [r|] eqn:E; [|done]. apply strip_suffix_Some in E. exfalso.
  assert (Hc : contains_char (ascii_of_nat 13) (k +:+ ": " +:+ v)%string = true) by (rewrite E, contains_char_app; apply orb_true_r).
  by rewrite !contains_char_app, (visible_free _ k), (visible_free _ v) in Hc by done.
Qed.

(** ** Numbers *)

Lemma digit_char n : (n < 10)%N -> digit_value (pretty_N_char n) = Some (Z.of_N n) /\ is_visible (pretty_N_char n) = true.
Proof.
  intros Hn. assert (Hin : In n (map N.of_nat (seq 0 10))) by (apply in_map_iff; exists (N.to_nat n); split; [lia|apply in_seq; lia]).
  assert (Hall : forallb (fun n => match digit_value (pretty_N_char n) with Some z => (z =? Z.of_N n) && is_visible (pretty_N_char n) | None => false end)
    (map N.of_nat (seq 0 10)) = true) by (vm_compute; reflexivity).
  rewrite forallb_forall in Hall. specialize (Hall n Hin). destruct (digit_value _); [|done]. apply andb_true_iff in Hall as [?%Z.eqb_eq ?]. by subst.
Qed.

Lemma pretty_go_digits bound x : forall s, (0 < x)%N -> Z.of_N x < bound ->
  parse_digits bound 0 (pretty_N_go x s) = parse_digits bound (Z.of_N x) s.
Proof.
  induction (N.lt_wf_0 x) as [x _ IH]. intros s Hx Hb. rewrite pretty_N_go_step by done.
  assert (Hq : (x `div` 10 < x)%N) by (apply N.div_lt; lia).
  assert (Hm : (x `mod` 10 < 10)%N) by (apply N.mod_lt; lia). assert (Hdm : x = (10 * (x `div` 10) + x `mod` 10)%N) by (apply N.div_mod; lia).
  destruct (digit_char (x `mod` 10)%N Hm) as [Hd _]. specialize (IH (x `div` 10)%N Hq).
  set (q := (x `div` 10)%N) in *. set (m := (x `mod` 10)%N) in *. clearbody q m.
  destruct (N.eq_dec q 0%N) as [->|Hz].
  - rewrite pretty_N_go_0. cbn [parse_digits]. rewrite Hd. cbn [mbind option_bind]. replace (0 * 10 + Z.of_N m) with (Z.of_N x) by lia.
    by rewrite (proj2 (Z.ltb_lt (Z.of_N x) bound)).
  - rewrite IH by lia. cbn [parse_digits]. rewrite Hd. cbn [mbind option_bind].
    replace (Z.of_N q * 10 + Z.of_N m) with (Z.of_N x) by lia. by rewrite (proj2 (Z.ltb_lt (Z.of_N x) bound)).
Qed.

Lemma pretty_go_visible x : forall s, visible s -> visible (pretty_N_go x s).
Proof.
  induction (N.lt_wf_0 x) as [x _ IH]. intros s Hs. destruct (N.eq_dec x 0%N) as [->|Hx]; [by rewrite pretty_N_go_0|].
  rewrite pretty_N_go_step by lia. apply IH; [apply N.div_lt; lia|]. apply visible_cons. split; [|done].
  pose proof (N.mod_lt x 10 ltac:(lia)) as Hm. by destruct (digit_char _ Hm).
Qed.

Lemma pretty_Z_nonneg n : 0 <= n -> (pretty n : string) = if n =? 0 then "0"%string else pretty_N_go (Z.to_N n) "".
Proof. intros Hn. destruct n as [|p|p]; [done| |lia]. reflexivity. Qed.

Lemma pretty_visible n : 0 <= n -> visible (pretty n).
Proof. intros Hn. rewrite pretty_Z_nonneg by done. destruct (n =? 0); [done|]. by apply pretty_go_visible. Qed.

Lemma parse_pretty bound n : 0 <= n < bound -> parse_unsigned bound (pretty n) = Some n.
Proof.
  intros Hn. rewrite pretty_Z_nonneg by lia. destruct (Z.eqb_spec n 0) as [->|Hz].
  - unfold parse_unsigned. cbn. destruct bound; [lia|done|lia].
  - set (s := pretty_N_go (Z.to_N n) ""). assert (Hs : parse_digits bound 0 s = Some n).
    { unfold s. rewrite pretty_go_digits by lia. cbn. f_equal. lia. }
    unfold parse_unsigned. destruct s as [|c s'] eqn:E; [cbn in Hs; simplify_eq|].
    assert (Hplus : strip_prefix "+" (String c s') = None).
    { cbn [RustStr.strip_prefix]. destruct (Ascii.eqb_spec "+" c) as [<-|]; [done|done]. }
    by rewrite Hplus.
Qed.

(** ** The narinfo text reads back *)

Definition entry_line (e : string * string) : string := (fst e +:+ ": " +:+ snd e)%string.

Definition opt_entry (k : string) (o : option string) : list (string * string) := match o with Some v => [(k, v)] | None => [] end.

Definition path_entries (i : NixPathInfo) : list (string * string) :=
  ([("StorePath", np_store_path i); ("URL", np_url i); ("Compression", np_compression i); ("FileHash", np_file_hash i);
    ("FileSize", pretty (np_file_size i)); ("NarHash", np_nar_hash i); ("NarSize", pretty (np_nar_size i))]%string ++
   (match np_references i with [] => [] | refs => [("References"%string, join_with " " (map store_path_name refs))] end) ++
   opt_entry "Deriver" (store_path_name <$> np_deriver i) ++ [("Sig"%string, np_sig i)] ++ opt_entry "CA" (np_ca i))%list.

Lemma to_nix_entries i : to_nix_string i = unlines (map entry_line (path_entries i)).
Proof.
  unfold path_entries, to_nix_string, field, entry_line.
  destruct (np_references i), (np_deriver i), (np_ca i); cbn [opt_entry fmap option_fmap option_map map app unlines fst snd];
    rewrite ?string_app_assoc, ?string_app_nil_r; reflexivity.
Qed.

Record info_ok (i : NixPathInfo) : Prop := {
  ok_store_path : visible (np_store_path i);
  ok_url : visible (np_url i);
  ok_compression : visible (np_compression i);
  ok_file_hash : visible (np_file_hash i);
  ok_file_size : 0 <= np_file_size i < 2 ^ 32;
  ok_nar_hash : visible (np_nar_hash i);
  ok_nar_size : 0 <= np_nar_size i < 2 ^ 64;
  ok_references : Forall (fun r => visible (store_path_name r) /\ store_path_name r <> ""%string) (np_references i);
  ok_sig : visible (np_sig i);
  ok_deriver : match np_deriver i with Some d => visible (store_path_name d) | None => True end;
  ok_ca : match np_ca i with Some c => visible c | None => True end;
}.

(** A line the readers take apart: visible but for the blanks between words. *)
Definition entry_ok (e : string * string) : Prop :=
  visible (fst e) /\ contains_char ":" (fst e) = false /\ contains_char (ascii_of_nat 10) (snd e) = false /\
  contains_char (ascii_of_nat 13) (snd e) = false /\ trim (snd e) = snd e.

Lemma visible_entry k v : visible k -> contains_char ":" k = false -> visible v -> entry_ok (k, v).
Proof. intros Hk Hc Hv. unfold entry_ok. cbn [fst snd]. by rewrite !(visible_free _ v), visible_trim by done. Qed.

Lemma words_entry ws : Forall (fun w => visible w /\ w <> ""%string) ws -> entry_ok ("References"%string, join_with " " ws).
Proof.
  intros Hall.
  assert (Hfree : forall c, is_visible c = false -> c <> " "%char -> contains_char c (join_with " " ws) = false).
  { intros c Hc Hsp. induction ws as [|w ws IH]; [done|]. apply Forall_cons in Hall as [[Hw _] Hall]. destruct ws as [|w' ws]; [by apply visible_free|].
    change (join_with " " (w :: w' :: ws)) with (w +:+ String " " (join_with " " (w' :: ws)))%string. rewrite contains_char_app, (visible_free c w) by done.
    cbn [contains_char]. rewrite IH by done. rewrite orb_false_r. by destruct (Ascii.eqb_spec " " c). }
  unfold entry_ok. cbn [fst snd]. split_and!; [done|done|by apply Hfree|by apply Hfree|].
  destruct ws as [|w ws]; [done|]. apply trim_id.
  - apply Forall_cons in Hall as [[Hv Hw] _]. destruct w as [|c w]; [done|]. apply visible_cons in Hv as [Hc _].
    assert (Hs : exists t, join_with " " (String c w :: ws) = String c t) by (destruct ws; by eexists). destruct Hs as [t ->].
    by apply no_lead_spec, strip_visible.
  - assert (Hlast : exists a v, join_with " " (w :: ws) = (a +:+ v)%string /\ v <> ""%string /\ visible v).
    { clear Hfree. revert w Hall. induction ws as [|w' ws IH]; intros w Hall.
      - apply Forall_cons in Hall as [[Hv Hw] _]. by exists ""%string, w.
      - apply Forall_cons in Hall as [_ Hall]. destruct (IH w' Hall) as (a & v & Hj & Hne & Hv).
        change (join_with " " (w :: w' :: ws)) with (w +:+ " " +:+ join_with " " (w' :: ws))%string. rewrite Hj.
        exists (w +:+ " " +:+ a)%string, v. by rewrite !string_app_assoc. }
    destruct Hlast as (a & v & -> & Hne & Hv). by apply no_trail_visible.
Qed.

Lemma entry_lines es : Forall entry_ok es -> lines (unlines (map entry_line es)) = map entry_line es.
Proof.
  intros Hall. apply lines_unlines, Forall_map. eapply Forall_impl; [exact Hall|]. intros [k v] (Hk & _ & Hn & Hr & _). cbn [fst snd] in *.
  unfold entry_line. cbn [fst snd]. split; [by rewrite !contains_char_app, (visible_free _ k), Hn by done|].
  unfold chomp_cr. destruct (strip_suffix _ carriage_return) as [r|] eqn:E; [|done]. apply strip_suffix_Some in E. exfalso.
  assert (Hc : contains_char (ascii_of_nat 13) (k +:+ ": " +:+ v)%string = true) by (rewrite E, contains_char_app; apply orb_true_r).
  by rewrite !contains_char_app, (visible_free _ k), Hr in Hc by done.
Qed.

Lemma read_entry kv k v : entry_ok (k, v) ->
  narinfo_entry kv (entry_line (k, v)) =
  if String.eqb k "Sig" then (fst kv, match snd kv with Some s => Some s | None => Some v end) else (<[k := v]> (fst kv), snd kv).
Proof.
  intros (Hk & Hc & _ & _ & Ht). cbn [fst snd] in *. unfold narinfo_entry, entry_line. cbn [fst snd].
  assert (Hs : split_once ":" (k +:+ ": " +:+ v)%string = Some (k, String " " v)) by (apply split_once_Some; done).
  rewrite Hs, trim_space, Ht, visible_trim by done. done.
Qed.

(** The value of a key in a list of entries: the last, and for [Sig] the first. *)
Definition last_value (k : string) (es : list (string * string)) (acc : option string) : option string :=
  foldl (fun acc e => if String.eqb (fst e) k then Some (snd e) else acc) acc es.

Definition first_value (k : string) (es : list (string * string)) (acc : option string) : option string :=
  foldl (fun acc e => if String.eqb (fst e) k then match acc with Some s => Some s | None => Some (snd e) end else acc) acc es.

Lemma read_entries es : Forall entry_ok es -> forall kv k, k <> "Sig"%string ->
  fst (foldl narinfo_entry kv (map entry_line es)) !! k = last_value k es (fst kv !! k).
Proof.
  induction 1 as [|[k' v] es He Hes IH]; intros kv k Hk; [done|]. cbn [map foldl]. rewrite IH by done. unfold last_value. cbn [foldl fst snd]. f_equal.
  rewrite read_entry by done. destruct (String.eqb_spec k' "Sig") as [->|Hs]; cbn [fst].
  - by rewrite (proj2 (String.eqb_neq "Sig" k)) by congruence.
  - destruct (String.eqb_spec k' k) as [->|Hne]; [by rewrite lookup_insert_eq|by rewrite lookup_insert_ne].
Qed.

Lemma read_sig es : Forall entry_ok es -> forall kv,
  snd (foldl narinfo_entry kv (map entry_line es)) = first_value "Sig" es (snd kv).
Proof.
  induction 1 as [|[k v] es He Hes IH]; intros kv; [done|]. cbn [map foldl]. rewrite IH. unfold first_value. cbn [foldl fst snd]. f_equal.
  rewrite read_entry by done. by destruct (String.eqb k "Sig").
Qed.

Lemma entries_ok i : info_ok i -> Forall entry_ok (path_entries i).
Proof.
  intros []. unfold path_entries. repeat apply Forall_app_2.
  - repeat constructor; try done; apply visible_entry; try done; apply pretty_visible; lia.
  - destruct (np_references i) as [|r refs]; [done|]. constructor; [|done]. apply words_entry, Forall_map. exact ok_references0.
  - destruct (np_deriver i) as [dv|]; [|done]. constructor; [by apply visible_entry|done].
  - constructor; [by apply visible_entry|done].
  - destruct (np_ca i) as [c|]; [|done]. constructor; [by apply visible_entry|done].
Qed.

(** What a reader gets back: names without their directory. *)
Definition as_read (i : NixPathInfo) : NixPathInfo := {|
  np_store_path := np_store_path i; np_url := np_url i; np_compression := np_compression i; np_file_hash := np_file_hash i;
  np_file_size := np_file_size i; np_nar_hash := np_nar_hash i; np_nar_size := np_nar_size i;
  np_references := map store_path_name (np_references i); np_sig := np_sig i;
  np_deriver := store_path_name <$> np_deriver i; np_ca := np_ca i |}.

(** C39. Every narinfo whose fields are visible text and whose numbers are of their width
    reads back as it was written, references and deriver as bare names, with or without
    references, a deriver and a content address. *)
Theorem narinfo_roundtrip i : info_ok i -> parse_narinfo_body (to_nix_string i) = Ok (as_read i).
Proof.
  intros Hok. pose proof (entries_ok i Hok) as He. unfold parse_narinfo_body. rewrite to_nix_entries, entry_lines by done.
  destruct (foldl narinfo_entry (∅, None) (map entry_line (path_entries i))) as [kv sig] eqn:Ef.
  assert (Hk : forall k, k <> "Sig"%string -> kv !! k = last_value k (path_entries i) None).
  { intros k Hk. pose proof (read_entries _ He (∅, None) k Hk) as H. rewrite Ef in H. cbn [fst] in H. by rewrite lookup_empty in H. }
  assert (Hs : sig = first_value "Sig" (path_entries i) None) by (pose proof (read_sig _ He (∅, None)) as H; by rewrite Ef in H).
  rewrite !Hk by done. subst sig.
  assert (Hrefs : split_whitespace (default "" (last_value "References" (path_entries i) None))%string = map store_path_name (np_references i)).
  { destruct Hok. unfold path_entries. destruct (np_references i) as [|r refs] eqn:Er; destruct (np_deriver i), (np_ca i); try reflexivity;
      change (split_whitespace (join_with " " (map store_path_name (r :: refs))) = map store_path_name (r :: refs)); by apply split_words, Forall_map. }
  rewrite Hrefs. clear Hk Ef kv. unfold path_entries.
  destruct Hok, i as [sp url comp fh fs nh ns refs sg dv ca]; cbn [np_store_path np_url np_compression np_file_hash np_file_size np_nar_hash np_nar_size np_references np_sig np_deriver np_ca] in *.
  unfold as_read. cbn [np_store_path np_url np_compression np_file_hash np_file_size np_nar_hash np_nar_size np_references np_sig np_deriver np_ca].
  assert (Hfs := parse_pretty (2 ^ 32) fs ok_file_size0). assert (Hns := parse_pretty (2 ^ 64) ns ok_nar_size0).
  destruct refs as [|r refs], dv as [dv|], ca as [ca|]; cbn -[parse_unsigned pretty Z.pow join_with map store_path_name]; rewrite Hfs; cbn [or_err result_bind]; rewrite Hns; reflexivity.
Qed.

(** ** The signature of a served narinfo *)

Lemma strip_key K k v : contains_char ":" K = false -> contains_char ":" k = false ->
  strip_prefix (K +:+ ": ") (k +:+ ": " +:+ v) = if String.eqb k K then Some v else None.
Proof.
  intros HK Hk. destruct (String.eqb_spec k K) as [->|Hne]; [by rewrite <- string_app_assoc, strip_prefix_app|].
  destruct (strip_prefix (K +:+ ": ") (k +:+ ": " +:+ v)) as [r|] eqn:E; [|done]. apply strip_prefix_Some in E. rewrite string_app_assoc in E.
  assert (H1 : split_once ":" (k +:+ ": " +:+ v)%string = Some (k, String " " v)) by by apply split_once_Some.
  assert (H2 : split_once ":" (K +:+ ": " +:+ r)%string = Some (K, String " " r)) by by apply split_once_Some.
  rewrite E, H2 in H1. congruence.
Qed.

Definition signed_entry (f : SignedFields) (e : string * string) : SignedFields :=
  let (k, v) := e in
  {| sf_store_path := if String.eqb k "StorePath" then Some v else sf_store_path f;
     sf_nar_hash := if String.eqb k "NarHash" then Some v else sf_nar_hash f;
     sf_nar_size := if String.eqb k "NarSize" then Some v else sf_nar_size f;
     sf_references := if String.eqb k "References" then split_whitespace v else sf_references f;
     sf_sigs := if String.eqb k "Sig" then (sf_sigs f ++ [v])%list else sf_sigs f |}.

Lemma signed_field_entry f k v : entry_ok (k, v) -> signed_field f (entry_line (k, v)) = signed_entry f (k, v).
Proof.
  intros (_ & Hc & _ & _ & Ht). cbn [fst snd] in *. unfold signed_field, entry_line, signed_entry. cbn [fst snd].
  pose proof (strip_key "StorePath" k v eq_refl Hc) as H1. pose proof (strip_key "NarHash" k v eq_refl Hc) as H2.
  pose proof (strip_key "NarSize" k v eq_refl Hc) as H3. pose proof (strip_key "References" k v eq_refl Hc) as H4.
  pose proof (strip_key "Sig" k v eq_refl Hc) as H5.
  change ("StorePath" +:+ ": ")%string with "StorePath: "%string in H1. change ("NarHash" +:+ ": ")%string with "NarHash: "%string in H2.
  change ("NarSize" +:+ ": ")%string with "NarSize: "%string in H3. change ("References" +:+ ": ")%string with "References: "%string in H4.
  change ("Sig" +:+ ": ")%string with "Sig: "%string in H5. rewrite H1, H2, H3, H4, H5.
  destruct (String.eqb_spec k "StorePath") as [->|]; [by rewrite Ht|]. destruct (String.eqb_spec k "NarHash") as [->|]; [by rewrite Ht|].
  destruct (String.eqb_spec k "NarSize") as [->|]; [by rewrite Ht|]. destruct (String.eqb_spec k "References") as [->|]; [done|].
  destruct (String.eqb_spec k "Sig") as [->|]; [by rewrite Ht|]. by destruct f.
Qed.

Lemma signed_entries es : Forall entry_ok es -> forall f, foldl signed_field f (map entry_line es) = foldl signed_entry f es.
Proof. induction 1 as [|[k v] es He Hes IH]; intros f; [done|]. cbn [map foldl]. by rewrite signed_field_entry, IH. Qed.

Lemma signed_fields_of i : info_ok i ->
  foldl signed_field no_fields (lines (to_nix_string i)) =
  {| sf_store_path := Some (np_store_path i); sf_nar_hash := Some (np_nar_hash i); sf_nar_size := Some (pretty (np_nar_size i));
     sf_references := map store_path_name (np_references i); sf_sigs := [np_sig i] |}.
Proof.
  intros Hok. pose proof (entries_ok i Hok) as He. rewrite to_nix_entries, entry_lines, signed_entries by done. unfold path_entries.
  destruct Hok. destruct (np_references i) as [|r refs], (np_deriver i), (np_ca i); try reflexivity; cbn -[split_whitespace join_with pretty map store_path_name];
    by rewrite split_words by by apply Forall_map.
Qed.

(** A reference in the form the code stores: a bare name, or a name in the store. *)
Definition plain_ref (r : string) : Prop :=
  contains_char "/" r = false \/ exists n, r = ("/nix/store/" +:+ n)%string /\ contains_char "/" n = false.

Lemma plain_ref_name r : plain_ref r -> full_ref (store_path_name r) = full_ref r.
Proof.
  assert (Hbare : forall n, contains_char "/" n = false -> full_ref n = ("/nix/store/" +:+ n)%string).
  { intros n Hn. unfold full_ref, starts_with. destruct (strip_prefix "/nix/store/" n) as [t|] eqn:E; [|done].
    apply strip_prefix_Some in E as ->. by rewrite contains_char_app in Hn. }
  intros [Hr|(n & -> & Hn)].
  - unfold store_path_name. by rewrite split_char_none.
  - assert (Hname : store_path_name ("/nix/store/" +:+ n)%string = n).
    { unfold store_path_name. change ("/nix/store/" +:+ n)%string with ("" +:+ String "/" ("nix" +:+ String "/" ("store" +:+ String "/" n)))%string.
      rewrite !split_char_app by done. by rewrite split_char_none. }
    rewrite Hname, Hbare by done. unfold full_ref, starts_with. by rewrite strip_prefix_app.
Qed.

Lemma fingerprint_names store_path nar_hash nar_size refs : Forall plain_ref refs ->
  fingerprint store_path nar_hash nar_size (map store_path_name refs) = fingerprint store_path nar_hash nar_size refs.
Proof.
  intros Hall. unfold fingerprint. do 8 f_equal. f_equal. rewrite map_map. apply map_ext_in. intros r Hr. apply plain_ref_name.
  rewrite Forall_forall in Hall. apply Hall. by apply list_elem_of_In.
Qed.

Lemma replace_visible from to : visible to -> forall fuel s, visible s -> visible (replace_fuel fuel from to s).
Proof.
  intros Hto. induction fuel as [|fuel IH]; intros s Hs; [by destruct s|]. destruct s as [|c s]; [done|]. cbn [replace_fuel].
  destruct (strip_prefix from (String c s)) as [r|] eqn:E.
  - apply strip_prefix_Some in E. rewrite E in Hs. apply visible_app in Hs as [_ Hr]. apply visible_app. split; [done|by apply IH].
  - apply visible_cons in Hs as [Hc Hs]. apply visible_cons. split; [done|by apply IH].
Qed.

Lemma replace_colon fuel : forall s, (String.length s <= fuel)%nat -> contains_char ":" (replace_fuel fuel ":" "-" s) = false.
Proof.
  induction fuel as [|fuel IH]; intros s Hs; [by destruct s; [|cbn in Hs; lia]|]. destruct s as [|c s]; [done|]. cbn [String.length] in Hs.
  cbn [replace_fuel RustStr.strip_prefix]. destruct (Ascii.eqb_spec ":" c) as [<-|Hne].
  - change ("-" +:+ replace_fuel fuel ":" "-" s)%string with (String "-" (replace_fuel fuel ":" "-" s)). cbn [contains_char]. rewrite IH by lia. done.
  - cbn [contains_char]. rewrite IH by lia. rewrite orb_false_r. destruct (Ascii.eqb_spec c ":"); [congruence|done].
Qed.

Lemma host_ok url : visible url -> visible (cache_key_host url) /\ contains_char ":" (cache_key_host url) = false.
Proof.
  intros Hu. unfold cache_key_host, replace_all. split; [|by apply replace_colon]. by repeat apply replace_visible.
Qed.

Section serving_facts.
Context `{DG : Digests} `{SG : Signing}.

(** The cache's keys: the private key decrypts, and the public column, when it is filled,
    is the public half. *)
Definition keys_of (secret_file : string) (c : CacheRow) (sk : SecretKey) : Prop :=
  exists key bs, decrypt_signing_key secret_file c = Ok key /\ base64_of (trim key) = Some bs /\ secret_from_slice bs = Some sk /\
    (ca_public_key c = ""%string \/ ca_public_key c = base64_encode (drop (length bs - 32) bs)).

Lemma base64_visible bs : visible (base64_encode bs).
Proof. exact (base64_text bs). Qed.

Lemma signer_of secret_file c sk url : keys_of secret_file c sk ->
  from_cache secret_file c url = Ok {| cs_secret_key := sk; cs_cache_name := ca_name c; cs_base_url := cache_key_host url |}.
Proof. intros (key & bs & Hd & Hb & Hs & _). unfold from_cache. rewrite Hd. cbn [result_bind]. rewrite Hb. cbn [or_err result_bind]. by rewrite Hs. Qed.

Lemma public_key_of secret_file c sk url : keys_of secret_file c sk ->
  exists pub, format_cache_public_key secret_file c url = Ok (key_name url (ca_name c) +:+ ":" +:+ pub)%string /\
    visible pub /\ base64_of pub ≫= public_from_slice = Some (sk_public sk).
Proof.
  intros (key & bs & Hd & Hb & Hs & Hpub). destruct (secret_tail bs sk Hs) as (Hlen & Hbytes & Hpk).
  exists (base64_encode (drop (length bs - 32) bs)). split_and!; [|apply base64_visible|].
  - unfold format_cache_public_key. destruct Hpub as [-> | ->].
    + cbn [String.eqb]. rewrite Hd. cbn [result_bind]. rewrite Hb. cbn [or_err result_bind]. by rewrite Hlen.
    + destruct (String.eqb _ ""); [|done]. rewrite Hd. cbn [result_bind]. rewrite Hb. cbn [or_err result_bind]. by rewrite Hlen.
  - rewrite base64_of_encode by by apply Forall_drop. exact Hpk.
Qed.

(** A narinfo with one of our signatures verifies with the cache's key exactly when the
    signature was made for what it says. *)
Lemma served_verdict secret_file url c sk i m :
  keys_of secret_file c sk -> visible url -> visible (ca_name c) -> contains_char ":" (ca_name c) = false ->
  info_ok i -> Forall plain_ref (np_references i) ->
  np_sig i = full_signature_token (sk_sign sk m) url (ca_name c) ->
  exists pk, format_cache_public_key secret_file c url = Ok pk /\
    verify_narinfo_signature pk (to_nix_string i) =
    pk_verify (sk_public sk) (fingerprint (np_store_path i) (np_nar_hash i) (pretty (np_nar_size i)) (np_references i)) (sk_sign sk m).
Proof.
  intros Hkeys Hurl Hname Hcolon Hok Hrefs Hsig. destruct (public_key_of secret_file c sk url Hkeys) as (pub & Hf & Hv & Hpk).
  eexists. split; [exact Hf|]. destruct (host_ok url Hurl) as [_ Hh].
  assert (Hk : contains_char ":" (key_name url (ca_name c)) = false) by (unfold key_name; by rewrite !contains_char_app, Hh, Hcolon).
  unfold verify_narinfo_signature.
  assert (Hs : forall x, split_once ":" (key_name url (ca_name c) +:+ ":" +:+ x)%string = Some (key_name url (ca_name c), x)) by (intros x; by apply split_once_Some).
  rewrite Hs, visible_trim, Hpk by done. rewrite signed_fields_of by done. cbn [sf_store_path sf_nar_hash sf_nar_size sf_references sf_sigs existsb].
  rewrite fingerprint_names by done. unfold sig_token_verifies. rewrite Hsig. unfold full_signature_token. rewrite Hs, String.eqb_refl.
  rewrite base64_of_encode by apply sign_bytes. cbn [mbind option_bind]. rewrite sign_slice. by rewrite orb_false_r.
Qed.

End serving_facts.

(** ** What an upload leaves in the tables *)

Lemma existsb_none {A} (f : A -> bool) l : Forall (fun x => f x = false) l -> existsb f l = false.
Proof. induction 1 as [|x l Hx _ IH]; [done|]. cbn [existsb]. by rewrite Hx, IH. Qed.

Lemma insert_new_fresh {A} (same : A -> A -> bool) (new : list A) : forall rows,
  Forall (fun r => Forall (fun x => same r x = false) rows) new ->
  StronglySorted (fun a b => same b a = false) new -> insert_new same rows new = (rows ++ new)%list.
Proof.
  induction new as [|r new IH]; intros rows Hout Hin; [by rewrite app_nil_r|]. unfold insert_new. cbn [foldl].
  apply Forall_cons in Hout as [Hr Hout]. apply StronglySorted_inv in Hin as [Hin Hrn]. rewrite existsb_none by done.
  fold (insert_new same (rows ++ [r]) new). rewrite IH; [by rewrite <- app_assoc| |done].
  rewrite Forall_forall in Hout, Hrn |- *. intros x Hx. apply Forall_app_2; [by apply Hout|]. constructor; [by apply Hrn|done].
Qed.

(** The reference rows of a path, numbered from [k]. *)
Fixpoint numbered (hash : string) (k : nat) (refs : list string) : list ReferenceRow :=
  match refs with
  | [] => []
  | r :: refs => {| rf_referrer := hash; rf_reference := r; rf_reference_hash := first_part r; rf_position := Z.of_nat k |}
                 :: numbered hash (S k) refs
  end.

Lemma reference_rows_numbered hash refs : Forall (fun r => r <> ""%string) refs -> reference_rows hash refs = numbered hash 1 refs.
Proof.
  unfold reference_rows, ordinality. generalize 1%nat. induction refs as [|r refs IH]; intros k Hne; [done|].
  apply Forall_cons in Hne as [Hr Hne]. cbn [length seq map zip zip_with omap list_omap numbered]. apply String.eqb_neq in Hr as ->.
  f_equal. by apply IH.
Qed.

Lemma numbered_references hash refs : forall k, map rf_reference (numbered hash k refs) = refs.
Proof. induction refs as [|r refs IH]; intros k; [done|]. cbn [numbered map]. by rewrite IH. Qed.

Lemma numbered_referrer hash refs : forall k, Forall (fun r => rf_referrer r = hash) (numbered hash k refs).
Proof. induction refs as [|r refs IH]; intros k; by constructor. Qed.

Lemma sort_numbered hash refs : forall k,
  sort_by (fun a b => Z.compare (rf_position a) (rf_position b)) (numbered hash k refs) = numbered hash k refs.
Proof.
  induction refs as [|r refs IH]; intros k; [done|]. cbn [numbered sort_by]. rewrite IH. destruct refs as [|r' refs]; [done|].
  cbn [numbered insert_by rf_position]. by rewrite (proj2 (Z.compare_lt_iff (Z.of_nat k) (Z.of_nat (S k)))) by lia.
Qed.

Lemma numbered_in hash refs x : forall k, x ∈ numbered hash k refs -> rf_reference x ∈ refs.
Proof.
  induction refs as [|r refs IH]; intros k; cbn [numbered]; [by intros ?%elem_of_nil|].
  intros [->|Hx]%elem_of_cons; [by left|right; by eapply IH].
Qed.

Lemma numbered_distinct hash refs : NoDup refs -> forall k, StronglySorted (fun a b => same_reference b a = false) (numbered hash k refs).
Proof.
  induction 1 as [|r refs Hr _ IH]; intros k; [constructor|]. cbn [numbered]. constructor; [apply IH|]. apply Forall_forall. intros x Hx.
  unfold same_reference. cbn [rf_reference]. apply andb_false_iff. right. apply String.eqb_neq. intros Heq. apply Hr. rewrite <- Heq. by eapply numbered_in.
Qed.

Lemma filter_none {A} (P : A -> Prop) `{forall x, Decision (P x)} l : Forall (fun x => ~ P x) l -> filter P l = [].
Proof. induction 1 as [|x l Hx _ IH]; [done|]. by rewrite filter_cons_False. Qed.

Lemma filter_every {A} (P : A -> Prop) `{forall x, Decision (P x)} l : Forall P l -> filter P l = l.
Proof. induction 1 as [|x l Hx _ IH]; [done|]. rewrite filter_cons_True by done. by rewrite IH. Qed.

Lemma synced_references db hash refs :
  Forall (fun r => rf_referrer r <> hash) (path_references db) -> Forall (fun r => r <> ""%string) refs -> NoDup refs ->
  references_for_hash (sync_reference_index db hash refs) hash = refs.
Proof.
  intros Hfree Hne Hnd. unfold sync_reference_index, references_for_hash. cbn [path_references with_references].
  rewrite reference_rows_numbered by done. rewrite insert_new_fresh; [| |by apply numbered_distinct].
  - rewrite filter_app, filter_none by done. cbn [app]. rewrite filter_every by apply numbered_referrer.
    rewrite sort_numbered. apply numbered_references.
  - eapply Forall_impl; [apply numbered_referrer|]. intros r <-. eapply Forall_impl; [exact Hfree|]. intros x Hx. cbn beta.
    unfold same_reference. by rewrite (proj2 (String.eqb_neq _ _)) by congruence.
Qed.

(** The rows of signatures: a row that is there stays, and takes the signature it lacks. *)
Lemma find_app {A} (p : A -> bool) l l' :
  List.find p (l ++ l')%list = match List.find p l with Some x => Some x | None => List.find p l' end.
Proof. induction l as [|a l IH]; [done|]. cbn [app List.find]. by destruct (p a). Qed.

Lemma find_insert_kept {A} (same : A -> A -> bool) p x new : forall rows,
  List.find p rows = Some x -> List.find p (insert_new same rows new) = Some x.
Proof.
  induction new as [|r new IH]; intros rows Hf; [done|]. unfold insert_new. cbn [foldl]. apply IH.
  destruct (existsb (same r) rows); [done|]. by rewrite find_app, Hf.
Qed.

Lemma find_placeholder db id cache new :
  find_signature db id cache = None -> placeholder id cache ∈ new -> Forall (fun s => is_pending s = true) new ->
  find_signature (with_signatures db (insert_new same_signature (signatures db) new)) id cache = Some (placeholder id cache).
Proof.
  unfold find_signature. cbn [signatures with_signatures]. generalize (signatures db). clear db.
  induction new as [|r new IH]; intros rows Hf Hin Hall; [by apply elem_of_nil in Hin|]. apply Forall_cons in Hall as [Hr Hall].
  unfold insert_new. cbn [foldl]. fold (insert_new same_signature (if existsb (same_signature r) rows then rows else (rows ++ [r])%list) new).
  destruct (((sg_cached_path r =? id) && (sg_cache r =? cache))%bool) eqn:Er.
  - apply andb_true_iff in Er as [Hp%Z.eqb_eq Hc%Z.eqb_eq].
    assert (r = placeholder id cache) as -> by (destruct r as [? ? [?|]]; [done|]; cbn in *; by subst).
    rewrite existsb_none.
    + apply find_insert_kept. rewrite find_app, Hf. cbn [List.find placeholder sg_cached_path sg_cache]. by rewrite !Z.eqb_refl.
    + apply Forall_forall. intros x Hx%list_elem_of_In. pose proof (List.find_none _ _ Hf x Hx) as Hn. cbn beta in Hn.
      unfold same_signature. cbn [placeholder sg_cached_path sg_cache]. by rewrite (Z.eqb_sym id), (Z.eqb_sym cache).
  - apply IH; [|apply elem_of_cons in Hin as [<-|Hin]; [|done]|done].
    + destruct (existsb _ rows); [done|]. rewrite find_app, Hf. cbn [List.find]. by rewrite Er.
    + cbn [placeholder sg_cached_path sg_cache] in Er. by rewrite !Z.eqb_refl in Er.
Qed.

Lemma find_map_kept {A} (p : A -> bool) (f : A -> A) l : (forall x, p (f x) = p x) -> List.find p (map f l) = f <$> List.find p l.
Proof. intros Hp. induction l as [|a l IH]; [done|]. cbn [map List.find]. rewrite Hp. by destruct (p a). Qed.

Lemma find_filled db pending signature_of id cache :
  find_signature (fill_signatures db pending signature_of) id cache =
  (fun s => if pending s then match signature_of s with
     | Some sig => {| sg_cached_path := sg_cached_path s; sg_cache := sg_cache s; sg_signature := Some sig |} | None => s end else s)
  <$> find_signature db id cache.
Proof.
  unfold find_signature, fill_signatures. cbn [signatures with_signatures]. apply find_map_kept.
  intros s. by destruct (pending s), (signature_of s).
Qed.

Section upload_facts.
Context `{DG : Digests} `{SG : Signing}.

Lemma nix32_hash_free hash c : is_nix32_hash hash = true -> contains_char c NIX32_CHARS = false -> contains_char c hash = false.
Proof.
  unfold is_nix32_hash. intros [_ Hall]%andb_true_iff Hc. induction hash as [|a hash IH]; [done|]. cbn [all_chars contains_char] in *.
  apply andb_true_iff in Hall as [Ha Hall]. rewrite IH by done. rewrite orb_false_r. destruct (Ascii.eqb_spec a c) as [->|]; [congruence|done].
Qed.

Lemma nix32_visible s : all_chars (fun c => contains_char c NIX32_CHARS) s = true -> visible s.
Proof.
  induction s as [|a s IH]; [done|]. cbn [all_chars]. intros [Ha Hs]%andb_true_iff. apply visible_cons. split; [|by apply IH].
  clear Hs IH. destruct a as [[] [] [] [] [] [] [] []]; vm_compute in Ha |- *; congruence.
Qed.

Lemma canonical_visible h algo bytes : names h algo bytes ->
  visible (normalize_nar_hash h) /\ strip_hash_algo (normalize_nar_hash h) = nix32_encode bytes /\ visible (nix32_encode bytes).
Proof.
  intros Hn. rewrite (normalize_names _ _ _ Hn). apply names_ok in Hn as [_ Ha]. unfold canonical.
  assert (Hv : visible (nix32_encode bytes)) by (apply nix32_visible, digits_below_valid).
  destruct (algo_cases _ Ha) as [-> | ->]; split_and!; try done; by repeat (apply visible_app; split).
Qed.

Lemma store_path_parses hash name : is_nix32_hash hash = true -> name <> ""%string ->
  let sp := StorePath_full (from_parts hash name) in
  parse_store_path sp = Ok (from_parts hash name) /\ hash_part sp = hash.
Proof.
  intros Hh Hn sp. assert (Hd : contains_char "-" hash = false) by by apply nix32_hash_free.
  assert (Hs : contains_char "/" hash = false) by by apply nix32_hash_free.
  assert (Hne : hash <> ""%string) by (intros ->; done). split.
  - unfold parse_store_path. rewrite (parse_with_base sp (from_parts hash name)).
    + cbn [sp_hash from_parts]. by rewrite Hh.
    + by split_and!.
    + unfold sp, StorePath_full. rewrite strip_prefix_app. change ("/" +:+ ?x)%string with (String "/" x).
      cbn [trim_start_matches Ascii.eqb Bool.eqb sp_hash sp_name_ from_parts]. by apply trim_start_app.
  - unfold hash_part, sp, StorePath_full. cbn [sp_hash sp_name_ from_parts].
    assert (Hp : strip_prefix "/nix/store/" (STORE_DIR +:+ "/" +:+ hash +:+ "-" +:+ name)%string = Some (hash +:+ "-" +:+ name)%string).
    { change (STORE_DIR +:+ "/" +:+ ?x)%string with ("/nix/store/" +:+ x)%string. apply strip_prefix_app. }
    assert (Hc : split_char "-" (hash +:+ "-" +:+ name) = hash :: split_char "-" name) by by apply (split_char_app "-" hash name).
    rewrite Hp. change (default "" (head (split_char "-" (hash +:+ "-" +:+ name))) = hash)%string. by rewrite Hc.
Qed.

(** The path is new to the tables, a cache that has its keys serves the organization, not
    every project that built it is private, and what the worker says of it is well formed. *)
Record first_upload (db : CacheDb) (id org : Z) (cache : CacheRow) (hash name : string) (r : NarUploadRecord) : Prop := {
  fu_hash : is_nix32_hash hash = true;
  fu_name : name <> ""%string /\ visible name;
  fu_path : find_path db hash = None;
  fu_unreferenced : Forall (fun x => rf_referrer x <> hash) (path_references db);
  fu_id : find_signature db id (ca_id cache) = None;
  fu_subscribed : (org, ca_id cache) ∈ subscriptions db;
  fu_cache : find_cache db (ca_id cache) = Some cache;
  fu_private_key : ca_private_key cache <> ""%string;
  fu_public : producing_projects_all_private db hash = false;
  fu_outputs : Forall (fun o => ou_hash o = hash -> ou_package o = name) (outputs db);
  fu_file_hash : exists algo digest, names (up_file_hash r) algo digest;
  fu_nar_hash : exists algo digest, names (up_nar_hash r) algo digest;
  fu_references : Forall (fun x => plain_ref x /\ visible (store_path_name x) /\ store_path_name x <> ""%string) (up_references r);
  fu_distinct : NoDup (up_references r);
  fu_deriver : match up_deriver r with Some x => visible (store_path_name x) | None => True end;
  fu_ca : match up_ca r with Some x => visible x | None => True end;
}.

(** The record the first upload leaves, before anything is signed. *)
Definition recorded (db : CacheDb) (id org : Z) (hash name : string) (input : IngestInput) : CacheDb :=
  let db := with_paths db (cached_paths db ++ [new_path id hash name input]) in
  let db := match in_references input with [] => db | references => sync_reference_index db hash references end in
  with_signatures db (insert_new same_signature (signatures db) (map (placeholder id) (target_caches db (OrgCaches org)))).

Lemma recorded_same db id org hash name input :
  let db' := recorded db id org hash name input in
  producers db' = producers db /\ caches db' = caches db /\ outputs db' = outputs db /\
  cached_paths db' = (cached_paths db ++ [new_path id hash name input])%list.
Proof. unfold recorded. by destruct (in_references input). Qed.

Lemma recorded_references db id org hash name input :
  Forall (fun x => rf_referrer x <> hash) (path_references db) -> Forall (fun x => x <> ""%string) (in_references input) ->
  NoDup (in_references input) -> references_for_hash (recorded db id org hash name input) hash = in_references input.
Proof.
  intros Hf Hne Hnd. unfold recorded. destruct (in_references input) as [|x refs] eqn:Er.
  - unfold references_for_hash. cbn [path_references with_signatures with_paths]. by rewrite filter_none.
  - by apply (synced_references (with_paths db _)).
Qed.

Lemma recorded_signature db id org hash name input cache :
  find_signature db id cache = None -> (org, cache) ∈ subscriptions db ->
  find_signature (recorded db id org hash name input) id cache = Some (placeholder id cache).
Proof.
  intros Hf Hin. unfold recorded. apply find_placeholder.
  - by destruct (in_references input).
  - apply list_elem_of_In, in_map, list_elem_of_In. cbn [target_caches]. apply list_elem_of_In.
    replace cache with (snd (org, cache)) by done. apply in_map, list_elem_of_In, list_elem_of_filter. split; [done|]. by destruct (in_references input).
  - apply Forall_map, Forall_forall. done.
Qed.

Definition upload_input (store_path : string) (r : NarUploadRecord) : IngestInput := {|
  in_store_path := store_path; in_file_hash := up_file_hash r; in_file_size := up_file_size r;
  in_nar_size := up_nar_size r; in_nar_hash := up_nar_hash r; in_references := up_references r;
  in_deriver := up_deriver r; in_ca := up_ca r |}.

(** What the cache says of the path afterwards. *)
Definition served (d : Deployment) (cache : CacheRow) (sk : SecretKey) (store_path : string) (r : NarUploadRecord) : NixPathInfo :=
  let nar_hash := normalize_nar_hash (up_nar_hash r) in
  {| np_store_path := store_path; np_url := nar_url (normalize_nar_hash (up_file_hash r)); np_compression := "zstd";
     np_file_hash := normalize_nar_hash (up_file_hash r); np_file_size := u32 (up_file_size r);
     np_nar_hash := nar_hash; np_nar_size := u64 (up_nar_size r); np_references := up_references r;
     np_sig := full_signature_token (sk_sign sk (fingerprint store_path nar_hash (pretty (u64 (up_nar_size r))) (up_references r)))
                 (de_serve_url d) (ca_name cache);
     np_deriver := up_deriver r; np_ca := up_ca r |}.

Lemma served_ok d cache sk hash name db id org r : first_upload db id org cache hash name r ->
  visible (de_serve_url d) -> visible (ca_name cache) ->
  info_ok (served d cache sk (StorePath_full (from_parts hash name)) r).
Proof.
  intros [] Hurl Hcache. destruct fu_file_hash0 as (fa & fd & Hf), fu_nar_hash0 as (na & nd & Hn), fu_name0 as [_ Hname].
  destruct (canonical_visible _ _ _ Hf) as (Vf & Sf & Ef). destruct (canonical_visible _ _ _ Hn) as (Vn & _).
  assert (Hh : visible hash) by (unfold is_nix32_hash in fu_hash0; apply andb_true_iff in fu_hash0 as [_ H0]; by apply nix32_visible).
  constructor; cbn [served np_store_path np_url np_compression np_file_hash np_file_size np_nar_hash np_nar_size np_references np_sig np_deriver np_ca];
    try done.
  - unfold StorePath_full. cbn [sp_hash sp_name_ from_parts]. by repeat (apply visible_app; split).
  - unfold nar_url. rewrite Sf. by repeat (apply visible_app; split).
  - unfold u32. apply Z.mod_pos_bound. lia.
  - unfold u64. apply Z.mod_pos_bound. lia.
  - eapply Forall_impl; [exact fu_references0|]. intros x (_ & Hv & Hx). done.
  - unfold full_signature_token, key_name. destruct (host_ok _ Hurl) as [Hv _]. repeat (apply visible_app; split); try done. apply base64_text.
Qed.

Lemma sign_keeps db d rq :
  let db' := sign_cached_path db d rq in
  cached_paths db' = cached_paths db /\ path_references db' = path_references db /\ outputs db' = outputs db.
Proof. unfold sign_cached_path. by destruct (String.eqb _ _ || _). Qed.

Lemma first_upload_found db id org cache hash name r d sk :
  first_upload db id org cache hash name r -> keys_of (de_secret_file d) cache sk ->
  exists db', mark_nar_stored db d id (Some org) (StorePath_full (from_parts hash name)) r = Ok db' /\
    find_path db' hash = Some (new_path id hash name (upload_input (StorePath_full (from_parts hash name)) r)) /\
    references_for_hash db' hash = up_references r /\
    outputs db' = mark_outputs id hash (outputs db) /\
    row_signature db' id (ca_id cache) = Ok (sk_sign sk (fingerprint (StorePath_full (from_parts hash name))
      (normalize_nar_hash (up_nar_hash r)) (pretty (u64 (up_nar_size r))) (up_references r))).
Proof.
  intros [] Hkeys. destruct fu_name0 as [Hne _]. destruct (store_path_parses hash name fu_hash0 Hne) as [Hparse Hpart].
  set (sp := StorePath_full (from_parts hash name)) in *. set (input := upload_input sp r).
  assert (Hhne : String.eqb hash "" = false) by (apply String.eqb_neq; intros ->; done).
  destruct (recorded_same db id org hash name input) as (Hprod & Hcaches & Hout & Hpaths). set (db1 := recorded db id org hash name input) in *.
  eexists. split_and!.
  - unfold mark_nar_stored. rewrite Hpart, Hhne. unfold ingest_metadata_only. cbn [in_store_path]. rewrite Hparse. cbn [result_bind sp_hash sp_name_ from_parts].
    unfold upsert_and_sign. rewrite fu_path0. unfold record_upload, upsert_path. rewrite fu_path0. cbn [io_cached_path fst snd].
    fold input. change (with_signatures _ _) with db1. reflexivity.
  - unfold find_path in *. rewrite (proj1 (sign_keeps _ _ _)). cbn [cached_paths with_outputs]. rewrite Hpaths, find_app, fu_path0.
    cbn [List.find new_path kp_hash]. by rewrite String.eqb_refl.
  - transitivity (references_for_hash db1 hash).
    + unfold references_for_hash. by rewrite (proj1 (proj2 (sign_keeps _ _ _))).
    + apply recorded_references; [done| |done]. eapply Forall_impl; [exact fu_references0|]. intros x (_ & _ & Hx) ->. by apply Hx.
  - rewrite (proj2 (proj2 (sign_keeps _ _ _))). cbn [outputs with_outputs]. by rewrite Hout.
  - unfold row_signature, sign_cached_path. cbn [rq_store_path rq_cached_path rq_nar_hash rq_nar_size rq_references]. rewrite Hpart, Hhne. cbn [orb].
    assert (Hp : producing_projects_all_private (with_outputs db1 (mark_outputs id hash (outputs db1))) hash = false)
      by (unfold producing_projects_all_private in *; cbn [producers with_outputs]; by rewrite Hprod).
    rewrite Hp, find_filled.
    assert (Hs : find_signature (with_outputs db1 (mark_outputs id hash (outputs db1))) id (ca_id cache) = Some (placeholder id (ca_id cache)))
      by by apply recorded_signature.
    rewrite Hs. cbn [fmap option_fmap option_map placeholder sg_cached_path sg_cache is_pending sg_signature andb]. rewrite Z.eqb_refl.
    unfold build_signer, find_cache in *. cbn [caches with_outputs]. rewrite Hcaches, fu_cache0. cbn [mbind option_bind].
    rewrite (proj2 (String.eqb_neq _ _)) by done. rewrite (signer_of _ _ sk _ Hkeys). reflexivity.
Qed.

(** What the cache says of a recorded path, whichever table it finds it in. *)
Lemma get_nar_spec db d cache hash name row fh fs nh ns sig :
  find_path db hash = Some row -> kp_hash row = hash -> kp_package row = name ->
  kp_file_hash row = Some (normalize_nar_hash fh) -> kp_file_size row = Some fs ->
  kp_nar_hash row = Some (normalize_nar_hash nh) -> kp_nar_size row = Some ns ->
  Forall (fun o => ou_hash o = hash -> ou_package o = name) (outputs db) ->
  row_signature db (kp_id row) (ca_id cache) = Ok sig ->
  get_nar_by_hash db d cache hash = Ok {|
    np_store_path := StorePath_full (from_parts hash name); np_url := nar_url (normalize_nar_hash fh); np_compression := "zstd";
    np_file_hash := normalize_nar_hash fh; np_file_size := u32 fs; np_nar_hash := normalize_nar_hash nh; np_nar_size := u64 ns;
    np_references := references_for_hash db hash; np_sig := full_signature_token sig (de_serve_url d) (ca_name cache);
    np_deriver := kp_deriver row; np_ca := kp_ca row |}.
Proof.
  intros Hf Hh Hp Hfh Hfs Hnh Hns Hout Hsig. unfold get_nar_by_hash.
  destruct (List.find _ (outputs db)) as [o|] eqn:Eo.
  - apply List.find_some in Eo as [Hin [_ Ho%String.eqb_eq]%andb_true_iff]. rewrite Forall_forall in Hout.
    specialize (Hout o (proj2 (list_elem_of_In _ _) Hin) Ho). rewrite Hf. cbn [or_not_found Permissions.ok_or result_bind]. rewrite Hsig, Hfh, Hfs, Hnh, Hns.
    cbn [or_not_found Permissions.ok_or result_bind]. unfold path_info. rewrite Hnh, Hns. cbn [or_not_found Permissions.ok_or result_bind].
    rewrite !normalize_idempotent, Hh. unfold get_path_from_derivation_output. by rewrite Ho, Hout.
  - unfold get_nar_by_cached_path. rewrite Hf. cbn [or_not_found Permissions.ok_or result_bind]. unfold is_fully_cached. rewrite Hfh. cbn [negb].
    rewrite Hsig, Hfs. cbn [or_err result_bind]. unfold path_info. rewrite Hnh, Hns. cbn [or_not_found Permissions.ok_or result_bind].
    rewrite !normalize_idempotent, Hh. unfold kp_store_path. by rewrite Hh, Hp.
Qed.

Lemma marked_packages id hash name l : Forall (fun o => ou_hash o = hash -> ou_package o = name) l ->
  Forall (fun o => ou_hash o = hash -> ou_package o = name) (mark_outputs id hash l).
Proof. intros Hl. apply Forall_map. eapply Forall_impl; [exact Hl|]. intros o Ho. cbn beta. by destruct (String.eqb _ _). Qed.


(** ** Uploading again, and the sweep *)

Lemma insert_new_present {A} (same : A -> A -> bool) rows new : Forall (fun r => existsb (same r) rows = true) new -> insert_new same rows new = rows.
Proof. induction 1 as [|r new Hr _ IH]; [done|]. unfold insert_new. cbn [foldl]. by rewrite Hr. Qed.

Lemma resynced_references db hash refs : Forall (fun x => x <> ""%string) refs ->
  (forall x, x ∈ refs -> x ∈ references_for_hash db hash) -> references_for_hash (sync_reference_index db hash refs) hash = references_for_hash db hash.
Proof.
  intros Hne Hin. unfold sync_reference_index. rewrite reference_rows_numbered, insert_new_present; [done| |done].
  apply Forall_forall. intros r Hr. apply existsb_exists. pose proof (numbered_in _ _ _ _ Hr) as Hx. pose proof (numbered_referrer hash refs 1) as Hh.
  rewrite Forall_forall in Hh. specialize (Hh r Hr). apply Hin in Hx. unfold references_for_hash in Hx. apply list_elem_of_In, in_map_iff in Hx as (y & Hy & Hx).
  apply list_elem_of_In, sort_by_elem, list_elem_of_filter in Hx as [Hyh Hx]. exists y. split; [by apply list_elem_of_In|].
  unfold same_reference. by rewrite Hh, Hyh, Hy, !String.eqb_refl.
Qed.

Lemma mark_known db d id org hash name r row :
  is_nix32_hash hash = true -> name <> ""%string -> find_path db hash = Some row ->
  Forall (fun x => x <> ""%string) (up_references r) -> (forall x, x ∈ up_references r -> x ∈ references_for_hash db hash) ->
  exists db', mark_nar_stored db d id (Some org) (StorePath_full (from_parts hash name)) r = Ok db' /\
    find_path db' hash = Some (refreshed (upload_input (StorePath_full (from_parts hash name)) r) row) /\
    references_for_hash db' hash = references_for_hash db hash /\
    outputs db' = mark_outputs (kp_id row) hash (outputs db) /\
    (forall cache sig, row_signature db (kp_id row) cache = Ok sig -> row_signature db' (kp_id row) cache = Ok sig).
Proof.
  intros Hh Hn Hrow Hne Hin. destruct (store_path_parses hash name Hh Hn) as [Hparse Hpart]. set (sp := StorePath_full (from_parts hash name)) in *.
  assert (Hhne : String.eqb hash "" = false) by (apply String.eqb_neq; intros ->; done).
  unfold mark_nar_stored. rewrite Hpart, Hhne. unfold ingest_metadata_only. cbn [in_store_path]. rewrite Hparse. cbn [result_bind sp_hash sp_name_ from_parts].
  fold (upload_input sp r). set (input := upload_input sp r). unfold upsert_and_sign. rewrite Hrow. unfold record_upload, upsert_path. cbn [fst snd io_cached_path].
  set (db1 := with_paths db _). set (db2 := match in_references input with [] => db1 | x :: l => sync_reference_index db1 hash (x :: l) end).
  assert (H2 : cached_paths db2 = cached_paths db1 /\ outputs db2 = outputs db /\ signatures db2 = signatures db /\
    references_for_hash db2 hash = references_for_hash db hash).
  { unfold db2. destruct (in_references input) eqn:Er; [done|]. split_and!; [done..|]. rewrite <- Er. by apply (resynced_references db1). }
  destruct H2 as (Hp2 & Ho2 & Hs2 & Hr2).
  eexists. split_and!; [reflexivity|..].
  - unfold find_path in *. rewrite (proj1 (sign_keeps _ _ _)). cbn [cached_paths with_outputs with_signatures]. rewrite Hp2. unfold db1. cbn [cached_paths with_paths].
    rewrite find_map_kept by (intros x; by destruct (kp_id x =? kp_id row)). rewrite Hrow. cbn [fmap option_fmap option_map]. by rewrite Z.eqb_refl.
  - unfold references_for_hash in *. rewrite (proj1 (proj2 (sign_keeps _ _ _))). exact Hr2.
  - rewrite (proj2 (proj2 (sign_keeps _ _ _))). cbn [outputs with_outputs with_signatures]. by rewrite Ho2.
  - intros cache sig Hsig. unfold row_signature in *. destruct (find_signature db (kp_id row) cache) as [x|] eqn:Ex; [|done].
    cbn [or_not_found Permissions.ok_or result_bind] in Hsig. destruct x as [? ? [sg|]]; [|done]. cbn [sg_signature Permissions.ok_or or_not_found] in Hsig. injection Hsig as ->.
    assert (Hx : forall l, find_signature (with_outputs (with_signatures db2 (insert_new same_signature (signatures db2) l)) (mark_outputs (kp_id row) hash (outputs (with_signatures db2 (insert_new same_signature (signatures db2) l))))) (kp_id row) cache
      = Some {| sg_cached_path := sg_cached_path; sg_cache := sg_cache; sg_signature := Some sig |}).
    { intros l. unfold find_signature in *. cbn [signatures with_outputs with_signatures]. apply find_insert_kept. by rewrite Hs2. }
    unfold sign_cached_path. destruct (String.eqb _ _ || _); [by rewrite Hx|]. rewrite find_filled, Hx. cbn [fmap option_fmap option_map is_pending CacheRows.sg_signature].
    by rewrite andb_false_r.
Qed.

(** The tables a narinfo is made from. *)
Definition same_rows (a b : CacheDb) : Prop :=
  cached_paths a = cached_paths b /\ path_references a = path_references b /\ outputs a = outputs b /\ signatures a = signatures b.

#[local] Instance same_rows_preorder : PreOrder same_rows.
Proof. split; [done|]. intros a b c (? & ? & ? & ?) (? & ? & ? & ?). split_and!; congruence. Qed.

Lemma frontier_rows fuel : forall db cache frontier, same_rows (record_frontier fuel db cache frontier) db.
Proof.
  induction fuel as [|fuel IH]; intros db cache frontier; [done|]. cbn [record_frontier]. destruct frontier as [|x frontier]; [done|].
  destruct (insert_layer db cache (x :: frontier)) as [db' inserted] eqn:El. destruct inserted as [|y inserted]; [done|].
  etransitivity; [apply IH|]. unfold insert_layer in El. by simplify_eq.
Qed.

Lemma completed_rows seed full caches : forall db, same_rows (foldl (fun db cache => record_newly_completed_derivations db cache seed full) db caches) db.
Proof.
  induction caches as [|c caches IH]; intros db; [done|]. cbn [foldl]. etransitivity; [apply IH|].
  unfold record_newly_completed_derivations. destruct full; [done|apply frontier_rows].
Qed.

Lemma sweep_keeps db d last now :
  let db' := fst (sign_missing_signatures db d last now) in
  cached_paths db' = cached_paths db /\ path_references db' = path_references db /\ outputs db' = outputs db /\
  (forall path cache sig, row_signature db path cache = Ok sig -> row_signature db' path cache = Ok sig).
Proof.
  cbn zeta. unfold sign_missing_signatures. destruct (sweep_batch db) as [|x batch]; [done|].
  destruct (full_backfill_due last now) as [full last']. cbn [fst]. edestruct completed_rows as (Hp & Hr & Ho & Hs). rewrite Hp, Hr, Ho.
  split_and!; [done..|]. intros path cache sig Hsig. unfold row_signature, find_signature in *. rewrite Hs. clear Hp Hr Ho Hs.
  fold (find_signature (signed_pass db d) path cache). fold (find_signature db path cache) in Hsig. unfold signed_pass. rewrite find_filled.
  destruct (find_signature db path cache) as [[? ? [sg|]]|]; [|done..]. cbn [fmap option_fmap option_map is_pending sg_signature andb]. exact Hsig.
Qed.

(** C35. A path that was uploaded and signed is uploaded again with other contents, as happens
    when a build that is not reproducible runs twice: its row then says the new contents but
    keeps the signature of the old, and no sweep replaces it. Until the path is deleted from
    the cache, every narinfo served for it fails its verification. *)
Theorem reupload_breaks_signature db d id id' org org' cache hash name r r' sk :
  first_upload db id org cache hash name r -> keys_of (de_secret_file d) cache sk ->
  visible (de_serve_url d) -> visible (ca_name cache) -> contains_char ":" (ca_name cache) = false ->
  let sp := StorePath_full (from_parts hash name) in
  let message := fun r => fingerprint sp (normalize_nar_hash (up_nar_hash r)) (pretty (u64 (up_nar_size r))) (up_references r) in
  up_references r' = up_references r -> up_deriver r' = up_deriver r -> up_ca r' = up_ca r ->
  (exists algo digest, names (up_file_hash r') algo digest) -> (exists algo digest, names (up_nar_hash r') algo digest) ->
  pk_verify (sk_public sk) (message r') (sk_sign sk (message r)) = false ->
  exists db1 db2 pk, mark_nar_stored db d id (Some org) sp r = Ok db1 /\ mark_nar_stored db1 d id' (Some org') sp r' = Ok db2 /\
    format_cache_public_key (de_secret_file d) cache (de_serve_url d) = Ok pk /\
    forall last now, exists i, get_nar_by_hash (fst (sign_missing_signatures db2 d last now)) d cache hash = Ok i /\
      np_nar_hash i = normalize_nar_hash (up_nar_hash r') /\ verify_narinfo_signature pk (to_nix_string i) = false.
Proof.
  intros Hfirst Hkeys Hurl Hname Hcolon sp message Hrefs Hder Hca Hfh Hnh Hbad.
  destruct (first_upload_found _ _ _ _ _ _ _ _ _ Hfirst Hkeys) as (db1 & Hm1 & Hp1 & Hr1 & Ho1 & Hs1). fold sp in Hm1, Hp1, Hs1. fold (message r) in Hs1.
  assert (Hfirst' : first_upload db id org cache hash name r') by (destruct Hfirst; constructor; rewrite ?Hrefs, ?Hder, ?Hca; done).
  destruct (mark_known db1 d id' org' hash name r' _ (fu_hash _ _ _ _ _ _ _ Hfirst) (proj1 (fu_name _ _ _ _ _ _ _ Hfirst)) Hp1)
    as (db2 & Hm2 & Hp2 & Hr2 & Ho2 & Hs2).
  { eapply Forall_impl; [apply (fu_references _ _ _ _ _ _ _ Hfirst')|]. intros x (_ & _ & Hx) ->. by apply Hx. }
  { by rewrite Hr1, Hrefs. }
  fold sp in Hm2, Hp2. cbn [kp_id new_path] in Ho2, Hs2. specialize (Hs2 _ _ Hs1).
  set (i := served d cache sk sp r').
  assert (Hok : info_ok (Build_NixPathInfo (np_store_path i) (np_url i) (np_compression i) (np_file_hash i) (np_file_size i) (np_nar_hash i)
    (np_nar_size i) (np_references i) (full_signature_token (sk_sign sk (message r)) (de_serve_url d) (ca_name cache)) (np_deriver i) (np_ca i))).
  { pose proof (served_ok d cache sk hash name _ _ _ _ Hfirst' Hurl Hname) as H1. pose proof (served_ok d cache sk hash name _ _ _ _ Hfirst Hurl Hname) as H2.
    destruct H1, H2. by constructor. }
  destruct (served_verdict (de_secret_file d) (de_serve_url d) cache sk _ (message r) Hkeys Hurl Hname Hcolon Hok) as (pk & Hpk & Hv); [|done|].
  { eapply Forall_impl; [apply (fu_references _ _ _ _ _ _ _ Hfirst')|]. by intros x (Hx & _). }
  exists db1, db2, pk. split_and!; [done..|]. intros last now. destruct (sweep_keeps db2 d last now) as (Hp3 & Hr3 & Ho3 & Hs3).
  eexists. split_and!.
  - etransitivity; [eapply get_nar_spec; [unfold find_path in *; rewrite Hp3; exact Hp2|reflexivity..| |by apply Hs3]|].
    + rewrite Ho3, Ho2, Ho1. by apply marked_packages, marked_packages, Hfirst.
    + reflexivity.
  - reflexivity.
  - unfold references_for_hash in *. rewrite Hr3, Hr2, Hr1. rewrite <- Hrefs. cbn [kp_deriver kp_ca refreshed new_path upload_input in_deriver in_ca].
    assert (Hd : forall A (o o' : option A), o = o' -> or_keep o o' = o) by (by intros A [?|] ? <-). rewrite !Hd by congruence.
    exact (eq_trans Hv Hbad).
Qed.

End upload_facts.

(** ** Whose objects a cache serves *)

Section reach.
Context `{Chrono} `{Crypto} `{DG : Digests} `{SG : Signing} `{UP : Upstreams}.

Lemma context_keeps w cfg v name : we_cache (fst (cache_context w cfg v name)) = we_cache w.
Proof.
  unfold cache_context. destruct (get_any_cache_by_name _ _) as [c|]; [|done]. destruct (settings_of w c) as [st|]; [|done].
  destruct (negb _); [done|]. by destruct (require_cache_auth _ _ _ _ _).
Qed.

(** A cache that may be read serves the NAR of every stored path by its store hash or by
    the hash of its file, also when the path is in other caches only: the same visitor who is
    refused its narinfo gets its contents, although the row of a signature is meant to be the
    gate. *)
Theorem nar_of_any_cache w cfg v name hash row fh digest path bytes w' cache s :
  cache_context w cfg v name = (w', Ok (cache, s)) ->
  find_path (c_db (we_cache w)) hash = Some row -> kp_file_hash row = Some fh ->
  find_signature (c_db (we_cache w)) (kp_id row) (Z.of_N (cch_id cache)) = None ->
  c_objects (we_cache w) !! object_path (de_prefix (wc_deployment cfg)) hash = Some bytes ->
  get_hash_from_url path = Some digest -> nar_path_ok path = true ->
  resolve_effective_hash_db (c_db (we_cache w)) digest = hash ->
  get_nar_by_hash (c_db (we_cache w)) (wc_deployment cfg) (cache_row cache s) hash = Err (not_found "Signature") /\
  nar w cfg v name path = (w', Ok (plain (Nar bytes))).
Proof.
  intros Hctx Hrow Hfh Hsig Hobj Hurl Hok Hres. split.
  - assert (Hs : row_signature (c_db (we_cache w)) (kp_id row) (ca_id (cache_row cache s)) = Err (not_found "Signature"))
      by (unfold row_signature; cbn [ca_id cache_row]; by rewrite Hsig).
    unfold get_nar_by_hash. destruct (List.find _ _) as [o|].
    + rewrite Hrow. cbn [or_not_found Permissions.ok_or result_bind]. by rewrite Hs.
    + unfold get_nar_by_cached_path. rewrite Hrow. cbn [or_not_found Permissions.ok_or result_bind]. unfold is_fully_cached. rewrite Hfh. cbn [negb]. by rewrite Hs.
  - unfold nar. rewrite Hurl, Hok, Hctx. cbn [negb result_bind]. unfold fetch_nar_stream.
    assert (Hw : we_cache w' = we_cache w) by (rewrite <- (context_keeps w cfg v name); by rewrite Hctx).
    rewrite Hw, Hres, Hobj. reflexivity.
Qed.

Lemma upserted_path db id hash package input targets row : find_path db hash = Some row ->
  find_path (fst (upsert_and_sign db id hash package input targets)) hash = Some (refreshed input row).
Proof.
  intros Hrow. unfold upsert_and_sign. rewrite Hrow. unfold record_upload, upsert_path. cbn [fst]. unfold find_path in *.
  assert (Hp : forall db' l, cached_paths (with_signatures db' l) = cached_paths db') by done. rewrite Hp.
  destruct (in_references input); cbn [cached_paths with_references sync_reference_index with_paths];
    rewrite find_map_kept by (intros x; by destruct (kp_id x =? kp_id row)); rewrite Hrow; cbn [fmap option_fmap option_map]; by rewrite Z.eqb_refl.
Qed.

(** C36. Who may write to one cache decides the contents of any stored path for all of them:
    the NAR it uploads only has to have the hash and size it claims for its file, so for a
    path that another cache already serves, the stored object is replaced by the new bytes and
    the row by the new description. *)
Theorem upload_crosses_caches w cfg user api_key name store_hash n id cache hash package row bytes :
  load_cache (we_access w) (CallerUser user) api_key name write_store = Ok cache ->
  require_safe_hash store_hash = Ok tt ->
  as_i64 (staged_len (we_uploads w) (chunk_key cache store_hash)) = na_file_size n ->
  read_all (we_uploads w) (chunk_key cache store_hash) None = Some bytes ->
  verify_nar_bytes bytes (na_file_hash n) (u64 (na_file_size n)) = Ok tt ->
  parse_store_path (na_store_path n) = Ok (from_parts hash package) ->
  find_path (c_db (we_cache w)) hash = Some row -> kp_file_hash row <> Some (normalize_nar_hash (na_file_hash n)) ->
  let '(w', r) := nar_finalize w cfg user api_key name store_hash n id {| fault_lookup := false; fault_head := false; fault_put := false |} in
  r = Ok (201, {| io_cached_path := kp_id row; io_created := false |}) /\
  c_objects (we_cache w') !! object_path (de_prefix (wc_deployment cfg)) hash = Some bytes /\
  find_path (c_db (we_cache w')) hash = Some (refreshed (ingest_input n) row).
Proof.
  intros Hload Hsafe Hsize Hread Hverify Hparse Hrow Hdiff. unfold nar_finalize. rewrite Hload, Hsafe, Hsize, Z.eqb_refl. cbn [negb].
  rewrite Hread, Hverify. unfold ingest_staged. rewrite Hread. unfold ingest_nar. change (in_store_path (ingest_input n)) with (na_store_path n). rewrite Hparse.
  cbn [result_bind sp_hash sp_name_ from_parts]. unfold put_nar_idempotent, nar_write_needed. rewrite Hrow. cbn [mbind option_bind fault_lookup fault_head fault_put negb andb].
  change (in_file_hash (ingest_input n)) with (na_file_hash n).
  assert (Hm : match kp_file_hash row with Some fh => String.eqb fh (normalize_nar_hash (na_file_hash n)) | None => false end = false).
  { destruct (kp_file_hash row) as [fh|]; [|done]. apply String.eqb_neq. congruence. }
  rewrite Hm. cbn [result_bind negb fst]. pose proof (upserted_path _ id _ package (ingest_input n) (OneCache (Z.of_N (cch_id cache))) _ Hrow) as Hup.
  assert (Hout : snd (upsert_and_sign (c_db (we_cache w)) id hash package (ingest_input n) (OneCache (Z.of_N (cch_id cache)))) =
    {| io_cached_path := kp_id row; io_created := false |}) by (unfold upsert_and_sign; by rewrite Hrow).
  destruct (upsert_and_sign _ _ _ _ _ _) as [db out]. cbn [fst snd] in Hup, Hout. subst out.
  cbn [with_code result_bind io_cached_path we_cache set_cache c_objects c_db]. split_and!; [done|by rewrite lookup_insert_eq|].
  unfold find_path in *. unfold sign_uploaded_path. by rewrite (proj1 (sign_keeps _ _ _)).
Qed.

End reach.
