(* ===== verification/CacheExamples.v ===== *)
(** * Concrete runs of the binary cache

    Toy ciphers and digests that obey their laws, and on them the theorems about hashes,
    uploads, downloads and narinfos, each applied to a small cache. *)

From stdpp Require Import pretty.
From S2P Require Import Prelude RustStr RustText ScoreContext StorePath Permissions Access Tokens AccessExamples NixHash CacheRows Partials NarStage NarInfo CacheServe NarPull CacheFacts.

Local Open Scope Z_scope.

#[local] Existing Instance nanosecond_clock.
#[local] Existing Instance plain_crypto.

(** ** Digests: the sum of the bytes, 32 times; Base64: two letters a byte *)

Definition nibble (n : Z) : ascii := ascii_of_nat (97 + Z.to_nat (n mod 16)).

Definition letter_value (c : ascii) : option Z :=
  if in_range 97 112 c then Some (Z.of_nat (nat_of_ascii c) - 97) else None.

Fixpoint letters (bs : list Z) : string :=
  match bs with [] => "" | b :: bs => String (nibble (b / 16)) (String (nibble b) (letters bs)) end.

Fixpoint of_letters (s : string) : option (list Z) :=
  match s with
  | EmptyString => Some []
  | String a (String b s) => x ← letter_value a; y ← letter_value b; rest ← of_letters s; Some (x * 16 + y :: rest)
  | String _ EmptyString => None
  end.

Definition text_bytes (s : string) : list Z := map (fun c => Z.of_nat (nat_of_ascii c)) (String.list_ascii_of_string s).

Definition digest_of (s : string) : list Z := repeat (foldr Z.add 0 (text_bytes s) mod 256) 32.

Lemma byte_cases (P : Z -> bool) : forallb (fun n => P (Z.of_nat n)) (seq 0 256) = true -> forall b, 0 <= b < 256 -> P b = true.
Proof.
  intros Hall b Hb. rewrite forallb_forall in Hall. specialize (Hall (Z.to_nat b)). rewrite Z2Nat.id in Hall by lia. apply Hall, in_seq. lia.
Qed.

Lemma ascii_cases (P : ascii -> bool) : forallb (fun n => P (ascii_of_nat n)) (seq 0 256) = true -> forall c, P c = true.
Proof.
  intros Hall c. rewrite forallb_forall in Hall. specialize (Hall (nat_of_ascii c)). rewrite ascii_nat_embedding in Hall. apply Hall, in_seq.
  pose proof (nat_ascii_bounded c). lia.
Qed.

Lemma nibble_letter n : in_range 97 112 (nibble n) = true.
Proof.
  unfold nibble. pose proof (Z.mod_pos_bound n 16 ltac:(lia)) as Hm.
  pose proof (byte_cases (fun m => negb (m <? 16) || in_range 97 112 (ascii_of_nat (97 + Z.to_nat m))) ltac:(vm_compute; reflexivity) (n mod 16) ltac:(lia)) as H.
  cbn beta in H. by rewrite (proj2 (Z.ltb_lt _ _)) in H by lia.
Qed.

Lemma letter_value_range c v : letter_value c = Some v -> 0 <= v < 16.
Proof.
  intros H. pose proof (ascii_cases (fun c => match letter_value c with Some v => (0 <=? v) && (v <? 16) | None => true end) ltac:(vm_compute; reflexivity) c) as Hc.
  cbn beta in Hc. rewrite H in Hc. lia.
Qed.

Lemma byte_letters b : 0 <= b < 256 -> letter_value (nibble (b / 16)) = Some (b / 16) /\ letter_value (nibble b) = Some (b mod 16).
Proof.
  intros Hb. set (ok := fun c n => match letter_value c with Some v => v =? n | None => false end).
  pose proof (byte_cases (fun b => ok (nibble (b / 16)) (b / 16) && ok (nibble b) (b mod 16)) ltac:(vm_compute; reflexivity) b Hb) as H.
  cbn beta in H. unfold ok in H. apply andb_true_iff in H as [H1 H2].
  destruct (letter_value (nibble (b / 16))), (letter_value (nibble b)); try done. apply Z.eqb_eq in H1 as ->, H2 as ->. done.
Qed.

Lemma of_letters_letters bs : Forall is_byte bs -> of_letters (letters bs) = Some bs.
Proof.
  induction 1 as [|b bs Hb _ IH]; [done|]. cbn [letters of_letters]. destruct (byte_letters b Hb) as [-> ->]. cbn [mbind option_bind]. rewrite IH.
  cbn [mbind option_bind]. do 2 f_equal. pose proof (Z.div_mod b 16 ltac:(lia)). lia.
Qed.

Lemma of_letters_bytes : forall n s bs, (String.length s <= n)%nat -> of_letters s = Some bs -> Forall is_byte bs.
Proof.
  induction n as [|n IH]; intros s bs Hn; [destruct s; cbn in Hn; [by intros [= <-]|lia]|].
  destruct s as [|a [|b s]]; [by intros [= <-]|done|]. cbn [of_letters]. destruct (letter_value a) as [x|] eqn:Ea; [|done].
  destruct (letter_value b) as [y|] eqn:Eb; [|done]. cbn [mbind option_bind]. destruct (of_letters s) as [rest|] eqn:Es; [|done]. intros [= <-].
  apply letter_value_range in Ea, Eb. constructor; [unfold is_byte; lia|]. apply (IH s); [cbn in Hn; lia|done].
Qed.

Lemma letters_visible bs : all_chars (in_range 33 126) (letters bs) = true.
Proof.
  assert (H : forall n, in_range 33 126 (nibble n) = true).
  { intros n. pose proof (nibble_letter n) as H. unfold in_range in *. apply andb_true_iff in H as [H1%Nat.leb_le H2%Nat.leb_le].
    apply andb_true_iff. split; apply Nat.leb_le; lia. }
  induction bs as [|b bs IH]; [done|]. cbn [letters all_chars]. by rewrite !H, IH.
Qed.

Lemma text_bytes_ok s : Forall is_byte (text_bytes s).
Proof. apply Forall_map, Forall_forall. intros c _. pose proof (nat_ascii_bounded c). unfold is_byte. lia. Qed.

#[local] Program Instance sum_digests : Digests := {|
  sha256_digest := digest_of; base64_encode := letters; base64_of := of_letters;
|}.
Next Obligation. done. Qed.
Next Obligation. intros s. unfold digest_of. apply Forall_forall. intros x Hx. cbn in Hx. repeat (apply elem_of_cons in Hx as [->|Hx]; [apply Z.mod_pos_bound; lia|]). by apply elem_of_nil in Hx. Qed.
Next Obligation. intros s bs H. by apply (of_letters_bytes (String.length s) s). Qed.
Next Obligation. exact letters_visible. Qed.
Next Obligation. exact of_letters_letters. Qed.

(** ** Signatures in the clear: the message itself *)

Definition pair_key (bs : list Z) : option (list Z) :=
  if Nat.eqb (length bs) 64 && forallb (fun b => (0 <=? b) && (b <? 256)) bs then Some (drop 32 bs) else None.

#[local] Program Instance clear_signing : Signing := {|
  SecretKey := list Z; PublicKey := list Z;
  load_secret_bytes := Some; decrypt_with_password := fun _ bs => Some bs;
  from_utf8 := fun bs => Some (String.string_of_list_ascii (map (fun b => ascii_of_nat (Z.to_nat b)) bs));
  secret_from_slice := pair_key; public_from_slice := Some; signature_from_slice := Some;
  sk_sign := fun _ m => text_bytes m; pk_verify := fun _ m sig => bool_decide (text_bytes m = sig); sk_public := fun sk => sk;
|}.
Next Obligation.
  intros bs sk H. unfold pair_key in H. destruct (_ && _) eqn:E in H; [|done]. injection H as <-. apply andb_true_iff in E as [E1%Nat.eqb_eq E2].
  split_and!; [done| |by rewrite E1]. apply Forall_forall. intros x Hx. rewrite forallb_forall in E2. specialize (E2 x (proj1 (list_elem_of_In _ _) Hx)).
  unfold is_byte. lia.
Qed.
Next Obligation. intros sk m. apply text_bytes_ok. Qed.
Next Obligation. done. Qed.
Next Obligation. intros sk m. by apply bool_decide_eq_true_2. Qed.

(** ** Hashes, narinfos and downloads *)

Lemma hash_verify_exact_witness :
  verify_nar_reader ["ab"; "c"]%string (file_hash_sri "abc") 3 = Ok tt /\
  verify_nar_reader ["ab"; "d"]%string (file_hash_sri "abc") 3 <> Ok tt.
Proof.
  destruct (hash_verify_exact (file_hash_sri "abc") "sha256" (sha256_digest "abc") (sri_names "abc")) as (H & _ & _). split.
  - apply (H ["ab"; "c"]%string 3 eq_refl). split; reflexivity.
  - intros Hv. apply (H ["ab"; "d"]%string 3 eq_refl) in Hv as [_ Hd]. vm_compute in Hd. discriminate Hd.
Defined.

Definition hash0 : string := "0123456789abcdfghijklmnpqrsvwxyz".

Definition hello_info : NixPathInfo := {|
  np_store_path := "/nix/store/" +:+ hash0 +:+ "-hello"; np_url := "nar/f.nar.zst"; np_compression := "zstd";
  np_file_hash := "sha256:f"; np_file_size := 5; np_nar_hash := "sha256:n"; np_nar_size := 4294967296;
  np_references := ["/nix/store/" +:+ hash0 +:+ "-glibc"; hash0 +:+ "-hello"]%string; np_sig := "host-main:abc";
  np_deriver := Some "x-hello.drv"; np_ca := None |}.

Lemma narinfo_roundtrip_witness : parse_narinfo_body (to_nix_string hello_info) = Ok (as_read hello_info).
Proof.
  apply narinfo_roundtrip. constructor; try (vm_compute; reflexivity); try (split; vm_compute; congruence); try exact I.
  repeat constructor; try (vm_compute; reflexivity); vm_compute; discriminate.
Defined.

Definition path0 : string := ("/nix/store/" +:+ hash0 +:+ "-hello")%string.

Definition empty_receiver : NarReceiver := {| re_buffers := ∅; re_headers := ∅; re_waiters := ∅; re_push_waiters := ∅;
  re_partial := Some {| pt_files := ∅; pt_tokens := ∅; pt_claims := 0 |} |}.

Definition whole_read (s : string) : list Read := [Block s].

Lemma whole_reads : store_reads whole_read.
Proof.
  intros s. unfold whole_read. cbn [all_read forallb andb]. rewrite <- (string_app_nil_r s) at 1. repeat constructor.
Qed.

(** Two downloads cut after two messages each, then a whole one. *)
Lemma pull_resumes_witness :
  let objects : gmap string string := {[ object_path "" hash0 := "nar bytes"%string ]} in
  let cut n := {| at_cut := whole_read; at_arrive := Some n; at_now := 0 |} in
  snd (pull 2 whole_read objects "" (attempts 2 objects "" empty_receiver ("job", path0) [cut 2%nat; cut 3%nat]) ("job", path0) None 9)
    = Some (Delivered "nar bytes") /\
  fst (pull_request (attempts 2 objects "" empty_receiver ("job", path0) [cut 2%nat; cut 3%nat]) ("job", path0)) = 6.
Proof.
  split; [|vm_compute; reflexivity].
  apply (pull_resumes 2 {[ object_path "" hash0 := "nar bytes"%string ]} "" hash0 "nar bytes" empty_receiver ("job", path0)%string
    (default "" (partial_key "job" path0)) {| pt_files := ∅; pt_tokens := ∅; pt_claims := 0 |}
    [{| at_cut := whole_read; at_arrive := Some 2%nat; at_now := 0 |}; {| at_cut := whole_read; at_arrive := Some 3%nat; at_now := 0 |}]).
  - lia.
  - apply lookup_singleton_eq.
  - vm_compute. reflexivity.
  - discriminate.
  - vm_compute. reflexivity.
  - intros H. vm_compute in H. discriminate H.
  - repeat constructor; exact whole_reads.
  - exact whole_reads.
  - done.
Defined.

(** ** Pushes and commits *)

Definition no_partials : Partials := {| pt_files := ∅; pt_tokens := ∅; pt_claims := 0 |}.

Definition session0 : NarReceiveStore := new_receive_store "w1" 8.

Lemma append_within_budget_witness :
  snd (nar_append session0 no_partials "j" path0 0 "12345" 0 None None) = AppendOk /\
  (let '(n', s', outcome) := nar_append session0 no_partials "j" path0 0 "123456789" 0 None None in
   outcome = AppendOverflow /\ is_poisoned n' "j" path0 = true).
Proof.
  split; [vm_compute; reflexivity|].
  pose proof (append_within_budget session0 no_partials "j" path0 hash0 0 "123456789" 0 None ltac:(vm_compute; reflexivity)
    ltac:(cbn; set_solver) ltac:(vm_compute; reflexivity)) as H.
  destruct (nar_append session0 no_partials "j" path0 0 "123456789" 0 None None) as [[n' s'] out] eqn:E.
  assert (Ho : out = AppendOverflow) by (change out with (snd (n', s', out)); rewrite <- E; vm_compute; reflexivity).
  subst out. split; [done|]. apply H.
Defined.

Definition main_cache : CacheRow := {| ca_id := 5; ca_name := "main";
  ca_private_key := letters (text_bytes (letters (repeat 7 64))); ca_public_key := letters (repeat 7 32) |}.
Definition second_cache : CacheRow := {| ca_id := 6; ca_name := "second";
  ca_private_key := ca_private_key main_cache; ca_public_key := "" |}.

Definition deployment0 : Deployment := {| de_secret_file := "secret"; de_serve_url := "https://cache.example:443"; de_prefix := "" |}.

Definition db0 : CacheDb := {|
  cached_paths := []; signatures := []; path_references := [];
  outputs := [{| ou_derivation := 1; ou_hash := hash0; ou_package := "hello"; ou_is_cached := false; ou_cached_path := None |}];
  caches := [main_cache; second_cache]; subscriptions := [(3, 5)]; producers := []; metrics := []; dependencies := [];
  built_for := [(5, 1)]; cache_derivations := [] |}.

(** What a worker reports about a NAR with these bytes. *)
Definition report (bytes : string) (nar_size : Z) : NarUploadRecord := {|
  up_file_hash := file_hash_sri bytes; up_file_size := strlen bytes; up_nar_size := nar_size; up_nar_hash := file_hash_sri ("nar" +:+ bytes);
  up_references := [("/nix/store/" +:+ hash0 +:+ "-glibc")%string]; up_deriver := None; up_ca := None |}.

Definition upload0 (bytes : string) : NarUploaded := {| nu_job_id := "j"; nu_store_path := path0; nu_record := report bytes 9 |}.

Definition world0 : Cache := {| c_partials := no_partials; c_objects := ∅; c_db := db0 |}.

Lemma push_commits_exact_witness : exists n1 s1 n2 s2 n3 s3 c w' written,
  on_push_stream_header session0 no_partials "j" path0 "t" None = (n1, s1, [NarPushResume "j" path0 0]) /\
  push_all n1 s1 "j" path0 ["ab"; "cd"]%string 0 7 = (n2, s2, []) /\
  on_nar_uploaded n2 s2 (upload0 "abcd") (fun _ => Some 3) None = (n3, s3, [], Some c) /\
  store_commit (with_c_partials world0 s3) deployment0 c false no_faults = (w', Ok tt) /\
  put_nar_idempotent db0 ∅ "" hash0 (file_hash_sri "abcd") "abcd" (cf_store no_faults) = Ok (c_objects w', written).
Proof.
  apply (push_commits_exact world0 deployment0 session0 "j" path0 hash0 "t" "" ["ab"; "cd"]%string 7 (upload0 "abcd") (fun _ => Some 3) false 0).
  - vm_compute. reflexivity.
  - vm_compute. reflexivity.
  - right. split; [done|]. cbn. rewrite lookup_empty. discriminate.
  - discriminate.
  - vm_compute. reflexivity.
  - vm_compute. discriminate.
  - reflexivity.
  - reflexivity.
  - vm_compute. reflexivity.
  - vm_compute. reflexivity.
Defined.

(** A staged NAR and the commit that waits for it. *)
Definition staged_file (key bytes : string) (s : Partials) : Partials := {|
  pt_files := <[key := {| pf_bytes := bytes; pf_mtime := 0 |}]> (pt_files s); pt_tokens := <[key := "t"%string]> (pt_tokens s); pt_claims := pt_claims s |}.

Definition commit_of (peer key bytes : string) : CommitUploadedNar := {| cu_peer_id := peer; cu_upload := upload0 bytes; cu_org_id := Some 3;
  cu_hash := hash0; cu_staged := Some {| sn_key := key; sn_token := "t" |} |}.

Definition staged_world : Cache := with_c_partials world0 (staged_file "b" "wxyz" (staged_file "a" "abcd" no_partials)).

Lemma nothing_recorded : rows_true "" db0 ∅.
Proof. intros h row fh bytes _ Hf. vm_compute in Hf. discriminate Hf. Qed.


Lemma claims_escape_budget_witness :
  let sv := {| sv_cache := world0; sv_sessions := {[ "w1"%string := session0 ]}; sv_waiting := []; sv_stored := [] |} in
  let sv' := Nat.iter 4 (wasted_round deployment0 (fun _ => None) 8 "w1" "1234567" (upload0 "") 0) sv in
  total_bytes (c_partials (sv_cache sv')) = 28 /\ (staged_total <$> sv_sessions sv' !! "w1"%string) = Some 0.
Proof.
  apply (claims_escape_budget deployment0 (fun _ => None) 8 "w1" hash0 "1234567" (upload0 "") 0 4).
  - vm_compute. reflexivity.
  - discriminate.
  - split; vm_compute; congruence.
  - vm_compute. discriminate.
  - vm_compute. discriminate.
  - apply lookup_singleton_eq.
  - reflexivity.
  - reflexivity.
Defined.

(** Two builds of one derivation that differ, reported by two workers at once. *)
Lemma racing_commits_corrupt_witness :
  let sv := {| sv_cache := staged_world; sv_sessions := ∅; sv_waiting := [commit_of "w1" "a" "abcd"; commit_of "w2" "b" "wxyz"]; sv_stored := [] |} in
  let step sv i := fst (server_step deployment0 (fun _ => None) 8 sv i) in
  let w := sv_cache (step (step (step (step sv (StoreNext 0 false no_faults)) (StoreNext 0 false no_faults)) (RecordNext 1 12 0)) (RecordNext 0 11 0)) in
  ~ rows_true "" (c_db w) (c_objects w).
Proof.
  destruct (store_commit staged_world deployment0 (commit_of "w1" "a" "abcd") false no_faults) as [w1 r1] eqn:E1.
  assert (Hr1 : r1 = Ok tt) by (change r1 with (snd (w1, r1)); rewrite <- E1; vm_compute; reflexivity). subst r1.
  destruct (store_commit w1 deployment0 (commit_of "w2" "b" "wxyz") false no_faults) as [w2 r2] eqn:E2.
  assert (Hr2 : r2 = Ok tt).
  { change r2 with (snd (w2, r2)). rewrite <- E2. change w1 with (fst (w1, @Ok () string tt)). rewrite <- E1. vm_compute. reflexivity. }
  subst r2.
  apply (racing_commits_corrupt deployment0 (fun _ => None) 8
    {| sv_cache := staged_world; sv_sessions := ∅; sv_waiting := [commit_of "w1" "a" "abcd"; commit_of "w2" "b" "wxyz"]; sv_stored := [] |}
    (commit_of "w1" "a" "abcd") (commit_of "w2" "b" "wxyz") false false no_faults no_faults {| sn_key := "a"; sn_token := "t" |} {| sn_key := "b"; sn_token := "t" |}
    (from_parts hash0 "hello") (from_parts hash0 "hello") w1 w2 11 12 0 0); try reflexivity; try exact E1; try exact E2.
  - vm_compute. constructor.
  - apply (bool_decide_unpack _). by vm_compute.
  - vm_compute. discriminate.
  - intros row H. vm_compute in H. discriminate H.
Defined.

(** ** What is served *)

Definition key0 : SecretKey := repeat 7 32.

Lemma main_keys : keys_of "secret" main_cache key0.
Proof.
  exists (letters (repeat 7 64)), (repeat 7 64). split_and!; [vm_compute; reflexivity|vm_compute; reflexivity|vm_compute; reflexivity|right; vm_compute; reflexivity].
Qed.

Lemma first_hello bytes nar_size : first_upload db0 11 3 main_cache hash0 "hello" (report bytes nar_size).
Proof.
  constructor; try (vm_compute; reflexivity); try exact I.
  - split; [discriminate|vm_compute; reflexivity].
  - constructor.
  - left.
  - discriminate.
  - repeat constructor.
  - eexists _, _. apply sri_names.
  - eexists _, _. apply sri_names.
  - constructor; [|constructor]. split_and!; [right; exists (hash0 +:+ "-glibc")%string; split; vm_compute; reflexivity|vm_compute; reflexivity|vm_compute; discriminate].
  - apply NoDup_singleton.
Qed.


Lemma reupload_breaks_signature_witness : exists db1 db2 pk,
  mark_nar_stored db0 deployment0 11 (Some 3) path0 (report "abcd" 9) = Ok db1 /\
  mark_nar_stored db1 deployment0 12 (Some 3) path0 (report "wxyz" 9) = Ok db2 /\
  format_cache_public_key "secret" main_cache "https://cache.example:443" = Ok pk /\
  forall last now, exists i, get_nar_by_hash (fst (sign_missing_signatures db2 deployment0 last now)) deployment0 main_cache hash0 = Ok i /\
    np_nar_hash i = normalize_nar_hash (file_hash_sri "narwxyz") /\ verify_narinfo_signature pk (to_nix_string i) = false.
Proof.
  apply (reupload_breaks_signature db0 deployment0 11 12 3 3 main_cache hash0 "hello" (report "abcd" 9) (report "wxyz" 9) key0 (first_hello "abcd" 9) main_keys);
    try (vm_compute; reflexivity); eexists _, _; apply sri_names.
Defined.

(** ** Two caches *)

#[local] Instance no_upstreams : Upstreams := {| http_get := fun _ => None |}.

Definition open_cache (id : N) (name : string) (owner : N) : MCache :=
  {| cch_id := id; cch_name := name; cch_public := true; cch_created_by := owner; cch_managed := false |}.

(** Alice administers [second]; the path is in [main] only. *)
Definition access0 : AccessDb := AccessAdmin.seed_roles {|
  ad_users := [alice]; ad_organizations := []; ad_organization_users := []; ad_roles := []; ad_projects := [];
  ad_caches := [{| cch_id := 5; cch_name := "main"; cch_public := false; cch_created_by := 2; cch_managed := false |}; open_cache 6 "second" 1];
  ad_cache_users := [{| cmb_id := 40; cmb_cache := 6; cmb_user := 1; cmb_role := BASE_CACHE_ROLE_ADMIN_ID |}];
  ad_cache_roles := []; ad_organization_caches := []; ad_apis := []; ad_sessions := []; ad_audit := [] |}.

Definition settings0 (id : N) (row : CacheRow) : CacheSettings := {| st_cache := id; st_active := true; st_priority := 40;
  st_local_priority := None; st_private_key := ca_private_key row; st_public_key := ca_public_key row |}.

Definition web0 : Web := {| we_access := access0; we_settings := [settings0 5 main_cache; settings0 6 second_cache]; we_upstreams := [];
  we_cache := {| c_partials := no_partials; c_objects := {[ object_path "" hash0 := "abcd"%string ]};
    c_db := match mark_nar_stored db0 deployment0 11 (Some 3) path0 (report "abcd" 9) with Ok db => db | Err _ => db0 end |};
  we_uploads := staged_file ("6/" +:+ hash0) "wxyz" no_partials |}.

Definition config0 : WebConfig := {| wc_deployment := deployment0; wc_trusted_proxies := []; wc_local_ips := [];
  wc_max_nar_upload_size := 100; wc_partial_ttl := 60; wc_version := "1" |}.

Definition visit0 : Visit := {| vi_now := at_ns 5; vi_request := {| rq_authorization := None; rq_cookie := None; rq_forwarded_for := None; rq_peer := None |}; vi_peer := None |}.

(** Anybody may read [second]; [main] is private, and so is all it holds. *)
Lemma nar_of_any_cache_witness : exists cache s w',
  cache_context web0 config0 visit0 "second" = (w', Ok (cache, s)) /\ cch_name cache = "second"%string /\
  get_nar_by_hash (c_db (we_cache web0)) deployment0 (cache_row cache s) hash0 = Err (not_found "Signature") /\
  nar web0 config0 visit0 "second" (hash0 +:+ ".nar.zst") = (w', Ok (plain (Nar "abcd"))).
Proof.
  exists (open_cache 6 "second" 1), (settings0 6 second_cache). eexists. split; [vm_compute; reflexivity|]. split; [reflexivity|].
  eapply (nar_of_any_cache web0 config0 visit0 "second" hash0); vm_compute; reflexivity.
Defined.

Definition part0 : NarinfoPart := {| na_store_path := path0; na_file_hash := file_hash_sri "wxyz"; na_file_size := 4; na_nar_size := 9;
  na_nar_hash := "sha256:anything"; na_references := []; na_deriver := None |}.

Lemma upload_crosses_caches_witness :
  let '(w', r) := nar_finalize web0 config0 alice None "second" hash0 part0 13 {| fault_lookup := false; fault_head := false; fault_put := false |} in
  r = Ok (201, {| io_cached_path := 11; io_created := false |}) /\ c_objects (we_cache w') !! object_path "" hash0 = Some "wxyz"%string.
Proof.
  destruct (find_path (c_db (we_cache web0)) hash0) as [row|] eqn:Erow; [|vm_compute in Erow; discriminate Erow].
  assert (Hid : kp_id row = 11) by (vm_compute in Erow; injection Erow as <-; reflexivity).
  assert (Hfh : kp_file_hash row <> Some (normalize_nar_hash (na_file_hash part0))) by (vm_compute in Erow; injection Erow as <-; vm_compute; discriminate).
  pose proof (upload_crosses_caches web0 config0 alice None "second" hash0 part0 13 (open_cache 6 "second" 1) hash0 "hello" row "wxyz"
    ltac:(vm_compute; reflexivity) ltac:(vm_compute; reflexivity) ltac:(vm_compute; reflexivity) ltac:(vm_compute; reflexivity)
    ltac:(vm_compute; reflexivity) ltac:(vm_compute; reflexivity) Erow Hfh) as H.
  destruct (nar_finalize _ _ _ _ _ _ _ _ _) as [w' r]. rewrite Hid in H. destruct H as (Hr & Ho & _). by split.
Defined.
